(* ===== verification/_CoqProject ===== *)
-Q . S2P
Prelude.v
KList.v
KListAlgo.v
FixedPoint.v
Thread.v
Synch.v
Kernel.v
Sched.v
Tokens.v
Safety.v
Calls.v
Tick.v
Machine.v
KernelSpec.v
Bitmap.v
Arith64.v
Random.v
CString.v
Words.v
CStdlib.v
Hash.v
Vaddr.v
Palloc.v
Segments.v
Intr.v
Clock.v
Malloc.v
Stdio.v
Inode.v
OpenFiles.v
Ustar.v
Filesys.v
Pagedir.v
Paging.v
AddrSpace.v
Args.v
Elf.v
Fsutil.v
Swap.v
Frame.v
Vm.v
VmSpec.v
VmFault.v
VmMemory.v
VmRaces.v
Syscall.v
Intq.v
Kbd.v
Vga.v
Block.v
Rtc.v
Boot.v
