(* ===== verification/Prelude.v ===== *)
(** Pintos, an operating system kernel for the i386: its threads, processes, virtual
    memory, file system, devices and library, translated from the C source and proved
    correct as far as they are.

    File names are those under src/pintos/src.  The build is the one with virtual memory
    ([USERPROG], [FILESYS] and [VM] defined).

    * The program

    The kernel runs threads on one processor (threads/), which switch when they block or
    when the timer interrupts them.  A thread may run a user program (userprog/), which
    enters the kernel by system calls, page faults and interrupts.  The pages of a program
    are loaded when they are first used and moved to a swap device when memory is short
    (vm/).  Files are kept in one directory on a disk (filesys/).  devices/ has the
    drivers and lib/ the lists, bitmaps, hash tables, strings and printing that all of them
    use.

    * The vocabulary (this file)

    - [outcome]: what a call of a kernel routine comes to.  [Ok] carries the
      result; [AssertFail] is a failed [ASSERT], [PANIC] or [NOT_REACHED]
      (all of them stop the kernel, lib/debug.h); [Fault] is an access the C
      source leaves undefined (a read or write outside an object, a null
      dereference); [NoFuel] is a loop bound of the model that was too small.
    - [M S]: a routine that reads and writes a store of type [S].
    - [runs m s Q]: the routine [m], started in [s], returns normally and its
      result and final store satisfy [Q] (total correctness).
    - machine integers: [u8], [u32], [s32], [u64], [s64] reduce an integer to
      the range of the C type (the i386 target: [int], [long], [size_t] and
      pointers have 32 bits, [long long] has 64).
    - lemmas on the monads, lists and bit fields used by several components.

    * The library: lib/

    - KList.v, KListAlgo.v: lib/kernel/list.c on a store of cells with two links.  Each
      routine does to the sequence of elements what its comment says; [list_sort] returns
      and leaves a stable sorted permutation.
    - Bitmap.v: lib/kernel/bitmap.c.  Hash.v: lib/kernel/hash.c; an element that was
      inserted is found.  FixedPoint.v: lib/kernel/arith_fp.c.
    - CString.v, Words.v: lib/string.c on a memory of bytes.  CStdlib.v: lib/stdlib.c; the
      heap sort sorts.  Arith64.v: lib/arithmetic.c; the 64-bit quotient is right.
      Random.v: lib/random.c.  Stdio.v: lib/stdio.c; [vsnprintf] stays in its buffer.
      Ustar.v: lib/ustar.c; headers are read back.

    * Threads: threads/, devices/timer.c

    - Thread.v, Synch.v, Kernel.v: thread.c, synch.c, the interrupt level of interrupt.c,
      the timer interrupt, and the creation, waiting and exit of processes.  The state is
      the record of the kernel's variables and the [struct thread]s; what a thread still
      has to do is a list of frames, and a step is a call, a frame or a timer interrupt.
    - Sched.v, Tokens.v, Safety.v, Calls.v, Tick.v, Machine.v: the invariant and its
      preservation by each step.
    - KernelSpec.v: what holds in every state the kernel reaches.  No assertion fails and
      no freed thread is used; each thread is where its status says; locks exclude; the
      sleepers that are due wake; the highest priority runs after a yield; a parent gets
      the status of its child; the load average stays in its format.
    - Clock.v: devices/pit.c, and the calibration and real-time delays of timer.c.
    - Segments.v, Intr.v: userprog/gdt.c and tss.c, the interrupt table and controllers of
      interrupt.c.  Words are read the way the processor reads them: an interrupt in a
      program comes in on the kernel stack, and programs can raise four vectors only.

    * Memory: threads/, userprog/pagedir.c, vm/

    - Vaddr.v, Palloc.v, Malloc.v: vaddr.h and pte.h, palloc.c, malloc.c.  What is
      allocated overlaps nothing in use, and freeing keeps the rest as it was.
    - Pagedir.v, AddrSpace.v: pagedir.c on words of memory, with a processor that caches
      translations.  A directory is a finite map, the TLB never differs from it, and
      destroying it frees its pages and no others.  Paging.v: [paging_init] of init.c.
    - Swap.v, Frame.v, Vm.v: swap.c, frame.c, page.c and [page_fault] of
      userprog/exception.c.  Frame.v asks the page tables for the interface [AccessBits]
      only, which VmSpec.v shows them to have.
    - VmSpec.v, VmFault.v, VmMemory.v: the memory of the processes refines one that has no
      frames, slots or tables.  A fault brings its page back, and the clock gives each page
      its second chance and ends.
    - VmRaces.v: two runs outside of that machine, in which bytes are lost.

    * Files: filesys/, devices/block.c

    - Inode.v, OpenFiles.v, Filesys.v: inode.c, file.c, free-map.c, directory.c, filesys.c
      on a disk of sectors.  An inode is an array of bytes, a directory a map from names,
      and the reference counts are right.
    - Fsutil.v: fsutil.c; what is appended to an archive is extracted again.
    - Block.v: devices/block.c, partition.c, [locate_block_devices] of init.c.

    * Programs: userprog/

    - Args.v, Elf.v: process.c.  The stack of a new program is that of the calling
      convention; any file whatever is loaded safely, and a segment has the file's bytes.
    - Syscall.v: syscall.c and the files of [process_exit].  The calls on files refine
      cursors over arrays of bytes.

    * Devices and start: devices/, threads/init.c

    - Intq.v: intq.c and input.c; bytes come out in the order they went in.  Kbd.v: kbd.c.
      Vga.v: vga.c refines a terminal.  Rtc.v: rtc.c.
    - Boot.v: the command line of init.c: its options and actions.

    * Fuel

    Loops that are not structural run on fuel that is computed from the state: the number
    of cells or bytes of the store for traversals and scans, the number of elements for
    heaps and searches, the bits of a word where a turn uses one up, the sectors of a file
    for copies.  The theorems say that routines return, with a result, so that this fuel
    was enough.

    * What the models leave out

    - Where a lock protects all of a routine, the routine is one step (palloc.c, malloc.c,
      swap.c, frame.c, the calls on files).  In VmMemory.v an eviction is one step also
      for the program whose page it takes, which the code does not ensure, and no process
      exits: VmRaces.v shows bytes lost in both cases.
    - [struct page]s and supplemental entries are named by their addresses; the contents of
      an executable stand for the open file of its entries.
    - What is printed is left out, where no routine depends on it.

    * Not modelled

    - devices/ide.c, speaker.c, shutdown.c and all of serial.c but its queue: sequences of
      accesses to ports, whose meaning is that of the hardware behind them.
    - threads/loader.S, start.S, switch.S, intr-stubs.S and the inline assembly of
      lib/user: assembly.
    - lib/kernel/console.c, lib/debug.c, lib/kernel/debug.c: printing and backtraces.
    - [too_many_loops] and [busy_wait] of timer.c: they pass time.
    - The rest of [main] in init.c, which calls the parts in turn; examples, tests, utils:
      programs on top of the kernel and scripts. *)

From stdpp Require Export base tactics numbers list list_numbers gmap sorting strings.

#[global] Open Scope Z_scope.

(** * Outcomes and the store monad *)

Inductive err := AssertFail | Fault | NoFuel.

Inductive outcome (A : Type) :=
| Ok (a : A)
| Err (e : err).
Arguments Ok {A} a.
Arguments Err {A} e.

#[global] Instance err_eq_dec : EqDecision err.
Proof. solve_decision. Defined.

#[global] Instance outcome_ret : MRet outcome := λ A a, Ok a.
#[global] Instance outcome_bind : MBind outcome := λ A B f o,
  match o with Ok a => f a | Err e => Err e end.

Definition M (S A : Type) : Type := S → outcome (A * S).

#[global] Instance M_ret {S} : MRet (M S) := λ A a s, Ok (a, s).
#[global] Instance M_bind {S} : MBind (M S) := λ A B f m s,
  match m s with Ok (a, s') => f a s' | Err e => Err e end.

Definition fail {S A} (e : err) : M S A := λ _, Err e.
Definition get {S} : M S S := λ s, Ok (s, s).
Definition gets {S A} (f : S → A) : M S A := λ s, Ok (f s, s).
Definition put {S} (s : S) : M S unit := λ _, Ok (tt, s).
Definition modify {S} (f : S → S) : M S unit := λ s, Ok (tt, f s).

(** [ASSERT (b)] *)
Definition assert {S} (b : bool) : M S unit :=
  if b then mret tt else fail AssertFail.

Definition oassert (b : bool) : outcome unit :=
  if b then Ok tt else Err AssertFail.

(** a value the source reads through a pointer that may be invalid *)
Definition from_option_fault {S A} (o : option A) : M S A :=
  match o with Some a => mret a | None => fail Fault end.

Definition ofault {A} (o : option A) : outcome A :=
  match o with Some a => Ok a | None => Err Fault end.

Lemma obind_ok {A B} (o : outcome A) (f : A → outcome B) a : o = Ok a → o ≫= f = f a.
Proof. by intros ->. Qed.

Lemma bind_ok {S A B} (x : M S A) (f : A → M S B) s a s' : x s = Ok (a, s') → (x ≫= f) s = f a s'.
Proof. intros H. unfold mbind, M_bind. by rewrite H. Qed.

Lemma bind_err {S A B} (x : M S A) (f : A → M S B) s e : x s = Err e → (x ≫= f) s = Err e.
Proof. intros H. unfold mbind, M_bind. by rewrite H. Qed.

Lemma bind_assoc {S A B D} (m : M S A) (f : A → M S B) (g : B → M S D) s : ((m ≫= f) ≫= g) s = (m ≫= λ x, f x ≫= g) s.
Proof. unfold mbind, M_bind. by destruct (m s) as [[]|]. Qed.

Lemma bind_cong {S A B} (m m' : M S A) (f g : A → M S B) s : m s = m' s → (∀ a s, f a s = g a s) → (m ≫= f) s = (m' ≫= g) s.
Proof. intros Hm H. unfold mbind, M_bind. rewrite Hm. destruct (m' s) as [[]|]; [apply H|done]. Qed.

Lemma assert_bind {S A} b (f : M S A) s : b = true → (assert b;; f) s = f s.
Proof. by intros ->. Qed.

(** a computation on no store, run on one *)
Definition lift_out {S A} (o : outcome A) : M S A := λ s,
  match o with Ok a => Ok (a, s) | Err e => Err e end.

Lemma lift_out_eq {S A} (o : outcome A) a (s : S) : o = Ok a → lift_out o s = Ok (a, s).
Proof. by intros ->. Qed.

(** ** Total correctness *)

Definition runs {S A} (m : M S A) (s : S) (Q : A → S → Prop) : Prop :=
  ∃ a s', m s = Ok (a, s') ∧ Q a s'.

Section runs.
Context {S : Type}.
Implicit Types s : S.

Lemma runs_ret {A} (a : A) s (Q : A → S → Prop) : Q a s → runs (mret a) s Q.
Proof. intros; by exists a, s. Qed.

Lemma runs_bind {A B} (m : M S A) (f : A → M S B) s (Q : B → S → Prop) :
  runs m s (λ a s', runs (f a) s' Q) → runs (m ≫= f) s Q.
Proof.
  intros (a & s' & Hm & b & s'' & Hf & HQ). exists b, s''. split; [|done].
  unfold mbind, M_bind. by rewrite Hm.
Qed.

Lemma runs_mono {A} (m : M S A) s (P Q : A → S → Prop) :
  runs m s P → (∀ a s', P a s' → Q a s') → runs m s Q.
Proof. intros (a & s' & ? & ?) HPQ. exists a, s'. eauto. Qed.

Lemma runs_assert b s (Q : unit → S → Prop) :
  b = true → Q tt s → runs (assert b) s Q.
Proof. intros ->. apply runs_ret. Qed.

Lemma runs_det {A} (m : M S A) s (P Q : A → S → Prop) :
  runs m s P → runs m s Q → runs m s (λ a s', P a s' ∧ Q a s').
Proof.
  intros (a & s' & H1 & ?) (b & s'' & H2 & ?).
  rewrite H1 in H2. simplify_eq. exists b, s''. done.
Qed.
End runs.

(** Peels one bind off a [runs] goal. *)
Ltac runs_step := apply runs_bind.

(** * Machine integers *)

Definition u8 (z : Z) : Z := z mod 2 ^ 8.
Definition u32 (z : Z) : Z := z mod 2 ^ 32.
Definition u64 (z : Z) : Z := z mod 2 ^ 64.
Definition s32 (z : Z) : Z := (z + 2 ^ 31) mod 2 ^ 32 - 2 ^ 31.
Definition s64 (z : Z) : Z := (z + 2 ^ 63) mod 2 ^ 64 - 2 ^ 63.

Definition INT_MAX : Z := 2 ^ 31 - 1.
Definition INT_MIN : Z := - 2 ^ 31.
Definition UINT_MAX : Z := 2 ^ 32 - 1.

Lemma u32_small z : 0 ≤ z < 2 ^ 32 → u32 z = z.
Proof. apply Z.mod_small. Qed.

Lemma u64_small z : 0 ≤ z < 2 ^ 64 → u64 z = z.
Proof. apply Z.mod_small. Qed.

Lemma u8_small z : 0 ≤ z < 2 ^ 8 → u8 z = z.
Proof. apply Z.mod_small. Qed.

Lemma u32_range z : 0 ≤ u32 z < 2 ^ 32.
Proof. apply Z.mod_pos_bound. lia. Qed.

Lemma u64_range z : 0 ≤ u64 z < 2 ^ 64.
Proof. apply Z.mod_pos_bound. lia. Qed.

Lemma u8_range z : 0 ≤ u8 z < 2 ^ 8.
Proof. apply Z.mod_pos_bound. lia. Qed.

Lemma s32_small z : - 2 ^ 31 ≤ z < 2 ^ 31 → s32 z = z.
Proof. intros. unfold s32. rewrite Z.mod_small; lia. Qed.

Lemma s64_small z : - 2 ^ 63 ≤ z < 2 ^ 63 → s64 z = z.
Proof. intros. unfold s64. rewrite Z.mod_small; lia. Qed.

Lemma s32_range z : - 2 ^ 31 ≤ s32 z < 2 ^ 31.
Proof. unfold s32. pose proof (Z.mod_pos_bound (z + 2 ^ 31) (2 ^ 32)). lia. Qed.

Lemma s64_range z : - 2 ^ 63 ≤ s64 z < 2 ^ 63.
Proof. unfold s64. pose proof (Z.mod_pos_bound (z + 2 ^ 63) (2 ^ 64)). lia. Qed.

(** ** Bit fields *)

(** fields that do not overlap: [|] is a sum *)
Lemma lor_shift a b k : 0 ≤ k → 0 ≤ a < 2 ^ k → Z.lor a (b * 2 ^ k) = a + b * 2 ^ k.
Proof.
  intros Hk Ha. symmetry. apply Z.add_nocarry_lor. apply Z.bits_inj'. intros n Hn. rewrite Z.land_spec, Z.bits_0.
  destruct (Z.lt_ge_cases n k); [by rewrite Z.mul_pow2_bits_low, andb_false_r by lia|].
  replace a with (a mod 2 ^ k) by (apply Z.mod_small; lia). by rewrite Z.mod_pow2_bits_high by lia.
Qed.

(** a mask of [w] bits at bit [k] *)
Lemma land_mask x w k : 0 ≤ w → 0 ≤ k → Z.land x (Z.ones w * 2 ^ k) = x / 2 ^ k mod 2 ^ w * 2 ^ k.
Proof.
  intros Hw Hk. rewrite <- Z.land_ones, <- Z.shiftr_div_pow2, <- !Z.shiftl_mul_pow2 by lia. apply Z.bits_inj'. intros n Hn. rewrite Z.land_spec.
  destruct (Z.lt_ge_cases n k); [by rewrite !Z.shiftl_spec_low, andb_false_r by lia|].
  rewrite !Z.shiftl_spec, Z.land_spec, Z.shiftr_spec by lia. by replace (n - k + k) with n by lia.
Qed.

(** the [w] bits of a word from bit [k] on *)
Definition bits_at (z k w : Z) : Z := z / 2 ^ k mod 2 ^ w.

(** * Rewriting database for the machine integers *)

Create Rewrite HintDb machine.
#[export] Hint Rewrite u8_small u32_small u64_small s32_small s64_small
  using (cbn; lia) : machine.

(** * Lists *)

Section list_lemmas.
Context {A : Type}.
Implicit Types (l k : list A) (x y : A).

Lemma NoDup_length_le_size `{Countable K} {V} (m : gmap K V) (ks : list K) :
  NoDup ks → (∀ i, i ∈ ks → is_Some (m !! i)) → (length ks ≤ size m)%nat.
Proof.
  intros Hnd Hin.
  rewrite <- (size_dom m), <- (size_list_to_set (C:=gset K) ks Hnd).
  apply subseteq_size. intros i. rewrite elem_of_list_to_set, elem_of_dom. auto.
Qed.

Lemma elem_of_here x l : x ∈ x :: l.
Proof. constructor. Qed.
End list_lemmas.

(** ** Filters *)

Lemma filter_ext_in {A} (Q R : A → Prop) `{∀ x, Decision (Q x)} `{∀ x, Decision (R x)} (l : list A) :
  (∀ x, x ∈ l → Q x ↔ R x) → filter Q l = filter R l.
Proof.
  induction l as [|x l IH]; [done|]. intros E. rewrite !filter_cons, IH by (intros; apply E; by right).
  pose proof (E x ltac:(left)). destruct (decide (Q x)), (decide (R x)); tauto.
Qed.

Lemma filter_all {A} (Q : A → Prop) `{∀ x, Decision (Q x)} (l : list A) : (∀ x, x ∈ l → Q x) → filter Q l = l.
Proof.
  induction l as [|x l IH]; [done|]. intros E. rewrite filter_cons, decide_True by (apply E; left).
  f_equal. apply IH. intros; apply E; by right.
Qed.

Lemma filter_none {A} (Q : A → Prop) `{∀ x, Decision (Q x)} (l : list A) : (∀ x, x ∈ l → ¬ Q x) → filter Q l = [].
Proof.
  induction l as [|x l IH]; [done|]. intros E. rewrite filter_cons, decide_False by (apply E; left).
  apply IH. intros; apply E; by right.
Qed.
