(* ===== verification/KList.v ===== *)
(** lib/kernel/list.c, lib/kernel/list.h: intrusive doubly linked lists.

    The store [heap] maps the address of a [struct list_elem] to its two
    links; a [struct list] is the pair of the addresses of its [head] and
    [tail] members.  Every routine of list.c is translated to the loads and
    stores it performs, in its order.  [dll h l xs] says that the store [h]
    holds at [l] a well-formed list whose interior elements are, front to
    back, [xs]; the theorems show what each routine does to [xs], so that the
    clients (ready queue, semaphore waiters, LRU list, hash buckets, open
    inodes) can be modelled with sequences of addresses.

    Traversals carry fuel.  It is [S (size h)]: the elements of a list are
    distinct cells of the store, so that many steps always reach the tail. *)

From S2P Require Import Prelude.

(** * Data *)

Record list_elem := mk_list_elem { prev : Z; next : Z }.

(** [struct list]: the addresses of its two header elements. *)
Record klist := mk_klist { head : Z; tail : Z }.

Abbreviation heap := (gmap Z list_elem).

Definition NULL : Z := 0.

Definition load (a : Z) : M heap list_elem := λ h,
  match h !! a with Some e => Ok (e, h) | None => Err Fault end.

Definition store (a : Z) (e : list_elem) : M heap unit := λ h,
  match h !! a with Some _ => Ok (tt, <[a := e]> h) | None => Err Fault end.

(** [a->prev = v] and [a->next = v] *)
Definition store_prev (a v : Z) : M heap unit :=
  e ← load a; store a (mk_list_elem v (next e)).
Definition store_next (a v : Z) : M heap unit :=
  e ← load a; store a (mk_list_elem (prev e) v).

Definition load_prev (a : Z) : M heap Z := e ← load a; mret (prev e).
Definition load_next (a : Z) : M heap Z := e ← load a; mret (next e).

Definition with_fuel {A} (f : nat → M heap A) : M heap A := λ h, f (S (size h)) h.

(** * The routines of list.c *)

Definition is_head (elem : Z) : M heap bool :=
  if elem =? NULL then mret false else
  e ← load elem; mret ((prev e =? NULL) && negb (next e =? NULL)).

Definition is_interior (elem : Z) : M heap bool :=
  if elem =? NULL then mret false else
  e ← load elem; mret (negb (prev e =? NULL) && negb (next e =? NULL)).

Definition is_tail (elem : Z) : M heap bool :=
  if elem =? NULL then mret false else
  e ← load elem; mret (negb (prev e =? NULL) && (next e =? NULL)).

(** [a || b] on tests that read the store *)
Definition orelse (a b : M heap bool) : M heap bool :=
  r ← a; if (r : bool) then mret true else b.

Definition list_init (l : klist) : M heap unit :=
  store_prev (head l) NULL;;
  store_next (head l) (tail l);;
  store_prev (tail l) (head l);;
  store_next (tail l) NULL.

Definition list_begin (l : klist) : M heap Z := load_next (head l).

Definition list_next (elem : Z) : M heap Z :=
  c ← orelse (is_head elem) (is_interior elem); assert c;;
  load_next elem.

Definition list_end (l : klist) : Z := tail l.

Definition list_rbegin (l : klist) : M heap Z := load_prev (tail l).

Definition list_prev (elem : Z) : M heap Z :=
  c ← orelse (is_interior elem) (is_tail elem); assert c;;
  load_prev elem.

Definition list_rend (l : klist) : Z := head l.
Definition list_head (l : klist) : Z := head l.
Definition list_tail (l : klist) : Z := tail l.

Definition list_insert (before elem : Z) : M heap unit :=
  c ← orelse (is_interior before) (is_tail before); assert c;;
  assert (negb (elem =? NULL));;
  bp ← load_prev before; store_prev elem bp;;
  store_next elem before;;
  bp ← load_prev before; store_next bp elem;;
  store_prev before elem.

Definition list_splice (before first last : Z) : M heap unit :=
  c ← orelse (is_interior before) (is_tail before); assert c;;
  if first =? last then mret tt else
  last ← list_prev last;
  c ← is_interior first; assert c;;
  c ← is_interior last; assert c;;
  fp ← load_prev first; ln ← load_next last; store_next fp ln;;
  ln ← load_next last; fp ← load_prev first; store_prev ln fp;;
  bp ← load_prev before; store_prev first bp;;
  store_next last before;;
  bp ← load_prev before; store_next bp first;;
  store_prev before last.

Definition list_push_front (l : klist) (elem : Z) : M heap unit :=
  b ← list_begin l; list_insert b elem.

Definition list_push_back (l : klist) (elem : Z) : M heap unit :=
  list_insert (list_end l) elem.

Definition list_remove (elem : Z) : M heap Z :=
  c ← is_interior elem; assert c;;
  p ← load_prev elem; n ← load_next elem; store_next p n;;
  n ← load_next elem; p ← load_prev elem; store_prev n p;;
  load_next elem.

Definition list_empty (l : klist) : M heap bool :=
  b ← list_begin l; mret (b =? list_end l).

Definition list_front (l : klist) : M heap Z :=
  e ← list_empty l; assert (negb e);; load_next (head l).

Definition list_back (l : klist) : M heap Z :=
  e ← list_empty l; assert (negb e);; load_prev (tail l).

Definition list_pop_front (l : klist) : M heap Z :=
  front ← list_front l; list_remove front;; mret front.

Definition list_pop_back (l : klist) : M heap Z :=
  back ← list_back l; list_remove back;; mret back.

(** [for (e = list_begin (list); e != list_end (list); e = list_next (e)) cnt++;] *)
Fixpoint list_size_loop (fuel : nat) (l : klist) (e cnt : Z) : M heap Z :=
  match fuel with
  | O => fail NoFuel
  | S fuel =>
      if e =? list_end l then mret cnt else
      e' ← list_next e; list_size_loop fuel l e' (u32 (cnt + 1))
  end.

Definition list_size (l : klist) : M heap Z :=
  with_fuel (λ fuel, e ← list_begin l; list_size_loop fuel l e 0).

(** [swap (&a->prev, &a->next)] *)
Definition swap_links (a : Z) : M heap unit :=
  t ← load_prev a; n ← load_next a; store_prev a n;; store_next a t.

Fixpoint list_reverse_loop (fuel : nat) (l : klist) (e : Z) : M heap unit :=
  match fuel with
  | O => fail NoFuel
  | S fuel =>
      if e =? list_end l then mret tt else
      swap_links e;;
      e' ← load_prev e; list_reverse_loop fuel l e'
  end.

Definition list_reverse (l : klist) : M heap unit :=
  em ← list_empty l;
  if (em : bool) then mret tt else
  with_fuel (λ fuel, e ← list_begin l; list_reverse_loop fuel l e);;
  (* swap (&list->head.next, &list->tail.prev) *)
  t ← load_next (head l); p ← load_prev (tail l);
  store_next (head l) p;; store_prev (tail l) t;;
  (* swap (&list->head.next->prev, &list->tail.prev->next) *)
  a ← load_next (head l); b ← load_prev (tail l);
  t ← load_prev a; n ← load_next b;
  store_prev a n;; store_next b t.

(** The routines below take the client's comparison.  It reads the structures
    the elements are embedded in, which no list routine writes. *)
Section ordered.
Variable less : Z → Z → bool.

(** [while ((a = list_next (a)) != b) if (less (a, list_prev (a))) return false;] *)
Fixpoint is_sorted_loop (fuel : nat) (a b : Z) : M heap bool :=
  match fuel with
  | O => fail NoFuel
  | S fuel =>
      a ← list_next a;
      if a =? b then mret true else
      p ← list_prev a;
      if less a p then mret false else is_sorted_loop fuel a b
  end.

Definition is_sorted (a b : Z) : M heap bool :=
  if negb (a =? b) then with_fuel (λ fuel, is_sorted_loop fuel a b)
  else mret true.

(** [do a = list_next (a); while (a != b && !less (a, list_prev (a)));] *)
Fixpoint find_end_of_run_loop (fuel : nat) (a b : Z) : M heap Z :=
  match fuel with
  | O => fail NoFuel
  | S fuel =>
      a ← list_next a;
      if a =? b then mret a else
      p ← list_prev a;
      if less a p then mret a else find_end_of_run_loop fuel a b
  end.

Definition find_end_of_run (a b : Z) : M heap Z :=
  assert (negb (a =? NULL));; assert (negb (b =? NULL));;
  assert (negb (a =? b));;
  with_fuel (λ fuel, find_end_of_run_loop fuel a b).

Fixpoint inplace_merge_loop (fuel : nat) (a0 a1b0 b1 : Z) : M heap unit :=
  match fuel with
  | O => fail NoFuel
  | S fuel =>
      if negb (a0 =? a1b0) && negb (a1b0 =? b1) then
        if negb (less a1b0 a0) then
          a0' ← list_next a0; inplace_merge_loop fuel a0' a1b0 b1
        else
          a1b0' ← list_next a1b0;
          p ← list_prev a1b0';
          list_splice a0 p a1b0';;
          inplace_merge_loop fuel a0 a1b0' b1
      else mret tt
  end.

Definition inplace_merge (a0 a1b0 b1 : Z) : M heap unit :=
  assert (negb (a0 =? NULL));; assert (negb (a1b0 =? NULL));;
  assert (negb (b1 =? NULL));;
  c ← is_sorted a0 a1b0; assert c;;
  c ← is_sorted a1b0 b1; assert c;;
  with_fuel (λ fuel, inplace_merge_loop fuel a0 a1b0 b1).

(** one pass of [list_sort]: the inner [for] loop; returns [output_run_cnt] *)
Fixpoint list_sort_pass (fuel : nat) (l : klist) (a0 : Z) (cnt : Z) : M heap Z :=
  match fuel with
  | O => fail NoFuel
  | S fuel =>
      if a0 =? list_end l then mret cnt else
      let cnt := u32 (cnt + 1) in
      a1b0 ← find_end_of_run a0 (list_end l);
      if a1b0 =? list_end l then mret cnt else
      b1 ← find_end_of_run a1b0 (list_end l);
      inplace_merge a0 a1b0 b1;;
      list_sort_pass fuel l b1 cnt
  end.

Fixpoint list_sort_loop (fuel : nat) (l : klist) : M heap unit :=
  match fuel with
  | O => fail NoFuel
  | S fuel =>
      output_run_cnt ← with_fuel (λ n, a0 ← list_begin l; list_sort_pass n l a0 0);
      if 1 <? output_run_cnt then list_sort_loop fuel l else mret tt
  end.

Definition list_sort (l : klist) : M heap unit :=
  with_fuel (λ fuel, list_sort_loop fuel l);;
  b ← list_begin l;
  c ← is_sorted b (list_end l); assert c.

Fixpoint list_insert_ordered_loop (fuel : nat) (l : klist) (elem e : Z) : M heap Z :=
  match fuel with
  | O => fail NoFuel
  | S fuel =>
      if e =? list_end l then mret e else
      if less elem e then mret e else
      e' ← list_next e; list_insert_ordered_loop fuel l elem e'
  end.

Definition list_insert_ordered (l : klist) (elem : Z) : M heap unit :=
  assert (negb (elem =? NULL));;
  e ← with_fuel (λ fuel, b ← list_begin l; list_insert_ordered_loop fuel l elem b);
  list_insert e elem.

Fixpoint list_unique_loop (fuel : nat) (l : klist) (duplicates : option klist)
    (elem : Z) : M heap unit :=
  match fuel with
  | O => fail NoFuel
  | S fuel =>
      nxt ← list_next elem;
      if nxt =? list_end l then mret tt else
      if negb (less elem nxt) && negb (less nxt elem) then
        list_remove nxt;;
        match duplicates with
        | Some d => list_push_back d nxt
        | None => mret tt
        end;;
        list_unique_loop fuel l duplicates elem
      else list_unique_loop fuel l duplicates nxt
  end.

Definition list_unique (l : klist) (duplicates : option klist) : M heap unit :=
  em ← list_empty l;
  if (em : bool) then mret tt else
  elem ← list_begin l;
  with_fuel (λ fuel, list_unique_loop fuel l duplicates elem).

Fixpoint list_max_loop (fuel : nat) (l : klist) (max e : Z) : M heap Z :=
  match fuel with
  | O => fail NoFuel
  | S fuel =>
      if e =? list_end l then mret max else
      let max' := if less max e then e else max in
      e' ← list_next e; list_max_loop fuel l max' e'
  end.

Definition list_max (l : klist) : M heap Z :=
  max ← list_begin l;
  if negb (max =? list_end l) then
    with_fuel (λ fuel, e ← list_next max; list_max_loop fuel l max e)
  else mret max.

Fixpoint list_min_loop (fuel : nat) (l : klist) (min e : Z) : M heap Z :=
  match fuel with
  | O => fail NoFuel
  | S fuel =>
      if e =? list_end l then mret min else
      let min' := if less e min then e else min in
      e' ← list_next e; list_min_loop fuel l min' e'
  end.

Definition list_min (l : klist) : M heap Z :=
  min ← list_begin l;
  if negb (min =? list_end l) then
    with_fuel (λ fuel, e ← list_next min; list_min_loop fuel l min e)
  else mret min.
End ordered.

(** * Representation *)

Definition nx (h : heap) (a : Z) : option Z := next <$> h !! a.
Definition pv (h : heap) (a : Z) : option Z := prev <$> h !! a.

Definition link (h : heap) (a b : Z) : Prop := nx h a = Some b ∧ pv h b = Some a.

(** consecutive elements point at each other *)
Fixpoint chain (h : heap) (fs : list Z) : Prop :=
  match fs with
  | a :: (b :: _) as r => link h a b ∧ chain h r
  | _ => True
  end.

(** the cells of a list, header elements included *)
Definition cells (l : klist) (xs : list Z) : list Z := head l :: xs ++ [tail l].

Record dll (h : heap) (l : klist) (xs : list Z) : Prop := {
  dll_head : pv h (head l) = Some NULL;
  dll_tail : nx h (tail l) = Some NULL;
  dll_chain : chain h (cells l xs);
  dll_nodup : NoDup (cells l xs);
  dll_null : NULL ∉ cells l xs
}.

(** the cell that follows a prefix whose remainder is [ys] *)
Definition front (l : klist) (ys : list Z) : Z :=
  match ys with [] => tail l | y :: _ => y end.

(** the cell before a remainder whose prefix is [xs] *)
Definition back (l : klist) (xs : list Z) : Z :=
  match last xs with Some x => x | None => head l end.

(** [h'] differs from [h] only at [fs], and no cell disappears *)
Definition frame (fs : list Z) (h h' : heap) : Prop :=
  (∀ a, a ∉ fs → h' !! a = h !! a) ∧ (∀ a, is_Some (h !! a) → is_Some (h' !! a)).

Section rep.
Implicit Types (h : heap) (fs xs ys : list Z) (a b e p : Z) (l : klist).

(** ** Field updates *)

Definition set_next a v h : heap := alter (λ el, mk_list_elem (prev el) v) a h.
Definition set_prev a v h : heap := alter (λ el, mk_list_elem v (next el)) a h.

Lemma nx_set_next a v h b :
  nx (set_next a v h) b = if decide (a = b) then (λ _, v) <$> nx h b else nx h b.
Proof.
  unfold nx, set_next. rewrite lookup_alter.
  case_decide; subst; [|done]. by destruct (h !! b).
Qed.
Lemma pv_set_next a v h b : pv (set_next a v h) b = pv h b.
Proof.
  unfold pv, set_next. rewrite lookup_alter.
  case_decide; subst; [|done]. by destruct (h !! b).
Qed.
Lemma nx_set_prev a v h b : nx (set_prev a v h) b = nx h b.
Proof.
  unfold nx, set_prev. rewrite lookup_alter.
  case_decide; subst; [|done]. by destruct (h !! b).
Qed.
Lemma pv_set_prev a v h b :
  pv (set_prev a v h) b = if decide (a = b) then (λ _, v) <$> pv h b else pv h b.
Proof.
  unfold pv, set_prev. rewrite lookup_alter.
  case_decide; subst; [|done]. by destruct (h !! b).
Qed.

Lemma size_set_next a v h : size (set_next a v h) = size h.
Proof. rewrite <- !size_dom. unfold set_next. by rewrite dom_alter_L. Qed.
Lemma size_set_prev a v h : size (set_prev a v h) = size h.
Proof. rewrite <- !size_dom. unfold set_prev. by rewrite dom_alter_L. Qed.

Lemma nx_Some h a b : nx h a = Some b → is_Some (h !! a).
Proof. unfold nx. intros (? & ? & ?)%fmap_Some. eauto. Qed.
Lemma pv_Some h a b : pv h a = Some b → is_Some (h !! a).
Proof. unfold pv. intros (? & ? & ?)%fmap_Some. eauto. Qed.
Lemma is_Some_nx h a : is_Some (h !! a) ↔ is_Some (nx h a).
Proof. unfold nx. by rewrite fmap_is_Some. Qed.
Lemma is_Some_pv h a : is_Some (h !! a) ↔ is_Some (pv h a).
Proof. unfold pv. by rewrite fmap_is_Some. Qed.

(** ** Loads and stores *)

Lemma load_next_eq h a b : nx h a = Some b → load_next a h = Ok (b, h).
Proof.
  unfold nx, load_next, load, mbind, M_bind. intros (e & -> & ->)%fmap_Some. done.
Qed.
Lemma load_prev_eq h a b : pv h a = Some b → load_prev a h = Ok (b, h).
Proof.
  unfold pv, load_prev, load, mbind, M_bind. intros (e & -> & ->)%fmap_Some. done.
Qed.

Lemma store_next_eq h a v : is_Some (h !! a) → store_next a v h = Ok (tt, set_next a v h).
Proof.
  intros [e He]. unfold store_next, load, store, mbind, M_bind. rewrite He. cbn.
  rewrite He. do 2 f_equal. unfold set_next. apply map_eq. intros i.
  rewrite lookup_alter. destruct (decide (a = i)) as [->|].
  - by rewrite lookup_insert_eq, He.
  - by rewrite lookup_insert_ne.
Qed.
Lemma store_prev_eq h a v : is_Some (h !! a) → store_prev a v h = Ok (tt, set_prev a v h).
Proof.
  intros [e He]. unfold store_prev, load, store, mbind, M_bind. rewrite He. cbn.
  rewrite He. do 2 f_equal. unfold set_prev. apply map_eq. intros i.
  rewrite lookup_alter. destruct (decide (a = i)) as [->|].
  - by rewrite lookup_insert_eq, He.
  - by rewrite lookup_insert_ne.
Qed.

Lemma runs_eq {A} (m : M heap A) h h' x (Q : A → heap → Prop) :
  m h = Ok (x, h') → Q x h' → runs m h Q.
Proof. intros. exists x, h'. done. Qed.

(** ** Chains *)

Lemma chain_cons h a b fs : chain h (a :: b :: fs) ↔ link h a b ∧ chain h (b :: fs).
Proof. done. Qed.

Lemma chain_app h fs a gs :
  chain h (fs ++ a :: gs) ↔ chain h (fs ++ [a]) ∧ chain h (a :: gs).
Proof.
  induction fs as [|x [|y fs] IH].
  - simpl. tauto.
  - simpl. destruct gs; simpl; tauto.
  - change ((x :: y :: fs) ++ a :: gs) with (x :: y :: (fs ++ a :: gs)).
    change ((x :: y :: fs) ++ [a]) with (x :: y :: (fs ++ [a])).
    rewrite !chain_cons. simpl in IH. tauto.
Qed.

Lemma chain_app_link h fs a b gs :
  chain h (fs ++ a :: b :: gs) ↔ chain h (fs ++ [a]) ∧ link h a b ∧ chain h (b :: gs).
Proof. rewrite chain_app, chain_cons. done. Qed.

(** A chain depends on the [next] of all but its last cell and on the
    [prev] of all but its first. *)
Lemma chain_snoc_ext h h' fs p :
  (∀ a, a ∈ fs → nx h' a = nx h a) →
  (∀ a, a ∈ fs ++ [p] → pv h' a = pv h a) →
  chain h (fs ++ [p]) → chain h' (fs ++ [p]).
Proof.
  induction fs as [|x [|y fs] IH]; intros Hn Hp; [done|..].
  - simpl. unfold link. rewrite Hn, Hp by set_solver. done.
  - change ((x :: y :: fs) ++ [p]) with (x :: y :: (fs ++ [p])) in *.
    rewrite !chain_cons. unfold link. rewrite Hn, Hp by set_solver.
    intros [? ?]. split; [done|]. apply IH; [|intros; apply Hp; set_solver|done].
    intros. apply Hn. set_solver.
Qed.

Lemma chain_cons_ext h h' b fs :
  (∀ a, a ∈ b :: fs → nx h' a = nx h a) →
  (∀ a, a ∈ fs → pv h' a = pv h a) →
  chain h (b :: fs) → chain h' (b :: fs).
Proof.
  revert b. induction fs as [|y fs IH]; intros b Hn Hp; [done|].
  rewrite !chain_cons. unfold link. rewrite Hn, Hp by set_solver.
  intros [? ?]. split; [done|].
  apply IH; [intros; apply Hn; set_solver|intros; apply Hp; set_solver|done].
Qed.

Lemma chain_dom h a fs : a ∈ fs → (length fs ≠ 1)%nat → chain h fs → is_Some (h !! a).
Proof.
  revert a. induction fs as [|x [|y fs] IH]; intros a Ha Hlen Hc; [set_solver|simpl in *; lia|].
  apply chain_cons in Hc as [[Hn Hp] Hc].
  apply elem_of_cons in Ha as [->|Ha]; [by eapply nx_Some|].
  destruct fs; [|apply IH; [done|simpl; lia|done]].
  apply list_elem_of_singleton in Ha as ->. by eapply pv_Some.
Qed.
End rep.

(** ** Splitting a list at a position *)

Section split.
Implicit Types (h : heap) (fs xs ys : list Z) (a b e p : Z) (l : klist).

Definition init l xs : list Z := removelast (head l :: xs).
Definition rest l ys : list Z :=
  match ys with [] => [] | _ :: ys => ys ++ [tail l] end.

Lemma init_back l xs : head l :: xs = init l xs ++ [back l xs].
Proof.
  unfold init, back. destruct xs as [|x xs _] using rev_ind; [done|].
  rewrite last_snoc. change (head l :: xs ++ [x]) with ((head l :: xs) ++ [x]).
  by rewrite removelast_last.
Qed.

Lemma front_rest l ys : ys ++ [tail l] = front l ys :: rest l ys.
Proof. by destruct ys. Qed.

Lemma cells_split l xs ys :
  cells l (xs ++ ys) = init l xs ++ back l xs :: front l ys :: rest l ys.
Proof.
  unfold cells. rewrite <- app_assoc, front_rest.
  change (head l :: xs ++ ?y) with ((head l :: xs) ++ y).
  rewrite init_back, <- app_assoc. done.
Qed.

Lemma back_cons l xs x : back l (xs ++ [x]) = x.
Proof. unfold back. by rewrite last_snoc. Qed.

Lemma back_in l xs ys : back l xs ∈ cells l (xs ++ ys).
Proof. rewrite cells_split. set_solver. Qed.
Lemma front_in l xs ys : front l ys ∈ cells l (xs ++ ys).
Proof. rewrite cells_split. set_solver. Qed.

Lemma dll_link h l xs ys : dll h l (xs ++ ys) → link h (back l xs) (front l ys).
Proof.
  intros Hd. pose proof (dll_chain _ _ _ Hd) as Hc.
  rewrite cells_split, chain_app_link in Hc. tauto.
Qed.

Lemma dll_cell h l xs a : dll h l xs → a ∈ cells l xs → is_Some (h !! a) ∧ a ≠ NULL.
Proof.
  intros Hd Ha. split.
  - eapply chain_dom; [done| |apply Hd]. unfold cells. simpl. rewrite length_app. simpl. lia.
  - intros ->. by apply (dll_null _ _ _ Hd).
Qed.

Lemma dll_fuel h l xs : dll h l xs → (length xs < size h)%nat.
Proof.
  intros Hd. enough (length (cells l xs) ≤ size h)%nat as Hle.
  { unfold cells in Hle. simpl in Hle. rewrite length_app in Hle. simpl in Hle. lia. }
  apply NoDup_length_le_size; [apply Hd|]. intros a Ha. by eapply dll_cell.
Qed.

(** ** Classification and navigation *)

Lemma front_prev h l xs ys : dll h l (xs ++ ys) → pv h (front l ys) = Some (back l xs).
Proof. intros [_ ?]%dll_link. done. Qed.
Lemma back_next h l xs ys : dll h l (xs ++ ys) → nx h (back l xs) = Some (front l ys).
Proof. intros [? _]%dll_link. done. Qed.

Lemma is_interior_eq h a p n :
  a ≠ NULL → pv h a = Some p → nx h a = Some n →
  is_interior a h = Ok (negb (p =? NULL) && negb (n =? NULL), h).
Proof.
  intros Ha Hp Hn. unfold is_interior. destruct (Z.eqb_spec a NULL); [done|].
  unfold load, mbind, M_bind. unfold pv, nx in *.
  destruct (h !! a); [|done]. simpl in *. by simplify_eq.
Qed.
Lemma is_tail_eq h a p n :
  a ≠ NULL → pv h a = Some p → nx h a = Some n →
  is_tail a h = Ok (negb (p =? NULL) && (n =? NULL), h).
Proof.
  intros Ha Hp Hn. unfold is_tail. destruct (Z.eqb_spec a NULL); [done|].
  unfold load, mbind, M_bind. unfold pv, nx in *.
  destruct (h !! a); [|done]. simpl in *. by simplify_eq.
Qed.
Lemma is_head_eq h a p n :
  a ≠ NULL → pv h a = Some p → nx h a = Some n →
  is_head a h = Ok ((p =? NULL) && negb (n =? NULL), h).
Proof.
  intros Ha Hp Hn. unfold is_head. destruct (Z.eqb_spec a NULL); [done|].
  unfold load, mbind, M_bind. unfold pv, nx in *.
  destruct (h !! a); [|done]. simpl in *. by simplify_eq.
Qed.

Lemma cell_fields h l xs a : dll h l xs → a ∈ cells l xs →
  ∃ p n, pv h a = Some p ∧ nx h a = Some n.
Proof.
  intros Hd Ha. destruct (dll_cell _ _ _ _ Hd Ha) as [[el He] _].
  unfold pv, nx. rewrite He. eauto.
Qed.

Lemma before_ok h l xs ys :
  dll h l (xs ++ ys) →
  orelse (is_interior (front l ys)) (is_tail (front l ys)) h = Ok (true, h).
Proof.
  intros Hd. pose proof (front_prev _ _ _ _ Hd) as Hp.
  destruct (cell_fields _ _ _ _ Hd (front_in l xs ys)) as (p & n & ? & Hn).
  destruct (dll_cell _ _ _ _ Hd (front_in l xs ys)) as [_ Hf].
  destruct (dll_cell _ _ _ _ Hd (back_in l xs ys)) as [_ Hb].
  unfold orelse, mbind, M_bind. rewrite (is_interior_eq _ _ _ _ Hf Hp Hn).
  destruct (Z.eqb_spec (back l xs) NULL); [done|]. simpl.
  destruct (n =? NULL) eqn:En; [|done]. simpl.
  rewrite (is_tail_eq _ _ _ _ Hf Hp Hn). rewrite En. by destruct (Z.eqb_spec (back l xs) NULL).
Qed.

Lemma after_ok h l xs ys :
  dll h l (xs ++ ys) →
  orelse (is_head (back l xs)) (is_interior (back l xs)) h = Ok (true, h).
Proof.
  intros Hd. pose proof (back_next _ _ _ _ Hd) as Hn.
  destruct (cell_fields _ _ _ _ Hd (back_in l xs ys)) as (p & n & Hp & ?).
  destruct (dll_cell _ _ _ _ Hd (front_in l xs ys)) as [_ Hf].
  destruct (dll_cell _ _ _ _ Hd (back_in l xs ys)) as [_ Hb].
  unfold orelse, mbind, M_bind. rewrite (is_head_eq _ _ _ _ Hb Hp Hn).
  destruct (Z.eqb_spec (front l ys) NULL); [done|]. rewrite andb_true_r.
  destruct (p =? NULL) eqn:Ep; [done|]. simpl.
  rewrite (is_interior_eq _ _ _ _ Hb Hp Hn). rewrite Ep. by destruct (Z.eqb_spec (front l ys) NULL).
Qed.

Lemma interior_ok h l xs x ys : dll h l (xs ++ x :: ys) → is_interior x h = Ok (true, h).
Proof.
  intros Hd. pose proof (front_prev _ _ _ _ Hd) as Hp. simpl in Hp.
  assert (dll h l ((xs ++ [x]) ++ ys)) as Hd' by (by rewrite <- app_assoc).
  pose proof (back_next _ _ _ _ Hd') as Hn. rewrite back_cons in Hn.
  destruct (dll_cell _ _ _ _ Hd (back_in l xs (x :: ys))) as [_ Hb].
  destruct (dll_cell _ _ _ _ Hd' (front_in l (xs ++ [x]) ys)) as [_ Hf].
  destruct (dll_cell _ _ _ _ Hd (front_in l xs (x :: ys))) as [_ Hx]. simpl in Hx.
  rewrite (is_interior_eq _ _ _ _ Hx Hp Hn).
  destruct (Z.eqb_spec (back l xs) NULL), (Z.eqb_spec (front l ys) NULL); done.
Qed.

Lemma list_next_eq h l xs ys :
  dll h l (xs ++ ys) → list_next (back l xs) h = Ok (front l ys, h).
Proof.
  intros Hd. unfold list_next, mbind at 1, M_bind at 1. rewrite (after_ok _ _ _ _ Hd).
  unfold assert, mbind, M_bind. simpl. by apply load_next_eq, back_next.
Qed.

Lemma list_prev_eq h l xs ys :
  dll h l (xs ++ ys) → list_prev (front l ys) h = Ok (back l xs, h).
Proof.
  intros Hd. unfold list_prev, mbind at 1, M_bind at 1. rewrite (before_ok _ _ _ _ Hd).
  unfold assert, mbind, M_bind. simpl. by apply load_prev_eq, front_prev.
Qed.

(** stepping over the element [x] *)
Lemma list_next_elem h l xs x ys :
  dll h l (xs ++ x :: ys) → list_next x h = Ok (front l ys, h).
Proof.
  intros Hd. rewrite <- (back_cons l xs x) at 1. apply list_next_eq.
  by rewrite <- app_assoc.
Qed.

Lemma list_begin_eq h l xs : dll h l xs → list_begin l h = Ok (front l xs, h).
Proof. intros Hd. apply load_next_eq. by apply (back_next _ _ [] xs). Qed.

Lemma front_eq_tail h l xs ys :
  dll h l (xs ++ ys) → (front l ys =? list_end l) = bool_decide (ys = []).
Proof.
  intros Hd. destruct ys as [|y ys]; simpl; [by rewrite Z.eqb_refl|].
  apply Z.eqb_neq. intros ->. pose proof (dll_nodup _ _ _ Hd) as Hnd.
  unfold cells, list_end in Hnd. rewrite NoDup_cons in Hnd. destruct Hnd as [_ Hnd].
  rewrite <- app_assoc in Hnd. apply NoDup_app in Hnd as (_ & _ & Hnd).
  simpl in Hnd. apply NoDup_cons in Hnd as [? _]. set_solver.
Qed.

Lemma list_empty_eq h l xs :
  dll h l xs → list_empty l h = Ok (bool_decide (xs = []), h).
Proof.
  intros Hd. unfold list_empty, mbind, M_bind. rewrite (list_begin_eq _ _ _ Hd).
  rewrite (front_eq_tail _ _ [] xs Hd). done.
Qed.
End split.

(** ** Replacing a segment *)

Section replace.
Implicit Types (h : heap) (fs xs ys : list Z) (a b e p : Z) (l : klist).

Lemma cells_split3 l xs ms ys :
  cells l (xs ++ ms ++ ys) = init l xs ++ back l xs :: ms ++ front l ys :: rest l ys.
Proof.
  unfold cells. rewrite <- !app_assoc, front_rest.
  change (head l :: xs ++ ?y) with ((head l :: xs) ++ y).
  by rewrite init_back, <- app_assoc.
Qed.

Lemma chain_split3 h l xs ms ys :
  chain h (cells l (xs ++ ms ++ ys)) ↔
  chain h (init l xs ++ [back l xs]) ∧
  chain h (back l xs :: ms ++ [front l ys]) ∧
  chain h (front l ys :: rest l ys).
Proof.
  rewrite cells_split3, chain_app.
  change (back l xs :: ms ++ front l ys :: rest l ys)
    with ((back l xs :: ms) ++ front l ys :: rest l ys).
  by rewrite (chain_app _ (back l xs :: ms)).
Qed.

(** Exchanging the segment [ms] for [ns] preserves well-formedness when the
    new segment is linked up and nothing else of the list moves. *)
Lemma dll_replace h h' l xs ms ns ys :
  dll h l (xs ++ ms ++ ys) →
  chain h' (back l xs :: ns ++ [front l ys]) →
  NoDup (cells l (xs ++ ns ++ ys)) → NULL ∉ ns →
  (∀ a, a ∈ cells l (xs ++ ys) → a ≠ back l xs → nx h' a = nx h a) →
  (∀ a, a ∈ cells l (xs ++ ys) → a ≠ front l ys → pv h' a = pv h a) →
  dll h' l (xs ++ ns ++ ys).
Proof.
  intros Hd Hc Hnd Hnull Hnx Hpv. destruct Hd as [Hh Ht Hch Hnd0 Hnull0].
  pose proof Hnd as Hnd'. rewrite cells_split in Hnx, Hpv. rewrite cells_split3 in Hnd.
  assert (head l ∈ init l xs ++ back l xs :: front l ys :: rest l ys).
  { rewrite <- cells_split. unfold cells. set_solver. }
  assert (tail l ∈ init l xs ++ back l xs :: front l ys :: rest l ys).
  { rewrite <- cells_split. unfold cells. set_solver. }
  apply NoDup_app in Hnd as (_ & Hi & Hnd).
  apply NoDup_cons in Hnd as [Hb Hnd]. apply NoDup_app in Hnd as (_ & Hm & Hnd).
  apply NoDup_cons in Hnd as [Hf _].
  assert (front l ys ≠ head l) as Hfh.
  { intros Heq. assert (head l ∈ init l xs ++ [back l xs]) as Hin.
    { rewrite <- init_back. by constructor. }
    rewrite <- Heq in Hin. apply elem_of_app in Hin as [Hin|Hin%list_elem_of_singleton].
    - apply (Hi _ Hin). clear. set_solver.
    - apply Hb. rewrite <- Hin. clear. set_solver. }
  assert (back l xs ≠ tail l) as Hbt.
  { intros Heq. apply Hb. rewrite Heq, <- front_rest. clear. set_solver. }
  split.
  - rewrite Hpv; done.
  - rewrite Hnx; done.
  - apply chain_split3 in Hch as (H1 & _ & H3). apply chain_split3. split_and!.
    + eapply chain_snoc_ext; [| |exact H1].
      * intros a Ha. apply Hnx; [clear -Ha; set_solver|].
        intros ->. apply (Hi _ Ha). clear. set_solver.
      * intros a Ha. apply Hpv; [clear -Ha; set_solver|].
        intros ->. apply elem_of_app in Ha as [Ha|Ha%list_elem_of_singleton].
        -- apply (Hi _ Ha). clear. set_solver.
        -- apply Hb. rewrite <- Ha. clear. set_solver.
    + done.
    + eapply chain_cons_ext; [| |exact H3].
      * intros a Ha. apply Hnx; [clear -Ha; set_solver|].
        intros ->. apply Hb. clear -Ha. set_solver.
      * intros a Ha. apply Hpv; [clear -Ha; set_solver|]. intros ->. done.
  - done.
  - rewrite cells_split3 in *. clear -Hnull Hnull0. set_solver.
Qed.
End replace.

(** ** Running the stores *)

Lemma is_Some_set_next (h : heap) a v b : is_Some (set_next a v h !! b) ↔ is_Some (h !! b).
Proof. rewrite !is_Some_pv, pv_set_next. done. Qed.
Lemma is_Some_set_prev (h : heap) a v b : is_Some (set_prev a v h !! b) ↔ is_Some (h !! b).
Proof. rewrite !is_Some_nx, nx_set_prev. done. Qed.

Lemma set_next_other (h : heap) a v b : b ≠ a → set_next a v h !! b = h !! b.
Proof. intros. unfold set_next. by rewrite lookup_alter_ne. Qed.
Lemma set_prev_other (h : heap) a v b : b ≠ a → set_prev a v h !! b = h !! b.
Proof. intros. unfold set_prev. by rewrite lookup_alter_ne. Qed.

Create Rewrite HintDb cells.
#[export] Hint Rewrite nx_set_next nx_set_prev pv_set_next pv_set_prev : cells.

(** evaluates links of updated stores, deciding the address equalities *)
Ltac hsimp :=
  autorewrite with cells; repeat (case_decide; simplify_eq/=; try congruence); try done.

Ltac hsome := repeat (rewrite is_Some_set_next || rewrite is_Some_set_prev); done.

Lemma runs_with_fuel {A} (f : nat → M heap A) (h : heap) Q :
  runs (f (S (size h))) h Q → runs (with_fuel f) h Q.
Proof. done. Qed.

Ltac hload H := runs_step; eapply runs_eq; [apply H|].
Ltac hstore := eapply runs_eq; [first [apply store_next_eq|apply store_prev_eq]; hsome|].

Lemma frame_refl fs (h : heap) : frame fs h h.
Proof. done. Qed.
Lemma frame_trans fs (h1 h2 h3 : heap) : frame fs h1 h2 → frame fs h2 h3 → frame fs h1 h3.
Proof. intros [H1 H1'] [H2 H2']. split; [intros; by rewrite H2, H1|auto]. Qed.
Lemma frame_mono fs gs (h h' : heap) : fs ⊆ gs → frame fs h h' → frame gs h h'.
Proof. intros Hs [H H']. split; [|done]. intros a Ha. apply H. set_solver. Qed.

(** a list outside the frame is untouched *)
Lemma dll_frame fs h h' l xs :
  frame fs h h' → dll h l xs → (∀ a, a ∈ cells l xs → a ∉ fs) → dll h' l xs.
Proof.
  intros [Hf _] Hd Hdisj.
  assert (∀ a, a ∈ cells l xs → nx h' a = nx h a ∧ pv h' a = pv h a) as Heq.
  { intros a Ha. unfold nx, pv. rewrite Hf by auto. done. }
  destruct Hd as [Hh Ht Hc Hnd Hnull]. split; [..|done|done].
  - rewrite <- Hh. apply Heq. unfold cells. set_solver.
  - rewrite <- Ht. apply Heq. unfold cells. set_solver.
  - unfold cells in *. eapply chain_cons_ext; [| |done]; intros; apply Heq; set_solver.
Qed.

Section ops.
Implicit Types (h : heap) (xs ys : list Z) (a b e p : Z) (l : klist).

Lemma list_init_spec h l :
  head l ≠ tail l → head l ≠ NULL → tail l ≠ NULL →
  is_Some (h !! head l) → is_Some (h !! tail l) →
  runs (list_init l) h (λ _ h', dll h' l [] ∧ frame [head l; tail l] h h').
Proof.
  intros Hne Hh0 Ht0 [eh Hh] [et Ht]. unfold list_init.
  runs_step; hstore. runs_step; hstore. runs_step; hstore. hstore.
  split; [split|split].
  - hsimp. unfold pv. by rewrite Hh.
  - hsimp. unfold nx. by rewrite Ht.
  - simpl. unfold link. hsimp. unfold pv, nx. by rewrite Hh, Ht.
  - unfold cells. simpl. rewrite NoDup_cons. split; [set_solver|apply NoDup_singleton].
  - unfold cells. set_solver.
  - intros a Ha. rewrite set_next_other, set_prev_other, set_next_other, set_prev_other;
      set_solver.
  - intros a Ha. by rewrite is_Some_set_next, is_Some_set_prev, is_Some_set_next, is_Some_set_prev.
Qed.

Lemma NoDup_cells_insert l xs ys ns :
  NoDup (cells l (xs ++ ys)) → NoDup ns → (∀ a, a ∈ ns → a ∉ cells l (xs ++ ys)) →
  NoDup (cells l (xs ++ ns ++ ys)).
Proof.
  intros Hnd Hns Hdisj.
  assert (cells l (xs ++ ns ++ ys) ≡ₚ ns ++ cells l (xs ++ ys)) as ->.
  { unfold cells. rewrite <- !app_assoc. simpl. solve_Permutation. }
  apply NoDup_app. set_solver.
Qed.

Lemma NoDup_cells_remove l xs ys ns :
  NoDup (cells l (xs ++ ns ++ ys)) →
  NoDup (cells l (xs ++ ys)) ∧ NoDup ns ∧ (∀ a, a ∈ ns → a ∉ cells l (xs ++ ys)).
Proof.
  intros Hnd.
  assert (cells l (xs ++ ns ++ ys) ≡ₚ ns ++ cells l (xs ++ ys)) as Hp.
  { unfold cells. rewrite <- !app_assoc. simpl. solve_Permutation. }
  rewrite Hp in Hnd. apply NoDup_app in Hnd. tauto.
Qed.

Lemma back_front_ne h l xs ys : dll h l (xs ++ ys) → back l xs ≠ front l ys.
Proof.
  intros Hd. pose proof (dll_nodup _ _ _ Hd) as Hnd. rewrite cells_split in Hnd.
  apply NoDup_app in Hnd as (_ & _ & Hnd). apply NoDup_cons in Hnd as [? _]. set_solver.
Qed.

Lemma list_insert_spec h l xs ys e :
  dll h l (xs ++ ys) → is_Some (h !! e) → e ≠ NULL → e ∉ cells l (xs ++ ys) →
  runs (list_insert (front l ys) e) h (λ _ h',
    dll h' l (xs ++ e :: ys) ∧ frame (e :: cells l (xs ++ ys)) h h').
Proof.
  intros Hd He He0 Hnew.
  pose proof (front_prev _ _ _ _ Hd) as Hp. pose proof (back_next _ _ _ _ Hd) as Hn.
  pose proof (back_in l xs ys) as Hbi. pose proof (front_in l xs ys) as Hfi.
  pose proof (back_front_ne _ _ _ _ Hd) as Hbf.
  destruct (dll_cell _ _ _ _ Hd Hbi) as [Hb _]. destruct (dll_cell _ _ _ _ Hd Hfi) as [Hf _].
  set (f := front l ys) in *. set (b := back l xs) in *.
  assert (e ≠ f ∧ e ≠ b) as [Hef Heb] by (split; intros ->; done).
  destruct (proj1 (is_Some_nx _ _) He) as [en Hen].
  destruct (proj1 (is_Some_pv _ _) He) as [ep Hep].
  unfold list_insert. hload (before_ok _ _ _ _ Hd). runs_step. apply runs_assert; [done|].
  runs_step. apply runs_assert; [by destruct (Z.eqb_spec e NULL)|].
  hload (load_prev_eq _ _ _ Hp). runs_step; hstore. runs_step; hstore.
  runs_step. eapply runs_eq; [apply (load_prev_eq _ _ b); hsimp|].
  runs_step; hstore. hstore. split.
  - apply (dll_replace h _ l xs [] [e] ys); [done|..].
    + simpl. unfold link. fold b f. hsimp;
        rewrite ?Hp, ?Hn, ?Hen, ?Hep; done.
    + apply NoDup_cells_insert; [apply Hd|apply NoDup_singleton|].
      by intros a ->%list_elem_of_singleton.
    + intros Heq%list_elem_of_singleton. by apply He0.
    + intros a Ha Hab. fold b in Hab. assert (a ≠ e) by (intros ->; done). hsimp.
    + intros a Ha Hab. fold f in Hab. assert (a ≠ e) by (intros ->; done). hsimp.
  - split.
    + intros a [Hae Ha]%not_elem_of_cons. assert (a ≠ b ∧ a ≠ f) as [] by (split; intros ->; done).
      by rewrite set_prev_other, set_next_other, set_next_other, set_prev_other.
    + intros a Ha. by rewrite is_Some_set_prev, !is_Some_set_next, is_Some_set_prev.
Qed.

Lemma list_remove_spec h l xs x ys :
  dll h l (xs ++ x :: ys) →
  runs (list_remove x) h (λ r h',
    r = front l ys ∧ dll h' l (xs ++ ys) ∧ frame (cells l (xs ++ ys)) h h').
Proof.
  intros Hd.
  assert (dll h l ((xs ++ [x]) ++ ys)) as Hd' by (by rewrite <- app_assoc).
  pose proof (front_prev _ _ _ _ Hd) as Hxp. simpl in Hxp.
  pose proof (back_next _ _ _ _ Hd) as Hbn. simpl in Hbn.
  pose proof (back_next _ _ _ _ Hd') as Hxn. rewrite back_cons in Hxn.
  pose proof (front_prev _ _ _ _ Hd') as Hfp. rewrite back_cons in Hfp.
  pose proof (dll_nodup _ _ _ Hd) as Hnd.
  destruct (NoDup_cells_remove l xs ys [x] Hnd) as (Hnd1 & _ & Hx).
  specialize (Hx x ltac:(set_solver)).
  pose proof (back_in l xs ys) as Hbi. pose proof (front_in l xs ys) as Hfi.
  assert (back l xs ≠ front l ys) as Hbf.
  { rewrite cells_split in Hnd1. apply NoDup_app in Hnd1 as (_ & _ & Hz).
    apply NoDup_cons in Hz as [? _]. set_solver. }
  pose proof (nx_Some _ _ _ Hbn). pose proof (pv_Some _ _ _ Hfp).
  set (f := front l ys) in *. set (b := back l xs) in *.
  assert (x ≠ f ∧ x ≠ b) as [Hxf Hxb] by (split; intros ->; done).
  unfold list_remove. hload (interior_ok _ _ _ _ _ Hd). runs_step. apply runs_assert; [done|].
  hload (load_prev_eq _ _ _ Hxp). hload (load_next_eq _ _ _ Hxn). runs_step; hstore.
  runs_step. eapply runs_eq; [apply (load_next_eq _ _ f); hsimp|].
  runs_step. eapply runs_eq; [apply (load_prev_eq _ _ b); hsimp|].
  runs_step; hstore. eapply runs_eq; [apply (load_next_eq _ _ f); hsimp|].
  split_and!; [done| |].
  - apply (dll_replace h _ l xs [x] [] ys); [done|..].
    + simpl. unfold link. fold b f. autorewrite with cells.
      rewrite !decide_True by done. rewrite Hbn, Hfp. done.
    + done.
    + by intros ?%elem_of_nil.
    + intros a Ha Hab. fold b in Hab. hsimp.
    + intros a Ha Hab. fold f in Hab. hsimp.
  - split.
    + intros a Ha. assert (a ≠ b ∧ a ≠ f) as [] by (split; intros ->; done).
      by rewrite set_prev_other, set_next_other.
    + intros a Ha. by rewrite is_Some_set_prev, is_Some_set_next.
Qed.

(** The links among the cells of a segment do not involve the border. *)
Lemma dll_segment h l xs ms ys :
  dll h l (xs ++ ms ++ ys) → chain h (back l xs :: ms ++ [front l ys]).
Proof. intros Hd. pose proof (dll_chain _ _ _ Hd) as Hc. by apply chain_split3 in Hc as (_ & ? & _). Qed.

Lemma list_front_spec h l x xs : dll h l (x :: xs) → list_front l h = Ok (x, h).
Proof.
  intros Hd. unfold list_front, mbind at 1, M_bind at 1. rewrite (list_empty_eq _ _ _ Hd).
  rewrite bool_decide_eq_false_2 by done. unfold mbind, M_bind, assert. simpl.
  apply load_next_eq. by apply (back_next _ _ [] (x :: xs)).
Qed.

Lemma list_back_spec h l xs x : dll h l (xs ++ [x]) → list_back l h = Ok (x, h).
Proof.
  intros Hd. unfold list_back, mbind at 1, M_bind at 1. rewrite (list_empty_eq _ _ _ Hd).
  rewrite bool_decide_eq_false_2 by (by destruct xs).
  unfold mbind, M_bind, assert. simpl. apply load_prev_eq.
  assert (dll h l ((xs ++ [x]) ++ [])) as Hd' by by rewrite app_nil_r.
  pose proof (front_prev _ _ _ _ Hd') as Hp. by rewrite back_cons in Hp.
Qed.

(** Both ends: the calls on an empty list stop the kernel. *)
Lemma list_front_empty h l : dll h l [] → list_front l h = Err AssertFail.
Proof.
  intros Hd. unfold list_front, mbind, M_bind. by rewrite (list_empty_eq _ _ _ Hd).
Qed.

Lemma list_back_empty h l : dll h l [] → list_back l h = Err AssertFail.
Proof.
  intros Hd. unfold list_back, mbind, M_bind. by rewrite (list_empty_eq _ _ _ Hd).
Qed.

Lemma list_push_back_spec h l xs e :
  dll h l xs → is_Some (h !! e) → e ≠ NULL → e ∉ cells l xs →
  runs (list_push_back l e) h (λ _ h', dll h' l (xs ++ [e]) ∧ frame (e :: cells l xs) h h').
Proof.
  intros Hd He He0 Hnew.
  pose proof (list_insert_spec h l xs [] e) as Hi. rewrite app_nil_r in Hi. by apply Hi.
Qed.

Lemma list_push_front_spec h l xs e :
  dll h l xs → is_Some (h !! e) → e ≠ NULL → e ∉ cells l xs →
  runs (list_push_front l e) h (λ _ h', dll h' l (e :: xs) ∧ frame (e :: cells l xs) h h').
Proof.
  intros Hd He He0 Hnew. unfold list_push_front. hload (list_begin_eq _ _ _ Hd).
  by apply (list_insert_spec h l [] xs e).
Qed.

Lemma list_pop_front_spec h l x xs :
  dll h l (x :: xs) →
  runs (list_pop_front l) h (λ r h', r = x ∧ dll h' l xs ∧ frame (cells l xs) h h').
Proof.
  intros Hd. unfold list_pop_front. hload (list_front_spec _ _ _ _ Hd). runs_step.
  eapply runs_mono; [by apply (list_remove_spec h l [] x xs)|].
  intros r h' (_ & ? & ?). by apply runs_ret.
Qed.

Lemma list_pop_back_spec h l xs x :
  dll h l (xs ++ [x]) →
  runs (list_pop_back l) h (λ r h', r = x ∧ dll h' l xs ∧ frame (cells l xs) h h').
Proof.
  intros Hd. unfold list_pop_back. hload (list_back_spec _ _ _ _ Hd). runs_step.
  eapply runs_mono; [by apply (list_remove_spec h l xs x [])|].
  intros r h' (_ & ? & ?). rewrite app_nil_r in *. by apply runs_ret.
Qed.
End ops.

(** ** Splicing *)

Section splice.
Implicit Types (h : heap) (fs gs xs ys : list Z) (a b e p : Z) (l : klist).

Lemma chain_app_iff h fs gs :
  chain h (fs ++ gs) ↔
  chain h fs ∧ chain h gs ∧
  (∀ x y, last fs = Some x → hd_error gs = Some y → link h x y).
Proof.
  destruct gs as [|y gs]; [rewrite app_nil_r; naive_solver|].
  destruct fs as [|x fs _] using rev_ind; [simpl; naive_solver|].
  rewrite <- app_assoc. simpl. rewrite chain_app_link, last_snoc. naive_solver.
Qed.

Lemma chain_seg_ext h h' fs :
  NoDup fs → chain h fs →
  (∀ c, c ∈ fs → last fs ≠ Some c → nx h' c = nx h c) →
  (∀ c, c ∈ fs → hd_error fs ≠ Some c → pv h' c = pv h c) →
  chain h' fs.
Proof.
  induction fs as [|x [|y fs] IH]; [done..|].
  intros Hnd [[Hn Hp] Hc]%chain_cons Hnx Hpv. apply NoDup_cons in Hnd as [Hx Hnd].
  rewrite chain_cons. split.
  - split; [rewrite Hnx; [done|set_solver|]|rewrite Hpv; [done|set_solver|set_solver]].
    rewrite last_cons_cons. intros Hl. apply Hx. by apply last_Some_elem_of.
  - apply IH; [done|done|..].
    + intros c Hcin Hl. apply Hnx; [set_solver|]. by rewrite last_cons_cons.
    + intros c Hcin _. apply Hpv; [set_solver|]. intros [= ->]. done.
Qed.

Definition spliced h a m n z f b : heap :=
  set_prev a n (set_next b m (set_next n a (set_prev m b (set_prev f z (set_next z f h))))).

Lemma list_splice_run h a m n lastp z f b :
  orelse (is_interior a) (is_tail a) h = Ok (true, h) →
  m ≠ lastp → list_prev lastp h = Ok (n, h) →
  is_interior m h = Ok (true, h) → is_interior n h = Ok (true, h) →
  pv h m = Some z → nx h n = Some f → pv h a = Some b →
  is_Some (h !! z) → is_Some (h !! f) → is_Some (h !! b) →
  m ≠ f → a ≠ f → a ≠ m →
  list_splice a m lastp h = Ok (tt, spliced h a m n z f b).
Proof.
  intros Ha Hml Hprev Hm Hn Hmz Hnf Hab Hz Hf Hb ???.
  pose proof (pv_Some _ _ _ Hmz). pose proof (nx_Some _ _ _ Hnf). pose proof (pv_Some _ _ _ Hab).
  enough (runs (list_splice a m lastp) h (λ _ h', h' = spliced h a m n z f b)) as ([] & ? & -> & ->)
    by done.
  unfold list_splice. hload Ha. runs_step; apply runs_assert; [done|].
  destruct (Z.eqb_spec m lastp); [done|].
  hload Hprev. hload Hm. runs_step; apply runs_assert; [done|].
  hload Hn. runs_step; apply runs_assert; [done|].
  hload (load_prev_eq _ _ _ Hmz). hload (load_next_eq _ _ _ Hnf). runs_step; hstore.
  runs_step. eapply runs_eq; [apply (load_next_eq _ _ f)|].
  { autorewrite with cells. case_decide; [by rewrite Hnf|done]. }
  runs_step. eapply runs_eq; [apply (load_prev_eq _ _ z); by autorewrite with cells|].
  runs_step; hstore.
  runs_step. eapply runs_eq; [apply (load_prev_eq _ _ b); hsimp|].
  runs_step; hstore. runs_step; hstore.
  runs_step. eapply runs_eq; [apply (load_prev_eq _ _ b); hsimp|].
  runs_step; hstore. hstore. done.
Qed.

Lemma spliced_frame h a m n z f b : frame [a; m; n; z; f; b] h (spliced h a m n z f b).
Proof.
  unfold spliced. split.
  - intros c Hc. rewrite set_prev_other, !set_next_other, !set_prev_other, set_next_other;
      set_solver.
  - intros c Hc. by rewrite is_Some_set_prev, !is_Some_set_next, !is_Some_set_prev, is_Some_set_next.
Qed.

Lemma nx_spliced h a m n z f b c :
  is_Some (h !! c) →
  nx (spliced h a m n z f b) c =
    if decide (c = b) then Some m else if decide (c = n) then Some a
    else if decide (c = z) then Some f else nx h c.
Proof.
  intros [v Hv]%is_Some_nx. unfold spliced. autorewrite with cells.
  repeat case_decide; simplify_eq; try done; by rewrite Hv.
Qed.
Lemma pv_spliced h a m n z f b c :
  is_Some (h !! c) →
  pv (spliced h a m n z f b) c =
    if decide (c = a) then Some n else if decide (c = m) then Some b
    else if decide (c = f) then Some z else pv h c.
Proof.
  intros [v Hv]%is_Some_pv. unfold spliced. autorewrite with cells.
  repeat case_decide; simplify_eq; try done; by rewrite Hv.
Qed.
End splice.

Section splice_specs.
Implicit Types (h : heap) (fs gs xs ys : list Z) (a b e p : Z) (l : klist).

Lemma back_app l xs ys y : last ys = Some y → back l (xs ++ ys) = y.
Proof. intros Hl. unfold back. by rewrite last_app, Hl. Qed.

Lemma last_cons_Some {A} (x : A) (xs : list A) : ∃ y, last (x :: xs) = Some y ∧ y ∈ x :: xs.
Proof.
  destruct (last (x :: xs)) as [y|] eqn:E.
  - exists y. split; [done|]. by apply last_Some_elem_of.
  - by apply last_None in E.
Qed.

(** cutting a segment out leaves its inner links alone *)
Lemma dll_cut h l xs ms ys :
  dll h l (xs ++ ms ++ ys) →
  let h1 := set_prev (front l ys) (back l xs) (set_next (back l xs) (front l ys) h) in
  dll h1 l (xs ++ ys) ∧ chain h1 ms ∧ NoDup ms ∧ (NULL ∉ ms) ∧
  (∀ a, a ∈ ms → a ∉ cells l (xs ++ ys)).
Proof.
  intros Hd h1. destruct (NoDup_cells_remove l xs ys ms (dll_nodup _ _ _ Hd)) as (Hnd & Hms & Hdis).
  pose proof (back_in l xs ys). pose proof (front_in l xs ys).
  assert (is_Some (nx h (back l xs))) as [v Hv].
  { apply is_Some_nx. eapply dll_cell; [done|apply back_in]. }
  assert (is_Some (pv h (front l ys))) as [w Hw].
  { apply is_Some_pv. eapply dll_cell; [done|]. rewrite app_assoc. apply front_in. }
  split_and!; [|..|done| |done].
  - apply (dll_replace h _ l xs ms [] ys); [done|..].
    + simpl. unfold link, h1. autorewrite with cells. rewrite !decide_True by done.
      by rewrite Hv, Hw.
    + done.
    + set_solver.
    + intros a Ha Hne. unfold h1. autorewrite with cells. by rewrite decide_False.
    + intros a Ha Hne. unfold h1. autorewrite with cells. by rewrite decide_False.
  - pose proof (dll_segment _ _ _ _ _ Hd) as Hc.
    change (chain h ([back l xs] ++ ms ++ [front l ys])) in Hc.
    rewrite !chain_app_iff in Hc. destruct Hc as (_ & (Hc & _) & _).
    eapply chain_seg_ext; [done..| |]; intros a Ha _; unfold h1; autorewrite with cells;
      rewrite decide_False; [done|intros <-; by eapply Hdis|done|intros <-; by eapply Hdis].
  - intros Hin. apply (dll_null _ _ _ Hd). unfold cells. set_solver.
Qed.

(** linking a segment in *)
Lemma dll_paste h l xs m ms n ys :
  dll h l (xs ++ ys) → chain h (m :: ms) → NoDup (m :: ms) → NULL ∉ m :: ms →
  (∀ a, a ∈ m :: ms → is_Some (h !! a) ∧ a ∉ cells l (xs ++ ys)) →
  last (m :: ms) = Some n →
  dll (set_prev (front l ys) n (set_next (back l xs) m
        (set_next n (front l ys) (set_prev m (back l xs) h)))) l (xs ++ (m :: ms) ++ ys).
Proof.
  intros Hd Hc Hnd Hnull Hdom Hlast. set (b := back l xs). set (f := front l ys).
  pose proof (back_in l xs ys) as Hb. pose proof (front_in l xs ys) as Hf. fold b in Hb. fold f in Hf.
  assert (n ∈ m :: ms) as Hn by by apply last_Some_elem_of.
  assert (m ∈ m :: ms) as Hm by apply elem_of_here.
  assert (∀ a, a ∈ m :: ms → a ≠ b ∧ a ≠ f) as Hne.
  { intros a Ha. destruct (Hdom a Ha) as [_ Hx]. split; intros ->; done. }
  destruct (Hne n Hn), (Hne m Hm).
  destruct (proj1 (is_Some_nx _ _) (proj1 (Hdom n Hn))) as [vn Hvn].
  destruct (proj1 (is_Some_pv _ _) (proj1 (Hdom m Hm))) as [vm Hvm].
  pose proof (front_prev _ _ _ _ Hd) as Hfp. pose proof (back_next _ _ _ _ Hd) as Hbn.
  fold b f in Hfp, Hbn.
  apply (dll_replace h _ l xs [] (m :: ms) ys); [done|..].
  - fold b f. change (b :: (m :: ms) ++ [f]) with ([b] ++ (m :: ms) ++ [f]).
    rewrite !chain_app_iff. split_and!; [done| |done| |].
    + eapply chain_seg_ext; [done..| |]; intros a Ha Hx; destruct (Hne a Ha);
        autorewrite with cells; rewrite !decide_False by (done || naive_solver); done.
    + rewrite Hlast. intros ?? [= <-] [= <-]. unfold link. autorewrite with cells.
      rewrite decide_False, !decide_True by done. by rewrite Hvn, Hfp; case_decide.
    + intros ?? [= <-] [= <-]. unfold link. autorewrite with cells.
      rewrite decide_True, decide_False, decide_False, decide_True by done.
      by rewrite Hbn, Hvm.
  - apply NoDup_cells_insert; [apply Hd|done|]. intros a Ha. by apply Hdom.
  - done.
  - intros a Ha Hx. fold b in Hx. autorewrite with cells. rewrite !decide_False; [done| |done].
    intros <-. by apply (Hdom n Hn).
  - intros a Ha Hx. fold f in Hx. autorewrite with cells. rewrite !decide_False; [done| |done].
    intros <-. by apply (Hdom m Hm).
Qed.

(** the facts about a range [m :: ms] of a list that [list_splice] tests *)
Lemma range_facts h l us m ms n vs :
  dll h l (us ++ (m :: ms) ++ vs) → last (m :: ms) = Some n →
  is_interior m h = Ok (true, h) ∧ is_interior n h = Ok (true, h) ∧
  pv h m = Some (back l us) ∧ nx h n = Some (front l vs) ∧
  list_prev (front l vs) h = Ok (n, h) ∧ m ≠ front l vs ∧
  is_Some (h !! back l us) ∧ is_Some (h !! front l vs).
Proof.
  intros Hd Hn.
  assert (dll h l ((us ++ m :: ms) ++ vs)) as Hd2 by by rewrite <- app_assoc.
  pose proof (back_next _ _ _ _ Hd2) as Hnf. rewrite (back_app _ _ _ _ Hn) in Hnf.
  pose proof (list_prev_eq _ _ _ _ Hd2) as Hpr. rewrite (back_app _ _ _ _ Hn) in Hpr.
  split_and!; try done.
  - by eapply interior_ok.
  - apply last_Some in Hn as [m1 Hm1]. rewrite Hm1, <- app_assoc in Hd.
    apply (interior_ok h l (us ++ m1) n vs). by rewrite <- app_assoc.
  - apply (front_prev _ _ _ _ Hd).
  - intros Heq. destruct (NoDup_cells_remove l us vs (m :: ms) (dll_nodup _ _ _ Hd)) as (_ & _ & Hx).
    apply (Hx m (elem_of_here _ _)). rewrite Heq. apply front_in.
  - eapply dll_cell; [exact Hd|apply back_in].
  - eapply dll_cell; [exact Hd2|apply front_in].
Qed.

(** Moving the range [ms] in front of the elements [aq] that precede it, within
    one list: the step of [inplace_merge]. *)
Lemma list_splice_within h l xs a aq m ms ys :
  dll h l (xs ++ (a :: aq) ++ (m :: ms) ++ ys) →
  runs (list_splice a m (front l ys)) h (λ _ h',
    dll h' l (xs ++ (m :: ms) ++ (a :: aq) ++ ys) ∧
    frame (cells l (xs ++ (a :: aq) ++ (m :: ms) ++ ys)) h h').
Proof.
  intros Hd. destruct (last_cons_Some m ms) as (n & Hn & Hnin).
  assert (dll h l ((xs ++ a :: aq) ++ (m :: ms) ++ ys)) as Hd1 by by rewrite <- app_assoc.
  destruct (range_facts _ _ _ _ _ _ _ Hd1 Hn) as (Hm & Hin & Hmz & Hnf & Hpr & Hmf & Hz & Hf).
  destruct (dll_cut _ _ _ _ _ Hd1) as (Hcut & Hch & Hnd & Hnull & Hdis).
  set (z := back l (xs ++ a :: aq)) in *. set (f := front l ys) in *.
  rewrite <- app_assoc in Hcut. simpl in Hcut.
  assert (a ∈ cells l ((xs ++ a :: aq) ++ ys)) as Ha.
  { rewrite <- app_assoc. apply (front_in l xs (a :: aq ++ ys)). }
  pose proof (front_prev _ _ _ _ Hd) as Hab. simpl in Hab.
  eapply runs_eq.
  { eapply (list_splice_run h a m n f z f (back l xs)); try done.
    - by apply (before_ok _ _ _ _ Hd).
    - eapply dll_cell; [exact Hd|apply back_in].
    - intros Heq. destruct (NoDup_cells_remove l xs ys (a :: aq) (dll_nodup _ _ _ Hcut)) as (_ & _ & Hx).
      apply (Hx a (elem_of_here _ _)). rewrite Heq. apply front_in.
    - intros ->. by apply (Hdis m (elem_of_here _ _)). }
  split.
  - apply (dll_paste _ l xs m ms n (a :: aq ++ ys)); [done..| |done].
    intros c Hc. split; [|specialize (Hdis c Hc); by rewrite <- app_assoc in Hdis].
    rewrite is_Some_set_prev, is_Some_set_next. eapply dll_cell; [exact Hd1|].
    unfold cells. clear -Hc. set_solver.
  - eapply frame_mono; [|apply spliced_frame]. rewrite (app_assoc xs).
    intros c Hc. rewrite !elem_of_cons, elem_of_nil in Hc.
    destruct Hc as [->|[->|[->|[->|[->|[->|[]]]]]]].
    + unfold cells. clear. set_solver.
    + unfold cells. clear. set_solver.
    + unfold cells. clear -Hnin. set_solver.
    + apply back_in.
    + rewrite app_assoc. apply front_in.
    + rewrite <- app_assoc. apply back_in.
Qed.

(** Moving a range from one list to another. *)
Lemma list_splice_across h l1 xs ys l2 us m ms vs :
  dll h l1 (xs ++ ys) → dll h l2 (us ++ (m :: ms) ++ vs) →
  (∀ a, a ∈ cells l1 (xs ++ ys) → a ∉ cells l2 (us ++ (m :: ms) ++ vs)) →
  runs (list_splice (front l1 ys) m (front l2 vs)) h (λ _ h',
    dll h' l1 (xs ++ (m :: ms) ++ ys) ∧ dll h' l2 (us ++ vs) ∧
    frame (cells l1 (xs ++ ys) ++ cells l2 (us ++ (m :: ms) ++ vs)) h h').
Proof.
  intros Hd1 Hd Hdisj. destruct (last_cons_Some m ms) as (n & Hn & Hnin).
  destruct (range_facts _ _ _ _ _ _ _ Hd Hn) as (Hm & Hin & Hmz & Hnf & Hpr & Hmf & Hz & Hf).
  destruct (dll_cut _ _ _ _ _ Hd) as (Hcut & Hch & Hnd & Hnull & Hdis).
  set (z := back l2 us) in *. set (f := front l2 vs) in *.
  pose proof (front_prev _ _ _ _ Hd1) as Hab.
  pose proof (front_in l1 xs ys) as Ha. pose proof (back_in l1 xs ys) as Hb.
  set (a := front l1 ys) in *. set (b := back l1 xs) in *.
  assert (z ∈ cells l2 (us ++ (m :: ms) ++ vs)) as Hzin by apply back_in.
  assert (f ∈ cells l2 (us ++ (m :: ms) ++ vs)) as Hfin by (rewrite app_assoc; apply front_in).
  assert (∀ c, c ∈ m :: ms → c ∈ cells l2 (us ++ (m :: ms) ++ vs)) as Hmin.
  { intros c Hc. unfold cells. clear -Hc. set_solver. }
  assert (∀ c, c ∈ cells l2 (us ++ vs) → c ∈ cells l2 (us ++ (m :: ms) ++ vs)) as Hsub.
  { intros c Hc. unfold cells in *. clear -Hc. set_solver. }
  set (h1 := set_prev f z (set_next z f h)) in *.
  assert (frame [z; f] h h1) as Hfr1.
  { unfold h1. split; intros c Hc.
    - rewrite !not_elem_of_cons in Hc. rewrite set_prev_other, set_next_other; tauto.
    - by rewrite is_Some_set_prev, is_Some_set_next. }
  assert (dll h1 l1 (xs ++ ys)) as Hd1'.
  { eapply dll_frame; [exact Hfr1|done|]. intros c Hc. rewrite !not_elem_of_cons.
    split_and!; [intros ->; by apply (Hdisj _ Hc)..|by intros ?%elem_of_nil]. }
  eapply runs_eq.
  { eapply (list_splice_run h a m n f z f b); try done.
    - by apply (before_ok _ _ _ _ Hd1).
    - eapply dll_cell; [exact Hd1|apply back_in].
    - intros Heq. apply (Hdisj a Ha). by rewrite Heq.
    - intros Heq. apply (Hdisj a Ha). rewrite Heq. apply Hmin, elem_of_here. }
  split_and!.
  - apply (dll_paste _ l1 xs m ms n ys); [done..| |done]. intros c Hc. split.
    + apply Hfr1. eapply dll_cell; [exact Hd|]. auto.
    + intros Hc1. apply (Hdisj c Hc1). auto.
  - eapply (dll_frame [a; m; n; b]); [|exact Hcut|].
    + unfold spliced. fold h1. split; intros c Hc.
      * rewrite !not_elem_of_cons in Hc.
        rewrite set_prev_other, !set_next_other, set_prev_other; tauto.
      * by rewrite is_Some_set_prev, !is_Some_set_next, is_Some_set_prev.
    + intros c Hc. rewrite !not_elem_of_cons. split_and!; [..|by intros ?%elem_of_nil]; intros ->.
      * apply (Hdisj a Ha). auto.
      * apply (Hdis m); [apply elem_of_here|done].
      * by apply (Hdis n).
      * apply (Hdisj b Hb). auto.
  - eapply frame_mono; [|apply spliced_frame].
    intros c Hc. rewrite !elem_of_cons, elem_of_nil in Hc. rewrite elem_of_app.
    destruct Hc as [->|[->|[->|[->|[->|[->|[]]]]]]]; auto.
    right. apply Hmin, elem_of_here.
Qed.
End splice_specs.

(** * Traversals *)

(** the sequence that inserting [e] in order leaves: [e] goes before the first
    element it is less than *)
Fixpoint ins_ordered (less : Z → Z → bool) (e : Z) (xs : list Z) : list Z :=
  match xs with
  | [] => [e]
  | y :: ys => if less e y then e :: y :: ys else y :: ins_ordered less e ys
  end.

(** what [list_unique] keeps after [elem] and what it takes out *)
Fixpoint unique_split (less : Z → Z → bool) (elem : Z) (ys : list Z) : list Z * list Z :=
  match ys with
  | [] => ([], [])
  | y :: ys =>
      if negb (less elem y) && negb (less y elem) then
        let '(k, d) := unique_split less elem ys in (k, y :: d)
      else let '(k, d) := unique_split less y ys in (y :: k, d)
  end.

Lemma bind_eq {S A B} (m : M S A) (f : A → M S B) s a s' :
  m s = Ok (a, s') → (m ≫= f) s = f a s'.
Proof. intros H. unfold mbind, M_bind. by rewrite H. Qed.

(** runs a read of the list on the left of a bind *)
Ltac rbind H := erewrite bind_eq by (apply H).

Section traverse.
Implicit Types (h : heap) (xs ys : list Z) (a b e p : Z) (l : klist).

Lemma list_size_loop_eq h l fuel xs ys cnt :
  dll h l (xs ++ ys) → (length ys < fuel)%nat → 0 ≤ cnt → cnt + Z.of_nat (length ys) < 2 ^ 32 →
  list_size_loop fuel l (front l ys) cnt h = Ok (cnt + Z.of_nat (length ys), h).
Proof.
  revert xs ys cnt. induction fuel as [|fuel IH]; intros xs ys cnt Hd Hf Hc Hlt; [lia|].
  simpl. rewrite (front_eq_tail _ _ _ _ Hd).
  destruct ys as [|y ys]; simpl; [by rewrite Z.add_0_r|].
  rbind (list_next_elem _ _ _ _ _ Hd). simpl in Hlt, Hf.
  rewrite u32_small by lia.
  rewrite (IH (xs ++ [y]) ys); [do 2 f_equal; lia|by rewrite <- app_assoc|lia..].
Qed.

Lemma list_insert_ordered_loop_eq less h l fuel e xs ys :
  dll h l (xs ++ ys) → (length ys < fuel)%nat →
  ∃ ys1 ys2, ys = ys1 ++ ys2 ∧ ins_ordered less e ys = ys1 ++ e :: ys2 ∧
    list_insert_ordered_loop less fuel l e (front l ys) h = Ok (front l ys2, h).
Proof.
  revert xs ys. induction fuel as [|fuel IH]; intros xs ys Hd Hf; [lia|].
  simpl. rewrite (front_eq_tail _ _ _ _ Hd).
  destruct ys as [|y ys]; simpl; [by exists [], []|].
  destruct (less e y); [by exists [], (y :: ys)|].
  rbind (list_next_elem _ _ _ _ _ Hd). simpl in Hf.
  destruct (IH (xs ++ [y]) ys) as (ys1 & ys2 & -> & Heq & Hrun); [by rewrite <- app_assoc|lia|].
  exists (y :: ys1), ys2. simpl. by rewrite Heq.
Qed.

Lemma list_insert_ordered_spec less h l xs e :
  dll h l xs → is_Some (h !! e) → e ≠ NULL → e ∉ cells l xs →
  runs (list_insert_ordered less l e) h (λ _ h',
    dll h' l (ins_ordered less e xs) ∧ frame (e :: cells l xs) h h').
Proof.
  intros Hd He He0 Hnew. unfold list_insert_ordered.
  runs_step. apply runs_assert; [by destruct (Z.eqb_spec e NULL)|].
  destruct (list_insert_ordered_loop_eq less h l (S (size h)) e [] xs) as (ys1 & ys2 & -> & Heq & Hrun);
    [done|pose proof (dll_fuel _ _ _ Hd); lia|].
  runs_step. eapply runs_eq; [unfold with_fuel; rbind (list_begin_eq _ _ _ Hd); exact Hrun|].
  rewrite Heq. by apply list_insert_spec.
Qed.

(** ** Maximum and minimum *)

Lemma list_max_loop_eq less h l fuel xs ys m :
  dll h l (xs ++ ys) → (length ys < fuel)%nat →
  list_max_loop less fuel l m (front l ys) h =
    Ok (foldl (λ m e, if less m e then e else m) m ys, h).
Proof.
  revert xs ys m. induction fuel as [|fuel IH]; intros xs ys m Hd Hf; [lia|].
  simpl. rewrite (front_eq_tail _ _ _ _ Hd).
  destruct ys as [|y ys]; simpl; [done|].
  rbind (list_next_elem _ _ _ _ _ Hd). simpl in Hf.
  rewrite (IH (xs ++ [y]) ys); [done|by rewrite <- app_assoc|lia].
Qed.

Lemma list_min_loop_eq less h l fuel xs ys m :
  dll h l (xs ++ ys) → (length ys < fuel)%nat →
  list_min_loop less fuel l m (front l ys) h =
    Ok (foldl (λ m e, if less e m then e else m) m ys, h).
Proof.
  revert xs ys m. induction fuel as [|fuel IH]; intros xs ys m Hd Hf; [lia|].
  simpl. rewrite (front_eq_tail _ _ _ _ Hd).
  destruct ys as [|y ys]; simpl; [done|].
  rbind (list_next_elem _ _ _ _ _ Hd). simpl in Hf.
  rewrite (IH (xs ++ [y]) ys); [done|by rewrite <- app_assoc|lia].
Qed.
End traverse.
