(* ===== verification/KListAlgo.v ===== *)
(** lib/kernel/list.c: the operations on ordered lists.

    What [list_sort], [list_insert_ordered], [list_unique], [list_max],
    [list_min] and [list_reverse] guarantee when the client's comparison is a
    strict weak ordering (the contract of [list_less_func] in list.h). *)

From S2P Require Import Prelude KList.

(** The contract of [list_less_func]. *)
Class StrictWeak (less : Z → Z → bool) : Prop := {
  sw_irrefl a : less a a = false;
  sw_trans a b c : less a b = true → less b c = true → less a c = true;
  sw_negtrans a b c : less a c = true → less a b = true ∨ less b c = true
}.

(** The nondecreasing order a comparison induces: [y] may follow [x]. *)
Definition ordered (less : Z → Z → bool) (x y : Z) : Prop := less y x = false.

(** Elements the comparison does not tell apart. *)
Definition equiv (less : Z → Z → bool) (x y : Z) : bool := negb (less x y) && negb (less y x).

(** Comparing an integer key of the enclosing structure, in either direction,
    is such an ordering: this is what every caller in the kernel does. *)
#[global] Instance key_lt_sw (key : Z → Z) : StrictWeak (λ a b, key a <? key b).
Proof. split; intros *; rewrite ?Z.ltb_lt, ?Z.ltb_ge; lia. Qed.
#[global] Instance key_gt_sw (key : Z → Z) : StrictWeak (λ a b, key a >? key b).
Proof. split; intros *; rewrite ?Z.gtb_ltb, ?Z.ltb_lt, ?Z.ltb_ge; lia. Qed.
Lemma flip_sw less : StrictWeak less → StrictWeak (λ a b, less b a).
Proof.
  intros [Hi Ht Hn]. split; [auto|eauto|]. intros a b c H. destruct (Hn _ b _ H); auto.
Qed.

Section order.
Context {less : Z → Z → bool} `{!StrictWeak less}.
Implicit Types (a b c x y : Z) (xs ys : list Z).

#[global] Instance ordered_trans : Transitive (ordered less).
Proof.
  unfold ordered. intros a b c Hab Hbc. destruct (less c a) eqn:E; [|done].
  destruct (sw_negtrans _ b _ E); congruence.
Qed.
#[global] Instance ordered_refl : Reflexive (ordered less).
Proof. intros a. apply sw_irrefl. Qed.

Lemma less_ordered a b : less a b = true → ordered less a b.
Proof.
  unfold ordered. intros H. destruct (less b a) eqn:E; [|done].
  pose proof (sw_trans _ _ _ H E). by rewrite sw_irrefl in *.
Qed.

(** ** Insertion keeps a list sorted and is stable *)

Lemma ins_ordered_perm e xs : ins_ordered less e xs ≡ₚ e :: xs.
Proof.
  induction xs as [|y ys IH]; simpl; [done|]. destruct (less e y); [done|].
  rewrite IH. apply Permutation_swap.
Qed.

Lemma ins_ordered_sorted e xs :
  StronglySorted (ordered less) xs → StronglySorted (ordered less) (ins_ordered less e xs).
Proof.
  induction xs as [|y ys IH]; simpl; intros Hs; [by repeat constructor|].
  apply StronglySorted_inv in Hs as [Hs Hy]. destruct (less e y) eqn:E.
  - constructor; [by constructor|]. constructor; [by apply less_ordered|].
    eapply Forall_impl; [exact Hy|]. intros z Hz. etrans; [by apply less_ordered|done].
  - constructor; [auto|]. rewrite ins_ordered_perm. by constructor.
Qed.

(** ** The largest element *)

Lemma foldl_max_spec ys : ∀ pre m mid,
  Forall (λ y, less y m = true) pre → Forall (λ y, less m y = false) mid →
  let r := foldl (λ m e, if less m e then e else m) m ys in
  ∃ pre' post', pre ++ m :: mid ++ ys = pre' ++ r :: post' ∧
    Forall (λ y, less y r = true) pre' ∧ Forall (λ y, less r y = false) post'.
Proof.
  induction ys as [|y ys IH]; intros pre m mid Hpre Hmid; simpl.
  - exists pre, mid. rewrite app_nil_r. done.
  - destruct (less m y) eqn:E.
    + destruct (IH (pre ++ m :: mid) y []) as (p' & q' & Heq & Hp & Hq).
      * apply Forall_app. split; [|constructor; [done|]].
        -- eapply Forall_impl; [exact Hpre|]. intros z Hz. by apply (sw_trans z m y).
        -- eapply Forall_impl; [exact Hmid|]. intros z Hz.
           destruct (sw_negtrans _ z _ E); congruence.
      * constructor.
      * exists p', q'. split; [|done]. rewrite <- Heq. simpl. by rewrite <- app_assoc.
    + destruct (IH pre m (mid ++ [y])) as (p' & q' & Heq & Hp & Hq); [done| |].
      * apply Forall_app. by repeat constructor.
      * exists p', q'. split; [|done]. rewrite <- Heq. by rewrite <- app_assoc.
Qed.
End order.

(** [list_max] returns the earliest of the largest elements; an empty list has
    its tail as the answer. *)
Theorem list_max_spec less (h : heap) l xs :
  StrictWeak less → dll h l xs →
  ∃ m, list_max less l h = Ok (m, h) ∧
  match xs with
  | [] => m = tail l
  | _ => ∃ pre post, xs = pre ++ m :: post ∧
           Forall (λ y, less y m = true) pre ∧ Forall (λ y, less m y = false) post
  end.
Proof.
  intros Hsw Hd. unfold list_max. erewrite bind_eq by (by apply list_begin_eq).
  rewrite (front_eq_tail _ _ [] xs Hd). destruct xs as [|x xs]; simpl; [by eexists|].
  unfold with_fuel. rbind (list_next_elem _ _ [] _ _ Hd).
  rewrite (list_max_loop_eq less h l (S (size h)) [x] xs x Hd)
    by (pose proof (dll_fuel _ _ _ Hd) as Hf; simpl in Hf; lia).
  destruct (foldl_max_spec xs [] x []) as (pre & post & Heq & ? & ?); [constructor..|].
  eexists. split; [done|]. by exists pre, post.
Qed.

(** [list_min] returns the earliest of the smallest elements. *)
Theorem list_min_spec less (h : heap) l xs :
  StrictWeak less → dll h l xs →
  ∃ m, list_min less l h = Ok (m, h) ∧
  match xs with
  | [] => m = tail l
  | _ => ∃ pre post, xs = pre ++ m :: post ∧
           Forall (λ y, less m y = true) pre ∧ Forall (λ y, less y m = false) post
  end.
Proof.
  intros Hsw Hd. unfold list_min. erewrite bind_eq by (by apply list_begin_eq).
  rewrite (front_eq_tail _ _ [] xs Hd). destruct xs as [|x xs]; simpl; [by eexists|].
  unfold with_fuel. rbind (list_next_elem _ _ [] _ _ Hd).
  rewrite (list_min_loop_eq less h l (S (size h)) [x] xs x Hd)
    by (pose proof (dll_fuel _ _ _ Hd) as Hf; simpl in Hf; lia).
  pose proof (flip_sw _ Hsw) as Hfl.
  destruct (foldl_max_spec (less := λ a b, less b a) xs [] x []) as (pre & post & Heq & ? & ?);
    [constructor..|].
  eexists. split; [done|]. by exists pre, post.
Qed.

(** * Sorting *)

#[global] Instance ordered_dec less x y : Decision (ordered less x y).
Proof. unfold ordered. apply _. Defined.

(** adjacent elements of [x :: ys] are in order *)
Fixpoint sorted_from (less : Z → Z → bool) (x : Z) (ys : list Z) : bool :=
  match ys with
  | [] => true
  | y :: ys => negb (less y x) && sorted_from less y ys
  end.

(** the longest nondecreasing run that starts with [x], and what follows it *)
Fixpoint run_split (less : Z → Z → bool) (x : Z) (ys : list Z) : list Z * list Z :=
  match ys with
  | [] => ([], [])
  | y :: ys' =>
      if less y x then ([], y :: ys')
      else let '(r, q) := run_split less y ys' in (y :: r, q)
  end.

(** [xs] is made of [n] sorted runs *)
Inductive Runs (less : Z → Z → bool) : nat → list Z → Prop :=
| Runs_nil : Runs less 0 []
| Runs_cons n r xs : StronglySorted (ordered less) r → Runs less n xs → Runs less (S n) (r ++ xs).

(** [ys] rearranges [xs] and keeps the order of elements that compare equal *)
Definition stable (less : Z → Z → bool) (xs ys : list Z) : Prop :=
  ys ≡ₚ xs ∧ ∀ c, filter (λ x, equiv less c x = true) ys = filter (λ x, equiv less c x = true) xs.

Section sort_pure.
Context {less : Z → Z → bool} `{!StrictWeak less}.
Implicit Types (a b c x y : Z) (xs ys r : list Z).

Lemma sorted_from_spec x ys :
  sorted_from less x ys = true ↔ StronglySorted (ordered less) (x :: ys).
Proof.
  revert x. induction ys as [|y ys IH]; intros x; simpl.
  - split; [by repeat constructor|done].
  - rewrite andb_true_iff, IH, negb_true_iff. split.
    + intros [Hyx Hs]. constructor; [done|].
      apply StronglySorted_inv in Hs as [Hs Hf]. constructor; [done|].
      eapply Forall_impl; [exact Hf|]. intros z Hz. by etrans.
    + intros [Hs Hf]%StronglySorted_inv. by inv Hf.
Qed.

Lemma run_split_app x ys r q : run_split less x ys = (r, q) → ys = r ++ q.
Proof.
  revert x r. induction ys as [|y ys IH]; intros x r; simpl; [by intros [= <- <-]|].
  destruct (less y x); [by intros [= <- <-]|].
  destruct (run_split less y ys) as [r' q'] eqn:E. intros [= <- <-]. simpl. f_equal. eauto.
Qed.

Lemma run_split_sorted x ys r q :
  run_split less x ys = (r, q) → StronglySorted (ordered less) (x :: r).
Proof.
  intros H. apply sorted_from_spec. revert x r H.
  induction ys as [|y ys IH]; intros x r; simpl; [by intros [= <- <-]|].
  destruct (less y x) eqn:E; [by intros [= <- <-]|].
  destruct (run_split less y ys) as [r' q'] eqn:E'. intros [= <- <-]. simpl.
  rewrite E. simpl. eauto.
Qed.

(** a sorted prefix lies inside the longest run *)
Lemma run_split_longest x ys r q p s :
  run_split less x ys = (r, q) → ys = p ++ s → sorted_from less x p = true →
  ∃ t, s = t ++ q.
Proof.
  revert x r p. induction ys as [|y ys IH]; intros x r p; simpl.
  - intros [= <- <-] Heq _. symmetry in Heq. apply app_eq_nil in Heq as [-> ->]. by exists [].
  - destruct (less y x) eqn:E.
    + intros [= <- <-] Heq Hp. destruct p as [|z p]; simpl in *; simplify_eq; [by exists []|].
      by rewrite E in Hp.
    + destruct (run_split less y ys) as [r' q'] eqn:E'. intros [= <- <-] Heq Hp.
      destruct p as [|z p]; simpl in *; simplify_eq.
      * exists (y :: r'). by rewrite (run_split_app _ _ _ _ E').
      * apply andb_true_iff in Hp as [_ Hp]. eauto.
Qed.

Lemma Runs_suffix n xs p s : Runs less n xs → xs = p ++ s → Runs less n s.
Proof.
  intros Hr. revert p s. induction Hr as [|n r xs Hs Hr IH]; intros p s Heq.
  - symmetry in Heq. apply app_eq_nil in Heq as [-> ->]. constructor.
  - apply app_eq_app in Heq as (k & [[-> ->]|[-> ->]]).
    + constructor; [by eapply StronglySorted_app_1_r|done].
    + change s with ([] ++ s). constructor; [constructor|]. by eapply (IH k).
Qed.

(** cutting the longest run off uses up at least one of [n] runs *)
Lemma Runs_cut n x ys r q :
  Runs less n (x :: ys) → run_split less x ys = (r, q) → Runs less (n - 1) q.
Proof.
  intros Hr Hs. remember (x :: ys) as zs eqn:Ez. revert x ys Ez Hs.
  induction Hr as [|n p zs Hp Hr IH]; intros x ys Ez Hs; [done|].
  simpl. rewrite Nat.sub_0_r. destruct p as [|z p]; simpl in Ez; simplify_eq.
  - destruct n; [by inv Hr|]. specialize (IH _ _ eq_refl Hs). simpl in IH.
    rewrite Nat.sub_0_r in IH. change q with ([] ++ q). constructor; [constructor|done].
  - destruct (run_split_longest _ _ _ _ _ _ Hs eq_refl) as [t ->].
    { by apply sorted_from_spec. }
    by eapply Runs_suffix.
Qed.

Lemma Runs_length xs : Runs less (length xs) xs.
Proof.
  induction xs as [|x xs IH]; [constructor|]. change (x :: xs) with ([x] ++ xs).
  constructor; [by repeat constructor|done].
Qed.

Lemma Runs_sorted n xs : Runs less n xs → (n ≤ 1)%nat → StronglySorted (ordered less) xs.
Proof.
  intros [|k r ys Hr Hk] Hn; [constructor|]. destruct k; [|lia]. inv Hk. by rewrite app_nil_r.
Qed.

(** ** Stability *)

Lemma stable_refl xs : stable less xs xs.
Proof. done. Qed.
Lemma stable_trans xs ys zs : stable less xs ys → stable less ys zs → stable less xs zs.
Proof. intros [H1 H2] [H3 H4]. split; [by rewrite H3|]. intros c. by rewrite H4. Qed.
Lemma stable_app xs ys xs' ys' :
  stable less xs xs' → stable less ys ys' → stable less (xs ++ ys) (xs' ++ ys').
Proof.
  intros [H1 H2] [H3 H4]. split; [by rewrite H1, H3|]. intros c.
  by rewrite !filter_app, H2, H4.
Qed.

(** an element smaller than all of a run is equivalent to none of it *)
Lemma equiv_smaller c b xs :
  equiv less c b = true → Forall (λ a, less b a = true) xs →
  filter (λ x, equiv less c x = true) xs = [].
Proof.
  unfold equiv. rewrite andb_true_iff, !negb_true_iff. intros [Hcb Hbc] Hf.
  induction Hf as [|a xs Ha _ IH]; [done|]. rewrite filter_cons_False; [done|].
  rewrite andb_true_iff, !negb_true_iff. intros [Hca Hac].
  destruct (sw_negtrans _ c _ Ha); congruence.
Qed.

Lemma list_merge_stable xs ys :
  StronglySorted (ordered less) xs → StronglySorted (ordered less) ys →
  stable less (xs ++ ys) (list_merge (ordered less) xs ys).
Proof.
  intros Hx Hy. split; [apply merge_Permutation|]. intros c. rewrite filter_app.
  revert ys Hy. induction Hx as [|a xs Hx IHx Ha]; intros ys Hy; [by rewrite list_merge_nil_l|].
  induction Hy as [|b ys Hy IHy Hb]; [simpl; by rewrite app_nil_r|].
  rewrite list_merge_cons. case_decide as Hab.
  - rewrite !filter_cons, IHx by by constructor. by case_decide.
  - assert (less b a = true) as Hlt by (unfold ordered in Hab; by destruct (less b a)).
    rewrite filter_cons, IHy. case_decide as Hcb; [|by rewrite (filter_cons_False _ b)].
    rewrite (filter_cons_True _ b) by done.
    rewrite (equiv_smaller c b (a :: xs)); [done|done|]. constructor; [done|].
    eapply Forall_impl; [exact Ha|]. intros z Hz. unfold ordered in Hz.
    destruct (sw_negtrans _ z _ Hlt); congruence.
Qed.
End sort_pure.

Section sort_heap.
Context (less : Z → Z → bool) `{!StrictWeak less}.
Implicit Types (h : heap) (xs ys pre post : list Z) (l : klist).

#[local] Instance ordered_total : Total (ordered less).
Proof.
  intros a b. unfold ordered. destruct (less b a) eqn:E; [right|by left].
  by apply less_ordered.
Qed.

(** two positions of a list coincide only if nothing lies between them *)
Lemma front_eq_front h l pre ms post :
  dll h l (pre ++ ms ++ post) →
  (front l (ms ++ post) =? front l post) = bool_decide (ms = []).
Proof.
  intros Hd. destruct ms as [|m ms]; simpl; [by rewrite Z.eqb_refl|].
  apply Z.eqb_neq. intros ->.
  destruct (NoDup_cells_remove l pre post (front l post :: ms) (dll_nodup _ _ _ Hd)) as (_ & _ & Hx).
  by apply (Hx _ (elem_of_here _ _)), front_in.
Qed.

Lemma is_sorted_loop_eq h l fuel pre x ys post :
  dll h l (pre ++ (x :: ys) ++ post) → (length ys < fuel)%nat →
  is_sorted_loop less fuel x (front l post) h = Ok (sorted_from less x ys, h).
Proof.
  revert pre x ys. induction fuel as [|fuel IH]; intros pre x ys Hd Hf; [lia|]. simpl.
  erewrite bind_eq by (by apply (list_next_elem h l pre x (ys ++ post))).
  assert (dll h l ((pre ++ [x]) ++ ys ++ post)) as Hd' by (by rewrite <- app_assoc).
  rewrite (front_eq_front _ _ _ _ _ Hd'). destruct ys as [|y ys]; simpl; [done|].
  erewrite bind_eq by (by apply (list_prev_eq h l (pre ++ [x]) (y :: ys ++ post))).
  rewrite back_cons. destruct (less y x); [done|]. simpl in Hf. by apply (IH (pre ++ [x])); [|lia].
Qed.

Lemma is_sorted_eq h l pre ys post :
  dll h l (pre ++ ys ++ post) → StronglySorted (ordered less) ys →
  is_sorted less (front l (ys ++ post)) (front l post) h = Ok (true, h).
Proof.
  intros Hd Hs. unfold is_sorted. rewrite (front_eq_front _ _ _ _ _ Hd).
  destruct ys as [|y ys]; simpl; [done|]. unfold with_fuel.
  rewrite (is_sorted_loop_eq h l (S (size h)) pre y ys post Hd).
  - by rewrite (proj2 (sorted_from_spec y ys) Hs).
  - pose proof (dll_fuel _ _ _ Hd) as Hf. rewrite !length_app in Hf. simpl in Hf. lia.
Qed.

Lemma find_end_of_run_loop_eq h l fuel pre x ys r q :
  dll h l (pre ++ x :: ys) → (length ys < fuel)%nat → run_split less x ys = (r, q) →
  find_end_of_run_loop less fuel x (list_end l) h = Ok (front l q, h).
Proof.
  revert pre x ys r. induction fuel as [|fuel IH]; intros pre x ys r Hd Hf Hr; [lia|]. simpl.
  rbind (list_next_elem _ _ _ _ _ Hd).
  assert (dll h l ((pre ++ [x]) ++ ys)) as Hd' by (by rewrite <- app_assoc).
  rewrite (front_eq_tail _ _ _ _ Hd'). destruct ys as [|y ys]; simpl in Hr; simplify_eq/=; [done|].
  erewrite bind_eq by (by apply (list_prev_eq h l (pre ++ [x]) (y :: ys))).
  rewrite back_cons. destruct (less y x); simplify_eq/=; [done|].
  destruct (run_split less y ys) as [r' q'] eqn:E. simplify_eq.
  simpl in Hf. apply (IH (pre ++ [x]) y ys r'); [done|lia|done].
Qed.

Lemma find_end_of_run_eq h l pre x ys r q :
  dll h l (pre ++ x :: ys) → run_split less x ys = (r, q) →
  find_end_of_run less x (list_end l) h = Ok (front l q, h).
Proof.
  intros Hd Hr. unfold find_end_of_run.
  destruct (dll_cell _ _ _ x Hd) as [_ Hx0]; [apply (front_in l pre (x :: ys))|].
  destruct (dll_cell _ _ _ (tail l) Hd) as [_ Ht0].
  { unfold cells. apply elem_of_cons. right. apply elem_of_app. right. apply elem_of_here. }
  pose proof (front_eq_tail _ _ _ _ Hd) as Hxt. simpl in Hxt.
  erewrite bind_eq by (unfold assert; destruct (Z.eqb_spec x NULL); [done|reflexivity]).
  erewrite bind_eq by (unfold assert, list_end; destruct (Z.eqb_spec (tail l) NULL); [done|reflexivity]).
  erewrite bind_eq by (unfold assert; rewrite Hxt; reflexivity).
  unfold with_fuel. eapply find_end_of_run_loop_eq; [done| |done].
  pose proof (dll_fuel _ _ _ Hd) as Hf. rewrite length_app in Hf. simpl in Hf. lia.
Qed.

Lemma inplace_merge_loop_spec fuel : ∀ h l pre xs ys post,
  dll h l (pre ++ xs ++ ys ++ post) → (length xs + length ys < fuel)%nat →
  runs (inplace_merge_loop less fuel (front l (xs ++ ys ++ post)) (front l (ys ++ post)) (front l post)) h
    (λ _ h', dll h' l (pre ++ list_merge (ordered less) xs ys ++ post) ∧
             frame (cells l (pre ++ xs ++ ys ++ post)) h h').
Proof.
  induction fuel as [|fuel IH]; intros h l pre xs ys post Hd Hf; [lia|]. simpl.
  rewrite (front_eq_front _ _ _ _ _ Hd).
  assert (dll h l ((pre ++ xs) ++ ys ++ post)) as Hd' by (by rewrite <- app_assoc).
  rewrite (front_eq_front _ _ _ _ _ Hd').
  destruct xs as [|x xs].
  { apply runs_ret. by rewrite list_merge_nil_l. }
  destruct ys as [|y ys].
  { apply runs_ret. by rewrite list_merge_nil_r. }
  rewrite !bool_decide_eq_false_2 by done. rewrite list_merge_cons. simpl negb. cbn [andb front app].
  destruct (less y x) eqn:E; simpl negb; cbn iota.
  - rewrite decide_False by (unfold ordered; by rewrite E).
    hload (list_next_elem h l (pre ++ x :: xs) y (ys ++ post) Hd').
    assert (dll h l ((pre ++ (x :: xs) ++ [y]) ++ ys ++ post)) as Hd2.
    { by rewrite <- !app_assoc in *. }
    hload (list_prev_eq _ _ _ _ Hd2). rewrite app_assoc, back_cons.
    runs_step. eapply runs_mono.
    { apply (list_splice_within h l pre x xs y [] (ys ++ post)). exact Hd. }
    simpl. intros _ h1 [Hd1 Hfr1].
    eapply runs_mono; [apply (IH h1 l (pre ++ [y]) (x :: xs) ys post)|].
    + by rewrite <- app_assoc.
    + simpl in *. lia.
    + intros _ h2 [Hd3 Hfr2]. rewrite <- app_assoc in Hd3. split; [done|].
      eapply frame_trans; [done|]. eapply frame_mono; [|done].
      intros c. unfold cells. clear. set_solver.
  - rewrite decide_True by done.
    hload (list_next_elem h l pre x (xs ++ (y :: ys) ++ post) Hd).
    eapply runs_mono; [apply (IH h l (pre ++ [x]) xs (y :: ys) post)|].
    + by rewrite <- app_assoc.
    + simpl in *. lia.
    + intros _ h2 [Hd3 Hfr2]. rewrite <- app_assoc in Hd3, Hfr2. done.
Qed.

Lemma inplace_merge_spec h l pre xs ys post :
  dll h l (pre ++ xs ++ ys ++ post) →
  StronglySorted (ordered less) xs → StronglySorted (ordered less) ys →
  runs (inplace_merge less (front l (xs ++ ys ++ post)) (front l (ys ++ post)) (front l post)) h
    (λ _ h', dll h' l (pre ++ list_merge (ordered less) xs ys ++ post) ∧
             frame (cells l (pre ++ xs ++ ys ++ post)) h h').
Proof.
  intros Hd Hxs Hys. unfold inplace_merge.
  assert (dll h l ((pre ++ xs) ++ ys ++ post)) as Hd1 by (by rewrite <- app_assoc).
  assert (dll h l ((pre ++ xs ++ ys) ++ post)) as Hd2 by (by rewrite <- !app_assoc).
  destruct (dll_cell _ _ _ _ Hd (front_in _ _ _)) as [_ H1].
  destruct (dll_cell _ _ _ _ Hd1 (front_in _ _ _)) as [_ H2].
  destruct (dll_cell _ _ _ _ Hd2 (front_in _ _ _)) as [_ H3].
  runs_step. apply runs_assert; [by apply negb_true_iff, Z.eqb_neq|].
  runs_step. apply runs_assert; [by apply negb_true_iff, Z.eqb_neq|].
  runs_step. apply runs_assert; [by apply negb_true_iff, Z.eqb_neq|].
  hload (is_sorted_eq h l pre xs (ys ++ post) Hd Hxs). runs_step. apply runs_assert; [done|].
  hload (is_sorted_eq h l (pre ++ xs) ys post Hd1 Hys). runs_step. apply runs_assert; [done|].
  apply inplace_merge_loop_spec; [done|].
  pose proof (dll_fuel _ _ _ Hd) as Hf. rewrite !length_app in Hf. lia.
Qed.

Lemma list_merge_sorted xs ys :
  StronglySorted (ordered less) xs → StronglySorted (ordered less) ys →
  StronglySorted (ordered less) (list_merge (ordered less) xs ys).
Proof.
  intros Hx Hy. apply Sorted_StronglySorted; [apply _|].
  apply Sorted_list_merge; [apply _|by apply StronglySorted_Sorted..].
Qed.

(** One pass over [ys], a sequence of [k] runs, halves the number of runs and
    returns that number. *)
Lemma list_sort_pass_spec fuel : ∀ h l pre ys k cnt,
  dll h l (pre ++ ys) → (length ys < fuel)%nat → Runs less k ys →
  0 ≤ cnt → cnt + Z.of_nat (length ys) < 2 ^ 32 →
  runs (list_sort_pass less fuel l (front l ys) cnt) h (λ r h', ∃ out n,
    dll h' l (pre ++ out) ∧ stable less ys out ∧ Runs less n out ∧
    (n ≤ length ys)%nat ∧ (2 * n ≤ k + 1)%nat ∧ r = cnt + Z.of_nat n ∧
    frame (cells l (pre ++ ys)) h h').
Proof.
  induction fuel as [|fuel IH]; intros h l pre ys k cnt Hd Hf Hk Hc Hlt; [lia|]. simpl.
  rewrite (front_eq_tail _ _ _ _ Hd). destruct ys as [|x ys]; simpl.
  { apply runs_ret. exists [], 0%nat. split_and!; [done|apply stable_refl|constructor|lia|lia|lia|done]. }
  simpl in Hlt, Hf. rewrite u32_small by lia.
  destruct (run_split less x ys) as [r q] eqn:Er.
  pose proof (run_split_app _ _ _ _ Er) as Heq.
  pose proof (run_split_sorted _ _ _ _ Er) as Hsr. pose proof (Runs_cut _ _ _ _ _ Hk Er) as Hq.
  hload (find_end_of_run_eq h l pre x ys r q Hd Er).
  assert (dll h l ((pre ++ x :: r) ++ q)) as Hd1 by (rewrite <- app_assoc; simpl; by rewrite <- Heq).
  rewrite (front_eq_tail _ _ _ _ Hd1). assert (1 ≤ k)%nat as Hk1 by (destruct k; [inv Hk|lia]).
  destruct q as [|y q]; simpl.
  { apply runs_ret. rewrite app_nil_r in Heq. subst r. exists (x :: ys), 1%nat.
    split_and!; [done|apply stable_refl| |simpl; lia|lia|lia|done].
    rewrite <- (app_nil_r (x :: ys)). constructor; [done|constructor]. }
  destruct (run_split less y q) as [r2 q2] eqn:Er2.
  pose proof (run_split_app _ _ _ _ Er2) as Heq2.
  pose proof (run_split_sorted _ _ _ _ Er2) as Hsr2. pose proof (Runs_cut _ _ _ _ _ Hq Er2) as Hq2.
  assert (1 ≤ k - 1)%nat as Hk2 by (destruct (k - 1)%nat; [inv Hq|lia]).
  hload (find_end_of_run_eq h l (pre ++ x :: r) y q r2 q2 Hd1 Er2).
  assert (ys = r ++ (y :: r2) ++ q2) as -> by (by rewrite Heq, Heq2).
  runs_step. eapply runs_mono; [by apply (inplace_merge_spec h l pre (x :: r) (y :: r2) q2)|].
  intros _ h1 [Hd2 Hfr]. simpl in Hf, Hlt. rewrite length_app in Hf, Hlt. simpl in Hf, Hlt.
  rewrite length_app in Hf, Hlt.
  set (mr := list_merge (ordered less) (x :: r) (y :: r2)) in *.
  eapply runs_mono; [apply (IH h1 l (pre ++ mr) q2 (k - 1 - 1)%nat (cnt + 1))|].
  - by rewrite <- app_assoc.
  - lia.
  - done.
  - lia.
  - lia.
  - intros cr h2 (out & n & Hd3 & Hst & Hn & Hn1 & Hn2 & -> & Hfr2).
    exists (mr ++ out), (S n). split_and!; [by rewrite app_assoc|..|lia|lia|].
    + replace (x :: r ++ (y :: r2) ++ q2) with (((x :: r) ++ (y :: r2)) ++ q2)
        by (by rewrite <- app_assoc).
      apply stable_app; [by apply list_merge_stable|done].
    + constructor; [by apply list_merge_sorted|done].
    + rewrite !length_app. simpl. lia.
    + eapply frame_trans; [exact Hfr|]. eapply frame_mono; [|exact Hfr2]. intros c.
      assert (∀ d, d ∈ mr ↔ d ∈ (x :: r) ++ y :: r2) as Hmr
        by (intros d; unfold mr; by rewrite merge_Permutation).
      unfold cells. clearbody mr. clear -Hmr. set_solver.
Qed.

Lemma list_sort_loop_spec fuel : ∀ h l xs k,
  dll h l xs → (k < fuel)%nat → Runs less k xs → Z.of_nat (length xs) < 2 ^ 32 →
  runs (list_sort_loop less fuel l) h (λ _ h', ∃ ys,
    dll h' l ys ∧ stable less xs ys ∧ StronglySorted (ordered less) ys ∧
    frame (cells l xs) h h').
Proof.
  induction fuel as [|fuel IH]; intros h l xs k Hd Hf Hk Hlt; [lia|]. simpl.
  pose proof (dll_fuel _ _ _ Hd) as Hsz. runs_step.
  apply runs_with_fuel. eapply runs_mono.
  { hload (list_begin_eq _ _ _ Hd).
    apply (list_sort_pass_spec (S (size h)) h l [] xs k 0); [done|lia|done|lia|lia]. }
  intros r h1 (out & n & Hd1 & Hst & Hn & Hn1 & Hn2 & -> & Hfr). simpl in Hd1, Hfr.
  assert (cells l out ⊆ cells l xs) as Hsub.
  { intros c. unfold cells. rewrite !elem_of_cons, !elem_of_app, (proj1 Hst). done. }
  destruct (Z.ltb_spec 1 (0 + Z.of_nat n)).
  - eapply runs_mono; [apply (IH h1 l out n Hd1)|]; [lia|done|by rewrite (proj1 Hst)|].
    intros _ h2 (ys & Hd2 & Hst2 & Hs & Hfr2). exists ys. split_and!; [done| |done|].
    + by eapply stable_trans.
    + eapply frame_trans; [exact Hfr|]. by eapply frame_mono.
  - apply runs_ret. exists out. split_and!; [done..| |done]. eapply Runs_sorted; [done|lia].
Qed.
End sort_heap.

(** C14. [list_sort] returns (no assertion of its helpers fails and its loops end) and
    leaves the list sorted, a stable rearrangement of what it was; only the
    links of the list's own cells change. *)
Theorem list_sort_spec less (h : heap) l xs :
  StrictWeak less → dll h l xs → Z.of_nat (length xs) < 2 ^ 32 →
  runs (list_sort less l) h (λ _ h', ∃ ys,
    dll h' l ys ∧ stable less xs ys ∧ StronglySorted (ordered less) ys ∧
    frame (cells l xs) h h').
Proof.
  intros Hsw Hd Hlt. pose proof (dll_fuel _ _ _ Hd) as Hsz. unfold list_sort. runs_step.
  eapply runs_mono.
  { apply (list_sort_loop_spec less (S (size h)) h l xs (length xs)); [done|lia|apply Runs_length|done]. }
  intros _ h1 (ys & Hd1 & Hst & Hs & Hfr).
  hload (list_begin_eq _ _ _ Hd1). runs_step.
  eapply runs_eq.
  { rewrite <- (app_nil_r ys) in Hd1. rewrite <- (app_nil_r ys) at 1.
    by apply (is_sorted_eq less h1 l [] ys []). }
  apply runs_assert; [done|]. by exists ys.
Qed.

(** * Removing duplicates *)

Section unique.
Context (less : Z → Z → bool).
Implicit Types (h : heap) (xs ys pre ds : list Z) (l d : klist).

(** the two lists [list_unique] works on do not share cells *)
Definition separate (l : klist) (xs : list Z) (d : klist) (ds : list Z) : Prop :=
  ∀ a, a ∈ cells l xs → a ∉ cells d ds.

Lemma list_unique_loop_dup fuel : ∀ h l d pre elem ys ds,
  dll h l (pre ++ elem :: ys) → dll h d ds → separate l (pre ++ elem :: ys) d ds →
  (length ys < fuel)%nat →
  runs (list_unique_loop less fuel l (Some d) elem) h (λ _ h',
    dll h' l (pre ++ elem :: (unique_split less elem ys).1) ∧
    dll h' d (ds ++ (unique_split less elem ys).2)).
Proof.
  induction fuel as [|fuel IH]; intros h l d pre elem ys ds Hd Hds Hsep Hf; [lia|]. simpl.
  hload (list_next_elem _ _ _ _ _ Hd).
  assert (dll h l ((pre ++ [elem]) ++ ys)) as Hd1 by (by rewrite <- app_assoc).
  rewrite (front_eq_tail _ _ _ _ Hd1). destruct ys as [|y ys]; simpl.
  { apply runs_ret. by rewrite app_nil_r. }
  simpl in Hf. destruct (negb (less elem y) && negb (less y elem)).
  - runs_step. eapply runs_mono; [apply (list_remove_spec h l (pre ++ [elem]) y ys Hd1)|].
    intros _ h1 (_ & Hd2 & Hfr).
    assert (∀ a, a ∈ cells l ((pre ++ [elem]) ++ ys) → a ∈ cells l (pre ++ elem :: y :: ys)) as Hsub.
    { intros a. unfold cells. clear. set_solver. }
    assert (y ∈ cells l (pre ++ elem :: y :: ys)) as Hy by (unfold cells; clear; set_solver).
    destruct (dll_cell _ _ _ y Hd Hy) as [Hys Hy0].
    assert (dll h1 d ds) as Hds1.
    { eapply dll_frame; [exact Hfr|done|]. intros a Ha Hin. by apply (Hsep a (Hsub a Hin)). }
    destruct (NoDup_cells_remove l (pre ++ [elem]) ys [y] (dll_nodup _ _ _ Hd1)) as (_ & _ & Hny).
    specialize (Hny y (elem_of_here _ _)).
    runs_step. eapply runs_mono; [apply (list_push_back_spec h1 d ds y Hds1)|].
    + by apply Hfr.
    + done.
    + by apply Hsep.
    + intros _ h2 [Hds2 Hfr2].
      assert (dll h2 l (pre ++ elem :: ys)) as Hd3.
      { rewrite <- app_assoc in Hd2, Hny. eapply dll_frame; [exact Hfr2|exact Hd2|].
        intros a Ha [->|Hin]%elem_of_cons; [done|].
        apply (Hsep a); [|done]. apply Hsub. by rewrite <- app_assoc. }
      destruct (unique_split less elem ys) as [k q] eqn:E.
      eapply runs_mono; [apply (IH h2 l d pre elem ys (ds ++ [y])); [done|done| |lia]|].
      * intros a Ha. assert (a ≠ y) by (intros ->; rewrite <- app_assoc in Hny; done).
        assert (a ∉ cells d ds).
        { apply Hsep. apply Hsub. by rewrite <- app_assoc. }
        unfold cells in *. clear -H H0. set_solver.
      * rewrite E. simpl. intros _ h3 [? Hd4]. by rewrite <- app_assoc in Hd4.
  - destruct (unique_split less y ys) as [k q] eqn:E.
    eapply runs_mono; [apply (IH h l d (pre ++ [elem]) y ys ds); [done|done| |lia]|].
    + by rewrite <- app_assoc.
    + rewrite E. simpl. intros _ h3 [Hd4 ?]. by rewrite <- app_assoc in Hd4.
Qed.
End unique.

(** [list_unique] keeps the first of each group of adjacent equal elements and
    appends the others, in order, to [duplicates]. *)
Theorem list_unique_spec less (h : heap) l d xs ds :
  dll h l xs → dll h d ds → separate l xs d ds →
  runs (list_unique less l (Some d)) h (λ _ h',
    match xs with
    | [] => dll h' l [] ∧ dll h' d ds
    | x :: xs' => dll h' l (x :: (unique_split less x xs').1) ∧
                  dll h' d (ds ++ (unique_split less x xs').2)
    end).
Proof.
  intros Hd Hds Hsep. unfold list_unique. hload (list_empty_eq _ _ _ Hd).
  destruct xs as [|x xs]; simpl; [by apply runs_ret|].
  hload (list_begin_eq _ _ _ Hd). apply runs_with_fuel.
  apply (list_unique_loop_dup less (S (size h)) h l d [] x xs ds); [done..|].
  pose proof (dll_fuel _ _ _ Hd) as Hf. simpl in Hf. lia.
Qed.

(** * Reversal *)

Section reverse.
Implicit Types (h : heap) (xs ys : list Z) (l : klist).

(** [h'] is [h] with the two links of each cell of [xs] exchanged *)
Definition swapped h h' xs : Prop :=
  (∀ a, a ∈ xs → nx h' a = pv h a ∧ pv h' a = nx h a) ∧ (∀ a, a ∉ xs → h' !! a = h !! a).

Lemma swap_links_spec h a p n :
  pv h a = Some p → nx h a = Some n →
  runs (swap_links a) h (λ _ h', nx h' a = Some p ∧ pv h' a = Some n ∧
    ∀ b, b ≠ a → h' !! b = h !! b).
Proof.
  intros Hp Hn. pose proof (pv_Some _ _ _ Hp). unfold swap_links.
  hload (load_prev_eq _ _ _ Hp). hload (load_next_eq _ _ _ Hn). runs_step; hstore. hstore.
  split_and!.
  - autorewrite with cells. rewrite decide_True by done. by rewrite Hn.
  - autorewrite with cells. rewrite decide_True by done. by rewrite Hp.
  - intros b Hb. by rewrite set_next_other, set_prev_other.
Qed.

Lemma list_reverse_loop_spec h l fuel : ∀ h1 xs ys,
  dll h l (xs ++ ys) → swapped h h1 xs → (length ys < fuel)%nat →
  runs (list_reverse_loop fuel l (front l ys)) h1 (λ _ h2, swapped h h2 (xs ++ ys)).
Proof.
  induction fuel as [|fuel IH]; intros h1 xs ys Hd Hsw Hf; [lia|]. simpl.
  rewrite (front_eq_tail _ _ _ _ Hd). destruct ys as [|y ys]; simpl.
  { apply runs_ret. by rewrite app_nil_r. }
  assert (dll h l ((xs ++ [y]) ++ ys)) as Hd1 by (by rewrite <- app_assoc).
  pose proof (front_prev _ _ _ _ Hd) as Hp. simpl in Hp.
  pose proof (back_next _ _ _ _ Hd1) as Hn. rewrite back_cons in Hn.
  destruct (NoDup_cells_remove l xs ys [y] (dll_nodup _ _ _ Hd)) as (_ & _ & Hny).
  assert (y ∉ xs) as Hyx.
  { intros Hin. apply (Hny y (elem_of_here _ _)). unfold cells. clear -Hin. set_solver. }
  destruct Hsw as [Hsw1 Hsw2].
  assert (nx h1 y = nx h y ∧ pv h1 y = pv h y) as [Hn1 Hp1] by (unfold nx, pv; by rewrite Hsw2).
  runs_step. eapply runs_mono; [apply (swap_links_spec h1 y); [by rewrite Hp1|by rewrite Hn1]|].
  intros _ h2 (Hn2 & Hp2 & Hother). hload (load_prev_eq _ _ _ Hp2). simpl in Hf.
  replace (xs ++ y :: ys) with ((xs ++ [y]) ++ ys) by (by rewrite <- app_assoc).
  apply IH; [done| |lia]. split.
  - intros a Ha. destruct (decide (a = y)) as [->|Hay].
    + by rewrite Hn2, Hp2, Hp, Hn.
    + apply elem_of_app in Ha as [Ha|Ha%list_elem_of_singleton]; [|done].
      unfold nx, pv. rewrite Hother by done. by apply Hsw1.
  - intros a [Ha1 Ha2]%not_elem_of_app. rewrite Hother, Hsw2; [done|done|].
    intros ->. apply Ha2. apply elem_of_here.
Qed.

(** exchanging the links of the cells of a chain reverses it *)
Lemma chain_swapped h h1 xs :
  chain h xs → (∀ a, a ∈ xs → nx h1 a = pv h a ∧ pv h1 a = nx h a) → chain h1 (reverse xs).
Proof.
  induction xs as [|x [|y xs] IH]; intros Hc Hsw; [done..|].
  apply chain_cons in Hc as [[Hn Hp] Hc]. rewrite reverse_cons.
  apply chain_app_iff. split_and!; [|done|].
  - apply IH; [done|]. intros a Ha. apply Hsw. by apply elem_of_cons; right.
  - intros a b. rewrite last_reverse. simpl. intros [= <-] [= <-]. split.
    + by rewrite (proj1 (Hsw y ltac:(by apply elem_of_cons; right; apply elem_of_here))).
    + by rewrite (proj2 (Hsw x (elem_of_here _ _))).
Qed.
End reverse.

Section reverse_finish.
Context (h h1 : heap) (l : klist) (x z : Z) (xs : list Z).
Hypothesis (Hd : dll h l (x :: xs)) (Hsw : swapped h h1 (x :: xs)) (Hz : last (x :: xs) = Some z).

(** the header cells are not elements *)
Lemma ends_fresh :
  (head l ∉ x :: xs) ∧ (tail l ∉ x :: xs) ∧ head l ≠ tail l ∧ NoDup (x :: xs).
Proof.
  pose proof (dll_nodup _ _ _ Hd) as Hnd. unfold cells in Hnd.
  apply NoDup_cons in Hnd as [Hh Hnd]. apply NoDup_app in Hnd as (Hnd & Ht & _).
  split_and!; [..|done]; intros Hin.
  - by apply Hh, elem_of_app; left.
  - by apply (Ht _ Hin), elem_of_here.
  - apply Hh, elem_of_app. right. rewrite Hin. apply elem_of_here.
Qed.

Lemma ends_ne : x ≠ head l ∧ x ≠ tail l ∧ z ≠ head l ∧ z ≠ tail l.
Proof.
  destruct ends_fresh as (Hh & Ht & _ & _). pose proof (elem_of_here x xs) as Hx.
  pose proof (last_Some_elem_of _ _ Hz) as Hzin.
  split_and!; intros Heq; first [apply Hh; rewrite <- Heq; done|apply Ht; rewrite <- Heq; done].
Qed.

(** the links at the two ends after the loop *)
Lemma ends_links :
  nx h1 (head l) = Some x ∧ pv h1 (tail l) = Some z ∧
  nx h1 x = Some (head l) ∧ pv h1 z = Some (tail l).
Proof.
  destruct ends_fresh as (Hh & Ht & _ & _). destruct Hsw as [Hs Ho].
  assert (dll h l ((x :: xs) ++ [])) as Hd0 by (by rewrite app_nil_r).
  assert (back l (x :: xs) = z) as Hb by (unfold back; by rewrite Hz).
  pose proof (front_prev _ _ _ _ Hd0) as Hp. pose proof (back_next _ _ _ _ Hd0) as Hn.
  rewrite Hb in Hp, Hn. split_and!.
  - unfold nx. rewrite Ho by done. apply (back_next h l [] (x :: xs) Hd).
  - unfold pv. by rewrite Ho.
  - rewrite (proj1 (Hs x (elem_of_here _ _))). apply (front_prev h l [] (x :: xs) Hd).
  - by rewrite (proj2 (Hs z (last_Some_elem_of _ _ Hz))).
Qed.

Lemma dll_reversed :
  dll (set_next x (tail l) (set_prev z (head l) (set_prev (tail l) x (set_next (head l) z h1))))
    l (reverse (x :: xs)).
Proof.
  destruct ends_fresh as (Hhx & Htx & Hht & Hnd). destruct ends_ne as (? & ? & ? & ?).
  destruct ends_links as (Hn_h & Hp_t & Hn_x & Hp_z). destruct Hsw as [Hs Ho].
  assert (∃ q, reverse (x :: xs) = z :: q) as [q Hq].
  { apply last_Some in Hz as [q ->]. rewrite reverse_snoc. eauto. }
  split.
  - hsimp. unfold pv. rewrite Ho by done. apply (dll_head _ _ _ Hd).
  - hsimp. unfold nx. rewrite Ho by done. apply (dll_tail _ _ _ Hd).
  - change (cells l (reverse (x :: xs))) with ([head l] ++ reverse (x :: xs) ++ [tail l]).
    rewrite !chain_app_iff, last_reverse. split_and!; [done| |done| |].
    + eapply (chain_seg_ext h1); [by rewrite reverse_Permutation| | |].
      * apply (chain_swapped h); [|done]. pose proof (dll_chain _ _ _ Hd) as Hc.
        change (chain h ([head l] ++ (x :: xs) ++ [tail l])) in Hc.
        rewrite !chain_app_iff in Hc. tauto.
      * intros c Hc. rewrite last_reverse. simpl. intros Hcx.
        rewrite elem_of_reverse in Hc. assert (c ≠ head l) by (intros ->; done). hsimp.
      * intros c Hc Hcz. rewrite Hq in Hcz. rewrite elem_of_reverse in Hc.
        assert (c ≠ tail l) by (intros ->; done). simpl in Hcz. hsimp.
    + intros ?? [= <-] [= <-]. unfold link. hsimp; by rewrite ?Hn_x, ?Hp_t.
    + rewrite Hq. intros ?? [= <-] [= <-]. unfold link. hsimp; by rewrite ?Hn_h, ?Hp_z.
  - unfold cells. rewrite reverse_Permutation. apply (dll_nodup _ _ _ Hd).
  - unfold cells. rewrite reverse_Permutation. apply (dll_null _ _ _ Hd).
Qed.
End reverse_finish.

(** [list_reverse] leaves the same elements in the opposite order. *)
Theorem list_reverse_spec (h : heap) l xs :
  dll h l xs → runs (list_reverse l) h (λ _ h', dll h' l (reverse xs)).
Proof.
  intros Hd. unfold list_reverse. hload (list_empty_eq _ _ _ Hd).
  destruct xs as [|x xs]; simpl; [by apply runs_ret|].
  destruct (last_cons_Some x xs) as (z & Hz & _).
  runs_step. apply runs_with_fuel. hload (list_begin_eq _ _ _ Hd).
  eapply runs_mono.
  { apply (list_reverse_loop_spec h l (S (size h)) h [] (x :: xs)); [done| |].
    - split; [intros ? ?%elem_of_nil; done|done].
    - pose proof (dll_fuel _ _ _ Hd). lia. }
  simpl. intros _ h1 Hsw. destruct (ends_ne h l x z xs Hd Hz) as (? & ? & ? & ?).
  destruct (ends_fresh h l x xs Hd) as (_ & _ & Hht & _).
  destruct (ends_links h h1 l x z xs Hd Hsw Hz) as (Hn_h & Hp_t & Hn_x & Hp_z).
  pose proof (nx_Some _ _ _ Hn_h). pose proof (pv_Some _ _ _ Hp_t).
  pose proof (nx_Some _ _ _ Hn_x). pose proof (pv_Some _ _ _ Hp_z).
  hload (load_next_eq _ _ _ Hn_h). hload (load_prev_eq _ _ _ Hp_t).
  runs_step; hstore. runs_step; hstore.
  runs_step. eapply runs_eq; [apply (load_next_eq _ _ z); hsimp; by rewrite Hn_h|].
  runs_step. eapply runs_eq; [apply (load_prev_eq _ _ x); hsimp; by rewrite Hp_t|].
  runs_step. eapply runs_eq; [apply (load_prev_eq _ _ (tail l)); hsimp|].
  runs_step. eapply runs_eq; [apply (load_next_eq _ _ (head l)); hsimp|].
  runs_step; hstore. hstore. by apply (dll_reversed h h1 l x z xs).
Qed.

(** * Concrete lists *)

(** Two lists in one store: the headers of the first at 1 and 2, its elements at
    10, 20, 30; the headers of the second at 3 and 4, one element at 40. *)
Definition ex_list : klist := mk_klist 1 2.
Definition ex_list2 : klist := mk_klist 3 4.
Definition ex_heap : heap := list_to_map
  [(1, mk_list_elem 0 10); (10, mk_list_elem 1 20); (20, mk_list_elem 10 30);
   (30, mk_list_elem 20 2); (2, mk_list_elem 30 0); (3, mk_list_elem 0 40);
   (40, mk_list_elem 3 4); (4, mk_list_elem 40 0); (50, mk_list_elem 0 0)].

(** the key of an element, as a field of the structure around it would give it *)
Definition ex_key (a : Z) : Z := a mod 20.
Definition ex_less (a b : Z) : bool := ex_key a <? ex_key b.

Ltac concrete_dll :=
  split; [reflexivity|reflexivity|repeat split; reflexivity
         |apply (bool_decide_unpack _); vm_compute; exact I
         |apply (bool_decide_unpack _); vm_compute; exact I].

Lemma ex_dll : dll ex_heap ex_list [10; 20; 30].
Proof. concrete_dll. Defined.
Lemma ex_dll2 : dll ex_heap ex_list2 [40].
Proof. concrete_dll. Defined.

Lemma list_sort_witness :
  runs (list_sort ex_less ex_list) ex_heap (λ _ h', ∃ ys,
    dll h' ex_list ys ∧ stable ex_less [10; 20; 30] ys ∧
    StronglySorted (ordered ex_less) ys ∧ frame (cells ex_list [10; 20; 30]) ex_heap h').
Proof.
  apply (list_sort_spec ex_less ex_heap ex_list [10; 20; 30]).
  - apply key_lt_sw.
  - apply ex_dll.
  - reflexivity.
Defined.
