(* ===== verification/FixedPoint.v ===== *)
(** lib/kernel/arith_fp.c, lib/kernel/arith_fp.h: 17.14 fixed-point numbers in
    an [int], used by the multi-level feedback queue scheduler.

    C's integer division truncates ([Z.quot]); a division by zero traps, which
    the model reports as [Fault].  Results are reduced to 32 bits where the C
    code stores them in an [int]. *)

From S2P Require Import Prelude.

Definition FP_DECIMAL : Z := 14.
Definition NUM_1 : Z := Z.shiftl 1 FP_DECIMAL.

Definition int_to_FP (integer : Z) : Z := s32 (integer * NUM_1).

Definition FP_to_int (decimal : Z) : Z := Z.quot decimal NUM_1.

Definition FP_to_int_round_off (decimal : Z) : Z :=
  if decimal >=? 0 then Z.quot (s32 (decimal + Z.quot NUM_1 2)) NUM_1
  else Z.quot (s32 (decimal - Z.quot NUM_1 2)) NUM_1.

Definition add_FP_to_FP (dec_a dec_b : Z) : Z := s32 (dec_a + dec_b).

Definition mul_FP_to_FP (dec_a dec_b : Z) : Z := s32 (Z.quot (s64 (dec_a * dec_b)) NUM_1).

Definition sub_FP_to_FP (dec_a dec_b : Z) : Z := s32 (dec_a - dec_b).

Definition div_FP_to_FP (dec_a dec_b : Z) : outcome Z :=
  if dec_b =? 0 then Err Fault else Ok (s32 (Z.quot (s64 (dec_a * NUM_1)) dec_b)).

(** * Properties *)

Definition int32 (z : Z) : Prop := - 2 ^ 31 ≤ z < 2 ^ 31.

Lemma NUM_1_eq : NUM_1 = 16384.
Proof. done. Qed.

(** truncated division in terms of its defining inequalities *)
Lemma quot_nonneg a b : 0 ≤ a → 0 < b → b * Z.quot a b ≤ a < b * Z.quot a b + b.
Proof.
  intros Ha Hb. rewrite Z.quot_div_nonneg by lia.
  pose proof (Z.mul_div_le a b Hb). pose proof (Z.mul_succ_div_gt a b Hb). lia.
Qed.

Lemma quot_range a b n : 0 < b → - (b * n) ≤ a ≤ b * n → - n ≤ Z.quot a b ≤ n.
Proof.
  intros Hb Ha. pose proof (Z.quot_rem' a b) as Hq.
  pose proof (Z.rem_bound_abs a b ltac:(lia)) as Hr.
  destruct (Z.le_gt_cases 0 a) as [H0|H0].
  - pose proof (Z.rem_nonneg a b ltac:(lia) H0). nia.
  - pose proof (Z.rem_nonpos a b ltac:(lia) ltac:(lia)). nia.
Qed.

(** Integers of up to 17 bits survive the conversion both ways, whichever of the
    two conversions back is used. *)
Theorem int_FP_roundtrip n :
  - 2 ^ 17 < n < 2 ^ 17 - 1 →
  FP_to_int (int_to_FP n) = n ∧ FP_to_int_round_off (int_to_FP n) = n.
Proof.
  intros Hn. unfold FP_to_int, FP_to_int_round_off, int_to_FP. rewrite NUM_1_eq.
  rewrite (s32_small (n * 16384)) by lia. change (Z.quot 16384 2) with 8192. split.
  - apply Z.quot_mul. lia.
  - rewrite Z.geb_leb. destruct (Z.leb_spec 0 (n * 16384)).
    + rewrite s32_small by lia. pose proof (quot_nonneg (n * 16384 + 8192) 16384). lia.
    + rewrite s32_small by lia.
      replace (n * 16384 - 8192) with (- (- n * 16384 + 8192)) by lia.
      rewrite Z.quot_opp_l by lia. pose proof (quot_nonneg (- n * 16384 + 8192) 16384). lia.
Qed.

(** Rounding to the nearest integer: the result is within one half. *)
Lemma FP_to_int_round_off_near d :
  - 2 ^ 31 + 8192 ≤ d < 2 ^ 31 - 8192 →
  Z.abs (2 * (FP_to_int_round_off d * NUM_1 - d)) ≤ NUM_1.
Proof.
  intros Hd. unfold FP_to_int_round_off. rewrite NUM_1_eq. change (Z.quot 16384 2) with 8192.
  rewrite Z.geb_leb. destruct (Z.leb_spec 0 d).
  - rewrite s32_small by lia. pose proof (quot_nonneg (d + 8192) 16384). lia.
  - rewrite s32_small by lia. replace (d - 8192) with (- (- d + 8192)) by lia.
    rewrite Z.quot_opp_l by lia. pose proof (quot_nonneg (- d + 8192) 16384). lia.
Qed.

(** A product that fits is the exact product truncated to 14 fraction bits. *)
Lemma mul_FP_exact a b :
  int32 a → int32 b → - 2 ^ 45 + 2 ^ 14 ≤ a * b ≤ 2 ^ 45 - 2 ^ 14 →
  mul_FP_to_FP a b = Z.quot (a * b) NUM_1.
Proof.
  intros Ha Hb Hab. unfold mul_FP_to_FP. rewrite (s64_small (a * b)) by lia. rewrite NUM_1_eq.
  apply s32_small. pose proof (quot_range (a * b) 16384 (2 ^ 31 - 1)). lia.
Qed.
