(* ===== verification/Thread.v ===== *)
(** threads/thread.c, threads/thread.h, with the interrupt-level routines of
    threads/interrupt.c and the clock of devices/timer.c: kernel threads and
    the scheduler, in the build that links (the vm build, [USERPROG] defined).

    The kernel runs on one processor.  A thread gives the processor up only
    inside [schedule], or when an interrupt arrives while interrupts are on.
    What a thread still has to do when it gets the processor back is its
    kernel stack: a list of [frame]s, the innermost call first.  A routine that
    may block is translated up to the call of [schedule], having pushed the
    frame that stands for the rest of its body.

    [struct thread] is the record [thread]; the address of the structure is its
    name.  A structure that was freed with [palloc_free_page] is absent from
    [threads], and reading it is a [Fault].  The queues [ready_list],
    [sleeping_list], [all_list], [child_tlist] and the semaphore waiters are
    sequences of such addresses: [list_insert_ordered] is [ins_ordered], which
    KList.list_insert_ordered_spec shows the pointer code to implement. *)

From S2P Require Import Prelude KList FixedPoint.

(** * Data *)

Inductive thread_status := THREAD_RUNNING | THREAD_READY | THREAD_BLOCKED | THREAD_DYING.

#[global] Instance thread_status_eq_dec : EqDecision thread_status.
Proof. solve_decision. Defined.

Definition TID_ERROR : Z := -1.
Definition PRI_MIN : Z := 0.
Definition PRI_DEFAULT : Z := 31.
Definition PRI_MAX : Z := 63.
Definition TIME_SLICE : Z := 4.
Definition TIMER_FREQ : Z := 100.

(** The semaphores: the three of each [struct thread], the one inside a lock,
    the one on the stack of a thread in [cond_wait], and all others. *)
Inductive sema_id :=
| SemaWait (t : Z) | SemaLoad (t : Z) | SemaElim (t : Z)
| SemaLock (l : Z) | SemaCond (t : Z) | SemaUser (n : Z).

#[global] Instance sema_id_eq_dec : EqDecision sema_id.
Proof. solve_decision. Defined.
#[global] Instance sema_id_countable : Countable sema_id.
Proof.
  refine (inj_countable'
    (λ s, match s with
          | SemaWait t => (0%nat, t) | SemaLoad t => (1%nat, t) | SemaElim t => (2%nat, t)
          | SemaLock t => (3%nat, t) | SemaCond t => (4%nat, t) | SemaUser t => (5%nat, t) end)
    (λ p, match p.1 with
          | 0%nat => SemaWait p.2 | 1%nat => SemaLoad p.2 | 2%nat => SemaElim p.2
          | 3%nat => SemaLock p.2 | 4%nat => SemaCond p.2 | _ => SemaUser p.2 end) _).
  by intros [].
Defined.

(** [struct semaphore] *)
Record semaphore := mk_semaphore { value : Z; waiters : list Z }.

(** What is left of a call when the thread gets the processor back. *)
Inductive frame :=
| FSetLevel (old_level : bool)             (* thread_yield, timer_sleep: intr_set_level (old_level) *)
| FIntrEnable                              (* intr_enable (); also the return from an interrupt *)
| FSemaLoop (s : sema_id) (old_level : bool) (* sema_down: the test of the while loop *)
| FSemaDown (s : sema_id)                  (* a call of sema_down *)
| FSemaUp (s : sema_id)                    (* a call of sema_up *)
| FSetHolder (l : Z)                       (* lock_acquire: lock->holder = thread_current () *)
| FLockAcquire (l : Z)                     (* a call of lock_acquire *)
| FCondReturn                              (* cond_wait: its return, where the waiter goes out of scope *)
| FBroadcast (c l : Z)                     (* cond_broadcast: the test of the while loop *)
| FKernelThread                            (* kernel_thread: intr_enable (); function (aux) *)
| FIdle (started : sema_id)                (* idle: up to its loop *)
| FIdleLoop                                (* idle: intr_disable (); thread_block () *)
| FIdleHlt                                 (* idle: sti; hlt *)
| FExecFind                                (* syscall_exec: after process_execute *)
| FExec (child : Z)                        (* syscall_exec: after sema_down (sema_load) *)
| FReap (child : Z)                        (* process_wait: after sema_down (sema_wait) *)
| FExitChildren                            (* thread_exit: the loop over child_tlist *)
| FExitWait                                (* thread_exit: sema_down (sema_elim) *)
| FDie.                                    (* thread_exit: from intr_disable () on *)

#[global] Instance frame_eq_dec : EqDecision frame.
Proof. solve_decision. Defined.

(** [struct thread]: the members the scheduler and the synchronization code use,
    with the kernel stack; [retval] is the result of the last call.  The page
    tables and the file descriptors belong to other components ([has_pagedir]
    is [pagedir != NULL]). *)
Record thread := mk_thread {
  tid : Z;
  status : thread_status;
  priority : Z;
  has_pagedir : bool;
  child_tlist : list Z;
  is_loaded : bool;
  exit_status : Z;
  wake_up_tick : Z;
  nice : Z;
  recent_cpu : Z;
  frames : list frame;
  retval : Z
}.

Definition set_status (v : thread_status) (t : thread) : thread :=
  mk_thread t.(tid) v t.(priority) t.(has_pagedir) t.(child_tlist) t.(is_loaded)
    t.(exit_status) t.(wake_up_tick) t.(nice) t.(recent_cpu) t.(frames) t.(retval).
Definition set_priority_field (v : Z) (t : thread) : thread :=
  mk_thread t.(tid) t.(status) v t.(has_pagedir) t.(child_tlist) t.(is_loaded)
    t.(exit_status) t.(wake_up_tick) t.(nice) t.(recent_cpu) t.(frames) t.(retval).
Definition set_child_tlist (v : list Z) (t : thread) : thread :=
  mk_thread t.(tid) t.(status) t.(priority) t.(has_pagedir) v t.(is_loaded)
    t.(exit_status) t.(wake_up_tick) t.(nice) t.(recent_cpu) t.(frames) t.(retval).
Definition set_is_loaded (v : bool) (t : thread) : thread :=
  mk_thread t.(tid) t.(status) t.(priority) t.(has_pagedir) t.(child_tlist) v
    t.(exit_status) t.(wake_up_tick) t.(nice) t.(recent_cpu) t.(frames) t.(retval).
Definition set_exit_status (v : Z) (t : thread) : thread :=
  mk_thread t.(tid) t.(status) t.(priority) t.(has_pagedir) t.(child_tlist) t.(is_loaded)
    v t.(wake_up_tick) t.(nice) t.(recent_cpu) t.(frames) t.(retval).
Definition set_wake_up_tick (v : Z) (t : thread) : thread :=
  mk_thread t.(tid) t.(status) t.(priority) t.(has_pagedir) t.(child_tlist) t.(is_loaded)
    t.(exit_status) v t.(nice) t.(recent_cpu) t.(frames) t.(retval).
Definition set_nice_field (v : Z) (t : thread) : thread :=
  mk_thread t.(tid) t.(status) t.(priority) t.(has_pagedir) t.(child_tlist) t.(is_loaded)
    t.(exit_status) t.(wake_up_tick) v t.(recent_cpu) t.(frames) t.(retval).
Definition set_recent_cpu (v : Z) (t : thread) : thread :=
  mk_thread t.(tid) t.(status) t.(priority) t.(has_pagedir) t.(child_tlist) t.(is_loaded)
    t.(exit_status) t.(wake_up_tick) t.(nice) v t.(frames) t.(retval).
Definition set_frames (v : list frame) (t : thread) : thread :=
  mk_thread t.(tid) t.(status) t.(priority) t.(has_pagedir) t.(child_tlist) t.(is_loaded)
    t.(exit_status) t.(wake_up_tick) t.(nice) t.(recent_cpu) v t.(retval).
Definition set_tid (v : Z) (t : thread) : thread :=
  mk_thread v t.(status) t.(priority) t.(has_pagedir) t.(child_tlist) t.(is_loaded)
    t.(exit_status) t.(wake_up_tick) t.(nice) t.(recent_cpu) t.(frames) t.(retval).
Definition set_has_pagedir (v : bool) (t : thread) : thread :=
  mk_thread t.(tid) t.(status) t.(priority) v t.(child_tlist) t.(is_loaded)
    t.(exit_status) t.(wake_up_tick) t.(nice) t.(recent_cpu) t.(frames) t.(retval).
Definition set_retval (v : Z) (t : thread) : thread :=
  mk_thread t.(tid) t.(status) t.(priority) t.(has_pagedir) t.(child_tlist) t.(is_loaded)
    t.(exit_status) t.(wake_up_tick) t.(nice) t.(recent_cpu) t.(frames) v.

(** The variables of thread.c, interrupt.c and timer.c, and the store of the
    synchronization objects: [locks] holds [lock->holder], [conds] the waiters
    of a condition variable. *)
Record kstate := mk_kstate {
  threads : gmap Z thread;
  semas : gmap sema_id semaphore;
  locks : gmap Z (option Z);
  conds : gmap Z (list sema_id);
  ready_list : list Z;
  sleeping_list : list Z;
  all_list : list Z;
  idle_thread : option Z;
  initial_thread : Z;
  current : Z;
  intr_on : bool;
  in_external_intr : bool;
  yield_on_return : bool;
  ticks : Z;
  thread_ticks : Z;
  idle_ticks : Z;
  kernel_ticks : Z;
  user_ticks : Z;
  load_avg : Z;
  next_tid : Z;
  thread_mlfqs : bool
}.

Definition set_threads (v : gmap Z thread) (k : kstate) : kstate :=
  mk_kstate v k.(semas) k.(locks) k.(conds) k.(ready_list) k.(sleeping_list) k.(all_list)
    k.(idle_thread) k.(initial_thread) k.(current) k.(intr_on) k.(in_external_intr)
    k.(yield_on_return) k.(ticks) k.(thread_ticks) k.(idle_ticks) k.(kernel_ticks)
    k.(user_ticks) k.(load_avg) k.(next_tid) k.(thread_mlfqs).
Definition set_semas (v : gmap sema_id semaphore) (k : kstate) : kstate :=
  mk_kstate k.(threads) v k.(locks) k.(conds) k.(ready_list) k.(sleeping_list) k.(all_list)
    k.(idle_thread) k.(initial_thread) k.(current) k.(intr_on) k.(in_external_intr)
    k.(yield_on_return) k.(ticks) k.(thread_ticks) k.(idle_ticks) k.(kernel_ticks)
    k.(user_ticks) k.(load_avg) k.(next_tid) k.(thread_mlfqs).
Definition set_locks (v : gmap Z (option Z)) (k : kstate) : kstate :=
  mk_kstate k.(threads) k.(semas) v k.(conds) k.(ready_list) k.(sleeping_list) k.(all_list)
    k.(idle_thread) k.(initial_thread) k.(current) k.(intr_on) k.(in_external_intr)
    k.(yield_on_return) k.(ticks) k.(thread_ticks) k.(idle_ticks) k.(kernel_ticks)
    k.(user_ticks) k.(load_avg) k.(next_tid) k.(thread_mlfqs).
Definition set_conds (v : gmap Z (list sema_id)) (k : kstate) : kstate :=
  mk_kstate k.(threads) k.(semas) k.(locks) v k.(ready_list) k.(sleeping_list) k.(all_list)
    k.(idle_thread) k.(initial_thread) k.(current) k.(intr_on) k.(in_external_intr)
    k.(yield_on_return) k.(ticks) k.(thread_ticks) k.(idle_ticks) k.(kernel_ticks)
    k.(user_ticks) k.(load_avg) k.(next_tid) k.(thread_mlfqs).
Definition set_ready_list (v : list Z) (k : kstate) : kstate :=
  mk_kstate k.(threads) k.(semas) k.(locks) k.(conds) v k.(sleeping_list) k.(all_list)
    k.(idle_thread) k.(initial_thread) k.(current) k.(intr_on) k.(in_external_intr)
    k.(yield_on_return) k.(ticks) k.(thread_ticks) k.(idle_ticks) k.(kernel_ticks)
    k.(user_ticks) k.(load_avg) k.(next_tid) k.(thread_mlfqs).
Definition set_sleeping_list (v : list Z) (k : kstate) : kstate :=
  mk_kstate k.(threads) k.(semas) k.(locks) k.(conds) k.(ready_list) v k.(all_list)
    k.(idle_thread) k.(initial_thread) k.(current) k.(intr_on) k.(in_external_intr)
    k.(yield_on_return) k.(ticks) k.(thread_ticks) k.(idle_ticks) k.(kernel_ticks)
    k.(user_ticks) k.(load_avg) k.(next_tid) k.(thread_mlfqs).
Definition set_all_list (v : list Z) (k : kstate) : kstate :=
  mk_kstate k.(threads) k.(semas) k.(locks) k.(conds) k.(ready_list) k.(sleeping_list) v
    k.(idle_thread) k.(initial_thread) k.(current) k.(intr_on) k.(in_external_intr)
    k.(yield_on_return) k.(ticks) k.(thread_ticks) k.(idle_ticks) k.(kernel_ticks)
    k.(user_ticks) k.(load_avg) k.(next_tid) k.(thread_mlfqs).
Definition set_idle_thread (v : option Z) (k : kstate) : kstate :=
  mk_kstate k.(threads) k.(semas) k.(locks) k.(conds) k.(ready_list) k.(sleeping_list)
    k.(all_list) v k.(initial_thread) k.(current) k.(intr_on) k.(in_external_intr)
    k.(yield_on_return) k.(ticks) k.(thread_ticks) k.(idle_ticks) k.(kernel_ticks)
    k.(user_ticks) k.(load_avg) k.(next_tid) k.(thread_mlfqs).
Definition set_current (v : Z) (k : kstate) : kstate :=
  mk_kstate k.(threads) k.(semas) k.(locks) k.(conds) k.(ready_list) k.(sleeping_list)
    k.(all_list) k.(idle_thread) k.(initial_thread) v k.(intr_on) k.(in_external_intr)
    k.(yield_on_return) k.(ticks) k.(thread_ticks) k.(idle_ticks) k.(kernel_ticks)
    k.(user_ticks) k.(load_avg) k.(next_tid) k.(thread_mlfqs).
Definition set_intr_on (v : bool) (k : kstate) : kstate :=
  mk_kstate k.(threads) k.(semas) k.(locks) k.(conds) k.(ready_list) k.(sleeping_list)
    k.(all_list) k.(idle_thread) k.(initial_thread) k.(current) v k.(in_external_intr)
    k.(yield_on_return) k.(ticks) k.(thread_ticks) k.(idle_ticks) k.(kernel_ticks)
    k.(user_ticks) k.(load_avg) k.(next_tid) k.(thread_mlfqs).
Definition set_in_external_intr (v : bool) (k : kstate) : kstate :=
  mk_kstate k.(threads) k.(semas) k.(locks) k.(conds) k.(ready_list) k.(sleeping_list)
    k.(all_list) k.(idle_thread) k.(initial_thread) k.(current) k.(intr_on) v
    k.(yield_on_return) k.(ticks) k.(thread_ticks) k.(idle_ticks) k.(kernel_ticks)
    k.(user_ticks) k.(load_avg) k.(next_tid) k.(thread_mlfqs).
Definition set_yield_on_return (v : bool) (k : kstate) : kstate :=
  mk_kstate k.(threads) k.(semas) k.(locks) k.(conds) k.(ready_list) k.(sleeping_list)
    k.(all_list) k.(idle_thread) k.(initial_thread) k.(current) k.(intr_on)
    k.(in_external_intr) v k.(ticks) k.(thread_ticks) k.(idle_ticks) k.(kernel_ticks)
    k.(user_ticks) k.(load_avg) k.(next_tid) k.(thread_mlfqs).
Definition set_ticks (v : Z) (k : kstate) : kstate :=
  mk_kstate k.(threads) k.(semas) k.(locks) k.(conds) k.(ready_list) k.(sleeping_list)
    k.(all_list) k.(idle_thread) k.(initial_thread) k.(current) k.(intr_on)
    k.(in_external_intr) k.(yield_on_return) v k.(thread_ticks) k.(idle_ticks)
    k.(kernel_ticks) k.(user_ticks) k.(load_avg) k.(next_tid) k.(thread_mlfqs).
Definition set_thread_ticks (v : Z) (k : kstate) : kstate :=
  mk_kstate k.(threads) k.(semas) k.(locks) k.(conds) k.(ready_list) k.(sleeping_list)
    k.(all_list) k.(idle_thread) k.(initial_thread) k.(current) k.(intr_on)
    k.(in_external_intr) k.(yield_on_return) k.(ticks) v k.(idle_ticks) k.(kernel_ticks)
    k.(user_ticks) k.(load_avg) k.(next_tid) k.(thread_mlfqs).
Definition set_idle_ticks (v : Z) (k : kstate) : kstate :=
  mk_kstate k.(threads) k.(semas) k.(locks) k.(conds) k.(ready_list) k.(sleeping_list)
    k.(all_list) k.(idle_thread) k.(initial_thread) k.(current) k.(intr_on)
    k.(in_external_intr) k.(yield_on_return) k.(ticks) k.(thread_ticks) v
    k.(kernel_ticks) k.(user_ticks) k.(load_avg) k.(next_tid) k.(thread_mlfqs).
Definition set_kernel_ticks (v : Z) (k : kstate) : kstate :=
  mk_kstate k.(threads) k.(semas) k.(locks) k.(conds) k.(ready_list) k.(sleeping_list)
    k.(all_list) k.(idle_thread) k.(initial_thread) k.(current) k.(intr_on)
    k.(in_external_intr) k.(yield_on_return) k.(ticks) k.(thread_ticks) k.(idle_ticks) v
    k.(user_ticks) k.(load_avg) k.(next_tid) k.(thread_mlfqs).
Definition set_user_ticks (v : Z) (k : kstate) : kstate :=
  mk_kstate k.(threads) k.(semas) k.(locks) k.(conds) k.(ready_list) k.(sleeping_list)
    k.(all_list) k.(idle_thread) k.(initial_thread) k.(current) k.(intr_on)
    k.(in_external_intr) k.(yield_on_return) k.(ticks) k.(thread_ticks) k.(idle_ticks)
    k.(kernel_ticks) v k.(load_avg) k.(next_tid) k.(thread_mlfqs).
Definition set_load_avg (v : Z) (k : kstate) : kstate :=
  mk_kstate k.(threads) k.(semas) k.(locks) k.(conds) k.(ready_list) k.(sleeping_list)
    k.(all_list) k.(idle_thread) k.(initial_thread) k.(current) k.(intr_on)
    k.(in_external_intr) k.(yield_on_return) k.(ticks) k.(thread_ticks) k.(idle_ticks)
    k.(kernel_ticks) k.(user_ticks) v k.(next_tid) k.(thread_mlfqs).
Definition set_next_tid (v : Z) (k : kstate) : kstate :=
  mk_kstate k.(threads) k.(semas) k.(locks) k.(conds) k.(ready_list) k.(sleeping_list)
    k.(all_list) k.(idle_thread) k.(initial_thread) k.(current) k.(intr_on)
    k.(in_external_intr) k.(yield_on_return) k.(ticks) k.(thread_ticks) k.(idle_ticks)
    k.(kernel_ticks) k.(user_ticks) k.(load_avg) v k.(thread_mlfqs).

(** * Access to the state *)

Abbreviation K := (M kstate).

Definition get_thread (t : Z) : K thread := k ← get; from_option_fault (k.(threads) !! t).

(** [t->field = ...] *)
Definition upd_thread (t : Z) (f : thread → thread) : K unit :=
  th ← get_thread t; modify (λ k, set_threads (<[t := f th]> k.(threads)) k).

Definition push_frame (f : frame) : K unit :=
  c ← gets current; upd_thread c (λ th, set_frames (f :: th.(frames)) th).

(** the value the current call returns *)
Definition ret_val (v : Z) : K unit := c ← gets current; upd_thread c (set_retval v).

(** * Interrupt level (threads/interrupt.c) *)

Definition intr_get_level : K bool := gets intr_on.

Definition intr_context : K bool := gets in_external_intr.

Definition intr_enable : K bool :=
  old_level ← intr_get_level;
  c ← intr_context; assert (negb c);;
  modify (set_intr_on true);; mret old_level.

Definition intr_disable : K bool :=
  old_level ← intr_get_level; modify (set_intr_on false);; mret old_level.

Definition intr_set_level (level : bool) : K bool :=
  if level then intr_enable else intr_disable.

Definition intr_yield_on_return : K unit :=
  c ← intr_context; assert c;; modify (set_yield_on_return true).

(** * Threads *)

Definition running_thread : K Z := gets current.

(** [is_thread]: the magic number is intact exactly while the structure exists. *)
Definition is_thread (t : Z) : K bool :=
  k ← get; mret (bool_decide (is_Some (k.(threads) !! t))).

Definition thread_current : K Z :=
  t ← running_thread;
  c ← is_thread t; assert c;;
  th ← get_thread t; assert (bool_decide (th.(status) = THREAD_RUNNING));;
  mret t.

(** the comparisons the queues are ordered by *)
Definition prio (k : kstate) (t : Z) : Z := from_option priority 0 (k.(threads) !! t).
Definition wake (k : kstate) (t : Z) : Z := from_option wake_up_tick 0 (k.(threads) !! t).

Definition cmp_priority_thread (k : kstate) (a b : Z) : bool := prio k a >? prio k b.
Definition cmp_sleeping_thread (k : kstate) (a b : Z) : bool := wake k b >? wake k a.

Definition next_thread_to_run : K (option Z) :=
  k ← get;
  match k.(ready_list) with
  | [] => mret k.(idle_thread)
  | t :: r => put (set_ready_list r k);; mret (Some t)
  end.

(** [palloc_free_page (t)]: the structure and the semaphores in it are gone *)
Definition free_thread (t : Z) : K unit :=
  modify (λ k, set_threads (delete t k.(threads))
    (set_semas (delete (SemaWait t) (delete (SemaLoad t) (delete (SemaElim t) k.(semas)))) k)).

Definition thread_schedule_tail (prev : option Z) : K unit :=
  cur ← running_thread;
  level ← intr_get_level; assert (negb level);;
  upd_thread cur (set_status THREAD_RUNNING);;
  modify (set_thread_ticks 0);;
  match prev with
  | None => mret tt
  | Some p =>
      pth ← get_thread p; k ← get;
      if bool_decide (pth.(status) = THREAD_DYING) && negb (p =? k.(initial_thread)) then
        assert (negb (p =? cur));; free_thread p
      else mret tt
  end.

Definition schedule : K unit :=
  cur ← running_thread;
  next ← next_thread_to_run;
  level ← intr_get_level; assert (negb level);;
  cth ← get_thread cur; assert (negb (bool_decide (cth.(status) = THREAD_RUNNING)));;
  match next with
  | None => fail AssertFail
  | Some n =>
      c ← is_thread n; assert c;;
      if negb (cur =? n) then modify (set_current n);; thread_schedule_tail (Some cur)
      else thread_schedule_tail None
  end.

Definition thread_block : K unit :=
  c ← intr_context; assert (negb c);;
  level ← intr_get_level; assert (negb level);;
  cur ← thread_current; upd_thread cur (set_status THREAD_BLOCKED);;
  schedule.

(** [list_insert_ordered (&ready_list, &t->elem, cmp_priority_thread, 0)] *)
Definition ready_insert (t : Z) : K unit :=
  modify (λ k, set_ready_list (ins_ordered (cmp_priority_thread k) t k.(ready_list)) k).

Definition thread_unblock (t : Z) : K unit :=
  c ← is_thread t; assert c;;
  old_level ← intr_disable;
  th ← get_thread t; assert (bool_decide (th.(status) = THREAD_BLOCKED));;
  ready_insert t;;
  upd_thread t (set_status THREAD_READY);;
  intr_set_level old_level;; mret tt.

Definition thread_yield : K unit :=
  cur ← thread_current;
  c ← intr_context; assert (negb c);;
  old_level ← intr_disable;
  k ← get;
  (if bool_decide (k.(idle_thread) = Some cur) then mret tt else ready_insert cur);;
  upd_thread cur (set_status THREAD_READY);;
  push_frame (FSetLevel old_level);;
  schedule.

Definition thread_set_priority (new_priority : Z) : K unit :=
  cur ← thread_current; upd_thread cur (set_priority_field new_priority);; thread_yield.

Definition thread_get_priority : K Z :=
  cur ← thread_current; th ← get_thread cur; mret th.(priority).

Definition thread_set_nice (nice : Z) : K unit :=
  cur ← thread_current; upd_thread cur (set_nice_field nice).

Definition thread_get_nice : K Z :=
  cur ← thread_current; th ← get_thread cur; mret th.(nice).

Definition thread_get_load_avg : K Z :=
  k ← get; mret (FP_to_int_round_off (mul_FP_to_FP k.(load_avg) (int_to_FP 100))).

Definition thread_get_recent_cpu : K Z :=
  cur ← thread_current; th ← get_thread cur;
  mret (FP_to_int_round_off (mul_FP_to_FP th.(recent_cpu) (int_to_FP 100))).

Definition thread_tid : K Z := cur ← thread_current; th ← get_thread cur; mret th.(tid).

(** [tid_lock] is held for the increment alone, which is one step of the model:
    no state of the model has it held. *)
Definition allocate_tid : K Z :=
  k ← get; put (set_next_tid (s32 (k.(next_tid) + 1)) k);; mret k.(next_tid).

(** ** Sleeping *)

Definition thread_sleep (wake_up_tick : Z) : K unit :=
  tc ← thread_current;
  upd_thread tc (set_wake_up_tick wake_up_tick);;
  modify (λ k, set_sleeping_list (ins_ordered (cmp_sleeping_thread k) tc k.(sleeping_list)) k);;
  thread_block.

(** the [while] loop of [thread_wake_up], on the sleepers [l] *)
Fixpoint thread_wake_up_loop (l : list Z) (now_tick : Z) : K unit :=
  match l with
  | [] => mret tt
  | t :: r =>
      th ← get_thread t;
      if now_tick <? th.(wake_up_tick) then mret tt else
      modify (set_sleeping_list r);;
      thread_unblock t;;
      thread_wake_up_loop r now_tick
  end.

Definition thread_wake_up (now_tick : Z) : K unit :=
  k ← get; thread_wake_up_loop k.(sleeping_list) now_tick.

Definition timer_ticks : K Z :=
  old_level ← intr_disable; t ← gets ticks; intr_set_level old_level;; mret t.

Definition timer_elapsed (n : Z) : K Z := t ← timer_ticks; mret (s64 (t - n)).

Definition timer_sleep (n : Z) : K unit :=
  start ← timer_ticks;
  level ← intr_get_level; assert level;;
  old_level ← intr_disable;
  push_frame (FSetLevel old_level);;
  thread_sleep (s64 (start + n)).

(** ** The timer tick *)

(** [lift] of a fixed-point operation that may trap *)
Definition lift {A} (o : outcome A) : K A :=
  λ k, match o with Ok a => Ok (a, k) | Err e => Err e end.

(** [for (e = list_begin (&all_list); ...)] with body [f] *)
Fixpoint for_threads (l : list Z) (f : Z → K unit) : K unit :=
  match l with [] => mret tt | t :: r => f t;; for_threads r f end.

Definition thread_foreach (func : Z → K unit) : K unit :=
  level ← intr_get_level; assert (negb level);;
  k ← get; for_threads k.(all_list) func.

(** the threads [thread_tick] counts as ready *)
Definition counts_ready (k : kstate) (t : Z) : bool :=
  match k.(threads) !! t with
  | Some th => negb (bool_decide (k.(idle_thread) = Some t)) &&
      (bool_decide (th.(status) = THREAD_READY) || bool_decide (th.(status) = THREAD_RUNNING))
  | None => false
  end.

Definition ready_threads (k : kstate) : Z :=
  Z.of_nat (length (filter (λ t, counts_ready k t = true) k.(all_list))).

Definition next_load_avg (load_avg ready : Z) : outcome Z :=
  c1 ← div_FP_to_FP (int_to_FP 59) (int_to_FP 60);
  c2 ← div_FP_to_FP (int_to_FP 1) (int_to_FP 60);
  mret (add_FP_to_FP (mul_FP_to_FP c1 load_avg) (mul_FP_to_FP c2 (int_to_FP ready))).

Definition next_recent_cpu (double_load_avg recent nice : Z) : outcome Z :=
  q ← div_FP_to_FP double_load_avg (add_FP_to_FP double_load_avg (int_to_FP 1));
  mret (add_FP_to_FP (mul_FP_to_FP q recent) (int_to_FP nice)).

Definition next_priority (recent nice : Z) : outcome Z :=
  q ← div_FP_to_FP recent (int_to_FP 4);
  let p := sub_FP_to_FP (int_to_FP PRI_MAX) q in
  let p := sub_FP_to_FP p (int_to_FP (s32 (nice * 2))) in
  let p := FP_to_int_round_off p in
  let p := if p >? PRI_MAX then PRI_MAX else p in
  let p := if p <? PRI_MIN then PRI_MIN else p in
  mret p.

(** the block under [if (thread_mlfqs)] *)
Definition mlfqs_tick (t : Z) : K unit :=
  cur_ticks ← timer_ticks;
  old_level ← intr_disable;
  k ← get;
  (if bool_decide (k.(idle_thread) = Some t) then mret tt
   else upd_thread t (λ th, set_recent_cpu (add_FP_to_FP th.(recent_cpu) (int_to_FP 1)) th));;
  (if Z.rem cur_ticks TIMER_FREQ =? 0 then
     k ← get;
     la ← lift (next_load_avg k.(load_avg) (ready_threads k));
     modify (set_load_avg la);;
     let double_load_avg := mul_FP_to_FP la (int_to_FP 2) in
     for_threads k.(all_list) (λ p,
       th ← get_thread p;
       rc ← lift (next_recent_cpu double_load_avg th.(recent_cpu) th.(nice));
       upd_thread p (set_recent_cpu rc))
   else mret tt);;
  (if Z.rem cur_ticks TIME_SLICE =? 0 then
     k ← get;
     for_threads k.(all_list) (λ p,
       th ← get_thread p;
       pr ← lift (next_priority th.(recent_cpu) th.(nice));
       upd_thread p (set_priority_field pr))
   else mret tt);;
  intr_set_level old_level;; mret tt.

Definition thread_tick : K unit :=
  t ← thread_current;
  th ← get_thread t; k ← get;
  (if bool_decide (k.(idle_thread) = Some t) then modify (set_idle_ticks (s64 (k.(idle_ticks) + 1)))
   else if th.(has_pagedir) then modify (set_user_ticks (s64 (k.(user_ticks) + 1)))
   else modify (set_kernel_ticks (s64 (k.(kernel_ticks) + 1))));;
  (if k.(thread_mlfqs) then mlfqs_tick t else mret tt);;
  tt' ← gets thread_ticks;
  modify (set_thread_ticks (u32 (tt' + 1)));;
  if u32 (tt' + 1) >=? TIME_SLICE then intr_yield_on_return else mret tt.

(** [timer_interrupt], devices/timer.c *)
Definition timer_interrupt : K unit :=
  k ← get; put (set_ticks (s64 (k.(ticks) + 1)) k);;
  thread_tick;;
  old_level ← intr_disable;
  now ← gets ticks;
  thread_wake_up now;;
  intr_set_level old_level;; mret tt.

(** [intr_handler] for the timer's vector: the processor enters with interrupts
    off; [FIntrEnable] stands for the return from the interrupt. *)
Definition intr_handler_timer : K unit :=
  modify (set_intr_on false);;
  c ← intr_context; assert (negb c);;
  modify (set_in_external_intr true);;
  modify (set_yield_on_return false);;
  timer_interrupt;;
  level ← intr_get_level; assert (negb level);;
  c ← intr_context; assert c;;
  modify (set_in_external_intr false);;
  y ← gets yield_on_return;
  push_frame FIntrEnable;;
  if (y : bool) then thread_yield else mret tt.
