(* ===== verification/Synch.v ===== *)
(** threads/synch.c, threads/synch.h: semaphores, locks and condition variables.

    The operations act on the kernel state of [Thread].  [sema_down] and what
    is built on it may block: the translation stops at [thread_block], with the
    rest of the body pushed as frames.  [sema_up] is the one of the [USERPROG]
    build (it does not yield). *)

From S2P Require Import Prelude KList Thread.

Definition get_sema (s : sema_id) : K semaphore := k ← get; from_option_fault (k.(semas) !! s).
Definition put_sema (s : sema_id) (v : semaphore) : K unit :=
  modify (λ k, set_semas (<[s := v]> k.(semas)) k).

(** * Semaphores *)

Definition sema_init (s : sema_id) (v : Z) : K unit := put_sema s (mk_semaphore v []).

(** the [while] loop of [sema_down] and what follows it; a thread that blocks
    comes back to the test *)
Definition sema_loop (s : sema_id) (old_level : bool) : K unit :=
  sm ← get_sema s;
  if sm.(value) =? 0 then
    t ← thread_current; k ← get;
    put_sema s (mk_semaphore sm.(value) (ins_ordered (cmp_priority_thread k) t sm.(waiters)));;
    push_frame (FSemaLoop s old_level);;
    thread_block
  else
    put_sema s (mk_semaphore (u32 (sm.(value) - 1)) sm.(waiters));;
    intr_set_level old_level;; mret tt.

Definition sema_down (s : sema_id) : K unit :=
  c ← intr_context; assert (negb c);;
  old_level ← intr_disable;
  sema_loop s old_level.

Definition sema_try_down (s : sema_id) : K bool :=
  old_level ← intr_disable;
  sm ← get_sema s;
  success ← (if sm.(value) >? 0 then
      put_sema s (mk_semaphore (u32 (sm.(value) - 1)) sm.(waiters));; mret true
    else mret false);
  intr_set_level old_level;; mret success.

Definition sema_up (s : sema_id) : K unit :=
  old_level ← intr_disable;
  sm ← get_sema s;
  match sm.(waiters) with
  | [] => mret tt
  | w :: r => put_sema s (mk_semaphore sm.(value) r);; thread_unblock w
  end;;
  sm ← get_sema s;
  put_sema s (mk_semaphore (u32 (sm.(value) + 1)) sm.(waiters));;
  intr_set_level old_level;; mret tt.

(** * Locks *)

Definition get_holder (l : Z) : K (option Z) := k ← get; from_option_fault (k.(locks) !! l).
Definition put_holder (l : Z) (h : option Z) : K unit :=
  modify (λ k, set_locks (<[l := h]> k.(locks)) k).

Definition lock_init (l : Z) : K unit := put_holder l None;; sema_init (SemaLock l) 1.

Definition lock_held_by_current_thread (l : Z) : K bool :=
  h ← get_holder l; cur ← thread_current; mret (bool_decide (h = Some cur)).

Definition lock_acquire (l : Z) : K unit :=
  c ← intr_context; assert (negb c);;
  held ← lock_held_by_current_thread l; assert (negb held);;
  push_frame (FSetHolder l);;
  sema_down (SemaLock l).

(** the statement after [sema_down] *)
Definition lock_set_holder (l : Z) : K unit := cur ← thread_current; put_holder l (Some cur).

Definition lock_try_acquire (l : Z) : K bool :=
  held ← lock_held_by_current_thread l; assert (negb held);;
  success ← sema_try_down (SemaLock l);
  (if (success : bool) then cur ← thread_current; put_holder l (Some cur) else mret tt);;
  mret success.

Definition lock_release (l : Z) : K unit :=
  held ← lock_held_by_current_thread l; assert held;;
  put_holder l None;;
  push_frame (FSemaUp (SemaLock l)).

(** * Condition variables *)

Definition get_cond (c : Z) : K (list sema_id) := k ← get; from_option_fault (k.(conds) !! c).
Definition put_cond (c : Z) (w : list sema_id) : K unit :=
  modify (λ k, set_conds (<[c := w]> k.(conds)) k).

Definition cond_init (c : Z) : K unit := put_cond c [].

Definition cond_wait (cond lock : Z) : K unit :=
  c ← intr_context; assert (negb c);;
  held ← lock_held_by_current_thread lock; assert held;;
  t ← thread_current;
  sema_init (SemaCond t) 0;;
  ws ← get_cond cond; put_cond cond (ws ++ [SemaCond t]);;
  push_frame FCondReturn;;
  push_frame (FLockAcquire lock);;
  push_frame (FSemaDown (SemaCond t));;
  lock_release lock.

(** the end of [waiter]'s life *)
Definition cond_wait_return : K unit :=
  t ← running_thread; modify (λ k, set_semas (delete (SemaCond t) k.(semas)) k).

Definition cond_signal (cond lock : Z) : K unit :=
  c ← intr_context; assert (negb c);;
  held ← lock_held_by_current_thread lock; assert held;;
  ws ← get_cond cond;
  match ws with
  | [] => mret tt
  | w :: r => put_cond cond r;; sema_up w
  end.

(** [while (!list_empty (&cond->waiters)) cond_signal (cond, lock);] *)
Definition cond_broadcast (cond lock : Z) : K unit :=
  ws ← get_cond cond;
  match ws with
  | [] => mret tt
  | _ => push_frame (FBroadcast cond lock);; cond_signal cond lock
  end.
