(* ===== verification/Kernel.v ===== *)
(** Thread life cycle (threads/thread.c: [thread_init], [thread_start],
    [thread_create], [thread_exit], [idle]; userprog/process.c: [process_wait];
    userprog/syscall.c: [syscall_exec], [syscall_exit]; userprog/exception.c:
    [kill]) and the step relation of the kernel.

    [exec_frame] runs one frame of the running thread; [exec_call] starts a call
    the running thread makes from its own code (its kernel stack being empty).
    A step of the kernel is a call, a frame, or a timer interrupt while
    interrupts are on: the interleavings of the model are the ones at these
    points. *)

From S2P Require Import Prelude KList FixedPoint Thread Synch.

(** * Creation *)

(** [init_thread], for a thread created by the running thread [parent] or, with
    [None], for the initial one.  [t] is zeroed first ([memset]). *)
Definition init_thread (t : Z) (prio : Z) (parent : option thread) : K unit :=
  assert (negb (t =? 0));;
  assert ((PRI_MIN <=? prio) && (prio <=? PRI_MAX));;
  let th := mk_thread 0 THREAD_BLOCKED prio false [] false 0 0
              (from_option nice 0 parent) (from_option recent_cpu 0 parent) [] 0 in
  modify (λ k, set_threads (<[t := th]> k.(threads)) k);;
  modify (λ k, set_all_list (k.(all_list) ++ [t]) k);;
  sema_init (SemaWait t) 0;; sema_init (SemaLoad t) 0;; sema_init (SemaElim t) 0.

(** [page] is what [palloc_get_page (PAL_ZERO)] returned, 0 for a null pointer;
    [body] is what the new thread starts with under [kernel_thread]. *)
Definition thread_create (page : Z) (prio : Z) (body : list frame) : K unit :=
  if page =? 0 then ret_val TID_ERROR else
  cur ← thread_current;
  cth ← get_thread cur;
  init_thread page prio (Some cth);;
  new_tid ← allocate_tid;
  upd_thread page (set_tid new_tid);;
  old_level ← intr_disable;
  upd_thread page (set_frames (FKernelThread :: body));;
  intr_set_level old_level;;
  upd_thread cur (λ th, set_child_tlist (th.(child_tlist) ++ [page]) th);;
  thread_unblock page;;
  ret_val new_tid;;
  thread_yield.

(** The state [thread_init] leaves: one thread, the one that runs [main], with
    interrupts off; [first] is the address of its structure. *)
Definition thread_init (first : Z) (mlfqs : bool) : outcome kstate :=
  let k0 := mk_kstate ∅ ∅ ∅ ∅ [] [] [] None first first false false false 0 0 0 0 0 0 1 mlfqs in
  '(_, k) ← (init_thread first PRI_DEFAULT None;;
             upd_thread first (set_status THREAD_RUNNING);;
             new_tid ← allocate_tid;
             upd_thread first (set_tid new_tid)) k0;
  Ok k.

(** [thread_start], up to [intr_enable]: [start_idle] is a semaphore of its
    frame; [FSemaDown] is the call it ends with. *)
Definition thread_start (page : Z) : K unit :=
  sema_init (SemaUser 0) 0;;
  push_frame (FSemaDown (SemaUser 0));;
  push_frame FIntrEnable;;
  thread_create page PRI_MIN [FIdle (SemaUser 0)].

(** [thread_get_child] *)
Definition thread_get_child (k : kstate) (children : list Z) (child_tid : Z) : outcome (option Z) :=
  (fix go l := match l with
     | [] => Ok None
     | c :: r => match k.(threads) !! c with
         | None => Err Fault
         | Some th => if th.(tid) =? child_tid then Ok (Some c) else go r
         end
     end) children.

(** * Waiting and exiting *)

Definition process_wait (child_tid : Z) : K unit :=
  cur ← thread_current; th ← get_thread cur; k ← get;
  c ← lift (thread_get_child k th.(child_tlist) child_tid);
  match c with
  | None => ret_val (-1)
  | Some child => push_frame (FReap child);; sema_down (SemaWait child)
  end.

(** after [sema_down (&child_thread->sema_wait)] *)
Definition process_reap (child : Z) : K unit :=
  cur ← running_thread;
  cth ← get_thread child;
  upd_thread cur (λ th, set_child_tlist (filter (λ c, c ≠ child) th.(child_tlist)) th);;
  ret_val cth.(exit_status);;
  push_frame (FSemaUp (SemaElim child)).

(** [process_execute]: [fn_copy] and [page] are what the two calls of
    [palloc_get_page] return *)
Definition process_execute (fn_copy page : Z) : K unit :=
  if fn_copy =? 0 then ret_val TID_ERROR else thread_create page PRI_DEFAULT [].

Definition syscall_exec (fn_copy page : Z) : K unit :=
  push_frame FExecFind;; process_execute fn_copy page.

(** once [process_execute] has returned *)
Definition syscall_exec_find : K unit :=
  cur ← thread_current; th ← get_thread cur; k ← get;
  if th.(retval) =? TID_ERROR then ret_val TID_ERROR else
  c ← lift (thread_get_child k th.(child_tlist) th.(retval));
  match c with
  | None => fail Fault          (* sema_down (&NULL->sema_load) *)
  | Some child => push_frame (FExec child);; sema_down (SemaLoad child)
  end.

(** once the child has been loaded; [child->tid] is the [tid] it was found by *)
Definition syscall_exec_done (child : Z) : K unit :=
  cth ← get_thread child;
  ret_val (if cth.(is_loaded) then cth.(tid) else TID_ERROR).

(** [start_process] once [load] has returned [success]; [has_pd] is whether [load]
    got a page directory *)
Definition start_process_loaded (has_pd success : bool) : K unit :=
  cur ← thread_current;
  upd_thread cur (set_has_pagedir has_pd);;
  upd_thread cur (set_is_loaded success);;
  (if success then mret tt else push_frame FExitChildren);;
  push_frame (FSemaUp (SemaLoad cur)).

(** [thread_exit] up to its loop, [process_exit] having released the files and
    the memory of the process *)
Definition thread_exit : K unit :=
  tc ← thread_current;
  c ← intr_context; assert (negb c);;
  upd_thread tc (set_has_pagedir false);;
  push_frame FExitChildren.

Definition syscall_exit (exit_code : Z) : K unit :=
  cur ← thread_current;
  upd_thread cur (set_exit_status exit_code);; thread_exit.

Definition SEL_KCSEG : Z := 0x08.
Definition SEL_UCSEG : Z := 0x1B.

(** [kill], for an exception raised in the code segment [cs] *)
Definition kill (cs : Z) : K unit :=
  if cs =? SEL_UCSEG then thread_exit
  else if cs =? SEL_KCSEG then fail AssertFail
  else thread_exit.

(** the loop over [child_tlist], one child at a time, then [sema_up (&tc->sema_wait)] *)
Definition exit_children : K unit :=
  tc ← thread_current; th ← get_thread tc;
  match th.(child_tlist) with
  | c :: r =>
      upd_thread tc (set_child_tlist r);;
      push_frame FExitChildren;;
      sema_up (SemaElim c)
  | [] => push_frame FExitWait;; sema_up (SemaWait tc)
  end.

Definition exit_die : K unit :=
  intr_disable;;
  cur ← thread_current;
  modify (λ k, set_all_list (filter (λ t, t ≠ cur) k.(all_list)) k);;
  upd_thread cur (set_status THREAD_DYING);;
  schedule.

(** * The machine *)

Definition exec_frame (f : frame) : K unit :=
  match f with
  | FSetLevel old => intr_set_level old;; mret tt
  | FIntrEnable => intr_enable;; mret tt
  | FSemaLoop s old => sema_loop s old
  | FSemaDown s => sema_down s
  | FSemaUp s => sema_up s
  | FSetHolder l => lock_set_holder l
  | FLockAcquire l => lock_acquire l
  | FCondReturn => cond_wait_return
  | FBroadcast c l => cond_broadcast c l
  | FKernelThread => intr_enable;; mret tt
  | FIdle s =>
      cur ← thread_current;
      modify (set_idle_thread (Some cur));;
      push_frame FIdleLoop;;
      sema_up s
  | FIdleLoop => intr_disable;; push_frame FIdleHlt;; thread_block
  | FIdleHlt => intr_enable;; push_frame FIdleLoop
  | FExecFind => syscall_exec_find
  | FExec c => syscall_exec_done c
  | FReap c => process_reap c
  | FExitChildren => exit_children
  | FExitWait => cur ← thread_current; push_frame FDie;; sema_down (SemaElim cur)
  | FDie => exit_die
  end.

(** pops the innermost frame of the running thread and runs it *)
Definition resume : K unit :=
  cur ← running_thread; th ← get_thread cur;
  match th.(frames) with
  | [] => fail NoFuel
  | f :: fs => upd_thread cur (set_frames fs);; exec_frame f
  end.

(** the calls a thread makes from its own code *)
Inductive call :=
| CSemaInit (n v : Z) | CSemaDown (n : Z) | CSemaUp (n : Z) | CSemaTryDown (n : Z)
| CLockInit (l : Z) | CLockAcquire (l : Z) | CLockTryAcquire (l : Z) | CLockRelease (l : Z)
| CCondInit (c : Z) | CCondWait (c l : Z) | CCondSignal (c l : Z) | CCondBroadcast (c l : Z)
| CYield | CSetPriority (p : Z) | CSetNice (n : Z) | CSleep (n : Z)
| CCreate (page prio : Z) | CExec (fn_copy page : Z) | CLoaded (has_pd success : bool)
| CWait (child_tid : Z) | CExit (code : Z) | CKill | CReturn.

Definition exec_call (c : call) : K unit :=
  match c with
  | CSemaInit n v => sema_init (SemaUser n) v
  | CSemaDown n => sema_down (SemaUser n)
  | CSemaUp n => sema_up (SemaUser n)
  | CSemaTryDown n => b ← sema_try_down (SemaUser n); ret_val (if (b : bool) then 1 else 0)
  | CLockInit l => lock_init l
  | CLockAcquire l => lock_acquire l
  | CLockTryAcquire l => b ← lock_try_acquire l; ret_val (if (b : bool) then 1 else 0)
  | CLockRelease l => lock_release l
  | CCondInit c => cond_init c
  | CCondWait c l => cond_wait c l
  | CCondSignal c l => cond_signal c l
  | CCondBroadcast c l => cond_broadcast c l
  | CYield => thread_yield
  | CSetPriority p => thread_set_priority p
  | CSetNice n => thread_set_nice n
  | CSleep n => timer_sleep n
  | CCreate page p => thread_create page p []
  | CExec fn_copy page => syscall_exec fn_copy page
  | CLoaded has_pd success => start_process_loaded has_pd success
  | CWait t => process_wait t
  | CExit code => syscall_exit code
  | CKill => kill SEL_UCSEG
  | CReturn => thread_exit
  end.
