(* ===== verification/Sched.v ===== *)
(** The scheduler's invariant (threads/thread.c, threads/synch.c) and what the
    routines that move threads between queues do to it.

    [SI run lim k]: every thread is where its status says.  The running thread is
    [current]; a ready thread is in [ready_list], once (the idle thread excepted);
    a blocked thread is in [sleeping_list] or among the waiters of the semaphore
    it is in the loop of, once.  The ready list and the waiters are ordered by
    priority (outside the mlfqs mode, which recomputes priorities in place), the
    sleepers by wake-up time.  [run] is false between the moment [current] gave
    up its status and the choice of the next thread in [schedule]; [lim] is a
    blocked thread that has just left its queue. *)

From S2P Require Import Prelude KList KListAlgo FixedPoint Thread Synch.

(** * The invariant *)

(** the waiters of a semaphore *)
Definition waiting (k : kstate) (s : sema_id) : list Z :=
  from_option waiters [] (k.(semas) !! s).

Definition placed (lim : option Z) (k : kstate) (t : Z) (th : thread) : Prop :=
  match th.(status) with
  | THREAD_RUNNING | THREAD_DYING => t = k.(current)
  | THREAD_READY => t ∈ k.(ready_list) ∨ k.(idle_thread) = Some t
  | THREAD_BLOCKED =>
      lim = Some t ∨
      match th.(frames) with
      | FSetLevel _ :: _ => t ∈ k.(sleeping_list)
      | FSemaLoop s _ :: _ => t ∈ waiting k s
      | FIdleHlt :: _ => k.(idle_thread) = Some t
      | _ => False
      end
  end.

(** [t] is blocked with a kernel stack that satisfies [P] *)
Definition blocked_at (k : kstate) (lim : option Z) (t : Z) (P : list frame → Prop) : Prop :=
  lim ≠ Some t ∧ k.(idle_thread) ≠ Some t ∧
  ∃ th, k.(threads) !! t = Some th ∧ th.(status) = THREAD_BLOCKED ∧ P th.(frames).

Definition by_prio (k : kstate) : Z → Z → Prop := ordered (cmp_priority_thread k).
Definition by_wake (k : kstate) : Z → Z → Prop := ordered (cmp_sleeping_thread k).

Record SI (run : bool) (lim : option Z) (k : kstate) : Prop := {
  si_cur : ∃ th, k.(threads) !! k.(current) = Some th ∧
    bool_decide (th.(status) = THREAD_RUNNING) = run;
  si_ready_nd : NoDup k.(ready_list);
  si_ready : ∀ t, t ∈ k.(ready_list) → k.(idle_thread) ≠ Some t ∧
    ∃ th, k.(threads) !! t = Some th ∧ th.(status) = THREAD_READY;
  si_sleep_nd : NoDup k.(sleeping_list);
  si_sleep : ∀ t, t ∈ k.(sleeping_list) →
    blocked_at k lim t (λ fs, fs = [FSetLevel true]);
  si_wait_nd : ∀ s, NoDup (waiting k s);
  si_wait : ∀ s t, t ∈ waiting k s →
    blocked_at k lim t (λ fs, ∃ b r, fs = FSemaLoop s b :: r);
  si_placed : ∀ t th, k.(threads) !! t = Some th → placed lim k t th;
  si_idle : ∀ i, k.(idle_thread) = Some i → is_Some (k.(threads) !! i);
  si_prio_ready : k.(thread_mlfqs) = false → StronglySorted (by_prio k) k.(ready_list);
  si_prio_wait : k.(thread_mlfqs) = false → ∀ s, StronglySorted (by_prio k) (waiting k s);
  si_wake : StronglySorted (by_wake k) k.(sleeping_list)
}.

(** * Sorted queues *)

Lemma StronglySorted_weaken {A} (R R' : A → A → Prop) l :
  (∀ a b, a ∈ l → b ∈ l → R a b → R' a b) → StronglySorted R l → StronglySorted R' l.
Proof.
  induction l as [|a l IH]; intros HR Hs; [constructor|].
  apply StronglySorted_inv in Hs as [Hs Ha]. constructor.
  - apply IH; [|done]. intros b c ??. apply HR; by constructor.
  - rewrite Forall_forall in *. intros b Hb. apply HR; [constructor|by constructor|auto].
Qed.

#[global] Instance cmp_priority_sw k : StrictWeak (cmp_priority_thread k).
Proof. apply (key_gt_sw (prio k)). Qed.

#[global] Instance cmp_sleeping_sw k : StrictWeak (cmp_sleeping_thread k).
Proof.
  split; unfold cmp_sleeping_thread; intros *; rewrite ?Z.gtb_ltb, ?Z.ltb_ge, ?Z.ltb_lt; lia.
Qed.

Lemma by_prio_iff k a b : by_prio k a b ↔ prio k b ≤ prio k a.
Proof. unfold by_prio, ordered, cmp_priority_thread. rewrite Z.gtb_ltb, Z.ltb_ge. lia. Qed.

Lemma by_wake_iff k a b : by_wake k a b ↔ wake k a ≤ wake k b.
Proof. unfold by_wake, ordered, cmp_sleeping_thread. rewrite Z.gtb_ltb, Z.ltb_ge. lia. Qed.

Lemma prio_sorted_ext k k' l : (∀ t, t ∈ l → prio k' t = prio k t) →
  StronglySorted (by_prio k) l → StronglySorted (by_prio k') l.
Proof.
  intros He. apply StronglySorted_weaken. intros a b Ha Hb.
  rewrite !by_prio_iff, (He a Ha), (He b Hb). done.
Qed.

Lemma wake_sorted_ext k k' l : (∀ t, t ∈ l → wake k' t = wake k t) →
  StronglySorted (by_wake k) l → StronglySorted (by_wake k') l.
Proof.
  intros He. apply StronglySorted_weaken. intros a b Ha Hb.
  rewrite !by_wake_iff, (He a Ha), (He b Hb). done.
Qed.

Lemma elem_of_ins_ordered less e xs t : t ∈ ins_ordered less e xs ↔ t = e ∨ t ∈ xs.
Proof. rewrite ins_ordered_perm. apply elem_of_cons. Qed.

Lemma NoDup_ins_ordered less e xs : (e ∉ xs) → NoDup xs → NoDup (ins_ordered less e xs).
Proof. intros. rewrite ins_ordered_perm. by constructor. Qed.

(** * Changes that leave the queues alone *)

(** What may change in the record of a thread: everything but the status for the
    running thread; for another thread, what the queues do not depend on. *)
Definition thread_agree (run : bool) (k : kstate) (t : Z) (o o' : option thread) : Prop :=
  match o, o' with
  | Some a, Some b => a.(status) = b.(status) ∧
      (run = true ∧ t = k.(current) ∨
       a.(frames) = b.(frames) ∧ a.(wake_up_tick) = b.(wake_up_tick) ∧
       (k.(thread_mlfqs) = false → a.(priority) = b.(priority)))
  | None, None => True
  | _, _ => False
  end.

Lemma thread_agree_refl run k t o : thread_agree run k t o o.
Proof. destruct o; simpl; [auto 6|done]. Qed.

Lemma si_not_current lim k t : SI true lim k →
  (t ∈ k.(ready_list) ∨ t ∈ k.(sleeping_list) ∨ ∃ s, t ∈ waiting k s) → t ≠ k.(current).
Proof.
  intros HS Hq ->. destruct (si_cur _ _ _ HS) as (th & Hth & Hr%bool_decide_eq_true).
  destruct Hq as [Hq|[Hq|[s Hq]]].
  - destruct (si_ready _ _ _ HS _ Hq) as (_ & th' & Hth' & ?). congruence.
  - destruct (si_sleep _ _ _ HS _ Hq) as (_ & _ & th' & Hth' & ? & _). congruence.
  - destruct (si_wait _ _ _ HS _ _ Hq) as (_ & _ & th' & Hth' & ? & _). congruence.
Qed.

Section update.
Context (run : bool) (lim : option Z) (k k' : kstate) (HS : SI run lim k).
Context (Ecur : k'.(current) = k.(current)) (Eready : k'.(ready_list) = k.(ready_list)).
Context (Esleep : k'.(sleeping_list) = k.(sleeping_list)).
Context (Eidle : k'.(idle_thread) = k.(idle_thread)).
Context (Emlfqs : k'.(thread_mlfqs) = k.(thread_mlfqs)).
Context (Ewait : ∀ s, waiting k' s = waiting k s).
Context (Eth : ∀ t, thread_agree run k t (k.(threads) !! t) (k'.(threads) !! t)).

Lemma agree_queued t th : k.(threads) !! t = Some th →
  (t ∈ k.(ready_list) ∨ t ∈ k.(sleeping_list) ∨ ∃ s, t ∈ waiting k s) →
  ∃ th', k'.(threads) !! t = Some th' ∧ th'.(status) = th.(status) ∧
    th'.(frames) = th.(frames) ∧ th'.(wake_up_tick) = th.(wake_up_tick) ∧
    (k.(thread_mlfqs) = false → th'.(priority) = th.(priority)).
Proof using All.
  intros Ht Hq. specialize (Eth t). rewrite Ht in Eth.
  destruct (k'.(threads) !! t) as [th'|]; [|done].
  destruct Eth as (Hs & [[-> ->]|(Hf & Hw & Hp)]).
  - by destruct (si_not_current _ _ _ HS Hq).
  - exists th'. split_and!; auto. intros H. symmetry. auto.
Qed.

Lemma agree_prio t : k.(thread_mlfqs) = false → t ∈ k.(ready_list) ∨ (∃ s, t ∈ waiting k s) →
  prio k' t = prio k t.
Proof using All.
  intros Hm Hq. unfold prio. assert (∃ th, k.(threads) !! t = Some th) as [th Ht].
  { destruct Hq as [Hq|[s Hq]].
    - destruct (si_ready _ _ _ HS _ Hq) as (_ & th & ? & _). eauto.
    - destruct (si_wait _ _ _ HS _ _ Hq) as (_ & _ & th & ? & _). eauto. }
  destruct (agree_queued t th Ht) as (th' & Ht' & _ & _ & _ & Hp); [tauto|].
  rewrite Ht, Ht'. simpl. auto.
Qed.

Lemma agree_wake t : t ∈ k.(sleeping_list) → wake k' t = wake k t.
Proof using All.
  intros Hq. unfold wake. destruct (si_sleep _ _ _ HS _ Hq) as (_ & _ & th & Ht & _).
  destruct (agree_queued t th Ht) as (th' & Ht' & _ & _ & Hw & _); [tauto|].
  by rewrite Ht, Ht'.
Qed.

Lemma agree_blocked t P : t ∈ k.(sleeping_list) ∨ (∃ s, t ∈ waiting k s) →
  blocked_at k lim t P → blocked_at k' lim t P.
Proof using All.
  intros Hq (Hl & Hi & th & Ht & Hs & HP). split_and!; [done|congruence|].
  destruct (agree_queued t th Ht) as (th' & Ht' & Hs' & Hf & _); [tauto|].
  exists th'. rewrite Hf. split_and!; [done|congruence|done].
Qed.

Lemma agree_placed t th' : k'.(threads) !! t = Some th' → placed lim k' t th'.
Proof using All.
  intros Ht'. pose proof (Eth t) as Ha. rewrite Ht' in Ha.
  destruct (k.(threads) !! t) as [th|] eqn:Ht; [|done]. simpl in Ha.
  pose proof (si_placed _ _ _ HS t th Ht) as Hp. unfold placed in *.
  rewrite Ecur, Eready, Esleep, Eidle. destruct Ha as (Hs & Ho). rewrite <- Hs.
  destruct (status th) eqn:Es; auto. destruct Hp as [Hp|Hp]; [by left|right].
  destruct Ho as [[Hr ->]|(Hf & _ & _)].
  - destruct (si_cur _ _ _ HS) as (thc & Hc & Hb). rewrite Hr in Hb.
    apply bool_decide_eq_true in Hb. congruence.
  - rewrite <- Hf. destruct (frames th) as [|[] ?]; auto. by rewrite Ewait.
Qed.

Lemma SI_update : SI run lim k'.
Proof using All.
  destruct (si_cur _ _ _ HS) as (thc & Hc & Hb).
  split.
  - pose proof (Eth (current k)) as Ha. rewrite Hc in Ha. rewrite Ecur.
    destruct (threads k' !! current k) as [th'|]; [|done]. destruct Ha as [Hs _].
    exists th'. split; [done|]. by rewrite <- Hs.
  - rewrite Eready. apply HS.
  - rewrite Eready. intros t Hq. destruct (si_ready _ _ _ HS _ Hq) as (Hi & th & Ht & Hs).
    split; [congruence|]. destruct (agree_queued t th Ht) as (th' & Ht' & Hs' & _); [tauto|].
    exists th'. split; congruence.
  - rewrite Esleep. apply HS.
  - rewrite Esleep. intros t Hq. apply agree_blocked; [tauto|]. by apply HS.
  - intros s. rewrite Ewait. apply HS.
  - intros s t. rewrite Ewait. intros Hq. apply agree_blocked; [eauto|]. by apply HS.
  - apply agree_placed.
  - intros i. rewrite Eidle. intros Hi. destruct (si_idle _ _ _ HS i Hi) as [th Ht].
    pose proof (Eth i) as Ha. rewrite Ht in Ha. destruct (threads k' !! i); [eauto|done].
  - rewrite Emlfqs, Eready. intros Hm. eapply prio_sorted_ext; [|by apply HS].
    intros t Hq. apply agree_prio; auto.
  - rewrite Emlfqs. intros Hm s. rewrite Ewait. eapply prio_sorted_ext; [|by apply HS].
    intros t Hq. apply agree_prio; eauto.
  - rewrite Esleep. eapply wake_sorted_ext; [|by apply HS]. intros t Hq. by apply agree_wake.
Qed.
End update.

(** Closes the side conditions of [SI_update] for a state written with setters. *)
Ltac si_update HS :=
  apply (SI_update _ _ _ _ HS); try reflexivity;
  try (intros ?t; apply thread_agree_refl).

(** * Leaving and joining the queues *)

(** The first waiter of a semaphore leaves its queue. *)
Lemma SI_pop_waiter run k s v w r :
  SI run None k → k.(semas) !! s = Some (mk_semaphore v (w :: r)) →
  SI run (Some w) (set_semas (<[s := mk_semaphore v r]> k.(semas)) k).
Proof.
  intros HS Hs.
  assert (Hw : waiting k s = w :: r) by (unfold waiting; by rewrite Hs).
  set (k' := set_semas _ _).
  assert (Hw' : ∀ s', waiting k' s' = if bool_decide (s' = s) then r else waiting k s').
  { intros s'. unfold waiting, k'; simpl. case_bool_decide; subst; by simplify_map_eq. }
  assert (Hne : ∀ t, (t ∈ sleeping_list k ∨ ∃ s', t ∈ waiting k' s') → Some w ≠ Some t).
  { intros t Hq [= <-].
    destruct (si_wait _ _ _ HS s w) as (_ & _ & th & Ht & _ & b & fs & Hf); [rewrite Hw; left|].
    destruct Hq as [Hq|[s' Hq]].
    - destruct (si_sleep _ _ _ HS w Hq) as (_ & _ & th' & Ht' & _ & Hf'). congruence.
    - rewrite Hw' in Hq. case_bool_decide as E.
      + pose proof (si_wait_nd _ _ _ HS s) as Hnd. rewrite Hw in Hnd.
        apply NoDup_cons in Hnd as [? _]. done.
      + destruct (si_wait _ _ _ HS s' w Hq) as (_ & _ & th' & Ht' & _ & b' & fs' & Hf'). congruence. }
  assert (Hsub : ∀ s' t, t ∈ waiting k' s' → t ∈ waiting k s').
  { intros s' t. rewrite Hw'. case_bool_decide; subst; [|done]. rewrite Hw. by right. }
  destruct HS as [Hc Hrn Hr Hsn Hsl Hwn Hwt Hpl Hid Hpr Hpw Hwk]. split; try done.
  - intros t Hq. destruct (Hsl t Hq) as (_ & Hi & Hth). split_and!; auto.
  - intros s'. rewrite Hw'. case_bool_decide; subst; [|done].
    specialize (Hwn s). rewrite Hw in Hwn. by apply NoDup_cons in Hwn as [_ ?].
  - intros s' t Hq. destruct (Hwt s' t (Hsub _ _ Hq)) as (_ & Hi & Hth). split_and!; eauto.
  - intros t th Ht. specialize (Hpl t th Ht). unfold placed in *. destruct (status th); auto.
    destruct Hpl as [Hpl|Hpl]; [done|].
    destruct (decide (w = t)) as [->|Hnt]; [by left|right].
    destruct (frames th) as [|[] ?]; auto. rewrite Hw'. case_bool_decide; [|done].
    subst. rewrite Hw in Hpl. apply elem_of_cons in Hpl as [->|?]; done.
  - intros Hm s'. rewrite Hw'. eapply prio_sorted_ext; [by intros|].
    case_bool_decide; subst; [|by auto]. specialize (Hpw Hm s). rewrite Hw in Hpw.
    by apply StronglySorted_inv in Hpw as [? _].
Qed.

(** The first sleeper leaves its queue. *)
Lemma SI_pop_sleeper run k t r :
  SI run None k → k.(sleeping_list) = t :: r → SI run (Some t) (set_sleeping_list r k).
Proof.
  intros HS Hq. destruct HS as [Hc Hrn Hr Hsn Hsl Hwn Hwt Hpl Hid Hpr Hpw Hwk].
  rewrite Hq in *. apply NoDup_cons in Hsn as [Hnt Hsn].
  destruct (Hsl t) as (_ & _ & th & Ht & _ & Hf); [left|]. split; simpl; try done.
  - intros u Hu. destruct (Hsl u) as (_ & Hi & Hth); [by right|].
    split_and!; [congruence|done|done].
  - intros s u Hu. destruct (Hwt s u Hu) as (_ & Hi & th' & Ht' & Hb & b & fs & Hf').
    split_and!; [congruence|done|]. exists th'. eauto.
  - intros u th' Ht'. specialize (Hpl u th' Ht'). unfold placed in *; simpl.
    destruct (status th'); auto. destruct Hpl as [?|Hpl]; [done|].
    destruct (decide (t = u)) as [->|?]; [by left|right].
    destruct (frames th') as [|[] ?]; auto. rewrite Hq in Hpl.
    apply elem_of_cons in Hpl as [->|?]; done.
  - eapply wake_sorted_ext; [by intros|]. by apply StronglySorted_inv in Hwk as [? _].
Qed.

(** ** Becoming ready *)

Definition made_ready (t : Z) (th : thread) (k : kstate) : kstate :=
  set_threads (<[t := set_status THREAD_READY th]> k.(threads))
    (set_ready_list (ins_ordered (cmp_priority_thread k) t k.(ready_list)) k).

Lemma thread_unblock_eq k t th :
  k.(threads) !! t = Some th → th.(status) = THREAD_BLOCKED →
  (k.(intr_on) = true → k.(in_external_intr) = false) →
  thread_unblock t k = Ok (tt, made_ready t th k).
Proof.
  intros Ht Hs Hx. unfold thread_unblock, is_thread, get_thread, upd_thread, ready_insert,
    mbind, M_bind, get, modify; simpl. rewrite Ht. simpl. rewrite Ht. simpl. rewrite Hs. simpl.
  unfold get_thread, mbind, M_bind; simpl. rewrite Ht. simpl.
  destruct k as [ ? ? ? ? ? ? ? ? ? ? io xi ]; simpl in *.
  destruct io; simpl; [|done]. by rewrite Hx.
Qed.

Section made_ready.
Context (run : bool) (k : kstate) (t : Z) (th : thread).
Context (Ht : k.(threads) !! t = Some th) (Hidle : k.(idle_thread) ≠ Some t).

Lemma made_ready_prio u : prio (made_ready t th k) u = prio k u.
Proof using Ht.
  unfold prio; simpl. destruct (decide (u = t)) as [->|]; by simplify_map_eq.
Qed.

Lemma made_ready_wake u : wake (made_ready t th k) u = wake k u.
Proof using Ht.
  unfold wake; simpl. destruct (decide (u = t)) as [->|]; by simplify_map_eq.
Qed.

(** [t] is in no queue and is not mentioned as running any more *)
Lemma SI_made_ready lim run' :
  SI run lim k →
  (run' = true → run = true ∧ t ≠ k.(current)) → (run' = false → run = true → t = k.(current)) →
  (th.(status) = THREAD_BLOCKED ∧ lim = Some t ∨ th.(status) = THREAD_RUNNING ∧ lim = None) →
  SI run' None (made_ready t th k).
Proof using Ht Hidle.
  intros HS Hr1 Hr2 Hst.
  assert (Hnr : t ∉ ready_list k).
  { intros Hq. destruct (si_ready _ _ _ HS t Hq) as (_ & th' & ? & ?). intuition congruence. }
  assert (Hnb : ∀ P, ¬ blocked_at k lim t P).
  { intros P (Hl & _ & th' & ? & ? & _). intuition congruence. }
  assert (Hkeep : ∀ u P, blocked_at k lim u P → blocked_at (made_ready t th k) None u P).
  { intros u P Hb. assert (u ≠ t) by (intros ->; by eapply Hnb).
    destruct Hb as (_ & Hi & th' & ? & ? & ?). split_and!; [done|done|]. exists th'.
    simpl. by rewrite lookup_insert_ne. }
  destruct (si_cur _ _ _ HS) as (thc & Hc & Hrc).
  destruct HS as [_ Hrn Hr Hsn Hsl Hwn Hwt Hpl Hid Hpr Hpw Hwk]. split; simpl.
  - destruct (decide (t = current k)) as [E|Hne].
    + exists (set_status THREAD_READY th). rewrite <- E, lookup_insert_eq. split; [done|].
      destruct run'; [|done]. by destruct Hr1.
    + exists thc. rewrite lookup_insert_ne by done. split; [done|].
      rewrite Hrc. destruct run, run'; auto; [by destruct Hne; apply Hr2|by destruct Hr1].
  - by apply NoDup_ins_ordered.
  - intros u. rewrite elem_of_ins_ordered. intros [->|Hu].
    + split; [done|]. exists (set_status THREAD_READY th). by simplify_map_eq.
    + destruct (Hr u Hu) as (? & th' & ? & ?). split; [done|]. exists th'.
      rewrite lookup_insert_ne; [done|]. by intros ->.
  - done.
  - intros u Hu. auto.
  - done.
  - intros s u Hu. auto.
  - intros u th' Hu. unfold placed. simpl.
    destruct (decide (u = t)) as [->|Hne]; simplify_map_eq.
    { left. apply elem_of_ins_ordered. by left. }
    pose proof (Hpl u th' Hu) as Hp. unfold placed in Hp.
    destruct (status th'); auto.
    + destruct Hp as [?|?]; [left; apply elem_of_ins_ordered|]; auto.
    + destruct Hp as [->|Hp]; [|by right]. by intuition congruence.
  - intros i Hi. destruct (decide (i = t)) as [->|]; simplify_map_eq; eauto.
  - intros Hm. eapply (prio_sorted_ext k); [intros; apply made_ready_prio|].
    apply ins_ordered_sorted; auto.
  - intros Hm s. eapply (prio_sorted_ext k); [intros; apply made_ready_prio|]. apply (Hpw Hm).
  - eapply (wake_sorted_ext k); [intros; apply made_ready_wake|done].
Qed.
End made_ready.

(** ** Blocking *)

(** The running thread gives up its status; it is in no queue yet. *)
Lemma SI_stop k th st :
  SI true None k → k.(threads) !! k.(current) = Some th → st ≠ THREAD_RUNNING →
  (st = THREAD_READY → k.(idle_thread) = Some k.(current)) →
  SI false (Some k.(current)) (set_threads (<[k.(current) := set_status st th]> k.(threads)) k).
Proof.
  intros HS Ht Hst1 Hst2. set (c := current k) in *. set (k' := set_threads _ _).
  assert (Hth : ∀ u, u ≠ c → threads k' !! u = threads k !! u).
  { intros u Hu. unfold k'. simpl. by rewrite lookup_insert_ne. }
  assert (Hkeep : ∀ u P, u ≠ c → blocked_at k None u P → blocked_at k' (Some c) u P).
  { intros u P Hu (_ & Hi & th' & ? & ? & ?). split_and!; [congruence|done|]. exists th'.
    by rewrite Hth. }
  assert (Hprio : ∀ u, prio k' u = prio k u).
  { intros u. unfold prio, k'; simpl. destruct (decide (u = c)) as [->|]; by simplify_map_eq. }
  pose proof (si_not_current None k) as Hnc. specialize (λ t, Hnc t HS).
  destruct HS as [_ Hrn Hr Hsn Hsl Hwn Hwt Hpl Hid Hpr Hpw Hwk]. split; try done.
  - exists (set_status st th). unfold k'; simpl. rewrite lookup_insert_eq. split; [done|].
    by apply bool_decide_eq_false.
  - intros u Hu. destruct (Hr u Hu) as (Hi & th' & ? & ?). split; [done|]. exists th'.
    rewrite Hth; [done|]. by apply Hnc; left.
  - intros u Hu. apply Hkeep; [apply Hnc; auto|auto].
  - intros s u Hu. apply Hkeep; [apply Hnc; eauto|auto].
  - intros u th' Hu. destruct (decide (u = c)) as [->|Hne].
    + unfold k' in Hu; simpl in Hu. simplify_map_eq. unfold placed; simpl.
      destruct st; [done|right; by apply Hst2|by left|done].
    + rewrite Hth in Hu by done. specialize (Hpl u th' Hu). unfold placed in *.
      destruct (status th'); auto. destruct Hpl as [?|?]; [done|by right].
  - intros i Hi. destruct (decide (i = c)) as [->|Hne]; unfold k'; simpl; simplify_map_eq; eauto.
  - intros Hm. eapply prio_sorted_ext; [intros; apply Hprio|]. by apply Hpr.
  - intros Hm s. eapply prio_sorted_ext; [intros; apply Hprio|]. by apply Hpw.
  - eapply (wake_sorted_ext k); [|done]. intros u Hu. unfold wake. by rewrite Hth by (apply Hnc; auto).
Qed.

Section join.
Context (run : bool) (k : kstate) (t : Z) (th : thread) (HS : SI run (Some t) k).
Context (Ht : k.(threads) !! t = Some th) (Hb : th.(status) = THREAD_BLOCKED).

Lemma limbo_not_queued :
  (t ∉ k.(sleeping_list)) ∧ (t ∉ k.(ready_list)) ∧ ∀ s, t ∉ waiting k s.
Proof using All.
  split_and!.
  - intros Hq. by destruct (si_sleep _ _ _ HS t Hq) as [? _].
  - intros Hq. destruct (si_ready _ _ _ HS t Hq) as (_ & th' & ? & ?). congruence.
  - intros s Hq. by destruct (si_wait _ _ _ HS s t Hq) as [? _].
Qed.

Lemma SI_join_sema s v ws b r :
  th.(frames) = FSemaLoop s b :: r → k.(idle_thread) ≠ Some t →
  k.(semas) !! s = Some (mk_semaphore v ws) →
  SI run None (set_semas
    (<[s := mk_semaphore v (ins_ordered (cmp_priority_thread k) t ws)]> k.(semas)) k).
Proof using All.
  intros Hf Hi Hs. set (k' := set_semas _ _).
  assert (Hw : waiting k s = ws) by (unfold waiting; by rewrite Hs).
  assert (Hw' : ∀ s', waiting k' s' = if bool_decide (s' = s)
    then ins_ordered (cmp_priority_thread k) t (waiting k s) else waiting k s').
  { intros s'. unfold waiting at 1, k'; simpl. rewrite Hw. case_bool_decide; subst; by simplify_map_eq. }
  destruct limbo_not_queued as (Hns & Hnr & Hnw).
  destruct HS as [Hc Hrn Hr Hsn Hsl Hwn Hwt Hpl Hid Hpr Hpw Hwk]. split; try done.
  - intros u Hu. destruct (Hsl u Hu) as (_ & ? & ?). split_and!; done.
  - intros s'. rewrite Hw'. case_bool_decide; [|done]. by apply NoDup_ins_ordered.
  - intros s' u. rewrite Hw'. intros Hu.
    assert (u = t ∧ s' = s ∨ u ≠ t ∧ u ∈ waiting k s') as [[-> ->]|[Hne Hu']].
    { case_bool_decide; subst; [rewrite elem_of_ins_ordered in Hu|].
      - destruct (decide (u = t)); [by left|right]. naive_solver.
      - right. split; [|done]. intros ->. by eapply Hnw. }
    + split_and!; [done|done|]. exists th. eauto.
    + destruct (Hwt s' u Hu') as (_ & ? & ?). split_and!; done.
  - intros u th' Hu. pose proof (Hpl u th' Hu) as Hp. unfold placed in *.
    destruct (status th') eqn:Es; auto. right. destruct Hp as [[= <-]|Hp].
    + change (threads k !! t = Some th') in Hu. assert (th' = th) as -> by congruence.
      rewrite Hf, Hw', bool_decide_eq_true_2 by done. apply elem_of_ins_ordered. by left.
    + destruct (frames th') as [|[] ?]; auto. rewrite Hw'. case_bool_decide; subst; [|done].
      apply elem_of_ins_ordered. by right.
  - intros Hm s'. eapply (prio_sorted_ext k); [done|]. rewrite Hw'.
    case_bool_decide; [|by apply Hpw]. apply ins_ordered_sorted. by apply Hpw.
Qed.

Lemma SI_join_sleep :
  th.(frames) = [FSetLevel true] → k.(idle_thread) ≠ Some t →
  SI run None (set_sleeping_list (ins_ordered (cmp_sleeping_thread k) t k.(sleeping_list)) k).
Proof using All.
  intros Hf Hi. destruct limbo_not_queued as (Hns & Hnr & Hnw).
  destruct HS as [Hc Hrn Hr Hsn Hsl Hwn Hwt Hpl Hid Hpr Hpw Hwk]. split; simpl; try done.
  - by apply NoDup_ins_ordered.
  - intros u. rewrite elem_of_ins_ordered. intros [->|Hu].
    + split_and!; [done|done|]. exists th. done.
    + destruct (Hsl u Hu) as (_ & ? & ?). split_and!; done.
  - intros s u Hu. destruct (Hwt s u Hu) as (_ & ? & ?). split_and!; done.
  - intros u th' Hu. pose proof (Hpl u th' Hu) as Hp. unfold placed in *; simpl.
    destruct (status th'); auto. right. destruct Hp as [[= <-]|Hp].
    + change (threads k !! t = Some th') in Hu. assert (th' = th) as -> by congruence. rewrite Hf. apply elem_of_ins_ordered. by left.
    + destruct (frames th') as [|[] ?]; auto. apply elem_of_ins_ordered. by right.
  - eapply (wake_sorted_ext k); [done|]. by apply ins_ordered_sorted.
Qed.

Lemma SI_join_idle r : th.(frames) = FIdleHlt :: r → k.(idle_thread) = Some t → SI run None k.
Proof using All.
  intros Hf Hi. destruct HS as [Hc Hrn Hr Hsn Hsl Hwn Hwt Hpl Hid Hpr Hpw Hwk]. split; try done.
  - intros u Hu. destruct (Hsl u Hu) as (_ & ? & ?). split_and!; done.
  - intros s u Hu. destruct (Hwt s u Hu) as (_ & ? & ?). split_and!; done.
  - intros u th' Hu. pose proof (Hpl u th' Hu) as Hp. unfold placed in *.
    destruct (status th'); auto. right. destruct Hp as [[= <-]|Hp]; [|done].
    change (threads k !! t = Some th') in Hu. assert (th' = th) as -> by congruence. by rewrite Hf.
Qed.
End join.

Lemma SI_drop_limbo run k t th :
  SI run (Some t) k → k.(threads) !! t = Some th → th.(status) ≠ THREAD_BLOCKED → SI run None k.
Proof.
  intros HS Ht Hn. destruct HS as [Hc Hrn Hr Hsn Hsl Hwn Hwt Hpl Hid Hpr Hpw Hwk]. split; try done.
  - intros u Hu. destruct (Hsl u Hu) as (_ & ? & ?). split_and!; done.
  - intros s u Hu. destruct (Hwt s u Hu) as (_ & ? & ?). split_and!; done.
  - intros u th' Hu. pose proof (Hpl u th' Hu) as Hp. unfold placed in *.
    destruct (status th') eqn:E; auto. destruct Hp as [[= <-]|Hp]; [congruence|auto].
Qed.

(** * Choosing the next thread *)

(** the thread [next_thread_to_run] returns *)
Definition picks (k : kstate) (n : Z) : Prop :=
  match k.(ready_list) with t :: _ => n = t | [] => k.(idle_thread) = Some n end.

(** the state once [n] has the processor *)
Definition switched (n : Z) (nth : thread) (k : kstate) : kstate :=
  set_thread_ticks 0 (set_threads (<[n := set_status THREAD_RUNNING nth]> k.(threads))
    (set_current n (set_ready_list (tl k.(ready_list)) k))).

Lemma picks_exists k : SI false None k →
  (k.(ready_list) ≠ [] ∨ is_Some k.(idle_thread)) →
  ∃ n nth, picks k n ∧ k.(threads) !! n = Some nth ∧
    (n ∈ k.(ready_list) ∨ k.(idle_thread) = Some n).
Proof.
  intros HS Hn. unfold picks. destruct (ready_list k) as [|t r] eqn:E.
  - destruct Hn as [?|[i Hi]]; [done|]. destruct (si_idle _ _ _ HS i Hi) as [th ?]. exists i, th. auto.
  - destruct (si_ready _ _ _ HS t) as (_ & th & ? & _); [rewrite E; left|].
    exists t, th. split_and!; [done..|left; left].
Qed.

Lemma picks_tail k n u : NoDup k.(ready_list) → picks k n →
  (u ∈ tl k.(ready_list) ↔ u ∈ k.(ready_list) ∧ u ≠ n) ∨ k.(ready_list) = [].
Proof.
  unfold picks. destruct (ready_list k) as [|t r]; intros Hnd Hp; [by right|left].
  subst. apply NoDup_cons in Hnd as [Hni _]. simpl. rewrite elem_of_cons.
  split; [|naive_solver]. intros Hu. split; [by right|]. by intros ->.
Qed.

(** the structure of a thread that has died *)
Definition freed (c : Z) (k : kstate) : kstate :=
  set_threads (delete c k.(threads))
    (set_semas (delete (SemaWait c) (delete (SemaLoad c) (delete (SemaElim c) k.(semas)))) k).

Section switch.
Context (k k' : kstate) (n : Z) (nth cth : thread) (HS : SI false None k).
Context (Hp : picks k n) (Hn : k.(threads) !! n = Some nth).
Context (Hc : k.(threads) !! k.(current) = Some cth).
Context (Ecur : k'.(current) = n) (Eready : k'.(ready_list) = tl k.(ready_list)).
Context (Esleep : k'.(sleeping_list) = k.(sleeping_list)).
Context (Eidle : k'.(idle_thread) = k.(idle_thread)).
Context (Emlfqs : k'.(thread_mlfqs) = k.(thread_mlfqs)).
Context (Ewait : ∀ s, waiting k' s = waiting k s).
Context (En : k'.(threads) !! n = Some (set_status THREAD_RUNNING nth)).
Context (Eth : ∀ u, u ≠ n → u ≠ k.(current) → k'.(threads) !! u = k.(threads) !! u).
Context (Ecth : k.(current) ≠ n →
  k'.(threads) !! k.(current) = if decide (cth.(status) = THREAD_DYING) then None else Some cth).
Context (Hdie : cth.(status) = THREAD_DYING → k.(idle_thread) ≠ Some k.(current)).

Lemma switch_ready u : u ∈ tl k.(ready_list) ↔ u ∈ k.(ready_list) ∧ u ≠ n.
Proof using HS Hp.
  destruct (picks_tail k n u) as [?|E]; [apply HS|done|done|]. rewrite E. simpl.
  split; [by intros ?%elem_of_nil|by intros [?%elem_of_nil _]].
Qed.

Lemma switch_thread u th : u ≠ n → k.(threads) !! u = Some th → th.(status) ≠ THREAD_DYING →
  k'.(threads) !! u = Some th.
Proof using Hc Eth Ecth.
  intros Hne Hu Hd. destruct (decide (u = current k)) as [->|]; [|by rewrite Eth].
  rewrite Ecth by done. assert (th = cth) as -> by congruence. by rewrite decide_False.
Qed.

Lemma switch_blocked u P : blocked_at k None u P → blocked_at k' None u P.
Proof using All.
  intros (_ & Hi & th & ? & ? & ?). split_and!; [done|congruence|]. exists th. split; [|done].
  apply switch_thread; [|done|congruence]. intros ->. unfold picks in Hp.
  destruct (ready_list k) as [|t r] eqn:E; [congruence|].
  destruct (si_ready _ _ _ HS t) as (_ & th' & ? & ?); [rewrite E; left|]. congruence.
Qed.

Lemma switch_prio u : k.(thread_mlfqs) = false →
  u ∈ tl k.(ready_list) ∨ (∃ s, u ∈ waiting k s) → prio k' u = prio k u.
Proof using All.
  intros _ Hq. unfold prio. destruct (decide (u = n)) as [->|Hne]; [by rewrite En, Hn|].
  destruct Hq as [[Hq _]%switch_ready|[s Hq]].
  - destruct (si_ready _ _ _ HS u Hq) as (_ & th & Hu & ?).
    rewrite Hu. erewrite switch_thread; eauto. congruence.
  - destruct (si_wait _ _ _ HS s u Hq) as (_ & _ & th & Hu & ? & _).
    rewrite Hu. erewrite switch_thread; eauto. congruence.
Qed.

Lemma switch_placed u th : k'.(threads) !! u = Some th → placed None k' u th.
Proof using All.
  intros Hu. destruct (decide (u = n)) as [->|Hne].
  { rewrite En in Hu. simplify_eq. unfold placed. simpl. done. }
  assert (Hu' : threads k !! u = Some th ∧ status th ≠ THREAD_DYING ∧ status th ≠ THREAD_RUNNING).
  { destruct (si_cur _ _ _ HS) as (cth' & Hc' & Hr%bool_decide_eq_false).
    destruct (decide (u = current k)) as [->|Hnc].
    - rewrite Ecth in Hu by done. destruct (decide _); [done|]. split_and!; congruence.
    - rewrite Eth in Hu by done. split; [done|].
      pose proof (si_placed _ _ _ HS u th Hu) as Hpl. unfold placed in Hpl.
      destruct (status th); split; done. }
  destruct Hu' as (Hu' & Hd & Hrn). pose proof (si_placed _ _ _ HS u th Hu') as Hpl.
  unfold placed in *. rewrite Eready, Esleep, Eidle. destruct (status th); [done| | |done].
  - destruct Hpl as [?|?]; [left; by apply switch_ready|by right].
  - destruct Hpl as [?|Hpl]; [done|right]. destruct (frames th) as [|[] ?]; auto. by rewrite Ewait.
Qed.

Lemma SI_switch : SI true None k'.
Proof using All.
  split.
  - rewrite Ecur. eexists. by rewrite En.
  - rewrite Eready. pose proof (si_ready_nd _ _ _ HS) as Hnd.
    destruct (ready_list k); [done|]. by apply NoDup_cons in Hnd as [_ ?].
  - intros u. rewrite Eready, switch_ready. intros [Hu Hne].
    destruct (si_ready _ _ _ HS u Hu) as (? & th & Hth & ?). split; [congruence|].
    exists th. split; [|done]. apply switch_thread; congruence.
  - rewrite Esleep. apply HS.
  - intros u. rewrite Esleep. intros Hu. apply switch_blocked. by apply HS.
  - intros s. rewrite Ewait. apply HS.
  - intros s u. rewrite Ewait. intros Hu. apply switch_blocked. by apply HS.
  - apply switch_placed.
  - intros i. rewrite Eidle. intros Hi. destruct (si_idle _ _ _ HS i Hi) as [th Hth].
    destruct (decide (i = n)) as [->|]; [by rewrite En; eauto|].
    destruct (decide (i = current k)) as [->|]; [|rewrite Eth; eauto].
    rewrite Ecth by done. destruct (decide _); [by destruct Hdie|eauto].
  - rewrite Emlfqs, Eready. intros Hm. eapply prio_sorted_ext; [intros u Hu; apply switch_prio; eauto|].
    pose proof (si_prio_ready _ _ _ HS Hm) as Hs. destruct (ready_list k); [done|].
    by apply StronglySorted_inv in Hs as [? _].
  - rewrite Emlfqs. intros Hm s. rewrite Ewait.
    eapply prio_sorted_ext; [intros u Hu; apply switch_prio; eauto|]. by apply HS.
  - rewrite Esleep. eapply wake_sorted_ext; [|apply HS]. intros u Hu. unfold wake.
    destruct (decide (u = n)) as [->|]; [by rewrite En, Hn|].
    destruct (si_sleep _ _ _ HS u Hu) as (_ & _ & th & Hth & ? & _).
    rewrite Hth. erewrite switch_thread; eauto. congruence.
Qed.
End switch.

Lemma SI_switched k n nth cth :
  SI false None k → picks k n → k.(threads) !! n = Some nth →
  k.(threads) !! k.(current) = Some cth → cth.(status) ≠ THREAD_DYING →
  SI true None (switched n nth k).
Proof.
  intros HS Hp Hn Hc Hd. apply (SI_switch k _ n nth cth); try done; simpl.
  - by rewrite lookup_insert_eq.
  - intros u ??. by rewrite lookup_insert_ne.
  - intros ?. by rewrite lookup_insert_ne, decide_False.
Qed.

Lemma SI_freed k n nth cth :
  SI false None k → picks k n → k.(threads) !! n = Some nth →
  k.(threads) !! k.(current) = Some cth → cth.(status) = THREAD_DYING →
  k.(idle_thread) ≠ Some k.(current) → n ≠ k.(current) →
  (∀ s, s ∈ [SemaWait k.(current); SemaLoad k.(current); SemaElim k.(current)] → waiting k s = []) →
  SI true None (freed k.(current) (switched n nth k)).
Proof.
  intros HS Hp Hn Hc Hd Hi Hne Hw. apply (SI_switch k _ n nth cth); try done; simpl.
  - intros s. unfold waiting; simpl. symmetry.
    destruct (decide (s ∈ [SemaWait (current k); SemaLoad (current k); SemaElim (current k)])) as [Hin|Hni].
    + etrans; [by apply Hw|]. rewrite !elem_of_cons in Hin.
      destruct Hin as [->|[->|[->|?%elem_of_nil]]]; [..|done]; by simplify_map_eq.
    + rewrite !not_elem_of_cons in Hni. destruct Hni as (?&?&?&_). by rewrite !lookup_delete_ne.
  - by rewrite lookup_delete_ne, lookup_insert_eq.
  - intros u ??. by rewrite lookup_delete_ne, lookup_insert_ne.
  - intros ?. by rewrite lookup_delete_eq, decide_True.
Qed.

(** ** [schedule] *)

(** Runs the store monad as far as the known lookups allow. *)
Ltac krun := repeat progress (unfold mbind, M_bind, get_thread, upd_thread, intr_get_level,
  intr_context, is_thread, gets, get, modify, running_thread, get_sema, put_sema; simpl).

Lemma next_thread_eq k n : picks k n →
  next_thread_to_run k = Ok (Some n, set_ready_list (tl k.(ready_list)) k).
Proof.
  unfold picks, next_thread_to_run, mbind, M_bind, get. intros Hp.
  destruct k; simpl in *. destruct ready_list; simpl in *; by subst.
Qed.

Section schedule.
Context (k : kstate) (cth nth : thread) (n : Z).
Context (Hi : k.(intr_on) = false) (Hc : k.(threads) !! k.(current) = Some cth).
Context (Hr : cth.(status) ≠ THREAD_RUNNING).
Context (Hp : picks k n) (Hn : k.(threads) !! n = Some nth).

Lemma schedule_unfold :
  schedule k = (if negb (k.(current) =? n)
    then (modify (set_current n);; thread_schedule_tail (Some k.(current)))
    else thread_schedule_tail None) (set_ready_list (tl k.(ready_list)) k).
Proof using All.
  unfold schedule. rewrite (bind_eq running_thread _ k (current k) k eq_refl).
  rewrite (bind_eq _ _ _ _ _ (next_thread_eq k n Hp)).
  krun. rewrite Hi. krun. rewrite Hc. krun. rewrite bool_decide_eq_false_2 by done. krun.
  by rewrite bool_decide_eq_true_2 by (by rewrite Hn).
Qed.

Lemma schedule_eq : cth.(status) ≠ THREAD_DYING → schedule k = Ok (tt, switched n nth k).
Proof using All.
  intros Hd. rewrite schedule_unfold. unfold switched, thread_schedule_tail.
  destruct (Z.eqb_spec (current k) n) as [E|Hne]; krun; rewrite Hi; krun.
  - rewrite E, Hn. krun. rewrite <- E. by destruct k.
  - rewrite Hn. krun. rewrite lookup_insert_ne by done. rewrite Hc. krun.
    by rewrite bool_decide_eq_false_2 by done.
Qed.

Lemma schedule_dying_eq :
  cth.(status) = THREAD_DYING → k.(current) ≠ k.(initial_thread) → n ≠ k.(current) →
  schedule k = Ok (tt, freed k.(current) (switched n nth k)).
Proof using All.
  intros Hd Hini Hne. rewrite schedule_unfold. unfold switched, thread_schedule_tail.
  destruct (Z.eqb_spec (current k) n) as [E|_]; [done|]; krun; rewrite Hi; krun.
  rewrite Hn. krun. rewrite lookup_insert_ne by done. rewrite Hc. krun.
  rewrite bool_decide_eq_true_2 by done. destruct (Z.eqb_spec (current k) (initial_thread k)); [done|].
  krun. by destruct (Z.eqb_spec (current k) n).
Qed.
End schedule.
