(* ===== verification/Tokens.v ===== *)
(** Who may do what next: the kernel stacks of the threads and the permissions
    they carry (threads/synch.c locks and condition variables, the parent-child
    protocol of threads/thread.c and userprog/process.c).

    The invariant [TI] is stated on a view of the kernel state in which the
    queues are left out: the stacks [σ], the children and return values of the
    threads, the values of the semaphores, the lock holders, the condition
    variables.  A lock whose semaphore is 0 has one owner: its holder, or the
    thread about to set or having just cleared [holder].  A thread's [sema_elim]
    is 0 exactly as long as somebody has the duty to raise it: the parent that
    has the thread among its children, or the one about to call [sema_up]; the
    thread may die once the duty has come back to it. *)

From S2P Require Import Prelude KList KListAlgo FixedPoint Thread Synch Sched.

(** * Kernel stacks *)

(** the semaphores a frame of thread [t] may be about to raise *)
Definition up_ok (t : Z) (s : sema_id) : Prop :=
  match s with SemaLock _ | SemaElim _ => True | SemaLoad u => u = t | _ => False end.

(** what a thread may have left to do when interrupts are on *)
Inductive core (t : Z) : list frame → Prop :=
| core_nil : core t []
| core_up s fs : up_ok t s → core t fs → core t (FSemaUp s :: fs)
| core_user n : core t [FSemaDown (SemaUser n)]
| core_holder l : core t [FSetHolder l]
| core_reacquired l : core t [FSetHolder l; FCondReturn]
| core_acquire l : core t [FLockAcquire l; FCondReturn]
| core_wait l : core t [FSemaDown (SemaCond t); FLockAcquire l; FCondReturn]
| core_return : core t [FCondReturn]
| core_broadcast c l : core t [FBroadcast c l]
| core_find : core t [FExecFind]
| core_exec c : core t [FExec c]
| core_reap c : core t [FReap c]
| core_children : core t [FExitChildren]
| core_exitwait : core t [FExitWait]
| core_die : core t [FDie]
| core_idle n : core t [FIdle (SemaUser n)]
| core_idleloop : core t [FIdleLoop].

(** what follows [sema_down] on each kind of semaphore *)
Inductive loop (t : Z) : sema_id → list frame → Prop :=
| loop_lock l fs : core t (FSetHolder l :: fs) → loop t (SemaLock l) (FSetHolder l :: fs)
| loop_wait c : loop t (SemaWait c) [FReap c]
| loop_load c : loop t (SemaLoad c) [FExec c]
| loop_elim : loop t (SemaElim t) [FDie]
| loop_cond l : loop t (SemaCond t) [FLockAcquire l; FCondReturn]
| loop_user n : loop t (SemaUser n) [].

(** the stacks of thread [t] at an interrupt level *)
Inductive stack (t : Z) : bool → list frame → Prop :=
| stack_core fs : core t fs → stack t true fs
| stack_enable fs : core t fs → stack t false (FIntrEnable :: fs)
| stack_level fs : core t fs → stack t false (FSetLevel true :: fs)
| stack_yielded fs : core t fs → stack t false (FSetLevel false :: FIntrEnable :: fs)
| stack_loop s fs : loop t s fs → stack t false (FSemaLoop s true :: fs)
| stack_kthread fs : core t fs → stack t false (FKernelThread :: fs)
| stack_hlt : stack t false [FIdleHlt].

Create HintDb stacks.
#[export] Hint Constructors core loop stack : stacks.
#[export] Hint Extern 1 (up_ok _ _) => (simpl; done) : stacks.

Definition stacked (σ : gmap Z (list frame)) (cur : Z) (level : bool) : Prop :=
  ∀ t fs, σ !! t = Some fs → stack t (if decide (t = cur) then level else false) fs.

Lemma core_holder_inv t l fs : core t (FSetHolder l :: fs) → fs = [] ∨ fs = [FCondReturn].
Proof. inversion 1; auto. Qed.

(** the semaphore a frame refers to *)
Definition frame_sema (f : frame) : option sema_id :=
  match f with FSemaLoop s _ | FSemaDown s | FSemaUp s | FIdle s => Some s | _ => None end.

(** the frames of [t] refer to the semaphores of other threads in the parent-child
    protocol only *)
Definition own_sema (t : Z) (fs : list frame) (s : sema_id) : Prop :=
  match s with
  | SemaWait c => FReap c ∈ fs
  | SemaLoad c => c = t ∨ FExec c ∈ fs
  | SemaElim c => c = t ∨ FSemaUp (SemaElim c) ∈ fs
  | SemaCond u => u = t
  | _ => True
  end.

Lemma core_sema t fs f s : core t fs → f ∈ fs → frame_sema f = Some s → own_sema t fs s.
Proof.
  intros Hc Hf Hs. induction Hc as [|s' fs Hu Hc IH| | | | | | | | | | | | | | | ];
    try (repeat (apply elem_of_cons in Hf as [->|Hf]; [by simplify_eq/=|]); by apply elem_of_nil in Hf).
  apply elem_of_cons in Hf as [->|Hf].
  - simpl in Hs. simplify_eq. destruct s; simpl in *; try done; [by left|right; left].
  - specialize (IH Hf). destruct s; simpl in *; auto.
    + by right.
    + destruct IH as [?|?]; [by left|right; by right].
    + destruct IH as [?|?]; [by left|right; by right].
Qed.

Lemma loop_core t s fs : loop t s fs → core t fs.
Proof. inversion 1; subst; eauto with stacks. Qed.

Lemma own_sema_cons t f fs s : own_sema t fs s → own_sema t (f :: fs) s.
Proof.
  destruct s; simpl; auto; [by right| |]; intros [?|?]; [by left|right; by right|by left|right; by right].
Qed.

Lemma loop_sema t s fs : loop t s fs → own_sema t fs s.
Proof. inversion 1; simpl; auto; [left|right; left]. Qed.

Lemma stack_sema t b fs f s : stack t b fs → f ∈ fs → frame_sema f = Some s → own_sema t fs s.
Proof.
  intros Hst Hf Hs. destruct Hst as [fs Hc|fs Hc|fs Hc|fs Hc|s' fs Hl|fs Hc| ];
    try by (eapply core_sema).
  - apply elem_of_cons in Hf as [->|Hf]; [done|]. apply own_sema_cons. by eapply core_sema.
  - apply elem_of_cons in Hf as [->|Hf]; [done|]. apply own_sema_cons. by eapply core_sema.
  - apply elem_of_cons in Hf as [->|Hf]; [done|]. apply elem_of_cons in Hf as [->|Hf]; [done|].
    do 2 apply own_sema_cons. by eapply core_sema.
  - apply own_sema_cons. apply elem_of_cons in Hf as [->|Hf].
    + simpl in Hs. simplify_eq. by apply loop_sema.
    + eapply core_sema; eauto using loop_core.
  - apply elem_of_cons in Hf as [->|Hf]; [done|]. apply own_sema_cons. by eapply core_sema.
  - apply elem_of_cons in Hf as [->|Hf]; [done|]. by apply elem_of_nil in Hf.
Qed.

(** * The view *)

Record ident := mk_ident { i_kids : list Z; i_tid : Z; i_ret : Z }.

Record view := mk_view {
  v_th : gmap Z ident;
  v_val : gmap sema_id Z;
  v_lock : gmap Z (option Z);
  v_cond : gmap Z (list sema_id);
  v_init : Z;
  v_idle : option Z;
  v_all : list Z;
  v_load : Z
}.

Definition ident_of (th : thread) : ident := mk_ident th.(child_tlist) th.(tid) th.(retval).

Definition view_of (k : kstate) : view :=
  mk_view (ident_of <$> k.(threads)) (value <$> k.(semas)) k.(locks) k.(conds)
    k.(initial_thread) k.(idle_thread) k.(all_list) k.(load_avg).

Definition frames_of (k : kstate) : gmap Z (list frame) := frames <$> k.(threads).

Definition kids (V : view) (t : Z) : list Z := from_option i_kids [] (V.(v_th) !! t).

(** * Permissions *)

Definition one (b : bool) : nat := if b then 1%nat else 0%nat.

Fixpoint count (c : Z) (l : list Z) : nat :=
  match l with [] => 0%nat | x :: r => (one (x =? c)%Z + count c r)%nat end.

(** the stack owns lock [l] without being its recorded holder *)
Fixpoint lock_tok (l : Z) (fs : list frame) : nat :=
  match fs with
  | [] | FSemaLoop _ _ :: _ => 0%nat
  | FSetHolder l' :: r | FSemaUp (SemaLock l') :: r => (one (l' =? l)%Z + lock_tok l r)%nat
  | _ :: r => lock_tok l r
  end.

(** the stack is about to raise [sema_elim] of [c] *)
Fixpoint ups (c : Z) (fs : list frame) : nat :=
  match fs with
  | [] => 0%nat
  | FSemaUp (SemaElim c') :: r => (one (c' =? c)%Z + ups c r)%nat
  | _ :: r => ups c r
  end.

(** the stack has got past [sema_down (&tc->sema_elim)] *)
Fixpoint die_tok (fs : list frame) : nat :=
  match fs with
  | [] | FSemaLoop _ _ :: _ => 0%nat
  | FDie :: _ => 1%nat
  | _ :: r => die_tok r
  end.

Definition lock_w (σ : gmap Z (list frame)) (h : option Z) (l t : Z) : nat :=
  (lock_tok l (σ !!! t) + one (bool_decide (h = Some t)))%nat.

Definition elim_w (σ : gmap Z (list frame)) (V : view) (c t : Z) : nat :=
  (count c (kids V t) + ups c (σ !!! t) + (if (t =? c)%Z then die_tok (σ !!! t) else 0))%nat.

(** a semaphore used as a permission: its value and the shares of the threads *)
Definition owned (n : Z) (w : Z → nat) : Prop :=
  n = 1 ∧ (∀ t, w t = 0%nat) ∨
  n = 0 ∧ ∃ t, w t = 1%nat ∧ ∀ u, u ≠ t → w u = 0%nat.

(** [t] has not yet got past the [sema_down] of [cond_wait] *)
Definition cond_waits (t : Z) (fs : list frame) : Prop :=
  FSemaDown (SemaCond t) ∈ fs ∨ ∃ b, FSemaLoop (SemaCond t) b ∈ fs.

Definition is_idle_frame (f : frame) : bool :=
  match f with FIdleLoop | FIdleHlt => true | _ => false end.
Definition is_boot_frame (f : frame) : bool := match f with FIdle _ => true | _ => false end.

(** what a frame of [t] relies on *)
Definition ref_ok (V : view) (t : Z) (f : frame) : Prop :=
  match f with
  | FSemaLoop s _ | FSemaDown s | FIdle s => is_Some (V.(v_val) !! s)
  | FSemaUp s => is_Some (V.(v_val) !! s) ∧
      match s with SemaLock l => is_Some (V.(v_lock) !! l) | _ => True end
  | FSetHolder l | FLockAcquire l => ∃ h, V.(v_lock) !! l = Some h ∧ h ≠ Some t
  | FBroadcast c l => V.(v_lock) !! l = Some (Some t) ∧ is_Some (V.(v_cond) !! c)
  | FExec c | FReap c => c ∈ kids V t
  | FExecFind => ∃ i, V.(v_th) !! t = Some i ∧
      (i.(i_ret) = TID_ERROR ∨ ∃ c j, c ∈ i.(i_kids) ∧ V.(v_th) !! c = Some j ∧ j.(i_tid) = i.(i_ret))
  | FExitWait | FDie => kids V t = []
  | FIdleLoop | FIdleHlt => V.(v_idle) = Some t
  | _ => True
  end.

Definition idle_ok (σ : gmap Z (list frame)) (V : view) : Prop :=
  match V.(v_idle) with
  | Some i => existsb is_idle_frame (σ !!! i) = true ∧ ∀ t, existsb is_boot_frame (σ !!! t) = false
  | None => ∃ i, existsb is_boot_frame (σ !!! i) = true ∧
      ∀ t, t ≠ i → existsb is_boot_frame (σ !!! t) = false
  end.

(** [struct thread] takes a page, and the kernel manages at most 64 MB of them
    (threads/loader.S, threads/start.S) *)
Definition MAX_THREADS : Z := 2 ^ 14.

Record TI (σ : gmap Z (list frame)) (V : view) : Prop := {
  ti_dom : ∀ t, is_Some (σ !! t) ↔ is_Some (V.(v_th) !! t);
  ti_refs : ∀ t fs f, σ !! t = Some fs → f ∈ fs → ref_ok V t f;
  ti_lock : ∀ l h, V.(v_lock) !! l = Some h → ∃ n, V.(v_val) !! SemaLock l = Some n ∧
    owned n (lock_w σ h l);
  ti_elim : ∀ c, is_Some (V.(v_th) !! c) → ∃ n, V.(v_val) !! SemaElim c = Some n ∧
    if decide (c = V.(v_init)) then n = 0 ∧ ∀ t, elim_w σ V c t = 0%nat
    else owned n (elim_w σ V c);
  ti_child : ∀ c t, elim_w σ V c t ≠ 0%nat → is_Some (V.(v_th) !! c);
  ti_cond : ∀ c ws s, V.(v_cond) !! c = Some ws → s ∈ ws →
    NoDup ws ∧ V.(v_val) !! s = Some 0 ∧
    (∃ t, s = SemaCond t ∧ cond_waits t (σ !!! t)) ∧
    ∀ c' ws', V.(v_cond) !! c' = Some ws' → s ∈ ws' → c' = c;
  ti_idle : idle_ok σ V;
  ti_semas : ∀ t, is_Some (V.(v_th) !! t) →
    is_Some (V.(v_val) !! SemaWait t) ∧ is_Some (V.(v_val) !! SemaLoad t);
  ti_nosemas : ∀ t, V.(v_th) !! t = None → V.(v_val) !! SemaWait t = None ∧
    V.(v_val) !! SemaLoad t = None ∧ V.(v_val) !! SemaElim t = None;
  ti_init : is_Some (V.(v_th) !! V.(v_init));
  ti_all : NoDup V.(v_all) ∧ ∀ t, t ∈ V.(v_all) ↔ is_Some (V.(v_th) !! t);
  ti_load : 0 ≤ V.(v_load) ≤ 2 ^ 28 ∧ Z.of_nat (length V.(v_all)) ≤ MAX_THREADS
}.

(** * Lemmas on permissions *)

Lemma owned_ext n w w' : (∀ t, w' t = w t) → owned n w → owned n w'.
Proof.
  intros He [[-> Hw]|(-> & t & Ht & Hw)]; [left|right; split; [done|exists t]].
  - split; [done|]. intros t. by rewrite He.
  - rewrite He. split; [done|]. intros u Hu. rewrite He. auto.
Qed.

(** a share is put back *)
Lemma owned_give n w w' t : owned n w → w t ≠ 0%nat → w' t = 0%nat → (∀ u, u ≠ t → w' u = w u) →
  n = 0 ∧ w t = 1%nat ∧ owned 1 w'.
Proof.
  intros [[-> Hw]|(-> & o & Ho & Hw)] Ht Ht' He; [by destruct Ht|].
  assert (o = t) as -> by (destruct (decide (t = o)); [done|by destruct Ht; auto]).
  split_and!; [done..|]. left. split; [done|]. intros u.
  destruct (decide (u = t)) as [->|]; [done|]. rewrite He; auto.
Qed.

(** the share of a positive semaphore is taken *)
Lemma owned_take n w w' t : owned n w → n ≠ 0 → w' t = S (w t) → (∀ u, u ≠ t → w' u = w u) →
  n = 1 ∧ owned 0 w'.
Proof.
  intros [[-> Hw]|(-> & o & Ho & Hw)] Hn Ht He; [|done]. split; [done|].
  right. split; [done|]. exists t. rewrite Ht, Hw. split; [done|]. intros u Hu. by rewrite He, Hw.
Qed.

(** the owner is unique *)
Lemma owned_unique n w t u : owned n w → w t ≠ 0%nat → w u ≠ 0%nat → u = t.
Proof.
  intros [[-> Hw]|(-> & o & Ho & Hw)] Ht Hu; [by destruct Ht|].
  destruct (decide (t = o)) as [->|]; [|by destruct Ht; auto].
  destruct (decide (u = o)) as [->|]; [done|by destruct Hu; auto].
Qed.

Lemma owned_le n w t : owned n w → (w t ≤ 1)%nat.
Proof.
  intros [[-> Hw]|(-> & o & Ho & Hw)]; [rewrite Hw; lia|].
  destruct (decide (t = o)) as [->|]; [lia|]. rewrite Hw by done. lia.
Qed.

Lemma count_app c l1 l2 : count c (l1 ++ l2) = (count c l1 + count c l2)%nat.
Proof. induction l1; simpl; lia. Qed.

Lemma count_elem c l : (count c l ≠ 0)%nat ↔ c ∈ l.
Proof.
  induction l as [|x l IH]; simpl; [by rewrite elem_of_nil|].
  rewrite elem_of_cons, <- IH. unfold one. destruct (Z.eqb_spec x c); split; naive_solver lia.
Qed.

Lemma count_filter c d l :
  count c (filter (λ x, x ≠ d) l) = if decide (c = d) then 0%nat else count c l.
Proof.
  induction l as [|x l IH]; simpl; [by destruct (decide _)|].
  rewrite filter_cons. destruct (decide (x ≠ d)); simpl; rewrite IH; clear IH;
    destruct (decide (c = d)); unfold one; destruct (Z.eqb_spec x c); subst; done.
Qed.

(** * Changing the stack of one thread *)

Section change.
Context (σ : gmap Z (list frame)) (V V' : view) (t : Z) (v v' : list frame).
Context (HT : TI σ V) (Hv : σ !! t = Some v).

Lemma total_insert u : (<[t := v']> σ) !!! u = if decide (u = t) then v' else σ !!! u.
Proof using.
  destruct (decide (u = t)) as [->|]; [by rewrite lookup_total_insert_eq|by rewrite lookup_total_insert_ne].
Qed.

Lemma total_here : σ !!! t = v.
Proof using Hv. by apply lookup_total_correct. Qed.

Lemma dom_insert u : is_Some ((<[t := v']> σ) !! u) ↔ is_Some (σ !! u).
Proof using Hv.
  destruct (decide (u = t)) as [->|]; [rewrite lookup_insert_eq, Hv|rewrite lookup_insert_ne by done]; naive_solver.
Qed.

Lemma refs_change :
  (∀ f, f ∈ v' → f ∈ v ∧ (ref_ok V t f → ref_ok V' t f) ∨ ref_ok V' t f) →
  (∀ u fs f, u ≠ t → σ !! u = Some fs → f ∈ fs → ref_ok V u f → ref_ok V' u f) →
  ∀ u fs f, (<[t := v']> σ) !! u = Some fs → f ∈ fs → ref_ok V' u f.
Proof using HT Hv.
  intros H1 H2 u fs f. destruct (decide (u = t)) as [->|Hne].
  - rewrite lookup_insert_eq. intros [= <-] Hf. destruct (H1 f Hf) as [[Hin Hr]|]; [|done].
    apply Hr. by eapply ti_refs.
  - rewrite lookup_insert_ne by done. intros Hu Hf. eapply H2; eauto. by eapply ti_refs.
Qed.

Lemma lock_w_change h l u : lock_tok l v' = lock_tok l v →
  lock_w (<[t := v']> σ) h l u = lock_w σ h l u.
Proof using Hv.
  intros He. unfold lock_w. rewrite total_insert. destruct (decide (u = t)) as [->|]; [|done].
  by rewrite He, total_here.
Qed.

Lemma locks_same : V'.(v_lock) = V.(v_lock) →
  (∀ l, V'.(v_val) !! SemaLock l = V.(v_val) !! SemaLock l) →
  (∀ l, lock_tok l v' = lock_tok l v) →
  ∀ l h, V'.(v_lock) !! l = Some h → ∃ n, V'.(v_val) !! SemaLock l = Some n ∧
    owned n (lock_w (<[t := v']> σ) h l).
Proof using HT Hv.
  intros El Ev Et l h. rewrite El, Ev. intros Hl. destruct (ti_lock _ _ HT l h Hl) as (n & Hn & Ho).
  exists n. split; [done|]. eapply owned_ext; [|exact Ho]. intros u. by apply lock_w_change.
Qed.

Lemma elim_w_change c u :
  (count c (kids V' t) + ups c v' + (if (t =? c)%Z then die_tok v' else 0) =
   count c (kids V t) + ups c v + (if (t =? c)%Z then die_tok v else 0))%nat →
  (u ≠ t → kids V' u = kids V u) →
  elim_w (<[t := v']> σ) V' c u = elim_w σ V c u.
Proof using Hv.
  intros He Hk. unfold elim_w. rewrite total_insert.
  destruct (decide (u = t)) as [->|Hne]; [by rewrite total_here|]. by rewrite Hk.
Qed.

Lemma elims_same :
  (∀ c, is_Some (V'.(v_th) !! c) ↔ is_Some (V.(v_th) !! c)) → V'.(v_init) = V.(v_init) →
  (∀ c, V'.(v_val) !! SemaElim c = V.(v_val) !! SemaElim c) →
  (∀ c, (count c (kids V' t) + ups c v' + (if (t =? c)%Z then die_tok v' else 0) =
     count c (kids V t) + ups c v + (if (t =? c)%Z then die_tok v else 0))%nat) →
  (∀ u, u ≠ t → kids V' u = kids V u) →
  (∀ c, is_Some (V'.(v_th) !! c) → ∃ n, V'.(v_val) !! SemaElim c = Some n ∧
    if decide (c = V'.(v_init)) then n = 0 ∧ ∀ u, elim_w (<[t := v']> σ) V' c u = 0%nat
    else owned n (elim_w (<[t := v']> σ) V' c)) ∧
  (∀ c u, elim_w (<[t := v']> σ) V' c u ≠ 0%nat → is_Some (V'.(v_th) !! c)).
Proof using HT Hv.
  intros Ed Ei Ev He Hk.
  assert (Hw : ∀ c u, elim_w (<[t := v']> σ) V' c u = elim_w σ V c u) by (intros; by apply elim_w_change; auto).
  split.
  - intros c. rewrite Ed, Ev, Ei. intros Hc. destruct (ti_elim _ _ HT c Hc) as (n & Hn & Ho).
    exists n. split; [done|]. destruct (decide _).
    + destruct Ho as [-> Ho]. split; [done|]. intros u. by rewrite Hw.
    + eapply owned_ext; [|exact Ho]. auto.
  - intros c u. rewrite Hw, Ed. apply (ti_child _ _ HT).
Qed.

Lemma conds_same : V'.(v_cond) = V.(v_cond) →
  (∀ u, V.(v_val) !! SemaCond u = Some 0 → V'.(v_val) !! SemaCond u = Some 0 ∨
     u = t ∧ ¬ cond_waits t v) →
  (cond_waits t v → cond_waits t v' ∨ V.(v_val) !! SemaCond t ≠ Some 0) →
  ∀ c ws s, V'.(v_cond) !! c = Some ws → s ∈ ws →
    NoDup ws ∧ V'.(v_val) !! s = Some 0 ∧
    (∃ u, s = SemaCond u ∧ cond_waits u ((<[t := v']> σ) !!! u)) ∧
    ∀ c' ws', V'.(v_cond) !! c' = Some ws' → s ∈ ws' → c' = c.
Proof using HT Hv.
  intros Ec Ev Ew c ws s. rewrite Ec. intros Hc Hs.
  destruct (ti_cond _ _ HT c ws s Hc Hs) as (Hnd & Hz & (u & -> & Hu) & Huniq).
  split_and!; [done| | |done].
  - destruct (Ev u Hz) as [?|[-> Hn]]; [done|]. destruct Hn. by rewrite total_here in Hu.
  - exists u. split; [done|]. rewrite total_insert. destruct (decide (u = t)) as [->|]; [|done].
    rewrite total_here in Hu. destruct (Ew Hu); done.
Qed.

Lemma idle_same : V'.(v_idle) = V.(v_idle) →
  existsb is_idle_frame v' = existsb is_idle_frame v →
  existsb is_boot_frame v' = existsb is_boot_frame v →
  idle_ok (<[t := v']> σ) V'.
Proof using HT Hv.
  intros Ei Em Eb. pose proof (ti_idle _ _ HT) as Hi. unfold idle_ok in *. rewrite Ei.
  assert (Hb : ∀ u, existsb is_boot_frame ((<[t := v']> σ) !!! u) = existsb is_boot_frame (σ !!! u)).
  { intros u. rewrite total_insert. destruct (decide (u = t)) as [->|]; [by rewrite Eb, total_here|done]. }
  destruct (v_idle V) as [i|].
  - destruct Hi as [Hi Hn]. split; [|intros u; by rewrite Hb].
    rewrite total_insert. destruct (decide (i = t)) as [->|]; [|done]. by rewrite Em, <- total_here.
  - destruct Hi as (i & Hi & Hn). exists i. rewrite Hb. split; [done|]. intros u Hu. rewrite Hb. auto.
Qed.
End change.

(** * Steps on the view *)

Definition upd_val (s : sema_id) (n : Z) (V : view) : view :=
  mk_view V.(v_th) (<[s := n]> V.(v_val)) V.(v_lock) V.(v_cond) V.(v_init) V.(v_idle) V.(v_all) V.(v_load).
Definition del_val (s : sema_id) (V : view) : view :=
  mk_view V.(v_th) (delete s V.(v_val)) V.(v_lock) V.(v_cond) V.(v_init) V.(v_idle) V.(v_all) V.(v_load).
Definition upd_holder (l : Z) (h : option Z) (V : view) : view :=
  mk_view V.(v_th) V.(v_val) (<[l := h]> V.(v_lock)) V.(v_cond) V.(v_init) V.(v_idle) V.(v_all) V.(v_load).
Definition upd_cond (c : Z) (ws : list sema_id) (V : view) : view :=
  mk_view V.(v_th) V.(v_val) V.(v_lock) (<[c := ws]> V.(v_cond)) V.(v_init) V.(v_idle) V.(v_all) V.(v_load).
Definition upd_ident (t : Z) (i : ident) (V : view) : view :=
  mk_view (<[t := i]> V.(v_th)) V.(v_val) V.(v_lock) V.(v_cond) V.(v_init) V.(v_idle) V.(v_all) V.(v_load).
Definition upd_idle (o : option Z) (V : view) : view :=
  mk_view V.(v_th) V.(v_val) V.(v_lock) V.(v_cond) V.(v_init) o V.(v_all) V.(v_load).

Lemma ref_ok_upd_val V s n t f : ref_ok V t f → ref_ok (upd_val s n V) t f.
Proof.
  assert (H : ∀ s', is_Some (v_val V !! s') → is_Some (<[s := n]> (v_val V) !! s')).
  { intros s' ?. destruct (decide (s' = s)) as [->|]; simplify_map_eq; eauto. }
  destruct f; simpl; auto. intros []; auto.
Qed.

Lemma upd_holder_id V l h : V.(v_lock) !! l = Some h → upd_holder l h V = V.
Proof. intros Hl. destruct V; unfold upd_holder; simpl in *. by rewrite insert_id. Qed.

Lemma ref_ok_holder V l h h' u f : V.(v_lock) !! l = Some h → h ≠ Some u → h' ≠ Some u →
  ref_ok V u f → ref_ok (upd_holder l h' V) u f.
Proof.
  intros Hl H1 H2. destruct f; simpl; auto.
  - intros [? Hs]. split; [done|]. destruct s; auto.
    destruct (decide (l = l0)) as [->|]; simplify_map_eq; eauto.
  - intros (h0 & ? & ?). destruct (decide (l0 = l)) as [->|]; simplify_map_eq; eauto.
  - intros (h0 & ? & ?). destruct (decide (l0 = l)) as [->|]; simplify_map_eq; eauto.
  - intros [Hb ?]. split; [|done]. destruct (decide (l0 = l)) as [->|]; simplify_map_eq; eauto.
Qed.

Lemma semas_upd_val σ V s n : TI σ V → is_Some (V.(v_val) !! s) →
  (∀ t, is_Some (V.(v_th) !! t) →
     is_Some ((upd_val s n V).(v_val) !! SemaWait t) ∧ is_Some ((upd_val s n V).(v_val) !! SemaLoad t)) ∧
  (∀ t, V.(v_th) !! t = None → (upd_val s n V).(v_val) !! SemaWait t = None ∧
     (upd_val s n V).(v_val) !! SemaLoad t = None ∧ (upd_val s n V).(v_val) !! SemaElim t = None).
Proof.
  intros HT Hs. simpl. split.
  - intros t Ht. destruct (ti_semas _ _ HT t Ht).
    split; (destruct (decide (s = SemaWait t)); destruct (decide (s = SemaLoad t)); simplify_map_eq; eauto).
  - intros t Ht. destruct (ti_nosemas _ _ HT t Ht) as (?&?&?).
    destruct Hs as [m Hs]. split_and!; rewrite lookup_insert_ne; auto; congruence.
Qed.

(** Shows that a given stack does not wait in [cond_wait]. *)
Ltac no_waits := intros [?H|[?b ?H]];
  repeat match goal with
  | H : _ ∈ _ :: _ |- _ => apply elem_of_cons in H as [?|H]; [done|]
  | H : _ ∈ [] |- _ => by apply elem_of_nil in H
  end.

(** two stacks with the same permissions *)
Definition marks_eq (v v' : list frame) : Prop :=
  (∀ l, lock_tok l v' = lock_tok l v) ∧ (∀ c, ups c v' = ups c v) ∧ die_tok v' = die_tok v ∧
  existsb is_idle_frame v' = existsb is_idle_frame v ∧
  existsb is_boot_frame v' = existsb is_boot_frame v.

Section steps.
Context (σ : gmap Z (list frame)) (V : view) (t : Z) (v : list frame).
Context (HT : TI σ V) (Hv : σ !! t = Some v).

(** the stack changes, its permissions do not *)
Lemma TI_stack v' : marks_eq v v' →
  (cond_waits t v → cond_waits t v' ∨ V.(v_val) !! SemaCond t ≠ Some 0) →
  (∀ f, f ∈ v' → f ∈ v ∨ ref_ok V t f) →
  TI (<[t := v']> σ) V.
Proof using HT Hv.
  intros (Hl & Hu & Hd & Hi & Hb) Hc Hr.
  edestruct (elims_same σ V V t v v') as [He1 He2]; eauto.
  { intros c. by rewrite Hu, Hd. }
  split; eauto; try exact (ti_init _ _ HT); try exact (ti_load _ _ HT); try apply HT.
  - intros u. rewrite (dom_insert σ t v v' Hv). apply HT.
  - eapply (refs_change σ V V t v v'); eauto. intros f Hf. destruct (Hr f Hf); auto.
  - eapply (locks_same σ V V t v v'); eauto.
  - eapply (conds_same σ V V t v v'); eauto.
  - eapply (idle_same σ V V t v v'); eauto.
Qed.

(** a semaphore that is no permission changes its value *)
Lemma TI_val s n n' : V.(v_val) !! s = Some n →
  match s with SemaLock _ | SemaElim _ | SemaCond _ => False | _ => True end →
  TI σ (upd_val s n' V).
Proof using HT Hv.
  intros Hs Hk. rewrite <- (insert_id σ t v Hv).
  destruct (semas_upd_val σ V s n' HT) as [Hs1 Hs2]; [eauto|].
  edestruct (elims_same σ V (upd_val s n' V) t v v) as [He1 He2]; eauto; simpl.
  { intros c. destruct s; try done; by rewrite lookup_insert_ne. }
  split; eauto; try exact (ti_init _ _ HT); try exact (ti_load _ _ HT); try apply HT.
  - intros u. rewrite (dom_insert σ t v v Hv). apply HT.
  - eapply (refs_change σ V (upd_val s n' V) t v v); eauto using ref_ok_upd_val.
  - eapply (locks_same σ V (upd_val s n' V) t v v); eauto. simpl.
    intros l. destruct s; try done; by rewrite lookup_insert_ne.
  - eapply (conds_same σ V (upd_val s n' V) t v v); eauto. simpl. intros u Hu. left.
    by rewrite lookup_insert_ne by (by intros ->).
  - eapply (idle_same σ V (upd_val s n' V) t v v); eauto.
Qed.

(** ** Locks *)

(** the stack [v'] after a step of [t] that moves its share of lock [l] *)
Lemma TI_lock v' l h n h' n' :
  V.(v_lock) !! l = Some h → V.(v_val) !! SemaLock l = Some n →
  (owned n (lock_w σ h l) → owned n' (lock_w (<[t := v']> σ) h' l)) →
  (∀ l', l' ≠ l → lock_tok l' v' = lock_tok l' v) →
  (∀ c, ups c v' = ups c v) → die_tok v' = die_tok v → (cond_waits t v → cond_waits t v') →
  existsb is_idle_frame v' = existsb is_idle_frame v →
  existsb is_boot_frame v' = existsb is_boot_frame v →
  let V' := upd_holder l h' (upd_val (SemaLock l) n' V) in
  (∀ f, f ∈ v' → f ∈ v ∧ (ref_ok V t f → ref_ok V' t f) ∨ ref_ok V' t f) →
  (∀ u fs f, u ≠ t → σ !! u = Some fs → f ∈ fs → ref_ok V u f → ref_ok V' u f) →
  TI (<[t := v']> σ) V'.
Proof using HT Hv.
  intros Hl Hn Ho Hother Hu Hd Hc Hi Hb V' Hr1 Hr2.
  destruct (semas_upd_val σ V (SemaLock l) n' HT) as [Hs1 Hs2]; [eauto|].
  destruct (elims_same σ V V' t v v') as [He1 He2]; [done..| | |done|].
  { intros c. unfold V'. simpl. by rewrite lookup_insert_ne. }
  { intros c. by rewrite Hu, Hd. }
  split; eauto; try exact (ti_init _ _ HT); try exact (ti_load _ _ HT); try apply HT.
  - intros u. rewrite (dom_insert σ t v v' Hv). apply HT.
  - eapply (refs_change σ V V' t v v'); eauto.
  - intros l' h0. destruct (decide (l' = l)) as [->|Hne]; simpl; simplify_map_eq.
    + intros [= <-]. exists n'. split; [done|]. destruct (ti_lock _ _ HT l h Hl) as (m & Hm & Ho').
      apply Ho. by assert (m = n) as -> by congruence.
    + intros Hl'. destruct (ti_lock _ _ HT l' h0 Hl') as (m & Hm & Ho'). exists m.
      rewrite lookup_insert_ne by congruence. split; [done|].
      eapply owned_ext; [|exact Ho']. intros u. eapply lock_w_change; eauto.
  - eapply (conds_same σ V V' t v v'); eauto. intros u Hz. left. unfold V'; simpl.
    by rewrite lookup_insert_ne.
  - eapply (idle_same σ V V' t v v'); eauto.
Qed.

Lemma lock_w_here v' h l : lock_w (<[t := v']> σ) h l t = (lock_tok l v' + one (bool_decide (h = Some t)))%nat.
Proof using. unfold lock_w. by rewrite total_insert, decide_True. Qed.

Lemma lock_w_there v' h h' l u : u ≠ t → (h = Some u ↔ h' = Some u) →
  lock_w (<[t := v']> σ) h' l u = lock_w σ h l u.
Proof using.
  intros Hne He. unfold lock_w. rewrite total_insert, decide_False by done. f_equal. f_equal.
  by apply bool_decide_ext.
Qed.

Lemma lock_w_old h l : lock_w σ h l t = (lock_tok l v + one (bool_decide (h = Some t)))%nat.
Proof using Hv. unfold lock_w. by rewrite (total_here σ t v Hv). Qed.
End steps.

Section lock_steps.
Context (σ : gmap Z (list frame)) (V : view) (t : Z) (HT : TI σ V).

(** [sema_up (&lock->semaphore)] *)
Lemma TI_up_lock l n fs : σ !! t = Some (FSemaUp (SemaLock l) :: fs) → V.(v_val) !! SemaLock l = Some n →
  TI (<[t := fs]> σ) (upd_val (SemaLock l) (u32 (n + 1)) V).
Proof using HT.
  intros Hv Hn. destruct (ti_refs _ _ HT t _ _ Hv (elem_of_here _ _)) as [_ [h Hl]].
  rewrite <- (upd_holder_id (upd_val _ _ V) l h Hl).
  apply (TI_lock σ V t _ HT Hv _ l h n); try done.
  - intros Ho. destruct (owned_give n _ (lock_w (<[t := fs]> σ) h l) t Ho) as (-> & _ & H); [..|done].
    + rewrite (lock_w_old _ _ _ Hv). simpl. rewrite Z.eqb_refl. simpl. lia.
    + pose proof (owned_le _ _ t Ho) as Hle. rewrite (lock_w_old _ _ _ Hv) in Hle. rewrite lock_w_here.
      simpl in Hle. rewrite Z.eqb_refl in Hle. simpl in Hle. lia.
    + intros u Hu. by apply lock_w_there.
  - intros l' Hne. simpl. by destruct (Z.eqb_spec l l').
  - intros [H|[b H]]; apply elem_of_cons in H as [?|?]; [done| |done|]; [left|right]; eauto.
  - intros f Hf. left. split; [by right|]. rewrite upd_holder_id by done. apply ref_ok_upd_val.
  - intros u gs f _ _ _. rewrite upd_holder_id by done. apply ref_ok_upd_val.
Qed.

(** [lock_acquire] gets past [sema_down] *)
Lemma TI_pass_lock l n fs : σ !! t = Some (FSemaLoop (SemaLock l) true :: FSetHolder l :: fs) →
  core t (FSetHolder l :: fs) → V.(v_val) !! SemaLock l = Some n → n ≠ 0 →
  TI (<[t := FSetHolder l :: fs]> σ) (upd_val (SemaLock l) (u32 (n - 1)) V).
Proof using HT.
  intros Hv Hcore Hn Hn0. apply core_holder_inv in Hcore.
  assert (Hfs : (∀ l', lock_tok l' fs = 0%nat) ∧ die_tok fs = 0%nat) by (by destruct Hcore as [->| ->]).
  destruct Hfs as [Hfs Hd].
  destruct (ti_refs _ _ HT t _ (FSetHolder l) Hv) as (h & Hl & Hne); [right; left|].
  rewrite <- (upd_holder_id (upd_val _ _ V) l h Hl).
  apply (TI_lock σ V t _ HT Hv _ l h n); try done.
  - intros Ho. destruct (owned_take n _ (lock_w (<[t := FSetHolder l :: fs]> σ) h l) t Ho Hn0) as (-> & H); [..|done].
    + rewrite (lock_w_old _ _ _ Hv), lock_w_here. simpl. rewrite Z.eqb_refl, Hfs. done.
    + intros u Hu. by apply lock_w_there.
  - intros l' Hl'. simpl. rewrite Hfs. by destruct (Z.eqb_spec l l').
  - intros [H|[b H]]; apply elem_of_cons in H as [?|?]; [done| |done|]; [left|right]; eauto.
  - intros f Hf. left. split; [by right|]. rewrite upd_holder_id by done. apply ref_ok_upd_val.
  - intros u gs f _ _ _. rewrite upd_holder_id by done. apply ref_ok_upd_val.
Qed.

Lemma upd_val_id s n : V.(v_val) !! s = Some n → upd_val s n V = V.
Proof using. intros Hs. clear HT. destruct V; unfold upd_val; simpl in *. by rewrite insert_id. Qed.

(** the thread about to set [holder] finds it clear *)
Lemma holder_none l h fs : σ !! t = Some (FSetHolder l :: fs) → V.(v_lock) !! l = Some h → h = None.
Proof using HT.
  intros Hv Hl. destruct (ti_lock _ _ HT l h Hl) as (n & Hn & Ho).
  assert (Ht : lock_w σ h l t ≠ 0%nat).
  { rewrite (lock_w_old _ _ _ Hv). simpl. rewrite Z.eqb_refl. simpl. lia. }
  destruct h as [u|]; [exfalso|done].
  assert (u = t) as ->.
  { eapply owned_unique; eauto. unfold lock_w. rewrite bool_decide_eq_true_2 by done. simpl. lia. }
  pose proof (owned_le _ _ t Ho) as Hle. rewrite (lock_w_old _ _ _ Hv) in Hle. simpl in Hle.
  rewrite Z.eqb_refl, bool_decide_eq_true_2 in Hle by done. simpl in Hle. lia.
Qed.

(** [lock->holder = thread_current ()] *)
Lemma TI_set_holder l fs : σ !! t = Some (FSetHolder l :: fs) → core t (FSetHolder l :: fs) →
  TI (<[t := fs]> σ) (upd_holder l (Some t) V).
Proof using HT.
  intros Hv Hcore. apply core_holder_inv in Hcore.
  assert (Hfs : (∀ l', lock_tok l' fs = 0%nat)) by (by destruct Hcore as [->| ->]).
  destruct (ti_refs _ _ HT t _ _ Hv (elem_of_here _ _)) as (h & Hl & Hne).
  assert (h = None) as -> by (by eapply holder_none).
  destruct (ti_lock _ _ HT l None Hl) as (n & Hn & _).
  rewrite <- (upd_val_id _ _ Hn) at 1.
  apply (TI_lock σ V t _ HT Hv _ l None n); try done.
  - apply owned_ext. intros u. destruct (decide (u = t)) as [->|Hu].
    + rewrite lock_w_here, (lock_w_old _ _ _ Hv), bool_decide_eq_true_2 by done.
      simpl. rewrite Z.eqb_refl, Hfs. done.
    + apply lock_w_there; naive_solver.
  - intros l' Hl'. simpl. by destruct (Z.eqb_spec l l').
  - intros [H|[b H]]; apply elem_of_cons in H as [?|?]; [done| |done|]; [left|right]; eauto.
  - intros f Hf. right. destruct Hcore as [->| ->]; [by apply elem_of_nil in Hf|].
    by apply list_elem_of_singleton in Hf as ->.
  - intros u gs f Hu _ _ Hr. rewrite upd_val_id by done. eapply ref_ok_holder; eauto; naive_solver.
Qed.

(** [lock_try_acquire] *)
Lemma TI_try_acquire l n : σ !! t = Some [] → V.(v_lock) !! l ≠ None →
  V.(v_val) !! SemaLock l = Some n → n ≠ 0 →
  TI σ (upd_holder l (Some t) (upd_val (SemaLock l) (u32 (n - 1)) V)).
Proof using HT.
  intros Hv Hl Hn Hn0. destruct (V.(v_lock) !! l) as [h|] eqn:El; [|done].
  destruct (ti_lock _ _ HT l h El) as (m & Hm & Ho). assert (m = n) as -> by congruence.
  assert (Hall : ∀ u, lock_w σ h l u = 0%nat) by (by destruct Ho as [[? ?]|[? ?]]).
  assert (h = None) as ->.
  { destruct h as [u|]; [|done]. specialize (Hall u). unfold lock_w in Hall.
    rewrite bool_decide_eq_true_2 in Hall by done. simpl in Hall. lia. }
  rewrite <- (insert_id σ t [] Hv).
  apply (TI_lock σ V t _ HT Hv _ l None n); try done.
  - intros Ho'. destruct (owned_take n _ (lock_w (<[t := []]> σ) (Some t) l) t Ho' Hn0) as (-> & H); [..|done].
    + rewrite lock_w_here, Hall, bool_decide_eq_true_2 by done. done.
    + intros u Hu. apply lock_w_there; naive_solver.
  - intros f Hf. by apply elem_of_nil in Hf.
  - intros u gs f Hu _ _ Hr. eapply ref_ok_holder; [exact El|done|naive_solver|]. by apply ref_ok_upd_val.
Qed.

(** [lock->holder = NULL], the rest of the release being on the stack *)
Lemma TI_release l v' : σ !! t = Some [] → V.(v_lock) !! l = Some (Some t) →
  (∀ l', lock_tok l' v' = one (l =? l')%Z) → (∀ c, ups c v' = 0%nat) → die_tok v' = 0%nat →
  existsb is_idle_frame v' = false → existsb is_boot_frame v' = false →
  (∀ f, f ∈ v' → ref_ok (upd_holder l None V) t f) →
  TI (<[t := v']> σ) (upd_holder l None V).
Proof using HT.
  intros Hv Hl Htok Hu Hd Hi Hb Hr. destruct (ti_lock _ _ HT l _ Hl) as (n & Hn & _).
  rewrite <- (upd_val_id _ _ Hn) at 1.
  apply (TI_lock σ V t _ HT Hv _ l (Some t) n); try done.
  - apply owned_ext. intros u. destruct (decide (u = t)) as [->|Hne].
    + rewrite lock_w_here, (lock_w_old _ _ _ Hv), Htok, Z.eqb_refl.
      by rewrite bool_decide_eq_false_2, bool_decide_eq_true_2.
    + apply lock_w_there; naive_solver.
  - intros l' Hl'. rewrite Htok. by destruct (Z.eqb_spec l l').
  - intros [H|[b H]]; by apply elem_of_nil in H.
  - intros f Hf. right. rewrite upd_val_id by done. auto.
  - intros u gs f Hne _ _ Hr'. rewrite upd_val_id by done. eapply ref_ok_holder; eauto. naive_solver.
Qed.
End lock_steps.

(** ** Parents and children *)

Lemma ref_ok_ident V t i i' u f : V.(v_th) !! t = Some i → i'.(i_tid) = i.(i_tid) → u ≠ t →
  ref_ok V u f → ref_ok (upd_ident t i' V) u f.
Proof.
  intros Ht Htid Hne.
  assert (Hk : kids (upd_ident t i' V) u = kids V u) by (unfold kids; simpl; by rewrite lookup_insert_ne).
  destruct f; simpl; rewrite ?Hk; auto.
  intros (j & Hj & Hr). exists j. rewrite lookup_insert_ne by done. split; [done|].
  destruct Hr as [?|(c & jc & ? & Hc & ?)]; [by left|right].
  destruct (decide (c = t)) as [->|]; [exists t, i'|exists c, jc].
  - rewrite lookup_insert_eq. split_and!; [done..|]. assert (jc = i) as -> by congruence. congruence.
  - by rewrite lookup_insert_ne.
Qed.

Section elim_steps.
Context (σ : gmap Z (list frame)) (V : view) (t : Z) (v : list frame) (i : ident).
Context (HT : TI σ V) (Hv : σ !! t = Some v) (Hi : V.(v_th) !! t = Some i).

Lemma kids_here : kids V t = i.(i_kids).
Proof using Hi. unfold kids. by rewrite Hi. Qed.

Lemma kids_upd i' u : kids (upd_ident t i' V) u = if decide (u = t) then i'.(i_kids) else kids V u.
Proof using.
  unfold kids; simpl. destruct (decide (u = t)) as [->|]; [by rewrite lookup_insert_eq|by rewrite lookup_insert_ne].
Qed.

Definition elim_here (c : Z) (ks : list Z) (fs : list frame) : nat :=
  (count c ks + ups c fs + (if (t =? c)%Z then die_tok fs else 0))%nat.

Lemma elim_w_old c : elim_w σ V c t = elim_here c i.(i_kids) v.
Proof using Hi Hv. unfold elim_w, elim_here. by rewrite (total_here σ t v Hv), kids_here. Qed.

Lemma elim_w_here c s n v' i' :
  elim_w (<[t := v']> σ) (upd_ident t i' (upd_val s n V)) c t = elim_here c i'.(i_kids) v'.
Proof using.
  unfold elim_w, elim_here. rewrite total_insert, decide_True by done.
  unfold kids; simpl. by rewrite lookup_insert_eq.
Qed.

Lemma elim_w_there c s n v' i' u : u ≠ t →
  elim_w (<[t := v']> σ) (upd_ident t i' (upd_val s n V)) c u = elim_w σ V c u.
Proof using.
  intros Hne. unfold elim_w. rewrite total_insert, decide_False by done.
  unfold kids; simpl. by rewrite lookup_insert_ne.
Qed.

(** the permission to die of [c] moves by a step of [t] *)
Lemma TI_elim v' i' c n n' :
  i'.(i_tid) = i.(i_tid) → is_Some (V.(v_th) !! c) → V.(v_val) !! SemaElim c = Some n → c ≠ V.(v_init) →
  let V' := upd_ident t i' (upd_val (SemaElim c) n' V) in
  (owned n (elim_w σ V c) → owned n' (elim_w (<[t := v']> σ) V' c)) →
  (∀ c', c' ≠ c → elim_here c' i'.(i_kids) v' = elim_here c' i.(i_kids) v) →
  (∀ l, lock_tok l v' = lock_tok l v) → (cond_waits t v → cond_waits t v') →
  existsb is_idle_frame v' = existsb is_idle_frame v →
  existsb is_boot_frame v' = existsb is_boot_frame v →
  (∀ f, f ∈ v' → ref_ok V' t f) →
  TI (<[t := v']> σ) V'.
Proof using All.
  intros Htid Hc Hn Hini V' Ho Hother Hl Hcw Him Hbm Hr.
  assert (Hdom : ∀ u, is_Some (v_th V' !! u) ↔ is_Some (v_th V !! u)).
  { intros u. simpl. destruct (decide (u = t)) as [->|]; simplify_map_eq; [|done].
    split; eauto. }
  assert (Hother' : ∀ c' u, c' ≠ c → elim_w (<[t := v']> σ) V' c' u = elim_w σ V c' u).
  { intros c' u Hne. destruct (decide (u = t)) as [->|]; [|by apply elim_w_there].
    unfold V'. rewrite elim_w_here, elim_w_old. auto. }
  destruct (semas_upd_val σ V (SemaElim c) n' HT) as [Hs1 Hs2]; [eauto|].
  split.
  - intros u. rewrite (dom_insert σ t v v' Hv), Hdom. apply HT.
  - eapply (refs_change σ V V' t v v'); eauto.
    intros u fs f Hne _ _ Hf. eapply ref_ok_ident; eauto. by apply ref_ok_upd_val.
  - eapply (locks_same σ V V' t v v'); eauto. intros l. simpl. by rewrite lookup_insert_ne.
  - intros c'. rewrite Hdom. intros Hc'. destruct (decide (c' = c)) as [->|Hne].
    + exists n'. simpl. rewrite lookup_insert_eq, decide_False by done. split; [done|]. apply Ho.
      destruct (ti_elim _ _ HT c Hc) as (m & Hm & Hm'). rewrite decide_False in Hm' by done. congruence.
    + destruct (ti_elim _ _ HT c' Hc') as (m & Hm & Hm'). exists m. simpl.
      rewrite lookup_insert_ne by congruence. split; [done|]. destruct (decide _).
      * destruct Hm' as [-> Hm']. split; [done|]. intros u. rewrite Hother'; auto.
      * eapply owned_ext; [|exact Hm']. auto.
  - intros c' u Hw. apply Hdom. destruct (decide (c' = c)) as [->|]; [done|].
    rewrite Hother' in Hw by done. by eapply ti_child.
  - eapply (conds_same σ V V' t v v'); eauto. intros u Hz. left. simpl. by rewrite lookup_insert_ne.
  - eapply (idle_same σ V V' t v v'); eauto.
  - intros u Hu. apply Hdom in Hu. by apply Hs1.
  - intros u Hu. apply Hs2. destruct (v_th V !! u) eqn:E; [|done].
    assert (is_Some (v_th V' !! u)) as [? ?]; [|congruence]. apply Hdom. eauto.
  - apply Hdom. exact (ti_init _ _ HT).
  - split; [apply HT|]. intros u. rewrite Hdom. apply HT.
  - exact (ti_load _ _ HT).
Qed.
End elim_steps.

Lemma upd_ident_id V t i : V.(v_th) !! t = Some i → upd_ident t i V = V.
Proof. intros Ht. destruct V; unfold upd_ident; simpl in *. by rewrite insert_id. Qed.

Lemma ti_ident σ V t v : TI σ V → σ !! t = Some v → ∃ i, V.(v_th) !! t = Some i.
Proof. intros HT Hv. apply (ti_dom _ _ HT). eauto. Qed.

(** a thread for which somebody has a duty exists and is not the initial one *)
Lemma elim_w_pos σ V c t n : TI σ V → elim_w σ V c t ≠ 0%nat → V.(v_val) !! SemaElim c = Some n →
  is_Some (V.(v_th) !! c) ∧ c ≠ V.(v_init) ∧ owned n (elim_w σ V c).
Proof.
  intros HT Hw Hn. pose proof (ti_child _ _ HT c t Hw) as Hc. split; [done|].
  destruct (ti_elim _ _ HT c Hc) as (m & Hm & Ho). assert (m = n) as -> by congruence.
  destruct (decide (c = v_init V)); [|done]. destruct Ho as [_ Ho]. by destruct Hw.
Qed.

Section elim_moves.
Context (σ : gmap Z (list frame)) (V : view) (t : Z) (i : ident) (HT : TI σ V).
Context (Hi : V.(v_th) !! t = Some i).

(** [sema_up (&child_thread->sema_elim)] in [process_wait] *)
Lemma TI_up_elim c n fs : σ !! t = Some (FSemaUp (SemaElim c) :: fs) →
  V.(v_val) !! SemaElim c = Some n → TI (<[t := fs]> σ) (upd_val (SemaElim c) (u32 (n + 1)) V).
Proof using All.
  intros Hv Hn.
  assert (Hw : elim_w σ V c t ≠ 0%nat).
  { rewrite (elim_w_old σ V t _ i Hv Hi). unfold elim_here. simpl. rewrite Z.eqb_refl. simpl. lia. }
  destruct (elim_w_pos σ V c t n HT Hw Hn) as (Hc & Hini & Ho0).
  rewrite <- (upd_ident_id (upd_val _ _ V) t i) by done.
  apply (TI_elim σ V t _ i HT Hv Hi fs i c n); try done.
  - intros Ho. destruct (owned_give n _ (elim_w (<[t := fs]> σ)
      (upd_ident t i (upd_val (SemaElim c) (u32 (n + 1)) V)) c) t Ho Hw) as (-> & _ & H); [..|done].
    + pose proof (owned_le _ _ t Ho) as Hle. rewrite (elim_w_old σ V t _ i Hv Hi) in Hle.
      rewrite elim_w_here. unfold elim_here in *. simpl in Hle. rewrite Z.eqb_refl in Hle.
      simpl in Hle. lia.
    + intros u Hu. by apply elim_w_there.
  - intros c' Hne. unfold elim_here. simpl. by destruct (Z.eqb_spec c c').
  - intros [H|[b H]]; apply elem_of_cons in H as [?|?]; [done| |done|]; [left|right]; eauto.
  - intros f Hf. rewrite upd_ident_id by done. apply ref_ok_upd_val. eapply ti_refs; eauto. by right.
Qed.

(** the same in [thread_exit], the child leaving the list *)
Lemma TI_exit_child c r n : σ !! t = Some [FExitChildren] → i.(i_kids) = c :: r →
  V.(v_val) !! SemaElim c = Some n →
  TI σ (upd_ident t (mk_ident r i.(i_tid) i.(i_ret)) (upd_val (SemaElim c) (u32 (n + 1)) V)).
Proof using All.
  intros Hv Hk Hn.
  assert (Hw : elim_w σ V c t ≠ 0%nat).
  { rewrite (elim_w_old σ V t _ i Hv Hi). unfold elim_here. rewrite Hk. simpl. rewrite Z.eqb_refl. simpl. lia. }
  destruct (elim_w_pos σ V c t n HT Hw Hn) as (Hc & Hini & Ho0).
  rewrite <- (insert_id σ t [FExitChildren] Hv).
  apply (TI_elim σ V t _ i HT Hv Hi _ _ c n); try done.
  - intros Ho. destruct (owned_give n _ (elim_w (<[t := [FExitChildren]]> σ)
      (upd_ident t (mk_ident r (i_tid i) (i_ret i)) (upd_val (SemaElim c) (u32 (n + 1)) V)) c) t Ho Hw)
      as (-> & _ & H); [..|done].
    + pose proof (owned_le _ _ t Ho) as Hle. rewrite (elim_w_old σ V t _ i Hv Hi) in Hle.
      rewrite elim_w_here. unfold elim_here in *. rewrite Hk in Hle. simpl in *.
      rewrite Z.eqb_refl in Hle. simpl in Hle. lia.
    + intros u Hu. by apply elim_w_there.
  - intros c' Hne. unfold elim_here. rewrite Hk. simpl. by destruct (Z.eqb_spec c c').
  - intros f Hf. by apply list_elem_of_singleton in Hf as ->.
Qed.

(** [thread_exit] gets past [sema_down (&tc->sema_elim)] *)
Lemma TI_pass_elim n : σ !! t = Some [FSemaLoop (SemaElim t) true; FDie] →
  V.(v_val) !! SemaElim t = Some n → n ≠ 0 →
  TI (<[t := [FDie]]> σ) (upd_val (SemaElim t) (u32 (n - 1)) V).
Proof using All.
  intros Hv Hn Hn0.
  assert (Hini : t ≠ v_init V).
  { intros E. destruct (ti_elim _ _ HT t) as (m & Hm & Hm'); [eauto|].
    rewrite decide_True in Hm' by done. destruct Hm' as [? _]. congruence. }
  assert (Hk : kids V t = []).
  { apply (ti_refs _ _ HT t _ FDie Hv). right. left. }
  rewrite <- (upd_ident_id (upd_val _ _ V) t i) by done.
  apply (TI_elim σ V t _ i HT Hv Hi _ i t n); try done; [eauto|..].
  - intros Ho. destruct (owned_take n _ (elim_w (<[t := [FDie]]> σ)
      (upd_ident t i (upd_val (SemaElim t) (u32 (n - 1)) V)) t) t Ho Hn0) as (-> & H); [..|done].
    + rewrite elim_w_here, (elim_w_old σ V t _ i Hv Hi). unfold elim_here. simpl.
      rewrite Z.eqb_refl. lia.
    + intros u Hu. by apply elim_w_there.
  - intros c' Hne. unfold elim_here. simpl. by destruct (Z.eqb_spec t c').
  - intros [H|[b H]]; repeat (apply elem_of_cons in H as [?|H]; [done|]); by apply elem_of_nil in H.
  - intros f Hf. apply list_elem_of_singleton in Hf as ->. rewrite upd_ident_id by done. done.
Qed.

(** [process_wait] takes the child off the list; raising [sema_elim] is next *)
Lemma TI_reap c ret : σ !! t = Some [FReap c] →
  TI (<[t := [FSemaUp (SemaElim c)]]> σ)
     (upd_ident t (mk_ident (filter (λ x, x ≠ c) i.(i_kids)) i.(i_tid) ret) V).
Proof using All.
  intros Hv. pose proof (ti_refs _ _ HT t _ _ Hv (elem_of_here _ _)) as Hr. simpl in Hr.
  rewrite (kids_here V t i Hi) in Hr. apply count_elem in Hr.
  assert (Hw : elim_w σ V c t ≠ 0%nat).
  { rewrite (elim_w_old σ V t _ i Hv Hi). unfold elim_here. lia. }
  pose proof (ti_child _ _ HT c t Hw) as Hc. destruct (ti_elim _ _ HT c Hc) as (n & Hn & _).
  destruct (elim_w_pos σ V c t n HT Hw Hn) as (_ & Hini & Ho0).
  rewrite <- (upd_val_id V _ _ Hn) at 1.
  apply (TI_elim σ V t _ i HT Hv Hi _ _ c n); try done.
  - apply owned_ext. intros u. destruct (decide (u = t)) as [->|Hu]; [|by apply elim_w_there].
    pose proof (owned_le _ _ t Ho0) as Hle. rewrite (elim_w_old σ V t _ i Hv Hi) in Hle.
    rewrite elim_w_here, (elim_w_old σ V t _ i Hv Hi). unfold elim_here in *; simpl in *.
    rewrite count_filter, decide_True, Z.eqb_refl by done. simpl. destruct (t =? c); lia.
  - intros c' Hne. unfold elim_here. simpl. rewrite count_filter, decide_False by done.
    by destruct (Z.eqb_spec c c').
  - intros [H|[b H]]; repeat (apply elem_of_cons in H as [?|H]; [done|]); by apply elem_of_nil in H.
  - intros f Hf. apply list_elem_of_singleton in Hf as ->. rewrite upd_val_id by done. simpl. eauto.
Qed.
End elim_moves.

(** ** Death of a thread *)

Definition del_thread (t : Z) (V : view) : view :=
  mk_view (delete t V.(v_th))
    (delete (SemaWait t) (delete (SemaLoad t) (delete (SemaElim t) V.(v_val))))
    V.(v_lock) V.(v_cond) V.(v_init) V.(v_idle) (filter (λ u, u ≠ t) V.(v_all)) V.(v_load).

Section die.
Context (σ : gmap Z (list frame)) (V : view) (t : Z) (b : bool) (HT : TI σ V).
Context (Hst : stacked σ t b) (Hv : σ !! t = Some [FDie]).

Lemma del_val_other s :
  s ≠ SemaWait t → s ≠ SemaLoad t → s ≠ SemaElim t →
  (del_thread t V).(v_val) !! s = V.(v_val) !! s.
Proof using. intros ???. simpl. by rewrite !lookup_delete_ne. Qed.

Lemma die_kids : kids V t = [].
Proof using HT Hv. apply (ti_refs _ _ HT t _ FDie Hv). left. Qed.

(** nobody else has anything to do with [t] *)
Lemma die_alone u : u ≠ t → elim_w σ V t u = 0%nat.
Proof using HT Hv.
  intros Hne. destruct (decide (elim_w σ V t u = 0%nat)) as [|Hw]; [done|exfalso].
  destruct (ti_ident _ _ _ _ HT Hv) as [i Hi].
  assert (Hw' : elim_w σ V t t ≠ 0%nat).
  { rewrite (elim_w_old σ V t _ i Hv Hi). unfold elim_here. simpl. rewrite Z.eqb_refl. lia. }
  destruct (ti_elim _ _ HT t) as (n & Hn & _); [eauto|].
  destruct (elim_w_pos σ V t t n HT Hw' Hn) as (_ & _ & Ho).
  apply Hne. by eapply owned_unique.
Qed.

Lemma die_not_init : t ≠ V.(v_init).
Proof using HT Hv.
  intros E. destruct (ti_ident _ _ _ _ HT Hv) as [i Hi].
  destruct (ti_elim _ _ HT t) as (n & _ & Ho); [eauto|]. rewrite decide_True in Ho by done.
  destruct Ho as [_ Ho]. specialize (Ho t). rewrite (elim_w_old σ V t _ i Hv Hi) in Ho.
  unfold elim_here in Ho. simpl in Ho. rewrite Z.eqb_refl in Ho. lia.
Qed.

Lemma die_not_child u c : u ≠ t → c ∈ kids V u → c ≠ t.
Proof using HT Hv.
  intros Hne Hc ->. apply count_elem in Hc. pose proof (die_alone u Hne) as Hw.
  unfold elim_w in Hw. lia.
Qed.

Lemma ups_elem c fs : (ups c fs ≠ 0)%nat ↔ FSemaUp (SemaElim c) ∈ fs.
Proof using.
  induction fs as [|f fs IH]; simpl; [by rewrite elem_of_nil|].
  rewrite elem_of_cons, <- IH. destruct f; try (split; [by right|by intros [?|?]]).
  destruct s; try (split; [by right|by intros [?|?]]).
  destruct (Z.eqb_spec t0 c) as [->|Hne]; simpl; [split; [by left|done]|].
  split; [by right|]. intros [[= ->]|?]; done.
Qed.

(** the frames of the other threads do not refer to its semaphores *)
Lemma die_sema u fs f s : u ≠ t → σ !! u = Some fs → f ∈ fs → frame_sema f = Some s →
  s ≠ SemaWait t ∧ s ≠ SemaLoad t ∧ s ≠ SemaElim t.
Proof using All.
  intros Hne Hu Hf Hfs.
  assert (Hsu : stack u false fs) by (pose proof (Hst u fs Hu) as H; by rewrite decide_False in H by congruence).
  pose proof (stack_sema _ _ _ _ _ Hsu Hf Hfs) as Ho.
  pose proof (die_alone u Hne) as Hw. unfold elim_w in Hw.
  rewrite (lookup_total_correct _ _ _ Hu) in Hw.
  split_and!; intros ->; simpl in Ho.
  - pose proof (ti_refs _ _ HT u fs _ Hu Ho) as Hr'. by eapply die_not_child.
  - destruct Ho as [?|Ho]; [by subst|]. pose proof (ti_refs _ _ HT u fs _ Hu Ho) as Hr'.
    by eapply die_not_child.
  - destruct Ho as [?|Ho]; [by subst|]. apply ups_elem in Ho. lia.
Qed.

Lemma die_refs u fs f : u ≠ t → σ !! u = Some fs → f ∈ fs → ref_ok (del_thread t V) u f.
Proof using All.
  intros Hne Hu Hf. pose proof (ti_refs _ _ HT u fs f Hu Hf) as Hr.
  assert (Hk : kids (del_thread t V) u = kids V u) by (unfold kids; simpl; by rewrite lookup_delete_ne).
  assert (Hs : ∀ s, frame_sema f = Some s → v_val (del_thread t V) !! s = v_val V !! s).
  { intros s Hfs. destruct (die_sema u fs f s Hne Hu Hf Hfs) as (?&?&?). by apply del_val_other. }
  destruct f; simpl in *; rewrite ?Hk; auto; try (rewrite Hs by done; done).
  destruct Hr as (i & Hi & Hr). exists i. rewrite lookup_delete_ne by done. split; [done|].
  destruct Hr as [?|(c & j & Hc & Hj & ?)]; [by left|right]. exists c, j.
  split; [done|]. rewrite lookup_delete_ne; [done|]. intros <-.
  apply (die_not_child u t); [done| |done]. unfold kids. by rewrite Hi.
Qed.

Lemma die_total u : (delete t σ) !!! u = if decide (u = t) then [] else σ !!! u.
Proof using.
  destruct (decide (u = t)) as [->|]; [by rewrite lookup_total_delete_eq|by rewrite lookup_total_delete_ne].
Qed.

Lemma die_elim_w c u :
  elim_w (delete t σ) (del_thread t V) c u = if decide (c = t) then 0%nat else elim_w σ V c u.
Proof using HT Hv.
  destruct (decide (u = t)) as [->|Hu].
  - unfold elim_w. rewrite die_total, decide_True by done. unfold kids at 1; simpl.
    rewrite lookup_delete_eq. simpl. rewrite (total_here σ t _ Hv), die_kids. simpl.
    destruct (decide (c = t)) as [->|]; [by destruct (t =? t)|].
    by destruct (Z.eqb_spec t c).
  - assert (elim_w (delete t σ) (del_thread t V) c u = elim_w σ V c u) as ->.
    { unfold elim_w. rewrite die_total, decide_False by done. unfold kids; simpl.
      by rewrite lookup_delete_ne. }
    destruct (decide (c = t)) as [->|]; [|done]. by apply die_alone.
Qed.

Lemma TI_die : TI (delete t σ) (del_thread t V).
Proof using All.
  assert (Hth : ∀ u, v_th (del_thread t V) !! u = if decide (u = t) then None else v_th V !! u).
  { intros u. simpl. destruct (decide (u = t)) as [->|]; [by rewrite lookup_delete_eq|by rewrite lookup_delete_ne]. }
  split.
  - intros u. rewrite Hth. destruct (decide (u = t)) as [->|].
    + rewrite lookup_delete_eq. split; by intros [? ?].
    + rewrite lookup_delete_ne by done. apply HT.
  - intros u fs f. destruct (decide (u = t)) as [->|]; [by rewrite lookup_delete_eq|].
    rewrite lookup_delete_ne by done. intros. by eapply die_refs.
  - intros l h Hl. destruct (ti_lock _ _ HT l h Hl) as (n & Hn & Ho). exists n.
    rewrite del_val_other by done. split; [done|]. eapply owned_ext; [|exact Ho].
    intros u. unfold lock_w. rewrite die_total. destruct (decide (u = t)) as [->|]; [|done].
    by rewrite (total_here σ t _ Hv).
  - intros c. rewrite Hth. destruct (decide (c = t)) as [->|Hne]; [by intros [? ?]|]. intros Hc.
    destruct (ti_elim _ _ HT c Hc) as (n & Hn & Ho). exists n.
    rewrite del_val_other by congruence. split; [done|].
    assert (Hw : ∀ u, elim_w (delete t σ) (del_thread t V) c u = elim_w σ V c u).
    { intros u. by rewrite die_elim_w, decide_False. }
    simpl. destruct (decide _).
    + destruct Ho as [-> Ho]. split; [done|]. intros u. by rewrite Hw.
    + eapply owned_ext; [|exact Ho]. done.
  - intros c u. rewrite die_elim_w, Hth. destruct (decide _); [done|]. apply (ti_child _ _ HT).
  - intros c ws s Hc Hs. destruct (ti_cond _ _ HT c ws s Hc Hs) as (Hnd & Hz & (u & -> & Hu) & Huniq).
    split_and!; [done|by rewrite del_val_other| |done]. exists u. split; [done|].
    rewrite die_total. destruct (decide (u = t)) as [->|]; [|done].
    rewrite (total_here σ t _ Hv) in Hu. destruct Hu as [Hu|[? Hu]]; by apply list_elem_of_singleton in Hu.
  - pose proof (ti_idle _ _ HT) as Hi. unfold idle_ok in *. simpl. destruct (v_idle V) as [i|].
    + destruct Hi as [Hi Hb]. split.
      * rewrite die_total. destruct (decide (i = t)) as [->|]; [|done]. by rewrite (total_here σ t _ Hv) in Hi.
      * intros u. rewrite die_total. by destruct (decide _).
    + destruct Hi as (i & Hi & Hb). exists i. split.
      * rewrite die_total. destruct (decide (i = t)) as [->|]; [|done]. by rewrite (total_here σ t _ Hv) in Hi.
      * intros u Hu. rewrite die_total. destruct (decide _); auto.
  - intros u. rewrite Hth. destruct (decide (u = t)) as [->|Hne]; [by intros [? ?]|]. intros Hu.
    rewrite !del_val_other by congruence. by apply HT.
  - intros u. rewrite Hth. destruct (decide (u = t)) as [->|Hne].
    + intros _. simpl. by simplify_map_eq.
    + intros Hu. rewrite !del_val_other by congruence. by apply HT.
  - rewrite Hth, decide_False; [exact (ti_init _ _ HT)|]. intros E. by destruct die_not_init.
  - simpl. split; [apply NoDup_filter, HT|]. intros u. rewrite list_elem_of_filter, (proj2 (ti_all _ _ HT)).
    pose proof (Hth u) as E. simpl in E. rewrite E. destruct (decide (u = t)) as [->|]; [|tauto].
    split; [by intros [? _]|by intros [? ?]].
  - simpl. destruct (ti_load _ _ HT) as [? ?]. split; [done|].
    pose proof (length_filter (λ u, u ≠ t) (v_all V)). lia.
Qed.
End die.

(** ** Birth of a thread *)

Definition add_thread (t p : Z) (i' : ident) (new_tid : Z) (V : view) : view :=
  mk_view (<[t := i']> (<[p := mk_ident [] new_tid 0]> V.(v_th)))
    (<[SemaElim p := 0]> (<[SemaLoad p := 0]> (<[SemaWait p := 0]> V.(v_val))))
    V.(v_lock) V.(v_cond) V.(v_init) V.(v_idle) (V.(v_all) ++ [p]) V.(v_load).

Section birth.
Context (σ : gmap Z (list frame)) (V : view) (t p : Z) (v : list frame) (i : ident) (tid0 : Z).
Context (HT : TI σ V) (Hv : σ !! t = Some v) (Hi : V.(v_th) !! t = Some i).
Context (Hp : V.(v_th) !! p = None) (Hnx : (FExitWait ∉ v) ∧ (FDie ∉ v)).
Context (Hmax : Z.of_nat (length V.(v_all)) < MAX_THREADS).

Let i' := mk_ident (i.(i_kids) ++ [p]) i.(i_tid) tid0.
Let V' := add_thread t p i' tid0 V.
Let σ' := <[p := [FKernelThread]]> σ.

Lemma birth_ne : t ≠ p.
Proof using Hi Hp. intros E. congruence. Qed.

Lemma birth_th u : V'.(v_th) !! u =
  if decide (u = t) then Some i' else if decide (u = p) then Some (mk_ident [] tid0 0) else V.(v_th) !! u.
Proof using All.
  simpl. destruct (decide (u = t)) as [->|]; [by rewrite lookup_insert_eq|rewrite lookup_insert_ne by done].
  destruct (decide (u = p)) as [->|]; [by rewrite lookup_insert_eq|by rewrite lookup_insert_ne].
Qed.

Lemma birth_dom u : is_Some (V'.(v_th) !! u) ↔ u = p ∨ is_Some (V.(v_th) !! u).
Proof using All.
  rewrite birth_th. destruct (decide (u = t)) as [->|]; [rewrite Hi; naive_solver|].
  destruct (decide (u = p)); naive_solver.
Qed.

Lemma birth_val s : s ≠ SemaWait p → s ≠ SemaLoad p → s ≠ SemaElim p → V'.(v_val) !! s = V.(v_val) !! s.
Proof using All. intros ???. simpl. by rewrite !lookup_insert_ne. Qed.

Lemma birth_total u : σ' !!! u = if decide (u = p) then [FKernelThread] else σ !!! u.
Proof using All.
  unfold σ'. destruct (decide (u = p)) as [->|]; [by rewrite lookup_total_insert_eq|by rewrite lookup_total_insert_ne].
Qed.

Lemma birth_absent : σ !!! p = [] ∧ kids V p = [] ∧ ∀ u, elim_w σ V p u = 0%nat.
Proof using All.
  split_and!.
  - rewrite lookup_total_alt. destruct (σ !! p) eqn:E; [|done].
    destruct (ti_ident _ _ _ _ HT E). congruence.
  - unfold kids. by rewrite Hp.
  - intros u. destruct (decide (elim_w σ V p u = 0%nat)) as [|H]; [done|].
    apply (ti_child _ _ HT) in H as [? ?]. congruence.
Qed.

Lemma birth_elim_w c u :
  elim_w σ' V' c u = (elim_w σ V c u + one (bool_decide (u = t ∧ c = p)))%nat.
Proof using All.
  destruct birth_absent as (Hs & Hk & _). pose proof birth_ne as Hne.
  assert (Hkids : kids V' u = if decide (u = t) then i_kids i ++ [p] else kids V u).
  { unfold kids. rewrite birth_th. destruct (decide (u = t)); [done|].
    destruct (decide (u = p)) as [->|]; [by rewrite Hp|done]. }
  assert (Hzero : elim_w σ' V' c p = elim_w σ V c p).
  { unfold elim_w. rewrite birth_total, decide_True by done. rewrite Hs, Hk.
    unfold kids. rewrite birth_th, decide_False, decide_True by done. simpl. by destruct (p =? c). }
  destruct (decide (u = p)) as [->|Hup].
  { rewrite Hzero, bool_decide_eq_false_2 by naive_solver. simpl. lia. }
  unfold elim_w. rewrite birth_total, decide_False by done. rewrite Hkids.
  destruct (decide (u = t)) as [->|].
  - rewrite count_app, (kids_here V t i Hi). simpl. unfold one. destruct (Z.eqb_spec p c) as [<-|].
    + rewrite bool_decide_eq_true_2 by done. lia.
    + rewrite bool_decide_eq_false_2 by naive_solver. lia.
  - rewrite bool_decide_eq_false_2 by naive_solver. simpl. lia.
Qed.

Lemma birth_refs u fs f : σ' !! u = Some fs → f ∈ fs → ref_ok V' u f.
Proof using All.
  pose proof birth_ne as Hne. unfold σ'. destruct (decide (u = p)) as [->|Hup].
  { rewrite lookup_insert_eq. intros [= <-] Hf. by apply list_elem_of_singleton in Hf as ->. }
  rewrite lookup_insert_ne by done. intros Hu Hf. pose proof (ti_refs _ _ HT u fs f Hu Hf) as Hr.
  assert (Hval : ∀ s, is_Some (v_val V !! s) → is_Some (v_val V' !! s)).
  { intros s Hs. destruct (decide (s = SemaWait p)); [subst|destruct (decide (s = SemaLoad p)); [subst|
      destruct (decide (s = SemaElim p)); [subst|by rewrite birth_val]]]; simpl; simplify_map_eq; eauto. }
  assert (Hkids : kids V' u = if decide (u = t) then i_kids i ++ [p] else kids V u).
  { unfold kids. rewrite birth_th. destruct (decide (u = t)); [done|]. by rewrite decide_False. }
  assert (Hsub : ∀ c, c ∈ kids V u → c ∈ kids V' u).
  { intros c Hc. rewrite Hkids. destruct (decide (u = t)) as [->|]; [|done].
    rewrite (kids_here V t i Hi) in Hc. apply elem_of_app. by left. }
  destruct f; simpl in *; eauto.
  - split; [apply Hval, Hr|apply Hr].
  - rewrite birth_th. destruct (decide (u = t)) as [->|].
    + exists i'. split; [done|right]. exists p, (mk_ident [] tid0 0). simpl.
      split_and!; [apply elem_of_app; right; left| |done].
      rewrite lookup_insert_ne by done. by rewrite lookup_insert_eq.
    + destruct Hr as (j & Hj & Hr). rewrite decide_False by done. exists j. split; [done|].
      destruct Hr as [?|(c & jc & Hc & Hjc & ?)]; [by left|right].
      pose proof (birth_th c) as E. simpl in E. destruct (decide (c = t)) as [->|].
      * exists t, i'. split_and!; [done|done|]. simpl. congruence.
      * exists c, jc. split_and!; [done| |done]. rewrite E, decide_False; [done|]. intros ->. congruence.
  - rewrite Hkids. destruct (decide (u = t)) as [->|]; [|done].
    assert (fs = v) as -> by congruence. by destruct Hnx.
  - rewrite Hkids. destruct (decide (u = t)) as [->|]; [|done].
    assert (fs = v) as -> by congruence. by destruct Hnx.
Qed.

Lemma birth_elims c : is_Some (V'.(v_th) !! c) → ∃ n, V'.(v_val) !! SemaElim c = Some n ∧
  if decide (c = V'.(v_init)) then n = 0 ∧ ∀ u, elim_w σ' V' c u = 0%nat
  else owned n (elim_w σ' V' c).
Proof using All.
  destruct birth_absent as (_ & _ & Hzero). intros Hc. apply birth_dom in Hc.
  destruct (decide (c = p)) as [->|Hcp].
  - exists 0. simpl. rewrite lookup_insert_eq. split; [done|]. rewrite decide_False.
    2:{ intros ->. destruct (ti_init _ _ HT). congruence. }
    right. split; [done|]. exists t. split; [|intros u Hu]; rewrite birth_elim_w, Hzero.
    + by rewrite bool_decide_eq_true_2.
    + rewrite bool_decide_eq_false_2; naive_solver.
  - destruct Hc as [?|Hc]; [done|]. destruct (ti_elim _ _ HT c Hc) as (n & Hn & Ho). exists n.
    rewrite birth_val by congruence. split; [done|]. simpl.
    assert (Hw : ∀ u, elim_w σ' V' c u = elim_w σ V c u).
    { intros u. rewrite birth_elim_w, bool_decide_eq_false_2 by naive_solver. simpl. lia. }
    destruct (decide _).
    + destruct Ho as [-> Ho]. split; [done|]. intros u. by rewrite Hw.
    + by eapply owned_ext.
Qed.

Lemma TI_create : TI σ' V'.
Proof using All.
  destruct birth_absent as (Hs & _ & _).
  assert (Htot : ∀ u, σ' !!! u = if decide (u = p) then [FKernelThread] else σ !!! u) by apply birth_total.
  split.
  - intros u. rewrite birth_dom, <- (ti_dom _ _ HT u). unfold σ'.
    destruct (decide (u = p)) as [->|]; [rewrite lookup_insert_eq; naive_solver|].
    rewrite lookup_insert_ne by done. naive_solver.
  - apply birth_refs.
  - intros l h Hl. destruct (ti_lock _ _ HT l h Hl) as (n & Hn & Ho). exists n.
    rewrite birth_val by done. split; [done|]. eapply owned_ext; [|exact Ho]. intros u.
    unfold lock_w. rewrite Htot. destruct (decide (u = p)) as [->|]; [by rewrite Hs|done].
  - apply birth_elims.
  - intros c u. rewrite birth_elim_w, birth_dom. unfold one.
    destruct (bool_decide_reflect (u = t ∧ c = p)) as [[_ ->]|_]; [by left|].
    rewrite Nat.add_0_r. intros Hw. right. by eapply ti_child.
  - intros c ws s Hc Hs'. destruct (ti_cond _ _ HT c ws s Hc Hs') as (Hnd & Hz & (u & -> & Hu) & Huniq).
    split_and!; [done|by rewrite birth_val| |done]. exists u. split; [done|]. rewrite Htot.
    destruct (decide (u = p)) as [->|]; [|done]. rewrite Hs in Hu.
    destruct Hu as [Hu|[? Hu]]; by apply elem_of_nil in Hu.
  - pose proof (ti_idle _ _ HT) as Hid. unfold idle_ok in *; simpl. destruct (v_idle V) as [j|].
    + destruct Hid as [Hj Hb]. split.
      * rewrite Htot. destruct (decide (j = p)) as [->|]; [by rewrite Hs in Hj|done].
      * intros u. rewrite Htot. by destruct (decide _).
    + destruct Hid as (j & Hj & Hb). exists j. split.
      * rewrite Htot. destruct (decide (j = p)) as [->|]; [by rewrite Hs in Hj|done].
      * intros u Hu. rewrite Htot. destruct (decide _); auto.
  - intros u [->|Hu]%birth_dom; [simpl; simplify_map_eq; eauto|].
    destruct (decide (u = p)) as [->|]; [simpl; simplify_map_eq; eauto|].
    rewrite !birth_val by congruence. by apply HT.
  - intros u Hu. assert (Hn : u ≠ p ∧ v_th V !! u = None).
    { assert (Hd : ¬ is_Some (v_th V' !! u)) by (rewrite Hu; by intros [? ?]).
      rewrite birth_dom in Hd. split; [tauto|]. destruct (v_th V !! u); [|done]. destruct Hd. eauto. }
    destruct Hn. rewrite !birth_val by congruence. by apply HT.
  - apply birth_dom. right. exact (ti_init _ _ HT).
  - simpl. destruct (ti_all _ _ HT) as [Hnd Hall]. split.
    + apply NoDup_app. split_and!; [done| |apply NoDup_singleton].
      intros u Hu ->%list_elem_of_singleton. apply Hall in Hu as [? ?]. congruence.
    + intros u. rewrite elem_of_app, list_elem_of_singleton, Hall.
      pose proof (birth_dom u) as E. simpl in E. rewrite E. tauto.
  - simpl. destruct (ti_load _ _ HT) as [? ?]. split; [done|]. rewrite length_app. simpl. lia.
Qed.
End birth.

(** ** Condition variables, and objects newly initialised *)

Section objects.
Context (σ : gmap Z (list frame)) (V : view) (t : Z) (v : list frame).
Context (HT : TI σ V) (Hv : σ !! t = Some v).

(** a semaphore that is no permission of a known object is given a value *)
Lemma TI_new_val s n :
  match s with
  | SemaUser _ => True
  | SemaCond u => ∀ c ws, V.(v_cond) !! c = Some ws → SemaCond u ∉ ws
  | SemaLock l => V.(v_lock) !! l = None | _ => False
  end → TI σ (upd_val s n V).
Proof using HT.
  intros Hs.
  assert (Hval : ∀ s', match s' with SemaUser _ | SemaCond _ | SemaLock _ => False | _ => True end →
    v_val (upd_val s n V) !! s' = v_val V !! s').
  { intros s' ?. simpl. rewrite lookup_insert_ne; [done|]. intros ->. by destruct s'. }
  split.
  - apply HT.
  - intros u fs f Hu Hf. apply ref_ok_upd_val. by eapply ti_refs.
  - intros l h Hl. destruct (ti_lock _ _ HT l h Hl) as (m & Hm & Ho). exists m. split; [|done].
    simpl in *. rewrite lookup_insert_ne; [done|]. intros ->. congruence.
  - intros c Hc. destruct (ti_elim _ _ HT c Hc) as (m & Hm & Ho). exists m. by rewrite Hval.
  - apply (ti_child _ _ HT).
  - intros c ws s' Hc Hs'. destruct (ti_cond _ _ HT c ws s' Hc Hs') as (Hnd & Hz & (u & -> & Hu) & Huniq).
    split_and!; eauto. simpl. rewrite lookup_insert_ne; [done|]. intros ->. by eapply Hs.
  - exact (ti_idle _ _ HT).
  - intros u Hu. rewrite !Hval by done. by apply HT.
  - intros u Hu. rewrite !Hval by done. by apply HT.
  - exact (ti_init _ _ HT).
  - exact (ti_all _ _ HT).
  - exact (ti_load _ _ HT).
Qed.

Lemma lock_tok_elem l fs : (lock_tok l fs ≠ 0)%nat → FSetHolder l ∈ fs ∨ FSemaUp (SemaLock l) ∈ fs.
Proof using.
  induction fs as [|f fs IH]; simpl; [done|]. rewrite !elem_of_cons.
  destruct f; try tauto.
  - destruct s; try tauto. destruct (Z.eqb_spec l0 l) as [->|]; simpl; tauto.
  - destruct (Z.eqb_spec l0 l) as [->|]; simpl; tauto.
Qed.

(** [lock_init] *)
Lemma TI_lock_init l : V.(v_lock) !! l = None →
  TI σ (upd_holder l None (upd_val (SemaLock l) 1 V)).
Proof using HT.
  intros Hl. pose proof (TI_new_val (SemaLock l) 1 Hl) as HT1.
  assert (Hlk : ∀ l', is_Some (v_lock V !! l') → <[l := None]> (v_lock V) !! l' = v_lock V !! l').
  { intros l' [? ?]. apply lookup_insert_ne. intros ->. congruence. }
  split; simpl.
  - apply HT.
  - intros u fs f Hu Hf. pose proof (ti_refs _ _ HT1 u fs f Hu Hf) as Hr.
    destruct f; simpl in *; auto.
    + destruct Hr as [? Hr]. split; [done|]. destruct s; auto. by rewrite Hlk.
    + destruct Hr as (h & Hh & ?). exists h. rewrite Hlk; eauto.
    + destruct Hr as (h & Hh & ?). exists h. rewrite Hlk; eauto.
    + destruct Hr as (Hh & ?). rewrite Hlk; eauto.
  - intros l' h. destruct (decide (l' = l)) as [->|].
    + rewrite lookup_insert_eq. intros [= <-]. exists 1. rewrite lookup_insert_eq. split; [done|].
      left. split; [done|]. intros u. unfold lock_w. rewrite bool_decide_eq_false_2 by done. simpl.
      destruct (decide (lock_tok l (σ !!! u) = 0%nat)) as [->|Hn]; [done|exfalso].
      apply lock_tok_elem in Hn. rewrite lookup_total_alt in Hn.
      destruct (σ !! u) as [fs|] eqn:E; simpl in Hn; [|by destruct Hn as [?%elem_of_nil|?%elem_of_nil]].
      destruct Hn as [Hn|Hn].
      * destruct (ti_refs _ _ HT u fs _ E Hn) as (? & ? & _). congruence.
      * destruct (ti_refs _ _ HT u fs _ E Hn) as (_ & [? ?]). congruence.
    + rewrite lookup_insert_ne by done. apply (ti_lock _ _ HT1).
  - apply (ti_elim _ _ HT1).
  - apply (ti_child _ _ HT1).
  - apply (ti_cond _ _ HT1).
  - exact (ti_idle _ _ HT1).
  - apply (ti_semas _ _ HT1).
  - apply (ti_nosemas _ _ HT1).
  - exact (ti_init _ _ HT1).
  - exact (ti_all _ _ HT1).
  - exact (ti_load _ _ HT1).
Qed.

(** the waiters of one condition variable change *)
Lemma TI_cond c ws : (match V.(v_cond) !! c with Some _ => True | None => ws = [] end) →
  (∀ s, s ∈ ws → NoDup ws ∧ V.(v_val) !! s = Some 0 ∧ (∃ u, s = SemaCond u ∧ cond_waits u (σ !!! u)) ∧
     ∀ c' ws', V.(v_cond) !! c' = Some ws' → s ∈ ws' → c' = c) →
  TI σ (upd_cond c ws V).
Proof using HT.
  intros Hc Hws. split; try exact (ti_init _ _ HT); try exact (ti_load _ _ HT); try apply HT; simpl.
  - intros u fs f Hu Hf. pose proof (ti_refs _ _ HT u fs f Hu Hf) as Hr. destruct f; simpl in *; auto.
    destruct Hr as [? Hr]. split; [done|]. destruct (decide (c0 = c)) as [->|]; simplify_map_eq; eauto.
  - intros c0 ws0 s. destruct (decide (c0 = c)) as [->|Hne];
      [rewrite lookup_insert_eq|rewrite lookup_insert_ne by done].
    + intros [= <-] Hs. destruct (Hws s Hs) as (? & ? & ? & Hu). split_and!; auto.
      intros c' ws'. destruct (decide (c' = c)) as [->|]; [done|].
      rewrite lookup_insert_ne by done. eauto.
    + intros Hc0 Hs. destruct (ti_cond _ _ HT c0 ws0 s Hc0 Hs) as (? & ? & ? & Hu). split_and!; auto.
      intros c' ws'. destruct (decide (c' = c)) as [->|];
        [rewrite lookup_insert_eq|rewrite lookup_insert_ne by done; eauto].
      intros [= <-] Hs'. destruct (Hws s Hs') as (_ & _ & _ & Hu'). symmetry. eauto.
Qed.

End objects.

Section conditions.
Context (σ : gmap Z (list frame)) (V : view) (HT : TI σ V).

Lemma cond_unlisted u : ¬ cond_waits u (σ !!! u) ∨ V.(v_val) !! SemaCond u ≠ Some 0 →
  ∀ c ws, V.(v_cond) !! c = Some ws → SemaCond u ∉ ws.
Proof using HT.
  intros Hn c ws Hc Hin. destruct (ti_cond _ _ HT c ws _ Hc Hin) as (_ & Hz & (u' & [= <-] & Hu) & _).
  by destruct Hn.
Qed.

(** [cond_signal] *)
Lemma TI_signal c w r : V.(v_cond) !! c = Some (w :: r) → TI σ (upd_val w 1 (upd_cond c r V)).
Proof using HT.
  intros Hc. destruct (ti_cond _ _ HT c _ w Hc (elem_of_here _ _)) as (Hnd & _ & (u & -> & _) & Huniq).
  apply NoDup_cons in Hnd as [Hnr Hnd].
  assert (HT1 : TI σ (upd_cond c r V)).
  { apply (TI_cond σ V HT); [by rewrite Hc|]. intros s Hs.
    destruct (ti_cond _ _ HT c _ s Hc) as (_ & ? & ? & ?); [by right|]. split_and!; auto. }
  apply (TI_new_val σ _ HT1). simpl. intros c' ws.
  destruct (decide (c' = c)) as [->|Hne]; [rewrite lookup_insert_eq; by intros [= <-]|].
  rewrite lookup_insert_ne by done. intros Hc' Hin. by apply Hne, (Huniq c' ws).
Qed.

(** [list_push_back (&cond->waiters, &waiter.elem)] *)
Lemma TI_cond_push t c ws : V.(v_cond) !! c = Some ws → cond_waits t (σ !!! t) →
  V.(v_val) !! SemaCond t = Some 0 → (∀ c' ws', V.(v_cond) !! c' = Some ws' → SemaCond t ∉ ws') →
  TI σ (upd_cond c (ws ++ [SemaCond t]) V).
Proof using HT.
  intros Hc Hw Hz Hn. apply (TI_cond σ V HT); [by rewrite Hc|].
  assert (Hnd : NoDup (ws ++ [SemaCond t])).
  { apply NoDup_app. split_and!; [| |apply NoDup_singleton].
    - destruct ws as [|s ws]; [constructor|].
      by destruct (ti_cond _ _ HT c _ s Hc (elem_of_here _ _)).
    - intros s Hs ->%list_elem_of_singleton. by eapply Hn. }
  intros s [Hs|Hs%list_elem_of_singleton]%elem_of_app.
  - destruct (ti_cond _ _ HT c _ s Hc Hs) as (_ & ? & ? & ?). auto.
  - subst s. split_and!; eauto. intros c' ws' Hc' Hin. by destruct (Hn c' ws').
Qed.

(** the end of [cond_wait] *)
Lemma TI_cond_return t cur b : stacked σ cur b → σ !! t = Some [FCondReturn] →
  TI (<[t := []]> σ) (del_val (SemaCond t) V).
Proof using HT.
  intros Hst Hv.
  assert (Hnw : ¬ cond_waits t (σ !!! t)).
  { rewrite (total_here σ t _ Hv). intros [H|[? H]]; by apply list_elem_of_singleton in H. }
  assert (HT1 : TI (<[t := []]> σ) V).
  { apply (TI_stack σ V t _ HT Hv); [by split_and!| |by intros f ?%elem_of_nil].
    intros [H|[? H]]; by apply list_elem_of_singleton in H. }
  assert (Hval : ∀ s, s ≠ SemaCond t → v_val (del_val (SemaCond t) V) !! s = v_val V !! s).
  { intros s Hs. simpl. by rewrite lookup_delete_ne. }
  split; try exact (ti_init _ _ HT1); try exact (ti_load _ _ HT1); try apply HT1.
  - intros u fs f Hu Hf. pose proof (ti_refs _ _ HT1 u fs f Hu Hf) as Hr.
    assert (Hs : ∀ s, frame_sema f = Some s → v_val (del_val (SemaCond t) V) !! s = v_val V !! s).
    { intros s Hfs. apply Hval. intros ->. destruct (decide (u = t)) as [->|Hne].
      - rewrite lookup_insert_eq in Hu. simplify_eq. by apply elem_of_nil in Hf.
      - rewrite lookup_insert_ne in Hu by done.
        pose proof (stack_sema _ _ _ _ _ (Hst u fs Hu) Hf Hfs) as Ho. simpl in Ho. congruence. }
    destruct f; simpl in *; auto; by rewrite Hs.
  - intros l h Hl. rewrite Hval by done. by apply (ti_lock _ _ HT1).
  - intros c Hc. rewrite Hval by done. by apply (ti_elim _ _ HT1).
  - intros c ws s Hc Hs. destruct (ti_cond _ _ HT1 c ws s Hc Hs) as (? & ? & (u & -> & Hu) & ?).
    split_and!; eauto. rewrite Hval; [done|]. intros [= ->].
    rewrite (total_insert σ t []), decide_True in Hu by done. destruct Hu as [Hu|[? Hu]]; by apply elem_of_nil in Hu.
  - intros u Hu. rewrite !Hval by done. by apply HT1.
  - intros u Hu. rewrite !Hval by done. by apply HT1.
Qed.

(** a call of [t] returns a value *)
Lemma TI_ret t v i r : σ !! t = Some v → V.(v_th) !! t = Some i →
  (FExecFind ∉ v) ∨ r = TID_ERROR →
  TI σ (upd_ident t (mk_ident i.(i_kids) i.(i_tid) r) V).
Proof using HT.
  intros Hv Hi Hn. set (i' := mk_ident _ _ _).
  assert (Hdom : ∀ u, is_Some (v_th (upd_ident t i' V) !! u) ↔ is_Some (v_th V !! u)).
  { intros u. simpl. destruct (decide (u = t)) as [->|]; simplify_map_eq; [split; eauto|done]. }
  assert (Hk : ∀ u, kids (upd_ident t i' V) u = kids V u).
  { intros u. rewrite kids_upd. destruct (decide (u = t)) as [->|]; [|done].
    by rewrite (kids_here V t i Hi). }
  assert (Hw : ∀ c u, elim_w σ (upd_ident t i' V) c u = elim_w σ V c u).
  { intros c u. unfold elim_w. by rewrite Hk. }
  split; try apply HT.
  - intros u. rewrite Hdom. apply HT.
  - intros u fs f Hu Hf. pose proof (ti_refs _ _ HT u fs f Hu Hf) as Hr.
    destruct (decide (u = t)) as [->|Hne]; [|by eapply ref_ok_ident].
    assert (fs = v) as -> by congruence.
    destruct f; simpl in *; rewrite ?Hk; auto. destruct Hn as [?|Hn]; [done|].
    exists i'. rewrite lookup_insert_eq. split; [done|]. by left.
  - intros c Hc. apply Hdom in Hc. destruct (ti_elim _ _ HT c Hc) as (n & Hn' & Ho). exists n.
    split; [done|]. simpl. destruct (decide _).
    + destruct Ho as [-> Ho]. split; [done|]. intros u. by rewrite Hw.
    + eapply owned_ext; [|exact Ho]. intros u. apply Hw.
  - intros c u. rewrite Hw, Hdom. apply (ti_child _ _ HT).
  - intros u Hu%Hdom. by apply HT.
  - intros u Hu. apply (ti_nosemas _ _ HT). destruct (v_th V !! u) eqn:E; [|done].
    assert (is_Some (v_th (upd_ident t i' V) !! u)) as [? ?]; [apply Hdom; eauto|congruence].
  - apply Hdom. exact (ti_init _ _ HT).
  - split; [apply HT|]. intros u. rewrite Hdom. apply HT.
Qed.

(** [idle_thread = thread_current ()] *)
Lemma TI_idle_start t s : σ !! t = Some [FIdle s] → TI (<[t := [FIdleLoop]]> σ) (upd_idle (Some t) V).
Proof using HT.
  intros Hv. pose proof (ti_idle _ _ HT) as Hid. unfold idle_ok in Hid.
  destruct (v_idle V) as [j|] eqn:Ej.
  { destruct Hid as [_ Hb]. specialize (Hb t). by rewrite (total_here σ t _ Hv) in Hb. }
  assert (Hb : ∀ u, u ≠ t → existsb is_boot_frame (σ !!! u) = false).
  { destruct Hid as (j & Hj & Hb). intros u Hu. destruct (decide (t = j)) as [->|Hne]; [auto|].
    specialize (Hb t Hne). by rewrite (total_here σ t _ Hv) in Hb. }
  destruct (elims_same σ V (upd_idle (Some t) V) t _ [FIdleLoop] HT Hv) as [He1 He2]; try done.
  split; try exact (ti_init _ _ HT); try exact (ti_load _ _ HT); try apply HT; eauto.
  - intros u. rewrite (dom_insert σ t _ _ Hv). apply HT.
  - eapply (refs_change σ V (upd_idle (Some t) V) t _ [FIdleLoop] HT Hv).
    + intros f Hf. right. by apply list_elem_of_singleton in Hf as ->.
    + intros u fs f Hne Hu Hf Hr. destruct f; simpl in *; auto; congruence.
  - by eapply (locks_same σ V (upd_idle (Some t) V) t _ [FIdleLoop] HT Hv).
  - eapply (conds_same σ V (upd_idle (Some t) V) t _ [FIdleLoop] HT Hv); [done|by left|].
    intros [H|[? H]]; by apply list_elem_of_singleton in H.
  - unfold idle_ok; simpl. split.
    + by rewrite total_insert, decide_True.
    + intros u. rewrite total_insert. destruct (decide (u = t)); [done|auto].
Qed.
End conditions.
