(* ===== verification/Safety.v ===== *)
(** The kernel's invariant and its preservation by every step.

    [Inv] joins the scheduler's invariant ([Sched.SI]) and the permissions of the
    kernel stacks ([Tokens.TI]).  Each routine of thread.c, synch.c, process.c
    and syscall.c that a step of the machine runs is shown to return (no
    assertion fails, no freed structure is touched) and to preserve [Inv]. *)

From S2P Require Import Prelude KList KListAlgo FixedPoint Thread Synch Kernel Sched Tokens.

#[local] Arguments intr_set_level : simpl never.

(** * The invariant *)

(** the invariant while the running thread is inside a routine: [v] is what it
    still has to do, the routine included *)
Record VInv (v : list frame) (k : kstate) : Prop := {
  vi_si : SI true None k;
  vi_ti : TI (<[k.(current) := v]> (frames_of k)) (view_of k);
  vi_others : ∀ t fs, t ≠ k.(current) → frames_of k !! t = Some fs → stack t false fs;
  vi_ext : k.(in_external_intr) = false
}.

Record Inv (k : kstate) : Prop := {
  inv_si : SI true None k;
  inv_ti : TI (frames_of k) (view_of k);
  inv_stack : stacked (frames_of k) k.(current) k.(intr_on);
  inv_ext : k.(in_external_intr) = false
}.

(** the invariant between the change of the running thread's status and the
    choice of the next thread *)
Record PreInv (k : kstate) : Prop := {
  pre_si : SI false None k;
  pre_ti : TI (frames_of k) (view_of k);
  pre_stack : ∀ t fs, frames_of k !! t = Some fs → stack t false fs;
  pre_ext : k.(in_external_intr) = false;
  pre_intr : k.(intr_on) = false;
  pre_alive : ∀ th, k.(threads) !! k.(current) = Some th → th.(status) ≠ THREAD_DYING
}.

Lemma frames_of_lookup k t fs :
  frames_of k !! t = Some fs ↔ ∃ th, k.(threads) !! t = Some th ∧ th.(frames) = fs.
Proof. unfold frames_of. rewrite lookup_fmap, fmap_Some. naive_solver. Qed.

Lemma view_th_lookup k t : (view_of k).(v_th) !! t = ident_of <$> k.(threads) !! t.
Proof. simpl. by rewrite lookup_fmap. Qed.

Lemma view_val_lookup k s : (view_of k).(v_val) !! s = value <$> k.(semas) !! s.
Proof. simpl. by rewrite lookup_fmap. Qed.

Lemma Inv_current k : Inv k → ∃ th, k.(threads) !! k.(current) = Some th ∧
  th.(status) = THREAD_RUNNING ∧ frames_of k !! k.(current) = Some th.(frames) ∧
  stack k.(current) k.(intr_on) th.(frames).
Proof.
  intros HI. destruct (si_cur _ _ _ (inv_si _ HI)) as (th & Ht & Hr%bool_decide_eq_true).
  assert (Hf : frames_of k !! current k = Some (frames th)) by (apply frames_of_lookup; eauto).
  exists th. split_and!; [done..|]. pose proof (inv_stack _ HI _ _ Hf) as Hs.
  by rewrite decide_True in Hs.
Qed.

Lemma Inv_VInv k th : Inv k → k.(threads) !! k.(current) = Some th → VInv th.(frames) k.
Proof.
  intros HI Ht. split; try apply HI.
  - rewrite insert_id; [apply HI|]. apply frames_of_lookup. eauto.
  - intros t fs Hne Hf. pose proof (inv_stack _ HI t fs Hf) as Hs. by rewrite decide_False in Hs.
Qed.

Lemma VInv_Inv v k : VInv v k → frames_of k !! k.(current) = Some v →
  stack k.(current) k.(intr_on) v → Inv k.
Proof.
  intros HV Hf Hs. split; try apply HV.
  - rewrite <- (insert_id _ _ _ Hf). apply HV.
  - intros t fs Ht. destruct (decide (t = current k)) as [->|]; [congruence|].
    by apply (vi_others _ _ HV).
Qed.

(** * Projections of updated states *)

Lemma set_threads_twice m m' k : set_threads m (set_threads m' k) = set_threads m k.
Proof. done. Qed.

Section projections.
Context (k : kstate) (t : Z) (th' : thread).

Lemma frames_of_upd : frames_of (set_threads (<[t := th']> k.(threads)) k) = <[t := th'.(frames)]> (frames_of k).
Proof. unfold frames_of; simpl. by rewrite fmap_insert. Qed.

Lemma view_of_upd : view_of (set_threads (<[t := th']> k.(threads)) k) = upd_ident t (ident_of th') (view_of k).
Proof. unfold view_of, upd_ident; simpl. by rewrite fmap_insert. Qed.
End projections.

(** the record of a thread changes, what the view shows of it does not *)
Lemma view_of_same k t th th' : k.(threads) !! t = Some th → ident_of th' = ident_of th →
  view_of (set_threads (<[t := th']> k.(threads)) k) = view_of k.
Proof.
  intros Ht He. rewrite view_of_upd. apply upd_ident_id. by rewrite view_th_lookup, Ht, He.
Qed.

Lemma frames_of_same k t th th' : k.(threads) !! t = Some th → th'.(frames) = th.(frames) →
  frames_of (set_threads (<[t := th']> k.(threads)) k) = frames_of k.
Proof.
  intros Ht He. rewrite frames_of_upd. apply insert_id. apply frames_of_lookup. eauto.
Qed.

Lemma view_of_sema k s n ws :
  view_of (set_semas (<[s := mk_semaphore n ws]> k.(semas)) k) = upd_val s n (view_of k).
Proof. unfold view_of, upd_val; simpl. by rewrite fmap_insert. Qed.

Lemma view_made_ready t th k : k.(threads) !! t = Some th → view_of (made_ready t th k) = view_of k.
Proof. intros Ht. unfold made_ready. by rewrite <- (view_of_same k t th (set_status THREAD_READY th)) by done. Qed.

Lemma frames_made_ready t th k : k.(threads) !! t = Some th → frames_of (made_ready t th k) = frames_of k.
Proof. intros Ht. by rewrite <- (frames_of_same k t th (set_status THREAD_READY th)) by done. Qed.

Lemma view_switched n nth k : k.(threads) !! n = Some nth → view_of (switched n nth k) = view_of k.
Proof. intros Ht. by rewrite <- (view_of_same k n nth (set_status THREAD_RUNNING nth)) by done. Qed.

Lemma frames_switched n nth k : k.(threads) !! n = Some nth → frames_of (switched n nth k) = frames_of k.
Proof. intros Ht. by rewrite <- (frames_of_same k n nth (set_status THREAD_RUNNING nth)) by done. Qed.

(** * Giving up the processor *)

Lemma core_no_boot_loop t s fs : loop t s fs → existsb is_boot_frame fs = false.
Proof.
  inversion 1 as [l fs' Hc| | | | |]; subst; try done.
  by destruct (core_holder_inv _ _ _ Hc) as [->| ->].
Qed.

(** While no thread is the idle thread, the one that will become it is ready. *)
Lemma somebody_ready k : SI false None k → idle_ok (frames_of k) (view_of k) →
  (∀ t fs, t ≠ k.(current) → frames_of k !! t = Some fs → stack t false fs) →
  existsb is_boot_frame (frames_of k !!! k.(current)) = false ∨
    (∃ fs, frames_of k !! k.(current) = Some fs ∧ stack k.(current) false fs) ∧
    (∀ th, k.(threads) !! k.(current) = Some th → th.(status) ≠ THREAD_DYING) →
  k.(ready_list) ≠ [] ∨ is_Some k.(idle_thread).
Proof.
  intros HS Hid Hst Hcur. destruct (idle_thread k) as [i|] eqn:Ei; [eauto|].
  unfold idle_ok in Hid; simpl in Hid. rewrite Ei in Hid.
  destruct Hid as (i & Hi & _). left. intros Hr.
  destruct (frames_of k !! i) as [fs|] eqn:Ef; [|by rewrite lookup_total_alt, Ef in Hi].
  rewrite (lookup_total_correct _ _ _ Ef) in Hi.
  pose proof Ef as (th & Hth & Hfs)%frames_of_lookup.
  assert (Hs : stack i false fs ∧ th.(status) ≠ THREAD_DYING).
  { destruct (decide (i = current k)) as [->|Hne].
    - destruct Hcur as [Hb|((fs' & ? & ?) & Ha)]; [|split; [congruence|auto]].
      rewrite (lookup_total_correct _ _ _ Ef) in Hb. congruence.
    - split; [eauto|]. intros Hd. pose proof (si_placed _ _ _ HS i th Hth) as Hp.
      unfold placed in Hp. by rewrite Hd in Hp. }
  destruct Hs as [Hs Hd]. pose proof (si_placed _ _ _ HS i th Hth) as Hp. unfold placed in Hp.
  destruct (status th) eqn:Est; [| | |done].
  - destruct (si_cur _ _ _ HS) as (th' & Ht' & Hb%bool_decide_eq_false). subst. congruence.
  - rewrite Hr, Ei in Hp. by destruct Hp as [?%elem_of_nil|].
  - destruct Hp as [?|Hp]; [done|]. rewrite Hfs, Ei in Hp.
    destruct fs as [|f r]; [done|]. destruct f; try done.
    + destruct (si_sleep _ _ _ HS i Hp) as (_ & _ & th' & Ht' & _ & Hf').
      assert (th' = th) as -> by congruence. rewrite Hfs in Hf'. by simplify_eq.
    + inversion Hs as [fs' Hc| | | |s' fs' Hl| |]; subst. apply core_no_boot_loop in Hl. simpl in Hi. congruence.
Qed.

Lemma schedule_spec k : PreInv k → ∃ n nth, picks k n ∧ k.(threads) !! n = Some nth ∧
  schedule k = Ok (tt, switched n nth k) ∧ Inv (switched n nth k).
Proof.
  intros HP. destruct (si_cur _ _ _ (pre_si _ HP)) as (cth & Hc & Hr%bool_decide_eq_false).
  assert (Hf : frames_of k !! current k = Some (frames cth)) by (apply frames_of_lookup; eauto).
  destruct (picks_exists k) as (n & nth & Hp & Hn & _); [apply HP| |].
  { apply somebody_ready; [apply HP|exact (ti_idle _ _ (pre_ti _ HP))|..].
    - intros t fs _. apply HP.
    - right. split; [|apply HP]. exists (frames cth). split; [done|]. by apply HP. }
  exists n, nth. split_and!; [done..| |].
  - eapply schedule_eq; eauto using pre_intr, pre_alive.
  - split.
    + eapply SI_switched; eauto using pre_si, pre_alive.
    + rewrite frames_switched, view_switched by done. apply HP.
    + rewrite frames_switched by done. intros t fs Ht. simpl. rewrite (pre_intr _ HP).
      destruct (decide _); by apply HP.
    + apply HP.
Qed.

(** [thread_block]: the running thread, its kernel stack being [f :: fs], has
    joined the queue that fits [f] *)
Lemma thread_block_eq k th : k.(threads) !! k.(current) = Some th → th.(status) = THREAD_RUNNING →
  k.(in_external_intr) = false → k.(intr_on) = false →
  thread_block k = schedule (set_threads (<[k.(current) := set_status THREAD_BLOCKED th]> k.(threads)) k).
Proof.
  intros Ht Hr Hx Hi. unfold thread_block. krun. rewrite Hx. krun. rewrite Hi. krun.
  unfold thread_current. krun. rewrite bool_decide_eq_true_2 by (rewrite Ht; eauto). krun.
  rewrite Ht. krun. rewrite bool_decide_eq_true_2 by done. krun. rewrite Ht. krun. done.
Qed.

Lemma thread_current_eq k th : k.(threads) !! k.(current) = Some th → th.(status) = THREAD_RUNNING →
  thread_current k = Ok (k.(current), k).
Proof.
  intros Ht Hr. unfold thread_current. krun. rewrite bool_decide_eq_true_2 by (rewrite Ht; eauto). krun.
  rewrite Ht. krun. by rewrite bool_decide_eq_true_2 by done.
Qed.

Lemma PreInv_intro k kp v : VInv v k → stack k.(current) false v →
  SI false None kp → frames_of kp = <[k.(current) := v]> (frames_of k) → view_of kp = view_of k →
  kp.(current) = k.(current) → kp.(in_external_intr) = false → kp.(intr_on) = false →
  (∀ th, kp.(threads) !! kp.(current) = Some th → th.(status) ≠ THREAD_DYING) →
  PreInv kp.
Proof.
  intros HV Hs HS Hf Hv Hc Hx Hi Ha. split; try done.
  - rewrite Hf, Hv. apply HV.
  - intros t fs. rewrite Hf. destruct (decide (t = current k)) as [->|Hne].
    + rewrite lookup_insert_eq. by intros [= <-].
    + rewrite lookup_insert_ne by done. by apply (vi_others _ _ HV).
Qed.

Lemma VInv_not_idle v k : VInv v k → existsb is_idle_frame v = false →
  k.(idle_thread) ≠ Some k.(current).
Proof.
  intros HV Hv Hi. pose proof (ti_idle _ _ (vi_ti _ _ HV)) as Hid. unfold idle_ok in Hid; simpl in Hid.
  rewrite Hi in Hid. destruct Hid as [Hid _]. rewrite lookup_total_insert_eq in Hid. congruence.
Qed.

Lemma loop_no_idle t s fs : loop t s fs → existsb is_idle_frame fs = false.
Proof.
  inversion 1 as [l fs' Hc| | | | |]; subst; try done.
  by destruct (core_holder_inv _ _ _ Hc) as [->| ->].
Qed.

(** the running thread's record is replaced, its status kept *)
Lemma SI_cur k th th' lim : SI true lim k → k.(threads) !! k.(current) = Some th →
  th'.(status) = th.(status) → SI true lim (set_threads (<[k.(current) := th']> k.(threads)) k).
Proof.
  intros HS Ht Hs. apply (SI_update _ _ _ _ HS); try done. intros t. simpl.
  destruct (decide (t = current k)) as [->|]; simplify_map_eq.
  - simpl. auto.
  - apply thread_agree_refl.
Qed.

Lemma ins_ordered_ext less less' e xs : (∀ a b, less a b = less' a b) →
  ins_ordered less e xs = ins_ordered less' e xs.
Proof. intros He. induction xs as [|x xs IH]; simpl; [done|]. by rewrite He, IH. Qed.

Lemma cmp_priority_upd k t th th' a b : k.(threads) !! t = Some th → th'.(priority) = th.(priority) →
  cmp_priority_thread (set_threads (<[t := th']> k.(threads)) k) a b = cmp_priority_thread k a b.
Proof.
  intros Ht Hp. assert (H : ∀ u, prio (set_threads (<[t := th']> (threads k)) k) u = prio k u).
  { intros u. unfold prio; simpl. destruct (decide (u = t)) as [->|]; by simplify_map_eq. }
  unfold cmp_priority_thread. by rewrite !H.
Qed.

Section blocking.
Context (k : kstate) (th : thread).
Context (Ht : k.(threads) !! k.(current) = Some th) (Hi : k.(intr_on) = false).

Lemma VInv_running v : VInv v k → th.(status) = THREAD_RUNNING.
Proof using Ht.
  intros HV. destruct (si_cur _ _ _ (vi_si _ _ HV)) as (th' & Ht' & Hr%bool_decide_eq_true). congruence.
Qed.

(** the running thread, with the stack [v] it leaves, has stopped *)
Lemma block_limbo v st : VInv v k → st ≠ THREAD_RUNNING →
  (st = THREAD_READY → k.(idle_thread) = Some k.(current)) →
  SI false (Some k.(current))
    (set_threads (<[k.(current) := set_status st (set_frames v th)]> k.(threads)) k).
Proof using Ht.
  intros HV H1 H2.
  assert (HS1 : SI true None (set_threads (<[current k := set_frames v th]> (threads k)) k)).
  { eapply SI_cur; eauto using vi_si. }
  pose proof (SI_stop _ (set_frames v th) st HS1) as HS2. simpl in HS2.
  rewrite lookup_insert_eq, insert_insert_eq in HS2. auto.
Qed.

(** the state in which [sema_down] calls [schedule] *)
Lemma block_sema_pre s fs ws : VInv (FSemaLoop s true :: fs) k → loop k.(current) s fs →
  k.(semas) !! s = Some (mk_semaphore 0 ws) →
  PreInv (set_threads (<[k.(current) := set_status THREAD_BLOCKED (set_frames (FSemaLoop s true :: fs) th)]>
            k.(threads))
          (set_semas (<[s := mk_semaphore 0 (ins_ordered (cmp_priority_thread k) k.(current) ws)]> k.(semas)) k)).
Proof using All.
  intros HV Hl Hs. set (th1 := set_status _ _).
  assert (Hidle : idle_thread k ≠ Some (current k)).
  { eapply VInv_not_idle; [exact HV|]. simpl. by eapply loop_no_idle. }
  pose proof (block_limbo _ THREAD_BLOCKED HV ltac:(done) ltac:(done)) as HS.
  pose proof (SI_join_sema _ _ _ th1 HS) as HS2. simpl in HS2. rewrite lookup_insert_eq in HS2.
  specialize (HS2 eq_refl eq_refl s 0 ws true fs eq_refl Hidle Hs).
  rewrite (ins_ordered_ext _ (cmp_priority_thread k)) in HS2 by (intros; by eapply cmp_priority_upd).
  eapply (PreInv_intro k); [exact HV|by constructor|exact HS2|..]; simpl; try done.
  - apply (frames_of_upd k).
  - etrans; [apply (view_of_same (set_semas _ k) (current k) th th1 Ht); done|].
    rewrite view_of_sema. apply upd_val_id. by rewrite view_val_lookup, Hs.
  - by apply HV.
  - intros th'. rewrite lookup_insert_eq. by intros [= <-].
Qed.

(** the state in which [thread_sleep] calls [schedule] *)
Lemma block_sleep_pre w : VInv [FSetLevel true] k →
  let th1 := set_status THREAD_BLOCKED (set_frames [FSetLevel true] (set_wake_up_tick w th)) in
  let m := <[k.(current) := th1]> k.(threads) in
  PreInv (set_threads m
    (set_sleeping_list (ins_ordered (cmp_sleeping_thread (set_threads m k)) k.(current) k.(sleeping_list)) k)).
Proof using All.
  intros HV th1 m.
  assert (Hidle : idle_thread k ≠ Some (current k)) by (eapply VInv_not_idle; [exact HV|done]).
  assert (HS : SI false (Some (current k)) (set_threads m k)).
  { pose proof (SI_stop (set_threads (<[current k := set_frames [FSetLevel true] (set_wake_up_tick w th)]> (threads k)) k)
      (set_frames [FSetLevel true] (set_wake_up_tick w th)) THREAD_BLOCKED) as HS. simpl in HS.
    rewrite lookup_insert_eq, insert_insert_eq in HS. apply HS; try done.
    eapply SI_cur; eauto using vi_si. }
  pose proof (SI_join_sleep _ _ _ th1 HS) as HS2. simpl in HS2. unfold m in HS2 at 1.
  rewrite lookup_insert_eq in HS2. specialize (HS2 eq_refl eq_refl eq_refl Hidle).
  eapply (PreInv_intro k); [exact HV| |exact HS2|..]; simpl; try done.
  - by constructor; constructor.
  - apply (frames_of_upd k).
  - apply (view_of_same (set_sleeping_list _ k) (current k) th th1 Ht). done.
  - by apply HV.
  - intros th'. unfold m. rewrite lookup_insert_eq. by intros [= <-].
Qed.

(** the state in which the idle thread calls [schedule] *)
Lemma block_idle_pre : VInv [FIdleHlt] k →
  PreInv (set_threads (<[k.(current) := set_status THREAD_BLOCKED (set_frames [FIdleHlt] th)]> k.(threads)) k).
Proof using All.
  intros HV. set (th1 := set_status _ _).
  pose proof (block_limbo _ THREAD_BLOCKED HV ltac:(done) ltac:(done)) as HS.
  pose proof (SI_join_idle _ _ _ th1 HS) as HS2. simpl in HS2. rewrite lookup_insert_eq in HS2.
  eapply (PreInv_intro k); [exact HV|by constructor|..]; simpl; try done.
  - eapply HS2; try done. apply (ti_refs _ _ (vi_ti _ _ HV) (current k) [FIdleHlt] FIdleHlt); [|left].
    by rewrite lookup_insert_eq.
  - apply (frames_of_upd k).
  - by apply (view_of_same k (current k) th th1 Ht).
  - by apply HV.
  - intros th'. rewrite lookup_insert_eq. by intros [= <-].
Qed.

(** the state in which [thread_yield] calls [schedule] *)
Lemma yield_pre v : VInv v k → stack k.(current) false v →
  let th1 := set_frames v (set_status THREAD_READY th) in
  PreInv (set_threads (<[k.(current) := th1]> k.(threads))
    (if bool_decide (k.(idle_thread) = Some k.(current)) then k
     else set_ready_list (ins_ordered (cmp_priority_thread k) k.(current) k.(ready_list)) k)).
Proof using All.
  intros HV Hv th1. pose proof (VInv_running _ HV) as Hr.
  assert (Hv1 : ∀ k1, view_of k1 = view_of k → threads k1 = threads k →
    view_of (set_threads (<[current k := th1]> (threads k)) k1) = view_of k).
  { intros k1 He Hth. rewrite <- He, <- Hth. apply (view_of_same k1 _ th); by rewrite ?Hth. }
  assert (Hf1 : ∀ k1, frames_of (set_threads (<[current k := th1]> (threads k)) k1) = <[current k := v]> (frames_of k)).
  { intros k1. unfold frames_of; simpl. by rewrite fmap_insert. }
  case_bool_decide as Hidle.
  - pose proof (block_limbo v THREAD_READY HV ltac:(done) ltac:(done)) as HS.
    eapply SI_drop_limbo in HS; [|simpl; by rewrite lookup_insert_eq|done].
    eapply (PreInv_intro k); [exact HV|done|exact HS|..]; simpl; auto; [by apply HV|].
    intros th'. rewrite lookup_insert_eq. by intros [= <-].
  - set (k1 := set_threads (<[current k := set_frames v th]> (threads k)) k).
    assert (HS1 : SI true None k1) by (eapply SI_cur; eauto using vi_si).
    pose proof (SI_made_ready true k1 (current k) (set_frames v th)) as HS. simpl in HS.
    rewrite lookup_insert_eq in HS. specialize (HS eq_refl Hidle None false HS1 ltac:(done) ltac:(done) ltac:(auto)).
    unfold made_ready in HS. simpl in HS. rewrite insert_insert_eq in HS.
    rewrite (ins_ordered_ext _ (cmp_priority_thread k)) in HS by (intros; by eapply cmp_priority_upd).
    eapply (PreInv_intro k); [exact HV|done|exact HS|..]; simpl; auto; [by apply HV|].
    intros th'. rewrite lookup_insert_eq. by intros [= <-].
Qed.
End blocking.

(** * Semaphores *)

Lemma set_intr_on_id k b : k.(intr_on) = b → set_intr_on b k = k.
Proof. intros <-. by destruct k. Qed.

Lemma intr_set_level_eq k b : (b = true → k.(in_external_intr) = false) →
  intr_set_level b k = Ok (k.(intr_on), set_intr_on b k).
Proof. intros Hx. destruct b; unfold intr_set_level, intr_enable, intr_disable; krun; [|done]. by rewrite Hx. Qed.

(** only the level changes *)
Lemma SI_intr run lim k b : SI run lim k → SI run lim (set_intr_on b k).
Proof. intros HS. si_update HS. Qed.

Lemma VInv_intr v k b : VInv v k → VInv v (set_intr_on b k).
Proof. intros HV. split; try apply HV. apply SI_intr, HV. Qed.

Lemma SI_sema_value run lim k s n n' ws : SI run lim k → k.(semas) !! s = Some (mk_semaphore n ws) →
  SI run lim (set_semas (<[s := mk_semaphore n' ws]> k.(semas)) k).
Proof.
  intros HS Hs. si_update HS. intros s'. unfold waiting; simpl.
  destruct (decide (s' = s)) as [->|]; by simplify_map_eq.
Qed.

(** the semaphore's permission goes to the thread that has got past the loop *)
Lemma TI_pass σ V t s fs n : TI (<[t := FSemaLoop s true :: fs]> σ) V → is_Some (σ !! t) →
  loop t s fs → V.(v_val) !! s = Some n → n ≠ 0 →
  TI (<[t := fs]> σ) (upd_val s (u32 (n - 1)) V).
Proof.
  intros HT Hd Hl Hn Hn0. set (σ1 := <[t := FSemaLoop s true :: fs]> σ) in *.
  assert (Hv : σ1 !! t = Some (FSemaLoop s true :: fs)) by (unfold σ1; by rewrite lookup_insert_eq).
  assert (Hσ : <[t := fs]> σ = <[t := fs]> σ1) by (unfold σ1; by rewrite insert_insert_eq).
  rewrite Hσ. destruct (ti_ident _ _ _ _ HT Hv) as [i Hi].
  assert (Hplain : marks_eq (FSemaLoop s true :: fs) fs →
    (cond_waits t (FSemaLoop s true :: fs) → s = SemaCond t) → TI (<[t := fs]> σ1) V).
  { intros Hm Hw. apply (TI_stack _ _ _ _ HT Hv); [done| |intros f Hf; left; by right].
    intros ->%Hw. right. congruence. }
  assert (Hv' : (<[t := fs]> σ1) !! t = Some fs) by (by rewrite lookup_insert_eq).
  destruct Hl as [l fs Hc|c|c| |l|m].
  - by apply TI_pass_lock.
  - eapply TI_val; eauto. apply Hplain; [by split_and!|no_waits].
  - eapply TI_val; eauto. apply Hplain; [by split_and!|no_waits].
  - by eapply TI_pass_elim.
  - assert (HT1 : TI (<[t := [FLockAcquire l; FCondReturn]]> σ1) V) by (apply Hplain; [by split_and!|done]).
    apply (TI_new_val _ _ HT1). apply (cond_unlisted _ _ HT1). left.
    rewrite (total_here _ _ _ Hv'). no_waits.
  - eapply TI_val; eauto. apply Hplain; [by split_and!|no_waits].
Qed.

Lemma push_frame_eq k th f : k.(threads) !! k.(current) = Some th →
  push_frame f k = Ok (tt, set_threads (<[k.(current) := set_frames (f :: th.(frames)) th]> k.(threads)) k).
Proof. intros Ht. unfold push_frame. krun. by rewrite Ht. Qed.

Lemma VInv_thread v k : VInv v k → ∃ th, k.(threads) !! k.(current) = Some th ∧
  th.(status) = THREAD_RUNNING ∧ frames_of k !! k.(current) = Some th.(frames).
Proof.
  intros HV. destruct (si_cur _ _ _ (vi_si _ _ HV)) as (th & Ht & Hr%bool_decide_eq_true).
  exists th. split_and!; [done..|]. apply frames_of_lookup. eauto.
Qed.

Section sema_down.
Context (k : kstate) (s : sema_id) (fs : list frame).
Context (HV : VInv (FSemaLoop s true :: fs) k) (Hf : frames_of k !! k.(current) = Some fs).
Context (Hl : loop k.(current) s fs).

Lemma sema_exists : ∃ sm, k.(semas) !! s = Some sm.
Proof using HV.
  pose proof (ti_refs _ _ (vi_ti _ _ HV) (current k) (FSemaLoop s true :: fs) (FSemaLoop s true)) as Hr.
  rewrite lookup_insert_eq in Hr. specialize (Hr eq_refl (elem_of_here _ _)).
  simpl in Hr. rewrite lookup_fmap in Hr. destruct (semas k !! s); [eauto|by destruct Hr].
Qed.

(** the loop of [sema_down] *)
Lemma sema_loop_spec : k.(intr_on) = false → ∃ k', sema_loop s true k = Ok (tt, k') ∧ Inv k'.
Proof using All.
  intros Hi. destruct sema_exists as [[n ws] Hs]. destruct (VInv_thread _ _ HV) as (th & Ht & Hr & Hf').
  assert (frames th = fs) as Hfs by congruence.
  unfold sema_loop. krun. rewrite Hs. krun. destruct (Z.eqb_spec n 0) as [->|Hn0].
  - rewrite (thread_current_eq k th) by done. krun.
    rewrite (push_frame_eq _ th) by done. krun. rewrite Hfs.
    erewrite thread_block_eq by (simpl; rewrite ?lookup_insert_eq; eauto; apply HV).
    simpl. rewrite insert_insert_eq.
    destruct (schedule_spec _ (block_sema_pre k th Ht Hi s fs ws HV Hl Hs)) as (m & mth & _ & _ & He & HI).
    eexists. split; [exact He|exact HI].
  - rewrite intr_set_level_eq by (intros _; apply HV). krun. eexists. split; [done|].
    eapply (VInv_Inv fs); simpl; [|done|constructor; by eapply loop_core].
    split; simpl; try apply HV.
    + apply SI_intr. eapply SI_sema_value; eauto using vi_si.
    + match goal with |- TI ?a ?b => change (TI a (view_of (set_semas (<[s := mk_semaphore (u32 (n - 1)) ws]> (semas k)) k))) end.
      rewrite view_of_sema. apply (TI_pass _ _ _ _ _ _ (vi_ti _ _ HV)); [by exists fs|done| |done].
      by rewrite view_val_lookup, Hs.
Qed.
End sema_down.

Lemma sema_down_spec k s fs : VInv (FSemaLoop s true :: fs) k → frames_of k !! k.(current) = Some fs →
  loop k.(current) s fs → k.(intr_on) = true →
  ∃ k', sema_down s k = Ok (tt, k') ∧ Inv k'.
Proof.
  intros HV Hf Hl Hi. unfold sema_down. krun. rewrite (vi_ext _ _ HV). krun.
  unfold intr_disable. krun. rewrite Hi. by apply (sema_loop_spec (set_intr_on false k) s fs);
    [apply VInv_intr|..].
Qed.

(** what does not change when a thread is woken *)
Definition same_ctl (k k' : kstate) : Prop :=
  k'.(current) = k.(current) ∧ k'.(intr_on) = k.(intr_on) ∧
  k'.(in_external_intr) = k.(in_external_intr) ∧ frames_of k' = frames_of k.

Lemma sema_up_spec k s n :
  SI true None k → (view_of k).(v_val) !! s = Some n → k.(in_external_intr) = false →
  ∃ k', sema_up s k = Ok (tt, k') ∧ SI true None k' ∧ same_ctl k k' ∧
    view_of k' = upd_val s (u32 (n + 1)) (view_of k).
Proof.
  intros HS Hn Hx. rewrite view_val_lookup in Hn. apply fmap_Some in Hn as ([n' ws] & Hs & ->). simpl.
  unfold sema_up, intr_disable. krun. rewrite Hs. krun. destruct ws as [|w r].
  - krun. rewrite Hs. krun. rewrite intr_set_level_eq by (intros _; exact Hx). krun.
    eexists. split; [done|]. split_and!.
    + pose proof (SI_sema_value _ _ _ _ _ (u32 (n' + 1)) _ HS Hs) as HS'. si_update HS'.
    + done.
    + apply (view_of_sema k).
  - krun. destruct (si_wait _ _ _ HS s w) as (_ & Hid & wth & Hw & Hb & _).
    { unfold waiting. rewrite Hs. left. }
    pose proof (SI_pop_waiter _ _ _ _ _ _ HS Hs) as HS1.
    erewrite thread_unblock_eq; [|exact Hw|done|done]. krun. rewrite lookup_insert_eq. krun.
    rewrite intr_set_level_eq by (intros _; exact Hx). krun. rewrite insert_insert_eq.
    assert (HS2 : SI true None (made_ready w wth (set_semas (<[s := mk_semaphore n' r]> (semas k)) k))).
    { apply (SI_made_ready true (set_semas _ k) w wth Hw Hid (Some w)); [done| |done|auto].
      intros _. split; [done|]. eapply (si_not_current None k); eauto. right. right. exists s.
      unfold waiting. rewrite Hs. left. }
    eexists. split; [done|]. split_and!.
    + pose proof (SI_sema_value _ _ _ s n' (u32 (n' + 1)) r HS2) as HS3. simpl in HS3.
      rewrite lookup_insert_eq in HS3. specialize (HS3 eq_refl). rewrite insert_insert_eq in HS3. si_update HS3.
    + repeat split. apply (frames_made_ready w wth k Hw).
    + etrans; [|apply (view_of_sema k s _ r)].
      apply (view_made_ready w wth (set_semas (<[s := mk_semaphore (u32 (n' + 1)) r]> (semas k)) k) Hw).
Qed.

(** * Moving along the stack *)

Lemma VInv_restack v v' k : VInv v k → marks_eq v v' →
  (cond_waits k.(current) v → cond_waits k.(current) v') →
  (∀ f, f ∈ v' → f ∈ v ∨ ref_ok (view_of k) k.(current) f) → VInv v' k.
Proof.
  intros HV Hm Hw Hr. split; try apply HV.
  rewrite <- (insert_insert_eq (frames_of k) (current k) v' v).
  eapply TI_stack; [apply HV|by rewrite lookup_insert_eq|done|auto|done].
Qed.

(** frames that carry no permission *)
Definition neutral (f : frame) : bool :=
  match f with FSetLevel _ | FIntrEnable | FKernelThread => true | _ => false end.

Lemma neutral_marks f v : neutral f = true → marks_eq v (f :: v) ∧ marks_eq (f :: v) v.
Proof. destruct f; try done; intros _; by repeat split. Qed.

Lemma VInv_push f v k : neutral f = true → VInv v k → VInv (f :: v) k.
Proof.
  intros Hn HV. apply (VInv_restack v); [done|by apply neutral_marks| |].
  - intros [H|[b H]]; [left|right; exists b]; by right.
  - intros g [->|Hg]%elem_of_cons; [right|by left]. by destruct f.
Qed.

Lemma VInv_pop f v k : neutral f = true → VInv (f :: v) k → VInv v k.
Proof.
  intros Hn HV. apply (VInv_restack (f :: v)); [done|by apply neutral_marks| |].
  - intros [H|[b H]]; apply elem_of_cons in H as [H|H];
      [by subst f|left; done|by subst f|right; by exists b].
  - intros g Hg. left. by right.
Qed.

Lemma thread_yield_spec k fs : VInv fs k → frames_of k !! k.(current) = Some fs →
  stack k.(current) false (FSetLevel k.(intr_on) :: fs) →
  ∃ n nth kp, thread_yield k = Ok (tt, switched n nth kp) ∧ Inv (switched n nth kp) ∧
    picks kp n ∧ kp.(threads) !! n = Some nth ∧
    kp.(ready_list) = (if bool_decide (k.(idle_thread) = Some k.(current)) then k.(ready_list)
      else ins_ordered (cmp_priority_thread k) k.(current) k.(ready_list)) ∧
    kp.(sleeping_list) = k.(sleeping_list) ∧ kp.(idle_thread) = k.(idle_thread) ∧
    (∀ t, prio kp t = prio k t).
Proof.
  intros HV Hf Hs. destruct (VInv_thread _ _ HV) as (th & Ht & Hr & Hf').
  assert (frames th = fs) as Hfs by congruence.
  pose proof (yield_pre (set_intr_on false k) th Ht eq_refl _
    (VInv_intr _ _ false (VInv_push (FSetLevel (intr_on k)) _ _ eq_refl HV)) Hs) as HP.
  destruct (schedule_spec _ HP) as (n & nth & Hp & Hn & He & HI).
  exists n, nth. eexists. split_and!; [|exact HI|exact Hp|exact Hn|simpl; by destruct (bool_decide _)|
    simpl; by destruct (bool_decide _)|simpl; by destruct (bool_decide _)|].
  2: { intros t. unfold prio. simpl. destruct (bool_decide _); simpl; destruct (decide (t = current k)) as [->|];
         by simplify_map_eq. }
  rewrite <- He. unfold thread_yield.
  rewrite (bind_eq _ _ _ _ _ (thread_current_eq k th Ht Hr)). krun. rewrite (vi_ext _ _ HV). krun.
  unfold intr_disable, ready_insert. krun. destruct (bool_decide (idle_thread k = Some (current k))); krun.
  - rewrite Ht. krun. erewrite push_frame_eq by (simpl; by rewrite lookup_insert_eq). krun.
    rewrite insert_insert_eq. by rewrite Hfs.
  - rewrite Ht. krun. erewrite push_frame_eq by (simpl; by rewrite lookup_insert_eq). krun.
    rewrite insert_insert_eq. by rewrite Hfs.
Qed.

(** the record of the running thread changes in what the invariant does not see *)
Lemma VInv_cur v k th th' : VInv v k → k.(threads) !! k.(current) = Some th →
  th'.(status) = th.(status) → ident_of th' = ident_of th →
  VInv v (set_threads (<[k.(current) := th']> k.(threads)) k).
Proof.
  intros HV Ht Hs Hid. split; try apply HV; simpl.
  - eapply SI_cur; eauto using vi_si.
  - rewrite frames_of_upd, insert_insert_eq, (view_of_same _ _ th) by done. apply HV.
  - intros t fs Hne. rewrite frames_of_upd, lookup_insert_ne by done. by apply (vi_others _ _ HV).
Qed.

Lemma VInv_lookup v k : VInv v k → (<[k.(current) := v]> (frames_of k)) !! k.(current) = Some v.
Proof. intros _. by rewrite lookup_insert_eq. Qed.

(** a lookup in the stacks once a frame has been pushed *)
Lemma frames_of_push k th f : k.(threads) !! k.(current) = Some th →
  frames_of (set_threads (<[k.(current) := set_frames (f :: th.(frames)) th]> k.(threads)) k) !! k.(current)
  = Some (f :: th.(frames)).
Proof. intros Ht. by rewrite frames_of_upd, lookup_insert_eq. Qed.

Lemma lock_acquire_spec k l fs :
  VInv (FSemaLoop (SemaLock l) true :: FSetHolder l :: fs) k → frames_of k !! k.(current) = Some fs →
  core k.(current) (FSetHolder l :: fs) → k.(intr_on) = true →
  ∃ k', lock_acquire l k = Ok (tt, k') ∧ Inv k'.
Proof.
  intros HV Hf Hc Hi. destruct (VInv_thread _ _ HV) as (th & Ht & Hr & Hf').
  assert (frames th = fs) as Hfs by congruence.
  destruct (ti_refs _ _ (vi_ti _ _ HV) _ _ (FSetHolder l) (VInv_lookup _ _ HV)) as (h & Hl & Hh);
    [right; left|]. simpl in Hl.
  unfold lock_acquire. krun. rewrite (vi_ext _ _ HV). krun.
  unfold lock_held_by_current_thread, get_holder. krun. rewrite Hl. krun.
  rewrite (thread_current_eq k th) by done. krun. rewrite bool_decide_eq_false_2 by done. krun.
  rewrite (push_frame_eq _ th) by done. krun.
  apply (sema_down_spec _ _ (FSetHolder l :: fs)); simpl; [|by rewrite <- Hfs; apply frames_of_push| |done].
  - rewrite Hfs. by eapply VInv_cur.
  - by constructor.
Qed.

(** [sema_up] as the next thing to do *)
Lemma sema_up_frame_spec k s fs : VInv (FSemaUp s :: fs) k → frames_of k !! k.(current) = Some fs →
  up_ok k.(current) s → stack k.(current) k.(intr_on) fs →
  ∃ k', sema_up s k = Ok (tt, k') ∧ Inv k'.
Proof.
  intros HV Hf Hu Hs. pose proof (vi_ti _ _ HV) as HT. pose proof (VInv_lookup _ _ HV) as Hv.
  destruct (ti_refs _ _ HT _ _ (FSemaUp s) Hv) as ([n Hn] & _); [left|].
  destruct (sema_up_spec k s n (vi_si _ _ HV) Hn (vi_ext _ _ HV)) as (k' & He & HS & (Ec & Ei & Ex & Ef) & Ev).
  exists k'. split; [done|]. apply (VInv_Inv fs); [|by rewrite Ef, Ec|by rewrite Ec, Ei].
  split; [done| |by rewrite Ec, Ef; apply HV|by rewrite Ex; apply HV].
  rewrite Ec, Ef, Ev. destruct (ti_ident _ _ _ _ HT Hv) as [i Hi].
  rewrite <- (insert_insert_eq (frames_of k) (current k) fs (FSemaUp s :: fs)).
  destruct s; try done.
  - simpl in Hu. subst. eapply TI_val; [|by rewrite lookup_insert_eq|exact Hn|done].
    apply (TI_stack _ _ _ _ HT Hv); [by repeat split| |intros f ?; left; by right].
    intros [H|[b H]]; apply elem_of_cons in H as [H|H]; [done| |done|]; left; [left|right]; eauto.
  - by eapply TI_up_elim.
  - by apply TI_up_lock.
Qed.

(** a direct call of [sema_up] on a semaphore that is no permission *)
Lemma sema_up_user_spec k s n v : VInv v k → (view_of k).(v_val) !! s = Some n →
  match s with SemaLock _ | SemaElim _ | SemaCond _ => False | _ => True end →
  ∃ k', sema_up s k = Ok (tt, k') ∧ VInv v k' ∧ same_ctl k k'.
Proof.
  intros HV Hn Hs.
  destruct (sema_up_spec k s n (vi_si _ _ HV) Hn (vi_ext _ _ HV)) as (k' & He & HS & (Ec & Ei & Ex & Ef) & Ev).
  exists k'. split_and!; [done| |done].
  split; [done| |by rewrite Ec, Ef; apply HV|by rewrite Ex; apply HV].
  rewrite Ec, Ef, Ev. eapply TI_val; [apply HV|by rewrite lookup_insert_eq|exact Hn|done].
Qed.

(** * One frame at a time *)

Lemma VInv_stacked v k : VInv v k → stack k.(current) k.(intr_on) v →
  stacked (<[k.(current) := v]> (frames_of k)) k.(current) k.(intr_on).
Proof.
  intros HV Hs t fs. destruct (decide (t = current k)) as [->|Hne].
  - rewrite lookup_insert_eq. by intros [= <-].
  - rewrite lookup_insert_ne by done. by apply (vi_others _ _ HV).
Qed.

(** nobody else waits for a semaphore of the running thread's own *)
Lemma own_waiting_nil v k s : VInv v k →
  (∀ t fs f, t ≠ k.(current) → frames_of k !! t = Some fs → f ∈ fs → frame_sema f ≠ Some s) →
  waiting k s = [].
Proof.
  intros HV Hn. destruct (waiting k s) as [|u r] eqn:E; [done|exfalso].
  assert (Hu : u ∈ waiting k s) by (rewrite E; left).
  assert (Hne : u ≠ current k) by (eapply si_not_current; eauto using vi_si).
  destruct (si_wait _ _ _ (vi_si _ _ HV) s u Hu) as (_ & _ & th & Ht & _ & b & fs & Hf).
  apply (Hn u (frames th) (FSemaLoop s b)); [done|apply frames_of_lookup; eauto|rewrite Hf; left|done].
Qed.

Lemma SI_sema_delete run lim k s : SI run lim k → waiting k s = [] →
  SI run lim (set_semas (delete s k.(semas)) k).
Proof.
  intros HS Hw. si_update HS. intros s'. unfold waiting in *; simpl.
  destruct (decide (s' = s)) as [->|]; by simplify_map_eq.
Qed.

Lemma SI_sema_init run lim k s n : SI run lim k → waiting k s = [] →
  SI run lim (set_semas (<[s := mk_semaphore n []]> k.(semas)) k).
Proof.
  intros HS Hw. si_update HS. intros s'. unfold waiting in *; simpl.
  destruct (decide (s' = s)) as [->|]; by simplify_map_eq.
Qed.

Section frames.
Context (k : kstate) (th : thread) (Ht : k.(threads) !! k.(current) = Some th).

Lemma set_holder_spec l fs : VInv (FSetHolder l :: fs) k → frames_of k !! k.(current) = Some fs →
  core k.(current) (FSetHolder l :: fs) → k.(intr_on) = true →
  ∃ k', lock_set_holder l k = Ok (tt, k') ∧ Inv k'.
Proof using Ht.
  intros HV Hf Hc Hi. pose proof (VInv_running k th Ht _ HV) as Hr.
  unfold lock_set_holder, put_holder. krun. rewrite (thread_current_eq k th) by done. krun.
  eexists. split; [done|]. apply (VInv_Inv fs); simpl; [|done|].
  - split; simpl; try apply HV.
    + pose proof (vi_si _ _ HV) as HS. si_update HS.
    + pose proof (TI_set_holder _ _ (current k) (vi_ti _ _ HV) l fs (VInv_lookup _ _ HV) Hc) as HT.
      by rewrite insert_insert_eq in HT.
  - rewrite Hi. constructor. destruct (core_holder_inv _ _ _ Hc) as [->| ->]; constructor.
Qed.

Lemma cond_return_spec : VInv [FCondReturn] k → frames_of k !! k.(current) = Some [] →
  k.(intr_on) = true → ∃ k', cond_wait_return k = Ok (tt, k') ∧ Inv k'.
Proof using.
  intros HV Hf Hi. unfold cond_wait_return. krun. eexists. split; [done|].
  assert (Hst : stack (current k) (intr_on k) [FCondReturn]) by (rewrite Hi; constructor; constructor).
  assert (Hw : waiting k (SemaCond (current k)) = []).
  { eapply own_waiting_nil; [exact HV|]. intros t fs f Hne Hfs Hin Hsem.
    pose proof (stack_sema _ _ _ _ _ (vi_others _ _ HV t fs Hne Hfs) Hin Hsem) as Ho. simpl in Ho. congruence. }
  apply (VInv_Inv []); simpl; [|done|rewrite Hi; constructor; constructor].
  split; simpl; try apply HV.
  - apply SI_sema_delete; [apply HV|done].
  - pose proof (TI_cond_return _ _ (vi_ti _ _ HV) (current k) (current k) (intr_on k)
      (VInv_stacked _ _ HV Hst) (VInv_lookup _ _ HV)) as HT.
    rewrite insert_insert_eq in HT. unfold view_of; simpl. rewrite fmap_delete. exact HT.
Qed.

Lemma cond_signal_spec v c l ws : VInv v k → k.(locks) !! l = Some (Some k.(current)) →
  k.(conds) !! c = Some ws →
  ∃ k', cond_signal c l k = Ok (tt, k') ∧ VInv v k' ∧ same_ctl k k' ∧
    k'.(locks) = k.(locks) ∧ k'.(conds) = <[c := tl ws]> k.(conds).
Proof using Ht.
  intros HV Hl Hc. pose proof (VInv_running k th Ht _ HV) as Hr.
  unfold cond_signal. krun. rewrite (vi_ext _ _ HV). krun.
  unfold lock_held_by_current_thread, get_holder. krun. rewrite Hl. krun.
  rewrite (thread_current_eq k th) by done. krun. rewrite bool_decide_eq_true_2 by done. krun.
  unfold get_cond. krun. rewrite Hc. krun. destruct ws as [|w r]; krun.
  - exists k. split_and!; try done. by rewrite insert_id.
  - unfold put_cond. krun. set (k1 := set_conds _ k).
    destruct (ti_cond _ _ (vi_ti _ _ HV) c (w :: r) w Hc (elem_of_here _ _)) as (_ & Hz & _ & _).
    assert (HS1 : SI true None k1) by (pose proof (vi_si _ _ HV) as HS; si_update HS).
    destruct (sema_up_spec k1 w 0 HS1 Hz (vi_ext _ _ HV)) as (k' & He & HS & (Ec & Ei & Ex & Ef) & Ev).
    exists k'. change (current k1) with (current k) in *. change (frames_of k1) with (frames_of k) in *.
    split_and!; [exact He| |done|..].
    + split; [done| |by rewrite Ec, Ef; apply HV|by rewrite Ex; apply HV].
      rewrite Ec, Ef, Ev. apply (TI_signal _ _ (vi_ti _ _ HV) c w r Hc).
    + change (v_lock (view_of k') = v_lock (view_of k)). by rewrite Ev.
    + change (v_cond (view_of k') = v_cond (view_of k1)). by rewrite Ev.
Qed.

End frames.

Lemma cond_broadcast_spec k c l : VInv [FBroadcast c l] k → frames_of k !! k.(current) = Some [] →
  k.(intr_on) = true → ∃ k', cond_broadcast c l k = Ok (tt, k') ∧ Inv k'.
Proof.
  intros HV Hf Hi. destruct (VInv_thread _ _ HV) as (th & Ht & Hr & Hf').
  destruct (ti_refs _ _ (vi_ti _ _ HV) _ _ _ (VInv_lookup _ _ HV) (elem_of_here _ _)) as (Hl & [ws Hc]).
  simpl in Hl, Hc. assert (frames th = []) as Hfs by congruence.
  unfold cond_broadcast, get_cond. krun. rewrite Hc. krun. destruct ws as [|w r].
  - eexists. split; [done|]. apply (VInv_Inv []); [|done|rewrite Hi; constructor; constructor].
    apply (VInv_restack [FBroadcast c l]); [done|by repeat split|no_waits|by intros f ?%elem_of_nil].
  - rewrite (push_frame_eq _ th) by done. rewrite Hfs. krun. set (k1 := set_threads _ k).
    assert (HV1 : VInv [FBroadcast c l] k1) by (by eapply VInv_cur).
    assert (Hf1 : frames_of k1 !! current k1 = Some [FBroadcast c l]).
    { unfold k1. rewrite frames_of_upd. simpl. by rewrite lookup_insert_eq. }
    destruct (VInv_thread _ _ HV1) as (th' & Ht' & _ & _).
    destruct (cond_signal_spec k1 th' Ht' [FBroadcast c l] c l (w :: r) HV1 Hl Hc)
      as (k' & He & HV' & (Ec & Ei & Ex & Ef) & _ & _).
    exists k'. split; [done|]. apply (VInv_Inv [FBroadcast c l]); [done|by rewrite Ef, Ec|].
    rewrite Ec, Ei. simpl. rewrite Hi. by constructor; constructor.
Qed.

(** ** The parent-child protocol *)

Lemma ret_val_eq k th v : k.(threads) !! k.(current) = Some th →
  ret_val v k = Ok (tt, set_threads (<[k.(current) := set_retval v th]> k.(threads)) k).
Proof. intros Ht. unfold ret_val. krun. by rewrite Ht. Qed.

(** the running thread returns [r] *)
Lemma VInv_ret v k th r : VInv v k → k.(threads) !! k.(current) = Some th →
  (FExecFind ∉ v) ∨ r = TID_ERROR → VInv v (set_threads (<[k.(current) := set_retval r th]> k.(threads)) k).
Proof.
  intros HV Ht Hn. split; try apply HV; simpl.
  - eapply SI_cur; eauto using vi_si.
  - rewrite frames_of_upd, insert_insert_eq, view_of_upd.
    apply (TI_ret _ _ (vi_ti _ _ HV) _ v (ident_of th) r (VInv_lookup _ _ HV)); [|exact Hn].
    by rewrite view_th_lookup, Ht.
  - intros t fs Hne. rewrite frames_of_upd, lookup_insert_ne by done. by apply (vi_others _ _ HV).
Qed.

(** [thread_get_child] on a list of live threads *)
Lemma thread_get_child_spec k l x : (∀ c, c ∈ l → is_Some (k.(threads) !! c)) →
  (∃ c, thread_get_child k l x = Ok (Some c) ∧ c ∈ l ∧ ∃ th, k.(threads) !! c = Some th ∧ th.(tid) = x) ∨
  thread_get_child k l x = Ok None ∧ ∀ c th, c ∈ l → k.(threads) !! c = Some th → th.(tid) ≠ x.
Proof.
  unfold thread_get_child. induction l as [|c l IH]; intros Hl.
  - right. split; [done|]. by intros c th ?%elem_of_nil.
  - destruct (Hl c (elem_of_here _ _)) as [cth Hc]. rewrite Hc.
    destruct (Z.eqb_spec (tid cth) x) as [E|E].
    + left. exists c. split_and!; [done|left|eauto].
    + destruct IH as [(d & He & Hd & ?)|[He Hn]].
      * intros d Hd. apply Hl. by right.
      * left. exists d. split_and!; [done|by right|done].
      * right. split; [done|]. intros d dth [->|Hd]%elem_of_cons Hdth; [congruence|eauto].
Qed.

(** the children of a thread are alive *)
Lemma kids_alive σ k t c : TI σ (view_of k) → c ∈ kids (view_of k) t → is_Some (k.(threads) !! c).
Proof.
  intros HT Hc. apply count_elem in Hc.
  assert (is_Some (v_th (view_of k) !! c)) as Hs.
  { eapply ti_child; [exact HT|]. unfold elim_w. instantiate (1 := t). lia. }
  rewrite view_th_lookup in Hs. by destruct (threads k !! c); [eauto|destruct Hs].
Qed.

Lemma kids_of k t th : k.(threads) !! t = Some th → kids (view_of k) t = th.(child_tlist).
Proof. intros Ht. unfold kids. by rewrite view_th_lookup, Ht. Qed.

Lemma live_semas σ k t : TI σ (view_of k) → is_Some (k.(threads) !! t) →
  is_Some (v_val (view_of k) !! SemaWait t) ∧ is_Some (v_val (view_of k) !! SemaLoad t) ∧
  ∃ n, v_val (view_of k) !! SemaElim t = Some n.
Proof.
  intros HT [th Ht]. assert (Hs : is_Some (v_th (view_of k) !! t)) by (rewrite view_th_lookup, Ht; eauto).
  destruct (ti_semas _ _ HT t Hs). destruct (ti_elim _ _ HT t Hs) as (n & ? & _). eauto.
Qed.

(** waiting for a child: [sema_down] on one of its semaphores *)
Lemma child_down_spec k th s c f : VInv [] k → k.(threads) !! k.(current) = Some th → th.(frames) = [] →
  k.(intr_on) = true → c ∈ th.(child_tlist) → (s = SemaWait c ∧ f = FReap c ∨ s = SemaLoad c ∧ f = FExec c) →
  ∃ k', (push_frame f;; sema_down s) k = Ok (tt, k') ∧ Inv k'.
Proof.
  intros HV Ht Hfs Hi Hc Hsf.
  assert (Hk : c ∈ kids (view_of k) (current k)) by (by rewrite (kids_of k _ th)).
  destruct (live_semas _ _ c (vi_ti _ _ HV)) as (Hw & Hl & _); [by eapply kids_alive; [apply HV|]|].
  rewrite (bind_eq _ _ _ _ _ (push_frame_eq k th f Ht)). rewrite Hfs.
  apply (sema_down_spec _ s [f]); simpl; [|by rewrite frames_of_upd, lookup_insert_eq| |done].
  - eapply VInv_cur; [|exact Ht|done|done].
    apply (VInv_restack []); [done|by destruct Hsf as [[-> ->]|[-> ->]]; repeat split|no_waits|].
    intros g Hg. right. destruct Hsf as [[-> ->]|[-> ->]];
      apply elem_of_cons in Hg as [->|Hg]; try done; by apply list_elem_of_singleton in Hg as ->.
  - destruct Hsf as [[-> ->]|[-> ->]]; constructor.
Qed.

Section family.
Context (k : kstate) (th : thread) (Ht : k.(threads) !! k.(current) = Some th).
Context (Hfs : th.(frames) = []) (Hi : k.(intr_on) = true).

Lemma stack_nil : stack k.(current) k.(intr_on) [].
Proof using Hi. rewrite Hi. constructor. constructor. Qed.

Lemma phys_nil : frames_of k !! k.(current) = Some [].
Proof using Ht Hfs. apply frames_of_lookup. eauto. Qed.

Lemma exec_find_spec : VInv [FExecFind] k → ∃ k', syscall_exec_find k = Ok (tt, k') ∧ Inv k'.
Proof using All.
  intros HV. pose proof (VInv_running k th Ht _ HV) as Hr.
  assert (HV0 : VInv [] k).
  { apply (VInv_restack [FExecFind]); [done|by repeat split|no_waits|by intros f ?%elem_of_nil]. }
  unfold syscall_exec_find. rewrite (bind_eq _ _ _ _ _ (thread_current_eq k th Ht Hr)). krun.
  rewrite Ht. krun. destruct (Z.eqb_spec (retval th) TID_ERROR) as [E|E].
  - rewrite (ret_val_eq k th) by done. eexists. split; [done|].
    apply (VInv_Inv []); simpl; [by apply VInv_ret; [..|left; by intros ?%elem_of_nil]| |apply stack_nil].
    by rewrite frames_of_upd, lookup_insert_eq, <- Hfs.
  - destruct (ti_refs _ _ (vi_ti _ _ HV) _ _ _ (VInv_lookup _ _ HV) (elem_of_here _ _)) as (i & Hv & Hc).
    rewrite view_th_lookup, Ht in Hv. simplify_eq/=. destruct Hc as [?|(c & j & Hc & Hj & Htid)]; [done|].
    rewrite lookup_fmap in Hj. apply fmap_Some in Hj as (cth & Hcth & ->). simpl in Htid.
    unfold lift. destruct (thread_get_child_spec k (child_tlist th) (retval th)) as [(d & -> & Hd & _)|[_ Hn]].
    + intros d Hd. eapply kids_alive; [apply HV|]. by rewrite (kids_of k _ th).
    + krun. apply (child_down_spec k th (SemaLoad d) d (FExec d) HV0 Ht Hfs Hi Hd). by right.
    + by destruct (Hn c cth).
Qed.

Lemma exec_done_spec c : VInv [FExec c] k → ∃ k', syscall_exec_done c k = Ok (tt, k') ∧ Inv k'.
Proof using All.
  intros HV.
  pose proof (ti_refs _ _ (vi_ti _ _ HV) _ _ _ (VInv_lookup _ _ HV) (elem_of_here _ _)) as Hc.
  destruct (kids_alive _ _ _ _ (vi_ti _ _ HV) Hc) as [cth Hcth].
  unfold syscall_exec_done. krun. rewrite Hcth. krun. rewrite (ret_val_eq k th) by done.
  eexists. split; [done|]. apply (VInv_Inv []); simpl; [| |apply stack_nil].
  - apply VInv_ret; [|done|left; by intros ?%elem_of_nil].
    apply (VInv_restack [FExec c]); [done|by repeat split|no_waits|by intros f ?%elem_of_nil].
  - by rewrite frames_of_upd, lookup_insert_eq, <- Hfs.
Qed.

Lemma reap_spec c : VInv [FReap c] k → ∃ k', process_reap c k = Ok (tt, k') ∧ Inv k'.
Proof using All.
  intros HV.
  pose proof (ti_refs _ _ (vi_ti _ _ HV) _ _ _ (VInv_lookup _ _ HV) (elem_of_here _ _)) as Hc.
  destruct (kids_alive _ _ _ _ (vi_ti _ _ HV) Hc) as [cth Hcth].
  unfold process_reap. krun. rewrite Hcth. krun. rewrite Ht. krun.
  erewrite ret_val_eq by (simpl; by rewrite lookup_insert_eq). krun. rewrite insert_insert_eq.
  erewrite push_frame_eq by (simpl; by rewrite lookup_insert_eq). krun. rewrite insert_insert_eq, Hfs.
  rewrite !set_threads_twice. eexists. split; [done|].
  assert (Hf1 : ∀ k1 v th1, threads k1 = <[current k := th1]> (threads k) → frames th1 = v →
    frames_of k1 = <[current k := v]> (frames_of k)).
  { intros k1 v th1 E <-. unfold frames_of. by rewrite E, fmap_insert. }
  apply (VInv_Inv [FSemaUp (SemaElim c)]); simpl.
  - split; try apply HV; simpl.
    + pose proof (vi_si _ _ HV) as HS. by eapply SI_cur.
    + erewrite Hf1 by done. rewrite insert_insert_eq. rewrite view_of_upd.
      pose proof (TI_reap _ _ (current k) (ident_of th) (vi_ti _ _ HV)) as HT.
      rewrite view_th_lookup, Ht in HT. specialize (HT eq_refl c (exit_status cth) (VInv_lookup _ _ HV)).
      by rewrite insert_insert_eq in HT.
    + intros t fs Hne. erewrite Hf1 by done. rewrite lookup_insert_ne by done. by apply (vi_others _ _ HV).
  - erewrite Hf1 by done. by rewrite lookup_insert_eq.
  - rewrite Hi. by constructor; constructor; [|constructor].
Qed.

(** one turn of the loop of [thread_exit], or its end *)
Lemma exit_children_spec : VInv [FExitChildren] k → ∃ k', exit_children k = Ok (tt, k') ∧ Inv k'.
Proof using All.
  intros HV. pose proof (VInv_running k th Ht _ HV) as Hr.
  unfold exit_children. rewrite (bind_eq _ _ _ _ _ (thread_current_eq k th Ht Hr)). krun.
  rewrite Ht. krun. destruct (child_tlist th) as [|c r] eqn:Hk.
  - rewrite (push_frame_eq k th) by done. krun. rewrite Hfs. set (k1 := set_threads _ k).
    destruct (live_semas _ _ (current k) (vi_ti _ _ HV)) as ([n Hn] & _ & _); [eauto|].
    assert (HV1 : VInv [FExitWait] k1).
    { eapply VInv_cur; [|exact Ht|done|done].
      apply (VInv_restack [FExitChildren]); [done|by repeat split|no_waits|].
      intros f ->%list_elem_of_singleton. right. simpl. by rewrite (kids_of k _ th). }
    destruct (sema_up_user_spec k1 (SemaWait (current k)) n _ HV1) as (k' & He & HV' & (Ec & Ei & Ex & Ef)); [|done|].
    { unfold k1. by rewrite (view_of_same k _ th). }
    exists k'. split; [done|]. apply (VInv_Inv [FExitWait]); [done| |].
    + rewrite Ef, Ec. unfold k1. rewrite frames_of_upd. simpl. by rewrite lookup_insert_eq.
    + rewrite Ec, Ei. simpl. rewrite Hi. by constructor; constructor.
  - rewrite Ht. krun. erewrite push_frame_eq by (simpl; by rewrite lookup_insert_eq). krun.
    rewrite insert_insert_eq, set_threads_twice, Hfs.
    set (th1 := set_frames _ _). set (k1 := set_threads _ k).
    assert (Hc : c ∈ kids (view_of k) (current k)) by (rewrite (kids_of k _ th), Hk by done; left).
    destruct (live_semas _ _ c (vi_ti _ _ HV)) as (_ & _ & n & Hn).
    { eapply kids_alive; [apply HV|done]. }
    assert (HS1 : SI true None k1) by (eapply SI_cur; [apply HV|exact Ht|done]).
    destruct (sema_up_spec k1 (SemaElim c) n HS1 Hn (vi_ext _ _ HV)) as (k' & He & HS' & (Ec & Ei & Ex & Ef) & Ev).
    assert (Ef1 : frames_of k1 = <[current k := [FExitChildren]]> (frames_of k)) by (apply frames_of_upd).
    change (current k1) with (current k) in Ec. change (intr_on k1) with (intr_on k) in Ei.
    exists k'. split; [done|]. split; [done| | |by rewrite Ex; apply HV].
    + rewrite Ef, Ef1, Ev. unfold k1. rewrite view_of_upd.
      pose proof (TI_exit_child _ _ (current k) (ident_of th) (vi_ti _ _ HV)) as HT.
      rewrite view_th_lookup, Ht in HT. exact (HT eq_refl c r n (VInv_lookup _ _ HV) Hk Hn).
    + rewrite Ef, Ef1, Ec, Ei. apply VInv_stacked; [done|]. rewrite Hi. by constructor; constructor.
Qed.

Lemma exit_wait_spec : VInv [FExitWait] k →
  ∃ k', (cur ← thread_current; push_frame FDie;; sema_down (SemaElim cur)) k = Ok (tt, k') ∧ Inv k'.
Proof using All.
  intros HV. pose proof (VInv_running k th Ht _ HV) as Hr.
  rewrite (bind_eq _ _ _ _ _ (thread_current_eq k th Ht Hr)).
  rewrite (bind_eq _ _ _ _ _ (push_frame_eq k th FDie Ht)). rewrite Hfs.
  pose proof (ti_refs _ _ (vi_ti _ _ HV) _ _ _ (VInv_lookup _ _ HV) (elem_of_here _ _)) as Hk.
  destruct (live_semas _ _ (current k) (vi_ti _ _ HV)) as (_ & _ & n & Hn); [eauto|].
  apply (sema_down_spec _ _ [FDie]); simpl; [|by rewrite frames_of_upd, lookup_insert_eq|constructor|done].
  eapply VInv_cur; [|exact Ht|done|done].
  apply (VInv_restack [FExitWait]); [done|by repeat split|no_waits|].
  intros f Hf. right. apply elem_of_cons in Hf as [->|Hf]; [by exists n|].
  by apply list_elem_of_singleton in Hf as ->.
Qed.
End family.

(** ** The death of the running thread *)

Lemma frames_of_freed c k : frames_of (freed c k) = delete c (frames_of k).
Proof. unfold frames_of; simpl. by rewrite fmap_delete. Qed.

Definition del_thread_vals (t : Z) (V : view) : view :=
  mk_view (delete t V.(v_th))
    (delete (SemaWait t) (delete (SemaLoad t) (delete (SemaElim t) V.(v_val))))
    V.(v_lock) V.(v_cond) V.(v_init) V.(v_idle) V.(v_all) V.(v_load).

Lemma view_of_freed c k : view_of (freed c k) = del_thread_vals c (view_of k).
Proof. unfold view_of, del_thread_vals; simpl. by rewrite !fmap_delete. Qed.

Section dying.
Context (k : kstate) (th : thread) (Ht : k.(threads) !! k.(current) = Some th).
Context (Hfs : th.(frames) = []) (Hi : k.(intr_on) = true) (HV : VInv [FDie] k).

Let kd := set_threads (<[k.(current) := set_status THREAD_DYING th]> k.(threads))
  (set_all_list (filter (λ t, t ≠ k.(current)) k.(all_list)) (set_intr_on false k)).

Lemma dying_SI : SI false None kd.
Proof using Ht HV.
  pose proof (SI_stop k th THREAD_DYING (vi_si _ _ HV) Ht ltac:(done) ltac:(done)) as HS.
  eapply SI_drop_limbo in HS; [|simpl; by rewrite lookup_insert_eq|done]. si_update HS.
Qed.

Lemma dying_stacked : stacked (<[k.(current) := [FDie]]> (frames_of k)) k.(current) k.(intr_on).
Proof using HV Hi. apply VInv_stacked; [done|]. rewrite Hi. by constructor; constructor. Qed.

Lemma dying_not_idle : k.(idle_thread) ≠ Some k.(current).
Proof using HV. by eapply VInv_not_idle. Qed.

Lemma dying_frames : frames_of kd = frames_of k.
Proof using Ht. by apply (frames_of_same (set_all_list _ (set_intr_on false k)) _ th). Qed.

Lemma dying_picks : ∃ n nth, picks kd n ∧ kd.(threads) !! n = Some nth ∧ n ≠ k.(current).
Proof using All.
  destruct (picks_exists kd dying_SI) as (n & nth & Hp & Hn & Hq).
  { apply somebody_ready; [exact dying_SI| | |].
    - assert (Hnil : frames_of kd = <[current k := []]> (<[current k := [FDie]]> (frames_of k))).
      { rewrite dying_frames, insert_insert_eq, insert_id; [done|]. apply frames_of_lookup. eauto. }
      rewrite Hnil. by eapply (idle_same _ (view_of k) (view_of kd) _ [FDie] [] (vi_ti _ _ HV) (VInv_lookup _ _ HV)).
    - rewrite dying_frames. simpl. apply HV.
    - left. rewrite dying_frames. simpl.
      rewrite (lookup_total_correct _ _ []); [done|]. apply frames_of_lookup. eauto. }
  exists n, nth. split_and!; [done..|]. intros ->. destruct Hq as [Hq|Hq].
  - destruct (si_ready _ _ _ dying_SI (current k) Hq) as (_ & th' & Ht' & Hs).
    simpl in Ht'. rewrite lookup_insert_eq in Ht'. by simplify_eq/=.
  - by apply dying_not_idle.
Qed.

Lemma dying_unwaited s :
  s ∈ [SemaWait k.(current); SemaLoad k.(current); SemaElim k.(current)] → waiting kd s = [].
Proof using HV Hi.
  intros Hs. apply (own_waiting_nil _ k s HV). intros t fs f Hne Hf Hin Hsem.
  destruct (die_sema _ _ (current k) _ (vi_ti _ _ HV) dying_stacked (VInv_lookup _ _ HV) t fs f s) as (?&?&?);
    [done|by rewrite lookup_insert_ne|done|done|].
  rewrite !elem_of_cons in Hs. destruct Hs as [?|[?|[?|?%elem_of_nil]]]; done.
Qed.

Lemma exit_die_spec : ∃ k', exit_die k = Ok (tt, k') ∧ Inv k'.
Proof using All.
  pose proof (VInv_running k th Ht _ HV) as Hr.
  destruct dying_picks as (n & nth & Hp & Hn & Hne).
  pose proof (die_not_init _ _ _ (vi_ti _ _ HV) (VInv_lookup _ _ HV)) as Hini.
  assert (Hc : threads kd !! current kd = Some (set_status THREAD_DYING th)).
  { simpl. by rewrite lookup_insert_eq. }
  pose proof (SI_freed kd n nth _ dying_SI Hp Hn Hc eq_refl dying_not_idle Hne dying_unwaited) as HS.
  exists (freed (current k) (switched n nth kd)). split.
  - unfold exit_die, intr_disable. krun.
    rewrite (thread_current_eq (set_intr_on false k) th) by done. krun. rewrite Ht. krun.
    by eapply (schedule_dying_eq kd).
  - assert (Hf : frames_of (freed (current k) (switched n nth kd)) =
      delete (current k) (<[current k := [FDie]]> (frames_of k))).
    { rewrite frames_of_freed, (frames_switched n nth kd), dying_frames by done.
      by rewrite delete_insert_eq. }
    split; [exact HS| | |apply HV].
    + rewrite Hf, view_of_freed, (view_switched n nth kd) by done.
      pose proof (TI_die _ _ (current k) _ (vi_ti _ _ HV) dying_stacked (VInv_lookup _ _ HV)) as HT.
      replace (del_thread_vals (current k) (view_of kd)) with (del_thread (current k) (view_of k)); [done|].
      unfold del_thread_vals, del_thread, view_of; simpl. by rewrite fmap_insert, delete_insert_eq.
    + rewrite Hf. intros t fs. destruct (decide (t = current k)) as [->|Hd]; [by rewrite lookup_delete_eq|].
      rewrite lookup_delete_ne, lookup_insert_ne by done. intros Hf'. simpl.
      destruct (decide (t = n)); by apply (vi_others _ _ HV).
Qed.
End dying.

(** ** The idle thread *)

Lemma idle_start_spec k th s : VInv [FIdle s] k → k.(threads) !! k.(current) = Some th →
  th.(frames) = [] → k.(intr_on) = true → (∃ n, s = SemaUser n) →
  ∃ k', exec_frame (FIdle s) k = Ok (tt, k') ∧ Inv k'.
Proof.
  intros HV Ht Hfs Hi [m ->]. pose proof (VInv_running k th Ht _ HV) as Hr.
  destruct (ti_refs _ _ (vi_ti _ _ HV) _ _ _ (VInv_lookup _ _ HV) (elem_of_here _ _)) as [n Hn].
  unfold exec_frame. rewrite (bind_eq _ _ _ _ _ (thread_current_eq k th Ht Hr)). krun.
  rewrite (push_frame_eq _ th) by done. krun. rewrite Hfs.
  set (k1 := set_threads _ _).
  assert (Ef1 : frames_of k1 = <[current k := [FIdleLoop]]> (frames_of k)) by (unfold frames_of; simpl; by rewrite fmap_insert).
  assert (HV1 : VInv [FIdleLoop] k1).
  { split; try apply HV; simpl.
    - assert (HS : SI true None (set_idle_thread (Some (current k)) k)).
      { pose proof (vi_si _ _ HV) as HS. pose proof (λ t Hq, si_not_current None k t HS Hq) as Hnc.
        destruct HS as [Hc Hrn Hrd Hsn Hsl Hwn Hwt Hpl Hid Hpr Hpw Hwk]. split; try done.
        - intros t Hq. destruct (Hrd t Hq) as (_ & ?). split; [|done]. simpl.
          intros [= E]. by apply (Hnc t); [left|].
        - intros t Hq. destruct (Hsl t Hq) as (_ & _ & ?). split_and!; [done| |done]. simpl.
          intros [= E]. by apply (Hnc t); [right; left|].
        - intros s t Hq. destruct (Hwt s t Hq) as (_ & _ & ?). split_and!; [done| |done]. simpl.
          intros [= E]. by apply (Hnc t); [right; right; eauto|].
        - intros t tth Hq. specialize (Hpl t tth Hq). unfold placed in *; simpl.
          pose proof (ti_idle _ _ (vi_ti _ _ HV)) as Hio. unfold idle_ok in Hio; simpl in Hio.
          destruct (idle_thread k) as [j|] eqn:Ej.
          { destruct Hio as [_ Hb]. specialize (Hb (current k)). by rewrite lookup_total_insert_eq in Hb. }
          destruct (status tth); auto; [by destruct Hpl; [left|]|].
          destruct Hpl as [?|Hpl]; [done|right]. by destruct (frames tth) as [|[] ?].
        - intros i [= <-]. simpl. eauto. }
      eapply (SI_cur (set_idle_thread _ k)); [exact HS|exact Ht|done].
    - assert (Ev1 : view_of k1 = upd_idle (Some (current k)) (view_of k)).
      { by apply (view_of_same (set_idle_thread (Some (current k)) k) (current k) th _ Ht). }
      rewrite Ef1, insert_insert_eq, Ev1. pose proof (TI_idle_start _ _ (vi_ti _ _ HV) (current k) _ (VInv_lookup _ _ HV)) as HT.
      by rewrite insert_insert_eq in HT.
    - intros t fs Hne. rewrite Ef1, lookup_insert_ne by done. by apply HV. }
  destruct (sema_up_user_spec k1 (SemaUser m) n _ HV1 Hn I) as (k' & He & HV' & (Ec & Ei & Ex & Ef)).
  exists k'. split; [done|]. apply (VInv_Inv [FIdleLoop]); [done| |].
  - rewrite Ef, Ec, Ef1. simpl. by rewrite lookup_insert_eq.
  - rewrite Ec, Ei. simpl. rewrite Hi. by constructor; constructor.
Qed.

Lemma idle_loop_spec k th : VInv [FIdleLoop] k → k.(threads) !! k.(current) = Some th →
  th.(frames) = [] → k.(intr_on) = true → ∃ k', exec_frame FIdleLoop k = Ok (tt, k') ∧ Inv k'.
Proof.
  intros HV Ht Hfs Hi. pose proof (VInv_running k th Ht _ HV) as Hr.
  unfold exec_frame, intr_disable. krun. rewrite (push_frame_eq (set_intr_on false k) th) by done. krun. rewrite Hfs.
  erewrite thread_block_eq by (simpl; rewrite ?lookup_insert_eq; eauto; apply HV).
  simpl. rewrite insert_insert_eq, set_threads_twice.
  assert (HV1 : VInv [FIdleHlt] (set_intr_on false k)).
  { apply VInv_intr. apply (VInv_restack [FIdleLoop]); [done|by repeat split|no_waits|].
    intros f ->%list_elem_of_singleton. right.
    exact (ti_refs _ _ (vi_ti _ _ HV) _ _ _ (VInv_lookup _ _ HV) (elem_of_here _ _)). }
  destruct (schedule_spec _ (block_idle_pre (set_intr_on false k) th Ht eq_refl HV1)) as (m & mth & _ & _ & He & HI).
  eexists. split; [exact He|exact HI].
Qed.

Lemma idle_hlt_spec k th : VInv [FIdleHlt] k → k.(threads) !! k.(current) = Some th →
  th.(frames) = [] → ∃ k', exec_frame FIdleHlt k = Ok (tt, k') ∧ Inv k'.
Proof.
  intros HV Ht Hfs. unfold exec_frame, intr_enable. krun. rewrite (vi_ext _ _ HV). krun.
  rewrite (push_frame_eq (set_intr_on true k) th) by done. rewrite Hfs. eexists. split; [done|].
  apply (VInv_Inv [FIdleLoop]); simpl.
  - eapply (VInv_cur _ (set_intr_on true k)); [|exact Ht|done|done]. apply VInv_intr.
    apply (VInv_restack [FIdleHlt]); [done|by repeat split|no_waits|].
    intros f ->%list_elem_of_singleton. right.
    exact (ti_refs _ _ (vi_ti _ _ HV) _ _ _ (VInv_lookup _ _ HV) (elem_of_here _ _)).
  - unfold frames_of; simpl. by rewrite fmap_insert, lookup_insert_eq.
  - by constructor; constructor.
Qed.

(** the end of a call of [intr_set_level] or [intr_enable] *)
Lemma enable_spec k f fs : VInv (f :: fs) k → neutral f = true → core k.(current) fs →
  frames_of k !! k.(current) = Some fs → Inv (set_intr_on true k).
Proof.
  intros HV Hn Hc Hf. apply (VInv_Inv fs); [|done|by constructor].
  apply VInv_intr. by eapply VInv_pop.
Qed.

(** * Running a frame *)

Lemma core_frame_spec k th f fs : VInv (f :: fs) k → k.(threads) !! k.(current) = Some th →
  th.(frames) = fs → core k.(current) (f :: fs) → k.(intr_on) = true →
  ∃ k', exec_frame f k = Ok (tt, k') ∧ Inv k'.
Proof.
  intros HV Ht Hfs Hc Hi.
  assert (Hf : frames_of k !! current k = Some fs) by (apply frames_of_lookup; eauto).
  assert (Hval : ∀ s, f = FSemaDown s → is_Some (v_val (view_of k) !! s)).
  { intros s ->. exact (ti_refs _ _ (vi_ti _ _ HV) _ _ _ (VInv_lookup _ _ HV) (elem_of_here _ _)). }
  inversion Hc as [|s fs' Hu Hc' E|n E|l E|l E|l E|l E|E|c l E|E|c E|c E|E|E|E|n E|E]; subst f; subst; simpl.
  - eapply sema_up_frame_spec; eauto. rewrite Hi. by constructor.
  - apply (sema_down_spec k _ []); [|congruence|constructor|done].
    apply (VInv_restack [FSemaDown (SemaUser n)]); [congruence|by repeat split|no_waits|].
    intros f ->%list_elem_of_singleton. right. by apply Hval.
  - eapply set_holder_spec; eauto.
  - eapply set_holder_spec; eauto.
  - apply (lock_acquire_spec k l [FCondReturn]); [|congruence|constructor|done].
    assert (Hr : ref_ok (view_of k) (current k) (FLockAcquire l)).
    { eapply ti_refs; [apply HV|apply (VInv_lookup _ _ HV)|left]. }
    apply (VInv_restack [FLockAcquire l; FCondReturn]); [congruence|by repeat split|no_waits|].
    intros f Hin. right. repeat (apply elem_of_cons in Hin as [->|Hin]; [|]); [|done|done|by apply elem_of_nil in Hin].
    destruct Hr as (h & Hl & _). destruct (ti_lock _ _ (vi_ti _ _ HV) l h Hl) as (n & Hn & _). by exists n.
  - apply (sema_down_spec k _ [FLockAcquire l; FCondReturn]); [|congruence|constructor|done].
    apply (VInv_restack [FSemaDown (SemaCond (current k)); FLockAcquire l; FCondReturn]);
      [congruence|by repeat split| |].
    + intros _. right. exists true. left.
    + intros f [->|Hin]%elem_of_cons; [right; by apply Hval|left; by right].
  - apply cond_return_spec; congruence.
  - apply cond_broadcast_spec; congruence.
  - eapply exec_find_spec; eauto; congruence.
  - eapply exec_done_spec; eauto; congruence.
  - eapply reap_spec; eauto; congruence.
  - eapply exit_children_spec; eauto; congruence.
  - eapply exit_wait_spec; eauto; congruence.
  - eapply exit_die_spec; eauto; congruence.
  - eapply idle_start_spec; eauto; congruence.
  - eapply idle_loop_spec; eauto; congruence.
Qed.

(** every frame of the running thread runs to its end or to a switch *)
Lemma exec_frame_spec k th f fs : VInv (f :: fs) k → k.(threads) !! k.(current) = Some th →
  th.(frames) = fs → stack k.(current) k.(intr_on) (f :: fs) →
  ∃ k', exec_frame f k = Ok (tt, k') ∧ Inv k'.
Proof.
  intros HV Ht Hfs Hs.
  assert (Hf : frames_of k !! current k = Some fs) by (apply frames_of_lookup; eauto).
  pose proof (vi_ext _ _ HV) as Hx.
  inversion Hs as [fs' Hc E|fs' Hc E|fs' Hc E|fs' Hc E|s fs' Hl E|fs' Hc E|E].
  - by eapply core_frame_spec.
  - subst f fs'. exists (set_intr_on true k). split; [|by eapply enable_spec].
    simpl. unfold intr_enable. krun. by rewrite Hx.
  - subst f fs'. exists (set_intr_on true k). split; [|by eapply enable_spec].
    simpl. by rewrite (bind_eq _ _ _ _ _ (intr_set_level_eq k true (λ _, Hx))).
  - subst f. match goal with H : FIntrEnable :: fs' = fs |- _ => rewrite <- H in HV, Hf end.
    exists k. split.
    + simpl. rewrite (bind_eq _ _ _ _ _ (intr_set_level_eq k false ltac:(done))).
      by rewrite set_intr_on_id.
    + eapply (VInv_Inv (FIntrEnable :: fs')); [by apply (VInv_pop (FSetLevel false))|done|].
      by match goal with H : false = intr_on k |- _ => rewrite <- H; constructor end.
  - subst f fs'. by eapply sema_loop_spec.
  - subst f fs'. exists (set_intr_on true k). split; [|by eapply enable_spec].
    simpl. unfold intr_enable. krun. by rewrite Hx.
  - subst f. eapply idle_hlt_spec; eauto; congruence.
Qed.

Lemma resume_spec k th f fs : Inv k → k.(threads) !! k.(current) = Some th → th.(frames) = f :: fs →
  ∃ k', resume k = Ok (tt, k') ∧ Inv k'.
Proof.
  intros HI Ht Hfs. destruct (Inv_current k HI) as (th' & Ht' & Hr & Hf & Hs).
  assert (th' = th) as -> by congruence. rewrite Hfs in Hs.
  pose proof (Inv_VInv k th HI Ht) as HV. rewrite Hfs in HV.
  unfold resume. krun. rewrite Ht. krun. rewrite Hfs. krun. rewrite Ht. krun.
  apply (exec_frame_spec _ (set_frames fs th) f fs); simpl; [|by rewrite lookup_insert_eq|done|done].
  by eapply VInv_cur.
Qed.
