(* ===== verification/Calls.v ===== *)
(** The calls a thread makes from its own code (threads/synch.c, threads/thread.c,
    devices/timer.c, userprog/process.c, userprog/syscall.c): each returns and
    preserves the kernel's invariant when it is called as its comment asks. *)

From S2P Require Import Prelude KList KListAlgo FixedPoint Thread Synch Kernel Sched Tokens Safety.

#[local] Arguments intr_set_level : simpl never.

(** What the comments of the routines ask of their callers, and what the
    allocators provide: a new object is not in use, a new page is not a thread's;
    a lock is acquired by a thread that does not hold it and released by the one
    that does. *)
Definition call_ok (k : kstate) (c : call) : Prop :=
  match c with
  | CSemaInit n _ => k.(semas) !! SemaUser n = None
  | CSemaDown n | CSemaUp n | CSemaTryDown n => is_Some (k.(semas) !! SemaUser n)
  | CLockInit l => k.(locks) !! l = None ∧ k.(semas) !! SemaLock l = None
  | CLockAcquire l | CLockTryAcquire l =>
      ∃ h, k.(locks) !! l = Some h ∧ h ≠ Some k.(current)
  | CLockRelease l => k.(locks) !! l = Some (Some k.(current))
  | CCondInit c => k.(conds) !! c = None
  | CCondWait c l | CCondSignal c l | CCondBroadcast c l =>
      is_Some (k.(conds) !! c) ∧ k.(locks) !! l = Some (Some k.(current))
  | CCreate page prio => PRI_MIN ≤ prio ≤ PRI_MAX ∧
      (page ≠ 0 → k.(threads) !! page = None ∧ Z.of_nat (length k.(all_list)) < MAX_THREADS)
  | CExec _ page =>
      page ≠ 0 → k.(threads) !! page = None ∧ Z.of_nat (length k.(all_list)) < MAX_THREADS
  | _ => True
  end.

Lemma waiting_none k s : k.(semas) !! s = None → waiting k s = [].
Proof. intros Hs. unfold waiting. by rewrite Hs. Qed.

Section calls.
Context (k : kstate) (th : thread) (Ht : k.(threads) !! k.(current) = Some th).
Context (Hfs : th.(frames) = []) (Hi : k.(intr_on) = true) (HV : VInv [] k).

Lemma calls_running : th.(status) = THREAD_RUNNING.
Proof using Ht HV. by eapply VInv_running. Qed.

(** the call has left the stack empty *)
Lemma done_spec k' : VInv [] k' → same_ctl k k' → Inv k'.
Proof using Ht Hfs Hi.
  intros HV' (Ec & Ei & _ & Ef). apply (VInv_Inv []); [done| |].
  - rewrite Ef, Ec. by eapply phys_nil.
  - rewrite Ec, Ei, Hi. constructor. constructor.
Qed.

Lemma ret_spec k' v : VInv [] k' → same_ctl k k' → ∃ k'', ret_val v k' = Ok (tt, k'') ∧ Inv k''.
Proof using Ht Hfs Hi.
  intros HV' (Ec & Ei & _ & Ef). destruct (VInv_thread _ _ HV') as (th' & Ht' & Hr' & Hf').
  rewrite (ret_val_eq k' th' v Ht'). eexists. split; [done|].
  apply (VInv_Inv []); simpl.
  - apply VInv_ret; [done|done|left; by intros ?%elem_of_nil].
  - rewrite frames_of_upd, lookup_insert_eq. simpl. rewrite Ef, Ec, (phys_nil k th Ht Hfs) in Hf'. congruence.
  - rewrite Ec, Ei, Hi. constructor. constructor.
Qed.

Lemma sema_init_spec n v : k.(semas) !! SemaUser n = None →
  ∃ k', sema_init (SemaUser n) v k = Ok (tt, k') ∧ Inv k'.
Proof using All.
  intros Hs. eexists. split; [done|]. apply done_spec; [|done].
  split; simpl; try apply HV.
  - apply SI_sema_init; [apply HV|by apply waiting_none].
  - rewrite view_of_sema. by apply TI_new_val; [apply HV|].
Qed.

Lemma sema_down_call n : is_Some (k.(semas) !! SemaUser n) →
  ∃ k', sema_down (SemaUser n) k = Ok (tt, k') ∧ Inv k'.
Proof using All.
  intros [sm Hs]. apply (sema_down_spec k _ []); [|by eapply phys_nil|constructor|done].
  apply (VInv_restack []); [done|by repeat split|no_waits|].
  intros f ->%list_elem_of_singleton. right. simpl. rewrite lookup_fmap, Hs. by eexists.
Qed.

Lemma sema_up_call n : is_Some (k.(semas) !! SemaUser n) →
  ∃ k', sema_up (SemaUser n) k = Ok (tt, k') ∧ Inv k'.
Proof using All.
  intros [sm Hs]. destruct (sema_up_user_spec k (SemaUser n) (value sm) [] HV) as (k' & He & HV' & Hc).
  - by rewrite view_val_lookup, Hs.
  - done.
  - exists k'. split; [done|]. by apply done_spec.
Qed.

Lemma sema_try_down_eq s sm : k.(semas) !! s = Some sm →
  sema_try_down s k = Ok (value sm >? 0,
    if value sm >? 0 then set_semas (<[s := mk_semaphore (u32 (value sm - 1)) (waiters sm)]> k.(semas)) k else k).
Proof using HV Hi.
  intros Hs. unfold sema_try_down, intr_disable. krun. rewrite Hs. krun. rewrite Hi.
  destruct (value sm >? 0); krun; rewrite intr_set_level_eq by (intros _; apply HV); krun;
    unfold mret, M_ret; f_equal; f_equal; [|by apply (set_intr_on_id k true)].
  etrans; [|apply (set_intr_on_id (set_semas _ k) true Hi)]. done.
Qed.

Lemma sema_try_down_call n : is_Some (k.(semas) !! SemaUser n) →
  ∃ k', exec_call (CSemaTryDown n) k = Ok (tt, k') ∧ Inv k'.
Proof using All.
  intros [[v ws] Hs]. simpl. rewrite (bind_eq _ _ _ _ _ (sema_try_down_eq _ _ Hs)).
  simpl. destruct (v >? 0); apply ret_spec; try done.
  split; simpl; try apply HV.
  - eapply SI_sema_value; [apply HV|exact Hs].
  - rewrite view_of_sema. by apply TI_new_val; [apply HV|].
Qed.

Lemma lock_init_call l : k.(locks) !! l = None → k.(semas) !! SemaLock l = None →
  ∃ k', lock_init l k = Ok (tt, k') ∧ Inv k'.
Proof using All.
  intros Hl Hs. eexists. split; [done|]. apply done_spec; [|done].
  split; simpl; try apply HV.
  - apply (SI_sema_init true None (set_locks _ k)); [|by apply waiting_none].
    pose proof (vi_si _ _ HV) as HS. si_update HS.
  - pose proof (view_of_sema (set_locks (<[l := None]> (locks k)) k) (SemaLock l) 1 []) as E.
    simpl in E. rewrite E. by apply (TI_lock_init _ _ (vi_ti _ _ HV)).
Qed.

Lemma lock_acquire_call l h : k.(locks) !! l = Some h → h ≠ Some k.(current) →
  ∃ k', lock_acquire l k = Ok (tt, k') ∧ Inv k'.
Proof using All.
  intros Hl Hh. apply (lock_acquire_spec k l []); [|by eapply phys_nil|constructor|done].
  apply (VInv_restack []); [done|by repeat split|no_waits|].
  destruct (ti_lock _ _ (vi_ti _ _ HV) l h Hl) as (n & Hn & _).
  intros f [->|Hf]%elem_of_cons; right; [by exists n|].
  apply list_elem_of_singleton in Hf as ->. by exists h.
Qed.

Lemma lock_try_acquire_call l h : k.(locks) !! l = Some h → h ≠ Some k.(current) →
  ∃ k', exec_call (CLockTryAcquire l) k = Ok (tt, k') ∧ Inv k'.
Proof using All.
  intros Hl Hh. destruct (ti_lock _ _ (vi_ti _ _ HV) l h Hl) as (n & Hn & Ho).
  pose proof Hn as Hn'. rewrite view_val_lookup in Hn'. apply fmap_Some in Hn' as ([n' ws] & Hs & ->).
  simpl. unfold lock_try_acquire, lock_held_by_current_thread, get_holder. krun. rewrite Hl. krun.
  rewrite (thread_current_eq k th) by (done || apply calls_running). krun.
  rewrite bool_decide_eq_false_2 by done. krun.
  rewrite (sema_try_down_eq _ _ Hs). simpl. destruct (Z.gtb_spec n' 0) as [Hp|Hp]; krun; [|by apply ret_spec].
  rewrite (thread_current_eq _ th) by (done || apply calls_running). krun. unfold put_holder. krun.
  apply ret_spec; [|done]. split; simpl; try apply HV.
  - assert (HS : SI true None (set_semas (<[SemaLock l := mk_semaphore (u32 (n' - 1)) ws]> (semas k)) k)).
    { eapply SI_sema_value; [apply HV|exact Hs]. }
    si_update HS.
  - change (TI (<[current k := []]> (frames_of k))
      (upd_holder l (Some (current k)) (view_of (set_semas (<[SemaLock l := mk_semaphore (u32 (n' - 1)) ws]> (semas k)) k)))).
    rewrite view_of_sema.
    apply (TI_try_acquire _ _ _ (vi_ti _ _ HV)); [by rewrite lookup_insert_eq|simpl; congruence|exact Hn|].
    simpl in *. lia.
Qed.

Lemma lock_release_call l : k.(locks) !! l = Some (Some k.(current)) →
  ∃ k', lock_release l k = Ok (tt, k') ∧ Inv k'.
Proof using All.
  intros Hl. unfold lock_release, lock_held_by_current_thread, get_holder. krun. rewrite Hl. krun.
  rewrite (thread_current_eq k th) by (done || apply calls_running). krun.
  rewrite bool_decide_eq_true_2 by done. krun. unfold put_holder. krun.
  rewrite (push_frame_eq (set_locks _ k) th) by done. rewrite Hfs. eexists. split; [done|].
  destruct (ti_lock _ _ (vi_ti _ _ HV) l _ Hl) as (n & Hn & _).
  apply (VInv_Inv [FSemaUp (SemaLock l)]); simpl.
  - eapply (VInv_cur _ (set_locks _ k)); [|exact Ht|done|done].
    split; simpl; try apply HV.
    + pose proof (vi_si _ _ HV) as HS. si_update HS.
    + rewrite <- (insert_insert_eq (frames_of k) (current k) [FSemaUp (SemaLock l)] []).
      apply (TI_release _ _ _ (vi_ti _ _ HV) l); try done.
      * by rewrite lookup_insert_eq.
      * intros f ->%list_elem_of_singleton. simpl. split; [by exists n|]. rewrite lookup_insert_eq. by eexists.
  - unfold frames_of; simpl. by rewrite fmap_insert, lookup_insert_eq.
  - rewrite Hi. by constructor; constructor; [|constructor].
Qed.

(** ** Condition variables *)

Lemma cond_init_call c : k.(conds) !! c = None → ∃ k', cond_init c k = Ok (tt, k') ∧ Inv k'.
Proof using All.
  intros Hc. eexists. split; [done|]. apply done_spec; [|done].
  split; simpl; try apply HV.
  - pose proof (vi_si _ _ HV) as HS. si_update HS.
  - apply (TI_cond _ _ (vi_ti _ _ HV)); [simpl; by rewrite Hc|by intros s ?%elem_of_nil].
Qed.

Lemma own_cond_unwaited : waiting k (SemaCond k.(current)) = [].
Proof using HV.
  eapply own_waiting_nil; [exact HV|]. intros t fs f Hne Hf Hin Hsem.
  pose proof (stack_sema _ _ _ _ _ (vi_others _ _ HV t fs Hne Hf) Hin Hsem) as Ho. simpl in Ho. congruence.
Qed.

(** the permissions once [cond_wait] has queued its waiter and cleared the holder *)
Lemma cond_wait_TI c l ws : k.(conds) !! c = Some ws → k.(locks) !! l = Some (Some k.(current)) →
  let t := k.(current) in
  TI (<[t := [FSemaUp (SemaLock l); FSemaDown (SemaCond t); FLockAcquire l; FCondReturn]]> (frames_of k))
     (upd_holder l None (upd_cond c (ws ++ [SemaCond t]) (upd_val (SemaCond t) 0 (view_of k)))).
Proof using HV.
  intros Hc Hl t. set (v' := [_; _; _; _]).
  assert (Hnil : ¬ cond_waits t ((<[t := []]> (frames_of k)) !!! t)).
  { rewrite lookup_total_insert_eq. no_waits. }
  assert (HT1 : TI (<[t := []]> (frames_of k)) (upd_val (SemaCond t) 0 (view_of k))).
  { apply (TI_new_val _ _ (vi_ti _ _ HV)). apply (cond_unlisted _ _ (vi_ti _ _ HV)). by left. }
  destruct (ti_lock _ _ HT1 l _ Hl) as (n & Hn & _).
  assert (HT2 : TI (<[t := v']> (frames_of k)) (upd_holder l None (upd_val (SemaCond t) 0 (view_of k)))).
  { rewrite <- (insert_insert_eq (frames_of k) t v' []).
    apply (TI_release _ _ _ HT1 l); try done; [by rewrite lookup_insert_eq|].
    intros f Hf. repeat (apply elem_of_cons in Hf as [->|Hf]; [|]); simpl.
    - split; [by exists n|]. rewrite lookup_insert_eq. by eexists.
    - rewrite lookup_insert_eq. by eexists.
    - exists None. by rewrite lookup_insert_eq.
    - done.
    - by apply elem_of_nil in Hf. }
  assert (Hun : ∀ c' ws', conds k !! c' = Some ws' → SemaCond t ∉ ws').
  { apply (cond_unlisted _ _ (vi_ti _ _ HV)). by left. }
  apply (TI_cond_push _ _ HT2 t c ws Hc); [|simpl; by rewrite lookup_insert_eq|exact Hun].
  rewrite lookup_total_insert_eq. left. right. left.
Qed.

Lemma cond_wait_call c l ws : k.(conds) !! c = Some ws → k.(locks) !! l = Some (Some k.(current)) →
  ∃ k', cond_wait c l k = Ok (tt, k') ∧ Inv k'.
Proof using All.
  intros Hc Hl. unfold cond_wait. krun. rewrite (vi_ext _ _ HV). krun.
  unfold lock_held_by_current_thread, get_holder. krun. rewrite Hl. krun.
  rewrite (thread_current_eq k th) by (done || apply calls_running). krun.
  rewrite bool_decide_eq_true_2 by done. krun.
  rewrite (thread_current_eq k th) by (done || apply calls_running). krun.
  unfold sema_init, get_cond, put_cond. krun. rewrite Hc. krun.
  erewrite push_frame_eq by (exact Ht). krun. erewrite push_frame_eq by (simpl; by rewrite lookup_insert_eq). krun.
  rewrite insert_insert_eq. erewrite push_frame_eq by (simpl; by rewrite lookup_insert_eq). krun.
  rewrite insert_insert_eq, Hfs.
  unfold lock_release, lock_held_by_current_thread, get_holder. krun. rewrite Hl. krun.
  erewrite thread_current_eq by (simpl; rewrite ?lookup_insert_eq; eauto; apply calls_running). krun.
  rewrite bool_decide_eq_true_2 by done. krun. unfold put_holder. krun.
  erewrite push_frame_eq by (simpl; by rewrite lookup_insert_eq). krun. rewrite insert_insert_eq.
  eexists. split; [done|].
  set (v' := [FSemaUp (SemaLock l); FSemaDown (SemaCond (current k)); FLockAcquire l; FCondReturn]).
  match goal with |- Inv ?x => set (k' := x) end.
  assert (Ef : frames_of k' = <[current k := v']> (frames_of k)).
  { unfold frames_of, k'; simpl. by rewrite fmap_insert. }
  apply (VInv_Inv v'); [|by rewrite Ef; simpl; rewrite lookup_insert_eq|].
  - split; try apply HV.
    + set (k1 := set_semas (<[SemaCond (current k) := mk_semaphore 0 []]> (semas k)) k).
      assert (HS1 : SI true None k1) by (apply SI_sema_init; [apply HV|apply own_cond_unwaited]).
      assert (HS2 : SI true None (set_threads (<[current k := set_frames v' th]> (threads k)) k1)).
      { eapply (SI_cur k1); [done|exact Ht|done]. }
      si_update HS2.
    + rewrite Ef. simpl. rewrite insert_insert_eq.
      assert (view_of k' = upd_holder l None (upd_cond c (ws ++ [SemaCond (current k)])
        (upd_val (SemaCond (current k)) 0 (view_of k)))) as ->; [|by apply cond_wait_TI].
      unfold view_of, k', upd_holder, upd_cond, upd_val; simpl. rewrite !fmap_insert. simpl.
      f_equal. apply insert_id. by rewrite lookup_fmap, Ht.
    + intros t fs Hne. rewrite Ef, lookup_insert_ne by done. by apply (vi_others _ _ HV).
  - simpl. rewrite Hi. constructor. by constructor; [|constructor].
Qed.

Lemma cond_signal_call c l ws : k.(conds) !! c = Some ws → k.(locks) !! l = Some (Some k.(current)) →
  ∃ k', cond_signal c l k = Ok (tt, k') ∧ Inv k'.
Proof using All.
  intros Hc Hl. destruct (cond_signal_spec k th Ht [] c l ws HV Hl Hc) as (k' & He & HV' & Hctl & _).
  exists k'. split; [done|]. by apply done_spec.
Qed.

Lemma cond_broadcast_call c l ws : k.(conds) !! c = Some ws → k.(locks) !! l = Some (Some k.(current)) →
  ∃ k', cond_broadcast c l k = Ok (tt, k') ∧ Inv k'.
Proof using All.
  intros Hc Hl. apply cond_broadcast_spec; [|by eapply phys_nil|done].
  apply (VInv_restack []); [done|by repeat split|no_waits|].
  intros f ->%list_elem_of_singleton. right. split; [done|]. by exists ws.
Qed.

(** ** Scheduling *)

Lemma thread_yield_call : ∃ k', thread_yield k = Ok (tt, k') ∧ Inv k'.
Proof using All.
  destruct (thread_yield_spec k [] HV) as (n & nth & kp & He & HI & _);
    [by eapply phys_nil|rewrite Hi; by constructor; constructor|]. eauto.
Qed.
End calls.

Lemma thread_set_priority_call k th p : k.(threads) !! k.(current) = Some th → th.(frames) = [] →
  k.(intr_on) = true → VInv [] k → ∃ k', thread_set_priority p k = Ok (tt, k') ∧ Inv k'.
Proof.
  intros Ht Hfs Hi HV. unfold thread_set_priority.
  rewrite (bind_eq _ _ _ _ _ (thread_current_eq k th Ht (calls_running k th Ht HV))). krun. rewrite Ht. krun.
  apply (thread_yield_call _ (set_priority_field p th)); simpl; [by rewrite lookup_insert_eq|done|done|].
  by eapply VInv_cur.
Qed.

Section calls2.
Context (k : kstate) (th : thread) (Ht : k.(threads) !! k.(current) = Some th).
Context (Hfs : th.(frames) = []) (Hi : k.(intr_on) = true) (HV : VInv [] k).

Lemma thread_current_call : thread_current k = Ok (k.(current), k).
Proof using Ht HV. apply (thread_current_eq k th Ht). by eapply calls_running. Qed.

Lemma thread_set_nice_call n : ∃ k', thread_set_nice n k = Ok (tt, k') ∧ Inv k'.
Proof using All.
  unfold thread_set_nice. rewrite (bind_eq _ _ _ _ _ thread_current_call). krun. rewrite Ht. krun.
  eexists. split; [done|]. apply (VInv_Inv []); simpl; [by eapply VInv_cur| |].
  - rewrite frames_of_upd, lookup_insert_eq. simpl. by rewrite Hfs.
  - rewrite Hi. constructor. constructor.
Qed.

Lemma cmp_sleeping_ext (k1 k2 : kstate) a b : (∀ t, wake k1 t = wake k2 t) →
  cmp_sleeping_thread k1 a b = cmp_sleeping_thread k2 a b.
Proof using. intros He. unfold cmp_sleeping_thread. by rewrite !He. Qed.

(** [timer_sleep], as the thread gives up the processor *)
Lemma timer_sleep_call n : ∃ k', timer_sleep n k = Ok (tt, k') ∧ Inv k'.
Proof using All.
  unfold timer_sleep, timer_ticks, intr_disable. krun. rewrite Hi.
  rewrite (intr_set_level_eq (set_intr_on false k) true (λ _, vi_ext _ _ HV)). krun.
  rewrite (push_frame_eq (set_intr_on false k) th) by done. krun. rewrite Hfs.
  unfold thread_sleep. krun.
  erewrite thread_current_eq by (simpl; rewrite ?lookup_insert_eq; eauto; by eapply calls_running).
  krun. rewrite lookup_insert_eq. krun. rewrite insert_insert_eq.
  erewrite thread_block_eq by (simpl; rewrite ?lookup_insert_eq; eauto; (by eapply calls_running) || apply HV).
  simpl. rewrite insert_insert_eq.
  assert (HV1 : VInv [FSetLevel true] (set_intr_on false k)) by (apply VInv_intr, VInv_push; done).
  pose proof (block_sleep_pre (set_intr_on false k) th Ht eq_refl (s64 (ticks k + n)) HV1) as HP.
  simpl in HP. rewrite (ins_ordered_ext _ (cmp_sleeping_thread (set_threads
    (<[current k := set_wake_up_tick (s64 (ticks k + n)) (set_frames [FSetLevel true] th)]> (threads k)) k))) in HP.
  - destruct (schedule_spec _ HP) as (m & mth & _ & _ & He & HI). eexists. split; [|exact HI].
    rewrite <- He. done.
  - intros a b. apply cmp_sleeping_ext. intros t. unfold wake; simpl.
    destruct (decide (t = current k)) as [->|]; by simplify_map_eq.
Qed.

(** ** Parents and children *)

Lemma process_wait_call x : ∃ k', process_wait x k = Ok (tt, k') ∧ Inv k'.
Proof using All.
  unfold process_wait. rewrite (bind_eq _ _ _ _ _ thread_current_call). krun. rewrite Ht. krun. unfold lift.
  destruct (thread_get_child_spec k (child_tlist th) x) as [(d & -> & Hd & _)|[-> Hn]].
  - intros d Hd. eapply kids_alive; [apply HV|]. by rewrite (kids_of k _ th).
  - krun. apply (child_down_spec k th (SemaWait d) d (FReap d) HV Ht Hfs Hi Hd). by left.
  - krun. eapply (ret_spec k th); eauto. done.
Qed.

Lemma start_process_loaded_call b1 b2 : ∃ k', start_process_loaded b1 b2 k = Ok (tt, k') ∧ Inv k'.
Proof using All.
  unfold start_process_loaded. rewrite (bind_eq _ _ _ _ _ thread_current_call). krun. rewrite Ht. krun.
  rewrite lookup_insert_eq. krun. rewrite insert_insert_eq, set_threads_twice.
  destruct (live_semas _ _ (current k) (vi_ti _ _ HV)) as (_ & Hl & _); [eauto|].
  set (th1 := set_is_loaded b2 (set_has_pagedir b1 th)).
  set (v := FSemaUp (SemaLoad (current k)) :: if b2 then [] else [FExitChildren]).
  assert (HV1 : VInv v k).
  { apply (VInv_restack []); [done|by destruct b2; repeat split|no_waits|].
    intros f Hf. right. apply elem_of_cons in Hf as [->|Hf]; [by split|].
    destruct b2; [by apply elem_of_nil in Hf|]. by apply list_elem_of_singleton in Hf as ->. }
  assert (HI : Inv (set_threads (<[current k := set_frames v th1]> (threads k)) k)).
  { apply (VInv_Inv v); simpl; [by eapply VInv_cur|by rewrite frames_of_upd, lookup_insert_eq|].
    rewrite Hi. constructor. constructor; [done|]. destruct b2; constructor. }
  eexists. split; [|exact HI]. destruct b2; krun.
  - erewrite push_frame_eq by (simpl; by rewrite lookup_insert_eq). simpl. rewrite insert_insert_eq.
    rewrite set_threads_twice. unfold v, th1. by rewrite Hfs.
  - erewrite push_frame_eq by (simpl; by rewrite lookup_insert_eq). krun.
    erewrite push_frame_eq by (simpl; by rewrite lookup_insert_eq). simpl. rewrite !insert_insert_eq.
    rewrite !set_threads_twice. unfold v, th1. by rewrite Hfs.
Qed.

Lemma thread_exit_call : ∃ k', thread_exit k = Ok (tt, k') ∧ Inv k'.
Proof using All.
  unfold thread_exit. rewrite (bind_eq _ _ _ _ _ thread_current_call). krun. rewrite (vi_ext _ _ HV). krun.
  rewrite Ht. krun. erewrite push_frame_eq by (simpl; by rewrite lookup_insert_eq). simpl.
  rewrite insert_insert_eq, set_threads_twice, Hfs. eexists. split; [done|].
  apply (VInv_Inv [FExitChildren]); simpl.
  - eapply VInv_cur; [|exact Ht|done|done].
    apply (VInv_restack []); [done|by repeat split|no_waits|].
    intros f ->%list_elem_of_singleton. by right.
  - by rewrite frames_of_upd, lookup_insert_eq.
  - rewrite Hi. by constructor; constructor.
Qed.
End calls2.

Lemma syscall_exit_call k th code : k.(threads) !! k.(current) = Some th → th.(frames) = [] →
  k.(intr_on) = true → VInv [] k → ∃ k', syscall_exit code k = Ok (tt, k') ∧ Inv k'.
Proof.
  intros Ht Hfs Hi HV. unfold syscall_exit.
  rewrite (bind_eq _ _ _ _ _ (thread_current_call k th Ht HV)). krun. rewrite Ht. krun.
  apply (thread_exit_call _ (set_exit_status code th)); simpl; [by rewrite lookup_insert_eq|done|done|].
  by eapply VInv_cur.
Qed.

(** ** Creating a thread *)

(** a new thread, in no queue yet *)
Lemma SI_birth lim run k k' p thp : SI run lim k → lim = None →
  k.(threads) !! p = None → thp.(status) = THREAD_BLOCKED →
  k'.(threads) = <[p := thp]> k.(threads) → (∀ s, waiting k' s = waiting k s) →
  k'.(current) = k.(current) → k'.(ready_list) = k.(ready_list) →
  k'.(sleeping_list) = k.(sleeping_list) → k'.(idle_thread) = k.(idle_thread) →
  k'.(thread_mlfqs) = k.(thread_mlfqs) → SI run (Some p) k'.
Proof.
  intros HS -> Hp Hb Eth Ew Ec Er Es Ei Em.
  assert (Hth : ∀ u th, threads k !! u = Some th → u ≠ p ∧ threads k' !! u = Some th).
  { intros u th Hu. assert (u ≠ p) by congruence. split; [done|]. by rewrite Eth, lookup_insert_ne. }
  assert (Hpr : ∀ u, is_Some (threads k !! u) → prio k' u = prio k u ∧ wake k' u = wake k u).
  { intros u [th Hu]. destruct (Hth u th Hu) as [_ Hu']. unfold prio, wake. by rewrite Hu, Hu'. }
  assert (Hkeep : ∀ u P, blocked_at k None u P → blocked_at k' (Some p) u P).
  { intros u P (_ & Hi & th & Hu & ? & ?). destruct (Hth u th Hu). split_and!; [congruence|congruence|eauto]. }
  destruct HS as [(cth & Hc & Hrc) Hrn Hrd Hsn Hsl Hwn Hwt Hpl Hid Hprs Hpw Hwk]. split.
  - destruct (Hth _ _ Hc). exists cth. by rewrite Ec.
  - by rewrite Er.
  - rewrite Er, Ei. intros u Hu. destruct (Hrd u Hu) as (? & th & Hu' & ?). destruct (Hth u th Hu'). eauto.
  - by rewrite Es.
  - rewrite Es. auto.
  - intros s. by rewrite Ew.
  - intros s u. rewrite Ew. auto.
  - intros u th. rewrite Eth. destruct (decide (u = p)) as [->|Hne].
    + rewrite lookup_insert_eq. intros [= <-]. unfold placed. rewrite Hb. by left.
    + rewrite lookup_insert_ne by done. intros Hu. specialize (Hpl u th Hu). unfold placed in *.
      rewrite Ec, Er, Es, Ei. destruct (status th); auto. destruct Hpl as [?|Hpl]; [done|right].
      destruct (frames th) as [|[] ?]; auto. by rewrite Ew.
  - intros i. rewrite Ei. intros Hi. destruct (Hid i Hi) as [th Hi']. destruct (Hth i th Hi'). eauto.
  - rewrite Em, Er. intros Hm. eapply prio_sorted_ext; [|by apply Hprs]. intros u Hu. apply Hpr.
    destruct (Hrd u Hu) as (_ & th & ? & _). eauto.
  - rewrite Em. intros Hm s. rewrite Ew. eapply prio_sorted_ext; [|by apply Hpw]. intros u Hu. apply Hpr.
    destruct (Hwt s u Hu) as (_ & _ & th & ? & _). eauto.
  - rewrite Es. eapply wake_sorted_ext; [|done]. intros u Hu. apply Hpr.
    destruct (Hsl u Hu) as (_ & _ & th & ? & _). eauto.
Qed.

Lemma get_thread_eq k t th : k.(threads) !! t = Some th → get_thread t k = Ok (th, k).
Proof. intros Ht. unfold get_thread. krun. by rewrite Ht. Qed.

Lemma upd_thread_eq k t th f : k.(threads) !! t = Some th →
  upd_thread t f k = Ok (tt, set_threads (<[t := f th]> k.(threads)) k).
Proof. intros Ht. unfold upd_thread. by rewrite (bind_eq _ _ _ _ _ (get_thread_eq k t th Ht)). Qed.

Lemma allocate_tid_eq k : allocate_tid k = Ok (k.(next_tid), set_next_tid (s32 (k.(next_tid) + 1)) k).
Proof. done. Qed.

Lemma intr_disable_eq k : intr_disable k = Ok (k.(intr_on), set_intr_on false k).
Proof. done. Qed.

Lemma init_thread_eq k t p o : t ≠ 0 → PRI_MIN ≤ p ≤ PRI_MAX →
  init_thread t p o k = Ok (tt, set_semas
    (<[SemaElim t := mk_semaphore 0 []]> (<[SemaLoad t := mk_semaphore 0 []]>
       (<[SemaWait t := mk_semaphore 0 []]> k.(semas))))
    (set_all_list (k.(all_list) ++ [t]) (set_threads (<[t := mk_thread 0 THREAD_BLOCKED p false [] false 0 0
       (from_option nice 0 o) (from_option recent_cpu 0 o) [] 0]> k.(threads)) k))).
Proof.
  intros H1 H2. unfold init_thread. destruct (Z.eqb_spec t 0) as [?|_]; [done|].
  destruct (Z.leb_spec PRI_MIN p); [|lia]. destruct (Z.leb_spec p PRI_MAX); [|lia]. done.
Qed.

Section create.
Context (k : kstate) (th : thread) (v : list frame) (page p : Z).
Context (Ht : k.(threads) !! k.(current) = Some th) (Hfs : th.(frames) = v).
Context (Hi : k.(intr_on) = true) (HV : VInv [] k) (Hv : v = [] ∨ v = [FExecFind]).
Context (Hp : PRI_MIN ≤ p ≤ PRI_MAX) (Hpage : page ≠ 0) (Hnew : k.(threads) !! page = None).
Context (Hmax : Z.of_nat (length k.(all_list)) < MAX_THREADS).

(** the new thread and the parent, as [thread_unblock] is called *)
Let thn := mk_thread k.(next_tid) THREAD_BLOCKED p false [] false 0 0 th.(nice) th.(recent_cpu) [FKernelThread] 0.
Let thc := set_child_tlist (th.(child_tlist) ++ [page]) th.
Let kb := set_threads (<[k.(current) := thc]> (<[page := thn]> k.(threads)))
  (set_next_tid (s32 (k.(next_tid) + 1)) (set_semas
    (<[SemaElim page := mk_semaphore 0 []]> (<[SemaLoad page := mk_semaphore 0 []]>
       (<[SemaWait page := mk_semaphore 0 []]> k.(semas)))) (set_all_list (k.(all_list) ++ [page]) k))).

Lemma create_ne : k.(current) ≠ page.
Proof using Ht Hnew. intros E. congruence. Qed.

Lemma create_eq : thread_create page p [] k =
  (thread_unblock page;; ret_val k.(next_tid);; thread_yield) kb.
Proof using All.
  pose proof create_ne as Hne. pose proof (VInv_running k th Ht [] HV) as Hr.
  unfold thread_create. destruct (Z.eqb_spec page 0) as [?|_]; [done|].
  rewrite (bind_eq _ _ _ _ _ (thread_current_eq k th Ht Hr)).
  rewrite (bind_eq _ _ _ _ _ (get_thread_eq _ _ _ Ht)).
  rewrite (bind_eq _ _ _ _ _ (init_thread_eq k page p (Some th) Hpage Hp)).
  rewrite (bind_eq _ _ _ _ _ (allocate_tid_eq _)).
  erewrite (bind_eq (upd_thread page _)) by (apply upd_thread_eq; simpl; by rewrite lookup_insert_eq).
  rewrite (bind_eq _ _ _ _ _ (intr_disable_eq _)). cbv beta.
  erewrite (bind_eq (upd_thread page _)) by (apply upd_thread_eq; simpl; by rewrite lookup_insert_eq).
  erewrite (bind_eq (intr_set_level _)) by (apply intr_set_level_eq; intros _; exact (vi_ext _ _ HV)).
  erewrite (bind_eq (upd_thread (current k) _)) by (apply upd_thread_eq; simpl; rewrite !lookup_insert_ne by done; exact Ht).
  match goal with |- ?f ?x = _ => enough (H : x = kb) by exact (f_equal f H) end. simpl. rewrite Hi.
  rewrite !insert_insert_eq. unfold kb, thc, thn.
  match goal with |- _ = set_threads ?m ?k0 => transitivity (set_threads m (set_intr_on true k0)); [done|] end.
  by match goal with |- set_threads _ (set_intr_on true ?k0) = _ => rewrite (set_intr_on_id k0 true Hi) end.
Qed.

Lemma birth_SI : SI true (Some page) kb.
Proof using All.
  pose proof create_ne as Hne.
  destruct (ti_nosemas _ _ (vi_ti _ _ HV) page) as (Hs1 & Hs2 & Hs3).
  { by rewrite view_th_lookup, Hnew. }
  rewrite view_val_lookup in Hs1, Hs2, Hs3. apply fmap_None in Hs1, Hs2, Hs3.
  set (k1 := set_threads (<[page := thn]> k.(threads)) (set_semas (semas kb) k)).
  assert (HS1 : SI true (Some page) k1).
  { eapply (SI_birth None true k k1 page thn); try done; [apply HV|].
    intros s. unfold waiting; simpl.
    destruct (decide (s = SemaElim page)) as [->|]; [by simplify_map_eq|rewrite lookup_insert_ne by done].
    destruct (decide (s = SemaLoad page)) as [->|]; [by simplify_map_eq|rewrite lookup_insert_ne by done].
    destruct (decide (s = SemaWait page)) as [->|]; [by simplify_map_eq|by rewrite lookup_insert_ne]. }
  assert (HS2 : SI true (Some page) (set_threads (<[current k := thc]> (threads k1)) k1)).
  { eapply (SI_cur k1 th); [done|simpl; by rewrite lookup_insert_ne|done]. }
  si_update HS2.
Qed.

(** the state after [thread_unblock] and the setting of the result *)
Let kr := set_threads (<[k.(current) := set_retval k.(next_tid) thc]>
  (<[page := set_status THREAD_READY thn]> (<[k.(current) := thc]> (<[page := thn]> k.(threads)))))
  (made_ready page thn kb).

Lemma create_frames : frames_of kr = <[page := [FKernelThread]]> (frames_of k).
Proof using All.
  pose proof create_ne as Hne. apply map_eq. intros u. unfold frames_of; simpl.
  rewrite !fmap_insert. simpl. destruct (decide (u = current k)) as [->|].
  - rewrite lookup_insert_eq, lookup_insert_ne by done. by rewrite lookup_fmap, Ht.
  - rewrite lookup_insert_ne by done. destruct (decide (u = page)) as [->|].
    + by rewrite !lookup_insert_eq.
    + by rewrite !lookup_insert_ne.
Qed.

Lemma create_view : view_of kr =
  add_thread k.(current) page (mk_ident (th.(child_tlist) ++ [page]) th.(tid) k.(next_tid)) k.(next_tid) (view_of k).
Proof using All.
  pose proof create_ne as Hne. unfold view_of, add_thread; simpl. rewrite !fmap_insert. simpl. f_equal.
  apply map_eq. intros u. destruct (decide (u = current k)) as [->|]; [by rewrite !lookup_insert_eq|].
  rewrite !(lookup_insert_ne _ (current k)) by done.
  destruct (decide (u = page)) as [->|]; [by rewrite !lookup_insert_eq|].
  by rewrite !lookup_insert_ne.
Qed.

Lemma create_VInv : VInv v kr.
Proof using All.
  pose proof create_ne as Hne. pose proof birth_SI as HS.
  assert (Hkb : threads kb !! page = Some thn) by (simpl; rewrite lookup_insert_ne, lookup_insert_eq; done).
  assert (HV0 : VInv [] kr).
  { split; [| | |apply HV].
    - assert (HS1 : SI true None (made_ready page thn kb)).
      { apply (SI_made_ready true kb page thn Hkb) with (lim := Some page); [|done| |done|auto].
        - intros Hid. destruct (si_idle _ _ _ (vi_si _ _ HV) page Hid). congruence.
        - done. }
      apply (SI_cur (made_ready page thn kb) thc (set_retval k.(next_tid) thc)); [done| |done].
      simpl. by rewrite lookup_insert_ne, lookup_insert_eq.
    - rewrite create_frames, create_view. simpl. rewrite insert_insert_ne by done.
      apply (TI_create _ _ (current k) page [] (ident_of th) (next_tid k) (vi_ti _ _ HV)); try done.
      + by rewrite lookup_insert_eq.
      + by rewrite view_th_lookup, Ht.
      + by rewrite view_th_lookup, Hnew.
      + split; by intros ?%elem_of_nil.
    - rewrite create_frames. simpl. intros t fs Hnt. destruct (decide (t = page)) as [->|].
      + rewrite lookup_insert_eq. intros [= <-]. constructor. constructor.
      + rewrite lookup_insert_ne by done. by apply (vi_others _ _ HV). }
  destruct Hv as [E|E]; rewrite E; [done|].
  apply (VInv_restack []); [done|by repeat split|no_waits|].
  intros f ->%list_elem_of_singleton. right. rewrite create_view. simpl.
  eexists. rewrite lookup_insert_eq. split; [done|right]. exists page. eexists. simpl.
  rewrite lookup_insert_ne, lookup_insert_eq by done. split_and!; [apply elem_of_app; right; left|done|done].
Qed.

Lemma thread_create_spec : ∃ k', thread_create page p [] k = Ok (tt, k') ∧ Inv k'.
Proof using All.
  pose proof create_ne as Hne. rewrite create_eq.
  assert (Hkb : threads kb !! page = Some thn) by (simpl; rewrite lookup_insert_ne, lookup_insert_eq; done).
  rewrite (bind_eq _ _ _ _ _ (thread_unblock_eq kb page thn Hkb eq_refl (λ _, vi_ext _ _ HV))).
  assert (Hc : threads (made_ready page thn kb) !! current (made_ready page thn kb) = Some thc).
  { simpl. by rewrite lookup_insert_ne, lookup_insert_eq. }
  rewrite (bind_eq _ _ _ _ _ (ret_val_eq _ _ (next_tid k) Hc)).
  destruct (thread_yield_spec kr v create_VInv) as (m & mth & kp & He & HI & _).
  - rewrite create_frames. simpl. rewrite lookup_insert_ne by done. apply frames_of_lookup. eauto.
  - simpl. rewrite Hi. constructor. destruct Hv as [E|E]; rewrite E; constructor.
  - eexists. split; [exact He|exact HI].
Qed.
End create.

(** [syscall_exec]: no page for the copy of the command line or for the thread,
    or a new thread *)
Lemma syscall_exec_call k th fn_copy page : k.(threads) !! k.(current) = Some th → th.(frames) = [] →
  k.(intr_on) = true → VInv [] k →
  (page ≠ 0 → k.(threads) !! page = None ∧ Z.of_nat (length k.(all_list)) < MAX_THREADS) →
  ∃ k', syscall_exec fn_copy page k = Ok (tt, k') ∧ Inv k'.
Proof.
  intros Ht Hfs Hi HV Hpg. unfold syscall_exec.
  rewrite (bind_eq _ _ _ _ _ (push_frame_eq k th FExecFind Ht)). rewrite Hfs.
  set (th1 := set_frames [FExecFind] th). set (k1 := set_threads _ k).
  assert (Ht1 : threads k1 !! current k1 = Some th1) by (simpl; by rewrite lookup_insert_eq).
  assert (HV1 : VInv [] k1) by (by eapply VInv_cur).
  assert (Herr : ∃ k', ret_val TID_ERROR k1 = Ok (tt, k') ∧ Inv k').
  { rewrite (ret_val_eq k1 th1 _ Ht1). eexists. split; [done|].
    assert (HV2 : VInv [] (set_threads (<[current k1 := set_retval TID_ERROR th1]> (threads k1)) k1)).
    { apply VInv_ret; [done|done|left; by intros ?%elem_of_nil]. }
    apply (VInv_Inv [FExecFind]).
    - apply (VInv_restack []); [done|by repeat split|no_waits|].
      intros f ->%list_elem_of_singleton. right. simpl. exists (ident_of (set_retval TID_ERROR th1)).
      rewrite !fmap_insert, lookup_insert_eq. split; [done|by left].
    - rewrite frames_of_upd. simpl. by rewrite lookup_insert_eq.
    - simpl. rewrite Hi. constructor. constructor. }
  unfold process_execute. destruct (Z.eqb_spec fn_copy 0); [done|].
  unfold thread_create at 1. destruct (Z.eqb_spec page 0) as [|Hp0]; [done|].
  destruct (Hpg Hp0) as [Hnew Hmax].
  destruct (thread_create_spec k1 th1 [FExecFind] page PRI_DEFAULT) as (k' & He & HI); auto.
  - by unfold PRI_MIN, PRI_DEFAULT, PRI_MAX.
  - simpl. rewrite lookup_insert_ne; [done|congruence].
  - exists k'. split; [|done]. rewrite <- He. unfold thread_create.
    destruct (Z.eqb_spec page 0); done.
Qed.

Lemma thread_create_call k th page p : k.(threads) !! k.(current) = Some th → th.(frames) = [] →
  k.(intr_on) = true → VInv [] k → PRI_MIN ≤ p ≤ PRI_MAX →
  (page ≠ 0 → k.(threads) !! page = None ∧ Z.of_nat (length k.(all_list)) < MAX_THREADS) →
  ∃ k', thread_create page p [] k = Ok (tt, k') ∧ Inv k'.
Proof.
  intros Ht Hfs Hi HV Hp Hpg. destruct (decide (page = 0)) as [->|Hp0].
  - eapply (ret_spec k th); eauto. done.
  - destruct (Hpg Hp0). by apply (thread_create_spec k th []); auto.
Qed.

(** every call a thread makes as the comments ask returns, in a state of the
    invariant *)
Lemma exec_call_spec k th c : Inv k → k.(threads) !! k.(current) = Some th → th.(frames) = [] →
  call_ok k c → ∃ k', exec_call c k = Ok (tt, k') ∧ Inv k'.
Proof.
  intros HI Ht Hfs Hc.
  assert (Hf : frames_of k !! current k = Some []) by by eapply phys_nil.
  assert (HV : VInv [] k) by (rewrite <- Hfs; by apply Inv_VInv).
  assert (Hi : intr_on k = true) by (pose proof (inv_stack _ HI _ _ Hf) as Hs; rewrite decide_True in Hs by done; by inversion Hs).
  destruct c; simpl in *; eauto using sema_init_spec, sema_down_call, sema_up_call, sema_try_down_call,
    cond_init_call, thread_yield_call, thread_set_priority_call, thread_set_nice_call, timer_sleep_call,
    syscall_exec_call, start_process_loaded_call, process_wait_call, syscall_exit_call, thread_exit_call.
  - destruct Hc. by eapply lock_init_call.
  - destruct Hc as (h & Hl & Hh). by eapply lock_acquire_call.
  - destruct Hc as (h & Hl & Hh). by eapply lock_try_acquire_call.
  - by eapply lock_release_call.
  - destruct Hc as [[ws Hw] Hl]. by eapply cond_wait_call.
  - destruct Hc as [[ws Hw] Hl]. by eapply cond_signal_call.
  - destruct Hc as [[ws Hw] Hl]. by eapply cond_broadcast_call.
  - destruct Hc as [Hp Hn]. by eapply thread_create_call.
Qed.
