(* ===== verification/Tick.v ===== *)
(** The timer interrupt (devices/timer.c: [timer_interrupt]; threads/thread.c:
    [thread_tick], [thread_wake_up]; threads/interrupt.c: [intr_handler]): the
    handler returns, wakes exactly the sleepers that are due, keeps the load
    average and the priorities in range, and preserves the kernel's invariant. *)

From S2P Require Import Prelude KList KListAlgo FixedPoint Thread Synch Kernel Sched Tokens Safety Calls.

#[local] Arguments intr_set_level : simpl never.

(** * The fixed-point computations of the feedback scheduler *)

Lemma next_load_avg_ok la ready : 0 ≤ la ≤ 2 ^ 28 → 0 ≤ ready ≤ MAX_THREADS →
  ∃ la', next_load_avg la ready = Ok la' ∧ 0 ≤ la' ≤ 2 ^ 28 ∧
    la' = Z.quot (16110 * la) NUM_1 + 273 * ready.
Proof.
  intros Hla Hr. unfold MAX_THREADS in Hr. unfold next_load_avg.
  change (div_FP_to_FP (int_to_FP 59) (int_to_FP 60)) with (Ok (A:=Z) 16110).
  change (div_FP_to_FP (int_to_FP 1) (int_to_FP 60)) with (Ok (A:=Z) 273). simpl.
  eexists. split; [reflexivity|].
  unfold int_to_FP. rewrite (s32_small (ready * NUM_1)) by (rewrite ?NUM_1_eq; lia).
  rewrite (mul_FP_exact 16110 la) by (unfold int32; lia).
  rewrite (mul_FP_exact 273 (ready * NUM_1)) by (unfold int32; rewrite ?NUM_1_eq; lia).
  rewrite Z.mul_assoc, Z.quot_mul by done.
  pose proof (quot_nonneg (16110 * la) NUM_1 ltac:(lia) ltac:(rewrite NUM_1_eq; lia)) as Hq.
  rewrite NUM_1_eq in *. unfold add_FP_to_FP. rewrite s32_small by lia. split; [lia|done].
Qed.

Lemma next_recent_cpu_ok la rc n : 0 ≤ la ≤ 2 ^ 28 →
  ∃ v, next_recent_cpu (mul_FP_to_FP la (int_to_FP 2)) rc n = Ok v.
Proof.
  intros Hla. unfold next_recent_cpu. change (int_to_FP 2) with (2 * 16384).
  rewrite (mul_FP_exact la) by (unfold int32; lia). rewrite Z.mul_assoc, Z.quot_mul by done.
  assert (add_FP_to_FP (la * 2) (int_to_FP 1) = la * 2 + 16384) as -> by (apply s32_small; lia).
  unfold div_FP_to_FP. destruct (Z.eqb_spec (la * 2 + 16384) 0); [lia|]. simpl. eauto.
Qed.

Lemma next_priority_ok rc n : ∃ p, next_priority rc n = Ok p ∧ PRI_MIN ≤ p ≤ PRI_MAX.
Proof.
  assert (∃ q, div_FP_to_FP rc (int_to_FP 4) = Ok q) as [q Hq] by (eexists; reflexivity).
  unfold next_priority. rewrite Hq. eexists. split; [reflexivity|]. unfold PRI_MIN, PRI_MAX. rewrite !Z.gtb_ltb.
  match goal with |- context [FP_to_int_round_off ?x] => generalize (FP_to_int_round_off x) end.
  intros p. destruct (Z.ltb_spec 63 p); match goal with |- context [?x <? 0] => destruct (Z.ltb_spec x 0) end; lia.
Qed.

(** * What the handler may change *)

Definition set_v_load (x : Z) (V : view) : view :=
  mk_view V.(v_th) V.(v_val) V.(v_lock) V.(v_cond) V.(v_init) V.(v_idle) V.(v_all) x.

(** [k'] differs from [k] by accounting, priorities in the mlfqs mode, and threads
    that have become ready *)
Record mild (k k' : kstate) : Prop := {
  q_si : SI true None k';
  q_frames : frames_of k' = frames_of k;
  q_view : view_of k' = set_v_load k'.(load_avg) (view_of k);
  q_load : 0 ≤ k'.(load_avg) ≤ 2 ^ 28;
  q_cur : k'.(current) = k.(current);
  q_on : k'.(intr_on) = false;
  q_ext : k'.(in_external_intr) = true;
  q_mlfqs : k'.(thread_mlfqs) = k.(thread_mlfqs);
  q_ticks : k'.(ticks) = k.(ticks);
  q_wake : ∀ t, wake k' t = wake k t
}.

(** nor has any thread become ready *)
Record quiet (k k' : kstate) : Prop := {
  q_mild :> mild k k';
  q_ready : k'.(ready_list) = k.(ready_list);
  q_sleep : k'.(sleeping_list) = k.(sleeping_list)
}.

Lemma TI_load σ V x : TI σ V → 0 ≤ x ≤ 2 ^ 28 → TI σ (set_v_load x V).
Proof. intros HT Hx. destruct HT. split; simpl; try done. naive_solver. Qed.

Lemma mild_threads k k' t : mild k k' → is_Some (k'.(threads) !! t) ↔ is_Some (k.(threads) !! t).
Proof.
  intros Hq. pose proof (q_frames _ _ Hq) as E. apply (f_equal (lookup t)) in E.
  unfold frames_of in E. rewrite !lookup_fmap in E.
  destruct (threads k' !! t), (threads k !! t); simpl in E; try done; split; eauto; by intros [].
Qed.

(** the queues, the threads' frames and the view are untouched *)
Lemma quiet_acct k k1 k2 : quiet k k1 → k2.(threads) = k1.(threads) → k2.(semas) = k1.(semas) →
  k2.(ready_list) = k1.(ready_list) → k2.(sleeping_list) = k1.(sleeping_list) → k2.(ticks) = k1.(ticks) →
  view_of k2 = view_of k1 → k2.(current) = k1.(current) → k2.(intr_on) = k1.(intr_on) →
  k2.(in_external_intr) = k1.(in_external_intr) → k2.(thread_mlfqs) = k1.(thread_mlfqs) → quiet k k2.
Proof.
  intros [[HS Hf Hv Hl Hc Ho He Hm Htk Hw] Hr Hs] Et Es Er Esl Etk Ev Ec Eo Ee Em.
  assert (El : load_avg k2 = load_avg k1) by (apply (f_equal v_load) in Ev; exact Ev).
  split; [split|..]; try congruence.
  - apply (SI_update _ _ _ _ HS); try done; [by apply (f_equal v_idle) in Ev|intros s; unfold waiting; by rewrite Es|].
    intros t. rewrite Et. apply thread_agree_refl.
  - unfold frames_of. by rewrite Et.
  - intros t. rewrite <- Hw. unfold wake. by rewrite Et.
Qed.

(** the record of one thread changes in what the queues do not depend on *)
Lemma quiet_thread k k1 t th th' : quiet k k1 → k1.(threads) !! t = Some th →
  th'.(status) = th.(status) → th'.(frames) = th.(frames) → th'.(wake_up_tick) = th.(wake_up_tick) →
  ident_of th' = ident_of th → (k.(thread_mlfqs) = false → th'.(priority) = th.(priority)) →
  quiet k (set_threads (<[t := th']> k1.(threads)) k1).
Proof.
  intros [[HS Hf Hv Hl Hc Ho He Hm Htk Hw] Hr Hs] Ht Es Ef Ew Ei Ep. split; [split|..]; try done.
  - apply (SI_update _ _ _ _ HS); try done. intros u. simpl.
    destruct (decide (u = t)) as [->|]; [|rewrite lookup_insert_ne by done; apply thread_agree_refl].
    rewrite lookup_insert_eq, Ht. simpl. rewrite Hm. split; [done|]. right. split_and!; [done..|].
    intros H. symmetry. auto.
  - by rewrite (frames_of_same _ _ th).
  - by rewrite (view_of_same _ _ th).
  - intros u. rewrite <- Hw. unfold wake; simpl. destruct (decide (u = t)) as [->|]; simplify_map_eq; done.
Qed.

Lemma quiet_load k k1 la : quiet k k1 → 0 ≤ la ≤ 2 ^ 28 → quiet k (set_load_avg la k1).
Proof.
  intros [[HS Hf Hv Hl Hc Ho He Hm Htk Hw] Hr Hs] Hla. split; [split|..]; try done; [si_update HS|].
  unfold view_of, set_v_load in *; simpl. by injection Hv as -> -> -> -> -> -> ->.
Qed.

(** a loop over [all_list] *)
Lemma for_threads_spec (k k1 : kstate) f l : quiet k k1 →
  (∀ t, t ∈ l → is_Some (k.(threads) !! t)) →
  (∀ k2 t th, quiet k k2 → k2.(threads) !! t = Some th → ∃ k3, f t k2 = Ok (tt, k3) ∧ quiet k k3) →
  ∃ k', for_threads l f k1 = Ok (tt, k') ∧ quiet k k'.
Proof.
  intros Hq Hl Hf. revert k1 Hq. induction l as [|t l IH]; intros k1 Hq; [by exists k1|].
  destruct (Hl t) as [th0 Ht0]; [left|].
  destruct (mild_threads k k1 t Hq) as [_ Hs]. destruct Hs as [th Ht]; [eauto|].
  destruct (Hf k1 t th Hq Ht) as (k2 & He & Hq2). simpl. rewrite (bind_eq _ _ _ _ _ He).
  apply IH; [|done]. intros u Hu. apply Hl. by right.
Qed.

(** * The handler *)

Lemma timer_ticks_eq k : k.(intr_on) = false → timer_ticks k = Ok (k.(ticks), k).
Proof. intros Ho. destruct k; simpl in *. by subst. Qed.

Lemma get_eq (k : kstate) : get k = Ok (k, k).
Proof. done. Qed.

Lemma modify_eq (f : kstate → kstate) k : modify f k = Ok (tt, f k).
Proof. done. Qed.

Lemma gets_eq {A} (f : kstate → A) k : gets f k = Ok (f k, k).
Proof. done. Qed.

Lemma assert_eq b (k : kstate) : b = true → assert b k = Ok (tt, k).
Proof. by intros ->. Qed.

Lemma lift_eq {A} (o : outcome A) a k : o = Ok a → lift o k = Ok (a, k).
Proof. by intros ->. Qed.

Lemma intr_disable_off k : k.(intr_on) = false → intr_disable k = Ok (false, k).
Proof. intros Ho. destruct k; simpl in *. by subst. Qed.

Lemma intr_set_level_off k : k.(intr_on) = false → intr_set_level false k = Ok (false, k).
Proof. apply intr_disable_off. Qed.

Section tick.
Context (k : kstate) (HT : TI (frames_of k) (view_of k)).

Lemma all_alive t : t ∈ k.(all_list) → is_Some (k.(threads) !! t).
Proof using HT.
  intros Ht. destruct (ti_all _ _ HT) as [_ Ha]. apply Ha in Ht. by rewrite view_th_lookup, fmap_is_Some in Ht.
Qed.

Lemma quiet_all k1 : quiet k k1 → k1.(all_list) = k.(all_list).
Proof using. intros Hq. pose proof (f_equal v_all (q_view _ _ Hq)) as E. exact E. Qed.

Lemma ready_threads_le k1 : quiet k k1 → 0 ≤ ready_threads k1 ≤ MAX_THREADS.
Proof using HT.
  intros Hq. unfold ready_threads. rewrite (quiet_all _ Hq). pose proof (proj2 (ti_load _ _ HT)) as Hl.
  simpl in Hl. pose proof (length_filter (λ t, counts_ready k1 t = true) (all_list k)). lia.
Qed.

Lemma quiet_recent k1 t th v : quiet k k1 → k1.(threads) !! t = Some th →
  quiet k (set_threads (<[t := set_recent_cpu v th]> k1.(threads)) k1).
Proof using. intros Hq Ht. by apply (quiet_thread k k1 t th). Qed.

(** the recomputation of every thread's [recent_cpu] *)
Lemma recent_loop k1 : quiet k k1 → ∃ k',
  (k2 ← get; la ← lift (next_load_avg k2.(load_avg) (ready_threads k2));
   modify (set_load_avg la);;
   let double_load_avg := mul_FP_to_FP la (int_to_FP 2) in
   for_threads k2.(all_list) (λ p, th ← get_thread p;
     rc ← lift (next_recent_cpu double_load_avg th.(recent_cpu) th.(nice));
     upd_thread p (set_recent_cpu rc))) k1 = Ok (tt, k') ∧ quiet k k'.
Proof using HT.
  intros Hq. destruct (next_load_avg_ok (load_avg k1) (ready_threads k1)) as (la & He & Hla & _);
    [exact (q_load _ _ Hq)|by apply ready_threads_le|].
  rewrite (bind_eq _ _ _ _ _ (get_eq k1)), (bind_eq _ _ _ _ _ (lift_eq _ _ _ He)), (bind_eq _ _ _ _ _ (modify_eq _ _)).
  cbv zeta.
  apply (for_threads_spec k); [by apply quiet_load| |].
  - intros t. rewrite (quiet_all _ Hq). apply all_alive.
  - intros k2 t th Hq2 Ht. rewrite (bind_eq _ _ _ _ _ (get_thread_eq _ _ _ Ht)).
    destruct (next_recent_cpu_ok la (recent_cpu th) (nice th) Hla) as [v Hv].
    rewrite (bind_eq _ _ _ _ _ (lift_eq _ _ _ Hv)), (upd_thread_eq _ _ _ _ Ht).
    eexists. split; [done|]. by apply quiet_recent.
Qed.

(** the recomputation of every thread's priority *)
Lemma priority_loop k1 : k.(thread_mlfqs) = true → quiet k k1 → ∃ k',
  (k2 ← get; for_threads k2.(all_list) (λ p, th ← get_thread p;
     pr ← lift (next_priority th.(recent_cpu) th.(nice));
     upd_thread p (set_priority_field pr))) k1 = Ok (tt, k') ∧ quiet k k'.
Proof using HT.
  intros Hm Hq. rewrite (bind_eq _ _ _ _ _ (get_eq k1)). apply (for_threads_spec k); [done| |].
  - intros t. rewrite (quiet_all _ Hq). apply all_alive.
  - intros k2 t th Hq2 Ht. rewrite (bind_eq _ _ _ _ _ (get_thread_eq _ _ _ Ht)).
    destruct (next_priority_ok (recent_cpu th) (nice th)) as (v & Hv & _).
    rewrite (bind_eq _ _ _ _ _ (lift_eq _ _ _ Hv)), (upd_thread_eq _ _ _ _ Ht). eexists. split; [done|].
    apply (quiet_thread k k2 t th); try done. congruence.
Qed.

Lemma mlfqs_tick_spec k1 t th : k.(thread_mlfqs) = true → quiet k k1 → k1.(threads) !! t = Some th →
  ∃ k', mlfqs_tick t k1 = Ok (tt, k') ∧ quiet k k'.
Proof using HT.
  intros Hm Hq Ht. unfold mlfqs_tick.
  rewrite (bind_eq _ _ _ _ _ (timer_ticks_eq k1 (q_on _ _ Hq))).
  rewrite (bind_eq _ _ _ _ _ (intr_disable_off k1 (q_on _ _ Hq))).
  rewrite (bind_eq _ _ _ _ _ (get_eq k1)).
  set (n := ticks k1). clearbody n.
  match goal with |- ∃ _, (?m;; _) k1 = _ ∧ _ => assert (∃ k2, m k1 = Ok (tt, k2) ∧ quiet k k2) as (k2 & E2 & Hq2) end.
  { case_bool_decide; [by exists k1|]. rewrite (upd_thread_eq _ _ _ _ Ht). eexists. split; [done|]. by apply quiet_recent. }
  rewrite (bind_eq _ _ _ _ _ E2). clear E2.
  match goal with |- ∃ _, (?m;; _) k2 = _ ∧ _ => assert (∃ k3, m k2 = Ok (tt, k3) ∧ quiet k k3) as (k3 & E3 & Hq3) end.
  { destruct (_ =? 0); [by apply recent_loop|by exists k2]. }
  rewrite (bind_eq _ _ _ _ _ E3). clear E3.
  match goal with |- ∃ _, (?m;; _) k3 = _ ∧ _ => assert (∃ k4, m k3 = Ok (tt, k4) ∧ quiet k k4) as (k4 & E4 & Hq4) end.
  { destruct (_ =? 0); [by apply priority_loop|by exists k3]. }
  rewrite (bind_eq _ _ _ _ _ E4), (bind_eq _ _ _ _ _ (intr_set_level_off k4 (q_on _ _ Hq4))).
  by exists k4.
Qed.

Lemma thread_tick_spec k1 : quiet k k1 → ∃ k', thread_tick k1 = Ok (tt, k') ∧ quiet k k'.
Proof using HT.
  intros Hq. destruct (si_cur _ _ _ (q_si _ _ Hq)) as (th & Ht & Hr%bool_decide_eq_true). unfold thread_tick.
  rewrite (bind_eq _ _ _ _ _ (thread_current_eq k1 th Ht Hr)), (bind_eq _ _ _ _ _ (get_thread_eq _ _ _ Ht)).
  rewrite (bind_eq _ _ _ _ _ (get_eq k1)).
  match goal with |- ∃ _, (?m;; _) k1 = _ ∧ _ => assert (∃ k2, m k1 = Ok (tt, k2) ∧ quiet k k2 ∧
    k2.(threads) = k1.(threads)) as (k2 & E2 & Hq2 & Et) end.
  { case_bool_decide; [|destruct (has_pagedir th)]; eexists;
      (split; [reflexivity|split; [by eapply (quiet_acct k k1)|done]]). }
  rewrite (bind_eq _ _ _ _ _ E2). clear E2. rewrite <- Et in Ht.
  match goal with |- ∃ _, (?m;; _) k2 = _ ∧ _ => assert (∃ k3, m k2 = Ok (tt, k3) ∧ quiet k k3) as (k3 & E3 & Hq3) end.
  { destruct (thread_mlfqs k1) eqn:Hm; [|by exists k2]. rewrite (q_mlfqs _ _ Hq) in Hm. by eapply mlfqs_tick_spec. }
  rewrite (bind_eq _ _ _ _ _ E3). clear E3.
  rewrite (bind_eq _ _ _ _ _ (gets_eq thread_ticks k3)), (bind_eq _ _ _ _ _ (modify_eq _ k3)).
  assert (Hq4 : ∀ v, quiet k (set_thread_ticks v k3)) by (intros; by eapply (quiet_acct k k3)).
  destruct (_ >=? TIME_SLICE); [|eexists; split; [done|apply Hq4]].
  unfold intr_yield_on_return. krun. rewrite (q_ext _ _ Hq3). krun. eexists. split; [done|]. by eapply (quiet_acct k (set_thread_ticks (u32 (thread_ticks k3 + 1)) k3)).
Qed.

(** ** Waking up *)

Lemma mild_woken k1 t r th : mild k k1 → k1.(sleeping_list) = t :: r → k1.(threads) !! t = Some th →
  mild k (made_ready t th (set_sleeping_list r k1)).
Proof using.
  intros [HS Hf Hv Hl Hc Ho He Hm Htk Hw] Hsl Ht.
  destruct (si_sleep _ _ _ HS t) as (_ & Hi & th' & Ht' & Hb & _); [rewrite Hsl; left|].
  assert (th' = th) as -> by congruence.
  split; try done; simpl.
  - apply (SI_made_ready true (set_sleeping_list r k1) t th Ht Hi) with (lim := Some t); try done.
    + by apply SI_pop_sleeper.
    + intros _. split; [done|]. simpl. eapply (si_not_current _ k1); [done|]. rewrite Hsl. right; left; left.
    + auto.
  - rewrite <- Hf. rewrite <- (frames_of_same k1 t th (set_status THREAD_READY th)) at 1 by done. done.
  - rewrite <- Hv. rewrite <- (view_of_same k1 t th (set_status THREAD_READY th)) at 1 by done. done.
  - intros u. rewrite <- Hw. unfold wake; simpl. destruct (decide (u = t)) as [->|]; simplify_map_eq; done.
Qed.

(** the sleepers that are due, and no others, become ready *)
Lemma wake_up_loop_spec l now k1 : mild k k1 → k1.(sleeping_list) = l →
  ∃ k', thread_wake_up_loop l now k1 = Ok (tt, k') ∧ mild k k' ∧
    k'.(sleeping_list) = filter (λ t, now < wake k t) l ∧
    ∀ t, t ∈ k'.(ready_list) ↔ t ∈ k1.(ready_list) ∨ (t ∈ l ∧ wake k t ≤ now).
Proof using.
  revert k1. induction l as [|t r IH]; intros k1 Hq Hsl.
  { exists k1. split_and!; [done..|]. intros t. rewrite elem_of_nil. tauto. }
  destruct (si_sleep _ _ _ (q_si _ _ Hq) t) as (_ & _ & th & Ht & Hb & _); [rewrite Hsl; left|].
  assert (Hwt : wake k t = th.(wake_up_tick)) by (rewrite <- (q_wake _ _ Hq); unfold wake; by rewrite Ht).
  simpl. rewrite (bind_eq _ _ _ _ _ (get_thread_eq _ _ _ Ht)).
  destruct (Z.ltb_spec now (wake_up_tick th)) as [Hlt|Hge].
  - assert (Hall : ∀ u, u ∈ t :: r → now < wake k u).
    { pose proof (si_wake _ _ _ (q_si _ _ Hq)) as Hs. rewrite Hsl in Hs. apply StronglySorted_inv in Hs as [_ Hs].
      rewrite Forall_forall in Hs. intros u [->|Hu]%elem_of_cons; [lia|].
      specialize (Hs u Hu). apply by_wake_iff in Hs. rewrite !(q_wake _ _ Hq) in Hs. lia. }
    exists k1. split_and!; [done..| |].
    + rewrite Hsl. symmetry. by apply filter_all.
    + intros u. split; [by left|]. intros [?|[Hu ?]]; [done|]. specialize (Hall u Hu). lia.
  - rewrite (bind_eq _ _ _ _ _ (modify_eq _ _)).
    rewrite (bind_eq _ _ _ _ _ (thread_unblock_eq (set_sleeping_list r k1) t th Ht Hb ltac:(simpl; rewrite (q_on _ _ Hq); done))).
    destruct (IH (made_ready t th (set_sleeping_list r k1))) as (k' & He & Hq' & Hs' & Hr');
      [by apply mild_woken|done|].
    exists k'. split_and!; [done..| |].
    + rewrite Hs', filter_cons_False; [done|lia].
    + intros u. rewrite Hr'. simpl. rewrite elem_of_ins_ordered, elem_of_cons. split; [|naive_solver].
      intros [[->|?]|?]; [right|by left|right]; split; [by left|lia| |]; naive_solver.
Qed.
End tick.

(** ** The interrupt *)

(** the state in which the device's handler runs *)
Definition in_handler (k : kstate) : kstate :=
  set_ticks (s64 (k.(ticks) + 1)) (set_yield_on_return false (set_in_external_intr true (set_intr_on false k))).

Lemma in_handler_quiet k : Inv k → quiet (in_handler k) (in_handler k).
Proof.
  intros HI. split; [|done|done]. split; try done.
  - si_update (inv_si _ HI).
  - apply (ti_load _ _ (inv_ti _ HI)).
Qed.

(** [timer_interrupt]: the tick is counted, the sleepers that are due are ready *)
Lemma timer_interrupt_spec k : Inv k → ∃ k',
  timer_interrupt (set_yield_on_return false (set_in_external_intr true (set_intr_on false k))) = Ok (tt, k') ∧
  mild (in_handler k) k' ∧
  k'.(sleeping_list) = filter (λ t, s64 (k.(ticks) + 1) < wake k t) k.(sleeping_list) ∧
  ∀ t, t ∈ k'.(ready_list) ↔ t ∈ k.(ready_list) ∨ (t ∈ k.(sleeping_list) ∧ wake k t ≤ s64 (k.(ticks) + 1)).
Proof.
  intros HI. unfold timer_interrupt. rewrite (bind_eq _ _ _ _ _ (get_eq _)).
  rewrite (bind_eq (put _) _ _ tt (in_handler k) eq_refl).
  destruct (thread_tick_spec (in_handler k) (inv_ti _ HI) _ (in_handler_quiet k HI)) as (k2 & E2 & Hq2).
  rewrite (bind_eq _ _ _ _ _ E2), (bind_eq _ _ _ _ _ (intr_disable_off k2 (q_on _ _ Hq2))).
  rewrite (bind_eq _ _ _ _ _ (gets_eq _ _)). unfold thread_wake_up.
  destruct (wake_up_loop_spec (in_handler k) (sleeping_list k2) (ticks k2) k2 Hq2 eq_refl)
    as (k3 & E3 & Hq3 & Hs & Hr).
  assert (E4 : (k ← get; thread_wake_up_loop (sleeping_list k) (ticks k2)) k2 = Ok (tt, k3)).
  { by rewrite (bind_eq _ _ _ _ _ (get_eq _)). }
  rewrite (bind_eq _ _ _ _ _ E4), (bind_eq _ _ _ _ _ (intr_set_level_off k3 (q_on _ _ Hq3))).
  rewrite (q_ticks _ _ Hq2), (q_sleep _ _ Hq2), ?(q_ready _ _ Hq2) in *. exists k3. done.
Qed.

Lemma mild_VInv k k' th : Inv k → k.(threads) !! k.(current) = Some th → mild (in_handler k) k' →
  VInv th.(frames) (set_in_external_intr false k').
Proof.
  intros HI Ht Hm. assert (Hf : frames_of k !! current k = Some (frames th)) by (apply frames_of_lookup; eauto).
  split; simpl.
  - si_update (q_si _ _ Hm).
  - change (TI (<[current k' := frames th]> (frames_of k')) (view_of k')).
    rewrite (q_frames _ _ Hm), (q_view _ _ Hm), (q_cur _ _ Hm). apply TI_load; [|apply Hm]. simpl.
    change (frames_of (in_handler k)) with (frames_of k). rewrite insert_id by done. apply HI.
  - change (frames_of (set_in_external_intr false k')) with (frames_of k').
    rewrite (q_frames _ _ Hm), (q_cur _ _ Hm). intros t fs Hne Hfs.
    pose proof (inv_stack _ HI t fs Hfs) as Hs. by rewrite decide_False in Hs.
  - done.
Qed.

Lemma mild_frames k k' th th' : k.(threads) !! k.(current) = Some th → mild (in_handler k) k' →
  k'.(threads) !! k'.(current) = Some th' → th'.(frames) = th.(frames).
Proof.
  intros Ht Hm Ht'. pose proof (q_frames _ _ Hm) as E. apply (f_equal (lookup (current k))) in E.
  rewrite (q_cur _ _ Hm) in Ht'. unfold frames_of in E. simpl in *. rewrite !lookup_fmap, Ht, Ht' in E.
  simpl in E. congruence.
Qed.

(** the handler up to the return from the interrupt *)
Lemma intr_handler_timer_eq k k1 : Inv k →
  timer_interrupt (set_yield_on_return false (set_in_external_intr true (set_intr_on false k))) = Ok (tt, k1) →
  mild (in_handler k) k1 →
  intr_handler_timer k = (push_frame FIntrEnable;;
    if k1.(yield_on_return) then thread_yield else mret tt) (set_in_external_intr false k1).
Proof.
  intros HI E1 Hm.
  unfold intr_handler_timer. rewrite (bind_eq _ _ _ _ _ (modify_eq _ _)).
  unfold intr_context. rewrite (bind_eq _ _ _ _ _ (gets_eq _ _)). simpl. rewrite (inv_ext _ HI).
  rewrite (bind_eq _ _ _ _ _ (assert_eq (negb false) _ eq_refl)), !(bind_eq _ _ _ _ _ (modify_eq _ _)).
  rewrite (bind_eq _ _ _ _ _ E1). unfold intr_get_level. rewrite (bind_eq _ _ _ _ _ (gets_eq _ _)).
  rewrite (q_on _ _ Hm), (bind_eq _ _ _ _ _ (assert_eq (negb false) _ eq_refl)), (bind_eq _ _ _ _ _ (gets_eq _ _)).
  rewrite (q_ext _ _ Hm), (bind_eq _ _ _ _ _ (assert_eq true _ eq_refl)), (bind_eq _ _ _ _ _ (modify_eq _ _)).
  by rewrite (bind_eq _ _ _ _ _ (gets_eq _ _)).
Qed.

(** a thread that was ready is ready or running once the processor has been given
    to the next one *)
Lemma picked_ready kp n nth t : picks kp n → t ∈ kp.(ready_list) →
  t ∈ (switched n nth kp).(ready_list) ∨ t = (switched n nth kp).(current).
Proof.
  unfold picks. simpl. destruct (ready_list kp) as [|u r]; [by intros _ ?%elem_of_nil|].
  intros ->. rewrite elem_of_cons. tauto.
Qed.

(** [intr_handler] for the timer, the processor having been interrupted with
    interrupts on *)
Lemma intr_handler_timer_full k k1 : Inv k → k.(intr_on) = true →
  timer_interrupt (set_yield_on_return false (set_in_external_intr true (set_intr_on false k))) = Ok (tt, k1) →
  mild (in_handler k) k1 →
  ∃ k', intr_handler_timer k = Ok (tt, k') ∧ Inv k' ∧ k'.(sleeping_list) = k1.(sleeping_list) ∧
    ∀ t, t ∈ k1.(ready_list) → t ∈ k'.(ready_list) ∨ t = k'.(current).
Proof.
  intros HI Hon E1 Hm. destruct (si_cur _ _ _ (inv_si _ HI)) as (th & Ht & Hr%bool_decide_eq_true).
  rewrite (intr_handler_timer_eq k k1 HI E1 Hm). set (k2 := set_in_external_intr false k1).
  pose proof (mild_VInv k k1 th HI Ht Hm) as HV. destruct (VInv_thread _ _ HV) as (th1 & Ht1 & _ & _).
  rewrite (bind_eq _ _ _ _ _ (push_frame_eq k2 th1 FIntrEnable Ht1)), (mild_frames k k1 th th1 Ht Hm Ht1).
  set (k3 := set_threads _ k2).
  assert (HV3 : VInv (FIntrEnable :: frames th) k3).
  { apply (VInv_cur _ _ th1); [by apply VInv_push|done|done|done]. }
  assert (Hf3 : frames_of k3 !! current k3 = Some (FIntrEnable :: frames th)).
  { unfold k3. by rewrite frames_of_upd, lookup_insert_eq. }
  assert (Hc : core (current k3) (frames th)).
  { pose proof (inv_stack _ HI (current k) (frames th)) as Hs. rewrite decide_True, Hon in Hs by done.
    assert (current k3 = current k) as -> by apply (q_cur _ _ Hm).
    assert (Hs' : stack (current k) true (frames th)) by (apply Hs, frames_of_lookup; eauto). by inversion Hs'. }
  assert (Hon3 : intr_on k3 = false) by apply (q_on _ _ Hm).
  destruct (yield_on_return k1).
  - destruct (thread_yield_spec k3 _ HV3 Hf3) as (n & nth & kp & He & HI' & Hp & _ & Hrl & Hsl & _ & _).
    { rewrite Hon3. by constructor. }
    exists (switched n nth kp). split_and!; [done..|]. intros t Hrt. apply picked_ready; [done|]. rewrite Hrl.
    destruct (bool_decide _); [done|]. apply elem_of_ins_ordered. by right.
  - eexists. split; [done|]. split; [|by eauto]. apply (VInv_Inv _ _ HV3 Hf3). rewrite Hon3. by constructor.
Qed.

Lemma intr_handler_timer_spec k : Inv k → k.(intr_on) = true →
  ∃ k', intr_handler_timer k = Ok (tt, k') ∧ Inv k'.
Proof.
  intros HI Hon. destruct (timer_interrupt_spec k HI) as (k1 & E1 & Hm & _ & _).
  destruct (intr_handler_timer_full k k1 HI Hon E1 Hm) as (k' & ? & ? & _). eauto.
Qed.
