(* ===== verification/Machine.v ===== *)
(** The kernel as a transition system: boot (threads/init.c calls [thread_init]
    and [thread_start]), then steps, each a call made by the running thread, a
    frame of its kernel stack, or a timer interrupt; what holds in every state
    the kernel reaches. *)

From S2P Require Import Prelude KList KListAlgo FixedPoint Thread Synch Kernel Sched Tokens Safety Calls Tick.

#[local] Arguments intr_set_level : simpl never.

(** * Boot *)

(** [first] is the page of the initial thread, [page] the one of the idle thread *)
Definition boot (first page : Z) (mlfqs : bool) : outcome kstate :=
  k ← thread_init first mlfqs; '(_, k') ← thread_start page k; Ok k'.

(** the state in which [thread_create] yields to the idle thread it has created *)
Definition boot_state (first page : Z) (mlfqs : bool) : kstate :=
  mk_kstate
    (<[first := mk_thread 1 THREAD_RUNNING PRI_DEFAULT false [page] false 0 0 0 0
         [FIntrEnable; FSemaDown (SemaUser 0)] 2]>
     (<[page := mk_thread 2 THREAD_READY PRI_MIN false [] false 0 0 0 0
         [FKernelThread; FIdle (SemaUser 0)] 0]> ∅))
    (<[SemaElim page := mk_semaphore 0 []]> (<[SemaLoad page := mk_semaphore 0 []]>
     (<[SemaWait page := mk_semaphore 0 []]> (<[SemaUser 0 := mk_semaphore 0 []]>
     (<[SemaElim first := mk_semaphore 0 []]> (<[SemaLoad first := mk_semaphore 0 []]>
     (<[SemaWait first := mk_semaphore 0 []]> ∅)))))))
    ∅ ∅ [page] [] [first; page] None first first false false false 0 0 0 0 0 0 3 mlfqs.

Section boot.
Context (first page : Z) (mlfqs : bool).
Context (Hfirst : first ≠ 0) (Hpage : page ≠ 0) (Hne : first ≠ page).

Let init_state : kstate :=
  mk_kstate (<[first := mk_thread 1 THREAD_RUNNING PRI_DEFAULT false [] false 0 0 0 0 [] 0]> ∅)
    (<[SemaElim first := mk_semaphore 0 []]> (<[SemaLoad first := mk_semaphore 0 []]>
     (<[SemaWait first := mk_semaphore 0 []]> ∅)))
    ∅ ∅ [] [] [first] None first first false false false 0 0 0 0 0 0 2 mlfqs.

Lemma thread_init_eq : thread_init first mlfqs = Ok init_state.
Proof using Hfirst.
  unfold thread_init. set (k0 := mk_kstate ∅ _ _ _ _ _ _ _ _ _ _ _ _ _ _ _ _ _ _ _ _).
  rewrite (bind_eq _ _ _ _ _ (init_thread_eq k0 first PRI_DEFAULT None Hfirst ltac:(done))).
  erewrite (bind_eq (upd_thread first _)) by (apply upd_thread_eq; simpl; by rewrite lookup_insert_eq).
  rewrite (bind_eq _ _ _ _ _ (allocate_tid_eq _)).
  rewrite (upd_thread_eq _ _ (mk_thread 0 THREAD_RUNNING PRI_DEFAULT false [] false 0 0 0 0 [] 0))
    by (simpl; by rewrite lookup_insert_eq).
  simpl. unfold init_state. by rewrite !insert_insert_eq.
Qed.

Let th1 := mk_thread 1 THREAD_RUNNING PRI_DEFAULT false [] false 0 0 0 0 [FIntrEnable; FSemaDown (SemaUser 0)] 0.
Let start_state := set_threads (<[first := th1]> ∅)
  (set_semas (<[SemaUser 0 := mk_semaphore 0 []]> init_state.(semas)) init_state).

Lemma thread_start_eq : thread_start page init_state = thread_create page PRI_MIN [FIdle (SemaUser 0)] start_state.
Proof using.
  unfold thread_start.
  rewrite (bind_eq (sema_init _ _) _ _ tt (set_semas (<[SemaUser 0 := mk_semaphore 0 []]> init_state.(semas)) init_state) eq_refl).
  erewrite (bind_eq (push_frame _)) by (apply push_frame_eq; simpl; by rewrite lookup_insert_eq). simpl.
  erewrite (bind_eq (push_frame _)) by (apply push_frame_eq; simpl; by rewrite lookup_insert_eq). simpl.
  rewrite !insert_insert_eq. done.
Qed.

Lemma boot_create_eq :
  thread_create page PRI_MIN [FIdle (SemaUser 0)] start_state = thread_yield (boot_state first page mlfqs).
Proof using Hne Hpage.
  unfold thread_create. destruct (Z.eqb_spec page 0) as [?|_]; [done|].
  assert (H1 : threads start_state !! current start_state = Some th1) by (simpl; by rewrite lookup_insert_eq).
  rewrite (bind_eq _ _ _ _ _ (thread_current_eq _ th1 H1 eq_refl)).
  rewrite (bind_eq _ _ _ _ _ (get_thread_eq _ _ _ H1)).
  rewrite (bind_eq _ _ _ _ _ (init_thread_eq start_state page PRI_MIN (Some th1) Hpage ltac:(done))).
  rewrite (bind_eq _ _ _ _ _ (allocate_tid_eq _)).
  erewrite (bind_eq (upd_thread page _)) by (apply upd_thread_eq; simpl; by rewrite lookup_insert_eq).
  rewrite (bind_eq _ _ _ _ _ (intr_disable_eq _)). cbv beta.
  erewrite (bind_eq (upd_thread page _)) by (apply upd_thread_eq; simpl; by rewrite lookup_insert_eq).
  erewrite (bind_eq (intr_set_level _)) by (apply intr_set_level_eq; done).
  erewrite (bind_eq (upd_thread (current start_state) _))
    by (apply upd_thread_eq; simpl; rewrite !lookup_insert_ne, lookup_insert_eq by done; done).
  erewrite (bind_eq (thread_unblock _)) by (apply thread_unblock_eq;
    [simpl; rewrite lookup_insert_ne, lookup_insert_eq by done; done|done|done]).
  erewrite (bind_eq (ret_val _)) by (apply ret_val_eq; simpl; rewrite lookup_insert_ne, lookup_insert_eq by done; done).
  f_equal. unfold boot_state. simpl. rewrite !insert_insert_eq.
  rewrite (insert_insert_ne _ first page) by done. rewrite !insert_insert_eq.
  rewrite (insert_insert_ne _ page first) by done. rewrite !insert_insert_eq.
  rewrite (insert_insert_ne _ page first) by done. rewrite !insert_insert_eq. done.
Qed.

Let k0 := boot_state first page mlfqs.

Lemma boot_sema s sm : k0.(semas) !! s = Some sm → sm = mk_semaphore 0 [].
Proof using. simpl. intros H. repeat (apply lookup_insert_Some in H as [[_ <-]|[_ H]]; [done|]). by rewrite lookup_empty in H. Qed.

Lemma boot_thread t th : k0.(threads) !! t = Some th → t = first ∧ th.(status) = THREAD_RUNNING ∨
  t = page ∧ th.(status) = THREAD_READY.
Proof using.
  simpl. intros [[<- <-]|[_ [[<- <-]|[_ H]]%lookup_insert_Some]]%lookup_insert_Some; [by left|by right|].
  by rewrite lookup_empty in H.
Qed.

Lemma boot_waiting s : waiting k0 s = [].
Proof using. unfold waiting. destruct (semas k0 !! s) as [sm|] eqn:E; [|done]. by rewrite (boot_sema s sm E). Qed.

Lemma boot_SI : SI true None k0.
Proof using Hne.
  split; intros *; rewrite ?boot_waiting; try (by constructor); try by intros ?%elem_of_nil.
  - simpl. rewrite lookup_insert_eq. eexists. split; [done|]. done.
  - apply NoDup_singleton.
  - simpl. intros ->%list_elem_of_singleton. split; [done|].
    rewrite lookup_insert_ne, lookup_insert_eq by done. eauto.
  - intros [[-> Hs]|[-> Hs]]%boot_thread; unfold placed; rewrite Hs; [done|left; by left].
  - done.
  - intros _. repeat constructor.
  - intros _ s. rewrite boot_waiting. constructor.
Qed.

Let σ0 := frames_of k0.

Lemma boot_frames t : σ0 !!! t = if decide (t = first) then [FIntrEnable; FSemaDown (SemaUser 0)]
  else if decide (t = page) then [FKernelThread; FIdle (SemaUser 0)] else [].
Proof using Hne.
  unfold σ0, frames_of, k0; simpl. rewrite !fmap_insert, fmap_empty. simpl.
  destruct (decide (t = first)) as [->|]; [by rewrite lookup_total_insert_eq|].
  rewrite lookup_total_insert_ne by done.
  destruct (decide (t = page)) as [->|]; [by rewrite lookup_total_insert_eq|].
  by rewrite lookup_total_insert_ne, lookup_total_empty.
Qed.

Lemma boot_kids t : kids (view_of k0) t = if decide (t = first) then [page] else [].
Proof using Hne.
  unfold kids, k0; simpl. rewrite !fmap_insert, fmap_empty.
  destruct (decide (t = first)) as [->|]; [by rewrite lookup_insert_eq|]. rewrite lookup_insert_ne by done.
  destruct (decide (t = page)) as [->|]; [by rewrite lookup_insert_eq|]. by rewrite lookup_insert_ne, lookup_empty.
Qed.

Lemma boot_elim_w c t : elim_w σ0 (view_of k0) c t = one (bool_decide (t = first ∧ c = page)).
Proof using Hne.
  unfold elim_w. rewrite boot_frames, boot_kids.
  destruct (decide (t = first)) as [->|Ht].
  - simpl. destruct (Z.eqb_spec page c) as [<-|]; [rewrite bool_decide_eq_true_2 by done|
      rewrite bool_decide_eq_false_2 by naive_solver]; by destruct (first =? _).
  - rewrite bool_decide_eq_false_2 by naive_solver. destruct (decide (t = page)); simpl; by destruct (t =? c).
Qed.

Lemma boot_view_th t : is_Some ((view_of k0).(v_th) !! t) ↔ t = first ∨ t = page.
Proof using Hne.
  unfold k0; simpl. rewrite !fmap_insert, fmap_empty.
  destruct (decide (t = first)) as [->|]; [rewrite lookup_insert_eq; naive_solver|]. rewrite lookup_insert_ne by done.
  destruct (decide (t = page)) as [->|]; [rewrite lookup_insert_eq; naive_solver|].
  rewrite lookup_insert_ne, lookup_empty by done. split; [by intros []|naive_solver].
Qed.

Lemma boot_view_val s : (view_of k0).(v_val) !! s =
  if decide (s ∈ [SemaElim page; SemaLoad page; SemaWait page; SemaUser 0; SemaElim first; SemaLoad first; SemaWait first])
  then Some 0 else None.
Proof using Hne.
  unfold k0; simpl. rewrite !fmap_insert, fmap_empty. simpl. destruct (decide _) as [Hin|Hni].
  - rewrite !lookup_insert. repeat (destruct (decide (_ = s)) as [|]; [done|]).
    rewrite !elem_of_cons, elem_of_nil in Hin. naive_solver.
  - rewrite !not_elem_of_cons in Hni. destruct Hni as (?&?&?&?&?&?&?&_).
    by rewrite !lookup_insert_ne, lookup_empty.
Qed.

(** a semaphore that exists at boot *)
Lemma boot_val_in s : s ∈ [SemaElim page; SemaLoad page; SemaWait page; SemaUser 0; SemaElim first; SemaLoad first; SemaWait first] →
  (view_of k0).(v_val) !! s = Some 0.
Proof using Hne. intros Hs. by rewrite boot_view_val, decide_True. Qed.

Lemma boot_refs t fs f : σ0 !! t = Some fs → f ∈ fs → ref_ok (view_of k0) t f.
Proof using All.
  intros Hfs Hf. apply lookup_total_correct in Hfs as <-. rewrite boot_frames in Hf.
  assert (Hu : is_Some ((view_of k0).(v_val) !! SemaUser 0)) by (rewrite boot_val_in by set_solver; eauto).
  destruct (decide (t = first)); [|destruct (decide (t = page)); [|by apply elem_of_nil in Hf]];
    apply elem_of_cons in Hf as [->|Hf]; try done; by apply list_elem_of_singleton in Hf as ->.
Qed.

Lemma boot_elims c : is_Some ((view_of k0).(v_th) !! c) → ∃ n, (view_of k0).(v_val) !! SemaElim c = Some n ∧
    if decide (c = first) then n = 0 ∧ ∀ t, elim_w σ0 (view_of k0) c t = 0%nat
    else owned n (elim_w σ0 (view_of k0) c).
Proof using All.
  rewrite boot_view_th. intros Hc. exists 0. split.
  { apply boot_val_in. rewrite !elem_of_cons. destruct Hc as [->| ->]; tauto. }
  destruct (decide (c = first)) as [->|].
  - split; [done|]. intros t. by rewrite boot_elim_w, bool_decide_eq_false_2 by naive_solver.
  - destruct Hc as [?| ->]; [done|]. right. split; [done|]. exists first. split.
    + by rewrite boot_elim_w, bool_decide_eq_true_2.
    + intros u Hu. by rewrite boot_elim_w, bool_decide_eq_false_2 by naive_solver.
Qed.

Lemma boot_TI : TI σ0 (view_of k0).
Proof using All.
  split.
  - intros t. unfold σ0. rewrite view_th_lookup. unfold frames_of. by rewrite lookup_fmap, !fmap_is_Some.
  - apply boot_refs.
  - intros l h H. simpl in H. by rewrite lookup_empty in H.
  - apply boot_elims.
  - intros c t. rewrite boot_elim_w, boot_view_th. case_bool_decide as H; [|done]. destruct H as [_ ->]. by right.
  - intros c ws s H. simpl in H. by rewrite lookup_empty in H.
  - exists page. split; [rewrite boot_frames; by rewrite decide_False, decide_True by done|].
    intros t Ht. rewrite boot_frames. destruct (decide (t = first)); [done|by rewrite decide_False].
  - intros t. rewrite boot_view_th. intros Ht. rewrite !boot_val_in; eauto; destruct Ht as [->| ->]; set_solver.
  - intros t Ht. assert (t ≠ first ∧ t ≠ page) as [H1 H2].
    { split; intros ->; destruct (boot_view_th first), (boot_view_th page); apply eq_None_not_Some in Ht; naive_solver. }
    rewrite !boot_view_val, !decide_False by (rewrite !elem_of_cons, elem_of_nil; naive_solver). done.
  - apply boot_view_th. by left.
  - split; [|intros t; rewrite boot_view_th; simpl; set_solver].
    apply NoDup_cons. split; [by intros ?%list_elem_of_singleton|apply NoDup_singleton].
  - simpl. unfold MAX_THREADS. split; lia.
Qed.

Lemma boot_spec : ∃ k, boot first page mlfqs = Ok k ∧ Inv k.
Proof using All.
  assert (Hf : σ0 !! first = Some [FIntrEnable; FSemaDown (SemaUser 0)]).
  { unfold σ0, frames_of; simpl. by rewrite lookup_fmap, lookup_insert_eq. }
  assert (HV : VInv [FIntrEnable; FSemaDown (SemaUser 0)] k0).
  { split; [apply boot_SI| | |done].
    - simpl. fold σ0. rewrite insert_id by done. apply boot_TI.
    - simpl. intros t fs Hnt Hfs. fold σ0 in Hfs. apply lookup_total_correct in Hfs as E.
      rewrite boot_frames, decide_False in E by done. destruct (decide (t = page)).
      + subst fs. constructor. constructor.
      + apply frames_of_lookup in Hfs as (th & Hth & _). destruct (boot_thread t th Hth) as [[? _]|[? _]]; done. }
  destruct (thread_yield_spec k0 _ HV Hf) as (n & nth & kp & He & HI & _).
  { simpl. constructor. constructor. }
  exists (switched n nth kp). split; [|done]. unfold boot. rewrite thread_init_eq. simpl.
  rewrite thread_start_eq, boot_create_eq. fold k0. by rewrite He.
Qed.
End boot.

(** * Steps *)

(** what may happen next: the running thread makes a call or goes on with what is
    left of one, or the timer interrupts it *)
Inductive event := EvCall (c : call) | EvResume | EvTick.

Definition exec_event (e : event) : K unit :=
  match e with EvCall c => exec_call c | EvResume => resume | EvTick => intr_handler_timer end.

(** the frames left on the kernel stack of the running thread *)
Definition current_frames (k : kstate) : list frame :=
  from_option frames [] (k.(threads) !! k.(current)).

Definition enabled (k : kstate) (e : event) : Prop :=
  match e with
  | EvCall c => current_frames k = [] ∧ call_ok k c
  | EvResume => current_frames k ≠ []
  | EvTick => k.(intr_on) = true
  end.

Inductive step (k k' : kstate) : Prop :=
| step_event e : enabled k e → exec_event e k = Ok (tt, k') → step k k'.

Inductive reachable : kstate → Prop :=
| reach_boot first page mlfqs k : first ≠ 0 → page ≠ 0 → first ≠ page →
    boot first page mlfqs = Ok k → reachable k
| reach_step k k' : reachable k → step k k' → reachable k'.

Lemma exec_event_spec k e : Inv k → enabled k e → ∃ k', exec_event e k = Ok (tt, k') ∧ Inv k'.
Proof.
  intros HI He. destruct (si_cur _ _ _ (inv_si _ HI)) as (th & Ht & _).
  assert (Hf : current_frames k = frames th) by (unfold current_frames; by rewrite Ht).
  destruct e as [c| |]; simpl in *; rewrite ?Hf in He.
  - destruct He. by eapply exec_call_spec.
  - destruct (frames th) as [|f fs] eqn:E; [done|]. by eapply resume_spec.
  - by apply intr_handler_timer_spec.
Qed.

Lemma step_Inv k k' : Inv k → step k k' → Inv k'.
Proof. intros HI [e He E]. destruct (exec_event_spec k e HI He) as (k1 & E1 & ?). congruence. Qed.

Lemma reachable_Inv k : reachable k → Inv k.
Proof.
  induction 1 as [first page mlfqs k H1 H2 H3 E|k k' _ IH Hs]; [|by eapply step_Inv].
  destruct (boot_spec first page mlfqs H1 H2 H3) as (k1 & E1 & ?). congruence.
Qed.

(** ** Runs *)

Definition call_okb (k : kstate) (c : call) : bool :=
  match c with
  | CSemaInit n _ => bool_decide (k.(semas) !! SemaUser n = None)
  | CSemaDown n | CSemaUp n | CSemaTryDown n => bool_decide (is_Some (k.(semas) !! SemaUser n))
  | CLockInit l => bool_decide (k.(locks) !! l = None) && bool_decide (k.(semas) !! SemaLock l = None)
  | CLockAcquire l | CLockTryAcquire l =>
      match k.(locks) !! l with Some h => negb (bool_decide (h = Some k.(current))) | None => false end
  | CLockRelease l => bool_decide (k.(locks) !! l = Some (Some k.(current)))
  | CCondInit c => bool_decide (k.(conds) !! c = None)
  | CCondWait c l | CCondSignal c l | CCondBroadcast c l =>
      bool_decide (is_Some (k.(conds) !! c)) && bool_decide (k.(locks) !! l = Some (Some k.(current)))
  | CCreate page prio => (PRI_MIN <=? prio) && (prio <=? PRI_MAX) && bool_decide (k.(threads) !! page = None) &&
      (Z.of_nat (length k.(all_list)) <? MAX_THREADS)
  | CExec _ page => bool_decide (k.(threads) !! page = None) && (Z.of_nat (length k.(all_list)) <? MAX_THREADS)
  | _ => true
  end.

Lemma call_okb_sound k c : call_okb k c = true → call_ok k c.
Proof.
  destruct c; simpl; rewrite ?andb_true_iff, ?bool_decide_eq_true; try tauto.
  - destruct (locks k !! l) as [h|]; [|done]. intros H%negb_true_iff%bool_decide_eq_false. eauto.
  - destruct (locks k !! l) as [h|]; [|done]. intros H%negb_true_iff%bool_decide_eq_false. eauto.
  - rewrite !Z.leb_le, Z.ltb_lt. naive_solver.
  - rewrite Z.ltb_lt. naive_solver.
Qed.

Definition enabledb (k : kstate) (e : event) : bool :=
  match e with
  | EvCall c => bool_decide (current_frames k = []) && call_okb k c
  | EvResume => negb (bool_decide (current_frames k = []))
  | EvTick => k.(intr_on)
  end.

Lemma enabledb_sound k e : enabledb k e = true → enabled k e.
Proof.
  destruct e; simpl; rewrite ?andb_true_iff, ?negb_true_iff, ?bool_decide_eq_true, ?bool_decide_eq_false; auto.
  intros []. auto using call_okb_sound.
Qed.

(** runs events that are enabled, in order *)
Fixpoint run_events (es : list event) (k : kstate) : option kstate :=
  match es with
  | [] => Some k
  | e :: r => if enabledb k e then
                match exec_event e k with Ok (_, k') => run_events r k' | Err _ => None end
              else None
  end.

Lemma run_events_reachable es k k' : reachable k → run_events es k = Some k' → reachable k'.
Proof.
  revert k. induction es as [|e r IH]; intros k Hk; simpl; [congruence|].
  destruct (enabledb k e) eqn:He; [|done]. destruct (exec_event e k) as [[[] k1]|] eqn:E; [|done].
  apply IH. eapply reach_step; [done|]. econstructor; [by apply enabledb_sound|done].
Qed.
