(* ===== verification/KernelSpec.v ===== *)
(** What the thread system promises (threads/thread.c, threads/synch.c,
    devices/timer.c, userprog/process.c), for every state the kernel reaches. *)

From S2P Require Import Prelude KList KListAlgo FixedPoint Thread Synch Kernel Sched Tokens Safety Calls Tick Machine.

#[local] Arguments intr_set_level : simpl never.

(** * A run of the kernel *)

(** the initial thread at page 0x1000, the idle thread at 0x2000 *)
Definition ex_run (es : list event) : kstate :=
  match boot 0x1000 0x2000 false with
  | Ok k => default k (run_events es k)
  | Err _ => boot_state 0x1000 0x2000 false
  end.

Definition ex_ok (es : list event) : bool :=
  match boot 0x1000 0x2000 false with
  | Ok k => bool_decide (is_Some (run_events es k))
  | Err _ => false
  end.

Lemma ex_reachable es : ex_ok es = true → reachable (ex_run es).
Proof.
  unfold ex_ok, ex_run. destruct (boot _ _ _) as [k|] eqn:E; [|done]. rewrite bool_decide_eq_true.
  intros [k' Hk']. rewrite Hk'. eapply run_events_reachable; [|done]. by eapply (reach_boot 0x1000 0x2000 false).
Qed.

(** the initial thread has waited for the idle thread to start *)
Definition ex_started : list event := replicate 7 EvResume.

(** it has created a thread of a higher priority, at 0x3000, which takes over,
    and sleeps for a tick *)
Definition ex_asleep : list event :=
  ex_started ++ [EvCall (CCreate 0x3000 40); EvResume; EvCall (CSleep 1); EvResume].

(** it holds a lock the new thread waits for *)
Definition ex_locked : list event :=
  ex_started ++ [EvCall (CLockInit 1); EvCall (CLockAcquire 1); EvResume;
                 EvCall (CCreate 0x3000 40); EvResume; EvCall (CLockAcquire 1)].

(** * Safety *)





(** [t] owns lock [l]: it is the recorded holder, or has taken the lock's
    semaphore and not yet recorded itself, or is about to raise it *)
Definition owns (k : kstate) (l t : Z) : Prop :=
  k.(locks) !! l = Some (Some t) ∨ ∃ th, k.(threads) !! t = Some th ∧ lock_tok l th.(frames) ≠ 0%nat.

Lemma owns_lock_w k l h t : k.(locks) !! l = Some h → owns k l t → lock_w (frames_of k) h l t ≠ 0%nat.
Proof.
  intros Hl [H|(th & Ht & H)]; unfold lock_w.
  - assert (h = Some t) as -> by congruence. rewrite bool_decide_eq_true_2 by done. simpl. lia.
  - rewrite (lookup_total_correct (frames_of k) t (frames th)) by (apply frames_of_lookup; eauto). lia.
Qed.

(** C10. Mutual exclusion: no two threads own a lock, and nobody does while its
    semaphore is up. *)
Theorem mutual_exclusion k l t : reachable k → is_Some (k.(locks) !! l) → owns k l t →
  (∀ u, owns k l u → u = t) ∧ value <$> k.(semas) !! SemaLock l = Some 0.
Proof.
  intros Hk [h Hl] Ht. destruct (ti_lock _ _ (inv_ti _ (reachable_Inv k Hk)) l h Hl) as (n & Hn & Ho).
  rewrite view_val_lookup in Hn. pose proof (owns_lock_w k l h t Hl Ht) as Hw.
  destruct Ho as [[-> Hz]|(-> & o & _ & Hz)]; [by destruct Hw|].
  assert (Ho : ∀ u, lock_w (frames_of k) h l u ≠ 0%nat → u = o).
  { intros u Hu. destruct (decide (u = o)); [done|]. by destruct Hu; auto. }
  split; [|done]. intros u Hu. rewrite (Ho t Hw). apply Ho. by eapply owns_lock_w.
Qed.

Lemma mutual_exclusion_witness :
  (∀ u, owns (ex_run ex_locked) 1 u → u = 0x1000) ∧
  value <$> (ex_run ex_locked).(semas) !! SemaLock 1 = Some 0.
Proof.
  apply (mutual_exclusion (ex_run ex_locked) 1 0x1000).
  - apply ex_reachable. vm_compute. reflexivity.
  - vm_compute. eauto.
  - left. vm_compute. reflexivity.
Defined.

(** C38. The load average of the feedback scheduler never overflows its 17.14 format,
    however many threads there are and however long the kernel runs. *)
Theorem load_avg_bounded k : reachable k → 0 ≤ k.(load_avg) ≤ 2 ^ 28.
Proof. intros Hk. exact (proj1 (ti_load _ _ (inv_ti _ (reachable_Inv k Hk)))). Qed.

Lemma load_avg_bounded_witness : 0 ≤ (ex_run ex_asleep).(load_avg) ≤ 2 ^ 28.
Proof. apply load_avg_bounded, ex_reachable. vm_compute. reflexivity. Defined.

(** * Scheduling *)

(** the running thread, its kernel stack being empty *)
Lemma own_code k : Inv k → current_frames k = [] →
  ∃ th, k.(threads) !! k.(current) = Some th ∧ th.(frames) = [] ∧ VInv [] k ∧ k.(intr_on) = true ∧
    k.(idle_thread) ≠ Some k.(current).
Proof.
  intros HI Hf. destruct (si_cur _ _ _ (inv_si _ HI)) as (th & Ht & _).
  assert (Hfs : frames th = []) by (unfold current_frames in Hf; by rewrite Ht in Hf).
  assert (Hph : frames_of k !! current k = Some []) by by eapply phys_nil.
  exists th. split_and!; [done..| | |].
  - rewrite <- Hfs. by apply Inv_VInv.
  - pose proof (inv_stack _ HI _ _ Hph) as Hs. rewrite decide_True in Hs by done. by inversion Hs.
  - intros Hid. pose proof (ti_idle _ _ (inv_ti _ HI)) as Hok. unfold idle_ok in Hok.
    change (v_idle (view_of k)) with (idle_thread k) in Hok. rewrite Hid in Hok. destruct Hok as [Hi _].
    by rewrite (lookup_total_correct _ _ _ Hph) in Hi.
Qed.

Lemma switched_prio n nth k t : k.(threads) !! n = Some nth → prio (switched n nth k) t = prio k t.
Proof. intros Hn. unfold prio; simpl. destruct (decide (t = n)) as [->|]; by simplify_map_eq. Qed.

(** [thread_yield] from a thread's own code: the first of the ready threads and
    the caller, the caller last among its equals *)
Lemma yield_picks k : VInv [] k → frames_of k !! k.(current) = Some [] → k.(intr_on) = true →
  k.(idle_thread) ≠ Some k.(current) → ∃ k', thread_yield k = Ok (tt, k') ∧
  k'.(current) :: k'.(ready_list) = ins_ordered (cmp_priority_thread k) k.(current) k.(ready_list) ∧
  ∀ t, prio k' t = prio k t.
Proof.
  intros HV Hf Hon Hid. destruct (thread_yield_spec k [] HV Hf) as (n & nth & kp & He & _ & Hp & Hn & Hr & _ & _ & Hpr).
  { rewrite Hon. constructor. constructor. }
  rewrite bool_decide_eq_false_2 in Hr by done. eexists. split; [exact He|]. split.
  - simpl. unfold picks in Hp. rewrite <- Hr. destruct (ready_list kp) as [|t r]; [|by subst].
    symmetry in Hr. apply (f_equal length) in Hr. by rewrite ins_ordered_perm in Hr.
  - intros t. by rewrite switched_prio, Hpr.
Qed.

Lemma yield_sorted k k' : SI true None k → k.(thread_mlfqs) = false →
  k'.(current) :: k'.(ready_list) = ins_ordered (cmp_priority_thread k) k.(current) k.(ready_list) →
  (∀ t, prio k' t = prio k t) → ∀ t, t ∈ k'.(ready_list) → prio k' t ≤ prio k' k'.(current).
Proof.
  intros HS Hm Hr Hpr t Ht.
  pose proof (@ins_ordered_sorted (cmp_priority_thread k) _ (current k) _ (si_prio_ready _ _ _ HS Hm)) as Hs.
  rewrite <- Hr in Hs. apply StronglySorted_inv in Hs as [_ Hs]. rewrite Forall_forall in Hs.
  specialize (Hs t Ht). apply by_prio_iff in Hs. by rewrite !Hpr.
Qed.



(** Round robin: [thread_yield] gives way to the first ready thread when its
    priority is at least the caller's, and otherwise returns at once. *)
Theorem yield_round_robin k t r : reachable k → k.(thread_mlfqs) = false → current_frames k = [] →
  k.(ready_list) = t :: r →
  ∃ k', thread_yield k = Ok (tt, k') ∧
    (if prio k k.(current) <=? prio k t then k'.(current) = t ∧ k.(current) ∈ k'.(ready_list)
     else k'.(current) = k.(current) ∧ k'.(ready_list) = k.(ready_list)).
Proof.
  intros Hk Hm Hcf Hr. pose proof (reachable_Inv k Hk) as HI.
  destruct (own_code k HI Hcf) as (th & Ht & Hfs & HV & Hon & Hid).
  destruct (yield_picks k HV (phys_nil k th Ht Hfs) Hon Hid) as (k' & He & Hr' & _).
  exists k'. split; [done|]. rewrite Hr in Hr'. simpl in Hr'. unfold cmp_priority_thread at 1 in Hr'.
  rewrite Z.gtb_ltb in Hr'. destruct (Z.ltb_spec (prio k t) (prio k (current k))), (Z.leb_spec (prio k (current k)) (prio k t));
    try lia; injection Hr' as -> ->.
  - by rewrite Hr.
  - split; [done|]. apply elem_of_ins_ordered. by left.
Qed.

(** here the new thread has a lower priority than its creator *)
Definition ex_created : list event := ex_started ++ [EvCall (CCreate 0x3000 20); EvResume].

Lemma yield_round_robin_witness : ∃ k', thread_yield (ex_run ex_created) = Ok (tt, k') ∧
  (if prio (ex_run ex_created) (ex_run ex_created).(current) <=? prio (ex_run ex_created) 0x3000
   then k'.(current) = 0x3000 ∧ (ex_run ex_created).(current) ∈ k'.(ready_list)
   else k'.(current) = (ex_run ex_created).(current) ∧ k'.(ready_list) = (ex_run ex_created).(ready_list)).
Proof.
  apply (yield_round_robin (ex_run ex_created) 0x3000 []).
  - apply ex_reachable. vm_compute. reflexivity.
  - vm_compute. reflexivity.
  - vm_compute. reflexivity.
  - vm_compute. reflexivity.
Defined.

(** * Sleeping *)

(** C32. The timer interrupt wakes the sleepers whose time has come, and no others:
    they leave [sleeping_list] and are ready, or running, when it returns. *)
Theorem tick_wakes_sleepers k : reachable k → k.(intr_on) = true →
  ∃ k', intr_handler_timer k = Ok (tt, k') ∧
    k'.(sleeping_list) = filter (λ t, s64 (k.(ticks) + 1) < wake k t) k.(sleeping_list) ∧
    ∀ t, t ∈ k.(sleeping_list) → wake k t ≤ s64 (k.(ticks) + 1) → t ∈ k'.(ready_list) ∨ t = k'.(current).
Proof.
  intros Hk Hon. pose proof (reachable_Inv k Hk) as HI.
  destruct (timer_interrupt_spec k HI) as (k1 & E1 & Hm & Hs & Hr).
  destruct (intr_handler_timer_full k k1 HI Hon E1 Hm) as (k' & E & _ & Hs' & Hr').
  exists k'. split_and!; [done|congruence|]. intros t Ht Hw. apply Hr', Hr. by right.
Qed.

Lemma tick_wakes_sleepers_witness : ∃ k', intr_handler_timer (ex_run ex_asleep) = Ok (tt, k') ∧
  k'.(sleeping_list) = filter (λ t, s64 ((ex_run ex_asleep).(ticks) + 1) < wake (ex_run ex_asleep) t)
    (ex_run ex_asleep).(sleeping_list) ∧
  ∀ t, t ∈ (ex_run ex_asleep).(sleeping_list) → wake (ex_run ex_asleep) t ≤ s64 ((ex_run ex_asleep).(ticks) + 1) →
    t ∈ k'.(ready_list) ∨ t = k'.(current).
Proof.
  apply (tick_wakes_sleepers (ex_run ex_asleep)).
  - apply ex_reachable. vm_compute. reflexivity.
  - vm_compute. reflexivity.
Defined.

(** * Waiting for a child *)

(** [process_wait] for a thread that is not (or no longer) a child of the caller
    returns -1 at once. *)
Theorem wait_not_child k x th : reachable k → current_frames k = [] →
  k.(threads) !! k.(current) = Some th →
  (∀ c cth, c ∈ th.(child_tlist) → k.(threads) !! c = Some cth → cth.(tid) ≠ x) →
  process_wait x k = Ok (tt, set_threads (<[k.(current) := set_retval (-1) th]> k.(threads)) k).
Proof.
  intros Hk Hcf Ht Hx. pose proof (reachable_Inv k Hk) as HI.
  destruct (own_code k HI Hcf) as (th' & Ht' & Hfs & HV & _). assert (th' = th) as -> by congruence.
  unfold process_wait. rewrite (bind_eq _ _ _ _ _ (thread_current_eq k th Ht (calls_running k th Ht HV))).
  rewrite (bind_eq _ _ _ _ _ (get_thread_eq k _ th Ht)), (bind_eq _ _ _ _ _ (get_eq k)).
  destruct (thread_get_child_spec k (child_tlist th) x) as [(d & E & Hd & dth & Hdt & Hdx)|[E _]].
  - intros d Hd. eapply kids_alive; [apply HV|]. by rewrite (kids_of k _ th).
  - by destruct (Hx d dth Hd Hdt).
  - rewrite (bind_eq _ _ _ _ _ (lift_eq _ _ _ E)). by rewrite (ret_val_eq k th).
Qed.

(** the initial thread as the idle thread has started *)
Definition ex_main : thread :=
  mk_thread 1 THREAD_RUNNING PRI_DEFAULT false [0x2000] false 0 0 0 0 [] 2.

Lemma wait_not_child_witness : process_wait 7 (ex_run ex_started) =
  Ok (tt, set_threads (<[0x1000 := set_retval (-1) ex_main]> (ex_run ex_started).(threads)) (ex_run ex_started)).
Proof.
  apply (wait_not_child (ex_run ex_started) 7 ex_main).
  - apply ex_reachable. vm_compute. reflexivity.
  - vm_compute. reflexivity.
  - vm_compute. reflexivity.
  - intros c cth Hc. apply list_elem_of_singleton in Hc as ->. vm_compute. intros [= <-]. discriminate.
Defined.

(** what [process_wait] does once the child has raised its [sema_wait] *)
Lemma reap_eq k th c cth fs : k.(threads) !! k.(current) = Some th → th.(frames) = FReap c :: fs →
  k.(threads) !! c = Some cth →
  resume k = Ok (tt, set_threads (<[k.(current) := set_frames (FSemaUp (SemaElim c) :: fs)
    (set_retval cth.(exit_status) (set_child_tlist (filter (λ d, d ≠ c) th.(child_tlist)) (set_frames fs th)))]>
    k.(threads)) k).
Proof.
  intros Ht Hf Hc. unfold resume. rewrite (bind_eq running_thread _ _ (current k) k eq_refl).
  rewrite (bind_eq _ _ _ _ _ (get_thread_eq k _ th Ht)), Hf.
  rewrite (bind_eq _ _ _ _ _ (upd_thread_eq k _ th _ Ht)).
  change (exec_frame (FReap c)) with (process_reap c). unfold process_reap.
  rewrite (bind_eq _ _ _ _ _ (gets_eq current _)).
  assert (∃ cth', <[current k := set_frames fs th]> (threads k) !! c = Some cth' ∧
    exit_status cth' = exit_status cth) as (cth' & Hc' & Hst).
  { destruct (decide (c = current k)) as [->|]; [rewrite lookup_insert_eq|rewrite lookup_insert_ne by done; eauto].
    eexists. split; [done|]. simpl. congruence. }
  erewrite (bind_eq (get_thread c)) by (apply get_thread_eq; exact Hc').
  erewrite (bind_eq (upd_thread _ _)) by (apply upd_thread_eq; simpl; by rewrite lookup_insert_eq).
  erewrite (bind_eq (ret_val _)) by (apply ret_val_eq; simpl; by rewrite lookup_insert_eq).
  erewrite push_frame_eq by (simpl; by rewrite lookup_insert_eq). simpl. by rewrite !insert_insert_eq, Hst.
Qed.


(** a child that exits with status 9, and its parent past the [sema_down] of
    [process_wait] *)
Definition ex_waited : list event :=
  ex_started ++ [EvCall (CCreate 0x3000 40); EvResume; EvCall (CExit 9); EvResume; EvResume; EvResume;
                 EvCall (CWait 3)].
Definition ex_parent : thread :=
  mk_thread 1 THREAD_RUNNING PRI_DEFAULT false [0x2000; 0x3000] false 0 0 0 0 [FReap 0x3000] 3.

