(* ===== verification/Bitmap.v ===== *)
(** lib/kernel/bitmap.c: arrays of bits in arrays of 32-bit words.

    A bitmap is its size and the words that hold its bits; [bit b i] is bit [i],
    [bits_of b] the array of bits clients see.  Each routine is given as what it
    returns and the bitmap it leaves; reading past the words is a [Fault]. *)

From S2P Require Import Prelude.

Definition ELEM_BITS : Z := 32.
Definition BITMAP_ERROR : Z := 2 ^ 32 - 1.

Record bitmap := mk_bitmap { bit_cnt : Z; bits : list Z }.

#[global] Instance bitmap_eq_dec : EqDecision bitmap.
Proof. solve_decision. Defined.

Definition elem_idx (bit_idx : Z) : Z := bit_idx / ELEM_BITS.

Definition bit_mask (bit_idx : Z) : Z := u32 (Z.shiftl 1 (bit_idx mod ELEM_BITS)).

Definition elem_cnt (bit_cnt : Z) : Z := u32 (u32 (bit_cnt + ELEM_BITS) - 1) / ELEM_BITS.

Definition byte_cnt (bit_cnt : Z) : Z := u32 (4 * elem_cnt bit_cnt).

Definition last_mask (b : bitmap) : Z :=
  let last_bits := b.(bit_cnt) mod ELEM_BITS in
  if last_bits =? 0 then 2 ^ 32 - 1 else u32 (u32 (Z.shiftl 1 last_bits) - 1).

Definition sizeof_bitmap : Z := 8.

Definition bitmap_buf_size (bit_cnt : Z) : Z := u32 (sizeof_bitmap + byte_cnt bit_cnt).

Definition bitmap_size (b : bitmap) : Z := b.(bit_cnt).

(** [b->bits[idx] = f (b->bits[idx])] *)
Definition upd_elem (b : bitmap) (idx : Z) (f : Z → Z) : outcome bitmap :=
  e ← ofault (b.(bits) !! Z.to_nat idx);
  Ok (mk_bitmap b.(bit_cnt) (<[Z.to_nat idx := f e]> b.(bits))).

Definition bitmap_mark (b : bitmap) (bit_idx : Z) : outcome bitmap :=
  upd_elem b (elem_idx bit_idx) (λ e, Z.lor e (bit_mask bit_idx)).

Definition bitmap_reset (b : bitmap) (bit_idx : Z) : outcome bitmap :=
  upd_elem b (elem_idx bit_idx) (λ e, Z.land e (u32 (Z.lnot (bit_mask bit_idx)))).

Definition bitmap_flip (b : bitmap) (bit_idx : Z) : outcome bitmap :=
  upd_elem b (elem_idx bit_idx) (λ e, Z.lxor e (bit_mask bit_idx)).

Definition bitmap_set (b : bitmap) (idx : Z) (value : bool) : outcome bitmap :=
  _ ← oassert (idx <? b.(bit_cnt));
  if value then bitmap_mark b idx else bitmap_reset b idx.

Definition bitmap_test (b : bitmap) (idx : Z) : outcome bool :=
  _ ← oassert (idx <? b.(bit_cnt));
  e ← ofault (b.(bits) !! Z.to_nat (elem_idx idx));
  Ok (negb (Z.land e (bit_mask idx) =? 0)).

(** [n] turns of the loop, from [i] *)
Fixpoint set_loop (b : bitmap) (start : Z) (value : bool) (i : Z) (n : nat) : outcome bitmap :=
  match n with
  | O => Ok b
  | S n' => b' ← bitmap_set b (u32 (start + i)) value; set_loop b' start value (i + 1) n'
  end.

Definition check_range (b : bitmap) (start cnt : Z) : outcome unit :=
  _ ← oassert (start <=? b.(bit_cnt)); oassert (u32 (start + cnt) <=? b.(bit_cnt)).

Definition bitmap_set_multiple (b : bitmap) (start cnt : Z) (value : bool) : outcome bitmap :=
  _ ← check_range b start cnt; set_loop b start value 0 (Z.to_nat cnt).

Definition bitmap_set_all (b : bitmap) (value : bool) : outcome bitmap :=
  bitmap_set_multiple b 0 (bitmap_size b) value.

(** [block1], [block2]: whether the two calls of [malloc] returned a block; [init]
    is what the block of the words holds *)
Definition bitmap_create (bit_cnt : Z) (block1 block2 : bool) (init : list Z) : outcome (option bitmap) :=
  if negb block1 then Ok None
  else if block2 || (bit_cnt =? 0) then
    b ← bitmap_set_all (mk_bitmap bit_cnt init) false; Ok (Some b)
  else Ok None.

Definition bitmap_create_in_buf (bit_cnt : Z) (block_size : Z) (init : list Z) : outcome bitmap :=
  _ ← oassert (bitmap_buf_size bit_cnt <=? block_size);
  bitmap_set_all (mk_bitmap bit_cnt init) false.

Fixpoint count_loop (b : bitmap) (start : Z) (value : bool) (i value_cnt : Z) (n : nat) : outcome Z :=
  match n with
  | O => Ok value_cnt
  | S n' => v ← bitmap_test b (u32 (start + i));
      count_loop b start value (i + 1) (if eqb v value then u32 (value_cnt + 1) else value_cnt) n'
  end.

Definition bitmap_count (b : bitmap) (start cnt : Z) (value : bool) : outcome Z :=
  _ ← check_range b start cnt; count_loop b start value 0 0 (Z.to_nat cnt).

Fixpoint contains_loop (b : bitmap) (start : Z) (value : bool) (i : Z) (n : nat) : outcome bool :=
  match n with
  | O => Ok false
  | S n' => v ← bitmap_test b (u32 (start + i));
      if eqb v value then Ok true else contains_loop b start value (i + 1) n'
  end.

Definition bitmap_contains (b : bitmap) (start cnt : Z) (value : bool) : outcome bool :=
  _ ← check_range b start cnt; contains_loop b start value 0 (Z.to_nat cnt).

Definition bitmap_any (b : bitmap) (start cnt : Z) : outcome bool := bitmap_contains b start cnt true.

Definition bitmap_none (b : bitmap) (start cnt : Z) : outcome bool :=
  c ← bitmap_contains b start cnt true; Ok (negb c).

Definition bitmap_all (b : bitmap) (start cnt : Z) : outcome bool :=
  c ← bitmap_contains b start cnt false; Ok (negb c).

Fixpoint scan_loop (b : bitmap) (cnt : Z) (value : bool) (i : Z) (n : nat) : outcome Z :=
  match n with
  | O => Ok BITMAP_ERROR
  | S n' => c ← bitmap_contains b i cnt (negb value);
      if negb c then Ok i else scan_loop b cnt value (u32 (i + 1)) n'
  end.

Definition bitmap_scan (b : bitmap) (start cnt : Z) (value : bool) : outcome Z :=
  _ ← oassert (start <=? b.(bit_cnt));
  if cnt <=? b.(bit_cnt) then
    let last := b.(bit_cnt) - cnt in
    scan_loop b cnt value start (Z.to_nat (last + 1 - start))
  else Ok BITMAP_ERROR.

Definition bitmap_scan_and_flip (b : bitmap) (start cnt : Z) (value : bool) : outcome (Z * bitmap) :=
  idx ← bitmap_scan b start cnt value;
  if idx =? BITMAP_ERROR then Ok (idx, b)
  else b' ← bitmap_set_multiple b idx cnt (negb value); Ok (idx, b').

(** ** Bitmaps in files *)

Definition bitmap_file_size (b : bitmap) : Z := byte_cnt b.(bit_cnt).

(** the bytes of the words, as they lie in memory *)
Definition elem_bytes (e : Z) : list Z :=
  [e mod 256; (e / 256) mod 256; (e / 65536) mod 256; (e / 16777216) mod 256].

Definition bits_bytes (l : list Z) : list Z := mjoin (elem_bytes <$> l).

Fixpoint bytes_bits (l : list Z) : list Z :=
  match l with
  | b0 :: b1 :: b2 :: b3 :: r => (b0 + 256 * b1 + 65536 * b2 + 16777216 * b3) :: bytes_bits r
  | _ => []
  end.

(** [got] is what [file_read_at (file, b->bits, size, 0)] puts at the start of the
    buffer, its length the number it returns *)
Definition bitmap_read (b : bitmap) (got : list Z) : outcome (bool * bitmap) :=
  if 0 <? b.(bit_cnt) then
    let size := byte_cnt b.(bit_cnt) in
    let bytes := got ++ drop (length got) (bits_bytes b.(bits)) in
    b' ← upd_elem (mk_bitmap b.(bit_cnt) (bytes_bits bytes)) (elem_cnt b.(bit_cnt) - 1)
           (λ e, Z.land e (last_mask b));
    Ok (Z.of_nat (length got) =? size, b')
  else Ok (true, b).

(** the bytes it hands to [file_write_at], and the result for the number of them
    written *)
Definition bitmap_write (b : bitmap) (written : Z) : list Z * bool :=
  (bits_bytes b.(bits), written =? byte_cnt b.(bit_cnt)).

(** * The bits *)

Definition bit (b : bitmap) (i : Z) : bool :=
  Z.testbit (b.(bits) !!! Z.to_nat (i / 32)) (i mod 32).

Definition bits_of (b : bitmap) : list bool := bit b <$> seqZ 0 b.(bit_cnt).

Record bitmap_wf (b : bitmap) : Prop := {
  wf_cnt : 0 ≤ b.(bit_cnt) < 2 ^ 32 - 32;
  wf_len : Z.of_nat (length b.(bits)) = elem_cnt b.(bit_cnt);
  wf_elem : ∀ e, e ∈ b.(bits) → 0 ≤ e < 2 ^ 32
}.

(** * Single bits *)

Lemma bit_mask_eq i : bit_mask i = 2 ^ (i mod 32).
Proof.
  unfold bit_mask, ELEM_BITS. rewrite Z.shiftl_1_l. apply u32_small.
  pose proof (Z.mod_pos_bound i 32). split; [apply Z.pow_nonneg; lia|apply Z.pow_lt_mono_r; lia].
Qed.

Lemma elem_cnt_eq n : 0 ≤ n < 2 ^ 32 - 32 → elem_cnt n = (n + 31) / 32.
Proof.
  intros Hn. unfold elem_cnt, ELEM_BITS. rewrite (u32_small (n + 32)) by lia. rewrite u32_small by lia.
  f_equal. lia.
Qed.

Lemma testbit_small e k : 0 ≤ e < 2 ^ 32 → 32 ≤ k → Z.testbit e k = false.
Proof. intros He Hk. apply (Z.bounded_iff_bits_nonneg 32 e); lia. Qed.

Lemma small_testbit e : 0 ≤ e → (∀ k, 32 ≤ k → Z.testbit e k = false) → 0 ≤ e < 2 ^ 32.
Proof. intros He Hk. split; [done|]. apply (Z.bounded_iff_bits_nonneg 32 e); [lia|done|done]. Qed.

(** the three updates of a word, bit by bit *)
Lemma set_word e j : 0 ≤ e < 2 ^ 32 → 0 ≤ j < 32 →
  0 ≤ Z.lor e (2 ^ j) < 2 ^ 32 ∧
  ∀ k, 0 ≤ k → Z.testbit (Z.lor e (2 ^ j)) k = if k =? j then true else Z.testbit e k.
Proof.
  intros He Hj. assert (Hb : ∀ k, 0 ≤ k → Z.testbit (Z.lor e (2 ^ j)) k = if k =? j then true else Z.testbit e k).
  { intros k Hk. rewrite Z.lor_spec, Z.pow2_bits_eqb, (Z.eqb_sym j k) by lia.
    destruct (k =? j); [apply orb_true_r|apply orb_false_r]. }
  split; [|done]. apply small_testbit; [apply Z.lor_nonneg; lia|].
  intros k Hk. rewrite Hb by lia. destruct (Z.eqb_spec k j); [lia|]. by apply testbit_small.
Qed.

Lemma reset_word e j : 0 ≤ e < 2 ^ 32 → 0 ≤ j < 32 →
  0 ≤ Z.land e (u32 (Z.lnot (2 ^ j))) < 2 ^ 32 ∧
  ∀ k, 0 ≤ k → Z.testbit (Z.land e (u32 (Z.lnot (2 ^ j)))) k = if k =? j then false else Z.testbit e k.
Proof.
  intros He Hj. assert (Hb : ∀ k, 0 ≤ k → Z.testbit (Z.land e (u32 (Z.lnot (2 ^ j)))) k =
    if k =? j then false else Z.testbit e k).
  { intros k Hk. unfold u32. rewrite Z.land_spec, Z.testbit_mod_pow2, Z.lnot_spec, Z.pow2_bits_eqb, (Z.eqb_sym j k) by lia.
    destruct (Z.ltb_spec k 32); simpl.
    - destruct (k =? j); [apply andb_false_r|apply andb_true_r].
    - rewrite testbit_small by lia. by destruct (k =? j). }
  split; [|done]. apply small_testbit; [apply Z.land_nonneg; left; lia|].
  intros k Hk. rewrite Hb by lia. destruct (k =? j); [done|]. by apply testbit_small.
Qed.

Lemma flip_word e j : 0 ≤ e < 2 ^ 32 → 0 ≤ j < 32 →
  0 ≤ Z.lxor e (2 ^ j) < 2 ^ 32 ∧
  ∀ k, 0 ≤ k → Z.testbit (Z.lxor e (2 ^ j)) k = if k =? j then negb (Z.testbit e k) else Z.testbit e k.
Proof.
  intros He Hj. assert (Hb : ∀ k, 0 ≤ k → Z.testbit (Z.lxor e (2 ^ j)) k =
    if k =? j then negb (Z.testbit e k) else Z.testbit e k).
  { intros k Hk. rewrite Z.lxor_spec, Z.pow2_bits_eqb, (Z.eqb_sym j k) by lia.
    destruct (k =? j); [apply xorb_true_r|apply xorb_false_r]. }
  split; [|done]. apply small_testbit; [apply Z.lxor_nonneg; lia|].
  intros k Hk. rewrite Hb by lia. destruct (Z.eqb_spec k j); [lia|]. by apply testbit_small.
Qed.

Section single.
Context (b : bitmap) (Hwf : bitmap_wf b).

Lemma elem_at i : 0 ≤ i < b.(bit_cnt) → ∃ e, b.(bits) !! Z.to_nat (i / 32) = Some e ∧ 0 ≤ e < 2 ^ 32.
Proof using Hwf.
  intros Hi. destruct Hwf as [Hc Hl He]. rewrite elem_cnt_eq in Hl by done.
  assert (i / 32 < (bit_cnt b + 31) / 32) by (apply Z.div_lt_upper_bound; [lia|];
    pose proof (Z.mul_succ_div_gt (bit_cnt b + 31) 32); lia).
  pose proof (Z.div_pos i 32).
  destruct (lookup_lt_is_Some_2 (bits b) (Z.to_nat (i / 32))) as [e E]; [lia|].
  exists e. split; [done|]. apply He. by eapply list_elem_of_lookup_2.
Qed.

(** an update of one word that changes one bit *)
Lemma upd_elem_spec i f (v : bool → bool) : 0 ≤ i < b.(bit_cnt) →
  (∀ e, 0 ≤ e < 2 ^ 32 → 0 ≤ f e < 2 ^ 32 ∧
     ∀ k, 0 ≤ k → Z.testbit (f e) k = if k =? i mod 32 then v (Z.testbit e k) else Z.testbit e k) →
  ∃ b', upd_elem b (i / 32) f = Ok b' ∧ bitmap_wf b' ∧ b'.(bit_cnt) = b.(bit_cnt) ∧
    ∀ j, 0 ≤ j → bit b' j = if j =? i then v (bit b j) else bit b j.
Proof using Hwf.
  intros Hi Hf. destruct (elem_at i Hi) as (e & E & He). unfold upd_elem. rewrite E. simpl.
  destruct (Hf e He) as [Hr Hb]. eexists. split_and!; [done| |done|].
  - destruct Hwf as [Hc Hl Hel]. split; simpl; [done|by rewrite length_insert|].
    intros x Hx. apply list_elem_of_lookup in Hx as [k Hk]. apply list_lookup_insert_Some in Hk as [(_ & <- & _)|[_ Hk]]; [done|].
    apply Hel. by eapply list_elem_of_lookup_2.
  - intros j Hj. unfold bit; simpl. assert (Hlen : (Z.to_nat (i / 32) < length (bits b))%nat) by (by eapply lookup_lt_Some).
    pose proof (Z.div_pos i 32). pose proof (Z.div_pos j 32). pose proof (Z.mod_pos_bound j 32).
    pose proof (Z.div_mod i 32). pose proof (Z.div_mod j 32).
    destruct (decide (j / 32 = i / 32)) as [Hq|Hq].
    + rewrite Hq, list_lookup_total_insert_eq, Hb by lia. rewrite (list_lookup_total_correct _ _ _ E).
      destruct (Z.eqb_spec (j mod 32) (i mod 32)), (Z.eqb_spec j i); try done; lia.
    + rewrite list_lookup_total_insert_ne by lia. destruct (Z.eqb_spec j i); [congruence|done].
Qed.

Lemma bitmap_set_bit i v : 0 ≤ i < b.(bit_cnt) →
  ∃ b', bitmap_set b i v = Ok b' ∧ bitmap_wf b' ∧ b'.(bit_cnt) = b.(bit_cnt) ∧
    ∀ j, 0 ≤ j → bit b' j = if j =? i then v else bit b j.
Proof using Hwf.
  intros Hi. pose proof (Z.mod_pos_bound i 32). unfold bitmap_set. destruct (Z.ltb_spec i (bit_cnt b)); [|lia]. simpl.
  destruct v; unfold bitmap_mark, bitmap_reset, elem_idx, ELEM_BITS; rewrite bit_mask_eq.
  - apply (upd_elem_spec i _ (λ _, true)); [done|]. intros e He. apply set_word; lia.
  - apply (upd_elem_spec i _ (λ _, false)); [done|]. intros e He. apply reset_word; lia.
Qed.

Lemma bitmap_flip_bit i : 0 ≤ i < b.(bit_cnt) →
  ∃ b', bitmap_flip b i = Ok b' ∧ bitmap_wf b' ∧ b'.(bit_cnt) = b.(bit_cnt) ∧
    ∀ j, 0 ≤ j → bit b' j = if j =? i then negb (bit b j) else bit b j.
Proof using Hwf.
  intros Hi. pose proof (Z.mod_pos_bound i 32). unfold bitmap_flip, elem_idx, ELEM_BITS. rewrite bit_mask_eq.
  apply (upd_elem_spec i _ negb); [done|]. intros e He. apply flip_word; lia.
Qed.

Lemma bitmap_test_bit i : 0 ≤ i < b.(bit_cnt) → bitmap_test b i = Ok (bit b i).
Proof using Hwf.
  intros Hi. unfold bitmap_test. destruct (Z.ltb_spec i (bit_cnt b)); [|lia]. simpl.
  destruct (elem_at i Hi) as (e & E & He). unfold elem_idx, ELEM_BITS. rewrite E. simpl.
  unfold bit. rewrite (list_lookup_total_correct _ _ _ E), bit_mask_eq. f_equal.
  pose proof (Z.mod_pos_bound i 32). destruct (Z.testbit e (i mod 32)) eqn:T.
  - destruct (Z.eqb_spec (Z.land e (2 ^ (i mod 32))) 0) as [Hz|]; [|done]. exfalso.
    apply (f_equal (λ z, Z.testbit z (i mod 32))) in Hz.
    rewrite Z.land_spec, T, Z.pow2_bits_true, Z.testbit_0_l in Hz by lia. done.
  - assert (Z.land e (2 ^ (i mod 32)) = 0) as ->; [|done]. apply Z.bits_inj'. intros k Hk.
    rewrite Z.land_spec, Z.pow2_bits_eqb, Z.testbit_0_l by lia.
    destruct (Z.eqb_spec (i mod 32) k) as [<-|]; [by rewrite T|apply andb_false_r].
Qed.
End single.

(** * Ranges of bits *)

Section ranges.
Context (b : bitmap) (Hwf : bitmap_wf b).

Lemma check_range_ok start cnt : 0 ≤ start → 0 ≤ cnt → start + cnt ≤ b.(bit_cnt) → check_range b start cnt = Ok tt.
Proof using Hwf.
  intros Hs Hc Hb. pose proof (wf_cnt b Hwf). unfold check_range. rewrite u32_small by lia.
  destruct (Z.leb_spec start (bit_cnt b)); [|lia]. simpl. by destruct (Z.leb_spec (start + cnt) (bit_cnt b)); [|lia].
Qed.

Lemma contains_loop_spec start v i n : 0 ≤ start → 0 ≤ i → start + i + Z.of_nat n ≤ b.(bit_cnt) →
  contains_loop b start v i n = Ok (existsb (λ j, eqb (bit b j) v) (seqZ (start + i) (Z.of_nat n))).
Proof using Hwf.
  pose proof (wf_cnt b Hwf). revert i. induction n as [|n IH]; intros i Hs Hi Hn; [done|]. cbn [contains_loop].
  rewrite u32_small by lia. rewrite (bitmap_test_bit b Hwf) by lia. simpl mbind.
  rewrite seqZ_cons by lia. cbn [existsb]. destruct (eqb (bit b (start + i)) v); [done|].
  rewrite IH by lia. simpl. do 3 f_equal; lia.
Qed.

Lemma bitmap_contains_eq start cnt v : 0 ≤ start → 0 ≤ cnt → start + cnt ≤ b.(bit_cnt) →
  bitmap_contains b start cnt v = Ok (existsb (λ j, eqb (bit b j) v) (seqZ start cnt)).
Proof using Hwf.
  intros. unfold bitmap_contains. rewrite check_range_ok by done. simpl. rewrite contains_loop_spec by lia.
  do 3 f_equal; lia.
Qed.

Lemma count_loop_spec start v i c n : 0 ≤ start → 0 ≤ i → 0 ≤ c → start + i + Z.of_nat n ≤ b.(bit_cnt) → c ≤ i →
  count_loop b start v i c n = Ok (c + Z.of_nat (length (filter (λ j, bit b j = v) (seqZ (start + i) (Z.of_nat n))))).
Proof using Hwf.
  pose proof (wf_cnt b Hwf). revert i c. induction n as [|n IH]; intros i c Hs Hi Hc Hn Hci.
  { simpl. f_equal. lia. }
  cbn [count_loop]. rewrite (u32_small (start + i)) by lia. rewrite (bitmap_test_bit b Hwf) by lia. simpl mbind.
  rewrite (seqZ_cons (start + i)) by lia.
  destruct (decide (bit b (start + i) = v)) as [Hv|Hv].
  - rewrite Hv, eqb_reflx, (u32_small (c + 1)), IH by lia. rewrite filter_cons_True by done. simpl.
    f_equal. replace (start + (i + 1)) with (Z.succ (start + i)) by lia.
    replace (Z.pred (Z.of_nat (S n))) with (Z.of_nat n) by lia. lia.
  - rewrite (proj2 (eqb_false_iff _ _) Hv), IH by lia. rewrite filter_cons_False by done.
    replace (start + (i + 1)) with (Z.succ (start + i)) by lia.
    by replace (Z.pred (Z.of_nat (S n))) with (Z.of_nat n) by lia.
Qed.

Lemma bitmap_count_eq start cnt v : 0 ≤ start → 0 ≤ cnt → start + cnt ≤ b.(bit_cnt) →
  bitmap_count b start cnt v = Ok (Z.of_nat (length (filter (λ j, bit b j = v) (seqZ start cnt)))).
Proof using Hwf.
  intros. unfold bitmap_count. rewrite check_range_ok by done. simpl. rewrite count_loop_spec by lia.
  by rewrite Z.add_0_l, Z.add_0_r, Z2Nat.id.
Qed.
End ranges.

Lemma set_loop_spec b start v i n : bitmap_wf b → 0 ≤ start → 0 ≤ i → start + i + Z.of_nat n ≤ b.(bit_cnt) →
  ∃ b', set_loop b start v i n = Ok b' ∧ bitmap_wf b' ∧ b'.(bit_cnt) = b.(bit_cnt) ∧
    ∀ j, 0 ≤ j → bit b' j = if (start + i <=? j) && (j <? start + i + Z.of_nat n) then v else bit b j.
Proof.
  revert b i. induction n as [|n IH]; intros b i Hwf Hs Hi Hn.
  { exists b. split_and!; [done..|]. intros j Hj. destruct (Z.leb_spec (start + i) j), (Z.ltb_spec j (start + i + Z.of_nat 0)); done || lia. }
  pose proof (wf_cnt b Hwf). cbn [set_loop]. rewrite u32_small by lia.
  destruct (bitmap_set_bit b Hwf (start + i) v) as (b1 & -> & Hwf1 & Hc1 & Hb1); [lia|]. simpl.
  destruct (IH b1 (i + 1) Hwf1) as (b' & -> & Hwf' & Hc' & Hb'); [lia..|].
  exists b'. split_and!; [done|done|congruence|]. intros j Hj. rewrite Hb' by done.
  rewrite Hb1 by done. destruct (Z.eqb_spec j (start + i)).
  all: destruct (Z.leb_spec (start + (i + 1)) j), (Z.ltb_spec j (start + (i + 1) + Z.of_nat n)),
    (Z.leb_spec (start + i) j), (Z.ltb_spec j (start + i + Z.of_nat (S n))); simpl; done || lia.
Qed.

Lemma bitmap_set_multiple_spec b start cnt v : bitmap_wf b → 0 ≤ start → 0 ≤ cnt → start + cnt ≤ b.(bit_cnt) →
  ∃ b', bitmap_set_multiple b start cnt v = Ok b' ∧ bitmap_wf b' ∧ b'.(bit_cnt) = b.(bit_cnt) ∧
    ∀ j, 0 ≤ j → bit b' j = if (start <=? j) && (j <? start + cnt) then v else bit b j.
Proof.
  intros Hwf Hs Hc Hb. unfold bitmap_set_multiple. rewrite check_range_ok by done. simpl.
  destruct (set_loop_spec b start v 0 (Z.to_nat cnt) Hwf) as (b' & He & Hwf' & Hc' & Hb'); [lia..|].
  exists b'. split_and!; [done..|]. intros j Hj. rewrite Hb' by done. by rewrite Z.add_0_r, Z2Nat.id by lia.
Qed.

(** ** Scanning *)

(** the [cnt] bits from [i] are all [v] *)
Definition run_at (b : bitmap) (cnt : Z) (v : bool) (i : Z) : Prop := ∀ j, i ≤ j < i + cnt → bit b j = v.

Lemma contains_run b i cnt v : bitmap_wf b → 0 ≤ i → 0 ≤ cnt → i + cnt ≤ b.(bit_cnt) →
  ∃ c, bitmap_contains b i cnt (negb v) = Ok c ∧ (c = false ↔ run_at b cnt v i).
Proof.
  intros Hwf Hi Hc Hb. rewrite bitmap_contains_eq by done. eexists. split; [done|].
  rewrite <- not_true_iff_false, existsb_exists. split.
  - intros Hn j Hj. destruct (bool_decide (bit b j = v)) eqn:E; [by apply bool_decide_eq_true in E|].
    apply bool_decide_eq_false in E. destruct Hn. exists j. split.
    + apply list_elem_of_In, elem_of_seqZ. lia.
    + destruct (bit b j), v; done.
  - intros Hr (j & Hj & He). apply list_elem_of_In, elem_of_seqZ in Hj. rewrite Hr in He by lia. by destruct v.
Qed.

Lemma scan_loop_spec b cnt v i n : bitmap_wf b → 0 ≤ cnt → 0 ≤ i → i + Z.of_nat n + cnt ≤ b.(bit_cnt) + 1 →
  ∃ r, scan_loop b cnt v i n = Ok r ∧
    (r = BITMAP_ERROR ∧ (∀ j, i ≤ j < i + Z.of_nat n → ¬ run_at b cnt v j) ∨
     i ≤ r < i + Z.of_nat n ∧ run_at b cnt v r ∧ ∀ j, i ≤ j < r → ¬ run_at b cnt v j).
Proof.
  intros Hwf Hc. pose proof (wf_cnt b Hwf). revert i. induction n as [|n IH]; intros i Hi Hn.
  { exists BITMAP_ERROR. split; [done|left]. split; [done|]. lia. }
  cbn [scan_loop]. destruct (contains_run b i cnt v Hwf) as (c & -> & Hcr); [lia..|]. simpl.
  destruct c; simpl.
  - rewrite u32_small by lia. assert (Hno : ¬ run_at b cnt v i) by (by intros ?%Hcr).
    destruct (IH (i + 1)) as (r & -> & [[-> Hr]|(Hr & Hrun & Hmin)]); [lia..| |].
    + exists BITMAP_ERROR. split; [done|left]. split; [done|]. intros j Hj.
      destruct (decide (j = i)) as [->|]; [done|]. apply Hr. lia.
    + exists r. split; [done|right]. split_and!; [lia|lia|done|]. intros j Hj.
      destruct (decide (j = i)) as [->|]; [done|]. apply Hmin. lia.
  - exists i. split; [done|right]. split_and!; [lia|lia|by apply Hcr|]. lia.
Qed.

(** the first place at or after [start] where [cnt] bits are [v] *)
Definition scan_result (b : bitmap) (start cnt : Z) (v : bool) (r : Z) : Prop :=
  r = BITMAP_ERROR ∧ (∀ j, start ≤ j → j + cnt ≤ b.(bit_cnt) → ¬ run_at b cnt v j) ∨
  start ≤ r ∧ r + cnt ≤ b.(bit_cnt) ∧ run_at b cnt v r ∧ ∀ j, start ≤ j < r → ¬ run_at b cnt v j.

Lemma bitmap_scan_spec b start cnt v : bitmap_wf b → 0 ≤ start ≤ b.(bit_cnt) → 0 ≤ cnt →
  ∃ r, bitmap_scan b start cnt v = Ok r ∧ scan_result b start cnt v r.
Proof.
  intros Hwf Hs Hc. pose proof (wf_cnt b Hwf). unfold bitmap_scan.
  destruct (Z.leb_spec start (bit_cnt b)); [|lia]. simpl. destruct (Z.leb_spec cnt (bit_cnt b)) as [Hle|Hgt].
  2: { exists BITMAP_ERROR. split; [done|left]. split; [done|]. lia. }
  destruct (decide (bit_cnt b - cnt + 1 - start ≤ 0)) as [Hneg|Hpos].
  { replace (Z.to_nat (bit_cnt b - cnt + 1 - start)) with O by lia. exists BITMAP_ERROR.
    split; [done|left]. split; [done|]. lia. }
  destruct (scan_loop_spec b cnt v start (Z.to_nat (bit_cnt b - cnt + 1 - start)) Hwf) as (r & -> & Hr); [lia..|].
  exists r. split; [done|]. destruct Hr as [[-> Hr]|(? & ? & ?)]; [left|right].
  - split; [done|]. intros j ??. apply Hr. lia.
  - split_and!; [lia|lia|done|done].
Qed.

Lemma bitmap_scan_and_flip_spec b start cnt v : bitmap_wf b → 0 ≤ start ≤ b.(bit_cnt) → 0 ≤ cnt →
  ∃ r b', bitmap_scan_and_flip b start cnt v = Ok (r, b') ∧ scan_result b start cnt v r ∧
    bitmap_wf b' ∧ b'.(bit_cnt) = b.(bit_cnt) ∧
    ∀ j, 0 ≤ j → bit b' j = if negb (r =? BITMAP_ERROR) && (r <=? j) && (j <? r + cnt) then negb v else bit b j.
Proof.
  intros Hwf Hs Hc. unfold bitmap_scan_and_flip. pose proof (wf_cnt b Hwf).
  destruct (bitmap_scan_spec b start cnt v Hwf Hs Hc) as (r & -> & Hr). simpl.
  destruct (Z.eqb_spec r BITMAP_ERROR) as [->|Hne].
  - exists BITMAP_ERROR, b. split_and!; done.
  - destruct Hr as [[? _]|Hr]; [done|]. pose proof Hr as (? & ? & _).
    destruct (bitmap_set_multiple_spec b r cnt (negb v) Hwf) as (b' & -> & Hwf' & Hc' & Hb'); [lia..|].
    exists r, b'. simpl. split_and!; [done|by right|done|done|]. intros j Hj.
    rewrite Hb' by done. by rewrite (proj2 (Z.eqb_neq _ _) Hne).
Qed.

(** * The array of bits *)

Lemma bits_of_lookup b n : bits_of b !! n = if decide (Z.of_nat n < b.(bit_cnt)) then Some (bit b (Z.of_nat n)) else None.
Proof.
  unfold bits_of. rewrite list_lookup_fmap. destruct (decide _) as [H|H].
  - rewrite lookup_seqZ_lt by lia. simpl. do 2 f_equal.
  - by rewrite lookup_seqZ_ge by lia.
Qed.

Lemma bits_of_length b : 0 ≤ b.(bit_cnt) → Z.of_nat (length (bits_of b)) = b.(bit_cnt).
Proof. intros H. unfold bits_of. rewrite length_fmap, length_seqZ. lia. Qed.

(** [bitmap_set] is the update of one bit of the array, and asserts that there is
    such a bit. *)
Theorem bitmap_set_refines b i v : bitmap_wf b → 0 ≤ i →
  match bitmap_set b i v with
  | Ok b' => i < b.(bit_cnt) ∧ bitmap_wf b' ∧ bits_of b' = <[Z.to_nat i := v]> (bits_of b)
  | Err e => b.(bit_cnt) ≤ i ∧ e = AssertFail
  end.
Proof.
  intros Hwf Hi. destruct (Z.ltb_spec i (bit_cnt b)) as [Hlt|Hge].
  - destruct (bitmap_set_bit b Hwf i v ltac:(lia)) as (b' & -> & Hwf' & Hc & Hb). split_and!; [done..|].
    pose proof (wf_cnt b Hwf). apply list_eq. intros n. rewrite bits_of_lookup, Hc.
    destruct (decide (n = Z.to_nat i)) as [->|Hne].
    + rewrite list_lookup_insert_eq by (pose proof (bits_of_length b); lia).
      rewrite decide_True, Hb by lia. by destruct (Z.eqb_spec (Z.of_nat (Z.to_nat i)) i); [|lia].
    + rewrite list_lookup_insert_ne, bits_of_lookup by done. destruct (decide _); [|done].
      rewrite Hb by lia. by destruct (Z.eqb_spec (Z.of_nat n) i); [lia|].
  - unfold bitmap_set. destruct (Z.ltb_spec i (bit_cnt b)); [lia|]. done.
Qed.

(** a bitmap of 40 bits, with bits 3 to 35 set *)
Definition ex_bitmap : bitmap := mk_bitmap 40 [0xfffffff8; 0xf].

Lemma ex_bitmap_wf : bitmap_wf ex_bitmap.
Proof. split; simpl; [lia|done|]. intros e [->|[->|?%elem_of_nil]%elem_of_cons]%elem_of_cons; lia || done. Defined.

Lemma bitmap_set_refines_witness : ∃ b', bitmap_set ex_bitmap 36 true = Ok b' ∧
  bits_of b' = <[36%nat := true]> (bits_of ex_bitmap).
Proof.
  pose proof (bitmap_set_refines ex_bitmap 36 true ex_bitmap_wf ltac:(lia)) as H.
  destruct (bitmap_set ex_bitmap 36 true) as [b'|] eqn:E.
  - exists b'. split; [reflexivity|apply H].
  - vm_compute in E. discriminate.
Defined.

(** [bitmap_scan_and_flip] finds the first group of [cnt] bits equal to [v] at or
    after [start], inverts exactly those, and reports an error only when there is
    no such group. *)
Theorem bitmap_scan_and_flip_first b start cnt v : bitmap_wf b → 0 ≤ start ≤ b.(bit_cnt) → 0 ≤ cnt →
  ∃ r b', bitmap_scan_and_flip b start cnt v = Ok (r, b') ∧ scan_result b start cnt v r ∧
    bitmap_wf b' ∧ b'.(bit_cnt) = b.(bit_cnt) ∧
    ∀ j, 0 ≤ j → bit b' j = if negb (r =? BITMAP_ERROR) && (r <=? j) && (j <? r + cnt) then negb v else bit b j.
Proof. apply bitmap_scan_and_flip_spec. Qed.

Lemma bitmap_scan_and_flip_witness : ∃ r b', bitmap_scan_and_flip ex_bitmap 1 4 false = Ok (r, b') ∧
  scan_result ex_bitmap 1 4 false r.
Proof.
  destruct (bitmap_scan_and_flip_first ex_bitmap 1 4 false ex_bitmap_wf) as (r & b' & E & H & _).
  - simpl. lia.
  - lia.
  - exists r, b'. exact (conj E H).
Defined.

(** * Files *)

Lemma elem_bytes_bits e l : 0 ≤ e < 2 ^ 32 → bytes_bits (elem_bytes e ++ l) = e :: bytes_bits l.
Proof.
  intros He. unfold elem_bytes. simpl. f_equal.
  rewrite !Z.mod_eq by lia. rewrite !Z.div_div by lia. change (256 * 256) with 65536.
  change (65536 * 256) with 16777216. change (16777216 * 256) with (2 ^ 32). rewrite (Z.div_small e (2 ^ 32)) by done. lia.
Qed.

Lemma bits_bytes_cons e l : bits_bytes (e :: l) = elem_bytes e ++ bits_bytes l.
Proof. done. Qed.

Lemma bits_bytes_roundtrip l : (∀ e, e ∈ l → 0 ≤ e < 2 ^ 32) → bytes_bits (bits_bytes l) = l.
Proof.
  induction l as [|e l IH]; intros Hl; [done|]. rewrite bits_bytes_cons.
  rewrite elem_bytes_bits by (apply Hl; left). f_equal. apply IH. intros x Hx. apply Hl. by right.
Qed.

Lemma bits_bytes_length l : length (bits_bytes l) = (4 * length l)%nat.
Proof. induction l as [|e l IH]; [done|]. rewrite bits_bytes_cons, length_app, IH. simpl. lia. Qed.

(** the bits of the last word that [last_mask] keeps are the ones in use *)
Lemma last_mask_bit b k : 0 ≤ b.(bit_cnt) → 0 ≤ k < 32 →
  Z.testbit (last_mask b) k = (b.(bit_cnt) mod 32 =? 0) || (k <? b.(bit_cnt) mod 32).
Proof.
  intros Hc Hk. unfold last_mask, ELEM_BITS. pose proof (Z.mod_pos_bound (bit_cnt b) 32).
  destruct (Z.eqb_spec (bit_cnt b mod 32) 0) as [E|E]; simpl.
  - rewrite <- (Z.ones_spec_low 32 k) by lia. done.
  - assert (Hp : 0 ≤ 2 ^ (bit_cnt b mod 32) < 2 ^ 32) by (split; [apply Z.pow_nonneg|apply Z.pow_lt_mono_r]; lia).
    rewrite Z.shiftl_1_l, (u32_small (2 ^ _)) by lia. assert (0 < 2 ^ (bit_cnt b mod 32)) by (apply Z.pow_pos_nonneg; lia).
    rewrite u32_small by lia. replace (2 ^ (bit_cnt b mod 32) - 1) with (Z.ones (bit_cnt b mod 32)) by (rewrite Z.ones_equiv; lia).
    rewrite Z.testbit_ones by lia. destruct (Z.leb_spec 0 k); [done|lia].
Qed.

(** Writing a bitmap to a file and reading it back gives the same bits. *)
Theorem bitmap_file_roundtrip b b0 : bitmap_wf b → bitmap_wf b0 → b0.(bit_cnt) = b.(bit_cnt) →
  ∃ b', bitmap_read b0 (fst (bitmap_write b (byte_cnt b.(bit_cnt)))) = Ok (true, b') ∧
    snd (bitmap_write b (byte_cnt b.(bit_cnt))) = true ∧ bits_of b' = bits_of b.
Proof.
  intros [Hc Hl He] [_ Hl0 _] Hcc. simpl. rewrite Z.eqb_refl. unfold bitmap_read. rewrite Hcc in *.
  destruct (Z.ltb_spec 0 (bit_cnt b)) as [Hpos|Hz].
  2: { exists b0. split_and!; [done..|]. unfold bits_of. rewrite Hcc. by replace (bit_cnt b) with 0 by lia. }
  rewrite drop_ge, app_nil_r, bits_bytes_roundtrip by (done || (rewrite !bits_bytes_length; lia)).
  rewrite elem_cnt_eq in Hl by done. rewrite elem_cnt_eq by done.
  pose proof (Z.div_le_lower_bound (bit_cnt b + 31) 32 1 ltac:(lia) ltac:(lia)) as Hge.
  set (n := (bit_cnt b + 31) / 32) in *. unfold upd_elem. simpl.
  destruct (lookup_lt_is_Some_2 (bits b) (Z.to_nat (n - 1))) as [e E]; [lia|]. rewrite E. simpl.
  eexists. split_and!; [|done|].
  { do 3 f_equal. rewrite bits_bytes_length. unfold byte_cnt. rewrite elem_cnt_eq by done. fold n.
    assert (n < 2 ^ 27) by (apply Z.div_lt_upper_bound; lia). rewrite u32_small by lia. apply Z.eqb_eq. lia. }
  apply list_eq. intros j. rewrite !bits_of_lookup. simpl. destruct (decide _) as [Hj|]; [|done]. f_equal.
  unfold bit. simpl. pose proof (Z.mod_pos_bound (Z.of_nat j) 32).
  destruct (decide (Z.to_nat (Z.of_nat j / 32) = Z.to_nat (n - 1))) as [Hq|Hq].
  2: { by rewrite list_lookup_total_insert_ne. }
  rewrite Hq, list_lookup_total_insert_eq by lia. rewrite (list_lookup_total_correct _ _ _ E), Z.land_spec.
  assert (Hm : Z.testbit (last_mask b0) (Z.of_nat j mod 32) = true); [|by rewrite Hm, andb_true_r].
  rewrite last_mask_bit, Hcc by lia. pose proof (Z.div_pos (Z.of_nat j) 32).
  pose proof (Z.div_mod (Z.of_nat j) 32). pose proof (Z.div_mod (bit_cnt b) 32).
  pose proof (Z.div_mod (bit_cnt b + 31) 32). pose proof (Z.mod_pos_bound (bit_cnt b + 31) 32).
  pose proof (Z.mod_pos_bound (bit_cnt b) 32).
  assert (Hn : n = (bit_cnt b + 31) / 32) by done.
  destruct (Z.eqb_spec (bit_cnt b mod 32) 0); [done|]. simpl. apply Z.ltb_lt. lia.
Qed.

Lemma bitmap_file_roundtrip_witness : ∃ b',
  bitmap_read (mk_bitmap 40 [7; 7]) (fst (bitmap_write ex_bitmap (byte_cnt 40))) = Ok (true, b') ∧
  snd (bitmap_write ex_bitmap (byte_cnt 40)) = true ∧ bits_of b' = bits_of ex_bitmap.
Proof.
  apply (bitmap_file_roundtrip ex_bitmap (mk_bitmap 40 [7; 7])).
  - apply ex_bitmap_wf.
  - split; simpl; [lia|done|]. intros e [->|[->|?%elem_of_nil]%elem_of_cons]%elem_of_cons; lia || done.
  - reflexivity.
Defined.

(** ** Creation *)

(** a new bitmap has all its bits off, whatever the memory held *)
Lemma bitmap_set_all_spec b v : bitmap_wf b →
  ∃ b', bitmap_set_all b v = Ok b' ∧ bitmap_wf b' ∧ b'.(bit_cnt) = b.(bit_cnt) ∧ bits_of b' = replicate (Z.to_nat b.(bit_cnt)) v.
Proof.
  intros Hwf. pose proof (wf_cnt b Hwf). unfold bitmap_set_all, bitmap_size.
  destruct (bitmap_set_multiple_spec b 0 (bit_cnt b) v Hwf) as (b' & -> & Hwf' & Hc & Hb); [lia..|].
  exists b'. split_and!; [done..|]. apply list_eq. intros n. rewrite bits_of_lookup, Hc. destruct (decide _).
  - rewrite lookup_replicate_2, Hb by lia. f_equal.
    by destruct (Z.leb_spec 0 (Z.of_nat n)), (Z.ltb_spec (Z.of_nat n) (0 + bit_cnt b)); simpl; [..|lia|lia|lia]; lia || done.
  - symmetry. apply lookup_replicate_None. lia.
Qed.
