(* ===== verification/Arith64.v ===== *)
(** lib/arithmetic.c: 64-bit division from the processor's 64-by-32-bit one.

    [divl] traps when the quotient does not fit in 32 bits or the divisor is 0,
    which is a [Fault]; unsigned and signed results are reduced to the width of
    the C type they are stored in. *)

From S2P Require Import Prelude.

Definition divl (n d : Z) : outcome Z :=
  if (d =? 0) || (2 ^ 32 <=? n / d) then Err Fault else Ok (n / d).

Definition nlz (x : Z) : Z :=
  let '(n, x) := (0, x) in
  let '(n, x) := if x <=? 0x0000FFFF then (n + 16, u32 (Z.shiftl x 16)) else (n, x) in
  let '(n, x) := if x <=? 0x00FFFFFF then (n + 8, u32 (Z.shiftl x 8)) else (n, x) in
  let '(n, x) := if x <=? 0x0FFFFFFF then (n + 4, u32 (Z.shiftl x 4)) else (n, x) in
  let '(n, x) := if x <=? 0x3FFFFFFF then (n + 2, u32 (Z.shiftl x 2)) else (n, x) in
  if x <=? 0x7FFFFFFF then n + 1 else n.

Definition udiv64 (n d : Z) : outcome Z :=
  if Z.shiftr d 32 =? 0 then
    let b := Z.shiftl 1 32 in
    let n1 := u32 (Z.shiftr n 32) in
    let n0 := u32 n in
    let d0 := u32 d in
    if d0 =? 0 then Err Fault      (* n1 % d0 *)
    else q ← divl (u64 (u64 (b * (n1 mod d0)) + n0)) d0; Ok (u64 (q + u64 (b * (n1 / d0))))
  else if n <? d then Ok 0
  else
    let d1 := u32 (Z.shiftr d 32) in
    let s := nlz d1 in
    q' ← divl (Z.shiftr n 1) (u32 (Z.shiftr (u64 (Z.shiftl d s)) 32));
    let q := Z.shiftr q' (31 - s) in
    Ok (if u64 (n - u64 (u64 (q - 1) * d)) <? d then u64 (q - 1) else q).

Definition umod64 (n d : Z) : outcome Z := q ← udiv64 n d; Ok (u32 (u64 (n - u64 (d * q)))).

Definition sdiv64 (n d : Z) : outcome Z :=
  let n_abs := if n >=? 0 then u64 n else u64 (- u64 n) in
  let d_abs := if d >=? 0 then u64 d else u64 (- u64 d) in
  q_abs ← udiv64 n_abs d_abs;
  Ok (if eqb (n <? 0) (d <? 0) then s64 q_abs else s64 (- s64 q_abs)).

Definition smod64 (n d : Z) : outcome Z := q ← sdiv64 n d; Ok (s32 (s64 (n - s64 (d * q)))).

Definition __divdi3 (n d : Z) : outcome Z := sdiv64 n d.
Definition __moddi3 (n d : Z) : outcome Z := smod64 n d.
Definition __udivdi3 (n d : Z) : outcome Z := udiv64 n d.
Definition __umoddi3 (n d : Z) : outcome Z := umod64 n d.

(** * Correctness *)

(** [nlz x] is the shift that brings the highest bit of [x] to bit 31 *)
Lemma nlz_spec x : 0 < x < 2 ^ 32 → 0 ≤ nlz x ≤ 31 ∧ 2 ^ 31 ≤ x * 2 ^ nlz x < 2 ^ 32.
Proof.
  intros Hx. unfold nlz.
  destruct (Z.leb_spec x 0x0000FFFF); rewrite ?Z.shiftl_mul_pow2, ?(u32_small (x * 2 ^ 16)) by lia;
  match goal with |- context [?y <=? 0x00FFFFFF] => destruct (Z.leb_spec y 0x00FFFFFF);
    rewrite ?Z.shiftl_mul_pow2, ?(u32_small (y * 2 ^ 8)) by lia end;
  match goal with |- context [?y <=? 0x0FFFFFFF] => destruct (Z.leb_spec y 0x0FFFFFFF);
    rewrite ?Z.shiftl_mul_pow2, ?(u32_small (y * 2 ^ 4)) by lia end;
  match goal with |- context [?y <=? 0x3FFFFFFF] => destruct (Z.leb_spec y 0x3FFFFFFF);
    rewrite ?Z.shiftl_mul_pow2, ?(u32_small (y * 2 ^ 2)) by lia end;
  match goal with |- context [?y <=? 0x7FFFFFFF] => destruct (Z.leb_spec y 0x7FFFFFFF) end; simpl; lia.
Qed.

Lemma divl_ok n d : 0 < d → 0 ≤ n < 2 ^ 32 * d → divl n d = Ok (n / d).
Proof.
  intros Hd Hn. unfold divl. destruct (Z.eqb_spec d 0); [lia|]. simpl.
  assert (n / d < 2 ^ 32) by (apply Z.div_lt_upper_bound; lia). by destruct (Z.leb_spec (2 ^ 32) (n / d)); [lia|].
Qed.

(** the divisor has 32 bits *)
Lemma udiv64_short n d : 0 ≤ n < 2 ^ 64 → 0 < d < 2 ^ 32 → udiv64 n d = Ok (n / d).
Proof.
  intros Hn Hd. unfold udiv64. rewrite !Z.shiftr_div_pow2, Z.shiftl_1_l, (Z.div_small d) by lia. simpl (0 =? 0). cbv iota zeta.
  assert (Hn1 : 0 ≤ n / 2 ^ 32 < 2 ^ 32) by (split; [apply Z.div_pos; lia|apply Z.div_lt_upper_bound; lia]).
  rewrite (u32_small (n / 2 ^ 32)), (u32_small d) by lia. destruct (Z.eqb_spec d 0); [lia|].
  set (n1 := n / 2 ^ 32) in *. pose proof (Z.mod_pos_bound n1 d ltac:(lia)) as Hm.
  pose proof (u32_range n) as Hn0. assert (Hnn : n = 2 ^ 32 * n1 + u32 n) by (apply Z.div_mod; lia).
  rewrite (u64_small (2 ^ 32 * (n1 mod d))), (u64_small (2 ^ 32 * (n1 mod d) + u32 n)) by lia.
  rewrite divl_ok by lia. simpl.
  pose proof (Z.div_mod n1 d ltac:(lia)) as Hq. assert (0 ≤ n1 / d < 2 ^ 32).
  { split; [apply Z.div_pos; lia|apply Z.div_lt_upper_bound; nia]. }
  rewrite (u64_small (2 ^ 32 * (n1 / d))) by lia.
  assert (E : n / d = (2 ^ 32 * (n1 mod d) + u32 n) / d + 2 ^ 32 * (n1 / d)).
  { rewrite <- Z.div_add by lia. f_equal. lia. }
  rewrite <- E. f_equal. apply u64_small. split; [apply Z.div_pos; lia|].
  apply Z.div_lt_upper_bound; nia.
Qed.

(** the quotient of the leading parts is right or one too large *)
Lemma trial_quotient n d v P : 0 ≤ n < 2 ^ 64 → 2 ≤ P → 2 ^ 31 ≤ v → 2 ^ 31 * P ≤ d →
  v * P ≤ d < v * P + P → n / d ≤ n / (v * P) ≤ n / d + 1.
Proof.
  intros Hn HP Hv Hd He. set (e := v * P) in *. assert (0 < e) by (unfold e; nia). split.
  - apply Z.div_le_compat_l; lia.
  - set (Q := n / d). assert (HQ : n < (Q + 1) * d) by (pose proof (Z.mul_succ_div_gt n d ltac:(lia)); unfold Q; lia).
    assert (HQ0 : 0 ≤ Q) by (apply Z.div_pos; lia).
    apply Z.lt_succ_r, Z.div_lt_upper_bound; [lia|]. apply Z.nle_gt. intros Hge.
    set (a := d - e). assert (Ha : 0 ≤ a ≤ P - 1) by (unfold a; lia).
    assert (Hd2 : d < (Q + 2) * a) by (unfold a; nia).
    assert (Hna : d * e < n * a) by nia.
    assert (H1 : n * a ≤ n * (P - 1)) by (apply Z.mul_le_mono_nonneg_l; lia).
    assert (H2 : n * (P - 1) ≤ 2 ^ 64 * (P - 1)) by (apply Z.mul_le_mono_nonneg_r; lia).
    assert (H3 : 4 * (P - 1) ≤ P * P) by (pose proof (Z.square_nonneg (P - 2)); clear - H0; lia).
    assert (H4 : (2 ^ 31 * P) * (2 ^ 31 * P) ≤ d * e).
    { apply Z.mul_le_mono_nonneg; [lia|lia|lia|]. apply Z.mul_le_mono_nonneg_r; lia. }
    clear - Hna H1 H2 H3 H4. lia.
Qed.

(** the correction of the trial quotient *)
Lemma correct_quotient n d q : 0 ≤ n < 2 ^ 64 → 2 ^ 32 ≤ d → d ≤ n → n / d ≤ q ≤ n / d + 1 →
  Ok (if u64 (n - u64 (u64 (q - 1) * d)) <? d then u64 (q - 1) else q) = Ok (n / d).
Proof.
  intros Hn Hd Hle Hq. assert (H1 : 1 ≤ n / d) by (apply Z.div_le_lower_bound; lia).
  assert (n / d < 2 ^ 33) by (apply Z.div_lt_upper_bound; lia).
  pose proof (Z.mul_div_le n d ltac:(lia)) as Hlo. pose proof (Z.mul_succ_div_gt n d ltac:(lia)) as Hhi.
  rewrite !(u64_small (q - 1)) by lia.
  assert (0 ≤ (q - 1) * d) by (apply Z.mul_nonneg_nonneg; lia).
  assert ((q - 1) * d ≤ n / d * d) by (apply Z.mul_le_mono_nonneg_r; lia).
  rewrite (u64_small ((q - 1) * d)), u64_small by lia. f_equal.
  assert (q = n / d ∨ q = n / d + 1) as [->| ->] by lia.
  - destruct (Z.ltb_spec (n - (n / d - 1) * d) d); lia.
  - destruct (Z.ltb_spec (n - (n / d + 1 - 1) * d) d); lia.
Qed.

(** the divisor has more than 32 bits *)
Lemma udiv64_long n d : 0 ≤ n < 2 ^ 64 → 2 ^ 32 ≤ d < 2 ^ 64 → d ≤ n → udiv64 n d = Ok (n / d).
Proof.
  intros Hn Hd Hle. unfold udiv64. rewrite !(Z.shiftr_div_pow2 _ 32) by lia.
  assert (Hd1 : 0 < d / 2 ^ 32 < 2 ^ 32) by (split; [apply Z.div_str_pos; lia|apply Z.div_lt_upper_bound; lia]).
  destruct (Z.eqb_spec (d / 2 ^ 32) 0); [lia|]. destruct (Z.ltb_spec n d); [lia|].
  rewrite (u32_small (d / 2 ^ 32)) by lia. set (d1 := d / 2 ^ 32) in *. destruct (nlz_spec d1 Hd1) as [Hs Hd1s].
  set (s := nlz d1) in *. cbv zeta. set (P := 2 ^ (32 - s)). set (R := 2 ^ s) in *.
  assert (HPR : P * R = 2 ^ 32) by (unfold P, R; rewrite <- Z.pow_add_r by lia; f_equal; lia).
  assert (HR : 1 ≤ R) by (change 1 with (2 ^ 0); apply Z.pow_le_mono_r; lia).
  assert (HP : 2 ≤ P) by (change 2 with (2 ^ 1) at 1; apply Z.pow_le_mono_r; lia).
  assert (Hdd : 2 ^ 32 * d1 ≤ d < 2 ^ 32 * d1 + 2 ^ 32).
  { pose proof (Z.mul_div_le d (2 ^ 32)). pose proof (Z.mul_succ_div_gt d (2 ^ 32)). unfold d1. lia. }
  assert (HdP : d1 < P) by (apply (Z.mul_lt_mono_pos_r R); lia).
  assert (HD1 : 2 ^ 63 ≤ d * R).
  { transitivity (2 ^ 32 * d1 * R); [lia|]. apply Z.mul_le_mono_nonneg_r; lia. }
  assert (HD2 : d * R < 2 ^ 64).
  { apply Z.lt_le_trans with (2 ^ 32 * P * R); [apply Z.mul_lt_mono_pos_r; lia|lia]. }
  rewrite Z.shiftl_mul_pow2 by lia. fold R.
  rewrite (u64_small (d * R)) by lia. set (v := d * R / 2 ^ 32).
  assert (Hv : 2 ^ 32 * v ≤ d * R < 2 ^ 32 * v + 2 ^ 32).
  { pose proof (Z.mul_div_le (d * R) (2 ^ 32)). pose proof (Z.mul_succ_div_gt (d * R) (2 ^ 32)). unfold v. lia. }
  rewrite (u32_small v) by lia. rewrite Z.shiftr_div_pow2 by lia.
  assert (n / 2 ^ 1 < 2 ^ 63) by (apply Z.div_lt_upper_bound; lia). assert (0 ≤ n / 2 ^ 1) by (apply Z.div_pos; lia).
  rewrite divl_ok by lia. simpl mbind.
  rewrite Z.shiftr_div_pow2, !Z.div_div by (try apply Z.pow_pos_nonneg; lia).
  replace (2 ^ 1 * (v * 2 ^ (31 - s))) with (v * P) by (unfold P; replace (32 - s) with (1 + (31 - s)) by lia; rewrite Z.pow_add_r by lia; ring).
  assert (HPR' : ∀ x, x * P * R = 2 ^ 32 * x) by (intros x; rewrite <- HPR; ring).
  assert (Hve1 : v * P ≤ d) by (apply (Z.mul_le_mono_pos_r _ _ R); [lia|]; rewrite HPR'; lia).
  assert (Hve2 : d < v * P + P).
  { replace (v * P + P) with ((v + 1) * P) by ring. apply (Z.mul_lt_mono_pos_r R); [lia|]. rewrite HPR'. lia. }
  assert (Hdp : 2 ^ 31 * P ≤ d) by (apply (Z.mul_le_mono_pos_r _ _ R); [lia|]; rewrite HPR'; lia).
  pose proof (trial_quotient n d v P Hn HP ltac:(lia) Hdp (conj Hve1 Hve2)) as Hq. set (q := n / (v * P)) in *. clearbody q.
  apply correct_quotient; lia.
Qed.

Lemma udiv64_eq n d : 0 ≤ n < 2 ^ 64 → 0 < d < 2 ^ 64 → udiv64 n d = Ok (n / d).
Proof.
  intros Hn Hd. destruct (Z.lt_ge_cases d (2 ^ 32)); [by apply udiv64_short; lia|].
  destruct (Z.le_gt_cases d n); [apply udiv64_long; lia|].
  unfold udiv64. rewrite Z.shiftr_div_pow2 by lia.
  assert (0 < d / 2 ^ 32) by (apply Z.div_str_pos; lia).
  destruct (Z.eqb_spec (d / 2 ^ 32) 0); [lia|]. destruct (Z.ltb_spec n d); [|lia]. by rewrite Z.div_small by lia.
Qed.

(** C31. [udiv64] is the quotient of 64-bit unsigned integers, and never traps for a
    divisor other than 0. *)
Theorem udiv64_correct n d : 0 ≤ n < 2 ^ 64 → 0 < d < 2 ^ 64 → udiv64 n d = Ok (n / d).
Proof. apply udiv64_eq. Qed.

Lemma udiv64_correct_witness : udiv64 (2 ^ 64 - 1) (2 ^ 33 + 5) = Ok ((2 ^ 64 - 1) / (2 ^ 33 + 5)).
Proof. apply (udiv64_correct (2 ^ 64 - 1) (2 ^ 33 + 5)); lia. Defined.

Lemma abs64 n : - 2 ^ 63 ≤ n < 2 ^ 63 → (if n >=? 0 then u64 n else u64 (- u64 n)) = Z.abs n.
Proof.
  intros Hn. rewrite Z.geb_leb. destruct (Z.leb_spec 0 n); [rewrite u64_small; lia|].
  assert (E : u64 n = n + 2 ^ 64) by (unfold u64; rewrite <- (Z_mod_plus_full n 1), Z.mod_small; lia).
  rewrite E. unfold u64. rewrite <- (Z_mod_plus_full _ 1), Z.mod_small; lia.
Qed.

Lemma s64_opp z : s64 (- s64 z) = s64 (- z).
Proof.
  unfold s64. pose proof (Z.div_mod (z + 2 ^ 63) (2 ^ 64) ltac:(lia)) as E. set (k := (z + 2 ^ 63) / 2 ^ 64) in *.
  replace ((z + 2 ^ 63) mod 2 ^ 64) with (z + 2 ^ 63 - 2 ^ 64 * k) by lia. f_equal.
  replace (- (z + 2 ^ 63 - 2 ^ 64 * k - 2 ^ 63) + 2 ^ 63) with (- z + 2 ^ 63 + k * 2 ^ 64) by lia.
  by rewrite Z_mod_plus_full.
Qed.

Lemma sdiv64_eq n d : - 2 ^ 63 ≤ n < 2 ^ 63 → - 2 ^ 63 ≤ d < 2 ^ 63 → d ≠ 0 →
  sdiv64 n d = Ok (s64 (Z.quot n d)).
Proof.
  intros Hn Hd H0. unfold sdiv64. rewrite !abs64 by done. rewrite udiv64_eq by lia. simpl. rewrite s64_opp.
  rewrite <- Z.quot_div_nonneg by lia. f_equal.
  destruct (Z.ltb_spec n 0), (Z.ltb_spec d 0); simpl; f_equal.
  - rewrite !Z.abs_neq, Z.quot_opp_opp by lia. done.
  - rewrite Z.abs_neq, (Z.abs_eq d), Z.quot_opp_l by lia. lia.
  - rewrite Z.abs_eq, (Z.abs_neq d), Z.quot_opp_r by lia. lia.
  - by rewrite !Z.abs_eq by lia.
Qed.

(** [sdiv64] rounds towards zero, as C's division does; the one quotient that does
    not fit, of the smallest integer by -1, wraps around. *)
Theorem sdiv64_correct n d : - 2 ^ 63 ≤ n < 2 ^ 63 → - 2 ^ 63 ≤ d < 2 ^ 63 → d ≠ 0 →
  sdiv64 n d = Ok (s64 (Z.quot n d)).
Proof. apply sdiv64_eq. Qed.

Lemma sdiv64_correct_witness : sdiv64 (- 2 ^ 40 - 1) 7 = Ok (s64 (Z.quot (- 2 ^ 40 - 1) 7)).
Proof. apply (sdiv64_correct (- 2 ^ 40 - 1) 7); lia. Defined.

(** The remainders are cut to 32 bits: [__umoddi3] is the remainder only when the
    remainder fits in an [uint32_t], and then it is. *)
Theorem umod64_truncates n d : 0 ≤ n < 2 ^ 64 → 0 < d < 2 ^ 64 →
  __umoddi3 n d = Ok (u32 (n mod d)) ∧ (__umoddi3 n d = Ok (n mod d) ↔ n mod d < 2 ^ 32).
Proof.
  intros Hn Hd. assert (E : __umoddi3 n d = Ok (u32 (n mod d))).
  { unfold __umoddi3, umod64. rewrite udiv64_eq by done. simpl. pose proof (Z.mod_pos_bound n d ltac:(lia)).
    pose proof (Z.div_mod n d ltac:(lia)). assert (0 ≤ d * (n / d)) by (apply Z.mul_nonneg_nonneg; [lia|apply Z.div_pos; lia]).
    rewrite (u64_small (d * (n / d))), u64_small by lia. do 2 f_equal. lia. }
  split; [done|]. rewrite E. pose proof (Z.mod_pos_bound n d ltac:(lia)). split.
  - intros [= Hu]. pose proof (u32_range (n mod d)). lia.
  - intros Hlt. by rewrite u32_small by lia.
Qed.

(** 2^32 modulo 2^33 comes out as 0 *)
Lemma umod64_truncates_witness : __umoddi3 (2 ^ 32) (2 ^ 33) = Ok 0 ∧ 2 ^ 32 mod 2 ^ 33 = 2 ^ 32.
Proof.
  split; [|reflexivity]. destruct (umod64_truncates (2 ^ 32) (2 ^ 33)) as [E _]; [lia|lia|]. rewrite E. reflexivity.
Defined.

(** so is the signed remainder *)
Lemma smod64_eq n d : - 2 ^ 63 ≤ n < 2 ^ 63 → - 2 ^ 63 ≤ d < 2 ^ 63 → d ≠ 0 → Z.quot n d < 2 ^ 63 →
  __moddi3 n d = Ok (s32 (Z.rem n d)).
Proof.
  intros Hn Hd H0 Hq. unfold __moddi3, smod64. rewrite sdiv64_eq by done. simpl.
  pose proof (Z.quot_rem' n d) as E. pose proof (Z.rem_bound_abs n d H0) as Hr.
  pose proof (Z.quot_abs n d H0) as Ha. assert (Z.quot (Z.abs n) (Z.abs d) ≤ Z.abs n).
  { rewrite Z.quot_div_nonneg by lia. apply Z.div_le_upper_bound; nia. }
  rewrite (s64_small (Z.quot n d)) by lia.
  assert (Hdq : Z.abs (d * Z.quot n d) ≤ Z.abs n).
  { rewrite Z.abs_mul, <- Ha. rewrite Z.quot_div_nonneg by lia. apply Z.mul_div_le. lia. }
  assert (∀ x, - 2 ^ 63 ≤ x ≤ 2 ^ 63 → s64 (n - s64 x) = s64 (n - x)) as Hw.
  { intros x Hx. destruct (decide (x = 2 ^ 63)) as [->|]; [|by rewrite (s64_small x) by lia].
    unfold s64. change ((2 ^ 63 + 2 ^ 63) mod 2 ^ 64) with 0. f_equal.
    rewrite <- (Z_mod_plus_full (n - 2 ^ 63 + 2 ^ 63) 1). f_equal. lia. }
  rewrite Hw by lia. replace (n - d * Z.quot n d) with (Z.rem n d) by lia. by rewrite s64_small by lia.
Qed.
