(* ===== verification/Random.v ===== *)
(** lib/random.c: the pseudo-random number generator, RC4.

    The state is the array [s], the two indices and the flag of the source; bytes
    are integers reduced modulo 256 where they are stored. *)

From S2P Require Import Prelude.

Record rng := mk_rng { s : list Z; s_i : Z; s_j : Z; inited : bool }.

(** [swap_byte (s + i, s + j)] *)
Definition swap_byte (l : list Z) (i j : Z) : outcome (list Z) :=
  a ← ofault (l !! Z.to_nat i);
  b ← ofault (l !! Z.to_nat j);
  Ok (<[Z.to_nat j := a]> (<[Z.to_nat i := b]> l)).

(** byte [k] of [seed], as it lies in memory *)
Definition seed_byte (seed k : Z) : Z := (seed / 256 ^ k) mod 256.

(** the second loop of [random_init], [n] turns from [i] *)
Fixpoint init_loop (l : list Z) (seed i j : Z) (n : nat) : outcome (list Z) :=
  match n with
  | O => Ok l
  | S n' =>
      x ← ofault (l !! Z.to_nat i);
      let j := u8 (j + (x + seed_byte seed (i mod 4))) in
      l' ← swap_byte l i j;
      init_loop l' seed (i + 1) j n'
  end.

Definition random_init (seed : Z) : outcome rng :=
  l ← init_loop (seqZ 0 256) seed 0 0 256; Ok (mk_rng l 0 0 true).

(** one turn of the loop of [random_bytes] *)
Definition random_byte (g : rng) : outcome (Z * rng) :=
  let i := u8 (g.(s_i) + 1) in
  x ← ofault (g.(s) !! Z.to_nat i);
  let j := u8 (g.(s_j) + x) in
  l ← swap_byte g.(s) i j;
  a ← ofault (l !! Z.to_nat i);
  b ← ofault (l !! Z.to_nat j);
  c ← ofault (l !! Z.to_nat (u8 (a + b)));
  Ok (c, mk_rng l i j g.(inited)).

Fixpoint bytes_loop (g : rng) (size : nat) : outcome (list Z * rng) :=
  match size with
  | O => Ok ([], g)
  | S n => '(c, g1) ← random_byte g; '(buf, g2) ← bytes_loop g1 n; Ok (c :: buf, g2)
  end.

Definition random_bytes (g : rng) (size : nat) : outcome (list Z * rng) :=
  g ← (if g.(inited) then Ok g else random_init 0); bytes_loop g size.

Definition random_ulong (g : rng) : outcome (Z * rng) :=
  '(buf, g') ← random_bytes g 4;
  Ok (foldr (λ c r, c + 256 * r) 0 buf, g').

(** * The state stays a permutation of the bytes *)

Definition bytes_perm (l : list Z) : Prop :=
  length l = 256%nat ∧ NoDup l ∧ ∀ x, x ∈ l → 0 ≤ x < 256.

Lemma bytes_perm_iff l : bytes_perm l ↔ l ≡ₚ seqZ 0 256.
Proof.
  split.
  - intros (Hlen & Hnd & Hin). apply submseteq_length_Permutation; [|by rewrite Hlen].
    apply NoDup_submseteq; [done|]. intros x Hx. apply elem_of_seqZ. apply Hin in Hx. lia.
  - intros Hp. split_and!.
    + by rewrite Hp.
    + rewrite Hp. apply NoDup_seqZ.
    + intros x. rewrite Hp, elem_of_seqZ. lia.
Qed.

Lemma perm_lookup l i : bytes_perm l → 0 ≤ i < 256 → ∃ x, l !! Z.to_nat i = Some x ∧ 0 ≤ x < 256.
Proof.
  intros (Hlen & _ & Hin) Hi. destruct (lookup_lt_is_Some_2 l (Z.to_nat i)) as [x Hx]; [lia|].
  exists x. split; [done|]. apply Hin. by eapply list_elem_of_lookup_2.
Qed.

Lemma swap_byte_spec l i j : bytes_perm l → 0 ≤ i < 256 → 0 ≤ j < 256 →
  ∃ l', swap_byte l i j = Ok l' ∧ bytes_perm l'.
Proof.
  intros Hp Hi Hj. destruct (perm_lookup l i Hp Hi) as (a & Ea & Ha). destruct (perm_lookup l j Hp Hj) as (b & Eb & Hb).
  unfold swap_byte. rewrite Ea. simpl. rewrite Eb. simpl. eexists. split; [done|].
  destruct Hp as (Hlen & Hnd & Hin). set (p := Z.to_nat i) in *. set (q := Z.to_nat j) in *.
  assert (Hl : ∀ k, <[q := a]> (<[p := b]> l) !! k = if decide (k = q) then Some a else if decide (k = p) then Some b else l !! k).
  { intros k. destruct (decide (k = q)) as [->|]; [rewrite list_lookup_insert_eq; [done|rewrite length_insert; lia]|].
    rewrite list_lookup_insert_ne by done. destruct (decide (k = p)) as [->|]; [by rewrite list_lookup_insert_eq by lia|].
    by rewrite list_lookup_insert_ne. }
  split_and!.
  - by rewrite !length_insert.
  - apply NoDup_alt. intros k1 k2 x. rewrite !Hl. rewrite NoDup_alt in Hnd.
    repeat destruct (decide _); intros ??; simplify_eq; try done; naive_solver.
  - intros x [k Hk]%list_elem_of_lookup. rewrite Hl in Hk. repeat destruct (decide _); simplify_eq; auto.
    apply Hin. by eapply list_elem_of_lookup_2.
Qed.

Lemma init_loop_spec seed n : ∀ l i j, bytes_perm l → 0 ≤ i → i + Z.of_nat n ≤ 256 →
  ∃ l', init_loop l seed i j n = Ok l' ∧ bytes_perm l'.
Proof.
  induction n as [|n IH]; intros l i j Hl Hi Hn; [by exists l|]. cbn [init_loop].
  destruct (perm_lookup l i Hl ltac:(lia)) as (x & -> & Hx). simpl.
  pose proof (u8_range (j + (x + seed_byte seed (i mod 4)))) as Hj.
  destruct (swap_byte_spec l i (u8 (j + (x + seed_byte seed (i mod 4)))) Hl) as (l' & -> & Hl'); [lia|done|]. simpl.
  apply IH; [done|lia|lia].
Qed.

Lemma bytes_perm_init : bytes_perm (seqZ 0 256).
Proof. by apply bytes_perm_iff. Qed.

Lemma random_init_perm seed : ∃ g, random_init seed = Ok g ∧ bytes_perm g.(s) ∧ g.(inited) = true.
Proof.
  unfold random_init. destruct (init_loop_spec seed 256 (seqZ 0 256) 0 0 bytes_perm_init) as (l & E & Hl); [lia|lia|].
  eexists. rewrite E. done.
Qed.

Lemma random_byte_spec g : bytes_perm g.(s) →
  ∃ c g', random_byte g = Ok (c, g') ∧ 0 ≤ c < 256 ∧ bytes_perm g'.(s) ∧ g'.(inited) = g.(inited).
Proof.
  intros Hg. unfold random_byte. pose proof (u8_range (s_i g + 1)) as Hi.
  destruct (perm_lookup _ _ Hg Hi) as (x & -> & Hx). simpl. pose proof (u8_range (s_j g + x)) as Hj.
  destruct (swap_byte_spec _ _ _ Hg Hi Hj) as (l & -> & Hl). simpl.
  destruct (perm_lookup _ _ Hl Hi) as (a & -> & _). simpl. destruct (perm_lookup _ _ Hl Hj) as (b & -> & _). simpl.
  destruct (perm_lookup _ _ Hl (u8_range (a + b))) as (c & -> & Hc). simpl. eauto 10.
Qed.

Lemma bytes_loop_spec n : ∀ g, bytes_perm g.(s) → ∃ buf g', bytes_loop g n = Ok (buf, g') ∧
  length buf = n ∧ (∀ c, c ∈ buf → 0 ≤ c < 256) ∧ bytes_perm g'.(s) ∧ g'.(inited) = g.(inited).
Proof.
  induction n as [|n IH]; intros g Hg.
  { exists [], g. split_and!; try done. by intros c ?%elem_of_nil. }
  cbn [bytes_loop]. destruct (random_byte_spec g Hg) as (c & g1 & -> & Hc & Hg1 & Hi1). simpl.
  destruct (IH g1 Hg1) as (buf & g2 & -> & Hlen & Hb & Hg2 & Hi2). simpl. exists (c :: buf), g2.
  split_and!; [done|simpl; lia| |done|congruence]. intros d [->|Hd]%elem_of_cons; auto.
Qed.

(** the generator may be used: it has not been initialised, or its array is a
    permutation of the bytes *)
Definition rng_ok (g : rng) : Prop := g.(inited) = true → g.(s) ≡ₚ seqZ 0 256.

(** Whatever the state and the seed, [random_bytes] stays within its array, fills
    the buffer with bytes, and leaves the array a permutation of 0, ..., 255. *)
Theorem random_bytes_spec g n : rng_ok g → ∃ buf g', random_bytes g n = Ok (buf, g') ∧
  length buf = n ∧ (∀ c, c ∈ buf → 0 ≤ c < 256) ∧ g'.(s) ≡ₚ seqZ 0 256 ∧ g'.(inited) = true.
Proof.
  intros Hg. unfold random_bytes.
  assert (∃ g0, (if inited g then Ok g else random_init 0) = Ok g0 ∧ bytes_perm (s g0) ∧ inited g0 = true) as (g0 & -> & Hp & Hi).
  { destruct (inited g) eqn:E; [|apply random_init_perm]. exists g. split_and!; [done| |done]. by apply bytes_perm_iff, Hg. }
  simpl. destruct (bytes_loop_spec n g0 Hp) as (buf & g' & E & Hlen & Hb & Hp' & Hi').
  exists buf, g'. split_and!; [done..|by apply bytes_perm_iff|congruence].
Qed.

Lemma random_bytes_spec_witness : ∃ buf g', random_bytes (mk_rng (replicate 256 0) 0 0 false) 3 = Ok (buf, g') ∧
  length buf = 3%nat ∧ (∀ c, c ∈ buf → 0 ≤ c < 256) ∧ g'.(s) ≡ₚ seqZ 0 256 ∧ g'.(inited) = true.
Proof. apply (random_bytes_spec (mk_rng (replicate 256 0) 0 0 false) 3). intros H. discriminate H. Defined.
