(* ===== verification/CString.v ===== *)
(** lib/string.c: blocks of bytes and strings in memory.

    Memory maps addresses to bytes; an access outside of it is a [Fault].  A loop
    whose end the source does not bound runs on fuel, one more than the number of
    bytes of the memory: each turn reads a byte the turns before did not.  Pointers
    are integers, the null pointer is 0, and objects do not wrap around the end of
    the address space. *)

From S2P Require Import Prelude.

Abbreviation mem := (gmap Z Z).
Abbreviation B := (M mem).

Definition load (p : Z) : B Z := λ m, match m !! p with Some v => Ok (v, m) | None => Err Fault end.
Definition store (p v : Z) : B unit := λ m,
  match m !! p with Some _ => Ok (tt, <[p := u8 v]> m) | None => Err Fault end.

Definition fuel : B nat := gets (λ m, S (size m)).

(** * The routines *)

(** [while (size-- > 0) *dst++ = *src++;] *)
Fixpoint copy_up (dst src : Z) (n : nat) : B unit :=
  match n with
  | O => mret tt
  | S n' => v ← load src; store dst v;; copy_up (dst + 1) (src + 1) n'
  end.

(** [while (size-- > 0) *--dst = *--src;] *)
Fixpoint copy_down (dst src : Z) (n : nat) : B unit :=
  match n with
  | O => mret tt
  | S n' => v ← load (src - 1); store (dst - 1) v;; copy_down (dst - 1) (src - 1) n'
  end.

Definition nonnull (p size : Z) : bool := negb (p =? 0) || (size =? 0).

Definition memcpy (dst src size : Z) : B Z :=
  assert (nonnull dst size);; assert (nonnull src size);;
  copy_up dst src (Z.to_nat size);; mret dst.

(** returns where [dst] has got to *)
Definition memmove (dst src size : Z) : B Z :=
  assert (nonnull dst size);; assert (nonnull src size);;
  if dst <? src then copy_up dst src (Z.to_nat size);; mret (dst + size)
  else copy_down (dst + size) (src + size) (Z.to_nat size);; mret dst.

Fixpoint cmp_loop (a b : Z) (n : nat) : B Z :=
  match n with
  | O => mret 0
  | S n' => x ← load a; y ← load b;
      if negb (x =? y) then mret (if x >? y then 1 else -1) else cmp_loop (a + 1) (b + 1) n'
  end.

Definition memcmp (a b size : Z) : B Z :=
  assert (nonnull a size);; assert (nonnull b size);; cmp_loop a b (Z.to_nat size).

Fixpoint strcmp_loop (n : nat) (a b : Z) : B (Z * Z) :=
  match n with
  | O => fail NoFuel
  | S n' => x ← load a;
      if x =? 0 then mret (a, b) else
      y ← load b; if x =? y then strcmp_loop n' (a + 1) (b + 1) else mret (a, b)
  end.

Definition strcmp (a b : Z) : B Z :=
  assert (negb (a =? 0));; assert (negb (b =? 0));;
  n ← fuel; '(a, b) ← strcmp_loop n a b;
  x ← load a; y ← load b; mret (if x <? y then -1 else if x >? y then 1 else 0).

Fixpoint memchr_loop (block ch : Z) (n : nat) : B Z :=
  match n with
  | O => mret 0
  | S n' => x ← load block; if x =? ch then mret block else memchr_loop (block + 1) ch n'
  end.

Definition memchr (block ch size : Z) : B Z :=
  assert (nonnull block size);; memchr_loop block (u8 ch) (Z.to_nat size).

Fixpoint strchr_loop (n : nat) (string c : Z) : B Z :=
  match n with
  | O => fail NoFuel
  | S n' => x ← load string;
      if x =? c then mret string else if x =? 0 then mret 0 else strchr_loop n' (string + 1) c
  end.

Definition strchr (string c : Z) : B Z :=
  assert (negb (string =? 0));; n ← fuel; strchr_loop n string (u8 c).

(** the loops of [strcspn] and [strspn]: stop at the first character whose being
    in [set] is [want] *)
Fixpoint span_loop (n : nat) (want : bool) (string set length : Z) : B Z :=
  match n with
  | O => fail NoFuel
  | S n' => x ← load (string + length);
      if x =? 0 then mret length else
      p ← strchr set x;
      if eqb (negb (p =? 0)) want then mret length else span_loop n' want string set (length + 1)
  end.

Definition strcspn (string stop : Z) : B Z := n ← fuel; span_loop n true string stop 0.
Definition strspn (string skip : Z) : B Z := n ← fuel; span_loop n false string skip 0.

Fixpoint strpbrk_loop (n : nat) (string stop : Z) : B Z :=
  match n with
  | O => fail NoFuel
  | S n' => x ← load string;
      if x =? 0 then mret 0 else
      p ← strchr stop x; if negb (p =? 0) then mret string else strpbrk_loop n' (string + 1) stop
  end.

Definition strpbrk (string stop : Z) : B Z := n ← fuel; strpbrk_loop n string stop.

Fixpoint strrchr_loop (n : nat) (string c p : Z) : B Z :=
  match n with
  | O => fail NoFuel
  | S n' => x ← load string;
      if x =? 0 then mret p else strrchr_loop n' (string + 1) c (if x =? c then string else p)
  end.

Definition strrchr (string c : Z) : B Z := n ← fuel; strrchr_loop n string (u8 c) 0.

Fixpoint strlen_loop (n : nat) (p : Z) : B Z :=
  match n with
  | O => fail NoFuel
  | S n' => x ← load p; if x =? 0 then mret p else strlen_loop n' (p + 1)
  end.

Definition strlen (string : Z) : B Z :=
  assert (negb (string =? 0));; n ← fuel; p ← strlen_loop n string; mret (u32 (p - string)).

Fixpoint strnlen_loop (n : nat) (string maxlen length : Z) : B Z :=
  match n with
  | O => fail NoFuel
  | S n' => x ← load (string + length);
      if negb (x =? 0) && (length <? maxlen) then strnlen_loop n' string maxlen (length + 1) else mret length
  end.

Definition strnlen (string maxlen : Z) : B Z := n ← fuel; strnlen_loop n string maxlen 0.

(** [n] turns of the loop of [strstr], from [i] *)
Fixpoint strstr_loop (haystack needle needle_len i : Z) (n : nat) : B Z :=
  match n with
  | O => mret 0
  | S n' => c ← memcmp (haystack + i) needle needle_len;
      if c =? 0 then mret (haystack + i) else strstr_loop haystack needle needle_len (i + 1) n'
  end.

Definition strstr (haystack needle : Z) : B Z :=
  haystack_len ← strlen haystack;
  needle_len ← strlen needle;
  if haystack_len >=? needle_len
  then strstr_loop haystack needle needle_len 0 (Z.to_nat (haystack_len - needle_len + 1))
  else mret 0.

(** skips delimiters; [None] at the end of the string *)
Fixpoint tok_skip (n : nat) (delimiters s : Z) : B (bool * Z) :=
  match n with
  | O => fail NoFuel
  | S n' => x ← load s; p ← strchr delimiters x;
      if p =? 0 then mret (true, s)
      else if x =? 0 then mret (false, s) else tok_skip n' delimiters (s + 1)
  end.

Fixpoint tok_end (n : nat) (delimiters s : Z) : B Z :=
  match n with
  | O => fail NoFuel
  | S n' => x ← load s; p ← strchr delimiters x;
      if p =? 0 then tok_end n' delimiters (s + 1) else mret s
  end.

(** returns the token and the new [*save_ptr] *)
Definition strtok_r (s delimiters save : Z) : B (Z * Z) :=
  assert (negb (delimiters =? 0));;
  let s := if s =? 0 then save else s in
  assert (negb (s =? 0));;
  n ← fuel; '(found, s) ← tok_skip n delimiters s;
  if negb found then mret (0, s) else
  let token := s in
  n ← fuel; s ← tok_end n delimiters s;
  x ← load s;
  if negb (x =? 0) then store s 0;; mret (token, s + 1) else mret (token, s).

Fixpoint memset_loop (dst value : Z) (n : nat) : B unit :=
  match n with O => mret tt | S n' => store dst value;; memset_loop (dst + 1) value n' end.

Definition memset (dst value size : Z) : B Z :=
  assert (nonnull dst size);; memset_loop dst value (Z.to_nat size);; mret dst.

Definition strlcpy (dst src size : Z) : B Z :=
  assert (negb (dst =? 0));; assert (negb (src =? 0));;
  src_len ← strlen src;
  (if 0 <? size then
     let dst_len := size - 1 in
     let dst_len := if src_len <? dst_len then src_len else dst_len in
     memcpy dst src dst_len;; store (dst + dst_len) 0
   else mret tt);;
  mret src_len.

Definition strlcat (dst src size : Z) : B Z :=
  assert (negb (dst =? 0));; assert (negb (src =? 0));;
  src_len ← strlen src;
  dst_len ← strlen dst;
  (if (0 <? size) && (dst_len <? size) then
     let copy_cnt := size - dst_len - 1 in
     let copy_cnt := if src_len <? copy_cnt then src_len else copy_cnt in
     memcpy (dst + dst_len) src copy_cnt;; store (dst + dst_len + copy_cnt) 0
   else mret tt);;
  mret (u32 (src_len + dst_len)).

(** * Blocks and strings *)

(** the bytes [l] lie at [p] *)
Fixpoint bytes (m : mem) (p : Z) (l : list Z) : Prop :=
  match l with
  | [] => True
  | v :: r => m !! p = Some v ∧ 0 ≤ v < 256 ∧ bytes m (p + 1) r
  end.

(** the string [l] lies at [p] *)
Fixpoint cstr (m : mem) (p : Z) (l : list Z) : Prop :=
  match l with
  | [] => m !! p = Some 0
  | v :: r => m !! p = Some v ∧ 0 < v < 256 ∧ cstr m (p + 1) r
  end.

Definition writable (m : mem) (p n : Z) : Prop := ∀ a, p ≤ a < p + n → is_Some (m !! a).

Fixpoint write (m : mem) (p : Z) (l : list Z) : mem :=
  match l with [] => m | v :: r => write (<[p := v]> m) (p + 1) r end.

Lemma load_eq (m : mem) p v : m !! p = Some v → load p m = Ok (v, m).
Proof. intros H. unfold load. by rewrite H. Qed.

Lemma store_eq (m : mem) p v : is_Some (m !! p) → 0 ≤ v < 256 → store p v m = Ok (tt, <[p := v]> m).
Proof. intros [x H] Hv. unfold store. rewrite H. by rewrite u8_small by lia. Qed.

Lemma nonnull_true p n : 0 < p → nonnull p n = true.
Proof. intros H. unfold nonnull. by destruct (Z.eqb_spec p 0); [lia|]. Qed.

Lemma nz_true p : 0 < p → negb (p =? 0) = true.
Proof. intros H. by destruct (Z.eqb_spec p 0); [lia|]. Qed.

Lemma lookup_write m p l a : write m p l !! a =
  if decide (p ≤ a < p + Z.of_nat (length l)) then l !! Z.to_nat (a - p) else m !! a.
Proof.
  revert m p. induction l as [|v r IH]; intros m p; simpl.
  { by rewrite decide_False by lia. }
  rewrite IH. destruct (decide (a = p)) as [->|Hne].
  - rewrite decide_False by lia. rewrite lookup_insert_eq, decide_True by lia. by rewrite Z.sub_diag.
  - rewrite lookup_insert_ne by done. destruct (decide (p + 1 ≤ a < p + 1 + Z.of_nat (length r))).
    + rewrite decide_True by lia. by replace (Z.to_nat (a - p)) with (S (Z.to_nat (a - (p + 1)))) by lia.
    + by rewrite decide_False by lia.
Qed.

Lemma write_is_Some m p l a : is_Some (m !! a) → is_Some (write m p l !! a).
Proof.
  intros H. rewrite lookup_write. destruct (decide _); [|done]. apply lookup_lt_is_Some. lia.
Qed.

Lemma lookup_write_out m p l a : a < p ∨ p + Z.of_nat (length l) ≤ a → write m p l !! a = m !! a.
Proof. intros H. rewrite lookup_write, decide_False; [done|lia]. Qed.

Lemma bytes_lookup m p l : bytes m p l ↔ ∀ i v, l !! i = Some v → m !! (p + Z.of_nat i) = Some v ∧ 0 ≤ v < 256.
Proof.
  revert p. induction l as [|x r IH]; intros p; simpl; [split; [intros _ i v; by rewrite lookup_nil|done]|].
  rewrite IH. split.
  - intros (H1 & H2 & H3) [|i] v; simpl; [intros [= ->]; by rewrite Z.add_0_r|].
    intros Hi. replace (p + Z.of_nat (S i)) with (p + 1 + Z.of_nat i) by lia. auto.
  - intros H. destruct (H O x eq_refl) as [H1 H2]. rewrite Z.add_0_r in H1. split_and!; [done|lia|lia|].
    intros i v Hi. replace (p + 1 + Z.of_nat i) with (p + Z.of_nat (S i)) by lia. auto.
Qed.

Lemma cstr_bytes m p l : cstr m p l ↔ bytes m p (l ++ [0]) ∧ 0 ∉ l.
Proof.
  revert p. induction l as [|x r IH]; intros p; simpl.
  - split; [intros H; split_and!; [done|lia|lia|done|by intros ?%elem_of_nil]|by intros [[? _] _]].
  - rewrite IH, not_elem_of_cons. split; [intros (?&?&?&?)|intros ((?&?&?)&?&?)]; split_and!; try done; lia.
Qed.

Lemma bytes_app m p l1 l2 : bytes m p (l1 ++ l2) ↔ bytes m p l1 ∧ bytes m (p + Z.of_nat (length l1)) l2.
Proof.
  revert p. induction l1 as [|x r IH]; intros p; simpl; [rewrite Z.add_0_r; tauto|].
  rewrite IH. replace (p + 1 + Z.of_nat (length r)) with (p + Z.of_nat (S (length r))) by lia. tauto.
Qed.

Lemma bytes_range m p l v : bytes m p l → v ∈ l → 0 ≤ v < 256.
Proof. rewrite bytes_lookup. intros H [i Hi]%list_elem_of_lookup. by destruct (H i v Hi). Qed.

Lemma bytes_write m p l : (∀ v, v ∈ l → 0 ≤ v < 256) → bytes (write m p l) p l.
Proof.
  intros Hr. apply bytes_lookup. intros i v Hi. assert (i < length l)%nat by (by eapply lookup_lt_Some).
  rewrite lookup_write, decide_True by lia. replace (Z.to_nat (p + Z.of_nat i - p)) with i by lia.
  split; [done|]. apply Hr. by eapply list_elem_of_lookup_2.
Qed.

(** an update elsewhere *)
Lemma bytes_ext m m' p l : (∀ a, p ≤ a < p + Z.of_nat (length l) → m' !! a = m !! a) → bytes m p l → bytes m' p l.
Proof.
  rewrite !bytes_lookup. intros He H i v Hi. assert (i < length l)%nat by (by eapply lookup_lt_Some).
  rewrite He by lia. auto.
Qed.

Lemma cstr_ext m m' p l : (∀ a, p ≤ a ≤ p + Z.of_nat (length l) → m' !! a = m !! a) → cstr m p l → cstr m' p l.
Proof.
  rewrite !cstr_bytes. intros He [Hb Hn]. split; [|done]. eapply bytes_ext; [|done].
  intros a. rewrite length_app. simpl. intros ?. apply He. lia.
Qed.

Lemma bytes_fuel m p l : bytes m p l → (length l ≤ size m)%nat.
Proof.
  intros H. assert (length l = length ((λ i, p + Z.of_nat i) <$> seq 0 (length l))) as -> by by rewrite length_fmap, length_seq.
  apply NoDup_length_le_size.
  - apply NoDup_fmap_2; [intros i j; lia|apply NoDup_seq].
  - intros a (i & -> & Hi)%list_elem_of_fmap. apply elem_of_seq in Hi.
    destruct (lookup_lt_is_Some_2 l i) as [v Hv]; [lia|]. rewrite bytes_lookup in H. destruct (H i v Hv) as [-> _]. eauto.
Qed.

Lemma cstr_fuel m p l : cstr m p l → (length l < S (size m))%nat.
Proof. intros [H _]%cstr_bytes. apply bytes_fuel in H. rewrite length_app in H. simpl in H. lia. Qed.

(** ** Copying *)

Lemma copy_up_spec m dst src l : bytes m src l → writable m dst (Z.of_nat (length l)) →
  dst ≤ src ∨ src + Z.of_nat (length l) ≤ dst → copy_up dst src (length l) m = Ok (tt, write m dst l).
Proof.
  revert m dst src. induction l as [|v r IH]; intros m dst src Hb Hw Hd; [done|]. simpl in *.
  destruct Hb as (Hv & Hr & Hb). rewrite (bind_ok _ _ _ _ _ (load_eq m src v Hv)).
  rewrite (bind_ok _ _ _ _ _ (store_eq m dst v (Hw dst ltac:(lia)) Hr)). apply IH.
  - eapply bytes_ext; [|done]. intros a Ha. rewrite lookup_insert_ne; [done|lia].
  - intros a Ha. destruct (decide (a = dst)) as [->|]; [rewrite lookup_insert_eq; eauto|].
    rewrite lookup_insert_ne by done. apply Hw. lia.
  - lia.
Qed.

Lemma write_snoc m p l v : write (<[p + Z.of_nat (length l) := v]> m) p l = write m p (l ++ [v]).
Proof.
  apply map_eq. intros a. rewrite !lookup_write, length_app. simpl.
  destruct (decide (p ≤ a < p + Z.of_nat (length l))).
  - rewrite decide_True by lia. rewrite lookup_app_l; [done|lia].
  - destruct (decide (a = p + Z.of_nat (length l))) as [->|].
    + rewrite lookup_insert_eq, decide_True by lia.
      replace (Z.to_nat (p + Z.of_nat (length l) - p)) with (length l) by lia. by rewrite list_lookup_middle.
    + rewrite lookup_insert_ne by done. by rewrite decide_False by lia.
Qed.

Lemma copy_down_spec m dst src l : bytes m src l → writable m dst (Z.of_nat (length l)) → src ≤ dst →
  copy_down (dst + Z.of_nat (length l)) (src + Z.of_nat (length l)) (length l) m = Ok (tt, write m dst l).
Proof.
  revert m. induction l as [|v r IH] using rev_ind; intros m Hb Hw Hd; [done|].
  rewrite length_app in *. simpl in *. rewrite Nat.add_1_r in *. cbn [copy_down].
  apply bytes_app in Hb as (Hb & Hv & Hr & _).
  replace (src + Z.of_nat (S (length r)) - 1) with (src + Z.of_nat (length r)) by lia.
  replace (dst + Z.of_nat (S (length r)) - 1) with (dst + Z.of_nat (length r)) by lia.
  rewrite (bind_ok _ _ _ _ _ (load_eq m _ v Hv)).
  rewrite (bind_ok _ _ _ _ _ (store_eq m (dst + Z.of_nat (length r)) v (Hw (dst + Z.of_nat (length r)) ltac:(lia)) Hr)).
  rewrite IH; [by rewrite write_snoc| | |done].
  - eapply bytes_ext; [|done]. intros a Ha. rewrite lookup_insert_ne; [done|lia].
  - intros a Ha. destruct (decide (a = dst + Z.of_nat (length r))) as [->|]; [rewrite lookup_insert_eq; eauto|].
    rewrite lookup_insert_ne by done. apply Hw. lia.
Qed.

Lemma memcpy_spec m dst src l : bytes m src l → writable m dst (Z.of_nat (length l)) →
  0 < dst → 0 < src → dst ≤ src ∨ src + Z.of_nat (length l) ≤ dst →
  memcpy dst src (Z.of_nat (length l)) m = Ok (dst, write m dst l).
Proof.
  intros Hb Hw H1 H2 Hd. unfold memcpy. rewrite !assert_bind by by apply nonnull_true. rewrite Nat2Z.id.
  by rewrite (bind_ok _ _ _ _ _ (copy_up_spec m dst src l Hb Hw Hd)).
Qed.

(** [memmove] copies a block onto another even when they overlap.  What it returns
    is the start of the destination when it lies after the source; otherwise it
    is the end of the destination, although its comment promises the start. *)
Theorem memmove_spec m dst src l : bytes m src l → writable m dst (Z.of_nat (length l)) → 0 < dst → 0 < src →
  memmove dst src (Z.of_nat (length l)) m =
    Ok (if dst <? src then dst + Z.of_nat (length l) else dst, write m dst l) ∧ bytes (write m dst l) dst l.
Proof.
  intros Hb Hw H1 H2. split; [|apply bytes_write; intros v; by apply (bytes_range m src)].
  unfold memmove. rewrite !assert_bind by by apply nonnull_true. rewrite Nat2Z.id.
  destruct (Z.ltb_spec dst src).
  - by rewrite (bind_ok _ _ _ _ _ (copy_up_spec m dst src l Hb Hw ltac:(lia))).
  - by rewrite (bind_ok _ _ _ _ _ (copy_down_spec m dst src l Hb Hw ltac:(lia))).
Qed.

(** six bytes at address 1 *)
Definition ex_mem : mem := write ∅ 1 [104; 105; 106; 0; 0; 0].

Lemma memmove_spec_witness : memmove 2 1 3 ex_mem = Ok (2, write ex_mem 2 [104; 105; 106]) ∧
  bytes (write ex_mem 2 [104; 105; 106]) 2 [104; 105; 106].
Proof.
  apply (memmove_spec ex_mem 2 1 [104; 105; 106]).
  - vm_compute. repeat split; discriminate.
  - intros a Ha. assert (a = 2 ∨ a = 3 ∨ a = 4) as [->|[->| ->]] by (simpl in Ha; lia); vm_compute; eauto.
  - lia.
  - lia.
Defined.

(** ** Comparing *)

(** the order of strings and blocks by their first difference *)
Fixpoint lex (l1 l2 : list Z) : Z :=
  match l1, l2 with
  | [], [] => 0
  | [], _ :: _ => -1
  | _ :: _, [] => 1
  | x :: r1, y :: r2 => if x <? y then -1 else if x >? y then 1 else lex r1 r2
  end.

Lemma lex_eq l1 l2 : lex l1 l2 = 0 ↔ l1 = l2.
Proof.
  revert l2. induction l1 as [|x r IH]; intros [|y r2]; simpl; try done.
  rewrite Z.gtb_ltb. destruct (Z.ltb_spec x y), (Z.ltb_spec y x); try (split; [done|intros [= -> _]; lia]).
  rewrite IH. assert (x = y) as -> by lia. naive_solver.
Qed.

Lemma cmp_loop_spec m a b l1 l2 : bytes m a l1 → bytes m b l2 → length l1 = length l2 →
  cmp_loop a b (length l1) m = Ok (lex l1 l2, m).
Proof.
  revert a b l2. induction l1 as [|x r IH]; intros a b [|y r2] H1 H2 Hlen; try done. simpl in *.
  destruct H1 as (Hx & _ & H1). destruct H2 as (Hy & _ & H2).
  rewrite (bind_ok _ _ _ _ _ (load_eq m a x Hx)), (bind_ok _ _ _ _ _ (load_eq m b y Hy)).
  rewrite Z.gtb_ltb. destruct (Z.eqb_spec x y) as [->|]; simpl.
  - rewrite Z.ltb_irrefl. apply IH; [done..|lia].
  - by destruct (Z.ltb_spec x y), (Z.ltb_spec y x); try lia.
Qed.

Lemma memcmp_spec m a b l1 l2 : bytes m a l1 → bytes m b l2 → length l1 = length l2 → 0 < a → 0 < b →
  memcmp a b (Z.of_nat (length l1)) m = Ok (lex l1 l2, m).
Proof.
  intros H1 H2 Hlen Ha Hb. unfold memcmp. rewrite !assert_bind by by apply nonnull_true. rewrite Nat2Z.id.
  by apply cmp_loop_spec.
Qed.

(** the longest common part has been skipped *)
Lemma strcmp_loop_spec n m a b l1 l2 : cstr m a l1 → cstr m b l2 → (length l1 < n)%nat →
  ∃ a' b' x y, strcmp_loop n a b m = Ok ((a', b'), m) ∧ m !! a' = Some x ∧ m !! b' = Some y ∧
    lex l1 l2 = (if x <? y then -1 else if x >? y then 1 else 0).
Proof.
  revert a b l1 l2. induction n as [|n IH]; intros a b l1 l2 H1 H2 Hn; [lia|].
  destruct l1 as [|x r1]; simpl in H1.
  - cbn [strcmp_loop]. rewrite (bind_ok _ _ _ _ _ (load_eq m a 0 H1)). simpl. destruct l2 as [|y r2].
    + exists a, b, 0, 0. done.
    + destruct H2 as (Hy & Hr & _). exists a, b, 0, y. split_and!; [done..|]. simpl. by destruct (Z.ltb_spec 0 y); [|lia].
  - destruct H1 as (Hx & Hrx & H1). cbn [strcmp_loop]. rewrite (bind_ok _ _ _ _ _ (load_eq m a x Hx)).
    destruct (Z.eqb_spec x 0); [lia|]. destruct l2 as [|y r2]; simpl in H2.
    + rewrite (bind_ok _ _ _ _ _ (load_eq m b 0 H2)). destruct (Z.eqb_spec x 0); [lia|].
      exists a, b, x, 0. split_and!; [done..|]. rewrite Z.gtb_ltb. simpl. by destruct (Z.ltb_spec x 0), (Z.ltb_spec 0 x); try lia.
    + destruct H2 as (Hy & Hry & H2). rewrite (bind_ok _ _ _ _ _ (load_eq m b y Hy)). destruct (Z.eqb_spec x y) as [->|].
      * destruct (IH (a + 1) (b + 1) r1 r2 H1 H2 ltac:(simpl in Hn; lia)) as (a' & b' & x' & y' & E & ? & ? & El).
        exists a', b', x', y'. split_and!; [done..|]. simpl. by rewrite Z.gtb_ltb, Z.ltb_irrefl.
      * exists a, b, x, y. split_and!; [done..|]. simpl. rewrite Z.gtb_ltb.
        by destruct (Z.ltb_spec x y), (Z.ltb_spec y x); try lia.
Qed.

Lemma strcmp_eq m a b l1 l2 : cstr m a l1 → cstr m b l2 → 0 < a → 0 < b → strcmp a b m = Ok (lex l1 l2, m).
Proof.
  intros H1 H2 Ha Hb. unfold strcmp. rewrite !assert_bind by by apply nz_true.
  rewrite (bind_ok fuel _ m (S (size m)) m eq_refl).
  destruct (strcmp_loop_spec _ m a b l1 l2 H1 H2 (cstr_fuel m a l1 H1)) as (a' & b' & x & y & E & Hx & Hy & ->).
  rewrite (bind_ok _ _ _ _ _ E). simpl.
  by rewrite (bind_ok _ _ _ _ _ (load_eq m a' x Hx)), (bind_ok _ _ _ _ _ (load_eq m b' y Hy)).
Qed.

(** ** Lengths *)

Lemma strlen_loop_spec n m p l : cstr m p l → (length l < n)%nat →
  strlen_loop n p m = Ok (p + Z.of_nat (length l), m).
Proof.
  revert p l. induction n as [|n IH]; intros p [|x r] Hc Hn; try lia; cbn [strlen_loop]; simpl in *.
  - rewrite (bind_ok _ _ _ _ _ (load_eq m p 0 Hc)). simpl. by rewrite Z.add_0_r.
  - destruct Hc as (Hx & Hr & Hc). rewrite (bind_ok _ _ _ _ _ (load_eq m p x Hx)). destruct (Z.eqb_spec x 0); [lia|].
    rewrite (IH (p + 1) r Hc) by lia. do 2 f_equal. lia.
Qed.

Lemma strlen_eq m p l : cstr m p l → 0 < p → Z.of_nat (length l) < 2 ^ 32 →
  strlen p m = Ok (Z.of_nat (length l), m).
Proof.
  intros Hc Hp Hl. unfold strlen. rewrite assert_bind by by apply nz_true.
  rewrite (bind_ok fuel _ m (S (size m)) m eq_refl).
  rewrite (bind_ok _ _ _ _ _ (strlen_loop_spec _ m p l Hc (cstr_fuel m p l Hc))).
  replace (p + Z.of_nat (length l) - p) with (Z.of_nat (length l)) by lia. by rewrite u32_small by lia.
Qed.

(** [strnlen] tests the character before the bound: it reads the byte after a
    block that has no terminator. *)
Lemma strnlen_eq m p l maxlen : cstr m p l → 0 ≤ maxlen →
  strnlen p maxlen m = Ok (Z.min (Z.of_nat (length l)) maxlen, m).
Proof.
  intros Hc Hm. unfold strnlen. rewrite (bind_ok fuel _ m (S (size m)) m eq_refl).
  assert (H : ∀ n j r, cstr m (p + Z.of_nat j) r → (length r < n)%nat → Z.of_nat j ≤ maxlen →
    strnlen_loop n p maxlen (Z.of_nat j) m = Ok (Z.min (Z.of_nat (j + length r)) maxlen, m)).
  { induction n as [|n IH]; intros j [|x r] Hr Hn Hj; try (simpl in Hn; lia); cbn [strnlen_loop]; simpl in Hr.
    - rewrite (bind_ok _ _ _ _ _ (load_eq m _ 0 Hr)). simpl. apply (f_equal (λ z, Ok (z, m))). simpl. lia.
    - destruct Hr as (Hx & Hrx & Hr). rewrite (bind_ok _ _ _ _ _ (load_eq m _ x Hx)).
      destruct (Z.eqb_spec x 0); [lia|]. simpl. destruct (Z.ltb_spec (Z.of_nat j) maxlen).
      + replace (Z.of_nat j + 1) with (Z.of_nat (S j)) by lia. rewrite (IH (S j) r).
        * apply (f_equal (λ z, Ok (z, m))). simpl. lia.
        * by replace (p + Z.of_nat (S j)) with (p + Z.of_nat j + 1) by lia.
        * simpl in Hn. lia.
        * lia.
      + apply (f_equal (λ z, Ok (z, m))). simpl. lia. }
  change 0 with (Z.of_nat 0) at 1. rewrite (H (S (size m)) O l); [done|by rewrite Z.add_0_r|by eapply cstr_fuel|lia].
Qed.

(** ** Searching *)

Fixpoint index_of (c : Z) (l : list Z) : option nat :=
  match l with [] => None | x :: r => if x =? c then Some O else S <$> index_of c r end.

Lemma index_of_None c l : index_of c l = None ↔ c ∉ l.
Proof.
  induction l as [|x r IH]; simpl; [split; [by intros _ ?%elem_of_nil|done]|].
  rewrite not_elem_of_cons. destruct (Z.eqb_spec x c) as [->|]; [split; [done|by intros []]|].
  rewrite fmap_None, IH. naive_solver.
Qed.

(** the result of [strchr]: the terminator counts as a character *)
Definition strchr_result (p c : Z) (l : list Z) : Z :=
  if c =? 0 then p + Z.of_nat (length l) else from_option (λ i, p + Z.of_nat i) 0 (index_of c l).

Lemma strchr_loop_spec n m p c l : cstr m p l → (length l < n)%nat → 0 ≤ c < 256 →
  strchr_loop n p c m = Ok (strchr_result p c l, m).
Proof.
  unfold strchr_result. revert p l. induction n as [|n IH]; intros p [|x r] Hc Hn Hr; try lia; cbn [strchr_loop]; simpl in *.
  - rewrite (bind_ok _ _ _ _ _ (load_eq m p 0 Hc)). rewrite (Z.eqb_sym 0 c). simpl. rewrite Z.add_0_r.
    by destruct (c =? 0).
  - destruct Hc as (Hx & Hrx & Hc). rewrite (bind_ok _ _ _ _ _ (load_eq m p x Hx)). destruct (Z.eqb_spec x c) as [->|].
    + destruct (Z.eqb_spec c 0); [lia|]. simpl. by rewrite Z.add_0_r.
    + destruct (Z.eqb_spec x 0); [lia|]. rewrite (IH (p + 1) r) by (done || lia). do 2 f_equal.
      destruct (c =? 0); [lia|]. destruct (index_of c r); simpl; lia.
Qed.

Lemma strchr_eq m p c l : cstr m p l → 0 < p → 0 ≤ c < 256 → strchr p c m = Ok (strchr_result p c l, m).
Proof.
  intros Hc Hp Hr. unfold strchr. rewrite assert_bind by by apply nz_true.
  rewrite (bind_ok fuel _ m (S (size m)) m eq_refl), u8_small by lia.
  apply strchr_loop_spec; [done|by eapply cstr_fuel|done].
Qed.

Lemma strchr_result_null p c l : 0 < p → (strchr_result p c l =? 0) = negb (bool_decide (c = 0 ∨ c ∈ l)).
Proof.
  intros Hp. unfold strchr_result. destruct (Z.eqb_spec c 0) as [->|Hc].
  - rewrite bool_decide_eq_true_2 by auto. apply Z.eqb_neq. lia.
  - destruct (index_of c l) as [i|] eqn:E; simpl.
    + rewrite bool_decide_eq_true_2; [apply Z.eqb_neq; lia|]. right. apply dec_stable. intros H.
      apply index_of_None in H. congruence.
    + rewrite bool_decide_eq_false_2; [done|]. apply index_of_None in E. tauto.
Qed.

(** the number of leading characters that satisfy [f] *)
Fixpoint prefix_len (f : Z → bool) (l : list Z) : nat :=
  match l with [] => O | x :: r => if f x then S (prefix_len f r) else O end.

Lemma prefix_len_le f l : (prefix_len f l ≤ length l)%nat.
Proof. induction l as [|x r IH]; simpl; [lia|]. destruct (f x); simpl; lia. Qed.

Lemma prefix_len_spec f l : (∀ x, x ∈ take (prefix_len f l) l → f x = true) ∧
  match drop (prefix_len f l) l with [] => True | x :: _ => f x = false end.
Proof.
  induction l as [|x r [IH1 IH2]]; simpl; [split; [by intros x ?%elem_of_nil|done]|].
  destruct (f x) eqn:E; simpl; [|split; [by intros y ?%elem_of_nil|done]].
  split; [|done]. intros y [->|Hy]%elem_of_cons; auto.
Qed.

Definition in_set (ds : list Z) (x : Z) : bool := bool_decide (x ∈ ds).

(** a character of a string is looked up in a set of characters *)
Lemma strchr_char m q ds x : cstr m q ds → 0 < q → 0 < x < 256 →
  ∃ r, strchr q x m = Ok (r, m) ∧ (r =? 0) = negb (in_set ds x).
Proof.
  intros Hq Hp Hx. eexists. split; [by apply strchr_eq; [..|lia]|].
  rewrite strchr_result_null by done. unfold in_set. f_equal. apply bool_decide_ext. split; [|auto]. intros [?|?]; [lia|done].
Qed.

Lemma span_loop_spec n m want q ds p j l : cstr m q ds → 0 < q → cstr m (p + Z.of_nat j) l → (length l < n)%nat →
  span_loop n want p q (Z.of_nat j) m =
    Ok (Z.of_nat (j + prefix_len (λ x, negb (eqb (in_set ds x) want)) l), m).
Proof.
  intros Hq Hqp. revert j l. induction n as [|n IH]; intros j [|x r] Hc Hn; try (simpl in Hn; lia); cbn [span_loop]; simpl in Hc.
  - rewrite (bind_ok _ _ _ _ _ (load_eq m _ 0 Hc)). simpl. by rewrite Nat.add_0_r.
  - destruct Hc as (Hx & Hr & Hc). rewrite (bind_ok _ _ _ _ _ (load_eq m _ x Hx)). destruct (Z.eqb_spec x 0); [lia|].
    destruct (strchr_char m q ds x Hq Hqp Hr) as (r0 & E & E0). rewrite (bind_ok _ _ _ _ _ E), E0, negb_involutive. simpl.
    destruct (eqb (in_set ds x) want); simpl; [by rewrite Nat.add_0_r|].
    replace (Z.of_nat j + 1) with (Z.of_nat (S j)) by lia. rewrite (IH (S j) r); [do 3 f_equal; lia| |simpl in Hn; lia].
    by replace (p + Z.of_nat (S j)) with (p + Z.of_nat j + 1) by lia.
Qed.

Lemma prefix_len_ext f g l : (∀ x, f x = g x) → prefix_len f l = prefix_len g l.
Proof. intros He. induction l as [|x r IH]; simpl; [done|]. by rewrite He, IH. Qed.

Lemma strcspn_eq m p q l ds : cstr m p l → cstr m q ds → 0 < q →
  strcspn p q m = Ok (Z.of_nat (prefix_len (λ x, negb (in_set ds x)) l), m).
Proof.
  intros Hp Hq H0. unfold strcspn. rewrite (bind_ok fuel _ m (S (size m)) m eq_refl).
  pose proof (span_loop_spec (S (size m)) m true q ds p 0 l Hq H0) as E. change (Z.of_nat 0) with 0 in E. rewrite Z.add_0_r in E.
  rewrite E; [|done|by eapply cstr_fuel]. simpl. do 3 f_equal. apply prefix_len_ext. intros x. by destruct (in_set ds x).
Qed.

Lemma strspn_eq m p q l ds : cstr m p l → cstr m q ds → 0 < q →
  strspn p q m = Ok (Z.of_nat (prefix_len (in_set ds) l), m).
Proof.
  intros Hp Hq H0. unfold strspn. rewrite (bind_ok fuel _ m (S (size m)) m eq_refl).
  pose proof (span_loop_spec (S (size m)) m false q ds p 0 l Hq H0) as E. change (Z.of_nat 0) with 0 in E. rewrite Z.add_0_r in E.
  rewrite E; [|done|by eapply cstr_fuel]. simpl. do 3 f_equal. apply prefix_len_ext. intros x. by destruct (in_set ds x).
Qed.

Lemma cstr_app m p l1 l2 : cstr m p (l1 ++ l2) → cstr m (p + Z.of_nat (length l1)) l2.
Proof.
  revert p. induction l1 as [|x r IH]; intros p; simpl; [by rewrite Z.add_0_r|]. intros (_ & _ & H).
  replace (p + Z.of_nat (S (length r))) with (p + 1 + Z.of_nat (length r)) by lia. auto.
Qed.

Lemma cstr_drop m p l i : (i ≤ length l)%nat → cstr m p l → cstr m (p + Z.of_nat i) (drop i l).
Proof.
  intros Hi H. rewrite <- (take_drop i l) in H. apply cstr_app in H. by rewrite length_take_le in H.
Qed.

(** ** Tokens *)

Lemma tok_skip_spec n m q ds p l : cstr m q ds → 0 < q → cstr m p l → (length l < n)%nat →
  tok_skip n q p m = Ok ((negb (bool_decide (prefix_len (in_set ds) l = length l)), p + Z.of_nat (prefix_len (in_set ds) l)), m).
Proof.
  intros Hq Hqp. revert p l. induction n as [|n IH]; intros p [|x r] Hc Hn; try (simpl in Hn; lia); cbn [tok_skip]; simpl in Hc.
  - rewrite (bind_ok _ _ _ _ _ (load_eq m _ 0 Hc)), (bind_ok _ _ _ _ _ (strchr_eq m q 0 ds Hq Hqp ltac:(lia))).
    rewrite strchr_result_null, bool_decide_eq_true_2 by auto. simpl. by rewrite Z.add_0_r.
  - destruct Hc as (Hx & Hr & Hc). rewrite (bind_ok _ _ _ _ _ (load_eq m _ x Hx)).
    destruct (strchr_char m q ds x Hq Hqp Hr) as (r0 & E & E0). rewrite (bind_ok _ _ _ _ _ E), E0. simpl.
    destruct (in_set ds x); simpl; [|by rewrite Z.add_0_r]. destruct (Z.eqb_spec x 0); [lia|].
    rewrite (IH (p + 1) r Hc) by (simpl in Hn; lia). do 3 f_equal; [|lia]. f_equal. apply bool_decide_ext. lia.
Qed.

Lemma tok_end_spec n m q ds p l : cstr m q ds → 0 < q → cstr m p l → (length l < n)%nat →
  tok_end n q p m = Ok (p + Z.of_nat (prefix_len (λ x, negb (in_set ds x)) l), m).
Proof.
  intros Hq Hqp. revert p l. induction n as [|n IH]; intros p [|x r] Hc Hn; try (simpl in Hn; lia); cbn [tok_end]; simpl in Hc.
  - rewrite (bind_ok _ _ _ _ _ (load_eq m _ 0 Hc)), (bind_ok _ _ _ _ _ (strchr_eq m q 0 ds Hq Hqp ltac:(lia))).
    rewrite strchr_result_null, bool_decide_eq_true_2 by auto. simpl. by rewrite Z.add_0_r.
  - destruct Hc as (Hx & Hr & Hc). rewrite (bind_ok _ _ _ _ _ (load_eq m _ x Hx)).
    destruct (strchr_char m q ds x Hq Hqp Hr) as (r0 & E & E0). rewrite (bind_ok _ _ _ _ _ E), E0. simpl.
    destruct (in_set ds x); simpl; [by rewrite Z.add_0_r|]. rewrite (IH (p + 1) r Hc) by (simpl in Hn; lia).
    do 2 f_equal. lia.
Qed.

(** a string cut at [i] *)
Lemma cstr_cut m p l i x r : cstr m p l → drop i l = x :: r → cstr (<[p + Z.of_nat i := 0]> m) p (take i l).
Proof.
  revert p l. induction i as [|i IH]; intros p [|y l] Hc Hd; try done; simpl in *.
  - rewrite Z.add_0_r. by rewrite lookup_insert_eq.
  - destruct Hc as (Hy & Hr & Hc). rewrite lookup_insert_ne by lia. split_and!; [done|lia|lia|].
    replace (p + Z.of_nat (S i)) with (p + 1 + Z.of_nat i) by lia. auto.
Qed.

Section strtok.
Context (m : mem) (s d save : Z) (l ds : list Z).
Context (Hs : cstr m (if s =? 0 then save else s) l) (Hd : cstr m d ds) (Hp : 0 < d).
Context (Hps : 0 < if s =? 0 then save else s).

Let p := if s =? 0 then save else s.
Let i := prefix_len (in_set ds) l.
Let j := prefix_len (λ x, negb (in_set ds x)) (drop i l).

(** [strtok_r] in terms of the leading delimiters and the token after them *)
Lemma strtok_r_eq : strtok_r s d save m =
  if bool_decide (i = length l) then Ok ((0, p + Z.of_nat i), m)
  else match drop j (drop i l) with
       | [] => Ok ((p + Z.of_nat i, p + Z.of_nat (i + j)), m)
       | _ :: _ => Ok ((p + Z.of_nat i, p + Z.of_nat (i + j) + 1), <[p + Z.of_nat (i + j) := 0]> m)
       end.
Proof using All.
  unfold strtok_r. rewrite assert_bind by by apply nz_true. cbv zeta. fold p. rewrite assert_bind by by apply nz_true.
  rewrite (bind_ok fuel _ m (S (size m)) m eq_refl).
  rewrite (bind_ok _ _ _ _ _ (tok_skip_spec _ m d ds p l Hd Hp Hs (cstr_fuel _ _ _ Hs))). fold i. simpl.
  rewrite negb_involutive. case_bool_decide as Hi; [done|].
  assert (Hil : (i ≤ length l)%nat) by apply prefix_len_le.
  pose proof (cstr_drop m p l i Hil Hs) as Ht.
  rewrite (bind_ok fuel _ m (S (size m)) m eq_refl).
  rewrite (bind_ok _ _ _ _ _ (tok_end_spec _ m d ds _ _ Hd Hp Ht (cstr_fuel _ _ _ Ht))). fold j.
  assert (Hjl : (j ≤ length (drop i l))%nat) by apply prefix_len_le.
  pose proof (cstr_drop m _ (drop i l) j Hjl Ht) as He.
  replace (p + Z.of_nat i + Z.of_nat j) with (p + Z.of_nat (i + j)) in * by lia.
  destruct (drop j (drop i l)) as [|x r]; simpl in He.
  - by rewrite (bind_ok _ _ _ _ _ (load_eq m _ 0 He)).
  - destruct He as (Hx & Hr & _). rewrite (bind_ok _ _ _ _ _ (load_eq m _ x Hx)). destruct (Z.eqb_spec x 0); [lia|]. simpl.
    by rewrite (bind_ok _ _ _ _ _ (store_eq m _ 0 ltac:(eauto) ltac:(lia))).
Qed.
End strtok.

(** [strtok_r] returns the first run of characters that are not delimiters, as a
    string of its own, and remembers what follows the delimiter after it; at the
    end of the string it returns a null pointer. *)
Theorem strtok_r_spec m s d save l ds :
  cstr m (if s =? 0 then save else s) l → cstr m d ds → 0 < d → 0 < (if s =? 0 then save else s) →
  let p := if s =? 0 then save else s in
  ∃ skip tok rest, l = skip ++ tok ++ rest ∧ (∀ x, x ∈ skip → x ∈ ds) ∧ (∀ x, x ∈ tok → x ∉ ds) ∧
    match rest with [] => True | x :: _ => x ∈ ds end ∧
    if bool_decide (tok = []) then rest = [] ∧ strtok_r s d save m = Ok ((0, p + Z.of_nat (length l)), m)
    else ∃ m' save', strtok_r s d save m = Ok ((p + Z.of_nat (length skip), save'), m') ∧
      cstr m' (p + Z.of_nat (length skip)) tok ∧ cstr m' save' (tl rest) ∧
      ∀ a, a ≠ p + Z.of_nat (length (skip ++ tok)) → m' !! a = m !! a.
Proof.
  intros Hs Hd Hp Hps p. rewrite (strtok_r_eq m s d save l ds Hs Hd Hp Hps). fold p.
  set (i := prefix_len (in_set ds) l). set (j := prefix_len (λ x, negb (in_set ds x)) (drop i l)).
  destruct (prefix_len_spec (in_set ds) l) as [Hi1 Hi2]. fold i in Hi1, Hi2.
  destruct (prefix_len_spec (λ x, negb (in_set ds x)) (drop i l)) as [Hj1 Hj2]. fold j in Hj1, Hj2.
  assert (Hil : (i ≤ length l)%nat) by apply prefix_len_le. assert (Hjl : (j ≤ length (drop i l))%nat) by apply prefix_len_le.
  pose proof (cstr_drop m p l i Hil Hs) as Ht.
  exists (take i l), (take j (drop i l)), (drop j (drop i l)). rewrite !take_drop. split; [done|]. split.
  { intros x Hx. apply Hi1 in Hx. by apply bool_decide_eq_true in Hx. } split.
  { intros x Hx. apply Hj1, negb_true_iff, bool_decide_eq_false in Hx. done. } split.
  { destruct (drop j (drop i l)) as [|x r]; [done|]. by apply negb_false_iff, bool_decide_eq_true in Hj2. }
  assert (Htok : take j (drop i l) = [] ↔ i = length l).
  { split; intros H.
    - unfold j in H. destruct (drop i l) as [|x r] eqn:E; [apply (f_equal length) in E; rewrite length_drop in E; simpl in E; lia|].
      exfalso. revert H. simpl. rewrite Hi2. done.
    - rewrite drop_ge, take_nil by lia. done. }
  rewrite (bool_decide_ext _ _ Htok). case_bool_decide as Hin.
  { split; [by rewrite (drop_ge l), drop_nil by lia|]. by rewrite Hin. }
  rewrite length_app, !length_take_le by done.
  destruct (drop j (drop i l)) as [|x r] eqn:E.
  - assert (Hj : j = length (drop i l)) by (apply (f_equal length) in E; rewrite length_drop in E; simpl in E; lia).
    exists m, (p + Z.of_nat (i + j)). split_and!; [done|by rewrite Hj, take_ge| |done].
    pose proof (cstr_drop m p l (i + j)%nat ltac:(rewrite length_drop in Hj; lia) Hs) as He.
    rewrite <- drop_drop, E in He. done.
  - eexists _, _. split; [done|]. split_and!.
    + replace (p + Z.of_nat (i + j)) with (p + Z.of_nat i + Z.of_nat j) by lia. by eapply cstr_cut.
    + simpl. pose proof (cstr_drop m p l (i + j)%nat ltac:(rewrite length_drop in Hjl; lia) Hs) as He.
      rewrite <- drop_drop, E in He. destruct He as (_ & _ & He). eapply cstr_ext; [|done].
      intros a Ha. rewrite lookup_insert_ne; [done|lia].
    + intros a Ha. by rewrite lookup_insert_ne.
Qed.

(** the command line [ls -a] at address 16, the delimiter at 8 *)
Definition ex_line : mem := write (write ∅ 8 [32; 0]) 16 [108; 115; 32; 45; 97; 0].

Lemma strtok_r_spec_witness : ∃ skip tok rest, [108; 115; 32; 45; 97] = skip ++ tok ++ rest ∧
  (∀ x, x ∈ skip → x ∈ [32]) ∧ (∀ x, x ∈ tok → x ∉ [32]) ∧
  match rest with [] => True | x :: _ => x ∈ [32] end ∧
  if bool_decide (tok = []) then rest = [] ∧ strtok_r 16 8 0 ex_line = Ok ((0, 16 + 5), ex_line)
  else ∃ m' save', strtok_r 16 8 0 ex_line = Ok ((16 + Z.of_nat (length skip), save'), m') ∧
    cstr m' (16 + Z.of_nat (length skip)) tok ∧ cstr m' save' (tl rest) ∧
    ∀ a, a ≠ 16 + Z.of_nat (length (skip ++ tok)) → m' !! a = ex_line !! a.
Proof.
  apply (strtok_r_spec ex_line 16 8 0 [108; 115; 32; 45; 97] [32]).
  - vm_compute. repeat split.
  - vm_compute. repeat split.
  - lia.
  - simpl. lia.
Defined.

(** ** Substrings *)

Lemma bytes_take m p l n : bytes m p l → bytes m p (take n l).
Proof. intros H. rewrite <- (take_drop n l) in H. by apply bytes_app in H as [? _]. Qed.

Lemma cstr_prefix m p l : cstr m p l → bytes m p l.
Proof. rewrite cstr_bytes, bytes_app. tauto. Qed.

Lemma strstr_loop_spec m p q l1 l2 : cstr m p l1 → cstr m q l2 → 0 < p → 0 < q →
  ∀ n i, (i + n + length l2 = length l1 + 1)%nat → ∃ r, strstr_loop p q (Z.of_nat (length l2)) (Z.of_nat i) n m = Ok (r, m) ∧
    (r = 0 ∧ (∀ j, (i ≤ j)%nat → ¬ l2 `prefix_of` drop j l1 ∨ (i + n ≤ j)%nat) ∨
     ∃ k, r = p + Z.of_nat k ∧ (i ≤ k < i + n)%nat ∧ l2 `prefix_of` drop k l1 ∧
       ∀ j, (i ≤ j < k)%nat → ¬ l2 `prefix_of` drop j l1).
Proof.
  intros H1 H2 Hp Hq. induction n as [|n IH]; intros i Hin; cbn [strstr_loop].
  { exists 0. split; [done|left]. split; [done|]. intros j Hj. right. lia. }
  set (l := take (length l2) (drop i l1)).
  assert (Hl : length l = length l2) by (unfold l; rewrite length_take_le; [done|rewrite length_drop; lia]).
  pose proof (cstr_drop m p l1 i ltac:(lia) H1) as Hd.
  pose proof (memcmp_spec m (p + Z.of_nat i) q l l2 (bytes_take _ _ _ _ (cstr_prefix _ _ _ Hd)) (cstr_prefix _ _ _ H2) Hl ltac:(lia) Hq) as E.
  rewrite Hl in E. rewrite (bind_ok _ _ _ _ _ E).
  assert (Hpre : lex l l2 = 0 ↔ l2 `prefix_of` drop i l1).
  { rewrite lex_eq. unfold l. split; [intros <-; apply prefix_take|].
    intros [k ->]. by rewrite take_app_length. }
  destruct (Z.eqb_spec (lex l l2) 0) as [Hz|Hz]; rewrite Hpre in Hz.
  - eexists. split; [done|right]. exists i. split_and!; [done|lia|lia|done|lia].
  - replace (Z.of_nat i + 1) with (Z.of_nat (S i)) by lia.
    destruct (IH (S i) ltac:(lia)) as (r & -> & [[-> Hr]|(k & -> & Hk & Hpk & Hmin)]); (eexists; split; [done|]).
    + left. split; [done|]. intros j Hj. destruct (decide (j = i)) as [->|]; [by left|].
      destruct (Hr j ltac:(lia)); [by left|right; lia].
    + right. exists k. split_and!; [done|lia|lia|done|]. intros j Hj. destruct (decide (j = i)) as [->|]; [done|].
      apply Hmin. lia.
Qed.

(** [strstr] finds the first occurrence of the second string in the first, and
    reports failure only when there is none. *)
Theorem strstr_spec m p q l1 l2 : cstr m p l1 → cstr m q l2 → 0 < p → 0 < q →
  Z.of_nat (length l1) < 2 ^ 32 → Z.of_nat (length l2) < 2 ^ 32 →
  ∃ r, strstr p q m = Ok (r, m) ∧
    (r = 0 ∧ (∀ j, ¬ l2 `prefix_of` drop j l1) ∨
     ∃ k, r = p + Z.of_nat k ∧ l2 `prefix_of` drop k l1 ∧ ∀ j, (j < k)%nat → ¬ l2 `prefix_of` drop j l1).
Proof.
  intros H1 H2 Hp Hq L1 L2. unfold strstr.
  rewrite (bind_ok _ _ _ _ _ (strlen_eq m p l1 H1 Hp L1)), (bind_ok _ _ _ _ _ (strlen_eq m q l2 H2 Hq L2)).
  assert (Hlong : ∀ j, (length l1 - length l2 < j)%nat ∨ (length l1 < length l2)%nat → l2 ≠ [] → ¬ l2 `prefix_of` drop j l1).
  { intros j Hj Hne [k Hk]. apply (f_equal length) in Hk. rewrite length_drop, length_app in Hk. destruct l2; [done|]. simpl in *. lia. }
  rewrite Z.geb_leb. destruct (Z.leb_spec (Z.of_nat (length l2)) (Z.of_nat (length l1))) as [Hle|Hgt].
  - destruct (strstr_loop_spec m p q l1 l2 H1 H2 Hp Hq (Z.to_nat (Z.of_nat (length l1) - Z.of_nat (length l2) + 1)) 0 ltac:(lia))
      as (r & E & [[-> Hr]|(k & -> & Hk & Hpk & Hmin)]); change (Z.of_nat 0) with 0 in E; (eexists; split; [exact E|]).
    + left. split; [done|]. intros j. destruct (Hr j ltac:(lia)) as [?|Hj]; [done|].
      destruct (decide (l2 = [])) as [->|Hne]; [|apply Hlong; [lia|done]].
      destruct (Hr O ltac:(lia)) as [H|]; [|simpl in *; lia]. destruct H. apply prefix_nil.
    + right. exists k. split_and!; [done|done|]. intros j Hj. apply Hmin. lia.
  - exists 0. split; [done|left]. split; [done|]. intros j. apply Hlong; [lia|]. intros ->. simpl in Hgt. lia.
Qed.

Lemma strstr_spec_witness : ∃ r, strstr 16 8 ex_line = Ok (r, ex_line) ∧
  (r = 0 ∧ (∀ j, ¬ [32] `prefix_of` drop j [108; 115; 32; 45; 97]) ∨
   ∃ k, r = 16 + Z.of_nat k ∧ [32] `prefix_of` drop k [108; 115; 32; 45; 97] ∧
     ∀ j, (j < k)%nat → ¬ [32] `prefix_of` drop j [108; 115; 32; 45; 97]).
Proof.
  apply (strstr_spec ex_line 16 8 [108; 115; 32; 45; 97] [32]); try lia; vm_compute; repeat split.
Defined.

(** ** Bounded copies *)

Lemma write_app m p l1 l2 : write m p (l1 ++ l2) = write (write m p l1) (p + Z.of_nat (length l1)) l2.
Proof.
  revert m p. induction l1 as [|x r IH]; intros m p; simpl; [by rewrite Z.add_0_r|].
  rewrite IH. f_equal. lia.
Qed.

Lemma cstr_write m p l : (∀ v, v ∈ l → 0 < v < 256) → cstr (write m p (l ++ [0])) p l.
Proof.
  intros Hr. apply cstr_bytes. split; [|intros H; apply Hr in H; lia]. apply bytes_write.
  intros v [Hv|Hv]%elem_of_app; [apply Hr in Hv; lia|]. apply list_elem_of_singleton in Hv as ->. lia.
Qed.

Lemma cstr_chars m p l v : cstr m p l → v ∈ l → 0 < v < 256.
Proof.
  revert p. induction l as [|x r IH]; intros p Hc Hv; [by apply elem_of_nil in Hv|]. destruct Hc as (_ & Hr & Hc).
  apply elem_of_cons in Hv as [->|Hv]; eauto.
Qed.

(** copies [l] and a terminator to [dst] *)
Lemma copy_terminated m dst src l : bytes m src l → writable m dst (Z.of_nat (length l) + 1) → 0 < dst → 0 < src →
  dst ≤ src ∨ src + Z.of_nat (length l) ≤ dst →
  (memcpy dst src (Z.of_nat (length l));; store (dst + Z.of_nat (length l)) 0) m = Ok (tt, write m dst (l ++ [0])).
Proof.
  intros Hb Hw H1 H2 Hd. rewrite (bind_ok _ _ _ _ _ (memcpy_spec m dst src l Hb ltac:(intros a Ha; apply Hw; lia) H1 H2 Hd)).
  rewrite write_app. simpl. apply store_eq; [|lia]. rewrite lookup_write_out by lia. apply Hw. lia.
Qed.

(** [strlcpy] copies at most [size - 1] characters, always terminates the copy,
    writes nowhere else, and returns the length of the source. *)
Theorem strlcpy_spec m dst src l size : cstr m src l → 0 < size < 2 ^ 32 → Z.of_nat (length l) < 2 ^ 32 →
  writable m dst size → 0 < dst → 0 < src →
  dst + size ≤ src ∨ src + Z.of_nat (length l) < dst →
  let copy := take (Z.to_nat (size - 1)) l in
  strlcpy dst src size m = Ok (Z.of_nat (length l), write m dst (copy ++ [0])) ∧
  cstr (write m dst (copy ++ [0])) dst copy ∧
  ∀ a, a < dst ∨ dst + size ≤ a → write m dst (copy ++ [0]) !! a = m !! a.
Proof.
  intros Hc Hs Hl Hw H1 H2 Hd copy.
  assert (Hlen : Z.of_nat (length copy) = if Z.of_nat (length l) <? size - 1 then Z.of_nat (length l) else size - 1).
  { unfold copy. rewrite length_take. destruct (Z.ltb_spec (Z.of_nat (length l)) (size - 1)); lia. }
  assert (Hlen2 : Z.of_nat (length copy) ≤ size - 1 ∧ (length copy ≤ length l)%nat).
  { unfold copy. rewrite length_take. lia. }
  split_and!.
  - unfold strlcpy. rewrite !assert_bind by by apply nz_true. rewrite (bind_ok _ _ _ _ _ (strlen_eq m src l Hc H2 Hl)).
    destruct (Z.ltb_spec 0 size); [|lia]. cbv zeta. rewrite <- Hlen.
    rewrite (bind_ok _ _ m tt (write m dst (copy ++ [0]))); [done|].
    apply copy_terminated; [by apply bytes_take, cstr_prefix|intros a Ha; apply Hw; lia|done|done|lia].
  - apply cstr_write. intros v Hv. eapply (cstr_chars m src l); [done|]. apply elem_of_take in Hv as (i & Hi & _). by eapply list_elem_of_lookup_2.
  - intros a Ha. apply lookup_write_out. rewrite length_app. simpl. lia.
Qed.

Lemma strlcpy_spec_witness :
  strlcpy 17 8 2 ex_line = Ok (1, write ex_line 17 [32; 0]) ∧ cstr (write ex_line 17 [32; 0]) 17 [32] ∧
  ∀ a, a < 17 ∨ 17 + 2 ≤ a → write ex_line 17 [32; 0] !! a = ex_line !! a.
Proof.
  apply (strlcpy_spec ex_line 17 8 [32] 2); simpl; try lia.
  - vm_compute. repeat split.
  - intros a Ha. assert (a = 17 ∨ a = 18) as [->| ->] by lia; vm_compute; eauto.
Defined.

Lemma strlcat_spec m dst src l1 l2 size : cstr m dst l1 → cstr m src l2 → 0 < size < 2 ^ 32 →
  Z.of_nat (length l1) < size → Z.of_nat (length l2) < 2 ^ 32 → writable m dst size → 0 < dst → 0 < src →
  dst + size ≤ src ∨ src + Z.of_nat (length l2) < dst →
  let copy := take (Z.to_nat (size - Z.of_nat (length l1) - 1)) l2 in
  ∃ m', strlcat dst src size m = Ok (u32 (Z.of_nat (length l2) + Z.of_nat (length l1)), m') ∧ cstr m' dst (l1 ++ copy).
Proof.
  intros Hc1 Hc2 Hs Hl1 Hl2 Hw H1 H2 Hd copy. set (n := size - Z.of_nat (length l1) - 1) in *.
  assert (Hlen : Z.of_nat (length copy) = if Z.of_nat (length l2) <? n then Z.of_nat (length l2) else n).
  { unfold copy. rewrite length_take. destruct (Z.ltb_spec (Z.of_nat (length l2)) n); lia. }
  assert (Hlen2 : Z.of_nat (length copy) ≤ n ∧ (length copy ≤ length l2)%nat) by (unfold copy; rewrite length_take; lia).
  exists (write m (dst + Z.of_nat (length l1)) (copy ++ [0])). split.
  - unfold strlcat. rewrite !assert_bind by by apply nz_true.
    rewrite (bind_ok _ _ _ _ _ (strlen_eq m src l2 Hc2 H2 Hl2)), (bind_ok _ _ _ _ _ (strlen_eq m dst l1 Hc1 H1 ltac:(lia))).
    destruct (Z.ltb_spec 0 size); [|lia]. destruct (Z.ltb_spec (Z.of_nat (length l1)) size); [|lia]. cbv zeta. simpl andb. cbv iota.
    fold n. rewrite <- Hlen.
    rewrite (bind_ok _ _ m tt (write m (dst + Z.of_nat (length l1)) (copy ++ [0]))); [done|].
    apply copy_terminated; [by apply bytes_take, cstr_prefix|intros a Ha; apply Hw; lia|lia|done|lia].
  - apply cstr_bytes in Hc1 as [Hb Hn]. apply bytes_app in Hb as [Hb _]. apply cstr_bytes. rewrite <- app_assoc. split.
    + apply bytes_app. split.
      * eapply bytes_ext; [|done]. intros a Ha. apply lookup_write_out. lia.
      * apply bytes_write. intros v [Hv|Hv]%elem_of_app.
        -- apply elem_of_take in Hv as (i & Hi & _). eapply (cstr_chars m src l2) in Hc2; [|by eapply list_elem_of_lookup_2]. lia.
        -- apply list_elem_of_singleton in Hv as ->. lia.
    + rewrite not_elem_of_app. split; [done|]. intros Hv. apply elem_of_take in Hv as (i & Hi & _).
      eapply (cstr_chars m src l2) in Hc2; [|by eapply list_elem_of_lookup_2]. lia.
Qed.

(** ** Filling *)

Lemma memset_spec m dst v n : writable m dst (Z.of_nat n) → 0 < dst →
  memset dst v (Z.of_nat n) m = Ok (dst, write m dst (replicate n (u8 v))).
Proof.
  intros Hw Hd. unfold memset. rewrite assert_bind by by apply nonnull_true. rewrite Nat2Z.id.
  assert (E : ∀ m d, writable m d (Z.of_nat n) → memset_loop d v n m = Ok (tt, write m d (replicate n (u8 v)))).
  { clear. induction n as [|n IH]; intros m d Hw; [done|]. cbn [memset_loop].
    destruct (Hw d ltac:(lia)) as [x Hx]. rewrite (bind_ok (store d v) _ m tt (<[d := u8 v]> m)).
    - apply IH. intros a Ha. destruct (decide (a = d)) as [->|]; [rewrite lookup_insert_eq; eauto|].
      rewrite lookup_insert_ne by done. apply Hw. lia.
    - unfold store. by rewrite Hx. }
  by rewrite (bind_ok _ _ _ _ _ (E m dst Hw)).
Qed.

Lemma memchr_spec m p l c : bytes m p l → 0 < p → 0 ≤ c < 256 →
  memchr p c (Z.of_nat (length l)) m = Ok (from_option (λ i, p + Z.of_nat i) 0 (index_of c l), m).
Proof.
  intros Hb Hp Hc. unfold memchr. rewrite assert_bind by by apply nonnull_true. rewrite Nat2Z.id, u8_small by lia.
  clear Hp. revert p Hb. induction l as [|x r IH]; intros p Hb; [done|]. simpl in *. destruct Hb as (Hx & _ & Hb).
  rewrite (bind_ok _ _ _ _ _ (load_eq m p x Hx)). destruct (Z.eqb_spec x c); simpl; [by rewrite Z.add_0_r|].
  rewrite (IH (p + 1) Hb). do 2 f_equal. destruct (index_of c r); simpl; lia.
Qed.

(** [strnlen] looks at a character before it looks at the bound: given a block of
    exactly [maxlen] characters without a terminator it reads the byte after it. *)
Theorem strnlen_reads_past m p l : bytes m p l → (0 ∉ l) → m !! (p + Z.of_nat (length l)) = None →
  strnlen p (Z.of_nat (length l)) m = Err Fault.
Proof.
  intros Hb Hn Hend. unfold strnlen. rewrite (bind_ok fuel _ m (S (size m)) m eq_refl).
  assert (H : ∀ n j r, bytes m (p + Z.of_nat j) r → (0 ∉ r) → (length r < n)%nat → (j + length r = length l)%nat →
    strnlen_loop n p (Z.of_nat (length l)) (Z.of_nat j) m = Err Fault).
  { induction n as [|n IH]; intros j [|x r] Hr Hnr Hn' Hj; try (simpl in Hn'; lia); cbn [strnlen_loop]; simpl in *.
    - rewrite Nat.add_0_r in Hj. rewrite Hj. unfold mbind, M_bind, load. by rewrite Hend.
    - destruct Hr as (Hx & Hrx & Hr). apply not_elem_of_cons in Hnr as [Hx0 Hnr].
      rewrite (bind_ok _ _ _ _ _ (load_eq m _ x Hx)). destruct (Z.eqb_spec x 0); [congruence|]. simpl.
      destruct (Z.ltb_spec (Z.of_nat j) (Z.of_nat (length l))); [|lia].
      replace (Z.of_nat j + 1) with (Z.of_nat (S j)) by lia. apply (IH (S j) r); [|done|lia|lia].
      by replace (p + Z.of_nat (S j)) with (p + Z.of_nat j + 1) by lia. }
  change 0 with (Z.of_nat 0) at 1. apply (H (S (size m)) O l); [by rewrite Z.add_0_r|done| |done].
  apply bytes_fuel in Hb. lia.
Qed.

Lemma strnlen_reads_past_witness : strnlen 1 2 (write ∅ 1 [104; 105]) = Err Fault.
Proof.
  apply (strnlen_reads_past (write ∅ 1 [104; 105]) 1 [104; 105]).
  - vm_compute. repeat split; discriminate.
  - intros [H|[H|H%elem_of_nil]%elem_of_cons]%elem_of_cons; [discriminate H|discriminate H|exact H].
  - vm_compute. reflexivity.
Defined.
