(* ===== verification/Words.v ===== *)
(** Words and blocks in a memory of bytes: 32-bit words in the byte order of the i386
    and blocks of bytes, reading and writing them, and what a write leaves unchanged. *)

From S2P Require Import Prelude CString.

(** * Words of memory *)

Definition load32 (p : Z) : B Z :=
  b0 ← load p; b1 ← load (p + 1); b2 ← load (p + 2); b3 ← load (p + 3);
  mret (u8 b0 + 2 ^ 8 * u8 b1 + 2 ^ 16 * u8 b2 + 2 ^ 24 * u8 b3).

Definition store32 (p v : Z) : B unit :=
  store p (u8 v);; store (p + 1) (u8 (v / 2 ^ 8));; store (p + 2) (u8 (v / 2 ^ 16));;
  store (p + 3) (u8 (v / 2 ^ 24)).

(** * Words *)

Definition byte_at (m : mem) (a : Z) : Z := u8 (default 0 (m !! a)).

Definition word (m : mem) (a : Z) : Z :=
  byte_at m a + 2 ^ 8 * byte_at m (a + 1) + 2 ^ 16 * byte_at m (a + 2) + 2 ^ 24 * byte_at m (a + 3).

Definition wr (m : mem) (a v : Z) : mem :=
  write m a [u8 v; u8 (v / 2 ^ 8); u8 (v / 2 ^ 16); u8 (v / 2 ^ 24)].

Lemma word_range m a : 0 ≤ word m a < 2 ^ 32.
Proof.
  unfold word, byte_at. pose proof (u8_range (default 0 (m !! a))). pose proof (u8_range (default 0 (m !! (a + 1)))).
  pose proof (u8_range (default 0 (m !! (a + 2)))). pose proof (u8_range (default 0 (m !! (a + 3)))). lia.
Qed.

Lemma word_ext m m' a : (∀ x, a ≤ x < a + 4 → m' !! x = m !! x) → word m' a = word m a.
Proof. intros H. unfold word, byte_at. by rewrite !H by lia. Qed.

Lemma word_wr m a v : 0 ≤ v < 2 ^ 32 → word (wr m a v) a = v.
Proof.
  intros Hv. unfold word, byte_at, wr. rewrite !lookup_write. cbn [length].
  rewrite !decide_True by lia. replace (a - a) with 0 by lia. replace (a + 1 - a) with 1 by lia.
  replace (a + 2 - a) with 2 by lia. replace (a + 3 - a) with 3 by lia. simpl.
  unfold u8. rewrite !Z.mod_mod by done. change (2 ^ 8) with 256. change (2 ^ 16) with (256 * 256).
  change (2 ^ 24) with (256 * 256 * 256). rewrite <- !Z.div_div by done. pose proof (Z.div_mod v 256).
  pose proof (Z.div_mod (v / 256) 256). pose proof (Z.div_mod (v / 256 / 256) 256).
  rewrite (Z.mod_small (v / 256 / 256 / 256)); [lia|].
  split; [repeat apply Z.div_pos; lia|]. repeat apply Z.div_lt_upper_bound; lia.
Qed.

Lemma lookup_wr_out m a v x : ¬ (a ≤ x < a + 4) → wr m a v !! x = m !! x.
Proof. intros H. apply lookup_write_out. cbn [length]. lia. Qed.

Lemma word_wr_ne m a v b : a mod 4 = 0 → b mod 4 = 0 → a ≠ b → word (wr m a v) b = word m b.
Proof.
  intros Ha Hb Hne. apply word_ext. intros x Hx. apply lookup_wr_out.
  pose proof (Z.div_mod a 4). pose proof (Z.div_mod b 4). lia.
Qed.

Lemma writable_wr m a v p n : writable m p n → writable (wr m a v) p n.
Proof. intros H x Hx. by apply write_is_Some, H. Qed.

Lemma load32_eq m a : writable m a 4 → load32 a m = Ok (word m a, m).
Proof.
  intros H. assert (L : ∀ x, a ≤ x < a + 4 → load x m = Ok (default 0 (m !! x), m)).
  { intros x Hx. destruct (H x Hx) as [v E]. rewrite (load_eq m x v E). by rewrite E. }
  unfold load32. by do 4 (erewrite bind_ok by (apply L; lia)).
Qed.

Lemma store32_eq m a v : writable m a 4 → store32 a v m = Ok (tt, wr m a v).
Proof.
  intros H.
  assert (S1 : ∀ m' x b, (∀ y, is_Some (m !! y) → is_Some (m' !! y)) → a ≤ x < a + 4 →
            store x (u8 b) m' = Ok (tt, <[x := u8 b]> m')).
  { intros m' x b Hm Hx. apply store_eq; [by apply Hm, H|apply u8_range]. }
  assert (S2 : ∀ m' x (b : Z), (∀ y, is_Some (m !! y) → is_Some (m' !! y)) →
            ∀ y, is_Some (m !! y) → is_Some ((<[x := b]> m' : mem) !! y)).
  { intros m' x b Hm y Hy. rewrite lookup_insert_is_Some'. right. by apply Hm. }
  unfold store32. rewrite (bind_ok _ _ _ _ _ (S1 m a v (λ _ x, x) ltac:(lia))).
  erewrite bind_ok by (apply S1; [by apply S2|lia]). erewrite bind_ok by (apply S1; [by do 2 apply S2|lia]).
  rewrite S1 by (by do 3 apply S2) || lia. unfold wr. cbn [write].
  replace (a + 1 + 1) with (a + 2) by lia. by replace (a + 2 + 1) with (a + 3) by lia.
Qed.

(** * Blocks of bytes *)

Fixpoint put_bytes (p : Z) (l : list Z) : B unit :=
  match l with [] => mret tt | v :: r => store p v;; put_bytes (p + 1) r end.

Fixpoint get_bytes (p : Z) (n : nat) : B (list Z) :=
  match n with O => mret [] | S n => v ← load p; r ← get_bytes (p + 1) n; mret (v :: r) end.

Lemma write_insert_below m p l v : write (<[p := v]> m) (p + 1) l = <[p := v]> (write m (p + 1) l).
Proof.
  apply map_eq. intros a. destruct (decide (a = p)) as [->|Hne].
  - rewrite lookup_write_out by lia. by rewrite !lookup_insert_eq.
  - rewrite lookup_insert_ne by done. rewrite !lookup_write. destruct (decide _); [done|]. by rewrite lookup_insert_ne.
Qed.

(** a block written right below another *)
Lemma write_below m p k l : write (write m p l) (p - Z.of_nat (length k)) k = write m (p - Z.of_nat (length k)) (k ++ l).
Proof.
  rewrite write_app. replace (p - Z.of_nat (length k) + Z.of_nat (length k)) with p by lia.
  apply map_eq. intros a. rewrite !lookup_write.
  destruct (decide (p - Z.of_nat (length k) ≤ a < p - Z.of_nat (length k) + Z.of_nat (length k)));
    destruct (decide (p ≤ a < p + Z.of_nat (length l))); try lia; done.
Qed.

Lemma put_bytes_spec m p l : writable m p (Z.of_nat (length l)) → (∀ v, v ∈ l → 0 ≤ v < 256) →
  put_bytes p l m = Ok (tt, write m p l).
Proof.
  revert m p. induction l as [|v l IH]; intros m p Hw Hv; [done|]. cbn [put_bytes write].
  rewrite (bind_ok _ _ _ _ _ (store_eq m p v ltac:(apply Hw; simpl; lia) ltac:(apply Hv; left))).
  apply IH; [|intros x Hx; apply Hv; by right]. intros a Ha. apply lookup_insert_is_Some'. right. apply Hw. simpl. lia.
Qed.

Lemma get_bytes_spec m p l : bytes m p l → get_bytes p (length l) m = Ok (l, m).
Proof.
  revert p. induction l as [|v l IH]; intros p Hb; [done|]. destruct Hb as (Hv & _ & Hb). cbn [length get_bytes].
  rewrite (bind_ok _ _ _ _ _ (load_eq m p v Hv)). by rewrite (bind_ok _ _ _ _ _ (IH _ Hb)).
Qed.
