(* ===== verification/CStdlib.v ===== *)
(** lib/stdlib.c, lib/ctype.h: parsing integers, heap sort, binary search.

    An array of [cnt] elements of [size] bytes is the list of its elements, each
    the list of its bytes; indexes are those of the source (heap indexes start at
    1).  The loop of [heapify] ends because the index it goes on with grows, that
    of [binary_search] because the range shrinks: both run on fuel that exceeds
    the number of elements. *)

From S2P Require Import Prelude CString.

(** * Characters (lib/ctype.h) *)

Definition isdigit (c : Z) : bool := (48 <=? c) && (c <=? 57).
Definition islower (c : Z) : bool := (97 <=? c) && (c <=? 122).
Definition isupper (c : Z) : bool := (65 <=? c) && (c <=? 90).
Definition isalpha (c : Z) : bool := islower c || isupper c.
Definition isalnum (c : Z) : bool := isalpha c || isdigit c.
Definition isxdigit (c : Z) : bool := isdigit c || ((97 <=? c) && (c <=? 102)) || ((65 <=? c) && (c <=? 70)).
Definition isspace (c : Z) : bool := (c =? 32) || (c =? 12) || (c =? 10) || (c =? 13) || (c =? 9) || (c =? 11).
Definition isprint (c : Z) : bool := (32 <=? c) && (c <? 127).
Definition tolower (c : Z) : Z := if isupper c then c - 65 + 97 else c.
Definition toupper (c : Z) : Z := if islower c then c - 97 + 65 else c.

(** * [atoi] *)

Fixpoint skip_space (n : nat) (s : Z) : B Z :=
  match n with
  | O => fail NoFuel
  | S n' => c ← load s; if isspace c then skip_space n' (s + 1) else mret s
  end.

Fixpoint parse_digits (n : nat) (s value : Z) : B Z :=
  match n with
  | O => fail NoFuel
  | S n' => c ← load s;
      if isdigit c then parse_digits n' (s + 1) (s32 (s32 (value * 10) - (c - 48))) else mret value
  end.

Definition atoi (s : Z) : B Z :=
  assert (negb (s =? 0));;
  n ← fuel; s ← skip_space n s;
  c ← load s;
  let negative := negb (c =? 43) && (c =? 45) in
  let s := if (c =? 43) || (c =? 45) then s + 1 else s in
  n ← fuel; value ← parse_digits n s 0;
  mret (if negative then value else s32 (- value)).

(** * Sorting and searching *)

Abbreviation array := (list (list Z)).

Section sort.
Context (size : Z) (compare : list Z → list Z → Z).

Definition get_byte (a : array) (idx i : Z) : outcome Z :=
  e ← ofault (a !! Z.to_nat (idx - 1)); ofault (e !! Z.to_nat i).

Definition set_byte (a : array) (idx i v : Z) : outcome array :=
  e ← ofault (a !! Z.to_nat (idx - 1)); _ ← ofault (e !! Z.to_nat i);
  Ok (<[Z.to_nat (idx - 1) := <[Z.to_nat i := v]> e]> a).

(** [n] turns of the loop of [do_swap], from [i] *)
Fixpoint swap_loop (a : array) (a_idx b_idx i : Z) (n : nat) : outcome array :=
  match n with
  | O => Ok a
  | S n' =>
      t ← get_byte a a_idx i;
      u ← get_byte a b_idx i;
      a ← set_byte a a_idx i u;
      a ← set_byte a b_idx i t;
      swap_loop a a_idx b_idx (i + 1) n'
  end.

Definition do_swap (a : array) (a_idx b_idx : Z) : outcome array := swap_loop a a_idx b_idx 0 (Z.to_nat size).

Definition do_compare (a : array) (a_idx b_idx : Z) : outcome Z :=
  x ← ofault (a !! Z.to_nat (a_idx - 1));
  y ← ofault (a !! Z.to_nat (b_idx - 1));
  Ok (compare x y).

(** the index of the largest element among [i] and its children *)
Definition max_child (a : array) (i cnt : Z) : outcome Z :=
  let left := u32 (2 * i) in
  let right := u32 (2 * i + 1) in
  max ← (if left <=? cnt then c ← do_compare a left i; Ok (if c >? 0 then left else i) else Ok i);
  if right <=? cnt then c ← do_compare a right max; Ok (if c >? 0 then right else max) else Ok max.

Fixpoint heapify (n : nat) (a : array) (i cnt : Z) : outcome array :=
  match n with
  | O => Err NoFuel
  | S n' =>
      max ← max_child a i cnt;
      if max =? i then Ok a else a' ← do_swap a i max; heapify n' a' max cnt
  end.

(** [for (i = cnt / 2; i > 0; i--)] *)
Fixpoint build_heap (a : array) (cnt : Z) (i : nat) : outcome array :=
  match i with
  | O => Ok a
  | S i' => a' ← heapify (S (Z.to_nat cnt)) a (Z.of_nat i) cnt; build_heap a' cnt i'
  end.

(** [for (i = cnt; i > 1; i--)] *)
Fixpoint sort_heap (a : array) (i : nat) : outcome array :=
  match i with
  | O | 1%nat => Ok a
  | S i' =>
      a ← do_swap a 1 (Z.of_nat i);
      a ← heapify (S i) a 1 (Z.of_nat i - 1);
      sort_heap a i'
  end.

Definition sort (a : array) (cnt : Z) : outcome array :=
  _ ← oassert (0 <? size);
  a ← build_heap a cnt (Z.to_nat (cnt / 2));
  sort_heap a (Z.to_nat cnt).

Definition qsort (a : array) (cnt : Z) : outcome array := sort a cnt.

(** [first] and [last] are offsets from the start of the array; the result is the
    offset of a match *)
Fixpoint search_loop (n : nat) (key : list Z) (a : array) (first last : Z) : outcome (option Z) :=
  match n with
  | O => Err NoFuel
  | S n' =>
      if first <? last then
        let range := (last - first) / size in
        let middle := first + range / 2 * size in
        e ← ofault (a !! Z.to_nat (middle / size));
        let cmp := compare key e in
        if cmp <? 0 then search_loop n' key a first middle
        else if cmp >? 0 then search_loop n' key a (middle + size) last
        else Ok (Some middle)
      else Ok None
  end.

Definition binary_search (key : list Z) (a : array) (cnt : Z) : outcome (option Z) :=
  search_loop (S (Z.to_nat cnt)) key a 0 (size * cnt).

Definition bsearch (key : list Z) (a : array) (cnt : Z) : outcome (option Z) := binary_search key a cnt.
End sort.

(** * Heap sort *)

(** what the comments ask of [compare]: a strcmp()-type result for a total
    preorder *)
Class StrcmpLike (compare : list Z → list Z → Z) : Prop := {
  cmp_anti : ∀ x y, compare x y < 0 ↔ compare y x > 0;
  cmp_trans : ∀ x y z, compare x y ≤ 0 → compare y z ≤ 0 → compare x z ≤ 0
}.

Lemma swap_perm {A} (l : list A) i j x y : l !! i = Some x → l !! j = Some y → <[i := y]> (<[j := x]> l) ≡ₚ l.
Proof.
  intros Hi Hj. apply Permutation_inj. split; [by rewrite !length_insert|].
  exists (λ k, if decide (k = i) then j else if decide (k = j) then i else k). split.
  - intros k1 k2. repeat destruct (decide _); congruence.
  - intros k. assert (i < length l)%nat by (by eapply lookup_lt_Some). assert (j < length l)%nat by (by eapply lookup_lt_Some).
    destruct (decide (k = i)) as [->|]; [rewrite list_lookup_insert_eq by (rewrite length_insert; lia); done|].
    rewrite list_lookup_insert_ne by done. destruct (decide (k = j)) as [->|]; [by rewrite list_lookup_insert_eq by lia|].
    by rewrite list_lookup_insert_ne.
Qed.

Section heap.
Context (size : Z) (compare : list Z → list Z → Z) `{!StrcmpLike compare} (Hsize : 0 < size).

Definition le (x y : list Z) : Prop := compare x y ≤ 0.

Lemma le_total x y : le x y ∨ le y x.
Proof using Hsize StrcmpLike0. unfold le. pose proof (cmp_anti y x). lia. Qed.

Lemma le_refl x : le x x.
Proof using Hsize StrcmpLike0. by destruct (le_total x x). Qed.

Lemma gt_le x y : compare x y > 0 → le y x.
Proof using Hsize StrcmpLike0. unfold le. pose proof (cmp_anti y x). lia. Qed.

Lemma le_trans x y z : le x y → le y z → le x z.
Proof using Hsize StrcmpLike0. apply cmp_trans. Qed.

(** element [i], from 1 *)
Definition at_ (a : array) (i : Z) : list Z := a !!! Z.to_nat (i - 1).

Definition array_wf (a : array) (cnt : Z) : Prop :=
  Z.of_nat (length a) = cnt ∧ ∀ e, e ∈ a → Z.of_nat (length e) = size.

Lemma at_lookup a cnt i : array_wf a cnt → 1 ≤ i ≤ cnt →
  a !! Z.to_nat (i - 1) = Some (at_ a i) ∧ Z.of_nat (length (at_ a i)) = size.
Proof using.
  intros [Hl He] Hi. destruct (lookup_lt_is_Some_2 a (Z.to_nat (i - 1))) as [e E]; [lia|].
  unfold at_. rewrite (list_lookup_total_correct _ _ _ E). split; [done|]. apply He. by eapply list_elem_of_lookup_2.
Qed.

(** ** Swapping *)

Definition swapped (a : array) (i j : Z) : array :=
  <[Z.to_nat (j - 1) := at_ a i]> (<[Z.to_nat (i - 1) := at_ a j]> a).

(** the first [k] bytes of [x] replaced by those of [y] *)
Definition mixed (k : nat) (x y : list Z) : list Z := take k y ++ drop k x.

Lemma mixed_set k x y v : length x = length y → y !! k = Some v → <[k := v]> (mixed k x y) = mixed (S k) x y.
Proof using.
  intros Hl Hv. unfold mixed. assert (k < length y)%nat by (by eapply lookup_lt_Some).
  rewrite (take_S_r y k v Hv), insert_app_r_alt, length_take_le by (rewrite ?length_take_le; lia).
  rewrite Nat.sub_diag. destruct (drop k x) as [|z r] eqn:E.
  { apply (f_equal length) in E. rewrite length_drop in E. simpl in E. lia. }
  simpl. rewrite <- app_assoc. simpl. do 2 f_equal.
  replace (S k) with (k + 1)%nat by lia. rewrite <- drop_drop, E. done.
Qed.

Lemma mixed_get k x y : (k < length x)%nat → (k ≤ length y)%nat → mixed k x y !! k = x !! k.
Proof using.
  intros Hx Hy. unfold mixed. rewrite lookup_app_r; rewrite length_take_le by lia; [|lia].
  rewrite Nat.sub_diag, lookup_drop. f_equal. lia.
Qed.

Lemma swap_loop_spec a p q x y : p ≠ q → a !! Z.to_nat (p - 1) = Some x → a !! Z.to_nat (q - 1) = Some y →
  1 ≤ p → 1 ≤ q → length x = length y →
  ∀ n k, (k + n = length x)%nat →
  swap_loop (<[Z.to_nat (q - 1) := mixed k y x]> (<[Z.to_nat (p - 1) := mixed k x y]> a)) p q (Z.of_nat k) n =
    Ok (<[Z.to_nat (q - 1) := x]> (<[Z.to_nat (p - 1) := y]> a)).
Proof using.
  intros Hne Hx Hy Hp Hq Hl. set (pi := Z.to_nat (p - 1)). set (qi := Z.to_nat (q - 1)).
  assert (Hpq : pi ≠ qi) by (unfold pi, qi; lia).
  assert (Hpl : (pi < length a)%nat) by (by eapply lookup_lt_Some). assert (Hql : (qi < length a)%nat) by (by eapply lookup_lt_Some).
  induction n as [|n IH]; intros k Hk.
  { cbn [swap_loop]. unfold mixed. by rewrite !take_ge, !drop_ge, !app_nil_r by lia. }
  destruct (lookup_lt_is_Some_2 x k ltac:(lia)) as [u Hu]. destruct (lookup_lt_is_Some_2 y k ltac:(lia)) as [w Hw].
  cbn [swap_loop]. unfold get_byte, set_byte. fold pi qi. rewrite Nat2Z.id.
  rewrite (list_lookup_insert_ne _ qi pi), (list_lookup_insert_eq a pi) by done. simpl.
  rewrite (mixed_get k x y), Hu by lia. simpl.
  rewrite (list_lookup_insert_eq _ qi) by (rewrite length_insert; lia). simpl. rewrite (mixed_get k y x), Hw by lia. simpl.
  rewrite (list_insert_insert_ne _ pi qi), list_insert_insert_eq by done. rewrite (mixed_set k x y w) by done.
  rewrite (list_lookup_insert_eq _ qi) by (rewrite length_insert; lia). simpl. rewrite (mixed_get k y x), Hw by lia. simpl.
  rewrite list_insert_insert_eq, (mixed_set k y x u) by done.
  replace (Z.of_nat k + 1) with (Z.of_nat (S k)) by lia. apply IH. lia.
Qed.

Lemma do_swap_spec a cnt i j : array_wf a cnt → 1 ≤ i ≤ cnt → 1 ≤ j ≤ cnt → i ≠ j →
  do_swap size a i j = Ok (swapped a i j) ∧ array_wf (swapped a i j) cnt ∧ swapped a i j ≡ₚ a ∧
  ∀ k, 1 ≤ k → at_ (swapped a i j) k = if k =? i then at_ a j else if k =? j then at_ a i else at_ a k.
Proof using Hsize.
  intros Hwf Hi Hj Hne. destruct (at_lookup a cnt i Hwf Hi) as [Ei Li]. destruct (at_lookup a cnt j Hwf Hj) as [Ej Lj].
  pose proof Hwf as [Hlen He]. split_and!.
  - unfold do_swap. pose proof (swap_loop_spec a i j _ _ Hne Ei Ej ltac:(lia) ltac:(lia) ltac:(lia) (Z.to_nat size) 0 ltac:(lia)) as E.
    unfold mixed in E. simpl in E. rewrite !drop_0 in E. rewrite (list_insert_id a) in E by done.
    rewrite (list_insert_id a) in E by done. exact E.
  - split; [unfold swapped; by rewrite !length_insert|].
    intros e Hin. apply list_elem_of_lookup in Hin as [k Hk]. unfold swapped in Hk.
    apply list_lookup_insert_Some in Hk as [(_ & <- & _)|[_ Hk]]; [done|].
    apply list_lookup_insert_Some in Hk as [(_ & <- & _)|[_ Hk]]; [done|]. apply He. by eapply list_elem_of_lookup_2.
  - unfold swapped. by apply swap_perm.
  - intros k Hk. unfold at_ at 1, swapped. destruct (Z.eqb_spec k i) as [->|]; [|destruct (Z.eqb_spec k j) as [->|]].
    + rewrite list_lookup_total_insert_ne by lia. by rewrite list_lookup_total_insert_eq by lia.
    + by rewrite list_lookup_total_insert_eq by (rewrite length_insert; lia).
    + by rewrite !list_lookup_total_insert_ne by lia.
Qed.

(** ** Sifting down *)

Definition heap_from (a : array) (lo n : Z) : Prop :=
  ∀ j, 2 ≤ j ≤ n → lo ≤ j / 2 → le (at_ a j) (at_ a (j / 2)).

(** a heap but for element [i], which may be smaller than its children *)
Definition heap_but (a : array) (lo n i : Z) : Prop :=
  (∀ j, 2 ≤ j ≤ n → lo ≤ j / 2 → j / 2 ≠ i → le (at_ a j) (at_ a (j / 2))) ∧
  (∀ j, 2 ≤ j ≤ n → j / 2 = i → lo ≤ i / 2 → le (at_ a j) (at_ a (i / 2))).

Lemma half_double j i : j / 2 = i ↔ j = 2 * i ∨ j = 2 * i + 1.
Proof using. pose proof (Z.div_mod j 2). pose proof (Z.mod_pos_bound j 2). lia. Qed.

Lemma do_compare_eq a cnt i j : array_wf a cnt → 1 ≤ i ≤ cnt → 1 ≤ j ≤ cnt →
  do_compare compare a i j = Ok (compare (at_ a i) (at_ a j)).
Proof using.
  intros Hwf Hi Hj. unfold do_compare. destruct (at_lookup a cnt i Hwf Hi) as [-> _].
  by destruct (at_lookup a cnt j Hwf Hj) as [-> _].
Qed.

Lemma max_child_spec a cnt n i : array_wf a cnt → 1 ≤ i ≤ n → n ≤ cnt → cnt < 2 ^ 31 - 1 →
  ∃ mx, max_child compare a i n = Ok mx ∧ (mx = i ∨ (mx = 2 * i ∨ mx = 2 * i + 1) ∧ mx ≤ n) ∧
    le (at_ a i) (at_ a mx) ∧ ∀ j, 2 ≤ j ≤ n → j / 2 = i → le (at_ a j) (at_ a mx).
Proof using Hsize StrcmpLike0.
  intros Hwf Hi Hn Hc. unfold max_child. rewrite !u32_small by lia.
  assert (∃ m1, (if 2 * i <=? n then c ← do_compare compare a (2 * i) i; Ok (if c >? 0 then 2 * i else i) else Ok i) = Ok m1 ∧
    (m1 = i ∨ m1 = 2 * i ∧ m1 ≤ n) ∧ le (at_ a i) (at_ a m1) ∧ (2 * i ≤ n → le (at_ a (2 * i)) (at_ a m1))) as (m1 & E1 & Hm1 & Hi1 & Hl1).
  { destruct (Z.leb_spec (2 * i) n); [|exists i; split_and!; [done|by left|apply le_refl|lia]].
    rewrite (do_compare_eq a cnt) by (done || lia). simpl. rewrite Z.gtb_ltb. destruct (Z.ltb_spec 0 (compare (at_ a (2 * i)) (at_ a i))).
    - exists (2 * i). split_and!; [done|auto|apply gt_le; lia|intros _; apply le_refl].
    - exists i. split_and!; [done|by left|apply le_refl|done]. }
  rewrite E1. simpl. destruct (Z.leb_spec (2 * i + 1) n).
  - rewrite (do_compare_eq a cnt) by (done || lia). simpl. rewrite Z.gtb_ltb.
    destruct (Z.ltb_spec 0 (compare (at_ a (2 * i + 1)) (at_ a m1))) as [Hgt|Hle].
    + assert (Hm : le (at_ a m1) (at_ a (2 * i + 1))) by (apply gt_le; lia).
      exists (2 * i + 1). split_and!; [done|right; lia|by eapply le_trans|]. intros j Hj [->| ->]%half_double; [|apply le_refl].
      eapply le_trans; [apply Hl1; lia|done].
    + exists m1. split_and!; [done|lia|done|]. intros j Hj [->| ->]%half_double; [apply Hl1; lia|done].
  - exists m1. split_and!; [done|lia|done|]. intros j Hj [->| ->]%half_double; [apply Hl1; lia|lia].
Qed.

(** one step down *)
Lemma heap_but_down a cnt lo n i mx : array_wf a cnt → 1 ≤ lo ≤ i → i ≤ n → n ≤ cnt →
  (mx = 2 * i ∨ mx = 2 * i + 1) → mx ≤ n → le (at_ a i) (at_ a mx) →
  (∀ j, 2 ≤ j ≤ n → j / 2 = i → le (at_ a j) (at_ a mx)) →
  heap_but a lo n i → heap_but (swapped a i mx) lo n mx.
Proof using Hsize.
  intros Hwf Hlo Hi Hn Hmx Hmn Hle Hch [H1 H2].
  assert (Hmi : mx / 2 = i) by by apply half_double.
  destruct (do_swap_spec a cnt i mx Hwf ltac:(lia) ltac:(lia) ltac:(lia)) as (_ & _ & _ & Hat). split.
  - intros j Hj Hlj Hjm. rewrite !Hat by lia.
    assert (Hhalf : 0 ≤ j / 2 < j) by (pose proof (half_double j (j / 2)); lia).
    destruct (Z.eqb_spec j i) as [->|Hji].
    + destruct (Z.eqb_spec (i / 2) i); [lia|]. destruct (Z.eqb_spec (i / 2) mx); [lia|]. apply H2; [lia|done|done].
    + destruct (Z.eqb_spec j mx) as [->|Hjx].
      * rewrite Hmi, Z.eqb_refl. done.
      * destruct (Z.eqb_spec (j / 2) i) as [E|]; [by apply Hch|]. destruct (Z.eqb_spec (j / 2) mx); [done|]. by apply H1.
  - intros j Hj Hjm Hlm. rewrite Hmi in *. rewrite !Hat by lia. rewrite Z.eqb_refl.
    assert (j = 2 * mx ∨ j = 2 * mx + 1) by by apply half_double.
    destruct (Z.eqb_spec j i); [lia|]. destruct (Z.eqb_spec j mx); [lia|].
    rewrite <- Hjm. apply H1; [lia|lia|lia].
Qed.

Lemma heapify_spec fuel : ∀ a cnt lo n i, array_wf a cnt → 1 ≤ lo ≤ i → i ≤ n → n ≤ cnt → cnt < 2 ^ 31 - 1 →
  n - i < Z.of_nat fuel → heap_but a lo n i →
  ∃ a', heapify size compare fuel a i n = Ok a' ∧ array_wf a' cnt ∧ a' ≡ₚ a ∧ heap_from a' lo n ∧
    (∀ k, n < k → at_ a' k = at_ a k) ∧
    ∀ P : list Z → Prop, (∀ k, 1 ≤ k ≤ n → P (at_ a k)) → ∀ k, 1 ≤ k ≤ n → P (at_ a' k).
Proof using Hsize StrcmpLike0.
  induction fuel as [|f IH]; intros a cnt lo n i Hwf Hlo Hi Hn Hc Hf Hb; [lia|]. cbn [heapify].
  destruct (max_child_spec a cnt n i Hwf ltac:(lia) Hn Hc) as (mx & -> & Hmx & Hle & Hch). simpl.
  destruct (Z.eqb_spec mx i) as [->|Hne].
  { exists a. split_and!; [done..| |done|auto]. intros j Hj Hlj.
    destruct (decide (j / 2 = i)) as [E|]; [rewrite E; by apply Hch|by apply Hb]. }
  destruct Hmx as [?|[Hmx Hmn]]; [done|].
  destruct (do_swap_spec a cnt i mx Hwf ltac:(lia) ltac:(lia) ltac:(lia)) as (E & Hwf1 & Hperm & Hat). rewrite E. simpl.
  destruct (IH (swapped a i mx) cnt lo n mx Hwf1) as (a' & -> & Hwf' & Hp' & Hh & Hout & HP); try lia.
  { by apply (heap_but_down a cnt). }
  exists a'. split_and!; [done|done|by rewrite Hp'|done| |].
  - intros k Hk. rewrite Hout, Hat by lia. destruct (Z.eqb_spec k i); [lia|]. destruct (Z.eqb_spec k mx); [lia|done].
  - intros P HPa. apply HP. intros k Hk. rewrite Hat by lia.
    destruct (k =? i); [apply HPa; lia|]. destruct (k =? mx); apply HPa; lia.
Qed.

(** ** Sorting *)

Lemma build_heap_spec n : ∀ a cnt, array_wf a cnt → cnt < 2 ^ 31 - 1 → 2 * Z.of_nat n ≤ cnt →
  heap_from a (Z.of_nat n + 1) cnt →
  ∃ a', build_heap size compare a cnt n = Ok a' ∧ array_wf a' cnt ∧ a' ≡ₚ a ∧ heap_from a' 1 cnt.
Proof using Hsize StrcmpLike0.
  induction n as [|n IH]; intros a cnt Hwf Hc Hn Hh; [by exists a|]. cbn [build_heap].
  destruct (heapify_spec (S (Z.to_nat cnt)) a cnt (Z.of_nat (S n)) cnt (Z.of_nat (S n)) Hwf)
    as (a1 & -> & Hwf1 & Hp1 & Hh1 & _); try lia.
  { split; [|intros j Hj E Hlo; pose proof (half_double (Z.of_nat (S n)) (Z.of_nat (S n) / 2)); lia].
    intros j Hj Hlo Hne. apply Hh; lia. }
  simpl. destruct (IH a1 cnt Hwf1 Hc ltac:(lia)) as (a' & -> & ? & Hp & ?).
  { intros j Hj Hlo. apply Hh1; lia. }
  exists a'. split_and!; [done|done|by rewrite Hp|done].
Qed.

Lemma heap_root a n : heap_from a 1 n → ∀ j, 1 ≤ j ≤ n → le (at_ a j) (at_ a 1).
Proof using Hsize StrcmpLike0.
  intros Hh j. induction j as [j IH] using (well_founded_induction (Z.lt_wf 0)). intros Hj.
  destruct (decide (j = 1)) as [->|]; [apply le_refl|].
  pose proof (half_double j (j / 2)). eapply le_trans; [apply Hh; lia|]. apply IH; lia.
Qed.

(** the elements after [i] are sorted, and not below those up to [i] *)
Definition sorted_after (a : array) (cnt i : Z) : Prop :=
  (∀ k l, i < k → k ≤ l ≤ cnt → le (at_ a k) (at_ a l)) ∧
  (∀ k l, 1 ≤ k ≤ i → i < l ≤ cnt → le (at_ a k) (at_ a l)).

Lemma sort_heap_spec n : ∀ a cnt, array_wf a cnt → cnt < 2 ^ 31 - 1 → Z.of_nat n ≤ cnt →
  heap_from a 1 (Z.of_nat n) → sorted_after a cnt (Z.of_nat n) →
  ∃ a', sort_heap size compare a n = Ok a' ∧ array_wf a' cnt ∧ a' ≡ₚ a ∧ sorted_after a' cnt 0.
Proof using Hsize StrcmpLike0.
  induction n as [|n IH]; intros a cnt Hwf Hc Hn Hh Hs; [by exists a|]. destruct n as [|n].
  { exists a. split_and!; [done..|]. destruct Hs as [Hs1 Hs2]. split; [|lia]. intros k l Hk Hl.
    destruct (decide (k = l)) as [->|]; [apply le_refl|]. destruct (decide (k = 1)) as [->|]; [apply Hs2; lia|apply Hs1; lia]. }
  set (i := Z.of_nat (S (S n))) in *. change (sort_heap size compare a (S (S n))) with
    (a ← do_swap size a 1 i; a ← heapify size compare (S (S (S n))) a 1 (i - 1); sort_heap size compare a (S n)).
  destruct (do_swap_spec a cnt 1 i Hwf ltac:(lia) ltac:(lia) ltac:(lia)) as (-> & Hwf1 & Hp1 & Hat). cbn [mbind outcome_bind].
  destruct (heapify_spec (S (S (S n))) (swapped a 1 i) cnt 1 (i - 1) 1 Hwf1) as (a2 & -> & Hwf2 & Hp2 & Hh2 & Hout & HP); try lia.
  { split; [|intros j _ _ H; change (1 / 2) with 0 in H; lia]. intros j Hj Hlo Hne.
    assert (2 ≤ j / 2 < j) by (pose proof (half_double j (j / 2)); lia). rewrite !Hat by lia.
    destruct (Z.eqb_spec j 1); [lia|]. destruct (Z.eqb_spec j i); [lia|].
    destruct (Z.eqb_spec (j / 2) 1); [lia|]. destruct (Z.eqb_spec (j / 2) i); [lia|]. apply Hh; lia. }
  cbn [mbind outcome_bind]. pose proof (heap_root a i Hh) as Hroot. destruct Hs as [Hs1 Hs2].
  assert (Hmax : ∀ k, i ≤ k ≤ cnt → ∀ l, 1 ≤ l ≤ i - 1 → le (at_ a2 l) (at_ a2 k)).
  { intros k Hk. apply (HP (λ x, le x (at_ a2 k))). intros l Hl. rewrite Hout, !Hat by lia. destruct (Z.eqb_spec k 1); [lia|].
    assert (Hl' : 1 ≤ (if l =? 1 then i else l) ≤ i) by (destruct (l =? 1); lia).
    replace (if l =? 1 then at_ a i else if l =? i then at_ a 1 else at_ a l) with (at_ a (if l =? 1 then i else l)).
    2: { destruct (Z.eqb_spec l 1); [done|]. destruct (Z.eqb_spec l i); [lia|done]. }
    destruct (Z.eqb_spec k i); [by apply Hroot|]. apply Hs2; lia. }
  destruct (IH a2 cnt Hwf2 Hc ltac:(lia)) as (a' & -> & ? & Hp & ?).
  { intros j Hj. apply Hh2. lia. }
  { split; [|intros k l Hk Hl; apply Hmax; lia]. intros k l Hk Hl. rewrite !Hout, !Hat by lia.
    destruct (Z.eqb_spec k 1); [lia|]. destruct (Z.eqb_spec l 1); [lia|].
    destruct (Z.eqb_spec k i), (Z.eqb_spec l i); [apply le_refl|apply Hs2; lia|lia|apply Hs1; lia]. }
  exists a'. split_and!; [done|done|by rewrite Hp, Hp2|done].
Qed.
End heap.

Lemma sorted_lookup {A} (R : A → A → Prop) (l : list A) :
  (∀ i j x y, l !! i = Some x → l !! j = Some y → (i < j)%nat → R x y) → StronglySorted R l.
Proof.
  induction l as [|x r IH]; intros H; constructor.
  - apply IH. intros i j y z Hi Hj Hlt. apply (H (S i) (S j)); [done|done|lia].
  - apply Forall_forall. intros y [j Hj]%list_elem_of_lookup. apply (H O (S j)); [done|done|lia].
Qed.

Lemma lookup_sorted {A} (R : A → A → Prop) (l : list A) i j x y : StronglySorted R l →
  l !! i = Some x → l !! j = Some y → (i < j)%nat → R x y.
Proof.
  intros Hs. revert i j. induction Hs as [|z r Hs IH Hz]; intros i j Hi Hj Hlt; [done|].
  destruct i as [|i], j as [|j]; try lia; simpl in *.
  - simplify_eq. rewrite Forall_forall in Hz. apply Hz. by eapply list_elem_of_lookup_2.
  - apply (IH i j); [done|done|lia].
Qed.

(** C30. [sort] returns a sorted rearrangement of the array, for any comparison that
    orders the elements. *)
Theorem sort_correct size compare `{!StrcmpLike compare} a cnt :
  0 < size → array_wf size a cnt → cnt < 2 ^ 31 - 1 →
  ∃ a', sort size compare a cnt = Ok a' ∧ a' ≡ₚ a ∧ StronglySorted (λ x y, compare x y ≤ 0) a'.
Proof.
  intros Hs Hwf Hc. unfold sort. destruct (Z.ltb_spec 0 size); [|lia]. cbn [oassert mbind outcome_bind].
  assert (Hcnt : 0 ≤ cnt) by (destruct Hwf; lia).
  assert (Hhalf : 0 ≤ cnt / 2 ∧ 2 * (cnt / 2) ≤ cnt) by (pose proof (half_double cnt (cnt / 2)); lia).
  destruct (build_heap_spec size compare Hs (Z.to_nat (cnt / 2)) a cnt Hwf Hc) as (a1 & -> & Hwf1 & Hp1 & Hh1); [lia| |].
  { intros j Hj Hlo. pose proof (half_double j (j / 2)). pose proof (half_double cnt (cnt / 2)). lia. }
  cbn [mbind outcome_bind].
  destruct (sort_heap_spec size compare Hs (Z.to_nat cnt) a1 cnt Hwf1 Hc) as (a2 & -> & Hwf2 & Hp2 & Hs1 & _);
    [lia|by rewrite Z2Nat.id|split; lia|].
  exists a2. split_and!; [done|by rewrite Hp2|]. apply sorted_lookup. intros i j x y Hi Hj Hlt.
  assert (j < length a2)%nat by (by eapply lookup_lt_Some).
  pose proof (Hs1 (Z.of_nat i + 1) (Z.of_nat j + 1) ltac:(lia) ltac:(destruct Hwf2; lia)) as Hord. unfold at_ in Hord.
  replace (Z.to_nat (Z.of_nat i + 1 - 1)) with i in Hord by lia. replace (Z.to_nat (Z.of_nat j + 1 - 1)) with j in Hord by lia.
  by rewrite (list_lookup_total_correct _ _ _ Hi), (list_lookup_total_correct _ _ _ Hj) in Hord.
Qed.

(** elements of one byte, in decreasing order *)
Definition ex_compare (x y : list Z) : Z := hd 0 y - hd 0 x.
#[global] Instance ex_strcmp : StrcmpLike ex_compare.
Proof. split; unfold ex_compare; intros; lia. Defined.

Lemma sort_correct_witness : ∃ a', sort 1 ex_compare [[3]; [1]; [4]; [1]; [5]] 5 = Ok a' ∧
  a' ≡ₚ [[3]; [1]; [4]; [1]; [5]] ∧ StronglySorted (λ x y, ex_compare x y ≤ 0) a'.
Proof.
  apply (sort_correct 1 ex_compare [[3]; [1]; [4]; [1]; [5]] 5).
  - lia.
  - split; [reflexivity|]. intros e He. rewrite !elem_of_cons, elem_of_nil in He.
    destruct He as [->|[->|[->|[->|[->|[]]]]]]; reflexivity.
  - lia.
Defined.

(** * Binary search *)

Section search.
Context (size : Z) (compare : list Z → list Z → Z) `{!StrcmpLike compare} (Hsize : 0 < size).
Context (key : list Z) (a : array) (Ha : StronglySorted (λ x y, compare x y ≤ 0) a).

Lemma below_mono i j x y : a !! i = Some x → a !! j = Some y → (i ≤ j)%nat → compare key x < 0 → compare key y < 0.
Proof using All.
  intros Hi Hj Hle Hx. destruct (decide (i = j)) as [->|]; [congruence|].
  pose proof (lookup_sorted _ a i j x y Ha Hi Hj ltac:(lia)) as Hxy. simpl in Hxy.
  apply Z.nle_gt. intros Hy. assert (Hyk : compare y key ≤ 0) by (pose proof (cmp_anti key y); pose proof (cmp_anti y key); lia).
  pose proof (cmp_trans x y key Hxy Hyk). pose proof (cmp_anti key x). lia.
Qed.

Lemma above_mono i j x y : a !! i = Some x → a !! j = Some y → (i ≤ j)%nat → compare key y > 0 → compare key x > 0.
Proof using All.
  intros Hi Hj Hle Hy. destruct (decide (i = j)) as [->|]; [congruence|].
  pose proof (lookup_sorted _ a i j x y Ha Hi Hj ltac:(lia)) as Hxy. simpl in Hxy.
  apply Z.lt_gt, Z.nle_gt. intros Hx. pose proof (cmp_trans key x y Hx Hxy). lia.
Qed.

Lemma search_loop_spec n : ∀ f l, 0 ≤ f ≤ l → l ≤ Z.of_nat (length a) → l - f < Z.of_nat n →
  (∀ i x, a !! i = Some x → Z.of_nat i < f → compare key x > 0) →
  (∀ i x, a !! i = Some x → l ≤ Z.of_nat i → compare key x < 0) →
  ∃ r, search_loop size compare n key a (size * f) (size * l) = Ok r ∧
    match r with
    | Some o => ∃ i x, o = size * Z.of_nat i ∧ a !! i = Some x ∧ compare key x = 0
    | None => ∀ x, x ∈ a → compare key x ≠ 0
    end.
Proof using All.
  induction n as [|n IH]; intros f l Hfl Hl Hn Hlo Hhi; [lia|]. cbn [search_loop].
  destruct (Z.ltb_spec (size * f) (size * l)) as [Hlt|Hge].
  2: { exists None. split; [done|]. intros x [i Hi]%list_elem_of_lookup.
       assert (f = l) by nia. destruct (decide (Z.of_nat i < f)); [specialize (Hlo i x Hi)|specialize (Hhi i x Hi)]; lia. }
  assert (Hfl' : f < l) by nia. cbv zeta.
  replace (size * l - size * f) with ((l - f) * size) by ring. rewrite Z.div_mul by lia.
  set (h := (l - f) / 2). assert (Hh : 0 ≤ h < l - f) by (split; [apply Z.div_pos|apply Z.div_lt]; lia).
  replace (size * f + h * size) with (size * (f + h)) by ring. rewrite (Z.mul_comm size (f + h)), Z.div_mul, (Z.mul_comm (f + h)) by lia.
  destruct (lookup_lt_is_Some_2 a (Z.to_nat (f + h))) as [e E]; [lia|]. rewrite E. cbn [ofault mbind outcome_bind].
  destruct (Z.ltb_spec (compare key e) 0); [|rewrite Z.gtb_ltb; destruct (Z.ltb_spec 0 (compare key e))].
  - apply IH; [lia|lia|lia|done|]. intros i x Hi Hle. eapply (below_mono (Z.to_nat (f + h)) i e x); [done|done|lia|done].
  - replace (size * (f + h) + size) with (size * (f + h + 1)) by ring.
    apply IH; [lia|lia|lia| |done]. intros i x Hi Hle. eapply (above_mono i (Z.to_nat (f + h)) x e); [done|done|lia|lia].
  - exists (Some (size * (f + h))). split; [done|]. exists (Z.to_nat (f + h)), e. rewrite Z2Nat.id by lia.
    split_and!; [done|done|lia].
Qed.
End search.

(** [binary_search] finds an element equal to the key in a sorted array, and
    returns a null pointer only when there is none. *)
Theorem binary_search_correct size compare `{!StrcmpLike compare} key a :
  0 < size → StronglySorted (λ x y, compare x y ≤ 0) a →
  ∃ r, binary_search size compare key a (Z.of_nat (length a)) = Ok r ∧
    match r with
    | Some o => ∃ i x, o = size * Z.of_nat i ∧ a !! i = Some x ∧ compare key x = 0
    | None => ∀ x, x ∈ a → compare key x ≠ 0
    end.
Proof.
  intros Hs Ha. unfold binary_search. rewrite Nat2Z.id.
  pose proof (search_loop_spec size compare Hs key a Ha (S (length a)) 0 (Z.of_nat (length a))) as H.
  rewrite Z.mul_0_r in H. apply H; [lia|lia|lia|lia|].
  intros i x Hi. assert (i < length a)%nat by (by eapply lookup_lt_Some). lia.
Qed.

Lemma binary_search_correct_witness : ∃ r, binary_search 1 ex_compare [4] [[5]; [4]; [3]; [1]] 4 = Ok r ∧
  match r with
  | Some o => ∃ i x, o = 1 * Z.of_nat i ∧ [[5]; [4]; [3]; [1]] !! i = Some x ∧ ex_compare [4] x = 0
  | None => ∀ x, x ∈ [[5]; [4]; [3]; [1]] → ex_compare [4] x ≠ 0
  end.
Proof.
  apply (binary_search_correct 1 ex_compare [4] [[5]; [4]; [3]; [1]]).
  - lia.
  - repeat constructor; vm_compute; discriminate.
Defined.

(** * Parsing integers *)

(** the number written by decimal digits *)
Definition digits_value (ds : list Z) : Z := foldl (λ v c, v * 10 + (c - 48)) 0 ds.

Lemma skip_space_spec n m p ws l : (∀ c, c ∈ ws → isspace c = true) →
  match l with [] => True | c :: _ => isspace c = false end →
  cstr m p (ws ++ l) → (length (ws ++ l) < n)%nat → skip_space n p m = Ok (p + Z.of_nat (length ws), m).
Proof.
  intros Hws Hl. revert n p. induction ws as [|c r IH]; intros [|n] p Hc Hn; try (simpl in Hn; lia); cbn [skip_space]; simpl in *.
  - rewrite Z.add_0_r. destruct l as [|c r]; simpl in Hc.
    + by rewrite (bind_ok _ _ _ _ _ (load_eq m p 0 Hc)).
    + destruct Hc as (Hx & _ & _). rewrite (bind_ok _ _ _ _ _ (load_eq m p c Hx)). by rewrite Hl.
  - destruct Hc as (Hx & _ & Hc). rewrite (bind_ok _ _ _ _ _ (load_eq m p c Hx)), (Hws c) by left.
    rewrite (IH ltac:(intros d Hd; apply Hws; by right) n (p + 1) Hc) by lia. do 2 f_equal. lia.
Qed.

Lemma digits_value_bound v ds : (∀ c, c ∈ ds → isdigit c = true) → 0 ≤ v →
  v ≤ foldl (λ v c, v * 10 + (c - 48)) v ds.
Proof.
  revert v. induction ds as [|c r IH]; intros v Hds Hv; simpl; [lia|].
  assert (Hc : isdigit c = true) by (apply Hds; left). unfold isdigit in Hc.
  apply andb_true_iff in Hc as [H1%Z.leb_le H2%Z.leb_le].
  pose proof (IH (v * 10 + (c - 48)) ltac:(intros d Hd; apply Hds; by right) ltac:(lia)). lia.
Qed.

Lemma parse_digits_spec n m p ds rest v : (∀ c, c ∈ ds → isdigit c = true) →
  match rest with [] => True | c :: _ => isdigit c = false end →
  cstr m p (ds ++ rest) → (length (ds ++ rest) < n)%nat → 0 ≤ v →
  foldl (λ v c, v * 10 + (c - 48)) v ds ≤ 2 ^ 31 →
  parse_digits n p (- v) m = Ok (- foldl (λ v c, v * 10 + (c - 48)) v ds, m).
Proof.
  intros Hds Hrest. revert n p v. induction ds as [|c r IH]; intros [|n] p v Hc Hn Hv Hb; try (simpl in Hn; lia);
    cbn [parse_digits]; simpl in *.
  - destruct rest as [|c r]; simpl in Hc.
    + by rewrite (bind_ok _ _ _ _ _ (load_eq m p 0 Hc)).
    + destruct Hc as (Hx & _ & _). rewrite (bind_ok _ _ _ _ _ (load_eq m p c Hx)). by rewrite Hrest.
  - destruct Hc as (Hx & _ & Hc). rewrite (bind_ok _ _ _ _ _ (load_eq m p c Hx)).
    assert (Hd : isdigit c = true) by (apply Hds; left). rewrite Hd. unfold isdigit in Hd.
    apply andb_true_iff in Hd as [H1%Z.leb_le H2%Z.leb_le].
    assert (Hr : ∀ d, d ∈ r → isdigit d = true) by (intros d Hd; apply Hds; by right).
    pose proof (digits_value_bound (v * 10 + (c - 48)) r Hr ltac:(lia)).
    rewrite (s32_small (- v * 10)), s32_small by lia.
    replace (- v * 10 - (c - 48)) with (- (v * 10 + (c - 48))) by lia. apply IH; [done|done|lia|lia|done].
Qed.

Lemma atoi_eq m p ws neg ds rest : let sign := if (neg : bool) then [45] else [] in
  (∀ c, c ∈ ws → isspace c = true) → (∀ c, c ∈ ds → isdigit c = true) →
  match rest with [] => True | c :: _ => isdigit c = false end →
  (neg = false → match ds ++ rest with [] => True | c :: _ => isspace c = false ∧ c ≠ 43 ∧ c ≠ 45 end) →
  digits_value ds ≤ (if neg then 2 ^ 31 else 2 ^ 31 - 1) →
  0 < p → cstr m p (ws ++ sign ++ ds ++ rest) →
  atoi p m = Ok (if neg then - digits_value ds else digits_value ds, m).
Proof.
  intros sign Hws Hds Hrest Hneg Hv Hp Hc. unfold atoi. rewrite assert_bind by by apply nz_true.
  rewrite (bind_ok fuel _ m (S (base.size m)) m eq_refl).
  rewrite (bind_ok _ _ _ _ _ (skip_space_spec (S (base.size m)) m p ws (sign ++ ds ++ rest) Hws
    ltac:(destruct neg; [done|]; simpl; destruct (ds ++ rest); [done|]; by apply Hneg) Hc (cstr_fuel _ _ _ Hc))).
  apply cstr_app in Hc. set (q := p + Z.of_nat (length ws)) in *.
  assert (Hfin : ∀ q', cstr m q' (ds ++ rest) → parse_digits (S (base.size m)) q' 0 m = Ok (- digits_value ds, m)).
  { intros q' Hq. apply (parse_digits_spec _ m q' ds rest 0); [done|done|done|by eapply cstr_fuel|lia|]. unfold digits_value in Hv. destruct neg; lia. }
  pose proof (digits_value_bound 0 ds Hds ltac:(lia)) as H0. fold (digits_value ds) in H0.
  destruct neg; simpl in Hc.
  - destruct Hc as (Hx & _ & Hc). rewrite (bind_ok _ _ _ _ _ (load_eq m q 45 Hx)). simpl.
    by rewrite (bind_ok fuel _ m (S (base.size m)) m eq_refl), (bind_ok _ _ _ _ _ (Hfin (q + 1) Hc)).
  - specialize (Hneg eq_refl). assert (∃ c, m !! q = Some c ∧ c ≠ 43 ∧ c ≠ 45) as (c & Hx & H1 & H2).
    { destruct (ds ++ rest) as [|c r]; simpl in Hc; [by exists 0|]. destruct Hc as (Hx & _). destruct Hneg as (_ & ? & ?). eauto. }
    rewrite (bind_ok _ _ _ _ _ (load_eq m q c Hx)). destruct (Z.eqb_spec c 43); [done|]. destruct (Z.eqb_spec c 45); [done|]. simpl.
    rewrite (bind_ok fuel _ m (S (base.size m)) m eq_refl), (bind_ok _ _ _ _ _ (Hfin q Hc)).
    rewrite Z.opp_involutive. by rewrite s32_small by lia.
Qed.

(** [atoi] reads an optional sign and decimal digits after white space; every
    value of an [int] comes out right, the smallest one included. *)
Theorem atoi_spec m p ws neg ds rest : let sign := if (neg : bool) then [45] else [] in
  (∀ c, c ∈ ws → isspace c = true) → (∀ c, c ∈ ds → isdigit c = true) →
  match rest with [] => True | c :: _ => isdigit c = false end →
  (neg = false → match ds ++ rest with [] => True | c :: _ => isspace c = false ∧ c ≠ 43 ∧ c ≠ 45 end) →
  digits_value ds ≤ (if neg then 2 ^ 31 else 2 ^ 31 - 1) →
  0 < p → cstr m p (ws ++ sign ++ ds ++ rest) →
  atoi p m = Ok (if neg then - digits_value ds else digits_value ds, m).
Proof. apply atoi_eq. Qed.

(** the string [ -2147483648] *)
Definition ex_int : list Z := [32; 45; 50; 49; 52; 55; 52; 56; 51; 54; 52; 56].

Lemma atoi_spec_witness : atoi 1 (write ∅ 1 (ex_int ++ [0])) = Ok (- 2147483648, write ∅ 1 (ex_int ++ [0])).
Proof.
  apply (atoi_spec (write ∅ 1 (ex_int ++ [0])) 1 [32] true [50; 49; 52; 55; 52; 56; 51; 54; 52; 56] []).
  - intros c Hc. apply list_elem_of_singleton in Hc as ->. reflexivity.
  - intros c Hc. rewrite !elem_of_cons, elem_of_nil in Hc. repeat (destruct Hc as [->|Hc]; [reflexivity|]). destruct Hc.
  - exact I.
  - intros H. discriminate H.
  - vm_compute. discriminate.
  - lia.
  - vm_compute. repeat split.
Defined.
