(* ===== verification/Hash.v ===== *)
(** lib/kernel/hash.c: hash tables with chaining.

    A bucket is the list of the elements on it (lib/kernel/list.c is modelled in
    KList.v); an element is the address of its [struct hash_elem].  The section
    variables [hash] and [less] are the functions the table was created with;
    [alloc] is whether [malloc] returns the new buckets.  The loop of [rehash]
    that rounds down to a power of two turns off one of 32 bits in each turn. *)

From S2P Require Import Prelude KListAlgo CString.

Record htable := mk_htable { elem_cnt : Z; bucket_cnt : Z; buckets : list (list Z) }.

(** an iterator: the bucket and the position in it, -1 before the first element;
    [None] is a null [elem] *)
Record hash_iterator := mk_iter { it_bucket : Z; it_pos : option Z }.

Definition turn_off_least_1bit (x : Z) : Z := Z.land x (u32 (x - 1)).

Definition is_power_of_2 (x : Z) : bool := negb (x =? 0) && (turn_off_least_1bit x =? 0).

Fixpoint round_down (n : nat) (x : Z) : outcome Z :=
  match n with
  | O => Err NoFuel
  | S n' => if is_power_of_2 x then Ok x else round_down n' (turn_off_least_1bit x)
  end.

Definition BEST_ELEMS_PER_BUCKET : Z := 2.

(** [list_init] of every bucket *)
Definition hash_clear (h : htable) : htable :=
  mk_htable 0 h.(bucket_cnt) (replicate (Z.to_nat h.(bucket_cnt)) []).

(** the elements the destructor is called with, in order *)
Definition hash_clear_destroyed (h : htable) (destructor : bool) : list Z :=
  if destructor then mjoin h.(buckets) else [].

Definition hash_destroy_destroyed (h : htable) (destructor : bool) : list Z := hash_clear_destroyed h destructor.

Definition hash_init (alloc : bool) : option htable :=
  if alloc then Some (hash_clear (mk_htable 0 4 [])) else None.

Definition hash_size (h : htable) : Z := h.(elem_cnt).
Definition hash_empty (h : htable) : bool := h.(elem_cnt) =? 0.

(** [action] on each element, threading a state of the client's *)
Definition hash_apply {S} (action : Z → S → S) (h : htable) (s : S) : S :=
  foldl (λ s bucket, foldl (λ s e, action e s) s bucket) s h.(buckets).

Definition hash_first (h : htable) : hash_iterator := mk_iter 0 (Some (-1)).

Fixpoint next_loop (n : nat) (h : htable) (b pos : Z) : outcome hash_iterator :=
  match n with
  | O => Err NoFuel
  | S n' =>
      bucket ← ofault (h.(buckets) !! Z.to_nat b);
      if pos =? Z.of_nat (length bucket) then
        if b + 1 >=? h.(bucket_cnt) then Ok (mk_iter (b + 1) None) else next_loop n' h (b + 1) 0
      else Ok (mk_iter b (Some pos))
  end.

Definition hash_next (h : htable) (i : hash_iterator) : outcome hash_iterator :=
  match i.(it_pos) with
  | None => Err Fault
  | Some pos => next_loop (S (Z.to_nat h.(bucket_cnt))) h i.(it_bucket) (pos + 1)
  end.

Definition hash_cur (h : htable) (i : hash_iterator) : option Z :=
  pos ← i.(it_pos); bucket ← h.(buckets) !! Z.to_nat i.(it_bucket); bucket !! Z.to_nat pos.

(** * Hash functions *)

Definition FNV_32_PRIME : Z := 16777619.
Definition FNV_32_BASIS : Z := 2166136261.

Definition fnv_step (hash b : Z) : Z := Z.lxor (u32 (hash * FNV_32_PRIME)) b.

Fixpoint hash_bytes_loop (buf hash : Z) (size : nat) : B Z :=
  match size with
  | O => mret hash
  | S n => b ← load buf; hash_bytes_loop (buf + 1) (fnv_step hash b) n
  end.

Definition hash_bytes (buf size : Z) : B Z :=
  assert (negb (buf =? 0));; hash_bytes_loop buf FNV_32_BASIS (Z.to_nat size).

Fixpoint hash_string_loop (n : nat) (s hash : Z) : B Z :=
  match n with
  | O => fail NoFuel
  | S n' => b ← load s; if b =? 0 then mret hash else hash_string_loop n' (s + 1) (fnv_step hash b)
  end.

Definition hash_string (s : Z) : B Z :=
  assert (negb (s =? 0));; n ← fuel; hash_string_loop n s FNV_32_BASIS.

(** the bytes of [i] as they lie in memory *)
Definition int_bytes (i : Z) : list Z := [u32 i mod 256; u32 i / 256 mod 256; u32 i / 65536 mod 256; u32 i / 16777216 mod 256].

Definition hash_int (i : Z) : Z := foldl fnv_step FNV_32_BASIS (int_bytes i).

(** * Operations *)

Section ops.
Context (hash : Z → Z) (less : Z → Z → bool).

Definition find_bucket (h : htable) (e : Z) : Z := Z.land (hash e) (u32 (h.(bucket_cnt) - 1)).

Fixpoint find_elem (bucket : list Z) (e : Z) : option Z :=
  match bucket with
  | [] => None
  | hi :: r => if negb (less hi e) && negb (less e hi) then Some hi else find_elem r e
  end.

Definition insert_elem (h : htable) (bucket e : Z) : outcome htable :=
  l ← ofault (h.(buckets) !! Z.to_nat bucket);
  Ok (mk_htable (u32 (h.(elem_cnt) + 1)) h.(bucket_cnt) (<[Z.to_nat bucket := e :: l]> h.(buckets))).

(** [list_remove] takes [e] off the bucket it is on *)
Definition remove_elem (h : htable) (e : Z) : htable :=
  mk_htable (u32 (h.(elem_cnt) - 1)) h.(bucket_cnt) (filter (λ x, x ≠ e) <$> h.(buckets)).

(** moves the elements of the old buckets, in order, to the front of the new ones *)
Fixpoint move_elems (l : list Z) (cnt : Z) (bs : list (list Z)) : outcome (list (list Z)) :=
  match l with
  | [] => Ok bs
  | e :: r =>
      let b := Z.land (hash e) (u32 (cnt - 1)) in
      bucket ← ofault (bs !! Z.to_nat b);
      move_elems r cnt (<[Z.to_nat b := e :: bucket]> bs)
  end.

Definition rehash (h : htable) (alloc : bool) : outcome htable :=
  let new_bucket_cnt := h.(elem_cnt) / BEST_ELEMS_PER_BUCKET in
  let new_bucket_cnt := if new_bucket_cnt <? 4 then 4 else new_bucket_cnt in
  new_bucket_cnt ← round_down 33 new_bucket_cnt;
  if new_bucket_cnt =? h.(bucket_cnt) then Ok h
  else if negb alloc then Ok h
  else
    bs ← move_elems (mjoin h.(buckets)) new_bucket_cnt (replicate (Z.to_nat new_bucket_cnt) []);
    Ok (mk_htable h.(elem_cnt) new_bucket_cnt bs).

Definition hash_insert (h : htable) (new : Z) (alloc : bool) : outcome (option Z * htable) :=
  let b := find_bucket h new in
  bucket ← ofault (h.(buckets) !! Z.to_nat b);
  let old := find_elem bucket new in
  h ← (match old with None => insert_elem h b new | Some _ => Ok h end);
  h ← rehash h alloc;
  Ok (old, h).

Definition hash_replace (h : htable) (new : Z) (alloc : bool) : outcome (option Z * htable) :=
  let b := find_bucket h new in
  bucket ← ofault (h.(buckets) !! Z.to_nat b);
  let old := find_elem bucket new in
  let h := match old with Some o => remove_elem h o | None => h end in
  h ← insert_elem h b new;
  h ← rehash h alloc;
  Ok (old, h).

Definition hash_find (h : htable) (e : Z) : outcome (option Z) :=
  bucket ← ofault (h.(buckets) !! Z.to_nat (find_bucket h e));
  Ok (find_elem bucket e).

Definition hash_delete (h : htable) (e : Z) (alloc : bool) : outcome (option Z * htable) :=
  bucket ← ofault (h.(buckets) !! Z.to_nat (find_bucket h e));
  match find_elem bucket e with
  | Some found => h ← rehash (remove_elem h found) alloc; Ok (Some found, h)
  | None => Ok (None, h)
  end.
End ops.

(** * Powers of two *)

Lemma turn_off_clears x k : 0 < x < 2 ^ 32 → 0 ≤ k → (2 ^ k | x) →
  (2 ^ (k + 1) | turn_off_least_1bit x) ∧ 0 ≤ turn_off_least_1bit x ≤ x.
Proof.
  intros Hx Hk [y Hy]. unfold turn_off_least_1bit. rewrite u32_small by lia. split.
  - assert (Hb : ∀ j, 0 ≤ j < k + 1 → Z.testbit (Z.land x (x - 1)) j = false).
    { intros j Hj. rewrite Z.land_spec. destruct (decide (j = k)) as [->|].
      - assert (E : Z.testbit x k = Z.odd y) by (rewrite Hy, Z.mul_pow2_bits, Z.sub_diag, Z.bit0_odd by lia; done).
        rewrite E. destruct (Z.odd y) eqn:Ho; [|done]. simpl.
        apply Z.odd_spec in Ho as [z ->]. replace (x - 1) with (z * 2 ^ (k + 1) + (2 ^ k - 1)) by (rewrite Hy, Z.pow_add_r by lia; ring).
        rewrite <- (Z.mod_pow2_bits_low _ (k + 1)) by lia. rewrite Z.add_comm, Z_mod_plus_full.
        assert (0 < 2 ^ k) by (apply Z.pow_pos_nonneg; lia). rewrite Z.mod_small by (rewrite Z.pow_add_r; lia).
        replace (2 ^ k - 1) with (Z.ones k) by (rewrite Z.ones_equiv; lia). apply Z.ones_spec_high. lia.
      - rewrite Hy, Z.mul_pow2_bits_low by lia. done. }
    exists (Z.land x (x - 1) / 2 ^ (k + 1)). rewrite Z.mul_comm. apply Z.div_exact; [apply Z.pow_nonzero; lia|].
    apply Z.bits_inj'. intros j Hj. rewrite Z.testbit_0_l. destruct (Z.lt_ge_cases j (k + 1)).
    + rewrite Z.mod_pow2_bits_low by lia. apply Hb. lia.
    + apply Z.mod_pow2_bits_high. lia.
  - split; [apply Z.land_nonneg; lia|]. apply Z.ldiff_le; [lia|]. apply Z.bits_inj'. intros j Hj.
    rewrite Z.ldiff_spec, Z.land_spec, Z.testbit_0_l. by destruct (Z.testbit x j), (Z.testbit (x - 1) j).
Qed.

Lemma power_of_2_spec x : 0 ≤ x < 2 ^ 32 → is_power_of_2 x = true → ∃ k, 0 ≤ k < 32 ∧ x = 2 ^ k.
Proof.
  unfold is_power_of_2, turn_off_least_1bit. rewrite andb_true_iff, negb_true_iff, Z.eqb_neq, Z.eqb_eq. intros Hx [H0 Hl].
  rewrite u32_small in Hl by lia. pose proof (Z.log2_spec x ltac:(lia)) as [H1 H2]. pose proof (Z.log2_nonneg x) as H3.
  exists (Z.log2 x). split; [split; [done|]; apply Z.log2_lt_pow2; lia|].
  apply Z.le_antisymm; [|done]. apply Z.nlt_ge. intros Hlt.
  assert (Hb : Z.testbit (Z.land x (x - 1)) (Z.log2 x) = true); [|by rewrite Hl, Z.testbit_0_l in Hb].
  assert (0 < 2 ^ Z.log2 x) by (apply Z.pow_pos_nonneg; lia).
  assert (E : Z.log2 (x - 1) = Z.log2 x) by (apply Z.log2_unique; [done|]; rewrite Z.pow_succ_r in * by done; lia).
  rewrite Z.land_spec, Z.bit_log2 by lia. simpl. rewrite <- E. apply Z.bit_log2. lia.
Qed.

Lemma round_down_spec n : ∀ x k, 0 < x < 2 ^ 32 → 0 ≤ k → (2 ^ k | x) → 32 < k + Z.of_nat n →
  ∃ j, round_down n x = Ok (2 ^ j) ∧ 0 ≤ j < 32 ∧ 2 ^ j ≤ x.
Proof.
  induction n as [|n IH]; intros x k Hx Hk Hd Hn.
  { pose proof (Z.divide_pos_le _ x ltac:(lia) Hd). assert (2 ^ 32 ≤ 2 ^ k) by (apply Z.pow_le_mono_r; lia). lia. }
  cbn [round_down]. destruct (is_power_of_2 x) eqn:E.
  - destruct (power_of_2_spec x ltac:(lia) E) as (j & Hj & ->). exists j. split_and!; [done|lia|lia|lia].
  - destruct (turn_off_clears x k Hx Hk Hd) as [Hd' Hr]. assert (turn_off_least_1bit x ≠ 0).
    { intros H0. unfold is_power_of_2 in E. rewrite H0 in E. destruct (Z.eqb_spec x 0); [lia|done]. }
    destruct (IH (turn_off_least_1bit x) (k + 1)) as (j & ? & ? & ?); [lia|lia|done|lia|]. exists j. split_and!; [done|lia|lia|lia].
Qed.

(** * The invariant *)

(** the functions a table is created with: [less] orders the elements, equal
    elements have equal hashes *)
Class HashFuns (hash : Z → Z) (less : Z → Z → bool) : Prop := {
  hf_less :: StrictWeak less;
  hf_hash : ∀ a b, less a b = false → less b a = false → hash a = hash b;
  hf_range : ∀ a, 0 ≤ hash a < 2 ^ 32
}.

Definition elems (h : htable) : list Z := mjoin h.(buckets).

Section table.
Context (hash : Z → Z) (less : Z → Z → bool) `{!HashFuns hash less}.

Definition eqv (a b : Z) : Prop := less a b = false ∧ less b a = false.

(** every element is in the bucket its hash selects *)
Definition placed_in (cnt : Z) (bs : list (list Z)) : Prop :=
  ∀ i l e, bs !! i = Some l → e ∈ l → Z.to_nat (hash e mod cnt) = i.

Record hash_wf (h : htable) : Prop := {
  hw_pow : ∃ k, 0 ≤ k < 32 ∧ h.(bucket_cnt) = 2 ^ k;
  hw_len : Z.of_nat (length h.(buckets)) = h.(bucket_cnt);
  hw_place : placed_in h.(bucket_cnt) h.(buckets);
  hw_nodup : NoDup (elems h);
  hw_uniq : ∀ a b, a ∈ elems h → b ∈ elems h → eqv a b → a = b;
  hw_cnt : h.(elem_cnt) = Z.of_nat (length (elems h))
}.

Lemma land_mod x k : 0 ≤ k < 32 → Z.land x (u32 (2 ^ k - 1)) = x mod 2 ^ k.
Proof using.
  intros Hk. assert (0 < 2 ^ k < 2 ^ 32) by (split; [apply Z.pow_pos_nonneg; lia|apply Z.pow_lt_mono_r; lia]).
  rewrite u32_small by lia. replace (2 ^ k - 1) with (Z.ones k) by (rewrite Z.ones_equiv; lia).
  apply Z.land_ones. lia.
Qed.

Lemma find_bucket_eq h e : hash_wf h → find_bucket hash h e = hash e mod h.(bucket_cnt).
Proof using. intros Hw. destruct (hw_pow h Hw) as (k & Hk & E). unfold find_bucket. rewrite E. by apply land_mod. Qed.

Lemma bucket_at cnt (bs : list (list Z)) e : 0 < cnt → Z.of_nat (length bs) = cnt → ∃ l, bs !! Z.to_nat (hash e mod cnt) = Some l.
Proof using. intros Hc Hl. pose proof (Z.mod_pos_bound (hash e) cnt Hc). apply lookup_lt_is_Some_2. lia. Qed.

Lemma wf_pos h : hash_wf h → 0 < h.(bucket_cnt) < 2 ^ 32.
Proof using.
  intros Hw. destruct (hw_pow h Hw) as (k & Hk & ->). split; [apply Z.pow_pos_nonneg; lia|apply Z.pow_lt_mono_r; lia].
Qed.

Lemma elem_of_elems (bs : list (list Z)) e : e ∈ mjoin bs ↔ ∃ i l, bs !! i = Some l ∧ e ∈ l.
Proof using.
  rewrite list_elem_of_join. split.
  - intros (l & He & [i Hi]%list_elem_of_lookup). eauto.
  - intros (i & l & Hi & He). exists l. split; [done|]. by eapply list_elem_of_lookup_2.
Qed.

Lemma find_elem_spec l e : match find_elem less l e with
  | Some x => x ∈ l ∧ eqv x e
  | None => ∀ x, x ∈ l → ¬ eqv x e
  end.
Proof using.
  induction l as [|y r IH]; simpl; [by intros x ?%elem_of_nil|]. unfold eqv in *.
  destruct (less y e) eqn:E1, (less e y) eqn:E2; simpl; [..|by split; [left|]];
    (destruct (find_elem less r e) as [z|]; [destruct IH; split; [by right|done]|];
     intros x [->|Hx]%elem_of_cons; [intros []; congruence|by apply IH]).
Qed.

(** the bucket of [e] decides whether an equal element is in the table *)
Lemma find_spec h e : hash_wf h → ∃ l, h.(buckets) !! Z.to_nat (find_bucket hash h e) = Some l ∧
  match find_elem less l e with
  | Some x => x ∈ elems h ∧ eqv x e
  | None => ∀ x, x ∈ elems h → ¬ eqv x e
  end.
Proof using All.
  intros Hw. rewrite find_bucket_eq by done. destruct (bucket_at (bucket_cnt h) (buckets h) e) as [l Hl];
    [apply (wf_pos h Hw)|apply (hw_len h Hw)|].
  exists l. split; [done|]. pose proof (find_elem_spec l e) as Hf. destruct (find_elem less l e) as [x|].
  - destruct Hf. split; [|done]. apply elem_of_elems. eauto.
  - intros x Hx He. apply elem_of_elems in Hx as (i & l' & Hi & Hx).
    pose proof (hw_place h Hw i l' x Hi Hx) as Hp. destruct He as [H1 H2]. rewrite (hf_hash x e H1 H2) in Hp.
    subst i. assert (l' = l) as -> by congruence. by apply (Hf x).
Qed.

Lemma join_insert (bs : list (list Z)) i l l' : bs !! i = Some l →
  ∃ R, mjoin (<[i := l']> bs) ≡ₚ l' ++ R ∧ mjoin bs ≡ₚ l ++ R.
Proof using.
  intros Hi. assert (Hlt : (i < length bs)%nat) by (by eapply lookup_lt_Some).
  exists (mjoin (take i bs) ++ mjoin (drop (S i) bs)). split.
  - rewrite insert_take_drop, join_app by done. simpl. apply Permutation_app_swap_app.
  - rewrite <- (take_drop_middle bs i l Hi) at 1. rewrite join_app. simpl. apply Permutation_app_swap_app.
Qed.

Lemma join_push (bs : list (list Z)) i l e : bs !! i = Some l → mjoin (<[i := e :: l]> bs) ≡ₚ e :: mjoin bs.
Proof using.
  intros Hi. destruct (join_insert bs i l (e :: l) Hi) as (R & -> & ->). done.
Qed.

(** ** Rehashing *)

Lemma placed_push cnt bs e l : placed_in cnt bs → bs !! Z.to_nat (hash e mod cnt) = Some l →
  placed_in cnt (<[Z.to_nat (hash e mod cnt) := e :: l]> bs).
Proof using.
  intros Hp Hl i l' x Hi Hx. apply list_lookup_insert_Some in Hi as [(<- & <- & _)|[_ Hi]]; [|by eapply Hp].
  apply elem_of_cons in Hx as [->|Hx]; [done|]. by eapply Hp.
Qed.

Lemma move_elems_spec l k : 0 ≤ k < 32 → ∀ bs, Z.of_nat (length bs) = 2 ^ k → placed_in (2 ^ k) bs →
  ∃ bs', move_elems hash l (2 ^ k) bs = Ok bs' ∧ Z.of_nat (length bs') = 2 ^ k ∧ placed_in (2 ^ k) bs' ∧
    mjoin bs' ≡ₚ l ++ mjoin bs.
Proof using.
  intros Hk. assert (0 < 2 ^ k) by (apply Z.pow_pos_nonneg; lia).
  induction l as [|e r IH]; intros bs Hl Hp; [by exists bs|]. cbn [move_elems].
  rewrite land_mod by done. destruct (bucket_at (2 ^ k) bs e) as [b Hb]; [done|done|]. rewrite Hb. cbn [ofault mbind outcome_bind].
  destruct (IH (<[Z.to_nat (hash e mod 2 ^ k) := e :: b]> bs)) as (bs' & -> & ? & ? & Hperm);
    [by rewrite length_insert|by apply placed_push|].
  exists bs'. split_and!; [done..|]. rewrite Hperm, (join_push bs _ b e Hb). simpl. symmetry. apply Permutation_middle.
Qed.

(** what the table is but for the way its elements are spread over the buckets *)
Lemma hash_wf_perm h bs cnt k : hash_wf h → 0 ≤ k < 32 → cnt = 2 ^ k → Z.of_nat (length bs) = cnt → placed_in cnt bs →
  mjoin bs ≡ₚ elems h → hash_wf (mk_htable h.(elem_cnt) cnt bs).
Proof using.
  intros Hw Hk Hc Hl Hp Hperm. split; simpl; try done; [by exists k| | |].
  - unfold elems; simpl. rewrite Hperm. apply (hw_nodup h Hw).
  - intros a b. unfold elems; simpl. rewrite Hperm. apply (hw_uniq h Hw).
  - unfold elems; simpl. rewrite Hperm. apply (hw_cnt h Hw).
Qed.

Lemma rehash_spec h alloc : hash_wf h → h.(elem_cnt) < 2 ^ 32 →
  ∃ h', rehash hash h alloc = Ok h' ∧ hash_wf h' ∧ elems h' ≡ₚ elems h.
Proof using.
  intros Hw Hc. pose proof (hw_cnt h Hw) as Hcnt. unfold rehash, BEST_ELEMS_PER_BUCKET.
  set (n := if elem_cnt h / 2 <? 4 then 4 else elem_cnt h / 2).
  assert (0 < n < 2 ^ 32).
  { unfold n. assert (elem_cnt h / 2 < 2 ^ 32) by (apply Z.div_lt_upper_bound; lia). destruct (Z.ltb_spec (elem_cnt h / 2) 4); lia. }
  destruct (round_down_spec 33 n 0) as (k & Hr & Hk & _); [lia|lia|apply Z.divide_1_l|lia|].
  rewrite Hr. cbn [mbind outcome_bind]. destruct (Z.eqb_spec (2 ^ k) (bucket_cnt h)); [by exists h|].
  destruct alloc; cbn [negb]; [|by exists h].
  assert (0 < 2 ^ k) by (apply Z.pow_pos_nonneg; lia).
  destruct (move_elems_spec (mjoin (buckets h)) k Hk (replicate (Z.to_nat (2 ^ k)) [])) as (bs & -> & Hl & Hp & Hperm).
  - rewrite length_replicate. lia.
  - intros i l e Hi He. apply lookup_replicate in Hi as [-> _]. by apply elem_of_nil in He.
  - cbn [mbind outcome_bind]. eexists. split; [done|].
    assert (Hj : ∀ m, mjoin (replicate m []) = ([] : list Z)) by (induction m; done).
    rewrite Hj, app_nil_r in Hperm. split; [|done]. by eapply (hash_wf_perm h bs (2 ^ k) k).
Qed.

(** ** Insertion and removal *)

Lemma insert_wf h e : hash_wf h → h.(elem_cnt) < 2 ^ 32 - 1 → (∀ x, x ∈ elems h → ¬ eqv x e) →
  ∃ h', insert_elem h (find_bucket hash h e) e = Ok h' ∧ hash_wf h' ∧ elems h' ≡ₚ e :: elems h ∧
    h'.(elem_cnt) = h.(elem_cnt) + 1.
Proof using All.
  intros Hw Hc Hn. unfold insert_elem. rewrite find_bucket_eq by done.
  destruct (bucket_at (bucket_cnt h) (buckets h) e) as [l Hl]; [apply (wf_pos h Hw)|apply (hw_len h Hw)|].
  rewrite Hl. cbn [ofault mbind outcome_bind]. eexists. split; [done|].
  pose proof (join_push (buckets h) _ l e Hl) as Hj. pose proof (hw_cnt h Hw) as Hcnt.
  assert (Hirr : eqv e e) by (split; apply sw_irrefl).
  assert (He : elems (mk_htable (u32 (elem_cnt h + 1)) (bucket_cnt h) (<[Z.to_nat (hash e mod bucket_cnt h) := e :: l]> (buckets h))) ≡ₚ e :: elems h) by done.
  split_and!; [|done|simpl; rewrite u32_small; lia]. split.
  - apply (hw_pow h Hw).
  - simpl. rewrite length_insert. apply (hw_len h Hw).
  - simpl. apply placed_push; [apply (hw_place h Hw)|done].
  - rewrite He. constructor; [|apply (hw_nodup h Hw)]. intros Hin. by apply (Hn e).
  - intros a b. rewrite He, !elem_of_cons. intros [->|Ha] [->|Hb] Heq; [done| | |by apply (hw_uniq h Hw)].
    + destruct (Hn b Hb). by destruct Heq.
    + by destruct (Hn a Ha).
  - rewrite He. simpl. rewrite u32_small; lia.
Qed.

Lemma join_filter (P : Z → Prop) `{∀ x, Decision (P x)} (bs : list (list Z)) : mjoin (filter P <$> bs) = filter P (mjoin bs).
Proof using. induction bs as [|l r IH]; [done|]. simpl. by rewrite filter_app, <- IH. Qed.

Lemma filter_ne_perm (e : Z) l : NoDup l → e ∈ l → l ≡ₚ e :: filter (λ x, x ≠ e) l.
Proof using.
  intros Hnd He. apply list_elem_of_split in He as (l1 & l2 & ->).
  apply NoDup_app in Hnd as (Hn1 & Hd & Hn2). apply NoDup_cons in Hn2 as [Hne Hn2].
  rewrite filter_app, filter_cons_False by naive_solver. rewrite <- Permutation_middle. f_equiv.
  assert (Hf : ∀ l : list Z, e ∉ l → filter (λ x, x ≠ e) l = l).
  { intros l Hl. induction l as [|x r IH]; [done|]. apply not_elem_of_cons in Hl as [? Hl].
    rewrite filter_cons_True by congruence. f_equal. auto. }
  rewrite !Hf; [done|done|]. intros Hin. apply (Hd e Hin). left.
Qed.

Lemma remove_wf h e : hash_wf h → h.(elem_cnt) < 2 ^ 32 → e ∈ elems h →
  hash_wf (remove_elem h e) ∧ elems h ≡ₚ e :: elems (remove_elem h e) ∧ (remove_elem h e).(elem_cnt) = h.(elem_cnt) - 1.
Proof using.
  intros Hw Hc He. pose proof (hw_cnt h Hw) as Hcnt.
  assert (Hel : elems (remove_elem h e) = filter (λ x, x ≠ e) (elems h)) by apply join_filter.
  pose proof (filter_ne_perm e (elems h) (hw_nodup h Hw) He) as Hp. rewrite <- Hel in Hp.
  pose proof (Permutation_length Hp) as Hlen. simpl in Hlen.
  assert (Hsub : ∀ x, x ∈ elems (remove_elem h e) → x ∈ elems h) by (intros x Hx; rewrite Hp; by right).
  split_and!; [|done|simpl; rewrite u32_small; lia]. split; [apply Hw|..].
  - simpl. rewrite length_fmap. apply (hw_len h Hw).
  - intros i l x Hi Hx. simpl in *. rewrite list_lookup_fmap in Hi. destruct (buckets h !! i) as [l'|] eqn:E; [|done].
    simpl in Hi. injection Hi as <-. apply list_elem_of_filter in Hx as [_ Hx]. by eapply (hw_place h Hw).
  - pose proof (hw_nodup h Hw) as Hn. rewrite Hp in Hn. by apply NoDup_cons in Hn as [_ ?].
  - intros a b Ha Hb. apply (hw_uniq h Hw); auto.
  - simpl. rewrite u32_small; lia.
Qed.
End table.

(** * The table is a set *)

Section spec.
Context (hash : Z → Z) (less : Z → Z → bool) `{!HashFuns hash less}.
Context (h : htable) (Hw : hash_wf hash less h) (Hc : h.(elem_cnt) < 2 ^ 32 - 1).

Lemma hash_insert_eq e alloc : ∃ old h', hash_insert hash less h e alloc = Ok (old, h') ∧ hash_wf hash less h' ∧
  match old with
  | Some x => x ∈ elems h ∧ eqv less x e ∧ elems h' ≡ₚ elems h
  | None => (∀ x, x ∈ elems h → ¬ eqv less x e) ∧ elems h' ≡ₚ e :: elems h
  end.
Proof using All.
  unfold hash_insert. destruct (find_spec hash less h e Hw) as (l & Hl & Hf). rewrite Hl. cbn [ofault mbind outcome_bind].
  destruct (find_elem less l e) as [x|]; cbn [mbind outcome_bind].
  - destruct (rehash_spec hash less h alloc Hw ltac:(lia)) as (h' & -> & Hw' & Hp). cbn [mbind outcome_bind].
    destruct Hf. exists (Some x), h'. done.
  - destruct (insert_wf hash less h e Hw Hc Hf) as (h1 & -> & Hw1 & Hp1 & Hc1). cbn [mbind outcome_bind].
    destruct (rehash_spec hash less h1 alloc Hw1 ltac:(lia)) as (h' & -> & Hw' & Hp). cbn [mbind outcome_bind].
    exists None, h'. split_and!; [done|done|done|by rewrite Hp].
Qed.

Lemma hash_delete_eq e alloc : ∃ found h', hash_delete hash less h e alloc = Ok (found, h') ∧ hash_wf hash less h' ∧
  match found with
  | Some x => eqv less x e ∧ elems h ≡ₚ x :: elems h'
  | None => (∀ x, x ∈ elems h → ¬ eqv less x e) ∧ h' = h
  end.
Proof using All.
  unfold hash_delete. destruct (find_spec hash less h e Hw) as (l & Hl & Hf). rewrite Hl. cbn [ofault mbind outcome_bind].
  destruct (find_elem less l e) as [x|]; [|by exists None, h]. destruct Hf as [Hx He].
  destruct (remove_wf hash less h x Hw ltac:(lia) Hx) as (Hw1 & Hp1 & Hc1).
  destruct (rehash_spec hash less (remove_elem h x) alloc Hw1 ltac:(lia)) as (h' & -> & Hw' & Hp). cbn [mbind outcome_bind].
  exists (Some x), h'. split_and!; [done..|]. by rewrite Hp.
Qed.

Lemma hash_replace_eq e alloc : ∃ old h', hash_replace hash less h e alloc = Ok (old, h') ∧ hash_wf hash less h' ∧
  match old with
  | Some x => eqv less x e ∧ e :: elems h ≡ₚ x :: elems h'
  | None => (∀ x, x ∈ elems h → ¬ eqv less x e) ∧ elems h' ≡ₚ e :: elems h
  end.
Proof using All.
  unfold hash_replace. destruct (find_spec hash less h e Hw) as (l & Hl & Hf). rewrite Hl. cbn [ofault mbind outcome_bind].
  destruct (find_elem less l e) as [x|]; cbv zeta.
  - destruct Hf as [Hx He]. destruct (remove_wf hash less h x Hw ltac:(lia) Hx) as (Hw1 & Hp1 & Hc1).
    assert (Hn : ∀ y, y ∈ elems (remove_elem h x) → ¬ eqv less y e).
    { intros y Hy Hye. assert (Hyh : y ∈ elems h) by (rewrite Hp1; by right).
      assert (y = x) as ->.
      { apply (hw_uniq hash less h Hw); [done|done|]. destruct He as [E1 E2], Hye as [E3 E4]. split.
        - destruct (less y x) eqn:E; [|done]. destruct (sw_negtrans y e x E); congruence.
        - destruct (less x y) eqn:E; [|done]. destruct (sw_negtrans x e y E); congruence. }
      pose proof (hw_nodup hash less h Hw) as Hnd. rewrite Hp1 in Hnd. by apply NoDup_cons in Hnd as [? _]. }
    destruct (insert_wf hash less (remove_elem h x) e Hw1 ltac:(lia) Hn) as (h1 & E1 & Hw2 & Hp2 & Hc2).
    change (find_bucket hash (remove_elem h x) e) with (find_bucket hash h e) in E1. rewrite E1. cbn [mbind outcome_bind].
    destruct (rehash_spec hash less h1 alloc Hw2 ltac:(lia)) as (h' & -> & Hw' & Hp). cbn [mbind outcome_bind].
    exists (Some x), h'. split_and!; [done|done|done|]. rewrite Hp, Hp2, Hp1. constructor.
  - destruct (insert_wf hash less h e Hw Hc Hf) as (h1 & -> & Hw1 & Hp1 & Hc1). cbn [mbind outcome_bind].
    destruct (rehash_spec hash less h1 alloc Hw1 ltac:(lia)) as (h' & -> & Hw' & Hp). cbn [mbind outcome_bind].
    exists None, h'. split_and!; [done|done|done|by rewrite Hp].
Qed.
End spec.

(** [hash_insert] adds the element unless an equal one is there, which it returns;
    the table keeps every element and stays well formed, whether or not the
    memory for a resize is there. *)
Theorem hash_insert_spec hash less `{!HashFuns hash less} h e alloc :
  hash_wf hash less h → h.(elem_cnt) < 2 ^ 32 - 1 →
  ∃ old h', hash_insert hash less h e alloc = Ok (old, h') ∧ hash_wf hash less h' ∧
    match old with
    | Some x => x ∈ elems h ∧ eqv less x e ∧ elems h' ≡ₚ elems h
    | None => (∀ x, x ∈ elems h → ¬ eqv less x e) ∧ elems h' ≡ₚ e :: elems h
    end.
Proof. intros Hw Hc. by apply hash_insert_eq. Qed.

(** [hash_delete] removes the element equal to its argument, if there is one, and
    no other. *)
Theorem hash_delete_spec hash less `{!HashFuns hash less} h e alloc :
  hash_wf hash less h → h.(elem_cnt) < 2 ^ 32 - 1 →
  ∃ found h', hash_delete hash less h e alloc = Ok (found, h') ∧ hash_wf hash less h' ∧
    match found with
    | Some x => eqv less x e ∧ elems h ≡ₚ x :: elems h'
    | None => (∀ x, x ∈ elems h → ¬ eqv less x e) ∧ h' = h
    end.
Proof. intros Hw Hc. by apply hash_delete_eq. Qed.


Lemma hash_apply_elems {S} (action : Z → S → S) h s : hash_apply action h s = foldl (λ s e, action e s) s (elems h).
Proof.
  unfold hash_apply, elems. revert s. induction (buckets h) as [|l r IH]; intros s; [done|].
  simpl. by rewrite foldl_app, IH.
Qed.

(** a new table is empty and well formed *)
Lemma hash_init_wf hash less alloc h : hash_init alloc = Some h → hash_wf hash less h ∧ elems h = [].
Proof.
  destruct alloc; [|done]. intros [= <-]. split; [|done]. split; simpl.
  - by exists 2.
  - done.
  - intros i l e Hi He. apply (lookup_replicate 4 (@nil Z)) in Hi as [-> _]. by apply elem_of_nil in He.
  - constructor.
  - intros a b Ha. by apply elem_of_nil in Ha.
  - done.
Qed.

(** elements that are hashed and compared as integers *)
#[global] Instance ex_hashfuns : HashFuns u32 Z.ltb.
Proof.
  split.
  - split.
    + intros a. apply Z.ltb_irrefl.
    + intros a b c. rewrite !Z.ltb_lt. lia.
    + intros a b c. rewrite !Z.ltb_lt. lia.
  - intros a b. rewrite !Z.ltb_ge. intros ??. f_equal. lia.
  - apply u32_range.
Defined.

Definition ex_table : htable := hash_clear (mk_htable 0 4 []).

Lemma hash_insert_spec_witness : ∃ old h', hash_insert u32 Z.ltb ex_table 5 true = Ok (old, h') ∧
  hash_wf u32 Z.ltb h' ∧
  match old with
  | Some x => x ∈ elems ex_table ∧ eqv Z.ltb x 5 ∧ elems h' ≡ₚ elems ex_table
  | None => (∀ x, x ∈ elems ex_table → ¬ eqv Z.ltb x 5) ∧ elems h' ≡ₚ 5 :: elems ex_table
  end.
Proof. apply (hash_insert_spec u32 Z.ltb ex_table 5 true); [apply (hash_init_wf u32 Z.ltb true); reflexivity|reflexivity]. Defined.

Lemma hash_delete_spec_witness : ∃ found h', hash_delete u32 Z.ltb ex_table 5 true = Ok (found, h') ∧
  hash_wf u32 Z.ltb h' ∧
  match found with
  | Some x => eqv Z.ltb x 5 ∧ elems ex_table ≡ₚ x :: elems h'
  | None => (∀ x, x ∈ elems ex_table → ¬ eqv Z.ltb x 5) ∧ h' = ex_table
  end.
Proof. apply (hash_delete_spec u32 Z.ltb ex_table 5 true); [apply (hash_init_wf u32 Z.ltb true); reflexivity|reflexivity]. Defined.

