(* ===== verification/Vaddr.v ===== *)
(** threads/vaddr.h, threads/pte.h and lib/round.h: addresses, pages and page-table
    entries as 32-bit words. *)

From S2P Require Import Prelude.

Definition PGBITS : Z := 12.
Definition PGSIZE : Z := 4096.
Definition PGMASK : Z := 0xfff.
Definition PHYS_BASE : Z := 0xc0000000.

Definition pg_ofs (va : Z) : Z := Z.land va PGMASK.
Definition pg_no (va : Z) : Z := Z.shiftr va PGBITS.
Definition pg_round_up (va : Z) : Z := Z.land (u32 (va + PGSIZE - 1)) (u32 (Z.lnot PGMASK)).
Definition pg_round_down (va : Z) : Z := Z.land va (u32 (Z.lnot PGMASK)).

Definition is_user_vaddr (vaddr : Z) : bool := vaddr <? PHYS_BASE.
Definition is_kernel_vaddr (vaddr : Z) : bool := PHYS_BASE <=? vaddr.

Definition ptov (paddr : Z) : outcome Z :=
  _ ← oassert (paddr <? PHYS_BASE); Ok (u32 (paddr + PHYS_BASE)).

Definition vtop (vaddr : Z) : outcome Z :=
  _ ← oassert (is_kernel_vaddr vaddr); Ok (u32 (vaddr - PHYS_BASE)).

(** lib/round.h, with the 32-bit sum the callers' operands have *)
Definition DIV_ROUND_UP (x step : Z) : Z := u32 (x + step - 1) / step.
Definition ROUND_UP (x step : Z) : Z := u32 (DIV_ROUND_UP x step * step).
Definition ROUND_DOWN (x step : Z) : Z := u32 (x / step * step).

(** ** Page-table entries *)

Definition PTBITS : Z := 10.
Definition PTSHIFT : Z := PGBITS.
Definition PTMASK : Z := 0x3ff000.
Definition PDSHIFT : Z := PTSHIFT + PTBITS.

Definition pt_no (va : Z) : Z := Z.shiftr (Z.land va PTMASK) PTSHIFT.
Definition pd_no (va : Z) : Z := Z.shiftr va PDSHIFT.

Definition PTE_ADDR : Z := 0xfffff000.
Definition PTE_P : Z := 0x1.
Definition PTE_W : Z := 0x2.
Definition PTE_U : Z := 0x4.
Definition PTE_A : Z := 0x20.
Definition PTE_D : Z := 0x40.

(** [(e & flag) != 0] *)
Definition has (e flag : Z) : bool := negb (Z.land e flag =? 0).

Definition pde_create (pt : Z) : outcome Z :=
  _ ← oassert (pg_ofs pt =? 0);
  p ← vtop pt; Ok (Z.lor (Z.lor (Z.lor p PTE_U) PTE_P) PTE_W).

Definition pde_get_pt (pde : Z) : outcome Z :=
  _ ← oassert (has pde PTE_P); ptov (Z.land pde PTE_ADDR).

Definition pte_create_kernel (page : Z) (writable : bool) : outcome Z :=
  _ ← oassert (pg_ofs page =? 0);
  p ← vtop page; Ok (Z.lor (Z.lor p PTE_P) (if writable then PTE_W else 0)).

Definition pte_create_user (page : Z) (writable : bool) : outcome Z :=
  e ← pte_create_kernel page writable; Ok (Z.lor e PTE_U).

Definition pte_get_page (pte : Z) : outcome Z := ptov (Z.land pte PTE_ADDR).

(** * Arithmetic of the masks *)

Lemma pg_ofs_eq va : pg_ofs va = va mod 4096.
Proof. unfold pg_ofs, PGMASK. change 0xfff with (Z.ones 12). by rewrite Z.land_ones. Qed.

Lemma pg_no_eq va : pg_no va = va / 4096.
Proof. unfold pg_no, PGBITS. by rewrite Z.shiftr_div_pow2. Qed.

Lemma pd_no_eq va : pd_no va = va / 2 ^ 22.
Proof. unfold pd_no, PDSHIFT. by rewrite Z.shiftr_div_pow2. Qed.

Lemma pt_no_eq va : pt_no va = (va / 4096) mod 1024.
Proof.
  unfold pt_no, PTMASK, PTSHIFT, PGBITS. rewrite Z.shiftr_land, (Z.shiftr_div_pow2 va) by lia.
  change (Z.shiftr 0x3ff000 12) with (Z.ones 10). by rewrite Z.land_ones.
Qed.

(** clearing the low twelve bits of a word *)
Lemma land_hi va : 0 ≤ va < 2 ^ 32 → Z.land va 0xfffff000 = 4096 * (va / 4096).
Proof.
  intros Hva. replace (4096 * (va / 4096)) with (Z.shiftl (Z.shiftr va 12) 12)
    by (rewrite Z.shiftl_mul_pow2, Z.shiftr_div_pow2 by lia; change (2 ^ 12) with 4096; lia).
  change 0xfffff000 with (Z.shiftl (Z.ones 20) 12). apply Z.bits_inj'. intros n Hn.
  rewrite Z.land_spec, !Z.shiftl_spec by done. destruct (decide (n < 12)).
  { rewrite !(Z.testbit_neg_r _ (n - 12)) by lia. apply andb_false_r. }
  rewrite Z.shiftr_spec by lia. replace (n - 12 + 12) with n by lia. destruct (decide (n < 32)).
  - rewrite Z.ones_spec_low by lia. apply andb_true_r.
  - rewrite Z.ones_spec_high by lia. rewrite andb_false_r. symmetry.
    by apply (Z.bounded_iff_bits_nonneg 32 va); lia.
Qed.

Lemma pg_round_down_eq va : 0 ≤ va < 2 ^ 32 → pg_round_down va = 4096 * (va / 4096).
Proof. apply land_hi. Qed.

(** an address is its page and its offset *)
Lemma pg_split va : va = 4096 * pg_no va + pg_ofs va.
Proof. rewrite pg_no_eq, pg_ofs_eq. apply Z.div_mod. lia. Qed.

Lemma ptov_eq p : 0 ≤ p < 2 ^ 30 → ptov p = Ok (p + PHYS_BASE).
Proof.
  intros Hp. unfold ptov, PHYS_BASE. destruct (Z.ltb_spec p 0xc0000000); [|lia]. simpl.
  by rewrite u32_small by lia.
Qed.

Lemma vtop_eq v : PHYS_BASE ≤ v < 2 ^ 32 → vtop v = Ok (v - PHYS_BASE).
Proof.
  unfold vtop, is_kernel_vaddr, PHYS_BASE. intros Hp. destruct (Z.leb_spec 0xc0000000 v); [|lia]. simpl.
  by rewrite u32_small by lia.
Qed.
