(* ===== verification/Palloc.v ===== *)
(** threads/palloc.c: the page allocator.

    A pool is the bitmap of its used pages and the address of the first of them; the
    allocator is the two pools and the memory the pages lie in.  Of a pool's lock
    only its effect is kept: the search and the update of the bitmap are one step.
    A page is [used] while its bit is set. *)

From S2P Require Import Prelude Vaddr Bitmap CString.

Definition PAL_ASSERT : Z := 1.
Definition PAL_ZERO : Z := 2.
Definition PAL_USER : Z := 4.

Record pool := mk_pool { used_map : bitmap; base : Z }.

Record pstate := mk_pstate { kernel_pool : pool; user_pool : pool; pmem : mem }.

Abbreviation P := (M pstate).

Definition set_map (b : bitmap) (p : pool) : pool := mk_pool b p.(base).

(** [true]: the user pool *)
Definition pool_of (u : bool) (s : pstate) : pool := if u then s.(user_pool) else s.(kernel_pool).

Definition set_pool (u : bool) (p : pool) (s : pstate) : pstate :=
  if u then mk_pstate s.(kernel_pool) p s.(pmem) else mk_pstate p s.(user_pool) s.(pmem).

(** a routine that only reads and writes memory *)
Definition in_mem {A} (x : B A) : P A := λ s,
  match x s.(pmem) with
  | Ok (a, m) => Ok (a, mk_pstate s.(kernel_pool) s.(user_pool) m)
  | Err e => Err e
  end.

(** * The routines *)

(** [init i]: what word [i] of the memory given to the bitmap holds before *)
Definition init_pool (base page_cnt : Z) (init : nat → Z) : outcome pool :=
  let bm_pages := DIV_ROUND_UP (bitmap_buf_size page_cnt) PGSIZE in
  _ ← oassert (bm_pages <=? page_cnt);
  let page_cnt := page_cnt - bm_pages in
  b ← bitmap_create_in_buf page_cnt (u32 (bm_pages * PGSIZE)) (init <$> seq 0 (Z.to_nat (elem_cnt page_cnt)));
  Ok (mk_pool b (u32 (base + bm_pages * PGSIZE))).

(** the memory below 1 MB and above the end of RAM belongs to no pool *)
Definition palloc_init (init_ram_pages user_page_limit : Z) (kinit uinit : nat → Z) (m : mem) : outcome pstate :=
  free_start ← ptov (1024 * 1024);
  free_end ← ptov (u32 (init_ram_pages * PGSIZE));
  let free_pages := u32 (s32 (free_end - free_start) ÷ PGSIZE) in
  let user_pages := free_pages / 2 in
  let user_pages := if user_pages >? user_page_limit then user_page_limit else user_pages in
  let kernel_pages := free_pages - user_pages in
  k ← init_pool free_start kernel_pages kinit;
  u ← init_pool (u32 (free_start + u32 (kernel_pages * PGSIZE))) user_pages uinit;
  Ok (mk_pstate k u m).

Definition page_from_pool (p : pool) (page : Z) : bool :=
  let page_no := pg_no page in
  let start_page := pg_no p.(base) in
  let end_page := u32 (start_page + bitmap_size p.(used_map)) in
  (start_page <=? page_no) && (page_no <? end_page).

Definition palloc_get_multiple (flags page_cnt : Z) : P Z :=
  let u := has flags PAL_USER in
  if page_cnt =? 0 then mret 0 else
  p ← gets (pool_of u);
  '(page_idx, b) ← lift_out (bitmap_scan_and_flip p.(used_map) 0 page_cnt false);
  modify (set_pool u (set_map b p));;
  let pages := if negb (page_idx =? BITMAP_ERROR) then u32 (p.(base) + PGSIZE * page_idx) else 0 in
  (if negb (pages =? 0) then
     if has flags PAL_ZERO then in_mem (memset pages 0 (u32 (PGSIZE * page_cnt)));; mret tt else mret tt
   else assert (negb (has flags PAL_ASSERT)));;
  mret pages.

Definition palloc_get_page (flags : Z) : P Z := palloc_get_multiple flags 1.

Definition palloc_free_multiple (pages page_cnt : Z) : P unit :=
  assert (pg_ofs pages =? 0);;
  if (pages =? 0) || (page_cnt =? 0) then mret tt else
  k ← gets kernel_pool; u ← gets user_pool;
  w ← (if page_from_pool k pages then mret false
       else if page_from_pool u pages then mret true else fail AssertFail);
  p ← gets (pool_of w);
  let page_idx := u32 (pg_no pages - pg_no p.(base)) in
  in_mem (memset pages 0xcc (u32 (PGSIZE * page_cnt)));;
  a ← lift_out (bitmap_all p.(used_map) page_idx page_cnt);
  assert a;;
  b ← lift_out (bitmap_set_multiple p.(used_map) page_idx page_cnt false);
  modify (set_pool w (set_map b p)).

Definition palloc_free_page (page : Z) : P unit := palloc_free_multiple page 1.

(** * What a pool promises *)

Definition pool_pages (p : pool) : Z := p.(used_map).(bit_cnt).

(** the address just past a pool *)
Definition pool_end (p : pool) : Z := p.(base) + PGSIZE * pool_pages p.

(** page [a], by its address, is one of [p]'s and in use *)
Definition used (p : pool) (a : Z) : Prop :=
  p.(base) ≤ a < pool_end p ∧ a mod PGSIZE = 0 ∧ bit p.(used_map) ((a - p.(base)) / PGSIZE) = true.

Record pool_wf (p : pool) : Prop := {
  pwf_map : bitmap_wf p.(used_map);
  pwf_base : 0 < p.(base) ∧ p.(base) mod PGSIZE = 0;
  pwf_end : pool_end p ≤ 2 ^ 32 - PGSIZE
}.

Record palloc_wf (s : pstate) : Prop := {
  awf_kernel : pool_wf s.(kernel_pool);
  awf_user : pool_wf s.(user_pool);
  awf_order : pool_end s.(kernel_pool) ≤ s.(user_pool).(base);
  awf_mem : ∀ u, writable s.(pmem) (pool_of u s).(base) (pool_end (pool_of u s) - (pool_of u s).(base))
}.

(** * Allocation *)

Lemma in_mem_eq {A} (x : B A) s a m : x s.(pmem) = Ok (a, m) →
  in_mem x s = Ok (a, mk_pstate s.(kernel_pool) s.(user_pool) m).
Proof. intros H. unfold in_mem. by rewrite H. Qed.

Lemma used_page p i : 0 ≤ i < pool_pages p → p.(base) mod PGSIZE = 0 →
  used p (p.(base) + PGSIZE * i) ↔ bit p.(used_map) i = true.
Proof.
  intros Hi Hb. unfold used, pool_end, PGSIZE in *.
  replace (base p + 4096 * i - base p) with (i * 4096) by lia. rewrite Z.div_mul by done.
  split; [tauto|]. intros. split_and!; [lia|lia| |done].
  rewrite (Z.mul_comm 4096), Z.mod_add by done. done.
Qed.

(** the pages of a pool are its base plus a multiple of the page size *)
Lemma page_index p a : p.(base) mod PGSIZE = 0 → a mod PGSIZE = 0 → p.(base) ≤ a < pool_end p →
  ∃ i, 0 ≤ i < pool_pages p ∧ a = p.(base) + PGSIZE * i.
Proof.
  unfold pool_end, PGSIZE. intros Hb Ha Hr. exists ((a - base p) / 4096).
  pose proof (Z.div_mod a 4096). pose proof (Z.div_mod (base p) 4096).
  assert (a - base p = (a / 4096 - base p / 4096) * 4096) as -> by lia. rewrite Z.div_mul by done. lia.
Qed.

Lemma scan_flip_error b start cnt v b' :
  bitmap_scan_and_flip b start cnt v = Ok (BITMAP_ERROR, b') → b' = b.
Proof.
  unfold bitmap_scan_and_flip. destruct (bitmap_scan b start cnt v) as [i|]; [|done]. simpl.
  destruct (Z.eqb_spec i BITMAP_ERROR); [by intros [= ->]|].
  destruct (bitmap_set_multiple _ _ _ _); simpl; [|done]. by intros [= -> _].
Qed.

Lemma pool_of_set u p s : pool_of u (set_pool u p s) = p.
Proof. by destruct u. Qed.

Lemma pool_of_set_ne u p s : pool_of (negb u) (set_pool u p s) = pool_of (negb u) s.
Proof. by destruct u. Qed.

Lemma set_pool_id u s : set_pool u (pool_of u s) s = s.
Proof. by destruct u, s. Qed.

Lemma pool_wf_of u s : palloc_wf s → pool_wf (pool_of u s).
Proof. intros []. by destruct u. Qed.

(** replacing a pool's bitmap by one of the same size *)
Lemma palloc_wf_set u s b : palloc_wf s → bitmap_wf b → b.(bit_cnt) = pool_pages (pool_of u s) →
  palloc_wf (set_pool u (set_map b (pool_of u s)) s).
Proof.
  intros Hwf Hb Hc. pose proof (pool_wf_of u s Hwf) as [].
  assert (E : pool_end (set_map b (pool_of u s)) = pool_end (pool_of u s)).
  { unfold pool_end, pool_pages in *. simpl. by rewrite Hc. }
  assert (pool_wf (set_map b (pool_of u s))) by (split; [done..|by rewrite E]).
  destruct Hwf. split.
  - by destruct u.
  - by destruct u.
  - destruct u; simpl in *; [done|]. by rewrite E.
  - intros w. specialize (awf_mem0 w). destruct u, w; simpl in *; try done; by rewrite E.
Qed.

Lemma palloc_wf_mem s m : palloc_wf s → (∀ a, is_Some (s.(pmem) !! a) → is_Some (m !! a)) →
  palloc_wf (mk_pstate s.(kernel_pool) s.(user_pool) m).
Proof. intros [] Hm. split; [done..|]. intros u a Ha. apply Hm. apply (awf_mem0 u). by destruct u. Qed.

(** the pages of the group of [n] at [a] *)
Definition in_group (a n x : Z) : Prop := a ≤ x < a + PGSIZE * n ∧ x mod PGSIZE = 0.

(** what [palloc_get_multiple] has done when it returns the group at [a] *)
Record got (flags n : Z) (s : pstate) (a : Z) (s' : pstate) (u := has flags PAL_USER) : Prop := {
  got_wf : palloc_wf s';
  got_addr : 0 < a ∧ a mod PGSIZE = 0 ∧ (pool_of u s).(base) ≤ a ∧ a + PGSIZE * n ≤ pool_end (pool_of u s);
  got_free : ∀ x, in_group a n x → ¬ used (pool_of u s) x;
  got_used : ∀ x, used (pool_of u s') x ↔ used (pool_of u s) x ∨ in_group a n x;
  got_base : (pool_of u s').(base) = (pool_of u s).(base) ∧ pool_pages (pool_of u s') = pool_pages (pool_of u s);
  got_other : pool_of (negb u) s' = pool_of (negb u) s;
  got_mem : s'.(pmem) = if has flags PAL_ZERO
                        then write s.(pmem) a (replicate (Z.to_nat (PGSIZE * n)) 0) else s.(pmem)
}.

(** every group of [n] pages of the pool has a used page *)
Definition no_group (p : pool) (n : Z) : Prop :=
  ∀ a, a mod PGSIZE = 0 → p.(base) ≤ a → a + PGSIZE * n ≤ pool_end p → ∃ x, in_group a n x ∧ used p x.

Section update.
Context (p : pool) (b : bitmap) (i n : Z) (v : bool).
Hypothesis Hp : pool_wf p.
Hypothesis Hc : b.(bit_cnt) = pool_pages p.
Hypothesis Hi : 0 ≤ i.
Hypothesis Hn : i + n ≤ pool_pages p.
Hypothesis Hb : ∀ j, 0 ≤ j → bit b j = if (i <=? j) && (j <? i + n) then v else bit p.(used_map) j.

Lemma in_group_index j : in_group (p.(base) + PGSIZE * i) n (p.(base) + PGSIZE * j) ↔ i ≤ j < i + n.
Proof using Hp.
  destruct Hp as [_ [_ Hm] _]. unfold in_group, PGSIZE in *. rewrite (Z.mul_comm 4096 j), Z.mod_add by done. lia.
Qed.

Lemma used_update x : used (set_map b p) x ↔
  in_group (p.(base) + PGSIZE * i) n x ∧ v = true ∨ ¬ in_group (p.(base) + PGSIZE * i) n x ∧ used p x.
Proof using All.
  pose proof (pwf_base _ Hp) as [_ Hm]. pose proof (wf_cnt _ (pwf_map _ Hp)) as Hcnt.
  assert (Hend : pool_end (set_map b p) = pool_end p) by (unfold pool_end, pool_pages in *; simpl; by rewrite Hc).
  destruct (decide (x mod PGSIZE = 0 ∧ base p ≤ x < pool_end p)) as [[Hx Hr]|Hx].
  - destruct (page_index p x Hm Hx Hr) as (j & Hj & ->). rewrite (used_page p) by done.
    assert (used (set_map b p) (base p + PGSIZE * j) ↔ bit b j = true) as ->
      by (apply (used_page (set_map b p)); [unfold pool_pages in *; simpl; lia|done]).
    rewrite in_group_index, Hb by lia.
    destruct (Z.leb_spec i j), (Z.ltb_spec j (i + n)); simpl; split; intuition lia.
  - split; intros H.
    + destruct Hx. destruct H as (H & H' & _). split; [done|]. rewrite Hend in H. done.
    + destruct Hx. destruct H as [[[H H'] _]|[_ (H & H' & _)]]; split; try done.
      unfold pool_end, PGSIZE in *. lia.
Qed.
End update.

Lemma no_run_no_group p n : pool_wf p → 0 < n →
  (∀ j, 0 ≤ j → j + n ≤ pool_pages p → ¬ run_at p.(used_map) n false j) → no_group p n.
Proof.
  intros Hp Hn Hr a Ha Hlo Hhi. pose proof Hp as [Hb [Hb0 Hbm] Hend].
  destruct (page_index p a Hbm Ha) as (i & Hi & ->); [unfold pool_end, PGSIZE in *; lia|].
  unfold pool_end in Hhi.
  destruct (decide (Exists (λ j, bit (used_map p) j = true) (seqZ i n))) as [He|He].
  - apply Exists_exists in He as (j & Hj & Hbj). apply elem_of_seqZ in Hj.
    exists (base p + PGSIZE * j). split; [by apply (in_group_index p i n Hp)|].
    apply used_page; [unfold PGSIZE in *; lia|done|done].
  - destruct (Hr i); [lia|unfold PGSIZE in *; lia|]. intros j Hj.
    apply not_true_iff_false. intros Hbj. apply He, Exists_exists. exists j. split; [|done].
    apply elem_of_seqZ. lia.
Qed.

Lemma run_group_free p n i : pool_wf p → 0 ≤ i → i + n ≤ pool_pages p → run_at p.(used_map) n false i →
  ∀ x, in_group (p.(base) + PGSIZE * i) n x → ¬ used p x.
Proof.
  intros Hp Hi Hn Hr x Hx. pose proof Hp as [_ [_ Hbm] _].
  destruct (page_index p x Hbm (proj2 Hx)) as (j & Hj & ->).
  { destruct Hx as [Hx _]. unfold pool_end, PGSIZE in *. lia. }
  rewrite used_page by done. apply (in_group_index p i n Hp) in Hx. by rewrite Hr.
Qed.

(** the state after the bits of a free group have been set *)
Lemma got_intro flags s b r n (u := has flags PAL_USER) (p := pool_of u s) (a := p.(base) + PGSIZE * r) m :
  palloc_wf s → bitmap_wf b → b.(bit_cnt) = pool_pages p → 0 ≤ r → 0 < n → r + n ≤ pool_pages p →
  run_at p.(used_map) n false r →
  (∀ j, 0 ≤ j → bit b j = if (r <=? j) && (j <? r + n) then true else bit p.(used_map) j) →
  m = (if has flags PAL_ZERO then write s.(pmem) a (replicate (Z.to_nat (PGSIZE * n)) 0) else s.(pmem)) →
  got flags n s a (mk_pstate (set_pool u (set_map b p) s).(kernel_pool) (set_pool u (set_map b p) s).(user_pool) m).
Proof.
  intros Hwf Hb Hc Hr Hn Hle Hrun Hbit ->. pose proof (pool_wf_of u s Hwf) as Hp. fold p in Hp.
  pose proof Hp as [_ [Hb0 Hbm] Hend]. pose proof (palloc_wf_set u s b Hwf Hb Hc) as Hwf1. fold p in Hwf1.
  split; fold u.
  - apply palloc_wf_mem; [done|]. intros x Hx. destruct (has flags PAL_ZERO); [apply write_is_Some|]; by destruct u.
  - fold p. unfold a, pool_end, PGSIZE in *. split_and!; [lia| |lia|lia].
    by rewrite (Z.mul_comm 4096 r), Z.mod_add.
  - by apply run_group_free.
  - intros x. fold p. replace (pool_of u _) with (set_map b p) by (by destruct u).
    rewrite (used_update p b r n true) by done. fold a. pose proof (run_group_free p n r Hp Hr Hle Hrun x) as Hf.
    fold a in Hf. split; [tauto|]. intros [H|H]; [|by left]. right. split; [|done]. intros ?. by apply Hf.
  - destruct u; split; try done; by apply Hc.
  - by destruct u.
  - done.
Qed.

Lemma palloc_get_cases s flags n : palloc_wf s → 0 < n →
  (∃ a s', palloc_get_multiple flags n s = Ok (a, s') ∧ got flags n s a s') ∨
  (no_group (pool_of (has flags PAL_USER) s) n ∧
   palloc_get_multiple flags n s = if has flags PAL_ASSERT then Err AssertFail else Ok (0, s)).
Proof.
  intros Hwf Hn. set (u := has flags PAL_USER) in *.
  pose proof (pool_wf_of u s Hwf) as Hp. set (p := pool_of u s) in *. pose proof Hp as [Hb [Hb0 Hbm] Hend].
  pose proof (wf_cnt _ Hb) as Hcnt.
  destruct (bitmap_scan_and_flip_spec (used_map p) 0 n false Hb) as (r & b' & E & Hr & Hb' & Hc' & Hbit); [lia..|].
  unfold palloc_get_multiple. fold u. destruct (Z.eqb_spec n 0) as [?|_]; [lia|].
  rewrite (bind_ok (gets (pool_of u)) _ s p s) by done.
  rewrite (bind_ok _ _ _ _ _ (lift_out_eq _ _ s E)). cbv beta iota.
  rewrite (bind_ok (modify _) _ s tt (set_pool u (set_map b' p) s)) by done.
  destruct (Z.eqb_spec r BITMAP_ERROR) as [->|Hne]; simpl negb; cbv beta iota.
  - right. destruct Hr as [[_ Hr]|(? & ? & _)]; [|unfold BITMAP_ERROR in *; lia].
    split; [by apply no_run_no_group|].
    apply scan_flip_error in E as ->. replace (set_map (used_map p) p) with p by (by destruct p).
    unfold p. rewrite set_pool_id. by destruct (has flags PAL_ASSERT).
  - left. destruct Hr as [[? _]|(Hr0 & Hr1 & Hrun & _)]; [done|]. simpl andb in Hbit.
    set (a := base p + PGSIZE * r).
    assert (Ha : 0 < a ∧ a + PGSIZE * n ≤ pool_end p) by (unfold a, pool_end, pool_pages, PGSIZE in *; lia).
    rewrite (u32_small a), (u32_small (PGSIZE * n)) by (unfold pool_end, PGSIZE in *; lia).
    destruct (Z.eqb_spec a 0) as [?|_]; [lia|]. simpl negb. cbv beta iota.
    eexists a, _. split; [|by apply (got_intro flags s b' r n)].
    fold u p a. set (s1 := set_pool u (set_map b' p) s).
    assert (Hm1 : s1.(pmem) = s.(pmem)) by (by unfold s1; destruct u).
    destruct (has flags PAL_ZERO); [|by rewrite <- Hm1; destruct s1].
    erewrite (bind_ok (in_mem _;; mret tt)); [done|]. erewrite bind_ok; [done|].
    apply in_mem_eq. rewrite Hm1. rewrite <- (Z2Nat.id (PGSIZE * n)) at 1 by (unfold PGSIZE; lia).
    apply memset_spec; [|lia]. intros x Hx. apply (awf_mem _ Hwf u). fold p. unfold PGSIZE in *. lia.
Qed.

(** * Freeing *)

Lemma page_from_pool_spec p a : pool_wf p → a mod PGSIZE = 0 →
  page_from_pool p a = bool_decide (p.(base) ≤ a < pool_end p).
Proof.
  intros [Hb [Hb0 Hbm] Hend] Ha. pose proof (wf_cnt _ Hb). unfold page_from_pool, bitmap_size. rewrite !pg_no_eq.
  unfold pool_end, pool_pages, PGSIZE in *. pose proof (Z.div_mod a 4096). pose proof (Z.div_mod (base p) 4096).
  rewrite u32_small by lia. symmetry.
  destruct (Z.leb_spec (base p / 4096) (a / 4096)), (Z.ltb_spec (a / 4096) (base p / 4096 + bit_cnt (used_map p)));
    simpl; [apply bool_decide_true|apply bool_decide_false..]; lia.
Qed.

Lemma pool_choice s u a : palloc_wf s → a mod PGSIZE = 0 → (pool_of u s).(base) ≤ a < pool_end (pool_of u s) →
  (if page_from_pool s.(kernel_pool) a then mret false
   else if page_from_pool s.(user_pool) a then mret true else fail AssertFail) s = Ok (u, s).
Proof.
  intros [] Ha Hr. rewrite !page_from_pool_spec by done. destruct u; simpl in Hr.
  - rewrite bool_decide_false by lia. by rewrite bool_decide_true.
  - by rewrite bool_decide_true.
Qed.

(** the group of [n] pages at [a] lies in the pool [u] *)
Record group_in (s : pstate) (u : bool) (a n : Z) : Prop := {
  gi_align : a mod PGSIZE = 0;
  gi_low : (pool_of u s).(base) ≤ a;
  gi_high : a + PGSIZE * n ≤ pool_end (pool_of u s)
}.

(** what [palloc_free_multiple] does before its check that the pages are in use *)
Lemma palloc_free_eq s u a n : palloc_wf s → 0 < n → group_in s u a n →
  ∃ i, 0 ≤ i ∧ i + n ≤ pool_pages (pool_of u s) ∧ a = (pool_of u s).(base) + PGSIZE * i ∧
  palloc_free_multiple a n s =
    (let s1 := mk_pstate s.(kernel_pool) s.(user_pool) (write s.(pmem) a (replicate (Z.to_nat (PGSIZE * n)) 0xcc)) in
     if existsb (λ j, eqb (bit (pool_of u s).(used_map) j) false) (seqZ i n) then Err AssertFail
     else (b ← lift_out (bitmap_set_multiple (pool_of u s).(used_map) i n false);
           modify (set_pool u (set_map b (pool_of u s)))) s1).
Proof.
  intros Hwf Hn [Ha Hlo Hhi]. pose proof (pool_wf_of u s Hwf) as Hp. pose proof Hp as [Hb [Hb0 Hbm] Hend].
  destruct (page_index (pool_of u s) a) as (i & Hi & E); [done..|unfold PGSIZE in *; lia|].
  exists i. assert (Hin : i + n ≤ pool_pages (pool_of u s)) by (unfold pool_end, PGSIZE in *; lia).
  split_and!; [lia|done|done|]. unfold palloc_free_multiple. rewrite pg_ofs_eq.
  rewrite assert_bind by (by apply Z.eqb_eq).
  destruct (Z.eqb_spec a 0) as [?|_]; [lia|]. destruct (Z.eqb_spec n 0) as [?|_]; [lia|]. cbn [orb]. cbv beta iota.
  rewrite (bind_ok (gets kernel_pool) _ s (kernel_pool s) s) by done.
  rewrite (bind_ok (gets user_pool) _ s (user_pool s) s) by done.
  rewrite (bind_ok _ _ _ _ _ (pool_choice s u a Hwf Ha ltac:(unfold PGSIZE in *; lia))).
  rewrite (bind_ok (gets (pool_of u)) _ s (pool_of u s) s) by done.
  assert (u32 (pg_no a - pg_no (base (pool_of u s))) = i) as ->.
  { rewrite !pg_no_eq. subst a. unfold PGSIZE. rewrite (Z.mul_comm 4096 i), Z.div_add by done.
    pose proof (wf_cnt _ Hb). unfold pool_pages in *. rewrite u32_small; lia. }
  rewrite (u32_small (PGSIZE * n)) by (unfold pool_end, PGSIZE in *; lia). cbv zeta.
  erewrite (bind_ok (in_mem _)).
  2: { apply in_mem_eq. rewrite <- (Z2Nat.id (PGSIZE * n)) at 1 by (unfold PGSIZE; lia).
       apply memset_spec; [|lia]. intros x Hx. apply (awf_mem _ Hwf u). unfold PGSIZE in *. lia. }
  change (u8 204) with 204. unfold bitmap_all. rewrite bitmap_contains_eq by (done || lia). simpl mbind at 2.
  by destruct (existsb _ _).
Qed.

Lemma palloc_free_spec s u a n : palloc_wf s → 0 < n → group_in s u a n →
  (∀ x, in_group a n x → used (pool_of u s) x) →
  ∃ s', palloc_free_multiple a n s = Ok (tt, s') ∧ palloc_wf s' ∧
    (∀ x, used (pool_of u s') x ↔ used (pool_of u s) x ∧ ¬ in_group a n x) ∧
    (pool_of u s').(base) = (pool_of u s).(base) ∧ pool_pages (pool_of u s') = pool_pages (pool_of u s) ∧
    pool_of (negb u) s' = pool_of (negb u) s ∧
    s'.(pmem) = write s.(pmem) a (replicate (Z.to_nat (PGSIZE * n)) 0xcc).
Proof.
  intros Hwf Hn Hg Hu. destruct (palloc_free_eq s u a n Hwf Hn Hg) as (i & Hi & Hin & Ea & ->).
  pose proof (pool_wf_of u s Hwf) as Hp. pose proof Hp as [Hb [Hb0 Hbm] Hend].
  destruct (existsb _ _) eqn:Ex.
  { apply existsb_exists in Ex as (j & Hj & Hbj). apply list_elem_of_In, elem_of_seqZ in Hj.
    assert (Hg' : in_group a n (base (pool_of u s) + PGSIZE * j)) by (rewrite Ea; by apply in_group_index).
    apply Hu, used_page in Hg'; [|lia|done]. rewrite Hg' in Hbj. done. }
  destruct (bitmap_set_multiple_spec (used_map (pool_of u s)) i n false Hb) as (b & E & Hwfb & Hc & Hbit); [unfold pool_pages in *; lia..|].
  eexists. split; [by rewrite E|]. cbv zeta. split_and!.
  - set (m' := write _ _ _). pose proof (palloc_wf_mem s m' Hwf) as Hw. set (s1 := mk_pstate _ _ m') in *.
    replace (pool_of u s) with (pool_of u s1) by (by destruct u). apply palloc_wf_set; [|done|by destruct u].
    apply Hw. intros x Hx. by apply write_is_Some.
  - intros x. rewrite pool_of_set, (used_update (pool_of u s) b i n false) by done. rewrite <- Ea. naive_solver.
  - by rewrite pool_of_set.
  - rewrite pool_of_set. apply Hc.
  - rewrite pool_of_set_ne. by destruct u.
  - by destruct u.
Qed.

(** * Starting the allocator *)

(** the pages the bitmap of [n] pages takes *)
Definition map_pages (n : Z) : Z := (4 * ((n + 31) / 32) + 4103) / 4096.

Lemma map_pages_range n : 1 ≤ n → 1 ≤ map_pages n ≤ n.
Proof.
  intros Hn. unfold map_pages.
  assert (Hd : 0 ≤ (n + 31) / 32 < n + 31 ∧ 32 * ((n + 31) / 32) ≤ n + 31).
  { split; [split; [apply Z.div_pos|apply Z.div_lt]; lia|apply Z.mul_div_le; lia]. }
  split; [apply Z.div_le_lower_bound; lia|]. apply Z.lt_succ_r, Z.div_lt_upper_bound; lia.
Qed.

Lemma map_pages_eq n : 1 ≤ n < 2 ^ 31 → DIV_ROUND_UP (bitmap_buf_size n) PGSIZE = map_pages n.
Proof.
  intros Hn. assert (Hd : 0 ≤ (n + 31) / 32 ≤ 2 ^ 27)
    by (split; [apply Z.div_pos|apply Z.div_le_upper_bound]; lia).
  unfold DIV_ROUND_UP, bitmap_buf_size, byte_cnt, PGSIZE, sizeof_bitmap, map_pages. rewrite elem_cnt_eq by lia.
  rewrite (u32_small (4 * ((n + 31) / 32))) by lia. rewrite (u32_small (8 + _)) by lia.
  rewrite u32_small by lia. f_equal. lia.
Qed.

(** the bitmap of the pages that are left fits into the pages taken *)
Lemma map_fits n : 1 ≤ n < 2 ^ 31 → bitmap_buf_size (n - map_pages n) ≤ map_pages n * PGSIZE.
Proof.
  intros Hn. pose proof (map_pages_range n). unfold bitmap_buf_size, byte_cnt, PGSIZE, sizeof_bitmap.
  rewrite elem_cnt_eq by lia.
  assert ((n - map_pages n + 31) / 32 ≤ (n + 31) / 32) by (apply Z.div_le_mono; lia).
  assert (0 ≤ (n - map_pages n + 31) / 32) by (apply Z.div_pos; lia).
  assert ((n + 31) / 32 ≤ 2 ^ 27) by (apply Z.div_le_upper_bound; lia).
  rewrite (u32_small (4 * _)) by lia. rewrite u32_small by lia.
  assert (4 * ((n + 31) / 32) + 4103 - 4095 ≤ map_pages n * 4096); [|lia].
  unfold map_pages. pose proof (Z.mod_pos_bound (4 * ((n + 31) / 32) + 4103) 4096 ltac:(lia)).
  pose proof (Z.div_mod (4 * ((n + 31) / 32) + 4103) 4096). lia.
Qed.

Lemma init_pool_spec b0 n init : (∀ i, 0 ≤ init i < 2 ^ 32) → 0 < b0 → b0 mod PGSIZE = 0 → 1 ≤ n →
  b0 + PGSIZE * n ≤ 2 ^ 32 - PGSIZE →
  ∃ p, init_pool b0 n init = Ok p ∧ pool_wf p ∧ p.(base) = b0 + PGSIZE * map_pages n ∧
    pool_end p = b0 + PGSIZE * n ∧ ∀ x, ¬ used p x.
Proof.
  unfold PGSIZE at 1 2 3. intros Hin Hb Hbm Hn He. unfold init_pool. pose proof (map_pages_range n Hn).
  rewrite map_pages_eq by lia. pose proof (map_fits n ltac:(lia)) as Hfit. set (k := map_pages n) in *.
  destruct (Z.leb_spec k n) as [Hkn|]; [|lia]. cbn [oassert mbind outcome_bind].
  set (ws := init <$> _). assert (Hwf : bitmap_wf (mk_bitmap (n - k) ws)).
  { split; simpl; [lia| |].
    - unfold ws. rewrite length_fmap, length_seq. rewrite elem_cnt_eq by lia. apply Z2Nat.id, Z.div_pos; lia.
    - intros e (i & -> & _)%list_elem_of_fmap. apply Hin. }
  unfold bitmap_create_in_buf. rewrite (u32_small (k * PGSIZE)) by (unfold PGSIZE; lia).
  rewrite (proj2 (Z.leb_le _ _) Hfit). cbn [oassert mbind outcome_bind].
  destruct (bitmap_set_multiple_spec _ 0 (n - k) false Hwf) as (b & E & Hwfb & Hc & Hbit); [simpl; lia..|].
  unfold bitmap_set_all, bitmap_size. simpl bit_cnt. rewrite E. cbn [mbind outcome_bind].
  unfold PGSIZE at 1. rewrite (u32_small (b0 + k * 4096)) by lia. simpl in Hc.
  eexists. split; [done|]. unfold pool_end, pool_pages, PGSIZE. simpl. rewrite Hc.
  split_and!; [split|lia|lia|].
  - done.
  - unfold PGSIZE. simpl. rewrite Z.mod_add by done. split; [lia|done].
  - unfold pool_end, pool_pages, PGSIZE. simpl. lia.
  - intros x (Hx & _ & Hbx). unfold pool_end, pool_pages, PGSIZE in *. simpl in *.
    assert (0 ≤ (x - (b0 + k * 4096)) / 4096 < n - k).
    { split; [apply Z.div_pos; lia|]. apply Z.div_lt_upper_bound; lia. }
    rewrite Hbit in Hbx by lia.
    destruct (Z.leb_spec 0 ((x - (b0 + k * 4096)) / 4096)); [|lia].
    by destruct (Z.ltb_spec ((x - (b0 + k * 4096)) / 4096) (0 + (n - k))); [|lia].
Qed.

(** the number of pages [palloc_init] gives to the user pool *)
Definition user_share (r limit : Z) : Z :=
  if (r - 256) / 2 >? limit then limit else (r - 256) / 2.

Lemma user_share_range r limit : 258 ≤ r → 1 ≤ limit →
  1 ≤ user_share r limit ≤ limit ∧ 1 ≤ r - 256 - user_share r limit.
Proof.
  intros. unfold user_share. pose proof (Z.div_le_lower_bound (r - 256) 2 1 ltac:(lia) ltac:(lia)).
  pose proof (Z.mul_div_le (r - 256) 2 ltac:(lia)).
  rewrite Z.gtb_ltb. destruct (Z.ltb_spec limit ((r - 256) / 2)); lia.
Qed.

Lemma palloc_init_eq r limit kinit uinit m (n := user_share r limit) (b0 := PHYS_BASE + 2 ^ 20) :
  258 ≤ r < 2 ^ 18 → 1 ≤ limit →
  palloc_init r limit kinit uinit m =
    (k ← init_pool b0 (r - 256 - n) kinit; u ← init_pool (b0 + PGSIZE * (r - 256 - n)) n uinit; Ok (mk_pstate k u m)).
Proof.
  intros Hr Hl. pose proof (user_share_range r limit ltac:(lia) Hl) as Hn. fold n in Hn.
  assert (E1 : u32 (r * PGSIZE) = r * PGSIZE) by (apply u32_small; unfold PGSIZE; lia).
  assert (E2 : u32 (s32 (r * PGSIZE + PHYS_BASE - (1024 * 1024 + PHYS_BASE)) ÷ PGSIZE) = r - 256).
  { replace (r * PGSIZE + PHYS_BASE - (1024 * 1024 + PHYS_BASE)) with ((r - 256) * PGSIZE) by (unfold PGSIZE; lia).
    rewrite s32_small by (unfold PGSIZE; lia). rewrite Z.quot_mul by done. apply u32_small. lia. }
  assert (E3 : u32 (1024 * 1024 + PHYS_BASE + u32 ((r - 256 - n) * PGSIZE)) = b0 + PGSIZE * (r - 256 - n)).
  { rewrite (u32_small ((r - 256 - n) * PGSIZE)) by (unfold PGSIZE; lia). unfold b0.
    rewrite u32_small by (unfold PGSIZE, PHYS_BASE; lia). lia. }
  unfold palloc_init. rewrite (obind_ok _ _ _ (ptov_eq (1024 * 1024) ltac:(lia))), E1.
  rewrite (obind_ok _ _ _ (ptov_eq (r * PGSIZE) ltac:(unfold PGSIZE; lia))), E2. cbv zeta.
  fold (user_share r limit). fold n. rewrite E3.
  replace (1024 * 1024 + PHYS_BASE) with b0 by (unfold b0; lia). done.
Qed.

Lemma palloc_init_spec r limit kinit uinit m : 258 ≤ r < 2 ^ 18 → 1 ≤ limit →
  (∀ i, 0 ≤ kinit i < 2 ^ 32) → (∀ i, 0 ≤ uinit i < 2 ^ 32) →
  writable m (PHYS_BASE + 2 ^ 20) (PGSIZE * (r - 256)) →
  ∃ s, palloc_init r limit kinit uinit m = Ok s ∧ palloc_wf s ∧ (∀ u x, ¬ used (pool_of u s) x) ∧
    PHYS_BASE + 2 ^ 20 ≤ s.(kernel_pool).(base) ∧ pool_end s.(user_pool) = PHYS_BASE + PGSIZE * r ∧
    pool_pages s.(user_pool) ≤ limit ∧ s.(pmem) = m.
Proof.
  intros Hr Hl Hk Hu Hw. rewrite palloc_init_eq by done. pose proof (user_share_range r limit ltac:(lia) Hl).
  set (n := user_share r limit) in *.
  destruct (init_pool_spec (PHYS_BASE + 2 ^ 20) (r - 256 - n) kinit Hk) as (k & Ek & Hkw & Hkb & Hke & Hku);
    [done|done|lia|unfold PGSIZE, PHYS_BASE; lia|]. rewrite (obind_ok _ _ _ Ek).
  destruct (init_pool_spec (PHYS_BASE + 2 ^ 20 + PGSIZE * (r - 256 - n)) n uinit Hu)
    as (u & Eu & Huw & Hub & Hue & Huu);
    [unfold PHYS_BASE, PGSIZE; lia| |lia|unfold PHYS_BASE, PGSIZE; lia|].
  { rewrite (Z.mul_comm PGSIZE), Z.mod_add by done. done. }
  rewrite (obind_ok _ _ _ Eu). eexists. split; [done|].
  pose proof (map_pages_range n ltac:(lia)). pose proof (map_pages_range (r - 256 - n) ltac:(lia)).
  unfold PGSIZE, PHYS_BASE in *. simpl. split_and!; [split; simpl|..].
  - done.
  - done.
  - lia.
  - intros w a Ha. apply Hw. destruct w; simpl in Ha; lia.
  - by intros [].
  - lia.
  - lia.
  - unfold pool_end, PGSIZE in Hue. lia.
  - done.
Qed.

(** * Statements *)

(** C26. a call of [palloc_get_multiple] for [n] pages either returns the address of
    [n] contiguous pages that were free, lie in the pool the flags name and are from
    then on in use, with no other page of either pool and (unless [PAL_ZERO] asks for
    zeros) no byte of memory changed; or no such group exists in the pool, and it
    returns a null pointer and changes nothing, or stops the kernel when
    [PAL_ASSERT] is set.  It never hands out a page twice. *)
Theorem palloc_get_safe s flags n : palloc_wf s → 0 < n →
  (∃ a s', palloc_get_multiple flags n s = Ok (a, s') ∧ got flags n s a s') ∨
  (no_group (pool_of (has flags PAL_USER) s) n ∧
   palloc_get_multiple flags n s = if has flags PAL_ASSERT then Err AssertFail else Ok (0, s)).
Proof. apply palloc_get_cases. Qed.

(** a machine with eight pages above the first megabyte *)
Definition ex_mem : mem := write ∅ (PHYS_BASE + 2 ^ 20) (replicate (Z.to_nat (PGSIZE * 8)) 0xaa).
Definition ex_palloc : outcome pstate := palloc_init 264 (2 ^ 32 - 1) (λ _, 0) (λ _, 7) ex_mem.
Definition ex_state : pstate := match ex_palloc with Ok s => s | Err _ => mk_pstate (mk_pool (mk_bitmap 0 []) 0) (mk_pool (mk_bitmap 0 []) 0) ∅ end.

Lemma ex_mem_writable : writable ex_mem (PHYS_BASE + 2 ^ 20) (PGSIZE * (264 - 256)).
Proof.
  intros a Ha. unfold ex_mem. rewrite lookup_write, length_replicate, Z2Nat.id by (unfold PGSIZE; lia).
  rewrite decide_True by (unfold PGSIZE in *; lia). apply lookup_lt_is_Some. rewrite length_replicate.
  unfold PGSIZE in *; lia.
Qed.

Lemma ex_palloc_wf : palloc_wf ex_state ∧ ∀ u x, ¬ used (pool_of u ex_state) x.
Proof.
  destruct (palloc_init_spec 264 (2 ^ 32 - 1) (λ _, 0) (λ _, 7) ex_mem) as (s & E & Hwf & Hu & _);
    [lia..|exact ex_mem_writable|].
  unfold ex_state, ex_palloc. rewrite E. exact (conj Hwf Hu).
Qed.

(** a call that returns an address *)
Lemma returns_addr {S} (o : outcome (Z * S)) :
  match o with Ok (a, _) => negb (a =? 0) | Err _ => false end = true → ∃ a s, o = Ok (a, s) ∧ a ≠ 0.
Proof.
  destruct o as [[a s]|]; [|done]. intros H. exists a, s. split; [done|]. by destruct (Z.eqb_spec a 0).
Qed.

Lemma palloc_get_safe_witness :
  (∃ a s', palloc_get_multiple PAL_ZERO 2 ex_state = Ok (a, s') ∧ got PAL_ZERO 2 ex_state a s') ∨
  (no_group (pool_of false ex_state) 2 ∧ palloc_get_multiple PAL_ZERO 2 ex_state = Ok (0, ex_state)).
Proof. exact (palloc_get_safe ex_state PAL_ZERO 2 (proj1 ex_palloc_wf) eq_refl). Defined.

(** freeing the group [palloc_get_multiple] returned succeeds and gives back
    exactly its pages: the used pages of both pools are those from before the call. *)
Theorem palloc_get_free_roundtrip s flags n a s1 : palloc_wf s → 0 < n →
  palloc_get_multiple flags n s = Ok (a, s1) → a ≠ 0 →
  ∃ s2, palloc_free_multiple a n s1 = Ok (tt, s2) ∧ palloc_wf s2 ∧
    ∀ u x, used (pool_of u s2) x ↔ used (pool_of u s) x.
Proof.
  intros Hwf Hn E Ha. destruct (palloc_get_cases s flags n Hwf Hn) as [(a' & s' & E' & G)|[_ E']]; rewrite E' in E.
  2: { destruct (has flags PAL_ASSERT); simplify_eq. }
  simplify_eq. set (u := has flags PAL_USER). destruct G as [Hwf1 (Ha0 & Ham & Hlo & Hhi) Hfree Hused [Hb Hp] Hoth _].
  destruct (palloc_free_spec s1 u a n Hwf1 Hn) as (s2 & E2 & Hwf2 & Hu2 & _ & _ & Ho2 & _).
  - split; unfold pool_end in *; fold u in Hb, Hp, Hlo, Hhi; rewrite ?Hb, ?Hp; done.
  - intros x Hx. apply Hused. by right.
  - exists s2. split_and!; [done..|]. intros w x. destruct (decide (w = u)) as [->|Hw].
    + rewrite Hu2. fold u in Hused. rewrite Hused. specialize (Hfree x). fold u in Hfree. tauto.
    + replace w with (negb u) by (by destruct w, u). rewrite Ho2. fold u in Hoth. by rewrite Hoth.
Qed.

Lemma palloc_roundtrip_witness :
  ∃ a s1 s2, palloc_get_multiple PAL_USER 1 ex_state = Ok (a, s1) ∧ a ≠ 0 ∧
    palloc_free_multiple a 1 s1 = Ok (tt, s2) ∧ palloc_wf s2.
Proof.
  destruct (returns_addr (palloc_get_multiple PAL_USER 1 ex_state)) as (a & s1 & E & Ha);
    [vm_compute; reflexivity|].
  destruct (palloc_get_free_roundtrip ex_state PAL_USER 1 a s1 (proj1 ex_palloc_wf) eq_refl E Ha) as (s2 & E2 & H2 & _).
  exists a, s1, s2. exact (conj E (conj Ha (conj E2 H2))).
Defined.

(** freeing a group of which some page is not in use (a double free) stops the
    kernel. *)
Theorem palloc_double_free s u a n x : palloc_wf s → 0 < n → group_in s u a n →
  in_group a n x → ¬ used (pool_of u s) x → palloc_free_multiple a n s = Err AssertFail.
Proof.
  intros Hwf Hn Hg Hx Hu. destruct (palloc_free_eq s u a n Hwf Hn Hg) as (i & Hi & Hin & Ea & ->).
  pose proof (pool_wf_of u s Hwf) as Hp. pose proof Hp as [_ [_ Hbm] _].
  destruct (existsb _ _) eqn:Ex; [done|]. destruct Hu. apply not_true_iff_false in Ex.
  destruct (page_index (pool_of u s) x Hbm) as (j & Hj & ->); [apply Hx|destruct Hg, Hx; lia|].
  apply used_page; [done..|]. rewrite Ea in Hx. apply in_group_index in Hx; [|done].
  destruct (bit (used_map (pool_of u s)) j) eqn:Eb; [done|]. destruct Ex. apply existsb_exists.
  exists j. split; [apply list_elem_of_In, elem_of_seqZ; lia|]. by rewrite Eb.
Qed.

Lemma palloc_double_free_witness :
  palloc_free_multiple (ex_state.(user_pool).(base) + 4096) 2 ex_state = Err AssertFail.
Proof.
  apply (palloc_double_free ex_state true _ 2 (ex_state.(user_pool).(base) + 4096) (proj1 ex_palloc_wf)).
  - reflexivity.
  - split; vm_compute; congruence.
  - split; [split; vm_compute; congruence|vm_compute; reflexivity].
  - apply ex_palloc_wf.
Defined.

(** started on a machine with at least two pages of RAM above the first
    megabyte and a nonzero limit on user pages, [palloc_init] succeeds: the pools do
    not overlap each other, lie between the first megabyte and the end of RAM, every
    page is free, and the user pool is within the limit. *)
Theorem palloc_init_ok r limit kinit uinit m : 258 ≤ r < 2 ^ 18 → 1 ≤ limit →
  (∀ i, 0 ≤ kinit i < 2 ^ 32) → (∀ i, 0 ≤ uinit i < 2 ^ 32) →
  writable m (PHYS_BASE + 2 ^ 20) (PGSIZE * (r - 256)) →
  ∃ s, palloc_init r limit kinit uinit m = Ok s ∧ palloc_wf s ∧ (∀ u x, ¬ used (pool_of u s) x) ∧
    PHYS_BASE + 2 ^ 20 ≤ s.(kernel_pool).(base) ∧ pool_end s.(user_pool) = PHYS_BASE + PGSIZE * r ∧
    pool_pages s.(user_pool) ≤ limit ∧ s.(pmem) = m.
Proof. apply palloc_init_spec. Qed.

Lemma palloc_init_ok_witness : ∃ s, ex_palloc = Ok s ∧ palloc_wf s.
Proof.
  destruct (palloc_init_ok 264 (2 ^ 32 - 1) (λ _, 0) (λ _, 7) ex_mem) as (s & E & Hwf & _);
    [lia..|exact ex_mem_writable|].
  exists s. exact (conj E Hwf).
Defined.
