(* ===== verification/Segments.v ===== *)
(** userprog/gdt.c and userprog/tss.c: the segments and the task-state segment.

    A descriptor is the 64-bit word of the table; [segment_of] reads it the way the
    processor does.  The task-state segment is a page of the page allocator; its members
    are written at their offsets. *)

From S2P Require Import Prelude Vaddr CString Words Palloc.

Definition SEL_NULL : Z := 0x00.
Definition SEL_KCSEG : Z := 0x08.
Definition SEL_KDSEG : Z := 0x10.
Definition SEL_UCSEG : Z := 0x1b.
Definition SEL_UDSEG : Z := 0x23.
Definition SEL_TSS : Z := 0x28.

Inductive seg_class := CLS_SYSTEM | CLS_CODE_DATA.
Inductive seg_granularity := GRAN_BYTE | GRAN_PAGE.

Definition class_nr (c : seg_class) : Z := match c with CLS_SYSTEM => 0 | CLS_CODE_DATA => 1 end.
Definition gran_nr (g : seg_granularity) : Z := match g with GRAN_BYTE => 0 | GRAN_PAGE => 1 end.

Definition make_seg_desc (base limit : Z) (class : seg_class) (type dpl : Z) (granularity : seg_granularity) : outcome Z :=
  _ ← oassert (limit <=? 0xfffff);
  _ ← oassert ((0 <=? type) && (type <=? 15));
  _ ← oassert ((0 <=? dpl) && (dpl <=? 3));
  let e0 := Z.lor (Z.land limit 0xffff) (u32 (Z.shiftl base 16)) in
  let e1 := Z.lor (Z.lor (Z.lor (Z.lor (Z.lor (Z.lor (Z.lor (Z.lor
    (Z.land (Z.shiftr base 16) 0xff)
    (Z.shiftl type 8))
    (Z.shiftl (class_nr class) 12))
    (Z.shiftl dpl 13))
    (Z.shiftl 1 15))
    (Z.land limit 0xf0000))
    (Z.shiftl 1 22))
    (Z.shiftl (gran_nr granularity) 23))
    (Z.land base 0xff000000) in
  Ok (Z.lor e0 (u64 (Z.shiftl e1 32))).

Definition make_code_desc (dpl : Z) : outcome Z := make_seg_desc 0 0xfffff CLS_CODE_DATA 10 dpl GRAN_PAGE.
Definition make_data_desc (dpl : Z) : outcome Z := make_seg_desc 0 0xfffff CLS_CODE_DATA 2 dpl GRAN_PAGE.
Definition make_tss_desc (laddr : Z) : outcome Z := make_seg_desc laddr 0x67 CLS_SYSTEM 9 0 GRAN_BYTE.

Definition make_gdtr_operand (limit base : Z) : Z := Z.lor limit (u64 (Z.shiftl base 16)).

(** [tss] is 0 before [tss_init]; [gdtr] and [tr] are what [lgdt] and [ltr] load *)
Record seg_state := mk_seg { pages : pstate; tss : Z; gdt : list Z; gdtr : Z; tr : Z }.

Abbreviation Sg := (M seg_state).

Definition in_pages {A} (x : P A) : Sg A := λ s,
  match x s.(pages) with Ok (a, p) => Ok (a, mk_seg p s.(tss) s.(gdt) s.(gdtr) s.(tr)) | Err e => Err e end.

Definition tss_get_ : Sg Z := s ← get; assert (negb (s.(tss) =? 0));; mret s.(tss).

(** [cur]: the result of [thread_current], the address of the running thread.  [esp0] is
    at offset 4, [ss0] at 8 and [bitmap] at 102. *)
Definition tss_update (cur : Z) : Sg unit :=
  s ← get;
  assert (negb (s.(tss) =? 0));;
  in_pages (in_mem (store32 (s.(tss) + 4) (u32 (cur + PGSIZE)))).

Definition tss_init (cur : Z) : Sg unit :=
  t ← in_pages (palloc_get_page (Z.lor PAL_ASSERT PAL_ZERO));
  modify (λ s, mk_seg s.(pages) t s.(gdt) s.(gdtr) s.(tr));;
  in_pages (in_mem (put_bytes (t + 8) [u8 SEL_KDSEG; u8 (SEL_KDSEG / 2 ^ 8)]));;
  in_pages (in_mem (put_bytes (t + 102) [u8 0xdfff; u8 (0xdfff / 2 ^ 8)]));;
  tss_update cur.

(** [gdt_at]: the address of the table *)
Definition gdt_init (gdt_at : Z) : Sg unit :=
  kc ← lift_out (make_code_desc 0); kd ← lift_out (make_data_desc 0);
  uc ← lift_out (make_code_desc 3); ud ← lift_out (make_data_desc 3);
  t ← tss_get_; ts ← lift_out (make_tss_desc t);
  modify (λ s, mk_seg s.(pages) s.(tss) [0; kc; kd; uc; ud; ts] (make_gdtr_operand (8 * 6 - 1) gdt_at) SEL_TSS).

(** * What the processor reads *)

Record segment := mk_segment { sbase : Z; slimit : Z; scode_data : bool; stype : Z; sdpl : Z; spresent : bool; sgran : bool }.

Definition segment_of (d : Z) : segment :=
  mk_segment (bits_at d 16 24 + bits_at d 56 8 * 2 ^ 24) (bits_at d 0 16 + bits_at d 48 4 * 2 ^ 16)
    (Z.testbit d 44) (bits_at d 40 4) (bits_at d 45 2) (Z.testbit d 47) (Z.testbit d 55).

Definition class_bit (c : seg_class) : bool := match c with CLS_SYSTEM => false | CLS_CODE_DATA => true end.
Definition gran_bit (g : seg_granularity) : bool := match g with GRAN_BYTE => false | GRAN_PAGE => true end.

(** the word as a sum of fields *)
Definition seg_word (base limit c type dpl g : Z) : Z :=
  limit mod 2 ^ 16 + (base mod 2 ^ 16) * 2 ^ 16 + (base / 2 ^ 16 mod 2 ^ 8) * 2 ^ 32 + type * 2 ^ 40 + c * 2 ^ 44 + dpl * 2 ^ 45 + 2 ^ 47 +
  (limit / 2 ^ 16 mod 2 ^ 4) * 2 ^ 48 + 2 ^ 54 + g * 2 ^ 55 + (base / 2 ^ 24 mod 2 ^ 8) * 2 ^ 56.

Lemma make_seg_desc_eq base limit c type dpl g : 0 ≤ base < 2 ^ 32 → 0 ≤ limit < 2 ^ 20 → 0 ≤ type < 16 → 0 ≤ dpl < 4 →
  make_seg_desc base limit c type dpl g = Ok (seg_word base limit (class_nr c) type dpl (gran_nr g)).
Proof.
  intros Hb Hl Ht Hd. unfold make_seg_desc. rewrite (proj2 (Z.leb_le limit _)) by lia.
  rewrite (proj2 (andb_true_iff (0 <=? type) _)) by (rewrite !Z.leb_le; lia). rewrite (proj2 (andb_true_iff (0 <=? dpl) _)) by (rewrite !Z.leb_le; lia).
  cbn [mbind outcome_bind oassert]. cbv zeta. f_equal. unfold seg_word.
  assert (Hc : 0 ≤ class_nr c < 2) by (destruct c; cbn; lia). assert (Hg : 0 ≤ gran_nr g < 2) by (destruct g; cbn; lia).
  generalize dependent (class_nr c). generalize dependent (gran_nr g). clear c g. intros g Hg c Hc.
  change 0xffff with (Z.ones 16). change 0xff with (Z.ones 8). change 0xf0000 with (Z.ones 4 * 2 ^ 16). change 0xff000000 with (Z.ones 8 * 2 ^ 24).
  rewrite !Z.land_ones, !land_mask, !Z.shiftr_div_pow2 by lia. rewrite !Z.shiftl_mul_pow2 by lia.
  assert (E : u32 (base * 2 ^ 16) = base mod 2 ^ 16 * 2 ^ 16).
  { unfold u32. change (2 ^ 32) with (2 ^ 16 * 2 ^ 16). by rewrite Z.mul_mod_distr_r by lia. }
  rewrite E. pose proof (Z.mod_pos_bound limit (2 ^ 16) ltac:(lia)). pose proof (Z.mod_pos_bound base (2 ^ 16) ltac:(lia)).
  pose proof (Z.mod_pos_bound (base / 2 ^ 16) (2 ^ 8) ltac:(lia)). pose proof (Z.mod_pos_bound (base / 2 ^ 24) (2 ^ 8) ltac:(lia)).
  pose proof (Z.mod_pos_bound (limit / 2 ^ 16) (2 ^ 4) ltac:(lia)).
  generalize dependent (base / 2 ^ 16 mod 2 ^ 8). generalize dependent (base / 2 ^ 24 mod 2 ^ 8). generalize dependent (limit / 2 ^ 16 mod 2 ^ 4).
  generalize dependent (limit mod 2 ^ 16). generalize dependent (base mod 2 ^ 16). intros bl ? Hbl ll Hll lh Hlh bh Hbh bm Hbm.
  rewrite (lor_shift ll bl 16), (lor_shift bm type 8), (lor_shift _ c 12), (lor_shift _ dpl 13), (lor_shift _ 1 15), (lor_shift _ lh 16),
    (lor_shift _ 1 22), (lor_shift _ g 23), (lor_shift _ bh 24) by lia.
  rewrite u64_small, lor_shift by lia. lia.
Qed.

Lemma seg_word_fields base limit c type dpl g : 0 ≤ base < 2 ^ 32 → 0 ≤ limit < 2 ^ 20 → 0 ≤ type < 16 → 0 ≤ dpl < 4 → 0 ≤ c < 2 → 0 ≤ g < 2 →
  segment_of (seg_word base limit c type dpl g) = mk_segment base limit (c =? 1) type dpl true (g =? 1).
Proof.
  intros Hb Hl Ht Hd Hc Hg. unfold segment_of, seg_word, bits_at. rewrite !Z.testbit_eqb by lia.
  f_equal; [| |apply (f_equal (λ x, x =? 1))| | |apply Z.eqb_eq|apply (f_equal (λ x, x =? 1))]; Z.div_mod_to_equations; lia.
Qed.

(** * The tables at work *)

(** what the kernel sets up when it starts *)
Definition seg_start (cur gdt_at : Z) : Sg unit := tss_init cur;; gdt_init gdt_at.

(** the two bytes at an address *)
Definition half (m : mem) (a : Z) : Z := byte_at m a + 2 ^ 8 * byte_at m (a + 1).

(** what an interrupt in user mode loads: the stack of the task-state segment that [tr] selects *)
Definition ring0_stack (s : seg_state) : option (Z * Z) :=
  match s.(gdt) !! Z.to_nat (s.(tr) / 8) with
  | Some d => let t := (segment_of d).(sbase) in Some (half s.(pages).(pmem) (t + 8), word s.(pages).(pmem) (t + 4))
  | None => None
  end.

(** the segment a selector chooses *)
Definition selects (s : seg_state) (sel : Z) : option segment := segment_of <$> s.(gdt) !! Z.to_nat (sel / 8).

Definition flat (type dpl : Z) : segment := mk_segment 0 0xfffff true type dpl true true.

Lemma half_ext m m' a : (∀ x, a ≤ x < a + 2 → m' !! x = m !! x) → half m' a = half m a.
Proof. intros H. unfold half, byte_at. by rewrite !H by lia. Qed.

Lemma code_data_eq dpl : 0 ≤ dpl < 4 →
  ∃ c d, make_code_desc dpl = Ok c ∧ make_data_desc dpl = Ok d ∧ segment_of c = flat 10 dpl ∧ segment_of d = flat 2 dpl.
Proof.
  intros H. unfold make_code_desc, make_data_desc. rewrite !make_seg_desc_eq by lia. eexists _, _. split; [done|]. split; [done|].
  rewrite !seg_word_fields by (cbn; lia). done.
Qed.

Lemma tss_desc_eq t : 0 ≤ t < 2 ^ 32 → ∃ d, make_tss_desc t = Ok d ∧ segment_of d = mk_segment t 0x67 false 9 0 true false.
Proof. intros H. unfold make_tss_desc. rewrite make_seg_desc_eq by lia. eexists. split; [done|]. by rewrite seg_word_fields by (cbn; lia). Qed.

(** the task-state segment is in place and its stack is [esp] *)
Definition tss_ready (s : seg_state) (esp : Z) : Prop :=
  s.(tss) ≠ 0 ∧ writable s.(pages).(pmem) s.(tss) PGSIZE ∧ half s.(pages).(pmem) (s.(tss) + 8) = SEL_KDSEG ∧ word s.(pages).(pmem) (s.(tss) + 4) = esp.

Lemma tss_update_spec cur s esp : tss_ready s esp →
  ∃ m, tss_update cur s = Ok (tt, mk_seg (mk_pstate s.(pages).(kernel_pool) s.(pages).(user_pool) m) s.(tss) s.(gdt) s.(gdtr) s.(tr)) ∧
  m = wr s.(pages).(pmem) (s.(tss) + 4) (u32 (cur + PGSIZE)) ∧
  tss_ready (mk_seg (mk_pstate s.(pages).(kernel_pool) s.(pages).(user_pool) m) s.(tss) s.(gdt) s.(gdtr) s.(tr)) (u32 (cur + PGSIZE)).
Proof.
  intros (H0 & Hw & Hs & _). eexists. split; [|split; [reflexivity|]].
  - unfold tss_update. rewrite (bind_ok get _ s s s) by done. rewrite assert_bind by (by apply negb_true_iff, Z.eqb_neq).
    unfold in_pages, in_mem. rewrite store32_eq; [done|]. intros a Ha. apply Hw. unfold PGSIZE. lia.
  - split; [done|]. cbn. split; [by apply writable_wr|]. split; [|apply word_wr, u32_range].
    rewrite (half_ext (pmem (pages s))); [done|]. intros x Hx. apply lookup_wr_out. lia.
Qed.

Definition set_mem (m : mem) (s : seg_state) : seg_state :=
  mk_seg (mk_pstate s.(pages).(kernel_pool) s.(pages).(user_pool) m) s.(tss) s.(gdt) s.(gdtr) s.(tr).

Lemma in_pages_mem {A} (x : B A) s a m : x s.(pages).(pmem) = Ok (a, m) → in_pages (in_mem x) s = Ok (a, set_mem m s).
Proof. intros H. unfold in_pages. by rewrite (in_mem_eq _ _ _ _ H). Qed.

(** a member of two bytes in the task-state segment *)
Lemma put_half t o v s : writable s.(pages).(pmem) t PGSIZE → 0 ≤ o ≤ 4094 →
  in_pages (in_mem (put_bytes (t + o) [u8 v; u8 (v / 2 ^ 8)])) s = Ok (tt, set_mem (write s.(pages).(pmem) (t + o) [u8 v; u8 (v / 2 ^ 8)]) s).
Proof.
  intros Hw Ho. apply in_pages_mem, put_bytes_spec.
  - intros a Ha. apply Hw. unfold PGSIZE. cbn in Ha. lia.
  - intros x Hx. set_unfold in Hx. destruct Hx as [->|[->|[]]]; apply u8_range.
Qed.

Lemma tss_init_spec cur s : palloc_wf s.(pages) → ¬ no_group s.(pages).(kernel_pool) 1 →
  ∃ s' p, tss_init cur s = Ok (tt, s') ∧ got (Z.lor PAL_ASSERT PAL_ZERO) 1 s.(pages) s'.(tss) p ∧
  s'.(pages).(kernel_pool) = p.(kernel_pool) ∧ s'.(pages).(user_pool) = p.(user_pool) ∧ tss_ready s' (u32 (cur + PGSIZE)).
Proof.
  intros Hwf Hfree. destruct (palloc_get_cases s.(pages) (Z.lor PAL_ASSERT PAL_ZERO) 1 Hwf eq_refl) as [(t & p & E & G)|[N _]]; [|done].
  unfold tss_init. assert (E' : in_pages (palloc_get_page (Z.lor PAL_ASSERT PAL_ZERO)) s = Ok (t, mk_seg p s.(tss) s.(gdt) s.(gdtr) s.(tr)))
    by (unfold in_pages, palloc_get_page; by rewrite E).
  rewrite (bind_ok _ _ _ _ _ E'). erewrite bind_ok by reflexivity. cbn [pages tss gdt gdtr tr].
  set (s1 := mk_seg p t s.(gdt) s.(gdtr) s.(tr)). assert (Hw : writable s1.(pages).(pmem) t PGSIZE).
  { cbn. pose proof (got_mem _ _ _ _ _ G) as Hm. intros a Ha. rewrite Hm. change (has (Z.lor PAL_ASSERT PAL_ZERO) PAL_ZERO) with true. cbv iota.
    rewrite lookup_write, length_replicate, decide_True by (unfold PGSIZE in *; lia). apply lookup_lt_is_Some. rewrite length_replicate. unfold PGSIZE in *. lia. }
  rewrite (bind_ok _ _ _ _ _ (put_half t 8 SEL_KDSEG s1 Hw ltac:(lia))).
  set (s2 := set_mem _ s1). assert (Hw2 : writable s2.(pages).(pmem) t PGSIZE) by (intros a Ha; by apply write_is_Some, Hw).
  rewrite (bind_ok _ _ _ _ _ (put_half t 102 0xdfff s2 Hw2 ltac:(lia))). set (s3 := set_mem _ s2).
  assert (Hr : tss_ready s3 (word s3.(pages).(pmem) (t + 4))).
  { split; [pose proof (got_addr _ _ _ _ _ G); cbn; lia|]. split; [intros a Ha; by apply write_is_Some, Hw2|]. split; [|done].
    cbn [pages set_mem pmem s3 s2 s1 tss]. rewrite (half_ext _ _ (t + 8)) by (intros x Hx; apply lookup_write_out; cbn [length]; lia).
    unfold half, byte_at. rewrite !lookup_write. cbn [length]. rewrite !decide_True by lia.
    replace (t + 8 - (t + 8)) with 0 by lia. replace (t + 8 + 1 - (t + 8)) with 1 by lia. done. }
  destruct (tss_update_spec cur s3 _ Hr) as (m & Eu & _ & Hr'). eexists _, p. split; [exact Eu|]. split; [done|]. done.
Qed.

Lemma gdt_init_spec gdt_at s : 0 < s.(tss) < 2 ^ 32 → ∃ s', gdt_init gdt_at s = Ok (tt, s') ∧ s'.(pages) = s.(pages) ∧ s'.(tss) = s.(tss) ∧
  s'.(tr) = SEL_TSS ∧ selects s' SEL_KCSEG = Some (flat 10 0) ∧ selects s' SEL_KDSEG = Some (flat 2 0) ∧ selects s' SEL_UCSEG = Some (flat 10 3) ∧
  selects s' SEL_UDSEG = Some (flat 2 3) ∧ selects s' SEL_TSS = Some (mk_segment s.(tss) 0x67 false 9 0 true false).
Proof.
  intros Ht. destruct (code_data_eq 0) as (kc & kd & E1 & E2 & F1 & F2); [lia|]. destruct (code_data_eq 3) as (uc & ud & E3 & E4 & F3 & F4); [lia|].
  destruct (tss_desc_eq s.(tss)) as (ts & E5 & F5); [lia|]. unfold gdt_init.
  rewrite (bind_ok _ _ _ _ _ (lift_out_eq _ _ s E1)), (bind_ok _ _ _ _ _ (lift_out_eq _ _ s E2)).
  rewrite (bind_ok _ _ _ _ _ (lift_out_eq _ _ s E3)), (bind_ok _ _ _ _ _ (lift_out_eq _ _ s E4)).
  assert (Eg : tss_get_ s = Ok (s.(tss), s)).
  { unfold tss_get_. rewrite (bind_ok get _ s s s) by done. rewrite assert_bind; [done|]. apply negb_true_iff, Z.eqb_neq. lia. }
  rewrite (bind_ok _ _ _ _ _ Eg), (bind_ok _ _ _ _ _ (lift_out_eq _ _ s E5)). eexists. split; [reflexivity|].
  rewrite <- F1, <- F2, <- F3, <- F4, <- F5. split_and!; reflexivity.
Qed.

(** the scheduler switches to the threads [ts], one after the other *)
Fixpoint switches (ts : list Z) : Sg unit := match ts with [] => mret tt | t :: ts => tss_update t;; switches ts end.

Lemma switches_spec ts cur s : tss_ready s (u32 (cur + PGSIZE)) → ∃ s', switches ts s = Ok (tt, s') ∧ tss_ready s' (u32 (default cur (last ts) + PGSIZE)) ∧
  s'.(tss) = s.(tss) ∧ s'.(gdt) = s.(gdt) ∧ s'.(tr) = s.(tr).
Proof.
  revert cur s. induction ts as [|t ts IH]; intros cur s Hr; [by exists s|]. destruct (tss_update_spec t s _ Hr) as (m & E & _ & Hr').
  destruct (IH t _ Hr') as (s' & E' & H). exists s'. cbn [switches]. rewrite (bind_ok _ _ _ _ _ E), E'. split; [done|].
  rewrite last_cons. by destruct (last ts).
Qed.

(** The segments are flat: selectors of the kernel and of user programs reach all of
    memory, at privilege 0 and 3.  The task-state segment lies in a kernel page that was
    free, and whatever threads are switched to, an interrupt in user mode goes on at the
    top of the page of the thread that was switched to last. *)
Theorem interrupt_stack s cur gdt_at ts : palloc_wf s.(pages) → ¬ no_group s.(pages).(kernel_pool) 1 →
  ∃ s' s'', seg_start cur gdt_at s = Ok (tt, s') ∧ ¬ used s.(pages).(kernel_pool) s'.(tss) ∧ used s'.(pages).(kernel_pool) s'.(tss) ∧
    switches ts s' = Ok (tt, s'') ∧ ring0_stack s'' = Some (SEL_KDSEG, u32 (default cur (last ts) + PGSIZE)) ∧
    (selects s'' SEL_KCSEG = Some (flat 10 0) ∧ selects s'' SEL_KDSEG = Some (flat 2 0)) ∧
    (selects s'' SEL_UCSEG = Some (flat 10 3) ∧ selects s'' SEL_UDSEG = Some (flat 2 3)).
Proof.
  intros Hwf Hfree. destruct (tss_init_spec cur s Hwf Hfree) as (s1 & p & E1 & G & Hk & Hu & Hr).
  pose proof (got_addr _ _ _ _ _ G) as (Ha & Ham & _ & He). change (has (Z.lor PAL_ASSERT PAL_ZERO) PAL_USER) with false in He.
  pose proof (pwf_end _ (awf_kernel _ Hwf)). cbn [pool_of] in He.
  destruct (gdt_init_spec gdt_at s1) as (s2 & E2 & Hp & Ht & Htr & H1 & H2 & H3 & H4 & H5); [unfold PGSIZE in *; lia|].
  assert (Hr2 : tss_ready s2 (u32 (cur + PGSIZE))) by (unfold tss_ready; by rewrite Hp, Ht).
  destruct (switches_spec ts cur s2 Hr2) as (s3 & E3 & Hr3 & Ht3 & Hg3 & Htr3). exists s2, s3.
  assert (Es : seg_start cur gdt_at s = Ok (tt, s2)) by (unfold seg_start; by rewrite (bind_ok _ _ _ _ _ E1)). split; [exact Es|].
  assert (Hin : in_group s1.(tss) 1 s1.(tss)) by (split; [unfold PGSIZE; lia|exact Ham]).
  split; [rewrite Ht; exact (got_free _ _ _ _ _ G _ Hin)|].
  split; [rewrite Hp, Ht, Hk; apply (got_used _ _ _ _ _ G); by right|]. split; [exact E3|].
  split; [|unfold selects in *; by rewrite Hg3].
  unfold ring0_stack. unfold selects in H5. rewrite Hg3, Htr3, Htr. destruct (gdt s2 !! Z.to_nat (SEL_TSS / 8)) as [d|]; [|done].
  apply (inj Some) in H5. rewrite H5. cbn [sbase]. destruct Hr3 as (_ & _ & Hh & Hw). rewrite Ht3, Ht in Hh, Hw. by rewrite Hh, Hw.
Qed.

(** a machine with eight pages above the first megabyte, and two switches *)
Lemma interrupt_stack_witness : let s := mk_seg ex_state 0 [] 0 0 in
  ∃ s' s'', seg_start 0xc000e000 0xc0020000 s = Ok (tt, s') ∧ switches [0xc0105000; 0xc0106000] s' = Ok (tt, s'') ∧
    ring0_stack s'' = Some (SEL_KDSEG, 0xc0107000).
Proof.
  assert (Hf : ¬ no_group ex_state.(kernel_pool) 1).
  { intros N. pose proof (awf_kernel _ (proj1 ex_palloc_wf)) as Hk. destruct (N ex_state.(kernel_pool).(base)) as (x & _ & Hu).
    - apply (pwf_base _ Hk).
    - lia.
    - unfold pool_end. assert (1 ≤ pool_pages ex_state.(kernel_pool)) by (apply Z.leb_le; reflexivity). unfold PGSIZE. lia.
    - exact (proj2 ex_palloc_wf false x Hu). }
  destruct (interrupt_stack (mk_seg ex_state 0 [] 0 0) 0xc000e000 0xc0020000 [0xc0105000; 0xc0106000] (proj1 ex_palloc_wf) Hf)
    as (s' & s'' & E & _ & _ & E' & Hs & _). exists s', s''. split; [exact E|]. split; [exact E'|exact Hs].
Defined.
