(* ===== verification/Intr.v ===== *)
(** threads/interrupt.c: the interrupt descriptor table and the interrupt controllers;
    userprog/exception.c and userprog/syscall.c, devices/timer.c, kbd.c, serial.c and ide.c:
    the handlers they register.

    A gate is the 64-bit word of the table; [gate_of] reads it the way the processor does.
    The stubs of intr-stubs.S are their addresses.  Bytes written to the ports of the
    controllers are kept in order; [pic_write] is what a controller does with them. *)

From S2P Require Import Prelude Segments.

Inductive handler := Hkill | Hpage_fault | Hsyscall_handler | Htimer_interrupt | Hkeyboard_interrupt | Hserial_interrupt | Hinterrupt_handler.

#[global] Instance handler_eq_dec : EqDecision handler.
Proof. solve_decision. Defined.

(** [idtr]: what [lidt] loads; [ports]: the bytes written to ports, the last one first *)
Record intrs := mk_intrs { idt : list Z; intr_handlers : list (option handler); idtr : Z; ports : list (Z * Z) }.

Abbreviation I := (M intrs).

Definition outb (port data : Z) : I unit := modify (λ s, mk_intrs s.(idt) s.(intr_handlers) s.(idtr) ((port, data) :: s.(ports))).

Definition pic_init : I unit :=
  outb 0x21 0xff;; outb 0xa1 0xff;;
  outb 0x20 0x11;; outb 0x21 0x20;; outb 0x21 0x04;; outb 0x21 0x01;;
  outb 0xa0 0x11;; outb 0xa1 0x28;; outb 0xa1 0x02;; outb 0xa1 0x01;;
  outb 0x21 0x00;; outb 0xa1 0x00.

Definition pic_end_of_interrupt (irq : Z) : I unit :=
  assert ((0x20 <=? irq) && (irq <? 0x30));;
  outb 0x20 0x20;;
  if 0x28 <=? irq then outb 0xa0 0x20 else mret tt.

Definition make_gate (function dpl type : Z) : outcome Z :=
  _ ← oassert (negb (function =? 0));
  _ ← oassert ((0 <=? dpl) && (dpl <=? 3));
  _ ← oassert ((0 <=? type) && (type <=? 15));
  let e0 := Z.lor (Z.land function 0xffff) (Z.shiftl SEL_KCSEG 16) in
  let e1 := Z.lor (Z.lor (Z.lor (Z.lor (Z.land function 0xffff0000) (Z.shiftl 1 15)) (Z.shiftl dpl 13)) (Z.shiftl 0 12)) (Z.shiftl type 8) in
  Ok (Z.lor e0 (u64 (Z.shiftl e1 32))).

Definition make_intr_gate (function dpl : Z) : outcome Z := make_gate function dpl 14.
Definition make_trap_gate (function dpl : Z) : outcome Z := make_gate function dpl 15.

Definition make_idtr_operand (limit base : Z) : Z := Z.lor limit (u64 (Z.shiftl base 16)).

Inductive intr_level := INTR_OFF | INTR_ON.

Section stubs.
(** the addresses of the stubs, and of the table *)
Variable intr_stubs : Z → Z.
Variable idt_at : Z.

Definition register_handler (vec_no dpl : Z) (level : intr_level) (h : handler) : I unit :=
  s ← get;
  assert (bool_decide (s.(intr_handlers) !! Z.to_nat vec_no = Some None));;
  g ← lift_out (match level with INTR_ON => make_trap_gate (intr_stubs vec_no) dpl | INTR_OFF => make_intr_gate (intr_stubs vec_no) dpl end);
  put (mk_intrs (<[Z.to_nat vec_no := g]> s.(idt)) (<[Z.to_nat vec_no := Some h]> s.(intr_handlers)) s.(idtr) s.(ports)).

Definition intr_register_ext (vec_no : Z) (h : handler) : I unit :=
  assert ((0x20 <=? vec_no) && (vec_no <=? 0x2f));; register_handler vec_no 0 INTR_OFF h.

Definition intr_register_int (vec_no dpl : Z) (level : intr_level) (h : handler) : I unit :=
  assert ((vec_no <? 0x20) || (0x2f <? vec_no));; register_handler vec_no dpl level h.

(** the loop of [intr_init] over the table, from [i] on *)
Fixpoint idt_loop (n : nat) (i : Z) : I unit :=
  match n with
  | O => mret tt
  | S n =>
      g ← lift_out (make_intr_gate (intr_stubs i) 0);
      modify (λ s, mk_intrs (<[Z.to_nat i := g]> s.(idt)) s.(intr_handlers) s.(idtr) s.(ports));; idt_loop n (i + 1)
  end.

(** without the names of the interrupts *)
Definition intr_init : I unit :=
  pic_init;; idt_loop 256 0;;
  modify (λ s, mk_intrs s.(idt) s.(intr_handlers) (make_idtr_operand (8 * 256 - 1) idt_at) s.(ports)).

Definition exception_init : I unit :=
  intr_register_int 3 3 INTR_ON Hkill;; intr_register_int 4 3 INTR_ON Hkill;; intr_register_int 5 3 INTR_ON Hkill;;
  intr_register_int 0 0 INTR_ON Hkill;; intr_register_int 1 0 INTR_ON Hkill;; intr_register_int 6 0 INTR_ON Hkill;;
  intr_register_int 7 0 INTR_ON Hkill;; intr_register_int 11 0 INTR_ON Hkill;; intr_register_int 12 0 INTR_ON Hkill;;
  intr_register_int 13 0 INTR_ON Hkill;; intr_register_int 16 0 INTR_ON Hkill;; intr_register_int 19 0 INTR_ON Hkill;;
  intr_register_int 14 0 INTR_OFF Hpage_fault.

(** the registrations of [main], in its order: [timer_init], [kbd_init], [exception_init],
    [syscall_init], [serial_init_queue] and, for the two channels, [ide_init] *)
Definition register_all : I unit :=
  intr_register_ext 0x20 Htimer_interrupt;; intr_register_ext 0x21 Hkeyboard_interrupt;;
  exception_init;; intr_register_int 0x30 3 INTR_ON Hsyscall_handler;;
  intr_register_ext (0x20 + 4) Hserial_interrupt;;
  intr_register_ext (14 + 0x20) Hinterrupt_handler;; intr_register_ext (15 + 0x20) Hinterrupt_handler.
End stubs.

(** * What the processor reads *)

Record gate := mk_gate { g_offset : Z; g_selector : Z; g_type : Z; g_dpl : Z; g_present : bool }.

Definition gate_of (d : Z) : gate :=
  mk_gate (bits_at d 0 16 + bits_at d 48 16 * 2 ^ 16) (bits_at d 16 16) (bits_at d 40 5) (bits_at d 45 2) (Z.testbit d 47).

Definition gate_word (f dpl type : Z) : Z :=
  f mod 2 ^ 16 + SEL_KCSEG * 2 ^ 16 + type * 2 ^ 40 + dpl * 2 ^ 45 + 2 ^ 47 + (f / 2 ^ 16 mod 2 ^ 16) * 2 ^ 48.

Lemma make_gate_eq f dpl type : 0 < f < 2 ^ 32 → 0 ≤ dpl < 4 → 0 ≤ type < 16 → make_gate f dpl type = Ok (gate_word f dpl type).
Proof.
  intros Hf Hd Ht. unfold make_gate. rewrite (proj2 (negb_true_iff (f =? 0))) by (apply Z.eqb_neq; lia).
  rewrite (proj2 (andb_true_iff (0 <=? dpl) _)) by (rewrite !Z.leb_le; lia). rewrite (proj2 (andb_true_iff (0 <=? type) _)) by (rewrite !Z.leb_le; lia).
  cbn [mbind outcome_bind oassert]. cbv zeta. f_equal. unfold gate_word, SEL_KCSEG.
  change 0xffff with (Z.ones 16). change 0xffff0000 with (Z.ones 16 * 2 ^ 16). change (Z.shiftl 0 12) with 0. rewrite Z.lor_0_r.
  rewrite !Z.land_ones, !land_mask by lia. rewrite !Z.shiftl_mul_pow2 by lia. pose proof (Z.mod_pos_bound f (2 ^ 16) ltac:(lia)).
  pose proof (Z.mod_pos_bound (f / 2 ^ 16) (2 ^ 16) ltac:(lia)). generalize dependent (f / 2 ^ 16 mod 2 ^ 16). generalize dependent (f mod 2 ^ 16).
  intros fl Hl fh Hh. assert (E : Z.lor (Z.lor (Z.lor (fh * 2 ^ 16) (1 * 2 ^ 15)) (dpl * 2 ^ 13)) (type * 2 ^ 8) =
    Z.lor (Z.lor (Z.lor (type * 2 ^ 8) (dpl * 2 ^ 13)) (1 * 2 ^ 15)) (fh * 2 ^ 16)).
  { apply Z.bits_inj'. intros n Hn. rewrite !Z.lor_spec. repeat destruct (Z.testbit _ n); done. }
  rewrite E, (lor_shift fl 8 16), (lor_shift (type * 2 ^ 8) dpl 13), (lor_shift _ 1 15), (lor_shift _ fh 16) by lia.
  rewrite u64_small, lor_shift by lia. lia.
Qed.

Lemma gate_word_fields f dpl type : 0 < f < 2 ^ 32 → 0 ≤ dpl < 4 → 0 ≤ type < 16 → gate_of (gate_word f dpl type) = mk_gate f SEL_KCSEG type dpl true.
Proof.
  intros Hf Hd Ht. unfold gate_of, gate_word, bits_at, SEL_KCSEG. rewrite Z.testbit_eqb by lia.
  f_equal; [..|apply Z.eqb_eq]; Z.div_mod_to_equations; lia.
Qed.

(** * The table when the kernel has started *)

(** the gate of each vector: its privilege, the level it enters at, its handler *)
Definition gates := Z → Z * intr_level * option handler.

Definition type_of (l : intr_level) : Z := match l with INTR_ON => 15 | INTR_OFF => 14 end.

Section table.
Variable intr_stubs : Z → Z.
Variable idt_at : Z.
(** the stubs are functions of the kernel *)
Hypothesis Hstubs : ∀ v, 0 ≤ v < 256 → 0 < intr_stubs v < 2 ^ 32.

Definition describes (s : intrs) (f : gates) : Prop :=
  length s.(idt) = 256%nat ∧ length s.(intr_handlers) = 256%nat ∧
  ∀ v, 0 ≤ v < 256 → let '(dpl, l, h) := f v in
    s.(idt) !! Z.to_nat v = Some (gate_word (intr_stubs v) dpl (type_of l)) ∧ s.(intr_handlers) !! Z.to_nat v = Some h.

Definition registered (v dpl : Z) (l : intr_level) (h : handler) (f : gates) : gates := λ w, if w =? v then (dpl, l, Some h) else f w.

Lemma register_handler_spec s f v dpl l h : describes s f → 0 ≤ v < 256 → 0 ≤ dpl < 4 → (f v).2 = None →
  ∃ s', register_handler intr_stubs v dpl l h s = Ok (tt, s') ∧ describes s' (registered v dpl l h f) ∧ s'.(ports) = s.(ports) ∧ s'.(idtr) = s.(idtr).
Proof using Hstubs.
  intros (Hl & Hh & Hf) Hv Hd Hn. unfold register_handler. rewrite (bind_ok get _ s s s) by done.
  pose proof (Hf v Hv) as Hfv. destruct (f v) as [[d0 l0] h0] eqn:Ef. cbn in Hn. subst h0. destruct Hfv as [_ Hnone].
  rewrite assert_bind by (by apply bool_decide_eq_true_2).
  assert (E : match l with INTR_OFF => make_intr_gate (intr_stubs v) dpl | INTR_ON => make_trap_gate (intr_stubs v) dpl end =
    Ok (gate_word (intr_stubs v) dpl (type_of l))) by (destruct l; apply make_gate_eq; try apply Hstubs; cbn; lia).
  rewrite (bind_ok _ _ _ _ _ (lift_out_eq _ _ s E)). eexists. split; [reflexivity|]. split; [|done].
  unfold describes. cbn [idt intr_handlers]. rewrite !length_insert. split; [done|]. split; [done|]. intros w Hw. unfold registered.
  destruct (Z.eqb_spec w v) as [->|Hne]; [by rewrite !list_lookup_insert_eq by lia|].
  rewrite !list_lookup_insert_ne by lia. exact (Hf w Hw).
Qed.

(** the registrations, as a table of vectors *)
Fixpoint register_list (t : list (Z * Z * intr_level * handler)) : I unit :=
  match t with [] => mret tt | (v, dpl, l, h) :: t => register_handler intr_stubs v dpl l h;; register_list t end.

Definition registered_list (t : list (Z * Z * intr_level * handler)) (f : gates) : gates :=
  foldl (λ f '(v, dpl, l, h), registered v dpl l h f) f t.

Lemma register_list_spec t s f : describes s f → NoDup (fst ∘ fst ∘ fst <$> t) →
  (∀ v dpl l h, (v, dpl, l, h) ∈ t → 0 ≤ v < 256 ∧ 0 ≤ dpl < 4 ∧ (f v).2 = None) →
  ∃ s', register_list t s = Ok (tt, s') ∧ describes s' (registered_list t f) ∧ s'.(ports) = s.(ports) ∧ s'.(idtr) = s.(idtr).
Proof using Hstubs.
  revert s f. induction t as [|[[[v dpl] l] h] t IH]; intros s f Hd Hnd Ht; [by exists s|]. apply NoDup_cons in Hnd as [Hni Hnd].
  destruct (Ht v dpl l h) as (Hv & Hdp & Hn); [left|]. destruct (register_handler_spec s f v dpl l h Hd Hv Hdp Hn) as (s1 & E & Hd1 & Hp & Hi).
  destruct (IH s1 _ Hd1 Hnd) as (s' & E' & Hd' & Hp' & Hi').
  - intros w d l' h' Hin. destruct (Ht w d l' h') as (Hw & Hdw & Hnw); [by right|]. split; [done|]. split; [done|].
    unfold registered. destruct (Z.eqb_spec w v) as [->|]; [|done]. destruct Hni. apply list_elem_of_fmap. by exists (v, d, l', h').
  - exists s'. cbn [register_list registered_list foldl]. rewrite (bind_ok _ _ _ _ _ E). split; [done|]. split; [done|]. by rewrite Hp', Hi'.
Qed.

Lemma register_list_app t t' s : register_list (t ++ t') s = (register_list t;; register_list t') s.
Proof using.
  revert s. induction t as [|[[[v dpl] l] h] t IH]; intros s; [done|]. cbn [app register_list]. unfold mbind, M_bind in *.
  destruct (register_handler intr_stubs v dpl l h s) as [[[] s1]|]; [|done]. apply IH.
Qed.

Lemma register_list_one v dpl l h s : register_list [(v, dpl, l, h)] s = register_handler intr_stubs v dpl l h s.
Proof using. cbn [register_list]. unfold mbind, M_bind. by destruct (register_handler intr_stubs v dpl l h s) as [[[] s1]|]. Qed.

Lemma idt_loop_spec n i s : length s.(idt) = 256%nat → 0 ≤ i → i + Z.of_nat n = 256 →
  ∃ d, idt_loop intr_stubs n i s = Ok (tt, mk_intrs d s.(intr_handlers) s.(idtr) s.(ports)) ∧ length d = 256%nat ∧
  (∀ v, 0 ≤ v < i → d !! Z.to_nat v = s.(idt) !! Z.to_nat v) ∧ ∀ v, i ≤ v < 256 → d !! Z.to_nat v = Some (gate_word (intr_stubs v) 0 14).
Proof using Hstubs.
  revert i s. induction n as [|n IH]; intros i s Hl Hi Hn.
  - exists s.(idt). split; [by destruct s|]. split; [done|]. split; [done|]. intros v Hv. lia.
  - cbn [idt_loop]. assert (E : make_intr_gate (intr_stubs i) 0 = Ok (gate_word (intr_stubs i) 0 14)) by (apply make_gate_eq; [apply Hstubs|..]; lia).
    rewrite (bind_ok _ _ _ _ _ (lift_out_eq _ _ s E)). erewrite bind_ok by reflexivity.
    destruct (IH (i + 1) (mk_intrs (<[Z.to_nat i := gate_word (intr_stubs i) 0 14]> s.(idt)) s.(intr_handlers) s.(idtr) s.(ports))) as (d & Ed & Hd & Hlo & Hhi);
      [by cbn; rewrite length_insert|lia|lia|]. exists d. split; [exact Ed|]. split; [done|]. cbn in Hlo. split; intros v Hv.
    + rewrite Hlo by lia. by rewrite list_lookup_insert_ne by lia.
    + destruct (decide (v = i)) as [->|]; [|apply Hhi; lia]. rewrite Hlo by lia. by rewrite list_lookup_insert_eq by lia.
Qed.
End table.

(** * The interrupt controllers *)

(** [icw]: the number of the initialization command word that comes next, 0 when there is none *)
Record pic := mk_pic { icw : nat; vector_base : Z; cascade : Z; mask : Z }.

(** a byte to the control register (even port) or the data register *)
Definition pic_write (ctrl : bool) (v : Z) (p : pic) : pic :=
  if ctrl then (if Z.testbit v 4 then mk_pic 2 p.(vector_base) p.(cascade) 0 else p)
  else match p.(icw) with
       | 2%nat => mk_pic 3 v p.(cascade) p.(mask)
       | 3%nat => mk_pic 4 p.(vector_base) v p.(mask)
       | 4%nat => mk_pic 0 p.(vector_base) p.(cascade) p.(mask)
       | _ => mk_pic p.(icw) p.(vector_base) p.(cascade) v
       end.

(** the bytes for the controller whose control register is at [port], the last one first *)
Definition pic_run (port : Z) (l : list (Z * Z)) (p : pic) : pic :=
  foldr (λ '(q, v) p, if q =? port then pic_write true v p else if q =? port + 1 then pic_write false v p else p) p l.

(** the vector of an interrupt line, when it is not masked; lines 8 to 15 are the slave's, which
    hangs on line 2 of the master *)
Definition irq_vector (master slave : pic) (irq : Z) : option Z :=
  let ready p := bool_decide (p.(icw) = 0%nat) in
  if irq <? 8 then if ready master && negb (Z.testbit master.(mask) irq) then Some (master.(vector_base) + irq) else None
  else if ready master && negb (Z.testbit master.(mask) 2) && Z.testbit master.(cascade) slave.(cascade) &&
          ready slave && negb (Z.testbit slave.(mask) (irq - 8)) then Some (slave.(vector_base) + (irq - 8)) else None.

(** * The table *)

Definition exceptions : list (Z * Z * intr_level * handler) :=
  ((λ v, (v, 3, INTR_ON, Hkill)) <$> [3; 4; 5]) ++ ((λ v, (v, 0, INTR_ON, Hkill)) <$> [0; 1; 6; 7; 11; 12; 13; 16; 19]) ++ [(14, 0, INTR_OFF, Hpage_fault)].

Definition kernel_table : list (Z * Z * intr_level * handler) :=
  [(0x20, 0, INTR_OFF, Htimer_interrupt); (0x21, 0, INTR_OFF, Hkeyboard_interrupt)] ++ exceptions ++
  [(0x30, 3, INTR_ON, Hsyscall_handler); (0x24, 0, INTR_OFF, Hserial_interrupt); (0x2e, 0, INTR_OFF, Hinterrupt_handler); (0x2f, 0, INTR_OFF, Hinterrupt_handler)].

Lemma exception_init_eq stubs s : exception_init stubs s = register_list stubs exceptions s.
Proof.
  unfold exception_init, exceptions. cbn [fmap list_fmap app register_list].
  do 12 (apply bind_cong; [done|]; intros [] ?). symmetry. apply register_list_one.
Qed.

Lemma register_all_eq stubs s : register_all stubs s = register_list stubs kernel_table s.
Proof.
  unfold register_all, kernel_table. cbn [app register_list]. do 2 (apply bind_cong; [done|]; intros [] ?). rewrite register_list_app.
  apply bind_cong; [apply exception_init_eq|]. intros [] s3.
  cbn [register_list]. do 3 (apply bind_cong; [done|]; intros [] ?). symmetry. apply register_list_one.
Qed.

(** what the kernel does when it starts *)
Definition intr_start (intr_stubs : Z → Z) (idt_at : Z) : I unit := intr_init intr_stubs idt_at;; register_all intr_stubs.

(** vectors that programs may raise with [int], and vectors entered with interrupts on *)
Definition user_vectors : list Z := [3; 4; 5; 0x30].
Definition trap_vectors : list Z := [0; 1; 3; 4; 5; 6; 7; 11; 12; 13; 16; 19; 0x30].

Definition boot_gates : gates := registered_list kernel_table (λ _, (0, INTR_OFF, None)).

Definition gate_ok (v : Z) : bool :=
  let '(dpl, l, h) := boot_gates v in
  (dpl =? if bool_decide (v ∈ user_vectors) then 3 else 0) && (type_of l =? if bool_decide (v ∈ trap_vectors) then 15 else 14).

Lemma boot_gates_ok v : 0 ≤ v < 256 → gate_ok v = true.
Proof.
  intros Hv. assert (H : forallb gate_ok (seqZ 0 256) = true) by reflexivity. rewrite forallb_forall in H. apply H, list_elem_of_In, elem_of_seqZ. lia.
Qed.

Definition pic_bytes : list (Z * Z) :=
  [(0xa1, 0x00); (0x21, 0x00); (0xa1, 0x01); (0xa1, 0x02); (0xa1, 0x28); (0xa0, 0x11); (0x21, 0x01); (0x21, 0x04); (0x21, 0x20); (0x20, 0x11); (0xa1, 0xff); (0x21, 0xff)].

Lemma pic_vectors master slave irq : 0 ≤ irq < 16 → irq_vector (pic_run 0x20 pic_bytes master) (pic_run 0xa0 pic_bytes slave) irq = Some (0x20 + irq).
Proof.
  intros Hi. change (pic_run 0x20 pic_bytes master) with (mk_pic 0 0x20 4 0). change (pic_run 0xa0 pic_bytes slave) with (mk_pic 0 0x28 2 0).
  unfold irq_vector. cbn [icw vector_base cascade mask]. rewrite !Z.bits_0. destruct (Z.ltb_spec irq 8); [done|].
  change (Z.testbit 4 2) with true. cbn. f_equal. lia.
Qed.

Lemma intr_init_spec intr_stubs idt_at s : (∀ v, 0 ≤ v < 256 → 0 < intr_stubs v < 2 ^ 32) →
  length s.(idt) = 256%nat → s.(intr_handlers) = replicate 256 None → s.(ports) = [] →
  ∃ s1, intr_init intr_stubs idt_at s = Ok (tt, s1) ∧ describes intr_stubs s1 (λ _, (0, INTR_OFF, None)) ∧ s1.(ports) = pic_bytes.
Proof.
  intros Hst Hl Hh Hp. assert (E : pic_init s = Ok (tt, mk_intrs s.(idt) s.(intr_handlers) s.(idtr) pic_bytes)) by (unfold pic_bytes; rewrite <- Hp; reflexivity).
  unfold intr_init. rewrite (bind_ok _ _ _ _ _ E).
  destruct (idt_loop_spec intr_stubs Hst 256 0 (mk_intrs s.(idt) s.(intr_handlers) s.(idtr) pic_bytes) Hl) as (d & Ed & Hd & _ & Hg); [lia|lia|].
  rewrite (bind_ok _ _ _ _ _ Ed). eexists. split; [reflexivity|]. split; [|done]. split; [done|]. cbn [intr_handlers]. rewrite Hh.
  split; [by rewrite length_replicate|]. intros v Hv. split; [apply Hg; lia|]. apply lookup_replicate_2. lia.
Qed.

(** C35. When the kernel has started, every vector enters the kernel at its own stub.  Programs
    can raise the breakpoint, overflow and bound exceptions and the system call themselves,
    and nothing else; page faults and the interrupts of devices are entered with interrupts
    off.  The lines 0 to 15 of the interrupt controllers, whatever state these were in,
    come in on the vectors 0x20 to 0x2f. *)
Theorem user_gates intr_stubs idt_at s master slave : (∀ v, 0 ≤ v < 256 → 0 < intr_stubs v < 2 ^ 32) →
  length s.(idt) = 256%nat → s.(intr_handlers) = replicate 256 None → s.(ports) = [] →
  ∃ s', intr_start intr_stubs idt_at s = Ok (tt, s') ∧
    (∀ v, 0 ≤ v < 256 → ∃ d, s'.(idt) !! Z.to_nat v = Some d ∧
       gate_of d = mk_gate (intr_stubs v) SEL_KCSEG (if bool_decide (v ∈ trap_vectors) then 15 else 14) (if bool_decide (v ∈ user_vectors) then 3 else 0) true) ∧
    ∀ irq, 0 ≤ irq < 16 → irq_vector (pic_run 0x20 s'.(ports) master) (pic_run 0xa0 s'.(ports) slave) irq = Some (0x20 + irq).
Proof.
  intros Hst Hl Hh Hp. destruct (intr_init_spec intr_stubs idt_at s Hst Hl Hh Hp) as (s1 & E1 & Hd1 & Hp1).
  destruct (register_list_spec intr_stubs Hst kernel_table s1 _ Hd1) as (s' & E' & Hd' & Hp' & _).
  - apply (bool_decide_unpack _). reflexivity.
  - intros v dpl l h Hin. assert (H : Forall (λ '(v, dpl, _, _), 0 ≤ v < 256 ∧ 0 ≤ dpl < 4) kernel_table) by (apply (bool_decide_unpack _); reflexivity).
    rewrite Forall_forall in H. destruct (H _ Hin) as [Hv Hdp]. done.
  - exists s'. unfold intr_start. rewrite (bind_ok _ _ _ _ _ E1), register_all_eq. split; [exact E'|]. split.
    + intros v Hv. destruct Hd' as (_ & _ & Hf). specialize (Hf v Hv). pose proof (boot_gates_ok v Hv) as Hok. unfold gate_ok, boot_gates in Hok.
      destruct (registered_list kernel_table _ v) as [[dpl l] h]. destruct Hf as [Hd _]. apply andb_true_iff in Hok as [H1%Z.eqb_eq H2%Z.eqb_eq].
      eexists. split; [exact Hd|]. rewrite H1, H2. apply gate_word_fields; [by apply Hst|by destruct (bool_decide (v ∈ user_vectors))|by destruct (bool_decide (v ∈ trap_vectors))].
    + intros irq Hirq. rewrite Hp', Hp1. by apply pic_vectors.
Qed.

(** stubs of sixteen bytes each *)
Lemma user_gates_witness : let s := mk_intrs (replicate 256 0) (replicate 256 None) 0 [] in
  ∃ s' d, intr_start (λ v, 0xc0020000 + 16 * v) 0xc0040000 s = Ok (tt, s') ∧ s'.(idt) !! 0x30%nat = Some d ∧
    gate_of d = mk_gate 0xc0020300 SEL_KCSEG 15 3 true.
Proof.
  destruct (user_gates (λ v, 0xc0020000 + 16 * v) 0xc0040000 (mk_intrs (replicate 256 0) (replicate 256 None) 0 []) (mk_pic 0 0 0 0) (mk_pic 3 7 1 0))
    as (s' & E & H & _); [intros; lia|reflexivity..|]. destruct (H 0x30 ltac:(lia)) as (d & Hd & Hg). exists s', d. split; [exact E|]. split; [exact Hd|exact Hg].
Defined.
