(* ===== verification/Clock.v ===== *)
(** devices/pit.c and devices/timer.c: the timer chip, the calibration of delay loops and
    the sleeping and delaying for real times.

    [pit_write] is what the chip does with the bytes it is sent.  How fast the machine
    runs a delay loop is the argument [too_many_loops] of [timer_calibrate].  A delay
    loop does nothing but count; [busy_wait] is the number it starts from. *)

From S2P Require Import Prelude Thread Intr.

Definition PIT_HZ : Z := 1193180.

Definition pit_count (frequency : Z) : Z :=
  if frequency <? 19 then 0
  else if frequency >? PIT_HZ then 2
  else (PIT_HZ + frequency ÷ 2) ÷ frequency mod 2 ^ 16.

Definition pit_configure_channel (channel mode frequency : Z) : I unit :=
  assert ((channel =? 0) || (channel =? 2));;
  assert ((mode =? 2) || (mode =? 3));;
  let count := pit_count frequency in
  outb 0x43 (u8 (Z.lor (Z.lor (Z.shiftl channel 6) 0x30) (Z.shiftl mode 1)));;
  outb (0x40 + channel) (u8 count);;
  outb (0x40 + channel) (u8 (Z.shiftr count 8)).

(** * Calibration *)

Section calibrate.
(** whether the clock ticks during that many turns of the delay loop *)
Variable too_many_loops : Z → bool.

(** the first loop; the variable is a 32-bit word, so that it has become 0 after 22 turns *)
Fixpoint calibrate_loop (n : nat) (l : Z) : outcome Z :=
  match n with
  | O => Err NoFuel
  | S n =>
      if negb (too_many_loops (u32 (Z.shiftl l 1))) then
        let l := u32 (Z.shiftl l 1) in _ ← oassert (negb (l =? 0)); calibrate_loop n l
      else Ok l
  end.

(** the second loop *)
Fixpoint refine_loop (n : nat) (high_bit test_bit l : Z) : outcome Z :=
  if test_bit =? Z.shiftr high_bit 10 then Ok l
  else match n with
       | O => Err NoFuel
       | S n => refine_loop n high_bit (Z.shiftr test_bit 1) (if negb (too_many_loops (Z.lor high_bit test_bit)) then Z.lor l test_bit else l)
       end.

(** with interrupts on *)
Definition timer_calibrate : outcome Z :=
  l ← calibrate_loop 23 (Z.shiftl 1 10); refine_loop 32 l (Z.shiftr l 1) l.
End calibrate.

(** * Sleeping and delaying *)

(** the argument of [busy_wait] *)
Definition real_time_delay (loops_per_tick num denom : Z) : outcome Z :=
  _ ← oassert (denom `rem` 1000 =? 0);
  Ok (s64 (s64 (s64 (loops_per_tick * num) ÷ 1000 * TIMER_FREQ) ÷ (denom ÷ 1000))).

(** sleeps, or returns the argument of [busy_wait] *)
Definition real_time_sleep (loops_per_tick num denom : Z) : K (option Z) :=
  let ticks := s64 (num * TIMER_FREQ) ÷ denom in
  l ← intr_get_level; assert l;;
  if ticks >? 0 then timer_sleep ticks;; mret None
  else n ← lift_out (real_time_delay loops_per_tick num denom); mret (Some n).

Definition timer_msleep (loops_per_tick ms : Z) : K (option Z) := real_time_sleep loops_per_tick ms 1000.
Definition timer_usleep (loops_per_tick us : Z) : K (option Z) := real_time_sleep loops_per_tick us (1000 * 1000).
Definition timer_nsleep (loops_per_tick ns : Z) : K (option Z) := real_time_sleep loops_per_tick ns (1000 * 1000 * 1000).

(** * The timer chip *)

(** [reload]: the count, 0 for 65536; [low]: the first of the two bytes of a new count *)
Record counter := mk_counter { cmode : Z; reload : Z; low : option Z }.

Definition pit_write (port v : Z) (p : list counter) : list counter :=
  if port =? 0x43 then
    if bits_at v 4 2 =? 3 then alter (λ c, mk_counter (bits_at v 1 3) c.(reload) None) (Z.to_nat (bits_at v 6 2)) p else p
  else if (0x40 <=? port) && (port <=? 0x42) then
    alter (λ c, match c.(low) with None => mk_counter c.(cmode) c.(reload) (Some v) | Some lo => mk_counter c.(cmode) (lo + 2 ^ 8 * v) None end)
      (Z.to_nat (port - 0x40)) p
  else p.

(** the bytes are kept the last one first *)
Definition pit_run (l : list (Z * Z)) (p : list counter) : list counter := foldr (λ '(port, v), pit_write port v) p l.

Lemma pit_count_range f : 0 ≤ pit_count f < 2 ^ 16.
Proof.
  unfold pit_count. destruct (f <? 19); [lia|]. destruct (f >? PIT_HZ); [lia|]. apply Z.mod_pos_bound. lia.
Qed.

Lemma pit_count_near f : 19 ≤ f ≤ PIT_HZ → 1 ≤ pit_count f ∧ 2 * Z.abs (f * pit_count f - PIT_HZ) ≤ f.
Proof.
  intros Hf. unfold pit_count, PIT_HZ in *. rewrite (proj2 (Z.ltb_ge _ _)) by lia. destruct (Z.gtb_spec f 1193180); [lia|].
  rewrite !Z.quot_div_nonneg by (try apply Z.add_nonneg_nonneg; try apply Z.quot_pos; lia).
  pose proof (Z.div_mod f 2 ltac:(lia)) as E2. pose proof (Z.mod_pos_bound f 2 ltac:(lia)) as R2.
  set (q := (1193180 + f / 2) / f). pose proof (Z.div_mod (1193180 + f / 2) f ltac:(lia)) as E. fold q in E.
  pose proof (Z.mod_pos_bound (1193180 + f / 2) f ltac:(lia)) as R. assert (Hq : 1 ≤ q) by (apply Z.div_le_lower_bound; lia).
  assert (q < 2 ^ 16) by (apply Z.div_lt_upper_bound; nia). rewrite Z.mod_small by lia. split; [done|]. lia.
Qed.

(** [pit_configure_channel] sets the channel to the mode it is given, with a count whose
    frequency is the one asked for, rounded to the nearest count, and leaves the other channels
    alone; frequencies below the lowest one get the longest count. *)
Theorem pit_configure_spec channel mode f s p : channel ∈ [0; 2] → mode ∈ [2; 3] → length p = 3%nat →
  ∃ s' n, pit_configure_channel channel mode f s = Ok (tt, s') ∧ 0 ≤ n < 2 ^ 16 ∧
    pit_run s'.(ports) p = <[Z.to_nat channel := mk_counter mode n None]> (pit_run s.(ports) p) ∧
    (f < 19 → n = 0) ∧ (19 ≤ f ≤ PIT_HZ → 1 ≤ n ∧ 2 * Z.abs (f * n - PIT_HZ) ≤ f) ∧ s'.(idt) = s.(idt) ∧ s'.(intr_handlers) = s.(intr_handlers).
Proof.
  intros Hc Hm Hp. assert (Hl : length (pit_run s.(ports) p) = 3%nat).
  { generalize s.(ports). intros l. induction l as [|[q v] l IH]; [done|]. cbn [pit_run foldr]. fold (pit_run l p). unfold pit_write.
    repeat (destruct (_ : bool); rewrite ?length_alter; try done). }
  pose proof (pit_count_range f) as Hn. set (n := pit_count f) in *.
  assert (E : u8 n + 2 ^ 8 * u8 (Z.shiftr n 8) = n).
  { unfold u8. rewrite Z.shiftr_div_pow2 by lia. change (2 ^ 8) with 256. Z.div_mod_to_equations. lia. }
  assert (Hr : pit_write (0x40 + channel) (u8 (Z.shiftr n 8)) (pit_write (0x40 + channel) (u8 n)
    (pit_write 0x43 (u8 (Z.lor (Z.lor (Z.shiftl channel 6) 0x30) (Z.shiftl mode 1))) (pit_run s.(ports) p))) =
    <[Z.to_nat channel := mk_counter mode n None]> (pit_run s.(ports) p)).
  { destruct (pit_run s.(ports) p) as [|c0 [|c1 [|c2 [|]]]]; try done. rewrite <- E at 3.
    set_unfold in Hc. set_unfold in Hm. destruct Hc as [->|[->|[]]], Hm as [->|[->|[]]]; reflexivity. }
  exists (mk_intrs s.(idt) s.(intr_handlers) s.(idtr) ((0x40 + channel, u8 (Z.shiftr n 8)) :: (0x40 + channel, u8 n) ::
    (0x43, u8 (Z.lor (Z.lor (Z.shiftl channel 6) 0x30) (Z.shiftl mode 1))) :: s.(ports))), n. split; [|split; [done|split; [exact Hr|]]].
  - unfold pit_configure_channel. rewrite !assert_bind; [reflexivity|..]; set_unfold in Hc; set_unfold in Hm;
      destruct Hc as [->|[->|[]]], Hm as [->|[->|[]]]; done.
  - split; [intros Hf; unfold n, pit_count; by rewrite (proj2 (Z.ltb_lt _ _))|]. split; [apply pit_count_near|done].
Qed.

(** the timer of the kernel: 100 times a second *)
Lemma pit_configure_spec_witness : let s := mk_intrs [] [] 0 [] in
  ∃ s' n, pit_configure_channel 0 2 TIMER_FREQ s = Ok (tt, s') ∧ 2 * Z.abs (100 * n - PIT_HZ) ≤ 100 ∧
    pit_run s'.(ports) (replicate 3 (mk_counter 0 0 None)) !! 0%nat = Some (mk_counter 2 n None).
Proof.
  destruct (pit_configure_spec 0 2 TIMER_FREQ (mk_intrs [] [] 0 []) (replicate 3 (mk_counter 0 0 None))) as (s' & n & E & _ & Hr & _ & Hn & _);
    [left|left|reflexivity|]. exists s', n. split; [exact E|]. split; [apply Hn; unfold TIMER_FREQ, PIT_HZ; lia|]. rewrite Hr. reflexivity.
Defined.

(** * How long the delay loop runs *)

Section calibrated.
Variables (tm : Z → bool) (T : Z).
Hypothesis Htm : ∀ n, tm n = (T <? n).
Hypothesis HT : 2 ^ 10 ≤ T < 2 ^ 31.

Let h := Z.log2 T.

Lemma log_bounds : 10 ≤ h < 31 ∧ 2 ^ h ≤ T < 2 ^ (h + 1).
Proof using HT.
  pose proof (Z.log2_spec T ltac:(lia)) as [H1 H2]. fold h in H1, H2. split; [|split; [done|by rewrite Z.add_1_r]].
  split; [by apply Z.log2_le_pow2; lia|apply Z.log2_lt_pow2; lia].
Qed.

Lemma calibrate_loop_spec n k : 10 ≤ k ≤ h → h - k < Z.of_nat n → calibrate_loop tm n (2 ^ k) = Ok (2 ^ h).
Proof using Htm HT.
  pose proof log_bounds as (Hh & H1 & H2). revert k. induction n as [|n IH]; intros k Hk Hn; [lia|]. cbn [calibrate_loop].
  assert (E : u32 (Z.shiftl (2 ^ k) 1) = 2 ^ (k + 1)).
  { rewrite Z.shiftl_mul_pow2 by lia. rewrite <- Z.pow_add_r by lia. apply u32_small. split; [lia|]. apply Z.pow_lt_mono_r; lia. }
  rewrite E, Htm. destruct (decide (k = h)) as [->|].
  - rewrite (proj2 (Z.ltb_lt _ _)) by lia. done.
  - assert (2 ^ (k + 1) ≤ 2 ^ h) by (apply Z.pow_le_mono_r; lia). pose proof (Z.pow_pos_nonneg 2 (k + 1) ltac:(lia) ltac:(lia)).
    rewrite (proj2 (Z.ltb_ge _ _)) by lia. cbn [negb]. rewrite (proj2 (Z.eqb_neq _ _)) by lia. cbn [negb oassert mbind outcome_bind]. apply IH; lia.
Qed.

Lemma refine_end n l : refine_loop tm n (2 ^ h) (2 ^ (h - 10)) l = Ok l.
Proof using HT.
  pose proof log_bounds as (Hh & _). destruct n; cbn [refine_loop]; rewrite Z.shiftr_div_pow2, <- Z.pow_sub_r by lia; by rewrite Z.eqb_refl.
Qed.

Lemma refine_step n i x : 1 ≤ i ≤ 9 →
  refine_loop tm (S n) (2 ^ h) (2 ^ (h - i)) (x * 2 ^ (h - i + 1)) =
  refine_loop tm n (2 ^ h) (2 ^ (h - (i + 1))) (if 2 ^ h + 2 ^ (h - i) <=? T then (2 * x + 1) * 2 ^ (h - (i + 1) + 1) else (2 * x) * 2 ^ (h - (i + 1) + 1)).
Proof using Htm HT.
  intros Hi. pose proof log_bounds as (Hh & _). cbn [refine_loop]. rewrite !Z.shiftr_div_pow2, <- Z.pow_sub_r by lia.
  assert (2 ^ (h - 10) < 2 ^ (h - i)) by (apply Z.pow_lt_mono_r; lia). rewrite (proj2 (Z.eqb_neq _ _)) by lia.
  assert (E1 : 2 ^ (h - i) / 2 ^ 1 = 2 ^ (h - (i + 1))) by (rewrite <- Z.pow_sub_r by lia; f_equal; lia). rewrite E1, Htm.
  assert (E2 : 2 ^ (h - i + 1) = 2 * 2 ^ (h - i)) by (rewrite Z.pow_add_r by lia; lia). replace (h - (i + 1) + 1) with (h - i) by lia.
  pose proof (Z.pow_pos_nonneg 2 (h - i) ltac:(lia) ltac:(lia)).
  assert (L : ∀ y, Z.lor (y * 2 ^ (h - i + 1)) (2 ^ (h - i)) = y * 2 ^ (h - i + 1) + 2 ^ (h - i)) by (intros y; rewrite Z.lor_comm, lor_shift by lia; lia).
  assert (E3 : 2 ^ h = 2 ^ (i - 1) * 2 ^ (h - i + 1)) by (rewrite <- Z.pow_add_r by lia; f_equal; lia).
  assert (Lh : Z.lor (2 ^ h) (2 ^ (h - i)) = 2 ^ h + 2 ^ (h - i)) by (rewrite E3; apply L). rewrite Lh, L. f_equal.
  destruct (Z.leb_spec (2 ^ h + 2 ^ (h - i)) T); [rewrite (proj2 (Z.ltb_ge _ _)) by lia|rewrite (proj2 (Z.ltb_lt _ _)) by lia]; cbn [negb]; rewrite E2; lia.
Qed.

(** from the first bit [b] that is set on, all of them are *)
Lemma refine_set b n i x : 1 ≤ b ≤ i → i ≤ 10 → (b ≤ 9 → 2 ^ h + 2 ^ (h - b) ≤ T) → 10 - i ≤ Z.of_nat n →
  refine_loop tm n (2 ^ h) (2 ^ (h - i)) (x * 2 ^ (h - i + 1)) = Ok (x * 2 ^ (h - i + 1) + 2 ^ (h - i + 1) - 2 ^ (h - 9)).
Proof using Htm HT.
  pose proof log_bounds as (Hh & _). revert i x. induction n as [|n IH]; intros i x Hb Hi Ht Hn.
  - assert (i = 10) as -> by lia. rewrite refine_end. f_equal. replace (h - 10 + 1) with (h - 9) by lia. lia.
  - destruct (decide (i = 10)) as [->|]; [rewrite refine_end; f_equal; replace (h - 10 + 1) with (h - 9) by lia; lia|].
    rewrite refine_step by lia. assert (2 ^ (h - i) ≤ 2 ^ (h - b)) by (apply Z.pow_le_mono_r; lia). specialize (Ht ltac:(lia)).
    rewrite (proj2 (Z.leb_le _ _)) by lia. rewrite IH by (try lia; done). f_equal. replace (h - (i + 1) + 1) with (h - i) by lia.
    rewrite (Z.pow_add_r 2 (h - i) 1) by lia. lia.
Qed.

Lemma refine_skip b n i : 1 ≤ i ≤ b → b ≤ 10 → (b ≤ 9 → 2 ^ h + 2 ^ (h - b) ≤ T) → T < 2 ^ h + 2 ^ (h - b + 1) → 10 - i ≤ Z.of_nat n →
  refine_loop tm n (2 ^ h) (2 ^ (h - i)) (2 ^ h) = Ok (2 ^ h + 2 ^ (h - b + 1) - 2 ^ (h - 9)).
Proof using Htm HT.
  pose proof log_bounds as (Hh & _). revert i. induction n as [|n IH]; intros i Hi Hb Ht Hu Hn.
  - assert (i = 10) as -> by lia. assert (b = 10) as -> by lia. rewrite refine_end. f_equal. replace (h - 10 + 1) with (h - 9) by lia. lia.
  - assert (E : 2 ^ h = 2 ^ (i - 1) * 2 ^ (h - i + 1)) by (rewrite <- Z.pow_add_r by lia; f_equal; lia).
    destruct (decide (i = b)) as [->|]; [rewrite E at 2; rewrite (refine_set b) by (try lia; done); by rewrite <- E|].
    rewrite E at 2. rewrite refine_step by lia. assert (2 ^ (h - b + 1) ≤ 2 ^ (h - i)) by (apply Z.pow_le_mono_r; lia).
    rewrite (proj2 (Z.leb_gt _ _)) by lia.
    assert (E' : 2 * 2 ^ (i - 1) * 2 ^ (h - (i + 1) + 1) = 2 ^ h).
    { rewrite <- Z.pow_succ_r, <- Z.pow_add_r by lia. f_equal. lia. }
    rewrite E'. apply IH; try lia; done.
Qed.

Lemma first_bit : ∃ b, 1 ≤ b ≤ 10 ∧ (b ≤ 9 → 2 ^ h + 2 ^ (h - b) ≤ T) ∧ T < 2 ^ h + 2 ^ (h - b + 1).
Proof using HT.
  pose proof log_bounds as (Hh & H1 & H2). rewrite Z.pow_add_r in H2 by lia.
  destruct (Z.lt_ge_cases (T - 2 ^ h) (2 ^ (h - 9))); [exists 10; replace (h - 10 + 1) with (h - 9) by lia; lia|].
  pose proof (Z.pow_pos_nonneg 2 (h - 9) ltac:(lia) ltac:(lia)). pose proof (Z.log2_spec (T - 2 ^ h) ltac:(lia)) as [L1 L2].
  set (l := Z.log2 (T - 2 ^ h)) in *. assert (Hl : h - 9 ≤ l < h) by (split; [apply Z.log2_le_pow2; lia|apply Z.log2_lt_pow2; lia]).
  exists (h - l). replace (h - (h - l)) with l by lia. rewrite <- Z.add_1_r in L2. lia.
Qed.
End calibrated.

(** [timer_calibrate] returns, with a number of loops per tick that is at most a 512th below
    the number [T] that fit into a tick, and less than a third above it: the second loop
    tests each bit with the high bit alone and not with the bits it has set before. *)
Theorem calibrate_spec tm T : (∀ n, tm n = (T <? n)) → 2 ^ 10 ≤ T < 2 ^ 31 →
  ∃ h b r, timer_calibrate tm = Ok r ∧ 2 ^ h ≤ T < 2 ^ (h + 1) ∧
    (1 ≤ b ≤ 10 ∧ (b ≤ 9 → 2 ^ h + 2 ^ (h - b) ≤ T) ∧ T < 2 ^ h + 2 ^ (h - b + 1)) ∧ r = 2 ^ h + 2 ^ (h - b + 1) - 2 ^ (h - 9) ∧
    T - 2 ^ (h - 9) < r ∧ 3 * r < 4 * T.
Proof.
  intros Htm HT. pose proof (log_bounds T HT) as (Hh & H1 & H2). set (h := Z.log2 T) in *. destruct (first_bit T HT) as (b & Hb & Hb1 & Hb2).
  fold h in Hb1, Hb2. exists h, b, (2 ^ h + 2 ^ (h - b + 1) - 2 ^ (h - 9)). split.
  - unfold timer_calibrate. change (Z.shiftl 1 10) with (2 ^ 10). rewrite (calibrate_loop_spec tm T Htm HT) by (fold h; lia). fold h.
    cbn [mbind outcome_bind]. rewrite Z.shiftr_div_pow2, <- Z.pow_sub_r by lia. apply (refine_skip tm T Htm HT b 32 1); try lia; done.
  - split; [done|]. split; [done|]. split; [done|]. split; [lia|]. pose proof (Z.pow_pos_nonneg 2 (h - 9) ltac:(lia) ltac:(lia)).
    destruct (decide (b = 10)) as [->|]; [replace (h - 10 + 1) with (h - 9) by lia; lia|]. specialize (Hb1 ltac:(lia)).
    assert (2 ^ (h - b + 1) ≤ 2 ^ h) by (apply Z.pow_le_mono_r; lia). rewrite Z.pow_add_r in * by lia. lia.
Qed.

(** a third too many *)
Lemma calibrate_spec_witness : (∃ h b r, timer_calibrate (λ n, 3 * 2 ^ 19 <? n) = Ok r ∧ r = 2 ^ h + 2 ^ (h - b + 1) - 2 ^ (h - 9)) ∧
  timer_calibrate (λ n, 3 * 2 ^ 19 <? n) = Ok (2 ^ 21 - 2 ^ 11).
Proof.
  split; [|reflexivity]. destruct (calibrate_spec (λ n, 3 * 2 ^ 19 <? n) (3 * 2 ^ 19) (λ _, eq_refl) ltac:(lia)) as (h & b & r & E & _ & _ & Hr & _).
  exists h, b, r. split; [exact E|exact Hr].
Defined.

(** The delay loop of [real_time_delay] runs as many times as fit into the time, but for the
    rounding of the division by 1000, when the product fits into 64 bits. *)
Theorem delay_loops lpt num denom : 0 ≤ lpt → 0 ≤ num → lpt * num * TIMER_FREQ < 2 ^ 63 → denom ∈ [1000; 1000 * 1000; 1000 * 1000 * 1000] →
  ∃ n, real_time_delay lpt num denom = Ok n ∧ n * denom ≤ lpt * TIMER_FREQ * num < (n + 1) * denom + 1000 * TIMER_FREQ.
Proof.
  intros Hl Hn Hx Hd. unfold TIMER_FREQ in *. assert (Hd' : ∃ d, denom = 1000 * d ∧ 0 < d).
  { set_unfold in Hd. destruct Hd as [->|[->|[->|[]]]]; [exists 1|exists 1000|exists 1000000]; lia. }
  destruct Hd' as (d & -> & Hd0). unfold real_time_delay, TIMER_FREQ.
  rewrite (Z.mul_comm 1000 d), Z.rem_mul by lia. cbn [Z.eqb oassert mbind outcome_bind]. rewrite Z.quot_mul by lia.
  set (x := lpt * num) in *. assert (Hx0 : 0 ≤ x) by (unfold x; lia). rewrite (s64_small x) by lia.
  rewrite (Z.quot_div_nonneg x 1000) by lia. pose proof (Z.div_mod x 1000 ltac:(lia)) as E. pose proof (Z.mod_pos_bound x 1000 ltac:(lia)) as R.
  set (q := x / 1000) in *. rewrite (s64_small (q * 100)) by lia. rewrite Z.quot_div_nonneg by lia.
  pose proof (Z.div_mod (q * 100) d ltac:(lia)) as E2. pose proof (Z.mod_pos_bound (q * 100) d ltac:(lia)) as R2. set (n := q * 100 / d) in *.
  assert (0 ≤ n) by (apply Z.div_pos; lia). assert (n ≤ q * 100) by nia. rewrite s64_small by lia. exists n. split; [done|].
  replace (lpt * 100 * num) with (x * 100) by (unfold x; lia). nia.
Qed.

Lemma delay_loops_witness : ∃ n, real_time_delay 500000 50 (1000 * 1000) = Ok n ∧ n * 1000000 ≤ 500000 * TIMER_FREQ * 50 < (n + 1) * 1000000 + 1000 * TIMER_FREQ.
Proof. apply (delay_loops 500000 50 (1000 * 1000)); [lia|lia|unfold TIMER_FREQ; lia|right; left]. Defined.
