(* ===== verification/Malloc.v ===== *)
(** threads/malloc.c: blocks of any size out of pages.

    The state is the page allocator, the descriptors and the arenas.  The header of
    an arena, at the start of its page, is an entry of [arenas] (its magic number is
    that the entry exists); a free list is the list of its blocks.  The bytes of
    headers and of free blocks are not otherwise looked at.  Of a descriptor's lock
    only its effect is kept: what it protects is one step. *)

From S2P Require Import Prelude Vaddr Bitmap CString Palloc.

Record desc := mk_desc { block_size : Z; blocks_per_arena : Z; free_list : list Z }.

(** [a_desc]: the index of the owning descriptor, [None] for a big block *)
Record arena := mk_arena { a_desc : option nat; free_cnt : Z }.

Record heap := mk_heap { pal : pstate; descs : list desc; arenas : gmap Z arena }.

Abbreviation HM := (M heap).

Definition sizeof_arena : Z := 12.
Definition DESC_MAX : Z := 10.

Definition in_pal {A} (x : P A) : HM A := λ s,
  match x s.(pal) with
  | Ok (a, p) => Ok (a, mk_heap p s.(descs) s.(arenas))
  | Err e => Err e
  end.

Definition set_arena (a : Z) (ar : arena) (s : heap) : heap := mk_heap s.(pal) s.(descs) (<[a := ar]> s.(arenas)).
Definition del_arena (a : Z) (s : heap) : heap := mk_heap s.(pal) s.(descs) (delete a s.(arenas)).
Definition set_free (i : nat) (l : list Z) (s : heap) : heap :=
  mk_heap s.(pal) (alter (λ d, mk_desc d.(block_size) d.(blocks_per_arena) l) i s.(descs)) s.(arenas).

(** [descs + i] *)
Definition get_desc (i : nat) : HM desc := s ← get; lift_out (ofault (s.(descs) !! i)).

(** * The routines *)

(** the loop over the sizes 16, 32, ..., below half a page *)
Fixpoint init_descs (n : nat) (size : Z) (descs : list desc) : outcome (list desc) :=
  match n with
  | O => Err NoFuel
  | S n' =>
      if size <? PGSIZE / 2 then
        let descs' := descs ++ [mk_desc size ((PGSIZE - sizeof_arena) / size) []] in
        _ ← oassert (Z.of_nat (length descs') <=? DESC_MAX);
        init_descs n' (u32 (size * 2)) descs'
      else Ok descs
  end.

Definition malloc_init (p : pstate) : outcome heap :=
  ds ← init_descs 12 16 []; Ok (mk_heap p ds ∅).

Definition block_to_arena (b : Z) : HM Z :=
  let a := pg_round_down b in
  assert (negb (a =? 0));;
  s ← get;
  match s.(arenas) !! a with
  | None => fail AssertFail
  | Some ar =>
      match ar.(a_desc) with
      | Some i => d ← get_desc i; assert (u32 (pg_ofs b - sizeof_arena) mod d.(block_size) =? 0);; mret a
      | None => assert (pg_ofs b =? sizeof_arena);; mret a
      end
  end.

Definition arena_to_block (a idx : Z) : HM Z :=
  assert (negb (a =? 0));;
  s ← get;
  match s.(arenas) !! a with
  | None => fail AssertFail
  | Some ar =>
      i ← lift_out (ofault ar.(a_desc)); d ← get_desc i;
      assert (idx <? d.(blocks_per_arena));;
      mret (u32 (a + sizeof_arena + u32 (idx * d.(block_size))))
  end.

Definition get_arena (a : Z) : HM arena := s ← get; lift_out (ofault (s.(arenas) !! a)).

(** [for (d = descs; d < descs + desc_cnt; d++) if (d->block_size >= size) break;] *)
Fixpoint find_desc (size : Z) (ds : list desc) (i : nat) : nat :=
  match ds with
  | [] => i
  | d :: r => if size <=? d.(block_size) then i else find_desc size r (S i)
  end.

(** the turns of the loop that puts the blocks of arena [a] on the free list, from [i] *)
Fixpoint push_blocks (di : nat) (a i : Z) (n : nat) : HM unit :=
  match n with
  | O => mret tt
  | S n' => b ← arena_to_block a i; d ← get_desc di;
      modify (set_free di (d.(free_list) ++ [b]));; push_blocks di a (i + 1) n'
  end.

Definition list_remove (b : Z) (l : list Z) : outcome (list Z) :=
  if decide (b ∈ l) then Ok (filter (.≠ b) l) else Err Fault.

(** the turns of the loop that takes the blocks of arena [a] off the free list *)
Fixpoint remove_blocks (di : nat) (a i : Z) (n : nat) : HM unit :=
  match n with
  | O => mret tt
  | S n' => b ← arena_to_block a i; d ← get_desc di;
      l ← lift_out (list_remove b d.(free_list));
      modify (set_free di l);; remove_blocks di a (i + 1) n'
  end.

Definition malloc_big (size : Z) : HM Z :=
  let page_cnt := DIV_ROUND_UP (u32 (size + sizeof_arena)) PGSIZE in
  a ← in_pal (palloc_get_multiple 0 page_cnt);
  if a =? 0 then mret 0
  else modify (set_arena a (mk_arena None page_cnt));; mret (u32 (a + sizeof_arena)).

(** the page that becomes an arena of descriptor [di]; [false] if there is none *)
Definition new_arena (di : nat) : HM bool :=
  d ← get_desc di;
  a ← in_pal (palloc_get_page 0);
  if a =? 0 then mret false
  else modify (set_arena a (mk_arena (Some di) d.(blocks_per_arena)));;
       push_blocks di a 0 (Z.to_nat d.(blocks_per_arena));; mret true.

(** [list_pop_front] of the free list, and the count of the block's arena *)
Definition take_block (di : nat) : HM Z :=
  d ← get_desc di;
  match d.(free_list) with
  | [] => fail AssertFail
  | b :: r =>
      modify (set_free di r);;
      a ← block_to_arena b; ar ← get_arena a;
      modify (set_arena a (mk_arena ar.(a_desc) (u32 (ar.(free_cnt) - 1))));; mret b
  end.

Definition malloc (size : Z) : HM Z :=
  if size =? 0 then mret 0 else
  s ← get;
  let di := find_desc size s.(descs) 0 in
  if (di =? length s.(descs))%nat then malloc_big size
  else
    d ← get_desc di;
    ok ← (if decide (d.(free_list) = []) then new_arena di else mret true);
    if negb ok then mret 0 else take_block di.

Definition calloc (a b : Z) : HM Z :=
  let size := u32 (a * b) in
  if (size <? a) || (size <? b) then mret 0 else
  p ← malloc size;
  (if negb (p =? 0) then in_pal (in_mem (memset p 0 size));; mret tt else mret tt);;
  mret p.

(** the function [block_size] *)
Definition size_of_block (block : Z) : HM Z :=
  a ← block_to_arena block; ar ← get_arena a;
  match ar.(a_desc) with
  | Some i => d ← get_desc i; mret d.(block_size)
  | None => mret (u32 (u32 (PGSIZE * ar.(free_cnt)) - pg_ofs block))
  end.

(** [list_push_front], and the arena given back when no block of it is in use *)
Definition free_block (di : nat) (a b : Z) : HM unit :=
  d ← get_desc di;
  in_pal (in_mem (memset b 0xcc d.(block_size)));;
  modify (set_free di (b :: d.(free_list)));;
  ar ← get_arena a;
  let cnt := u32 (ar.(free_cnt) + 1) in
  modify (set_arena a (mk_arena ar.(a_desc) cnt));;
  if d.(blocks_per_arena) <=? cnt then
    assert (cnt =? d.(blocks_per_arena));;
    remove_blocks di a 0 (Z.to_nat d.(blocks_per_arena));;
    in_pal (palloc_free_page a);;
    modify (del_arena a)
  else mret tt.

Definition free (p : Z) : HM unit :=
  if p =? 0 then mret tt else
  a ← block_to_arena p; ar ← get_arena a;
  match ar.(a_desc) with
  | Some di => free_block di a p
  | None => in_pal (palloc_free_multiple a ar.(free_cnt));; modify (del_arena a)
  end.

Definition realloc (old_block new_size : Z) : HM Z :=
  if new_size =? 0 then free old_block;; mret 0 else
  new_block ← malloc new_size;
  (if negb (old_block =? 0) && negb (new_block =? 0) then
     old_size ← size_of_block old_block;
     let min_size := if new_size <? old_size then new_size else old_size in
     in_pal (in_mem (memcpy new_block old_block min_size));; free old_block
   else mret tt);;
  mret new_block.

(** * The heap's invariant *)

(** size and number of the blocks of descriptor [i] *)
Definition bs (i : nat) : Z := 16 * 2 ^ Z.of_nat i.
Definition bpa (i : nat) : Z := 4084 / bs i.

Definition block_at (a : Z) (i : nat) (k : Z) : Z := a + 12 + k * bs i.

(** [p] is a block of an arena of descriptor [i] *)
Definition is_block (s : heap) (i : nat) (p : Z) : Prop :=
  ∃ a ar k, s.(arenas) !! a = Some ar ∧ ar.(a_desc) = Some i ∧ 0 ≤ k < bpa i ∧ p = block_at a i k.

(** the pages of an arena *)
Definition npages (ar : arena) : Z := match ar.(a_desc) with Some _ => 1 | None => ar.(free_cnt) end.

Definition arena_of (p : Z) : Z := 4096 * (p / 4096).

Definition free_of (s : heap) (i : nat) : list Z := from_option free_list [] (s.(descs) !! i).

(** [live]: the blocks handed out *)
Record heap_inv (s : heap) (live : gset Z) : Prop := {
  hi_pal : palloc_wf s.(pal);
  hi_cnt : length s.(descs) = 7%nat;
  hi_desc : ∀ i d, s.(descs) !! i = Some d → d.(block_size) = bs i ∧ d.(blocks_per_arena) = bpa i;
  hi_arena : ∀ a ar, s.(arenas) !! a = Some ar →
    0 < npages ar ∧ group_in s.(pal) false a (npages ar) ∧
    (∀ x, in_group a (npages ar) x → used s.(pal).(kernel_pool) x) ∧
    ∀ i, ar.(a_desc) = Some i → (i < 7)%nat;
  hi_sep : ∀ a ar a' ar', s.(arenas) !! a = Some ar → s.(arenas) !! a' = Some ar' → a < a' →
    a + PGSIZE * npages ar ≤ a';
  hi_nodup : ∀ i, NoDup (free_of s i);
  hi_free : ∀ i p, p ∈ free_of s i → is_block s i p;
  hi_part : ∀ i p, is_block s i p → p ∈ live ↔ p ∉ free_of s i;
  hi_live : ∀ p, p ∈ live → (∃ i, is_block s i p) ∨
    (∃ a ar, s.(arenas) !! a = Some ar ∧ ar.(a_desc) = None ∧ p = a + 12);
  hi_big : ∀ a ar, s.(arenas) !! a = Some ar → ar.(a_desc) = None → a + 12 ∈ live;
  hi_free_cnt : ∀ a ar i, s.(arenas) !! a = Some ar → ar.(a_desc) = Some i →
    ar.(free_cnt) = Z.of_nat (length (filter (λ p, arena_of p = a) (free_of s i)))
}.

(** no arena is without a block in use *)
Definition no_idle_but (s : heap) (a0 : Z) : Prop := ∀ a ar i, a ≠ a0 →
  s.(arenas) !! a = Some ar → ar.(a_desc) = Some i → ar.(free_cnt) < bpa i.
Definition no_idle (s : heap) : Prop := ∀ a, no_idle_but s a.

(** the bytes of the block at [p] *)
Definition extent (s : heap) (p : Z) : Z :=
  match s.(arenas) !! arena_of p with
  | Some ar => match ar.(a_desc) with Some i => bs i | None => PGSIZE * ar.(free_cnt) - 12 end
  | None => 0
  end.

(** ** Sizes *)

Lemma bs_bpa i : (i < 7)%nat → 16 ≤ bs i ≤ 1024 ∧ 3 ≤ bpa i ≤ 255 ∧ bpa i * bs i ≤ 4084.
Proof. intros Hi. do 7 (destruct i as [|i]; [vm_compute; repeat split; congruence|]). lia. Qed.

Lemma block_at_ofs a i k : (i < 7)%nat → a mod 4096 = 0 → 0 ≤ k < bpa i →
  arena_of (block_at a i k) = a ∧ block_at a i k mod 4096 = 12 + k * bs i ∧ 12 + k * bs i + bs i ≤ 4096.
Proof.
  intros Hi Ha Hk. destruct (bs_bpa i Hi) as (H1 & H2 & H3).
  assert (Hkb : k * bs i + bs i ≤ bpa i * bs i).
  { replace (k * bs i + bs i) with ((k + 1) * bs i) by lia. apply Z.mul_le_mono_nonneg_r; lia. }
  assert (0 ≤ k * bs i) by (apply Z.mul_nonneg_nonneg; lia).
  pose proof (Z.div_mod a 4096 ltac:(lia)) as Hd. unfold arena_of, block_at.
  replace (a + 12 + k * bs i) with (12 + k * bs i + a / 4096 * 4096) by lia.
  rewrite Z.div_add, Z.mod_add, Z.div_small, Z.mod_small by lia. lia.
Qed.

Lemma block_at_inj i a k k' : block_at a i k = block_at a i k' → k = k'.
Proof.
  unfold block_at, bs. intros E. assert (k * 2 ^ Z.of_nat i = k' * 2 ^ Z.of_nat i) by lia.
  apply Z.mul_reg_r in H; [done|]. pose proof (Z.pow_pos_nonneg 2 (Z.of_nat i)). lia.
Qed.

(** the blocks of arena [a] *)
Definition blocks (a : Z) (i : nat) : list Z := block_at a i <$> seqZ 0 (bpa i).

Lemma elem_of_blocks a i p : p ∈ blocks a i ↔ ∃ k, 0 ≤ k < bpa i ∧ p = block_at a i k.
Proof.
  unfold blocks. rewrite list_elem_of_fmap. split.
  - intros (k & -> & Hk). apply elem_of_seqZ in Hk. exists k. split; [lia|done].
  - intros (k & Hk & ->). exists k. split; [done|]. apply elem_of_seqZ. lia.
Qed.

Lemma NoDup_blocks a i : NoDup (blocks a i).
Proof.
  unfold blocks. apply NoDup_fmap_2_strong; [|apply NoDup_seqZ]. intros k k' _ _. apply block_at_inj.
Qed.

(** ** Equations of the operations *)

Lemma get_desc_eq s i d : s.(descs) !! i = Some d → get_desc i s = Ok (d, s).
Proof. intros E. unfold get_desc. erewrite bind_ok by done. by rewrite E. Qed.

Lemma get_arena_eq s a ar : s.(arenas) !! a = Some ar → get_arena a s = Ok (ar, s).
Proof. intros E. unfold get_arena. erewrite bind_ok by done. by rewrite E. Qed.

Lemma in_pal_eq {A} (x : P A) s a p : x s.(pal) = Ok (a, p) → in_pal x s = Ok (a, mk_heap p s.(descs) s.(arenas)).
Proof. intros E. unfold in_pal. by rewrite E. Qed.

Lemma descs_set_free s i l d : s.(descs) !! i = Some d →
  (set_free i l s).(descs) !! i = Some (mk_desc d.(block_size) d.(blocks_per_arena) l).
Proof. intros E. simpl. by rewrite list_lookup_alter_eq, E. Qed.

Lemma free_of_set s i l : is_Some (s.(descs) !! i) → free_of (set_free i l s) i = l.
Proof. intros [d E]. unfold free_of. by rewrite (descs_set_free _ _ _ _ E). Qed.

Lemma free_of_set_ne s i j l : i ≠ j → free_of (set_free i l s) j = free_of s j.
Proof. intros E. unfold free_of. simpl. by rewrite list_lookup_alter_ne. Qed.

Lemma free_of_lookup s i d : s.(descs) !! i = Some d → d.(free_list) = free_of s i.
Proof. intros E. unfold free_of. by rewrite E. Qed.

Lemma set_free_twice s i l l' : set_free i l' (set_free i l s) = set_free i l' s.
Proof.
  unfold set_free. simpl. f_equal. apply list_eq. intros j. destruct (decide (i = j)) as [<-|].
  - rewrite !list_lookup_alter_eq. by destruct (descs s !! i).
  - by rewrite !list_lookup_alter_ne.
Qed.

Lemma set_free_id s i : set_free i (free_of s i) s = s.
Proof.
  unfold set_free, free_of. destruct s as [p ds m]. simpl. f_equal. apply list_eq. intros j.
  destruct (decide (i = j)) as [<-|]; [|by rewrite list_lookup_alter_ne].
  rewrite list_lookup_alter_eq. destruct (ds !! i) as [[]|] eqn:E; simpl; by rewrite ?E.
Qed.

Section ops.
Context (s : heap) (live : gset Z).
Hypothesis Hinv : heap_inv s live.

Lemma arena_range a ar : s.(arenas) !! a = Some ar →
  0 < a ∧ a mod 4096 = 0 ∧ a + PGSIZE * npages ar ≤ 2 ^ 32 - PGSIZE ∧ 0 < npages ar.
Proof using Hinv.
  intros E. destruct (hi_arena _ _ Hinv _ _ E) as (Hn & [Hm Hlo Hhi] & _).
  pose proof (awf_kernel _ (hi_pal _ _ Hinv)) as [_ [Hb _] He]. simpl in *. unfold PGSIZE in *. lia.
Qed.

Lemma desc_lookup i : (i < 7)%nat → ∃ d, s.(descs) !! i = Some d ∧ d.(block_size) = bs i ∧
  d.(blocks_per_arena) = bpa i ∧ d.(free_list) = free_of s i.
Proof using Hinv.
  intros Hi. destruct (lookup_lt_is_Some_2 s.(descs) i) as [d E]; [by rewrite (hi_cnt _ _ Hinv)|].
  exists d. destruct (hi_desc _ _ Hinv i d E). split_and!; [done..|]. by apply free_of_lookup.
Qed.

Lemma small_lt a ar i : s.(arenas) !! a = Some ar → ar.(a_desc) = Some i → (i < 7)%nat.
Proof using Hinv. intros E. by destruct (hi_arena _ _ Hinv _ _ E) as (_ & _ & _ & ?); eauto. Qed.

Lemma block_to_arena_big a ar : s.(arenas) !! a = Some ar → ar.(a_desc) = None →
  block_to_arena (a + 12) s = Ok (a, s).
Proof using Hinv.
  intros E Ed. destruct (arena_range _ _ E) as (Ha & Hm & Hr & Hnp). unfold block_to_arena.
  pose proof (Z.div_mod a 4096 ltac:(lia)).
  rewrite pg_round_down_eq by (unfold PGSIZE in *; lia).
  replace (a + 12) with (12 + a / 4096 * 4096) by lia. rewrite Z.div_add by lia. change (12 / 4096) with 0.
  replace (4096 * (0 + a / 4096)) with a by lia.
  rewrite assert_bind by (destruct (Z.eqb_spec a 0); [lia|done]). erewrite bind_ok by done. rewrite E, Ed.
  rewrite pg_ofs_eq, Z.mod_add by lia. by rewrite assert_bind.
Qed.
End ops.

(** ** The loops over the blocks of an arena *)

Section arena_loops.
Context (a : Z) (ar : arena) (i : nat).
Hypothesis Ha : 0 < a ∧ a mod 4096 = 0 ∧ a + 4096 ≤ 2 ^ 32 - 4096.
Hypothesis Har : ar.(a_desc) = Some i.
Hypothesis Hi : (i < 7)%nat.

(** what the loops need of the state *)
Definition arena_here (s : heap) : Prop := s.(arenas) !! a = Some ar ∧
  ∃ d, s.(descs) !! i = Some d ∧ d.(block_size) = bs i ∧ d.(blocks_per_arena) = bpa i.

Lemma arena_here_set s l : arena_here s → arena_here (set_free i l s).
Proof. intros (E & d & Ed & H1 & H2). split; [done|]. eexists. split; [by apply descs_set_free|done]. Qed.

Lemma arena_to_block_eq s k : arena_here s → 0 ≤ k < bpa i → arena_to_block a k s = Ok (block_at a i k, s).
Proof using Ha Har Hi.
  intros (E & d & Ed & H1 & H2) Hk. unfold arena_to_block.
  rewrite assert_bind by (destruct (Z.eqb_spec a 0); [lia|done]). erewrite bind_ok by done. rewrite E, Har.
  erewrite bind_ok by done. rewrite (bind_ok _ _ _ _ _ (get_desc_eq _ _ _ Ed)), H1, H2.
  rewrite assert_bind by (apply Z.ltb_lt; lia). unfold sizeof_arena.
  destruct (block_at_ofs a i k Hi (proj1 (proj2 Ha)) Hk) as (_ & _ & H3). destruct (bs_bpa i Hi) as (H4 & _ & _).
  assert (0 ≤ k * bs i) by (apply Z.mul_nonneg_nonneg; lia).
  rewrite (u32_small (k * bs i)) by lia. by rewrite u32_small by lia.
Qed.

Lemma block_to_arena_eq s k : arena_here s → 0 ≤ k < bpa i → block_to_arena (block_at a i k) s = Ok (a, s).
Proof using Ha Har Hi.
  intros (E & d & Ed & Hbs & _) Hk. destruct Ha as (Ha0 & Hm & Hr).
  destruct (block_at_ofs a i k Hi Hm Hk) as (H1 & H2 & H3). destruct (bs_bpa i Hi) as (H4 & H5 & H6).
  assert (0 ≤ k * bs i) by (apply Z.mul_nonneg_nonneg; lia).
  unfold block_to_arena. rewrite pg_round_down_eq by (unfold block_at; lia).
  unfold arena_of in H1. rewrite H1. rewrite assert_bind by (destruct (Z.eqb_spec a 0); [lia|done]).
  erewrite bind_ok by done. rewrite E, Har.
  rewrite (bind_ok _ _ _ _ _ (get_desc_eq _ _ _ Ed)), pg_ofs_eq, H2, Hbs. unfold sizeof_arena.
  replace (12 + k * bs i - 12) with (k * bs i) by lia. rewrite u32_small by lia.
  rewrite Z.mod_mul by lia. by rewrite assert_bind.
Qed.

Lemma push_blocks_spec s k n : arena_here s → 0 ≤ k → k + Z.of_nat n ≤ bpa i →
  push_blocks i a k n s = Ok (tt, set_free i (free_of s i ++ (block_at a i <$> seqZ k (Z.of_nat n))) s).
Proof using Ha Har Hi.
  revert s k. induction n as [|n IH]; intros s k Hs Hk Hn.
  { simpl. rewrite app_nil_r. by rewrite set_free_id. }
  cbn [push_blocks]. rewrite (bind_ok _ _ _ _ _ (arena_to_block_eq s k Hs ltac:(lia))).
  pose proof Hs as (_ & d & Ed & _). rewrite (bind_ok _ _ _ _ _ (get_desc_eq _ _ _ Ed)).
  erewrite bind_ok by done. rewrite IH by first [by apply arena_here_set|lia].
  rewrite set_free_twice, free_of_set by eauto. rewrite (free_of_lookup s i d Ed), <- app_assoc.
  rewrite (seqZ_cons k (Z.of_nat (S n))) by lia. rewrite fmap_cons.
  replace (Z.pred (Z.of_nat (S n))) with (Z.of_nat n) by lia. done.
Qed.

Lemma remove_blocks_spec s k n : arena_here s → 0 ≤ k → k + Z.of_nat n ≤ bpa i →
  (∀ j, k ≤ j < k + Z.of_nat n → block_at a i j ∈ free_of s i) →
  remove_blocks i a k n s =
    Ok (tt, set_free i (filter (λ p, p ∉ block_at a i <$> seqZ k (Z.of_nat n)) (free_of s i)) s).
Proof using Ha Har Hi.
  revert s k. induction n as [|n IH]; intros s k Hs Hk Hn Hin.
  { simpl. rewrite filter_all; [by rewrite set_free_id|]. intros p _. apply not_elem_of_nil. }
  cbn [remove_blocks]. rewrite (bind_ok _ _ _ _ _ (arena_to_block_eq s k Hs ltac:(lia))).
  pose proof Hs as (_ & d & Ed & _). rewrite (bind_ok _ _ _ _ _ (get_desc_eq _ _ _ Ed)).
  rewrite (free_of_lookup s i d Ed). unfold list_remove at 1. rewrite decide_True by (apply Hin; lia).
  do 2 erewrite bind_ok by done. rewrite IH; [|by apply arena_here_set|lia|lia|].
  - rewrite set_free_twice, free_of_set by eauto. do 3 f_equal. rewrite list_filter_filter.
    apply filter_ext_in. intros p _.
    rewrite (seqZ_cons k (Z.of_nat (S n))) by lia. rewrite fmap_cons, not_elem_of_cons.
    replace (Z.pred (Z.of_nat (S n))) with (Z.of_nat n) by lia. change (Z.succ k) with (k + 1). tauto.
  - intros j Hj. rewrite free_of_set by eauto. apply list_elem_of_filter. split; [|apply Hin; lia].
    intros E. apply block_at_inj in E. lia.
Qed.
End arena_loops.

(** ** Blocks and arenas *)

Section blocks.
Context (s : heap) (live : gset Z).
Hypothesis Hinv : heap_inv s live.

Lemma small_here a ar i : s.(arenas) !! a = Some ar → ar.(a_desc) = Some i →
  arena_here a ar i s ∧ (0 < a ∧ a mod 4096 = 0 ∧ a + 4096 ≤ 2 ^ 32 - 4096) ∧ (i < 7)%nat.
Proof using Hinv.
  intros E Ed. pose proof (small_lt _ _ Hinv _ _ _ E Ed) as Hi.
  destruct (desc_lookup _ _ Hinv i Hi) as (d & Hd & Hbs & Hbpa & _).
  destruct (arena_range _ _ Hinv _ _ E) as (H1 & H2 & H3 & H4). unfold npages, PGSIZE in *. rewrite Ed in H3.
  split_and!; [by split; eauto|lia|done|lia|done].
Qed.

Lemma is_block_arena i p : is_block s i p → ∃ ar, s.(arenas) !! arena_of p = Some ar ∧ ar.(a_desc) = Some i ∧
  p ∈ blocks (arena_of p) i.
Proof using Hinv.
  intros (a & ar & k & E & Ed & Hk & ->). pose proof (small_lt _ _ Hinv _ _ _ E Ed) as Hi.
  destruct (arena_range _ _ Hinv _ _ E) as (Ha & Hm & _).
  destruct (block_at_ofs a i k Hi Hm Hk) as (-> & _). exists ar. split_and!; [done..|]. apply elem_of_blocks. eauto.
Qed.

Lemma is_block_fun i j p : is_block s i p → is_block s j p → i = j.
Proof using Hinv.
  intros (ar & E & Ed & _)%is_block_arena (ar' & E' & Ed' & _)%is_block_arena. by simplify_eq.
Qed.

Lemma big_arena_of a ar : s.(arenas) !! a = Some ar → arena_of (a + 12) = a.
Proof using Hinv.
  intros E. destruct (arena_range _ _ Hinv _ _ E) as (Ha & Hm & _). unfold arena_of.
  pose proof (Z.div_mod a 4096 ltac:(lia)). replace (a + 12) with (12 + a / 4096 * 4096) by lia.
  rewrite Z.div_add by lia. change (12 / 4096) with 0. lia.
Qed.

Lemma big_not_block a ar i : s.(arenas) !! a = Some ar → ar.(a_desc) = None → ¬ is_block s i (a + 12).
Proof using Hinv.
  intros E Ed (ar' & E' & Ed' & _)%is_block_arena. rewrite (big_arena_of _ _ E) in E'. congruence.
Qed.

(** the free blocks of an arena are at most its blocks *)
Lemma free_cnt_le a ar i : s.(arenas) !! a = Some ar → ar.(a_desc) = Some i → 0 ≤ ar.(free_cnt) ≤ bpa i.
Proof using Hinv.
  intros E Ed. rewrite (hi_free_cnt _ _ Hinv _ _ _ E Ed). split; [lia|].
  destruct (bs_bpa i (small_lt _ _ Hinv _ _ _ E Ed)) as (_ & Hb & _).
  assert (Hl : (length (filter (λ p, arena_of p = a) (free_of s i)) ≤ length (blocks a i))%nat).
  { apply submseteq_length, NoDup_submseteq; [apply NoDup_filter, (hi_nodup _ _ Hinv)|].
    intros p [Hp Hf]%list_elem_of_filter. apply (hi_free _ _ Hinv), is_block_arena in Hf as (_ & _ & _ & Hf).
    by rewrite Hp in Hf. }
  unfold blocks in Hl. rewrite length_fmap, length_seqZ in Hl. lia.
Qed.
End blocks.

(** a state with other free blocks: its arenas have the same descriptors *)
Lemma is_block_shape s s' i p : (∀ a, a_desc <$> s'.(arenas) !! a = a_desc <$> s.(arenas) !! a) →
  is_block s' i p ↔ is_block s i p.
Proof.
  intros Hsh. split; intros (a & ar & k & E & Ed & Hk & ->); specialize (Hsh a); rewrite E in Hsh; simpl in Hsh;
    rewrite Ed in Hsh.
  - destruct (s.(arenas) !! a) as [ar'|] eqn:E'; [|done]. exists a, ar', k. simpl in Hsh.
    split_and!; first [done|lia|congruence].
  - destruct (s'.(arenas) !! a) as [ar'|] eqn:E'; [|done]. exists a, ar', k. simpl in Hsh.
    split_and!; first [done|lia|congruence].
Qed.

(** what moving blocks of one arena between [live] and a free list preserves *)
Lemma heap_inv_move s live a ar i (l : list Z) (live' : gset Z) (p : pstate)
    (s' := set_arena a (mk_arena (Some i) (Z.of_nat (length (filter (λ p, arena_of p = a) l))))
             (set_free i l (mk_heap p s.(descs) s.(arenas)))) :
  heap_inv s live → s.(arenas) !! a = Some ar → ar.(a_desc) = Some i →
  palloc_wf p → p.(kernel_pool) = s.(pal).(kernel_pool) →
  NoDup l → (∀ p, p ∈ l → is_block s i p) →
  (∀ a', a' ≠ a → filter (λ p, arena_of p = a') l = filter (λ p, arena_of p = a') (free_of s i)) →
  (∀ p, is_block s i p → p ∈ live' ↔ p ∉ l) →
  (∀ p, ¬ is_block s i p → p ∈ live' ↔ p ∈ live) → (∀ p, p ∈ live' → p ∈ live ∨ is_block s i p) →
  heap_inv s' live'.
Proof.
  intros Hinv E Ed Hp Hk Hnd Hbl Hfl Hlive Hother Hnew.
  pose proof (small_lt _ _ Hinv _ _ _ E Ed) as Hi. destruct (desc_lookup _ _ Hinv i Hi) as (d & Hd & Hbs & Hbpa & _).
  assert (Hsh : ∀ x, a_desc <$> s'.(arenas) !! x = a_desc <$> s.(arenas) !! x).
  { intros x. simpl. destruct (decide (x = a)) as [->|]; [|by rewrite lookup_insert_ne].
    rewrite lookup_insert_eq, E. simpl. by rewrite Ed. }
  assert (Hfree : ∀ j, free_of s' j = if decide (j = i) then l else free_of s j).
  { intros j. destruct (decide (j = i)) as [->|].
    - change (free_of s' i) with (free_of (set_free i l (mk_heap p s.(descs) s.(arenas))) i). apply free_of_set. eauto.
    - change (free_of s' j) with (free_of (set_free i l (mk_heap p s.(descs) s.(arenas))) j).
      by rewrite free_of_set_ne. }
  assert (Hb : ∀ j q, is_block s' j q ↔ is_block s j q) by (intros; by apply is_block_shape).
  assert (Hnp : ∀ x ar', s'.(arenas) !! x = Some ar' → ∃ ar0, s.(arenas) !! x = Some ar0 ∧
            a_desc ar' = a_desc ar0 ∧ npages ar' = npages ar0 ∧ (x ≠ a → ar' = ar0)).
  { intros x ar'. simpl. destruct (decide (x = a)) as [->|].
    - rewrite lookup_insert_eq. intros [= <-]. exists ar. unfold npages. simpl. by rewrite Ed.
    - rewrite lookup_insert_ne by done. intros E'. by exists ar'. }
  split.
  - done.
  - simpl. rewrite length_alter. apply (hi_cnt _ _ Hinv).
  - intros j d'. simpl. destruct (decide (i = j)) as [<-|].
    + rewrite list_lookup_alter_eq, Hd. intros [= <-]. by simpl.
    + rewrite list_lookup_alter_ne by done. apply (hi_desc _ _ Hinv).
  - intros x ar' (ar0 & E0 & -> & -> & _)%Hnp. destruct (hi_arena _ _ Hinv _ _ E0) as (H1 & [H2 H3 H4] & H5 & H6).
    simpl in *. rewrite Hk. split_and!; [done|split; simpl; by rewrite ?Hk|done|done].
  - intros x ar1 y ar2 (ar1' & E1 & _ & -> & _)%Hnp (ar2' & E2 & _ & _ & _)%Hnp. by apply (hi_sep _ _ Hinv _ _ _ _ E1 E2).
  - intros j. rewrite Hfree. destruct (decide (j = i)); [done|]. apply (hi_nodup _ _ Hinv).
  - intros j q. rewrite Hfree, Hb. destruct (decide (j = i)) as [->|]; [apply Hbl|apply (hi_free _ _ Hinv)].
  - intros j q. rewrite Hfree, Hb. destruct (decide (j = i)) as [->|Hji]; [apply Hlive|]. intros Hq.
    rewrite Hother; [by apply (hi_part _ _ Hinv)|]. intros Hq'. apply Hji. by apply (is_block_fun _ _ Hinv j i q).
  - intros q Hq. destruct (Hnew q Hq) as [Hql|Hqi].
    + destruct (hi_live _ _ Hinv q Hql) as [[j Hj]|(x & ar0 & E0 & Hn & ->)]; [left; exists j; by apply Hb|].
      right. exists x, ar0. split_and!; [|done..]. simpl. rewrite lookup_insert_ne; [done|]. intros ->. congruence.
    + left. exists i. by apply Hb.
  - intros x ar' (ar0 & E0 & -> & _)%Hnp Hn. rewrite Hother; [by apply (hi_big _ _ Hinv _ _ E0)|].
    by apply (big_not_block _ _ Hinv x ar0).
  - intros x ar' j E' Ej. pose proof (Hnp _ _ E') as (ar0 & E0 & Hd0 & _ & Hne). rewrite Hfree.
    destruct (decide (x = a)) as [->|Hx].
    + simpl in E'. rewrite lookup_insert_eq in E'. injection E' as <-. simpl in Ej. injection Ej as <-.
      rewrite decide_True by done. done.
    + rewrite (Hne Hx) in Ej |- *. rewrite (hi_free_cnt _ _ Hinv _ _ _ E0 Ej).
      destruct (decide (j = i)) as [->|]; [|done]. by rewrite Hfl.
Qed.

(** what the operations keep of the blocks in use *)
Record keeps (s s' : heap) (live : gset Z) : Prop := {
  keeps_extent : ∀ q, q ∈ live → extent s' q = extent s q;
  keeps_bytes : ∀ q x, q ∈ live → q ≤ x < q + extent s q → s'.(pal).(pmem) !! x = s.(pal).(pmem) !! x
}.

Lemma keeps_refl s live : keeps s s live.
Proof. by split. Qed.

Lemma keeps_trans s1 s2 s3 live : keeps s1 s2 live → keeps s2 s3 live → keeps s1 s3 live.
Proof.
  intros [E1 B1] [E2 B2]. split.
  - intros q Hq. rewrite E2, E1; done.
  - intros q x Hq Hx. rewrite (B2 q x), (B1 q x); try done. by rewrite E1.
Qed.

(** the state after a small block's move *)
Definition moved (s : heap) (a : Z) (i : nat) (l : list Z) (p : pstate) : heap :=
  set_arena a (mk_arena (Some i) (Z.of_nat (length (filter (λ p, arena_of p = a) l))))
    (set_free i l (mk_heap p s.(descs) s.(arenas))).

Lemma extent_moved s a ar i l p q : s.(arenas) !! a = Some ar → ar.(a_desc) = Some i →
  extent (moved s a i l p) q = extent s q.
Proof.
  intros E Ed. unfold extent, moved. simpl. destruct (decide (arena_of q = a)) as [->|].
  - by rewrite lookup_insert_eq, E, Ed.
  - by rewrite lookup_insert_ne.
Qed.

Lemma take_block_eq s live i b r : heap_inv s live → (i < 7)%nat → free_of s i = b :: r →
  take_block i s = Ok (b, moved s (arena_of b) i r s.(pal)).
Proof.
  intros Hinv Hi Ef. destruct (desc_lookup _ _ Hinv i Hi) as (d & Hd & Hbs & Hbpa & Hfl).
  assert (Hb : is_block s i b) by (apply (hi_free _ _ Hinv); rewrite Ef; left).
  destruct (is_block_arena _ _ Hinv i b Hb) as (ar & E & Ed & (k & Hk & Eb)%elem_of_blocks).
  assert (Hcnt := hi_free_cnt _ _ Hinv _ _ _ E Ed). rewrite Ef, filter_cons, decide_True in Hcnt by done.
  destruct (free_cnt_le _ _ Hinv _ _ _ E Ed) as [_ Hle]. destruct (bs_bpa i Hi) as (_ & Hr & _).
  unfold take_block. rewrite (bind_ok _ _ _ _ _ (get_desc_eq _ _ _ Hd)), Hfl, Ef.
  rewrite (bind_ok (modify _) _ s tt (set_free i r s)) by done.
  destruct (small_here _ _ Hinv _ _ _ E Ed) as (Hh & Ha & _).
  pose proof (block_to_arena_eq _ _ _ Ha Ed Hi _ k (arena_here_set _ _ _ _ r Hh) Hk) as Hba. rewrite <- Eb in Hba.
  rewrite (bind_ok _ _ _ _ _ Hba).
  rewrite (bind_ok _ _ _ _ _ (get_arena_eq (set_free i r s) (arena_of b) ar E)).
  erewrite bind_ok by done. rewrite Ed. unfold moved. rewrite u32_small by (simpl in Hcnt; lia).
  simpl in Hcnt. replace (free_cnt ar - 1) with (Z.of_nat (length (filter (λ p, arena_of p = arena_of b) r))) by lia.
  done.
Qed.

Lemma take_block_spec s live i b r : heap_inv s live → (i < 7)%nat → free_of s i = b :: r →
  no_idle_but s (arena_of b) →
  ∃ s', take_block i s = Ok (b, s') ∧ heap_inv s' ({[b]} ∪ live) ∧ no_idle s' ∧ (b ∉ live) ∧ extent s' b = bs i ∧
    keeps s s' live ∧ s'.(pal) = s.(pal).
Proof.
  intros Hinv Hi Ef Hid. eexists. split; [by apply (take_block_eq s live)|].
  assert (Hb : is_block s i b) by (apply (hi_free _ _ Hinv); rewrite Ef; left).
  pose proof (is_block_arena _ _ Hinv i b Hb) as (ar & E & Ed & _).
  pose proof (hi_nodup _ _ Hinv i) as Hnd. rewrite Ef, NoDup_cons in Hnd. destruct Hnd as [Hbr Hnd].
  assert (Hbl : b ∉ live) by (rewrite (hi_part _ _ Hinv i b Hb), Ef; intros Hn; apply Hn; left).
  split_and!.
  - apply (heap_inv_move s live _ ar); try done; [apply (hi_pal _ _ Hinv)|..].
    + intros p Hp. apply (hi_free _ _ Hinv). rewrite Ef. by right.
    + intros a Ha. by rewrite Ef, filter_cons, decide_False.
    + intros p Hp. rewrite elem_of_union, elem_of_singleton, (hi_part _ _ Hinv i p Hp), Ef, not_elem_of_cons.
      destruct (decide (p = b)) as [->|]; tauto.
    + intros p Hp. rewrite elem_of_union, elem_of_singleton. split; [|tauto]. intros [->|]; done.
    + intros p. rewrite elem_of_union, elem_of_singleton. intros [->|]; tauto.
  - intros a0 a ar' j _ E' Ej. unfold moved in E'. simpl in E'. destruct (decide (a = arena_of b)) as [->|Ha].
    + rewrite lookup_insert_eq in E'. injection E' as <-. simpl in Ej |- *. injection Ej as <-.
      pose proof (free_cnt_le _ _ Hinv _ _ _ E Ed) as [_ Hle]. rewrite (hi_free_cnt _ _ Hinv _ _ _ E Ed) in Hle.
      rewrite Ef, filter_cons, decide_True in Hle by done. simpl in Hle. lia.
    + rewrite lookup_insert_ne in E' by done. by apply (Hid a ar' j).
  - done.
  - rewrite (extent_moved _ _ ar) by done. unfold extent. by rewrite E, Ed.
  - split; [|done]. intros q _. by rewrite (extent_moved _ _ ar).
  - done.
Qed.

(** ** New arenas *)

Lemma live_arena s live q : heap_inv s live → q ∈ live → is_Some (s.(arenas) !! arena_of q).
Proof.
  intros Hinv Hq. destruct (hi_live _ _ Hinv q Hq) as [[i Hi]|(a & ar & E & _ & ->)].
  - destruct (is_block_arena _ _ Hinv i q Hi) as (ar & E & _). eauto.
  - rewrite (big_arena_of _ _ Hinv _ _ E). eauto.
Qed.

Section fresh.
Context (s : heap) (live : gset Z) (n a : Z) (p : pstate).
Hypothesis Hinv : heap_inv s live.
Hypothesis Hn : 0 < n.
Hypothesis Hgot : got 0 n s.(pal) a p.

Lemma fresh_disjoint a' ar' : s.(arenas) !! a' = Some ar' →
  a + PGSIZE * n ≤ a' ∨ a' + PGSIZE * npages ar' ≤ a.
Proof using All.
  intros E. destruct (hi_arena _ _ Hinv _ _ E) as (Hn' & [Hm' _ _] & Hu' & _).
  destruct Hgot as [_ (Ha0 & Hm & _) Hfree _ _ _ _].
  destruct (decide (a + PGSIZE * n ≤ a')); [by left|]. destruct (decide (a' + PGSIZE * npages ar' ≤ a)); [by right|].
  exfalso. unfold PGSIZE in *. apply (Hfree (Z.max a a')).
  - split; [unfold PGSIZE; lia|]. destruct (Z.max_spec a a') as [[_ ->]|[_ ->]]; done.
  - apply Hu'. split; [unfold PGSIZE; lia|]. destruct (Z.max_spec a a') as [[_ ->]|[_ ->]]; done.
Qed.

Lemma fresh_none : s.(arenas) !! a = None.
Proof using All.
  destruct (s.(arenas) !! a) as [ar|] eqn:E; [|done]. destruct (arena_range _ _ Hinv _ _ E) as (_ & _ & _ & Hp).
  destruct (fresh_disjoint a ar E); unfold PGSIZE in *; lia.
Qed.

Lemma fresh_extent ds ar q : q ∈ live → extent (mk_heap p ds (<[a := ar]> s.(arenas))) q = extent s q.
Proof using All.
  intros Hq. destruct (live_arena _ _ _ Hinv Hq) as [ar' E]. unfold extent. simpl.
  rewrite lookup_insert_ne; [done|]. intros E'. rewrite <- E', fresh_none in E. done.
Qed.

Lemma fresh_keeps ds ar : keeps s (mk_heap p ds (<[a := ar]> s.(arenas))) live.
Proof using All.
  split; [intros; by apply fresh_extent|]. intros q x _ _. simpl. by rewrite (got_mem _ _ _ _ _ Hgot).
Qed.

Lemma fresh_block ds ar j q : (∀ i, ar.(a_desc) = Some i → q ∉ blocks a i) →
  is_block (mk_heap p ds (<[a := ar]> s.(arenas))) j q ↔ is_block s j q.
Proof using All.
  intros Hq. split; intros (a' & ar' & k & E & Ed & Hk & ->).
  - simpl in E. destruct (decide (a' = a)) as [->|].
    + rewrite lookup_insert_eq in E. injection E as <-. destruct (Hq j Ed). apply elem_of_blocks. eauto.
    + rewrite lookup_insert_ne in E by done. by exists a', ar', k.
  - exists a', ar', k. split_and!; [|done|lia..|done]. simpl. rewrite lookup_insert_ne; [done|].
    intros <-. by rewrite fresh_none in E.
Qed.

(** what an arena of [n] pages at [a] keeps of the invariant *)
Lemma fresh_arenas ds ar a' ar' : npages ar = n → (∀ i, ar.(a_desc) = Some i → (i < 7)%nat) →
  <[a := ar]> s.(arenas) !! a' = Some ar' →
  0 < npages ar' ∧ group_in (mk_heap p ds (<[a := ar]> s.(arenas))).(pal) false a' (npages ar') ∧
  (∀ x, in_group a' (npages ar') x → used p.(kernel_pool) x) ∧ ∀ i, ar'.(a_desc) = Some i → (i < 7)%nat.
Proof using All.
  intros Hnp Hi E. destruct Hgot as [Hwf (Ha0 & Hm & Hlo & Hhi) Hfree Hused [Hb Hp] _ _]. simpl in *.
  assert (Hend : pool_end (kernel_pool p) = pool_end (kernel_pool s.(pal))) by (unfold pool_end; by rewrite Hb, Hp).
  destruct (decide (a' = a)) as [->|].
  - rewrite lookup_insert_eq in E. injection E as <-. rewrite Hnp. split_and!; [done| | |done].
    + split; simpl; [done|by rewrite Hb|by rewrite Hend].
    + intros x Hx. apply Hused. by right.
  - rewrite lookup_insert_ne in E by done. destruct (hi_arena _ _ Hinv _ _ E) as (H1 & [H2 H3 H4] & H5 & H6).
    simpl in *. split_and!; [done| | |done].
    + split; simpl; [done|by rewrite Hb|by rewrite Hend].
    + intros x Hx. apply Hused. left. by apply H5.
Qed.

Lemma fresh_sep ar a1 ar1 a2 ar2 : npages ar = n →
  <[a := ar]> s.(arenas) !! a1 = Some ar1 → <[a := ar]> s.(arenas) !! a2 = Some ar2 → a1 < a2 →
  a1 + PGSIZE * npages ar1 ≤ a2.
Proof using All.
  intros Hnp E1 E2 Hlt. destruct (decide (a1 = a)) as [->|].
  - rewrite lookup_insert_eq in E1. injection E1 as <-. rewrite lookup_insert_ne in E2 by lia.
    pose proof (arena_range _ _ Hinv _ _ E2). destruct (fresh_disjoint _ _ E2); unfold PGSIZE in *; lia.
  - rewrite lookup_insert_ne in E1 by done. destruct (decide (a2 = a)) as [->|].
    + destruct (fresh_disjoint _ _ E1); unfold PGSIZE in *; lia.
    + rewrite lookup_insert_ne in E2 by done. by apply (hi_sep _ _ Hinv _ _ _ _ E1 E2).
Qed.

Lemma fresh_arena_of : arena_of (a + 12) = a.
Proof using Hgot.
  destruct Hgot as [_ (Ha0 & Hm & _) _ _ _ _ _]. unfold arena_of, PGSIZE in *.
  pose proof (Z.div_mod a 4096 ltac:(lia)). replace (a + 12) with (12 + a / 4096 * 4096) by lia.
  rewrite Z.div_add by lia. change (12 / 4096) with 0. lia.
Qed.

Lemma fresh_big_inv : heap_inv (mk_heap p s.(descs) (<[a := mk_arena None n]> s.(arenas))) ({[a + 12]} ∪ live).
Proof using All.
  set (s' := mk_heap p s.(descs) (<[a := mk_arena None n]> s.(arenas))).
  assert (Hb : ∀ j q, is_block s' j q ↔ is_block s j q) by (intros; by apply fresh_block).
  assert (Hne : ∀ j q, is_block s j q → q ≠ a + 12).
  { intros j q (ar & E & _)%(is_block_arena _ _ Hinv) ->. by rewrite fresh_arena_of, fresh_none in E. }
  split.
  - by destruct Hgot.
  - apply (hi_cnt _ _ Hinv).
  - apply (hi_desc _ _ Hinv).
  - intros a' ar'. by apply fresh_arenas.
  - intros a1 ar1 a2 ar2. by apply fresh_sep.
  - apply (hi_nodup _ _ Hinv).
  - intros j q Hq. apply Hb. by apply (hi_free _ _ Hinv).
  - intros j q Hq%Hb. rewrite elem_of_union, elem_of_singleton. rewrite (hi_part _ _ Hinv j q Hq).
    pose proof (Hne j q Hq). change (free_of s' j) with (free_of s j). tauto.
  - intros q [->%elem_of_singleton|Hq]%elem_of_union.
    + right. exists a, (mk_arena None n). split_and!; [apply lookup_insert_eq|done..].
    + destruct (hi_live _ _ Hinv q Hq) as [[j Hj]|(a' & ar' & E & Ed & ->)]; [left; exists j; by apply Hb|].
      right. exists a', ar'. split_and!; [|done..]. simpl. rewrite lookup_insert_ne; [done|].
      intros <-. by rewrite fresh_none in E.
  - intros a' ar' E Ed. simpl in E. rewrite elem_of_union, elem_of_singleton.
    destruct (decide (a' = a)) as [->|]; [by left|]. rewrite lookup_insert_ne in E by done. right.
    by apply (hi_big _ _ Hinv _ _ E).
  - intros a' ar' j E Ed. simpl in E. destruct (decide (a' = a)) as [->|].
    + rewrite lookup_insert_eq in E. by injection E as <-.
    + rewrite lookup_insert_ne in E by done. by apply (hi_free_cnt _ _ Hinv _ _ _ E).
Qed.
End fresh.

Section fresh_small.
Context (s : heap) (live : gset Z) (a : Z) (p : pstate) (i : nat).
Hypothesis Hinv : heap_inv s live.
Hypothesis Hi : (i < 7)%nat.
Hypothesis Hgot : got 0 1 s.(pal) a p.
Let s' := set_free i (free_of s i ++ blocks a i) (mk_heap p s.(descs) (<[a := mk_arena (Some i) (bpa i)]> s.(arenas))).

Lemma fresh_blocks_arena q : q ∈ blocks a i → arena_of q = a.
Proof using Hi Hgot.
  intros (k & Hk & ->)%elem_of_blocks. destruct Hgot as [_ (_ & Hm & _) _ _ _ _ _]. by apply block_at_ofs.
Qed.

Lemma fresh_not_old q j : is_block s j q → q ∉ blocks a i.
Proof using All.
  intros (ar & E & _)%(is_block_arena _ _ Hinv) Hq. rewrite (fresh_blocks_arena q Hq) in E.
  by rewrite (fresh_none s live 1 a p) in E.
Qed.

Lemma fresh_is_block j q : is_block s' j q ↔ is_block s j q ∨ j = i ∧ q ∈ blocks a i.
Proof using All.
  assert (Hs : is_block s' j q ↔ is_block (mk_heap p s.(descs) (<[a := mk_arena (Some i) (bpa i)]> s.(arenas))) j q) by done.
  rewrite Hs. destruct (decide (q ∈ blocks a i)) as [Hq|Hq].
  - split.
    + intros (a' & ar' & k & E & Ed & Hk & ->). simpl in E. destruct (decide (a' = a)) as [->|].
      * rewrite lookup_insert_eq in E. injection E as <-. simpl in Ed. injection Ed as <-. by right.
      * rewrite lookup_insert_ne in E by done. left. by exists a', ar', k.
    + intros [H|[-> H]]; [by apply fresh_not_old in H|]. apply elem_of_blocks in Hq as (k & Hk & ->).
      exists a, (mk_arena (Some i) (bpa i)), k. split_and!; [apply lookup_insert_eq|done|lia..|done].
  - rewrite (fresh_block s live 1 a p); [tauto|done..|]. intros j' [= <-]. done.
Qed.

Lemma fresh_free j : free_of s' j = if decide (j = i) then free_of s i ++ blocks a i else free_of s j.
Proof using Hinv Hi.
  destruct (decide (j = i)) as [->|]; [|unfold s'; by rewrite free_of_set_ne]. unfold s'. rewrite free_of_set; [done|].
  destruct (desc_lookup _ _ Hinv i Hi) as (d & Hd & _). eauto.
Qed.

Lemma fresh_old_arena j q : q ∈ free_of s j → arena_of q ≠ a.
Proof using All.
  intros Hq E. apply (hi_free _ _ Hinv), (is_block_arena _ _ Hinv) in Hq as (ar & E' & _).
  by rewrite E, (fresh_none s live 1 a p) in E'.
Qed.

Lemma fresh_count a' j : length (filter (λ q, arena_of q = a') (free_of s' j)) =
  (length (filter (λ q, arena_of q = a') (free_of s j)) + if decide (j = i ∧ a' = a) then length (blocks a i) else 0)%nat.
Proof using All.
  rewrite fresh_free. destruct (decide (j = i)) as [->|].
  - rewrite filter_app, length_app. destruct (decide (a' = a)) as [->|].
    + rewrite decide_True by done. f_equal. by rewrite (filter_all _ (blocks a i)) by apply fresh_blocks_arena.
    + rewrite decide_False by tauto. f_equal. rewrite (filter_none _ (blocks a i)); [done|].
      intros q ->%fresh_blocks_arena. done.
  - rewrite decide_False by tauto. lia.
Qed.

Lemma fresh_small_inv : heap_inv s' live.
Proof using All.
  split.
  - by destruct Hgot.
  - simpl. rewrite length_alter. apply (hi_cnt _ _ Hinv).
  - intros j d'. simpl. destruct (decide (i = j)) as [<-|].
    + rewrite list_lookup_alter_eq. destruct (descs s !! i) as [d|] eqn:Ed; [|done]. intros [= <-].
      exact (hi_desc _ _ Hinv i d Ed).
    + rewrite list_lookup_alter_ne by done. apply (hi_desc _ _ Hinv).
  - intros a' ar' E. apply (fresh_arenas s live 1 a p Hinv ltac:(lia) Hgot s'.(descs) (mk_arena (Some i) (bpa i)) a' ar' eq_refl); [|done].
    by intros ? [= <-].
  - intros a1 ar1 a2 ar2. by apply (fresh_sep s live 1 a p).
  - intros j. rewrite fresh_free. destruct (decide (j = i)); [|apply (hi_nodup _ _ Hinv)].
    apply NoDup_app. split_and!; [apply (hi_nodup _ _ Hinv)| |apply NoDup_blocks].
    intros q Hq. by apply (fresh_not_old q i), (hi_free _ _ Hinv).
  - intros j q. rewrite fresh_free, fresh_is_block. destruct (decide (j = i)) as [->|].
    + rewrite elem_of_app. intros [H|H]; [left; by apply (hi_free _ _ Hinv)|by right].
    + intros H. left. by apply (hi_free _ _ Hinv).
  - intros j q. rewrite fresh_free, fresh_is_block. intros [Hq|[-> Hq]].
    + rewrite (hi_part _ _ Hinv j q Hq). destruct (decide (j = i)) as [->|]; [|done].
      rewrite not_elem_of_app. pose proof (fresh_not_old q i Hq). tauto.
    + rewrite decide_True, not_elem_of_app by done. split; [|tauto]. intros Hl.
      destruct (live_arena _ _ _ Hinv Hl) as [ar E]. rewrite (fresh_blocks_arena q Hq) in E.
      by rewrite (fresh_none s live 1 a p) in E.
  - intros q Hq. destruct (hi_live _ _ Hinv q Hq) as [[j Hj]|(a' & ar' & E & Ed & ->)].
    + left. exists j. apply fresh_is_block. by left.
    + right. exists a', ar'. split_and!; [|done..]. simpl. rewrite lookup_insert_ne; [done|].
      intros <-. by rewrite (fresh_none s live 1 a p) in E.
  - intros a' ar' E Ed. simpl in E. destruct (decide (a' = a)) as [->|].
    + rewrite lookup_insert_eq in E. by injection E as <-.
    + rewrite lookup_insert_ne in E by done. by apply (hi_big _ _ Hinv _ _ E).
  - intros a' ar' j E Ed. simpl in E. rewrite fresh_count. destruct (decide (a' = a)) as [->|].
    + rewrite lookup_insert_eq in E. injection E as <-. simpl in Ed |- *. injection Ed as <-.
      rewrite decide_True by done. rewrite filter_none; [|intros q Hq; by apply (fresh_old_arena i)].
      unfold blocks. rewrite length_fmap, length_seqZ. simpl. destruct (bs_bpa i Hi). lia.
    + rewrite lookup_insert_ne in E by done. rewrite decide_False by tauto.
      rewrite (hi_free_cnt _ _ Hinv _ _ _ E Ed). lia.
Qed.

Lemma fresh_no_idle : no_idle s → no_idle_but s' a.
Proof.
  intros Hid a' ar' j Ha E Ed. simpl in E. rewrite lookup_insert_ne in E by done. by apply (Hid (a' + 1) a' ar' j); [lia|..].
Qed.
End fresh_small.

(** ** malloc *)

Lemma heap_eta s : mk_heap s.(pal) s.(descs) s.(arenas) = s.
Proof. by destruct s. Qed.

Lemma find_desc_spec size ds n : ∃ i, find_desc size ds n = (n + i)%nat ∧ (i ≤ length ds)%nat ∧
  (∀ d, ds !! i = Some d → size ≤ d.(block_size)) ∧
  ∀ j d, (j < i)%nat → ds !! j = Some d → d.(block_size) < size.
Proof.
  revert n. induction ds as [|d r IH]; intros n.
  { exists 0%nat. simpl. split_and!; [lia|lia|done|]. intros j d Hj. lia. }
  simpl. destruct (Z.leb_spec size (block_size d)).
  - exists 0%nat. split_and!; [lia|lia| |].
    + by intros d' [= <-].
    + intros j d' Hj. lia.
  - destruct (IH (S n)) as (i & E & Hi & H1 & H2). exists (S i). split_and!; [lia|lia|done|].
    intros [|j] d' Hj; simpl; [by intros [= <-]|]. apply H2. lia.
Qed.

(** the pages a request of [size] bytes may need *)
Definition pages_needed (size : Z) : Z := if size <=? 1024 then 1 else (size + 12 + 4095) / 4096.

(** [n]: the pages [malloc_big] asks for *)
Lemma malloc_big_gen s live size n : heap_inv s live → no_idle s → n = DIV_ROUND_UP (u32 (size + 12)) PGSIZE → 0 < n →
  (∃ p s', malloc_big size s = Ok (p, s') ∧ p ≠ 0 ∧ (p ∉ live) ∧ heap_inv s' ({[p]} ∪ live) ∧ no_idle s' ∧
     extent s' p = PGSIZE * n - 12 ∧ keeps s s' live ∧ s'.(pal).(pmem) = s.(pal).(pmem)) ∨
  (malloc_big size s = Ok (0, s) ∧ no_group s.(pal).(kernel_pool) n).
Proof.
  intros Hinv Hid En Hn. unfold malloc_big, sizeof_arena. rewrite <- En.
  destruct (palloc_get_cases s.(pal) 0 n (hi_pal _ _ Hinv) Hn) as [(a & p & E & G)|[Hno E]].
  - left. rewrite (bind_ok _ _ _ _ _ (in_pal_eq _ _ _ _ E)).
    pose proof (got_addr _ _ _ _ _ G) as (Ha & _ & _ & Hhi).
    pose proof (pwf_end _ (awf_kernel _ (hi_pal _ _ Hinv))). simpl in Hhi. unfold PGSIZE in *.
    destruct (Z.eqb_spec a 0); [lia|]. erewrite bind_ok by done. rewrite u32_small by lia.
    exists (a + 12), (mk_heap p s.(descs) (<[a := mk_arena None n]> s.(arenas))).
    split_and!; [done|lia| | | | | |exact (got_mem _ _ _ _ _ G)].
    + intros Hl. destruct (live_arena _ _ _ Hinv Hl) as [ar Ear]. rewrite (fresh_arena_of s n a p G) in Ear.
      by rewrite (fresh_none s live n a p Hinv Hn G) in Ear.
    + by apply fresh_big_inv.
    + intros a0 a' ar' i Ha' E' Ed. simpl in E'. destruct (decide (a' = a)) as [->|].
      * rewrite lookup_insert_eq in E'. by injection E' as <-.
      * rewrite lookup_insert_ne in E' by done. by apply (Hid a0 a').
    + unfold extent. rewrite (fresh_arena_of s n a p G). simpl. rewrite lookup_insert_eq. simpl. unfold PGSIZE. lia.
    + by apply (fresh_keeps s live n).
  - right. split; [|done]. rewrite (bind_ok _ _ _ _ _ (in_pal_eq _ _ _ _ E)). simpl. by rewrite heap_eta.
Qed.

Lemma malloc_big_spec s live size : heap_inv s live → no_idle s → 1024 < size < 2 ^ 32 - 4107 →
  (∃ p s', malloc_big size s = Ok (p, s') ∧ p ≠ 0 ∧ (p ∉ live) ∧ heap_inv s' ({[p]} ∪ live) ∧ no_idle s' ∧
     size ≤ extent s' p ∧ keeps s s' live ∧ s'.(pal).(pmem) = s.(pal).(pmem)) ∨
  (malloc_big size s = Ok (0, s) ∧ no_group s.(pal).(kernel_pool) (pages_needed size)).
Proof.
  intros Hinv Hid Hsz. set (n := DIV_ROUND_UP (u32 (size + 12)) PGSIZE).
  assert (En : n = (size + 12 + 4095) / 4096).
  { unfold n, DIV_ROUND_UP, PGSIZE. rewrite (u32_small (size + 12)) by lia. rewrite u32_small by lia. f_equal. lia. }
  assert (Hn : 0 < n ∧ size + 12 ≤ 4096 * n).
  { rewrite En. pose proof (Z.div_mod (size + 12 + 4095) 4096 ltac:(lia)).
    pose proof (Z.mod_pos_bound (size + 12 + 4095) 4096 ltac:(lia)). split; lia. }
  unfold pages_needed. destruct (Z.leb_spec size 1024); [lia|]. rewrite <- En.
  destruct (malloc_big_gen s live size n Hinv Hid eq_refl (proj1 Hn)) as [(p & s' & E & H1 & H2 & H3 & H4 & H5 & H6 & H7)|?].
  - left. exists p, s'. rewrite H5. unfold PGSIZE. split_and!; try done. lia.
  - by right.
Qed.

Lemma new_arena_spec s live i : heap_inv s live → no_idle s → (i < 7)%nat → free_of s i = [] →
  (∃ s', new_arena i s = Ok (true, s') ∧ heap_inv s' live ∧ keeps s s' live ∧ s'.(pal).(pmem) = s.(pal).(pmem) ∧
     ∃ b r, free_of s' i = b :: r ∧ no_idle_but s' (arena_of b)) ∨
  (new_arena i s = Ok (false, s) ∧ no_group s.(pal).(kernel_pool) 1).
Proof.
  intros Hinv Hid Hi Hf. destruct (desc_lookup _ _ Hinv i Hi) as (d & Hd & Hbs & Hbpa & _).
  unfold new_arena, palloc_get_page. rewrite (bind_ok _ _ _ _ _ (get_desc_eq _ _ _ Hd)), Hbpa.
  destruct (palloc_get_cases s.(pal) 0 1 (hi_pal _ _ Hinv) ltac:(lia)) as [(a & p & E & G)|[Hno E]].
  - left. rewrite (bind_ok _ _ _ _ _ (in_pal_eq _ _ _ _ E)).
    pose proof (got_addr _ _ _ _ _ G) as (Ha & Hm & _ & Hhi). simpl in Hhi.
    pose proof (pwf_end _ (awf_kernel _ (hi_pal _ _ Hinv))). unfold PGSIZE in *.
    destruct (Z.eqb_spec a 0); [lia|]. erewrite bind_ok by done. destruct (bs_bpa i Hi) as (_ & Hb & _).
    erewrite bind_ok; [|apply (push_blocks_spec a (mk_arena (Some i) (bpa i)) i); [lia|done|done| |lia|lia]].
    2: { split; [apply lookup_insert_eq|]. exists d. done. }
    rewrite Z2Nat.id by lia. fold (blocks a i). eexists. split; [done|].
    pose proof (fresh_small_inv s live a p i Hinv Hi G) as Hinv'. split_and!.
    + exact Hinv'.
    + pose proof (fresh_keeps s live 1 a p Hinv ltac:(lia) G s.(descs) (mk_arena (Some i) (bpa i))) as [K1 K2].
      split; [exact K1|exact K2].
    + exact (got_mem _ _ _ _ _ G).
    + rewrite free_of_set by (simpl; eauto).
      change (free_of _ i) with (free_of s i) at 1. rewrite Hf. simpl app. unfold blocks at 1.
      rewrite seqZ_cons by lia. rewrite fmap_cons. eexists _, _. split; [done|].
      replace (arena_of (block_at a i 0)) with a; [exact (fresh_no_idle s a p i Hi Hid)|]. symmetry. apply block_at_ofs; [done|done|lia].
  - right. split; [|done]. rewrite (bind_ok _ _ _ _ _ (in_pal_eq _ _ _ _ E)). simpl. by rewrite heap_eta.
Qed.

Lemma malloc_spec s live size : heap_inv s live → no_idle s → 0 < size < 2 ^ 32 - 4107 →
  (∃ p s', malloc size s = Ok (p, s') ∧ p ≠ 0 ∧ (p ∉ live) ∧ heap_inv s' ({[p]} ∪ live) ∧ no_idle s' ∧
     size ≤ extent s' p ∧ keeps s s' live ∧ s'.(pal).(pmem) = s.(pal).(pmem)) ∨
  (malloc size s = Ok (0, s) ∧ no_group s.(pal).(kernel_pool) (pages_needed size)).
Proof.
  intros Hinv Hid Hsz. unfold malloc. destruct (Z.eqb_spec size 0); [lia|]. erewrite bind_ok by done.
  destruct (find_desc_spec size s.(descs) 0) as (i & -> & Hi & Hle & Hlt). rewrite Nat.add_0_l.
  rewrite (hi_cnt _ _ Hinv) in Hi |- *. destruct (Nat.eqb_spec i 7) as [->|Hne].
  { destruct (desc_lookup _ _ Hinv 6 ltac:(lia)) as (d & Hd & Hbs & _). apply (malloc_big_spec s live); [done..|].
    specialize (Hlt 6%nat d ltac:(lia) Hd). rewrite Hbs in Hlt. change (bs 6) with 1024 in Hlt. lia. }
  assert (Hi7 : (i < 7)%nat) by lia. destruct (desc_lookup _ _ Hinv i Hi7) as (d & Hd & Hbs & Hbpa & Hfl).
  pose proof (Hle d Hd) as Hsi. rewrite Hbs in Hsi. destruct (bs_bpa i Hi7) as (Hb & _ & _).
  rewrite (bind_ok _ _ _ _ _ (get_desc_eq _ _ _ Hd)), Hfl.
  assert (Htake : ∀ s1 b r, heap_inv s1 live → keeps s s1 live → s1.(pal).(pmem) = s.(pal).(pmem) → free_of s1 i = b :: r → no_idle_but s1 (arena_of b) →
    ∃ p s', take_block i s1 = Ok (p, s') ∧ p ≠ 0 ∧ (p ∉ live) ∧ heap_inv s' ({[p]} ∪ live) ∧ no_idle s' ∧
     size ≤ extent s' p ∧ keeps s s' live ∧ s'.(pal).(pmem) = s.(pal).(pmem)).
  { intros s1 b r Hinv1 K1 Hm1 Ef Hid1.
    destruct (take_block_spec s1 live i b r Hinv1 Hi7 Ef Hid1) as (s' & E & I & N & Hbl & Hx & K & Hpal).
    exists b, s'. split_and!; [done| |done..|by rewrite Hx|by apply (keeps_trans s s1)|by rewrite Hpal].
    intros ->. assert (Hblk : is_block s1 i 0) by (apply (hi_free _ _ Hinv1); rewrite Ef; left).
    destruct (is_block_arena _ _ Hinv1 _ _ Hblk) as (ar & Ear & _).
    change (arena_of 0) with 0 in Ear. pose proof (arena_range _ _ Hinv1 _ _ Ear). lia. }
  destruct (decide (free_of s i = [])) as [Hf|Hf].
  - destruct (new_arena_spec s live i Hinv Hid Hi7 Hf) as [(s1 & E & I & K & Hm1 & b & r & Ef & N)|[E Hno]].
    + left. rewrite (bind_ok _ _ _ _ _ E). by apply (Htake s1 b r).
    + right. rewrite (bind_ok _ _ _ _ _ E). split; [done|]. unfold pages_needed.
      by destruct (Z.leb_spec size 1024); [|lia].
  - left. erewrite bind_ok by done. simpl negb. cbv iota. destruct (free_of s i) as [|b r] eqn:Ef; [done|].
    apply (Htake s b r); [done|apply keeps_refl|done|done|apply Hid].
Qed.

(** ** Blocks in use do not overlap *)

Section disjoint.
Context (s : heap) (live : gset Z).
Hypothesis Hinv : heap_inv s live.

Lemma extent_in q : q ∈ live → ∃ ar, s.(arenas) !! arena_of q = Some ar ∧ 0 < extent s q ∧
  arena_of q ≤ q ∧ q + extent s q ≤ arena_of q + PGSIZE * npages ar.
Proof using Hinv.
  intros Hq. destruct (hi_live _ _ Hinv q Hq) as [[i Hi]|(a & ar & E & Ed & ->)].
  - destruct (is_block_arena _ _ Hinv i q Hi) as (ar & E & Ed & (k & Hk & Eq)%elem_of_blocks). exists ar.
    pose proof (small_lt _ _ Hinv _ _ _ E Ed) as Hi7. destruct (arena_range _ _ Hinv _ _ E) as (_ & Hm & _).
    destruct (block_at_ofs _ i k Hi7 Hm Hk) as (_ & _ & H3). destruct (bs_bpa i Hi7) as (H4 & _).
    assert (0 ≤ k * bs i) by (apply Z.mul_nonneg_nonneg; lia).
    split; [done|]. unfold extent. rewrite E, Ed. unfold npages, PGSIZE. rewrite Ed.
    unfold block_at in Eq. lia.
  - exists ar. rewrite (big_arena_of _ _ Hinv _ _ E). split; [done|]. unfold extent.
    rewrite (big_arena_of _ _ Hinv _ _ E), E, Ed. pose proof (arena_range _ _ Hinv _ _ E) as (_ & _ & _ & Hn).
    unfold npages, PGSIZE in *. rewrite Ed in *. lia.
Qed.

Lemma live_disjoint p q : p ∈ live → q ∈ live → p ≠ q → p + extent s p ≤ q ∨ q + extent s q ≤ p.
Proof using Hinv.
  intros Hp Hq Hne. destruct (extent_in p Hp) as (ar & E & H1 & H2 & H3).
  destruct (extent_in q Hq) as (ar' & E' & H1' & H2' & H3').
  destruct (Z.lt_trichotomy (arena_of p) (arena_of q)) as [Hlt|[Heq|Hlt]].
  - pose proof (hi_sep _ _ Hinv _ _ _ _ E E' Hlt). lia.
  - rewrite <- Heq, E in E'. injection E' as <-.
    destruct (hi_live _ _ Hinv p Hp) as [[i Hi]|(a & ar2 & E2 & Ed2 & ->)].
    + destruct (is_block_arena _ _ Hinv i p Hi) as (ar1 & E1 & Ed1 & (k & Hk & Ek)%elem_of_blocks).
      destruct (hi_live _ _ Hinv q Hq) as [[j Hj]|(a' & ar2 & E2 & Ed2 & ->)].
      * destruct (is_block_arena _ _ Hinv j q Hj) as (ar2 & E2 & Ed2 & (k' & Hk' & Ek')%elem_of_blocks).
        rewrite <- Heq in E2, Ek'. assert (ar1 = ar) as -> by congruence. assert (ar2 = ar) as -> by congruence.
        assert (j = i) as -> by congruence. unfold extent. rewrite <- Heq, E, Ed1. clear H1 H2 H3 H1' H2' H3'.
        destruct (bs_bpa i (small_lt _ _ Hinv _ _ _ E Ed1)) as (Hb & _). unfold block_at in Ek, Ek'.
        destruct (Z.lt_trichotomy k k') as [Hkk|[->|Hkk]]; [left|congruence|right].
        -- assert ((k + 1) * bs i ≤ k' * bs i) by (apply Z.mul_le_mono_nonneg_r; lia). lia.
        -- assert ((k' + 1) * bs i ≤ k * bs i) by (apply Z.mul_le_mono_nonneg_r; lia). lia.
      * rewrite (big_arena_of _ _ Hinv _ _ E2) in Heq. rewrite Heq in *. congruence.
    + rewrite (big_arena_of _ _ Hinv _ _ E2) in *. assert (ar2 = ar) as -> by congruence.
      destruct (hi_live _ _ Hinv q Hq) as [[j Hj]|(a' & ar3 & E3 & Ed3 & ->)].
      * destruct (is_block_arena _ _ Hinv j q Hj) as (ar3 & E3 & Ed3 & _). rewrite <- Heq in E3. congruence.
      * rewrite (big_arena_of _ _ Hinv _ _ E3) in Heq. congruence.
  - pose proof (hi_sep _ _ Hinv _ _ _ _ E' E Hlt). lia.
Qed.

(** the pages of an arena hold no byte of a block of another *)
Lemma other_arena q a ar x : q ∈ live → s.(arenas) !! a = Some ar → arena_of q ≠ a →
  q ≤ x < q + extent s q → ¬ (a ≤ x < a + PGSIZE * npages ar).
Proof using Hinv.
  intros Hq E Hne Hx Hax. destruct (extent_in q Hq) as (ar' & E' & H1 & H2 & H3).
  destruct (Z.lt_trichotomy (arena_of q) a) as [Hlt|[Heq|Hlt]]; [|done|].
  - pose proof (hi_sep _ _ Hinv _ _ _ _ E' E Hlt). lia.
  - pose proof (hi_sep _ _ Hinv _ _ _ _ E E' Hlt). lia.
Qed.
End disjoint.

(** ** Arenas given back *)

Section drop.
Context (s : heap) (live : gset Z) (a : Z) (ar : arena) (p : pstate).
Hypothesis Hinv : heap_inv s live.
Hypothesis E : s.(arenas) !! a = Some ar.
Hypothesis Hwf : palloc_wf p.
Hypothesis Hused : ∀ x, used p.(kernel_pool) x ↔ used s.(pal).(kernel_pool) x ∧ ¬ in_group a (npages ar) x.
Hypothesis Hbase : p.(kernel_pool).(base) = s.(pal).(kernel_pool).(base).
Hypothesis Hpages : pool_pages p.(kernel_pool) = pool_pages s.(pal).(kernel_pool).

Lemma drop_arenas ds a' ar' : delete a s.(arenas) !! a' = Some ar' →
  0 < npages ar' ∧ group_in (mk_heap p ds (delete a s.(arenas))).(pal) false a' (npages ar') ∧
  (∀ x, in_group a' (npages ar') x → used p.(kernel_pool) x) ∧ ∀ i, ar'.(a_desc) = Some i → (i < 7)%nat.
Proof using All.
  intros [Hne E']%lookup_delete_Some. destruct (hi_arena _ _ Hinv _ _ E') as (H1 & [H2 H3 H4] & H5 & H6).
  simpl in *. split_and!; [done| | |done].
  - split; simpl; [done|by rewrite Hbase|]. unfold pool_end in *. by rewrite Hbase, Hpages.
  - intros x Hx. apply Hused. split; [by apply H5|]. intros Hx'. destruct Hx as [Hx _], Hx' as [Hx' _].
    destruct (Z.lt_trichotomy a a') as [Hlt|[?|Hlt]]; [|done|].
    + pose proof (hi_sep _ _ Hinv _ _ _ _ E E' Hlt). lia.
    + pose proof (hi_sep _ _ Hinv _ _ _ _ E' E Hlt). lia.
Qed.

Lemma drop_block ds j q : (∀ i, ar.(a_desc) = Some i → q ∉ blocks a i) →
  is_block (mk_heap p ds (delete a s.(arenas))) j q ↔ is_block s j q.
Proof using E.
  intros Hq. split; intros (a' & ar' & k & E' & Ed & Hk & ->).
  - simpl in E'. apply lookup_delete_Some in E' as [_ E']. by exists a', ar', k.
  - exists a', ar', k. split_and!; [|done|lia..|done]. apply lookup_delete_Some. split; [|done]. intros <-.
    rewrite E in E'. injection E' as <-. destruct (Hq j Ed). apply elem_of_blocks. eauto.
Qed.

(** a big block *)
Lemma drop_big_inv : ar.(a_desc) = None →
  heap_inv (mk_heap p s.(descs) (delete a s.(arenas))) (live ∖ {[a + 12]}).
Proof using All.
  intros En. set (s' := mk_heap p s.(descs) (delete a s.(arenas))).
  assert (Hdel : ∀ x y, s'.(arenas) !! x = Some y ↔ a ≠ x ∧ s.(arenas) !! x = Some y)
    by (intros; apply lookup_delete_Some).
  assert (Hb : ∀ j q, is_block s' j q ↔ is_block s j q) by (intros; apply drop_block; congruence).
  split.
  - done.
  - apply (hi_cnt _ _ Hinv).
  - apply (hi_desc _ _ Hinv).
  - intros a' ar'. apply drop_arenas.
  - intros a1 ar1 a2 ar2 [_ E1]%Hdel [_ E2]%Hdel. by apply (hi_sep _ _ Hinv _ _ _ _ E1 E2).
  - apply (hi_nodup _ _ Hinv).
  - intros j q Hq. apply Hb. by apply (hi_free _ _ Hinv).
  - intros j q Hq%Hb. rewrite elem_of_difference, elem_of_singleton, (hi_part _ _ Hinv j q Hq).
    change (free_of s' j) with (free_of s j). split; [tauto|]. intros; split; [done|]. intros ->.
    by apply (big_not_block _ _ Hinv _ _ j E En).
  - intros q [Hq Hne]%elem_of_difference. rewrite elem_of_singleton in Hne.
    destruct (hi_live _ _ Hinv q Hq) as [[j Hj]|(a' & ar' & E' & Ed & ->)]; [left; exists j; by apply Hb|].
    right. exists a', ar'. split_and!; [|done..]. apply Hdel. split; [|done]. by intros <-.
  - intros a' ar' [Hne E']%Hdel En'. apply elem_of_difference.
    split; [by apply (hi_big _ _ Hinv _ _ E')|]. rewrite elem_of_singleton. lia.
  - intros a' ar' j [Hne E']%Hdel Ej. by apply (hi_free_cnt _ _ Hinv _ _ _ E').
Qed.

(** an arena of small blocks none of which is in use *)
Lemma drop_small_inv i : ar.(a_desc) = Some i → (∀ q, q ∈ blocks a i → q ∈ free_of s i) →
  heap_inv (set_free i (filter (λ q, q ∉ blocks a i) (free_of s i)) (mk_heap p s.(descs) (delete a s.(arenas)))) live.
Proof using All.
  intros Ed Hall. set (s' := set_free _ _ _). pose proof (small_lt _ _ Hinv _ _ _ E Ed) as Hi.
  destruct (desc_lookup _ _ Hinv i Hi) as (d & Hd & Hbs & Hbpa & _).
  assert (Hdel : ∀ x y, s'.(arenas) !! x = Some y ↔ a ≠ x ∧ s.(arenas) !! x = Some y)
    by (intros; apply lookup_delete_Some).
  assert (Hblk : ∀ q, q ∈ blocks a i → is_block s i q).
  { intros q (k & Hk & ->)%elem_of_blocks. by exists a, ar, k. }
  assert (Hb : ∀ j q, is_block s' j q ↔ is_block s j q ∧ q ∉ blocks a i).
  { intros j q. assert (is_block s' j q ↔ is_block (mk_heap p s.(descs) (delete a s.(arenas))) j q) as -> by done.
    destruct (decide (q ∈ blocks a i)) as [Hq|Hq].
    - split; [|tauto]. intros (a' & ar' & k & [Hne E']%Hdel & Ed' & Hk & Eq). exfalso.
      destruct (is_block_arena _ _ Hinv i q (Hblk q Hq)) as (ar1 & E1 & _).
      destruct (is_block_arena _ _ Hinv j q) as (ar2 & E2 & _); [by exists a', ar', k|].
      apply elem_of_blocks in Hq as (k1 & Hk1 & Eq1).
      destruct (arena_range _ _ Hinv _ _ E) as (_ & Hm & _). destruct (arena_range _ _ Hinv _ _ E') as (_ & Hm' & _).
      destruct (block_at_ofs a i k1 Hi Hm Hk1) as (H1 & _).
      destruct (block_at_ofs a' j k (small_lt _ _ Hinv _ _ _ E' Ed') Hm' Hk) as (H2 & _). congruence.
    - rewrite drop_block; [tauto|]. intros i' Hi'. by assert (i' = i) as -> by congruence. }
  assert (Hf : ∀ j, free_of s' j = if decide (j = i) then filter (λ q, q ∉ blocks a i) (free_of s i) else free_of s j).
  { intros j. destruct (decide (j = i)) as [->|]; [apply free_of_set; simpl; eauto|unfold s'; by rewrite free_of_set_ne]. }
  assert (Hnl : ∀ q, q ∈ live → q ∉ blocks a i).
  { intros q Hq Hq'. apply (hi_part _ _ Hinv i q (Hblk q Hq')) in Hq. by apply Hq, Hall. }
  split.
  - done.
  - simpl. rewrite length_alter. apply (hi_cnt _ _ Hinv).
  - intros j d'. simpl. destruct (decide (i = j)) as [<-|].
    + rewrite list_lookup_alter_eq, Hd. intros [= <-]. by simpl.
    + rewrite list_lookup_alter_ne by done. apply (hi_desc _ _ Hinv).
  - intros a' ar'. apply drop_arenas.
  - intros a1 ar1 a2 ar2 [_ E1]%Hdel [_ E2]%Hdel. by apply (hi_sep _ _ Hinv _ _ _ _ E1 E2).
  - intros j. rewrite Hf. destruct (decide (j = i)); [|apply (hi_nodup _ _ Hinv)]. apply NoDup_filter, (hi_nodup _ _ Hinv).
  - intros j q. rewrite Hf, Hb. destruct (decide (j = i)) as [->|Hji].
    + intros [Hq Hq']%list_elem_of_filter. split; [by apply (hi_free _ _ Hinv)|done].
    + intros Hq%(hi_free _ _ Hinv). split; [done|]. intros Hq'. apply Hji. by apply (is_block_fun _ _ Hinv _ _ q); [|apply Hblk].
  - intros j q. rewrite Hf, Hb. intros [Hq Hq']. rewrite (hi_part _ _ Hinv j q Hq).
    destruct (decide (j = i)) as [->|]; [|done]. rewrite list_elem_of_filter. tauto.
  - intros q Hq. destruct (hi_live _ _ Hinv q Hq) as [[j Hj]|(a' & ar' & E' & Ed' & ->)].
    + left. exists j. apply Hb. split; [done|by apply Hnl].
    + right. exists a', ar'. split_and!; [|done..]. apply Hdel. split; [|done]. intros <-. congruence.
  - intros a' ar' [Hne E']%Hdel En'. by apply (hi_big _ _ Hinv _ _ E').
  - intros a' ar' j [Hne E']%Hdel Ej. rewrite (hi_free_cnt _ _ Hinv _ _ _ E' Ej), Hf.
    destruct (decide (j = i)) as [->|]; [|done]. rewrite list_filter_filter. f_equal. f_equal.
    apply filter_ext_in. intros q Hq. split; [|tauto]. intros Ha. split; [done|].
    intros (k & Hk & ->)%elem_of_blocks. destruct (arena_range _ _ Hinv _ _ E) as (_ & Hm & _).
    destruct (block_at_ofs a i k Hi Hm Hk) as (H1 & _). congruence.
Qed.
End drop.

(** ** free *)

(** the memory of a block in use can be written *)
Lemma live_writable s live q : heap_inv s live → q ∈ live → 0 < q ∧ writable s.(pal).(pmem) q (extent s q).
Proof.
  intros Hinv Hq. destruct (extent_in _ _ Hinv q Hq) as (ar & E & H1 & H2 & H3).
  destruct (hi_arena _ _ Hinv _ _ E) as (_ & [Hm Hlo Hhi] & _). destruct (arena_range _ _ Hinv _ _ E) as (H4 & _).
  split; [lia|]. intros x Hx. apply (awf_mem _ (hi_pal _ _ Hinv) false). simpl in *. lia.
Qed.

Lemma fill_spec s live q v n : heap_inv s live → q ∈ live → 0 ≤ n ≤ extent s q →
  let m := write s.(pal).(pmem) q (replicate (Z.to_nat n) (u8 v)) in
  let p := mk_pstate s.(pal).(kernel_pool) s.(pal).(user_pool) m in
  in_pal (in_mem (memset q v n)) s = Ok (q, mk_heap p s.(descs) s.(arenas)) ∧ palloc_wf p.
Proof.
  intros Hinv Hq Hn m p. destruct (live_writable _ _ _ Hinv Hq) as [Hq0 Hw]. split.
  - apply in_pal_eq, in_mem_eq. rewrite <- (Z2Nat.id n) at 1 by lia. apply memset_spec; [|done].
    intros x Hx. apply Hw. lia.
  - apply palloc_wf_mem; [apply (hi_pal _ _ Hinv)|]. intros x Hx. by apply write_is_Some.
Qed.

(** an arena with all its blocks on the free list *)
Lemma all_free s live a ar i : heap_inv s live → s.(arenas) !! a = Some ar → ar.(a_desc) = Some i →
  ar.(free_cnt) = bpa i → ∀ q, q ∈ blocks a i → q ∈ free_of s i.
Proof.
  intros Hinv E Ed Hc q Hq. rewrite (hi_free_cnt _ _ Hinv _ _ _ E Ed) in Hc.
  assert (Hp : filter (λ p, arena_of p = a) (free_of s i) ≡ₚ blocks a i).
  { apply submseteq_length_Permutation.
    - apply NoDup_submseteq; [apply NoDup_filter, (hi_nodup _ _ Hinv)|].
      intros x [Hx Hf]%list_elem_of_filter. apply (hi_free _ _ Hinv), (is_block_arena _ _ Hinv) in Hf as (_ & _ & _ & Hf).
      by rewrite Hx in Hf.
    - unfold blocks. rewrite length_fmap, length_seqZ. lia. }
  rewrite <- Hp in Hq. apply list_elem_of_filter in Hq. tauto.
Qed.

(** the whole arena [a] goes back to the page allocator *)
Definition drop_arena (i : nat) (a : Z) (n : Z) : HM unit :=
  remove_blocks i a 0 (Z.to_nat n);; in_pal (palloc_free_page a);; modify (del_arena a).

Lemma drop_arena_spec s live a ar i : heap_inv s live → s.(arenas) !! a = Some ar → ar.(a_desc) = Some i →
  ar.(free_cnt) = bpa i →
  ∃ s', drop_arena i a (bpa i) s = Ok (tt, s') ∧ heap_inv s' live ∧ keeps s s' live ∧
    s'.(arenas) = delete a s.(arenas).
Proof.
  intros Hinv E Ed Hc. pose proof (all_free _ _ _ _ _ Hinv E Ed Hc) as Hall.
  destruct (small_here _ _ Hinv _ _ _ E Ed) as (Hh & Ha & Hi). destruct (bs_bpa i Hi) as (_ & Hr & _).
  unfold drop_arena. erewrite bind_ok; [|apply (remove_blocks_spec a ar i Ha Ed Hi); [done|lia|lia|]].
  2: { intros j Hj. apply Hall, elem_of_blocks. exists j. split; [lia|done]. }
  rewrite Z2Nat.id by lia. fold (blocks a i).
  destruct (hi_arena _ _ Hinv _ _ E) as (_ & Hg & Hu & _). assert (Hnp : npages ar = 1) by (unfold npages; by rewrite Ed).
  rewrite Hnp in Hg, Hu.
  destruct (palloc_free_spec s.(pal) false a 1 (hi_pal _ _ Hinv) ltac:(lia) Hg Hu)
    as (p & Ep & Hwf & Hus & Hb & Hpp & _ & Hm). simpl in Hus, Hb, Hpp. rewrite <- Hnp in Hus.
  erewrite bind_ok; [|by apply in_pal_eq]. eexists. split; [done|].
  pose proof (drop_small_inv s live a ar p Hinv E Hwf Hus Hb Hpp i Ed Hall) as Hinv'.
  split_and!; [exact Hinv'| |done].
  assert (Hne : ∀ q, q ∈ live → arena_of q ≠ a).
  { intros q Hq He. destruct (hi_live _ _ Hinv q Hq) as [[j Hj]|(a' & ar' & E' & Ed' & ->)].
    - destruct (is_block_arena _ _ Hinv j q Hj) as (ar' & E' & Ed' & Hb').
      rewrite He in *. assert (j = i) as -> by congruence.
      apply (hi_part _ _ Hinv i q Hj) in Hq. by apply Hq, Hall.
    - rewrite (big_arena_of _ _ Hinv _ _ E') in He. congruence. }
  split.
  - intros q Hq. unfold extent. simpl. by rewrite lookup_delete_ne by (intros E'; by apply (Hne q)).
  - intros q x Hq Hx. simpl. rewrite Hm, lookup_write, length_replicate. rewrite decide_False; [done|].
    pose proof (other_arena _ _ Hinv q a ar x Hq E (Hne q Hq) Hx). rewrite Hnp in *. unfold PGSIZE in *. lia.
Qed.

Lemma no_idle_intro s : (∀ a ar i, s.(arenas) !! a = Some ar → ar.(a_desc) = Some i → ar.(free_cnt) < bpa i) → no_idle s.
Proof. intros H a0 a ar i _. apply H. Qed.

Lemma no_idle_elim s a ar i : no_idle s → s.(arenas) !! a = Some ar → ar.(a_desc) = Some i → ar.(free_cnt) < bpa i.
Proof. intros H. apply (H (a + 1)). lia. Qed.

(** a small block put back on its free list *)
Lemma put_back s live i q p (a := arena_of q) (s1 := moved s a i (q :: free_of s i) p) :
  heap_inv s live → q ∈ live → is_block s i q → palloc_wf p → p.(kernel_pool) = s.(pal).(kernel_pool) →
  heap_inv s1 (live ∖ {[q]}).
Proof.
  intros Hinv Hq Hb Hp Hk. destruct (is_block_arena _ _ Hinv i q Hb) as (ar & E & Ed & _). fold a in E.
  pose proof (proj1 (hi_part _ _ Hinv i q Hb) Hq) as Hnf.
  apply (heap_inv_move s live a ar i); try done.
  - constructor; [done|apply (hi_nodup _ _ Hinv)].
  - intros x [->|Hx]%elem_of_cons; [done|]. by apply (hi_free _ _ Hinv).
  - intros a' Ha'. rewrite filter_cons, decide_False by (fold a; done). done.
  - intros x Hx. rewrite elem_of_difference, elem_of_singleton, not_elem_of_cons, (hi_part _ _ Hinv i x Hx). tauto.
  - intros x Hx. rewrite elem_of_difference, elem_of_singleton. split; [tauto|]. intros; split; [done|]. by intros ->.
  - intros x [? _]%elem_of_difference. by left.
Qed.

Lemma free_block_spec s live i q : heap_inv s live → no_idle s → q ∈ live → is_block s i q →
  ∃ s', free_block i (arena_of q) q s = Ok (tt, s') ∧ heap_inv s' (live ∖ {[q]}) ∧ no_idle s' ∧
    keeps s s' (live ∖ {[q]}).
Proof.
  intros Hinv Hid Hq Hb. destruct (is_block_arena _ _ Hinv i q Hb) as (ar & E & Ed & _).
  destruct (small_here _ _ Hinv _ _ _ E Ed) as (_ & _ & Hi).
  destruct (desc_lookup _ _ Hinv i Hi) as (d & Hd & Hbs & Hbpa & Hfl). destruct (bs_bpa i Hi) as (Hbs' & Hr & _).
  assert (Hx : extent s q = bs i) by (unfold extent; by rewrite E, Ed).
  destruct (fill_spec s live q 0xcc (bs i) Hinv Hq ltac:(lia)) as [Ef Hwf]. cbv zeta in Ef, Hwf.
  set (p := mk_pstate _ _ _) in Ef, Hwf.
  unfold free_block. rewrite (bind_ok _ _ _ _ _ (get_desc_eq _ _ _ Hd)), Hbs, Hbpa, Hfl.
  rewrite (bind_ok _ _ _ _ _ Ef). erewrite bind_ok by done.
  erewrite bind_ok; [|by apply get_arena_eq]. cbv beta zeta.
  pose proof (hi_free_cnt _ _ Hinv _ _ _ E Ed) as Hcnt. pose proof (no_idle_elim _ _ _ _ Hid E Ed) as Hlt.
  assert (Hc : u32 (free_cnt ar + 1) = Z.of_nat (length (filter (λ p, arena_of p = arena_of q) (q :: free_of s i)))).
  { rewrite filter_cons, decide_True by done. simpl length. rewrite u32_small; lia. }
  assert (Hle : u32 (free_cnt ar + 1) ≤ bpa i) by (rewrite u32_small; lia).
  rewrite Ed, Hc. rewrite Hc in Hle. erewrite bind_ok by done.
  set (s1 := set_arena _ _ _). assert (Es1 : s1 = moved s (arena_of q) i (q :: free_of s i) p) by done.
  clearbody s1. subst s1. set (s1 := moved _ _ _ _ _).
  pose proof (put_back s live i q p Hinv Hq Hb Hwf eq_refl) as Hinv1. fold s1 in Hinv1.
  assert (K1 : keeps s s1 (live ∖ {[q]})).
  { split; [intros x _; unfold s1; by rewrite (extent_moved _ _ ar)|].
    intros y x [Hy Hne]%elem_of_difference Hxr. rewrite elem_of_singleton in Hne. simpl.
    rewrite lookup_write, length_replicate, decide_False; [done|].
    destruct (live_disjoint _ _ Hinv q y Hq Hy); [done|lia..]. }
  destruct (Z.leb_spec (bpa i) (Z.of_nat (length (filter (λ p, arena_of p = arena_of q) (q :: free_of s i))))) as [Hge|Hlt1].
  - rewrite assert_bind by (apply Z.eqb_eq; lia).
    destruct (drop_arena_spec s1 (live ∖ {[q]}) (arena_of q) _ i Hinv1 (lookup_insert_eq _ _ _) eq_refl)
      as (s' & E' & Hinv' & K' & Har); [simpl; lia|].
    exists s'. split_and!; [exact E'|done| |by apply (keeps_trans s s1)]. apply no_idle_intro. intros a' ar' j.
    rewrite Har. simpl. rewrite delete_insert_eq, lookup_delete_Some. intros [_ E1]. by apply (no_idle_elim s a').
  - exists s1. split_and!; [done..| |done]. apply no_idle_intro. intros a' ar' j E1 Ej. simpl in E1.
    destruct (decide (a' = arena_of q)) as [->|].
    + rewrite lookup_insert_eq in E1. injection E1 as <-. simpl in Ej |- *. injection Ej as <-. done.
    + rewrite lookup_insert_ne in E1 by done. by apply (no_idle_elim s a').
Qed.

Lemma free_spec s live q : heap_inv s live → no_idle s → q ∈ live →
  ∃ s', free q s = Ok (tt, s') ∧ heap_inv s' (live ∖ {[q]}) ∧ no_idle s' ∧ keeps s s' (live ∖ {[q]}).
Proof.
  intros Hinv Hid Hq. destruct (live_writable _ _ _ Hinv Hq) as [Hq0 _]. unfold free.
  destruct (Z.eqb_spec q 0); [lia|]. destruct (hi_live _ _ Hinv q Hq) as [[i Hi]|(a & ar & E & Ed & ->)].
  - destruct (is_block_arena _ _ Hinv i q Hi) as (ar & E & Ed & (k & Hk & Ek)%elem_of_blocks).
    destruct (small_here _ _ Hinv _ _ _ E Ed) as (Hh & Ha & Hi7).
    rewrite (bind_ok (block_to_arena q) _ s (arena_of q) s) by (rewrite Ek at 1; by apply (block_to_arena_eq _ ar i)).
    rewrite (bind_ok _ _ _ _ _ (get_arena_eq _ _ _ E)), Ed. by apply free_block_spec.
  - rewrite (bind_ok _ _ _ _ _ (block_to_arena_big _ _ Hinv _ _ E Ed)).
    rewrite (bind_ok _ _ _ _ _ (get_arena_eq _ _ _ E)), Ed.
    destruct (hi_arena _ _ Hinv _ _ E) as (Hn & Hg & Hu & _).
    assert (Hnp : npages ar = free_cnt ar) by (unfold npages; by rewrite Ed).
    destruct (palloc_free_spec s.(pal) false a (npages ar) (hi_pal _ _ Hinv) Hn Hg Hu)
      as (p & Ep & Hwf & Hus & Hb & Hpp & _ & Hm). rewrite Hnp in Ep.
    erewrite bind_ok; [|by apply in_pal_eq]. eexists. split; [done|].
    split_and!; [exact (drop_big_inv s live a ar p Hinv E Hwf Hus Hb Hpp Ed)| |].
    + apply no_idle_intro. intros a' ar' j E'. simpl in E'. apply lookup_delete_Some in E' as [_ E']. by apply (no_idle_elim s a').
    + assert (Hne : ∀ q, q ∈ live ∖ {[a + 12]} → arena_of q ≠ a).
      { intros q [Hq' Hqa]%elem_of_difference He. rewrite elem_of_singleton in Hqa.
        destruct (hi_live _ _ Hinv q Hq') as [[j Hj]|(a' & ar' & E' & Ed' & ->)].
        - destruct (is_block_arena _ _ Hinv j q Hj) as (ar' & E' & Ed' & _). rewrite He in E'. congruence.
        - rewrite (big_arena_of _ _ Hinv _ _ E') in He. congruence. }
      split.
      * intros q Hq'. unfold extent. simpl. by rewrite lookup_delete_ne by (intros E'; by apply (Hne q)).
      * intros q x Hq' Hx. simpl. rewrite Hm, lookup_write, length_replicate. rewrite decide_False; [done|].
        pose proof Hq' as [Hql _]%elem_of_difference.
        pose proof (other_arena _ _ Hinv q a ar x Hql E (Hne q Hq') Hx). unfold PGSIZE in *. lia.
Qed.

(** ** calloc and realloc *)

Lemma heap_inv_mem s live p : heap_inv s live → palloc_wf p → p.(kernel_pool) = s.(pal).(kernel_pool) →
  heap_inv (mk_heap p s.(descs) s.(arenas)) live.
Proof.
  intros Hinv Hp Hk. split; try apply Hinv; [done|].
  intros a ar E. destruct (hi_arena _ _ Hinv _ _ E) as (H1 & [H2 H3 H4] & H5 & H6). simpl in *. rewrite Hk.
  split_and!; [done|split; simpl; by rewrite ?Hk|done|done].
Qed.

Lemma extent_pal s p q : extent (mk_heap p s.(descs) s.(arenas)) q = extent s q.
Proof. done. Qed.

Lemma calloc_spec s live a b : heap_inv s live → no_idle s → 0 < a → 0 < b → a * b < 2 ^ 32 - 4107 →
  (∃ p s', calloc a b s = Ok (p, s') ∧ p ≠ 0 ∧ (p ∉ live) ∧ heap_inv s' ({[p]} ∪ live) ∧ no_idle s' ∧
     a * b ≤ extent s' p ∧ keeps s s' live ∧ ∀ x, p ≤ x < p + a * b → s'.(pal).(pmem) !! x = Some 0) ∨
  (calloc a b s = Ok (0, s) ∧ no_group s.(pal).(kernel_pool) (pages_needed (a * b))).
Proof.
  intros Hinv Hid Ha Hb Hab. assert (Hp : 0 < a * b) by (by apply Z.mul_pos_pos).
  assert (a * 1 ≤ a * b) by (apply Z.mul_le_mono_nonneg_l; lia). assert (1 * b ≤ a * b) by (apply Z.mul_le_mono_nonneg_r; lia).
  unfold calloc. rewrite (u32_small (a * b)) by lia.
  destruct (Z.ltb_spec (a * b) a); [lia|]. destruct (Z.ltb_spec (a * b) b); [lia|]. cbn [orb].
  destruct (malloc_spec s live (a * b) Hinv Hid ltac:(lia)) as [(p & s1 & E & N1 & N2 & N3 & N4 & N5 & N6 & _)|[E Hno]].
  - left. rewrite (bind_ok _ _ _ _ _ E). destruct (Z.eqb_spec p 0); [done|]. simpl negb. cbv iota.
    destruct (fill_spec s1 _ p 0 (a * b) N3 ltac:(set_solver) ltac:(lia)) as [Ef Hwf]. cbv zeta in Ef, Hwf.
    set (q := mk_pstate _ _ _) in Ef, Hwf.
    erewrite bind_ok; [|erewrite bind_ok; [done|exact Ef]].
    exists p, (mk_heap q s1.(descs) s1.(arenas)).
    assert (Hx : ∀ x, p ≤ x < p + a * b → q.(pmem) !! x = Some 0).
    { intros x Hx. simpl. rewrite lookup_write, length_replicate, decide_True by lia. apply lookup_replicate. split; [done|lia]. }
    split_and!; [done..|by apply heap_inv_mem|exact N4|exact N5| |exact Hx].
    apply (keeps_trans s s1); [done|]. split; [done|]. intros y x Hy Hxy. simpl.
    rewrite lookup_write, length_replicate, decide_False; [done|].
    assert (y ≠ p) by congruence. destruct (live_disjoint _ _ N3 p y ltac:(set_solver) ltac:(set_solver)); [done|lia..].
  - right. rewrite (bind_ok _ _ _ _ _ E). done.
Qed.

Lemma size_of_block_spec s live q : heap_inv s live → q ∈ live → size_of_block q s = Ok (extent s q, s).
Proof.
  intros Hinv Hq. unfold size_of_block, extent. destruct (hi_live _ _ Hinv q Hq) as [[i Hi]|(a & ar & E & Ed & ->)].
  - destruct (is_block_arena _ _ Hinv i q Hi) as (ar & E & Ed & (k & Hk & Ek)%elem_of_blocks).
    destruct (small_here _ _ Hinv _ _ _ E Ed) as (Hh & Ha & Hi7). destruct (desc_lookup _ _ Hinv i Hi7) as (d & Hd & Hbs & _).
    rewrite (bind_ok (block_to_arena q) _ s (arena_of q) s) by (rewrite Ek at 1; by apply (block_to_arena_eq _ ar i)).
    rewrite (bind_ok _ _ _ _ _ (get_arena_eq _ _ _ E)), E, Ed.
    rewrite (bind_ok _ _ _ _ _ (get_desc_eq _ _ _ Hd)), Hbs. done.
  - rewrite (bind_ok _ _ _ _ _ (block_to_arena_big _ _ Hinv _ _ E Ed)), (big_arena_of _ _ Hinv _ _ E).
    rewrite (bind_ok _ _ _ _ _ (get_arena_eq _ _ _ E)), E, Ed, pg_ofs_eq.
    destruct (arena_range _ _ Hinv _ _ E) as (Ha & Hm & Hr & Hnp). unfold npages, PGSIZE in *. rewrite Ed in *.
    pose proof (Z.div_mod a 4096 ltac:(lia)).
    replace ((a + 12) mod 4096) with 12.
    2: { replace (a + 12) with (12 + a / 4096 * 4096) by lia. by rewrite Z.mod_add. }
    rewrite (u32_small (4096 * _)) by lia. by rewrite u32_small by lia.
Qed.

(** memory holds bytes *)
Definition byte_mem (m : mem) : Prop := ∀ x v, m !! x = Some v → 0 ≤ v < 256.

(** the first [n] bytes of a block in use, copied to another *)
Lemma copy_spec s live p q n : heap_inv s live → byte_mem s.(pal).(pmem) → p ∈ live → q ∈ live → p ≠ q →
  0 ≤ n ≤ extent s p → n ≤ extent s q →
  ∃ s', in_pal (in_mem (memcpy q p n)) s = Ok (q, s') ∧ heap_inv s' live ∧ s'.(arenas) = s.(arenas) ∧
    (∀ y, extent s' y = extent s y) ∧
    (∀ k, 0 ≤ k < n → s'.(pal).(pmem) !! (q + k) = s.(pal).(pmem) !! (p + k)) ∧
    ∀ x, ¬ (q ≤ x < q + n) → s'.(pal).(pmem) !! x = s.(pal).(pmem) !! x.
Proof.
  intros Hinv Hby Hp Hq Hne Hn Hnq. destruct (live_writable _ _ _ Hinv Hp) as [Hp0 Hwp].
  destruct (live_writable _ _ _ Hinv Hq) as [Hq0 Hwq].
  set (m := s.(pal).(pmem)) in *. set (l := (λ k, default 0 (m !! (p + k))) <$> seqZ 0 n).
  assert (Hlen : Z.of_nat (length l) = n) by (unfold l; rewrite length_fmap, length_seqZ; lia).
  assert (Hl : ∀ k, (k < length l)%nat → l !! k = m !! (p + Z.of_nat k)).
  { intros k Hk. unfold l. rewrite list_lookup_fmap, (lookup_seqZ_lt 0 n), Z.add_0_l by lia.
    destruct (Hwp (p + Z.of_nat k) ltac:(lia)) as [v Hv]. simpl. by rewrite Hv. }
  assert (E : memcpy q p n m = Ok (q, write m q l)).
  { rewrite <- Hlen at 1. apply memcpy_spec; [|intros x Hx; apply Hwq; lia|lia|lia|].
    - apply bytes_lookup. intros i v Hi. rewrite Hl in Hi by (by eapply lookup_lt_Some). split; [done|by eapply Hby].
    - rewrite Hlen. destruct (live_disjoint _ _ Hinv p q Hp Hq Hne); lia. }
  eexists. split; [apply in_pal_eq, in_mem_eq; exact E|]. split_and!.
  - apply heap_inv_mem; [done| |done]. apply palloc_wf_mem; [apply (hi_pal _ _ Hinv)|].
    intros x Hx. by apply write_is_Some.
  - done.
  - done.
  - intros k Hk. simpl. rewrite lookup_write, decide_True by lia.
    replace (q + k - q) with k by lia. rewrite Hl by lia. by rewrite Z2Nat.id by lia.
  - intros x Hx. simpl. by rewrite lookup_write, decide_False by lia.
Qed.

Lemma realloc_spec s live p n : heap_inv s live → no_idle s → byte_mem s.(pal).(pmem) → p ∈ live →
  0 < n < 2 ^ 32 - 4107 →
  (∃ q s', realloc p n s = Ok (q, s') ∧ q ≠ 0 ∧ (q ∉ live) ∧ heap_inv s' ({[q]} ∪ live ∖ {[p]}) ∧ no_idle s' ∧
     n ≤ extent s' q ∧ keeps s s' (live ∖ {[p]}) ∧
     ∀ k, 0 ≤ k < n → k < extent s p → s'.(pal).(pmem) !! (q + k) = s.(pal).(pmem) !! (p + k)) ∨
  (realloc p n s = Ok (0, s) ∧ no_group s.(pal).(kernel_pool) (pages_needed n)).
Proof.
  intros Hinv Hid Hby Hp Hn. unfold realloc. destruct (Z.eqb_spec n 0); [lia|].
  destruct (live_writable _ _ _ Hinv Hp) as [Hp0 _].
  destruct (malloc_spec s live n Hinv Hid Hn) as [(q & s1 & E & N1 & N2 & N3 & N4 & N5 & N6 & Hm)|[E Hno]].
  2: { right. rewrite (bind_ok _ _ _ _ _ E), andb_false_r. by split. }
  left. rewrite (bind_ok _ _ _ _ _ E). destruct (Z.eqb_spec p 0); [lia|]. destruct (Z.eqb_spec q 0); [done|]. cbn [negb andb].
  cbv iota. assert (Hpq : p ≠ q) by congruence. set (live1 := {[q]} ∪ live) in *.
  assert (Hp1 : p ∈ live1) by set_solver. assert (Hq1 : q ∈ live1) by set_solver.
  destruct (extent_in _ _ N3 p Hp1) as (_ & _ & He & _). pose proof (keeps_extent _ _ _ N6 p Hp) as Hep.
  set (k0 := if n <? extent s1 p then n else extent s1 p).
  assert (Hk0 : 0 ≤ k0 ≤ extent s1 p ∧ k0 ≤ n ∧ ∀ k, k < n → k < extent s1 p → k < k0)
    by (unfold k0; destruct (Z.ltb_spec n (extent s1 p)); split_and!; intros; lia).
  destruct (copy_spec s1 live1 p q k0 N3 ltac:(by rewrite Hm) Hp1 Hq1 Hpq) as (s2 & E2 & I2 & A2 & X2 & C2 & U2); [lia..|].
  assert (Nid2 : no_idle s2) by (intros a0 a ar i Ha Ea; rewrite A2 in Ea; by apply (N4 a0 a)).
  destruct (free_spec s2 live1 p I2 Nid2 Hp1) as (s3 & E3 & I3 & Nid3 & K3).
  replace (live1 ∖ {[p]}) with ({[q]} ∪ live ∖ {[p]}) in * by (unfold live1; set_solver).
  assert (Hq3 : q ∈ {[q]} ∪ live ∖ {[p]}) by set_solver.
  exists q, s3. split.
  { erewrite bind_ok; [done|]. erewrite bind_ok by (by apply (size_of_block_spec s1 live1)). cbv zeta. fold k0.
    by rewrite (bind_ok _ _ _ _ _ E2). }
  split_and!; [done..| | |].
  - rewrite (keeps_extent _ _ _ K3 q Hq3), X2. done.
  - split.
    + intros y Hy. rewrite (keeps_extent _ _ _ K3 y) by set_solver. rewrite X2. apply (keeps_extent _ _ _ N6). set_solver.
    + intros y x Hy Hx. pose proof (keeps_extent _ _ _ N6 y ltac:(set_solver)) as Hey.
      rewrite (keeps_bytes _ _ _ K3 y x); [|set_solver|rewrite X2; lia]. rewrite U2, Hm; [done|].
      destruct (live_disjoint _ _ N3 q y Hq1 ltac:(set_solver) ltac:(set_solver)); lia.
  - intros k Hk Hk'. rewrite (keeps_bytes _ _ _ K3 q); [|done|rewrite X2; lia]. rewrite C2, Hm; [done|].
    split; [lia|]. apply Hk0; lia.
Qed.

(** ** The empty heap *)

Lemma empty_heap_inv p ds : palloc_wf p → length ds = 7%nat →
  (∀ i d, ds !! i = Some d → d = mk_desc (bs i) (bpa i) []) → heap_inv (mk_heap p ds ∅) ∅.
Proof.
  intros Hp Hlen Hds.
  assert (Hf : ∀ i, free_of (mk_heap p ds ∅) i = []).
  { intros i. unfold free_of. cbn [descs]. destruct (ds !! i) as [d|] eqn:Ed; [|done]. by rewrite (Hds i d Ed). }
  split; try done.
  - intros i d Ed. by rewrite (Hds i d Ed).
  - intros i. rewrite Hf. constructor.
  - intros i q. rewrite Hf. by intros ?%elem_of_nil.
  - by intros i q (a & ar & k & Ea & _).
Qed.

Lemma malloc_init_spec p : palloc_wf p → ∃ s, malloc_init p = Ok s ∧ heap_inv s ∅ ∧ no_idle s ∧ s.(pal) = p.
Proof.
  intros Hp. unfold malloc_init.
  assert (E : init_descs 12 16 [] = Ok ((λ i, mk_desc (bs i) (bpa i) []) <$> seq 0 7)) by (vm_compute; reflexivity).
  rewrite (obind_ok _ _ _ E). eexists. split; [done|]. split_and!; [|by intros ???|done].
  apply empty_heap_inv; [done|done|]. intros i d. rewrite list_lookup_fmap.
  destruct (seq 0 7 !! i) as [j|] eqn:Ej; [|done]. apply lookup_seq in Ej as [-> _]. by intros [= <-].
Qed.

(** a machine with 144 pages above the first megabyte *)
Definition ex_heap_mem : mem := write ∅ (PHYS_BASE + 2 ^ 20) (replicate (Z.to_nat (PGSIZE * 144)) 0xaa).

Lemma ex_heap_bytes : byte_mem ex_heap_mem.
Proof.
  intros x v. unfold ex_heap_mem. rewrite lookup_write. destruct (decide _); [|done].
  intros [-> _]%lookup_replicate. lia.
Qed.

Lemma ex_heap_exists : ∃ s, heap_inv s ∅ ∧ no_idle s ∧ byte_mem s.(pal).(pmem) ∧
  base s.(pal).(kernel_pool) + PGSIZE * 40 ≤ pool_end s.(pal).(kernel_pool) ∧
  ∀ x, ¬ used s.(pal).(kernel_pool) x.
Proof.
  destruct (palloc_init_spec 400 (2 ^ 32 - 1) (λ _, 0) (λ _, 7) ex_heap_mem) as (p & E & Hwf & Hu & Hb & He & _ & Hm); [lia..| |].
  { intros a Ha. unfold ex_heap_mem. rewrite lookup_write, length_replicate, Z2Nat.id by (unfold PGSIZE; lia).
    rewrite decide_True by (unfold PGSIZE in *; lia). apply lookup_lt_is_Some. rewrite length_replicate.
    unfold PGSIZE in *; lia. }
  destruct (malloc_init_spec p Hwf) as (s & E' & Hinv & Hid & <-). exists s.
  refine (conj Hinv (conj Hid (conj _ (conj _ (Hu false))))).
  { rewrite Hm. exact ex_heap_bytes. }
  clear Hm E' Hinv Hid Hu Hb He Hwf. revert E. generalize ex_heap_mem. intros m. rewrite palloc_init_eq by lia. change (user_share 400 (2 ^ 32 - 1)) with 72.
  change (400 - 256 - 72) with 72.
  destruct (init_pool_spec (PHYS_BASE + 2 ^ 20) 72 (λ _, 0) ltac:(done)) as (k & -> & _ & Hkb & Hke & _);
    [done|done|lia|by vm_compute|]. cbn [mbind outcome_bind].
  destruct (init_pool _ 72 (λ _, 7)) as [u|]; [|done]. cbn [mbind outcome_bind]. intros [= <-]. simpl.
  rewrite Hkb, Hke. change (map_pages 72) with 1. unfold PGSIZE, PHYS_BASE. lia.
Qed.

Lemma ex_group s n : (∀ x, ¬ used s.(pal).(kernel_pool) x) → heap_inv s ∅ → 0 < n ≤ 40 →
  base s.(pal).(kernel_pool) + PGSIZE * 40 ≤ pool_end s.(pal).(kernel_pool) → ¬ no_group s.(pal).(kernel_pool) n.
Proof.
  intros Hu Hinv Hn He Hng. destruct (pwf_base _ (awf_kernel _ (hi_pal _ _ Hinv))) as [_ Hm].
  destruct (Hng (base (kernel_pool (pal s))) Hm) as (x & _ & Hx); [lia|unfold PGSIZE in *; lia|]. by apply (Hu x).
Qed.

(** * Statements *)



(** C12. [free] of a block in use succeeds and leaves exactly the other blocks in use,
    their bytes and sizes unchanged; an arena none of whose blocks is in use any more
    has been given back to the page allocator ([no_idle]). *)
Theorem free_safe s live q : heap_inv s live → no_idle s → q ∈ live →
  ∃ s', free q s = Ok (tt, s') ∧ heap_inv s' (live ∖ {[q]}) ∧ no_idle s' ∧ keeps s s' (live ∖ {[q]}).
Proof. apply free_spec. Qed.

Lemma free_safe_witness : ∃ s p s1 s2, malloc 5000 s = Ok (p, s1) ∧ free p s1 = Ok (tt, s2) ∧ heap_inv s2 ∅.
Proof.
  destruct ex_heap_exists as (s & Hinv & Hid & _ & He & Hu).
  destruct (malloc_spec s ∅ 5000 Hinv Hid) as [(p & s1 & E & _ & _ & I & N & _)|[_ Hng]]; [lia| |].
  - destruct (free_safe s1 ({[p]} ∪ ∅) p I N) as (s2 & E2 & I2 & _); [set_solver|].
    exists s, p, s1, s2. replace (({[p]} ∪ ∅) ∖ {[p]}) with (∅ : gset Z) in I2 by set_solver. exact (conj E (conj E2 I2)).
  - exfalso. revert Hng. apply (ex_group s _ Hu Hinv); [split; vm_compute; congruence|exact He].
Defined.

(** [realloc] of a block in use to a nonzero size moves it to a new block that
    holds the old bytes, as many as both sizes have, and releases the old one; the
    other blocks keep their bytes.  If there is no memory it returns a null pointer
    and the old block stays as it was. *)
Theorem realloc_copies s live p n : heap_inv s live → no_idle s → byte_mem s.(pal).(pmem) → p ∈ live →
  0 < n < 2 ^ 32 - 4107 →
  (∃ q s', realloc p n s = Ok (q, s') ∧ q ≠ 0 ∧ (q ∉ live) ∧ heap_inv s' ({[q]} ∪ live ∖ {[p]}) ∧ no_idle s' ∧
     n ≤ extent s' q ∧ keeps s s' (live ∖ {[p]}) ∧
     ∀ k, 0 ≤ k < n → k < extent s p → s'.(pal).(pmem) !! (q + k) = s.(pal).(pmem) !! (p + k)) ∨
  (realloc p n s = Ok (0, s) ∧ no_group s.(pal).(kernel_pool) (pages_needed n)).
Proof. apply realloc_spec. Qed.

Lemma realloc_copies_witness : ∃ s p s1 q s2, malloc 100 s = Ok (p, s1) ∧ realloc p 200 s1 = Ok (q, s2).
Proof.
  destruct ex_heap_exists as (s & Hinv & Hid & Hm & He & Hu).
  destruct (malloc_spec s ∅ 100 Hinv Hid) as [(p & s1 & E & _ & _ & I & N & _ & _ & Hm1)|[_ Hng]]; [lia| |].
  - destruct (realloc_copies s1 ({[p]} ∪ ∅) p 200 I N) as [(q & s2 & E2 & _)|[E2 _]]; [|set_solver|lia|..].
    + rewrite Hm1. exact Hm.
    + exists s, p, s1, q, s2. exact (conj E E2).
    + exists s, p, s1, 0, s1. exact (conj E E2).
  - exfalso. revert Hng. apply (ex_group s _ Hu Hinv); [split; vm_compute; congruence|exact He].
Defined.

(** the size of a request wraps around: for the largest eleven sizes, the sum of
    the size and the header overflows, and if the kernel pool has a free page
    [malloc] succeeds, with a block of 4084 bytes. *)
Theorem malloc_wraps s live size : heap_inv s live → no_idle s → 2 ^ 32 - 12 < size < 2 ^ 32 →
  ¬ no_group s.(pal).(kernel_pool) 1 →
  ∃ p s', malloc size s = Ok (p, s') ∧ p ≠ 0 ∧ extent s' p = 4084.
Proof.
  intros Hinv Hid Hs Hng. unfold malloc. destruct (Z.eqb_spec size 0); [lia|]. erewrite bind_ok by done.
  destruct (find_desc_spec size s.(descs) 0) as (i & -> & Hi & Hle & Hlt). rewrite Nat.add_0_l.
  rewrite (hi_cnt _ _ Hinv) in Hi |- *. destruct (Nat.eqb_spec i 7) as [->|Hne].
  - destruct (malloc_big_gen s live size 1 Hinv Hid) as [(p & s' & E & Hp & _ & _ & _ & Hx & _)|[_ ?]]; [|lia| |done].
    + unfold DIV_ROUND_UP, u32, PGSIZE. rewrite <- (Z.mod_add (size + 12) (-1)) by lia.
      rewrite (Z.mod_small (size + 12 + -1 * 2 ^ 32)) by lia. rewrite Z.mod_small by lia.
      apply (Z.div_unique_pos _ _ 1 (size + 12 + -1 * 2 ^ 32 - 1)); lia.
    + by exists p, s'.
  - destruct (desc_lookup _ _ Hinv i ltac:(lia)) as (d & Hd & Hbs & _). specialize (Hle d Hd). rewrite Hbs in Hle.
    destruct (bs_bpa i ltac:(lia)). lia.
Qed.

Lemma malloc_wraps_witness : ∃ s p s', malloc (2 ^ 32 - 1) s = Ok (p, s') ∧ p ≠ 0 ∧ extent s' p = 4084.
Proof.
  destruct ex_heap_exists as (s & Hinv & Hid & _ & He & Hu). exists s.
  apply (malloc_wraps s ∅ (2 ^ 32 - 1) Hinv Hid); [lia|]. apply (ex_group s 1 Hu Hinv); [lia|exact He].
Defined.

(** the overflow check of [calloc] misses products: 65537 elements of 65537 bytes
    pass it, and the block it returns is smaller than they are. *)
Theorem calloc_overflow s live : heap_inv s live → no_idle s → ¬ no_group s.(pal).(kernel_pool) 33 →
  ∃ p s', calloc 65537 65537 s = Ok (p, s') ∧ p ≠ 0 ∧ extent s' p < 65537 * 65537.
Proof.
  intros Hinv Hid Hng. unfold calloc. change (u32 (65537 * 65537)) with 131073. cbn [Z.ltb Z.compare Pos.compare Pos.compare_cont orb].
  destruct (malloc_spec s live 131073 Hinv Hid ltac:(lia)) as [(p & s1 & E & N1 & N2 & N3 & N4 & N5 & N6 & _)|[_ ?]]; [|done].
  rewrite (bind_ok _ _ _ _ _ E). destruct (Z.eqb_spec p 0); [done|]. simpl negb. cbv iota.
  assert (Hp : p ∈ {[p]} ∪ live) by set_solver.
  destruct (fill_spec s1 _ p 0 131073 N3 Hp ltac:(lia)) as [Ef _].
  erewrite bind_ok; [|erewrite bind_ok; [done|exact Ef]]. eexists p, _. split_and!; [done..|].
  rewrite extent_pal. destruct (extent_in _ _ N3 p Hp) as (ar & E1 & H1 & H2 & H3).
  destruct (arena_range _ _ N3 _ _ E1) as (H4 & _ & H5 & _). unfold PGSIZE in *. lia.
Qed.

Lemma calloc_overflow_witness : ∃ s p s', calloc 65537 65537 s = Ok (p, s') ∧ p ≠ 0 ∧ extent s' p < 65537 * 65537.
Proof.
  destruct ex_heap_exists as (s & Hinv & Hid & _ & He & Hu). exists s.
  apply (calloc_overflow s ∅ Hinv Hid). apply (ex_group s 33 Hu Hinv); [lia|exact He].
Defined.
