(* ===== verification/Stdio.v ===== *)
(** lib/stdio.c: formatted output.

    A format is the list of its characters, the terminating null included; the
    arguments of a call are a list of values, and taking one of another size than the
    conversion asks for is a [Fault], as is reading the format past its end.  The
    routines run with the state of their [output] function. *)

From Stdlib Require Import Ascii String.
From S2P Require Import Prelude Vaddr CString CStdlib.

(** the characters of a literal *)
Definition chars (s : string) : list Z := (λ c, Z.of_N (N_of_ascii c)) <$> list_ascii_of_string s.

(** a literal as it lies in memory *)
Definition lit (s : string) : list Z := chars s ++ [0].

Definition chr (c : ascii) : Z := Z.of_N (N_of_ascii c).

(** a 32-bit argument, a 64-bit one, a string (or a null pointer) *)
Inductive arg := A32 (z : Z) | A64 (z : Z) | AStr (s : option (list Z)).

Definition va_32 (args : list arg) : outcome (Z * list arg) :=
  match args with A32 z :: r => Ok (z, r) | _ => Err Fault end.
Definition va_64 (args : list arg) : outcome (Z * list arg) :=
  match args with A64 z :: r => Ok (z, r) | _ => Err Fault end.
Definition va_str (args : list arg) : outcome (option (list Z) * list arg) :=
  match args with AStr s :: r => Ok (s, r) | _ => Err Fault end.

(** [*format] *)
Definition peek (format : list Z) : outcome Z := ofault (head format).

(** * Conversions *)

Definition MINUS : Z := 1.
Definition PLUS : Z := 2.
Definition SPACE : Z := 4.
Definition POUND : Z := 8.
Definition ZERO : Z := 16.
Definition GROUP : Z := 32.

Inductive arg_type := CHAR | SHORT | INT | INTMAX | LONG | LONGLONG | PTRDIFFT | SIZET.

Record printf_conversion := mk_conv { flags : Z; width : Z; precision : Z; ctype : arg_type }.

Record integer_base := mk_base { ibase : Z; digits : list Z; xchar : Z; group : Z }.

Definition base_d : integer_base := mk_base 10 (chars "0123456789") 0 3.
Definition base_o : integer_base := mk_base 8 (chars "01234567") 0 3.
Definition base_x : integer_base := mk_base 16 (chars "0123456789abcdef") (chr "x") 4.
Definition base_X : integer_base := mk_base 16 (chars "0123456789ABCDEF") (chr "X") 4.

(** the flag a character stands for *)
Definition flag_of (c : Z) : option Z :=
  if c =? chr "-" then Some MINUS else if c =? chr "+" then Some PLUS else if c =? chr " " then Some SPACE
  else if c =? chr "#" then Some POUND else if c =? chr "0" then Some ZERO else if c =? chr "'" then Some GROUP
  else None.

(** the loop over the flags, and what follows it *)
Fixpoint parse_flags (format : list Z) (flags : Z) : outcome (Z * list Z) :=
  match format with
  | [] => Err Fault
  | c :: r =>
      match flag_of c with
      | Some f => parse_flags r (Z.lor flags f)
      | None =>
          let flags := if has flags MINUS then Z.ldiff flags ZERO else flags in
          let flags := if has flags PLUS then Z.ldiff flags SPACE else flags in
          Ok (flags, format)
      end
  end.

(** [for (; isdigit ( *format); format++) n = n * 10 + *format - '0';] *)
Fixpoint parse_num (format : list Z) (n : Z) : outcome (Z * list Z) :=
  match format with
  | [] => Err Fault
  | c :: r => if isdigit c then parse_num r (s32 (n * 10 + c - 48)) else Ok (n, format)
  end.

Definition parse_width (format : list Z) (flags : Z) (args : list arg) :
    outcome (Z * Z * list Z * list arg) :=
  c ← peek format;
  '(w, format, args) ← (if c =? chr "*" then '(w, args) ← va_32 args; Ok (s32 w, tail format, args)
                        else '(w, format) ← parse_num format 0; Ok (w, format, args));
  if w <? 0 then Ok (s32 (- w), Z.lor flags MINUS, format, args) else Ok (w, flags, format, args).

Definition parse_precision (format : list Z) (args : list arg) : outcome (Z * list Z * list arg) :=
  c ← peek format;
  if negb (c =? chr ".") then Ok (-1, format, args) else
  let format := tail format in
  c ← peek format;
  '(p, format, args) ← (if c =? chr "*" then '(p, args) ← va_32 args; Ok (s32 p, tail format, args)
                        else '(p, format) ← parse_num format 0; Ok (p, format, args));
  Ok (if p <? 0 then -1 else p, format, args).

Definition parse_type (format : list Z) : outcome (arg_type * list Z) :=
  c ← peek format;
  let r := tail format in
  if c =? chr "h" then d ← peek r; if d =? chr "h" then Ok (CHAR, tail r) else Ok (SHORT, r)
  else if c =? chr "j" then Ok (INTMAX, r)
  else if c =? chr "l" then d ← peek r; if d =? chr "l" then Ok (LONGLONG, tail r) else Ok (LONG, r)
  else if c =? chr "t" then Ok (PTRDIFFT, r)
  else if c =? chr "z" then Ok (SIZET, r)
  else Ok (INT, format).

Definition parse_conversion (format : list Z) (args : list arg) :
    outcome (printf_conversion * list Z * list arg) :=
  '(flags, format) ← parse_flags format 0;
  '(width, flags, format, args) ← parse_width format flags args;
  '(precision, format, args) ← parse_precision format args;
  let flags := if 0 <=? precision then Z.ldiff flags ZERO else flags in
  '(ty, format) ← parse_type format;
  Ok (mk_conv flags width precision ty, format, args).

(** the argument of a signed conversion *)
Definition va_signed (ty : arg_type) (args : list arg) : outcome (Z * list arg) :=
  match ty with
  | CHAR => '(v, args) ← va_32 args; Ok ((v + 128) mod 256 - 128, args)
  | SHORT => '(v, args) ← va_32 args; Ok ((v + 32768) mod 65536 - 32768, args)
  | INT | LONG | PTRDIFFT => '(v, args) ← va_32 args; Ok (s32 v, args)
  | INTMAX | LONGLONG => '(v, args) ← va_64 args; Ok (s64 v, args)
  | SIZET => '(v, args) ← va_32 args;
      let v := u32 v in Ok (if v >? (2 ^ 32 - 1) / 2 then v - (2 ^ 32 - 1) - 1 else v, args)
  end.

(** the argument of an unsigned conversion *)
Definition va_unsigned (ty : arg_type) (args : list arg) : outcome (Z * list arg) :=
  match ty with
  | CHAR => '(v, args) ← va_32 args; Ok (u8 v, args)
  | SHORT => '(v, args) ← va_32 args; Ok (v mod 65536, args)
  | INT | LONG | SIZET => '(v, args) ← va_32 args; Ok (u32 v, args)
  | INTMAX | LONGLONG => '(v, args) ← va_64 args; Ok (u64 v, args)
  | PTRDIFFT => '(v, args) ← va_32 args;
      Ok (Z.land (u64 (s32 v)) (Z.lor (Z.shiftl (2 ^ 31 - 1) 1) 1), args)
  end.

(** * Output *)

Section output.
Context {S : Type}.
Variable output : Z → M S unit.

Fixpoint output_dup (ch : Z) (cnt : nat) : M S unit :=
  match cnt with O => mret tt | Datatypes.S n => output ch;; output_dup ch n end.

(** the characters of a list, in order *)
Fixpoint output_all (l : list Z) : M S unit :=
  match l with [] => mret tt | c :: r => output c;; output_all r end.

(** [buf[64]] as far as it is filled, the last character first; [*cp++ = c] *)
Definition push (c : Z) (buf : list Z) : outcome (list Z) :=
  if Z.of_nat (length buf) <? 64 then Ok (c :: buf) else Err Fault.

(** the digits of [value], as the loop leaves them in the buffer *)
Fixpoint digit_loop (n : nat) (b : integer_base) (grouped : bool) (value digit_cnt : Z) (buf : list Z) : outcome (list Z) :=
  if value >? 0 then
    match n with
    | O => Err NoFuel
    | Datatypes.S n' =>
        buf ← (if grouped && (digit_cnt >? 0) && (digit_cnt mod b.(group) =? 0) then push (chr ",") buf else Ok buf);
        d ← ofault (b.(digits) !! Z.to_nat (value mod b.(ibase)));
        buf ← push d buf;
        digit_loop n' b grouped (value / b.(ibase)) (digit_cnt + 1) buf
    end
  else Ok buf.

(** [while (cp - buf < precision && cp < buf + sizeof buf - 1) *cp++ = '0';] *)
Fixpoint zero_loop (n : nat) (precision : Z) (buf : list Z) : outcome (list Z) :=
  if (Z.of_nat (length buf) <? precision) && (Z.of_nat (length buf) <? 63) then
    match n with
    | O => Err NoFuel
    | Datatypes.S n' => buf ← push (chr "0") buf; zero_loop n' precision buf
    end
  else Ok buf.

(** the digits, in the buffer: the last one first *)
Definition integer_digits (value : Z) (b : integer_base) (c : printf_conversion) : outcome (list Z) :=
  buf ← digit_loop 64 b (has c.(flags) GROUP) value 0 [];
  let precision := if c.(precision) <? 0 then 1 else c.(precision) in
  buf ← zero_loop 64 precision buf;
  if has c.(flags) POUND && (b.(ibase) =? 8) &&
     match buf with [] => true | d :: _ => negb (d =? chr "0") end
  then push (chr "0") buf else Ok buf.

(** 0 if the conversion has no sign *)
Definition sign_of (is_signed negative : bool) (c : printf_conversion) : Z :=
  if is_signed then
    if has c.(flags) PLUS then if negative then chr "-" else chr "+"
    else if has c.(flags) SPACE then if negative then chr "-" else chr " "
    else if negative then chr "-" else 0
  else 0.

Definition format_integer (value : Z) (is_signed negative : bool) (b : integer_base) (c : printf_conversion) : M S unit :=
  let sign := sign_of is_signed negative c in
  let x := if has c.(flags) POUND && negb (value =? 0) then b.(xchar) else 0 in
  buf ← lift_out (integer_digits value b c);
  let pad_cnt := c.(width) - Z.of_nat (length buf) - (if x =? 0 then 0 else 2) - (if sign =? 0 then 0 else 1) in
  let pad := Z.to_nat (if pad_cnt <? 0 then 0 else pad_cnt) in
  (if negb (has c.(flags) (Z.lor MINUS ZERO)) then output_dup (chr " ") pad else mret tt);;
  (if negb (sign =? 0) then output sign else mret tt);;
  (if negb (x =? 0) then output (chr "0");; output x else mret tt);;
  (if has c.(flags) ZERO then output_dup (chr "0") pad else mret tt);;
  output_all buf;;
  (if has c.(flags) MINUS then output_dup (chr " ") pad else mret tt).

Definition format_string (string : list Z) (c : printf_conversion) : M S unit :=
  let length := Z.of_nat (length string) in
  (if (length <? c.(width)) && negb (has c.(flags) MINUS)
   then output_dup (chr " ") (Z.to_nat (c.(width) - length)) else mret tt);;
  output_all string;;
  (if (length <? c.(width)) && has c.(flags) MINUS
   then output_dup (chr " ") (Z.to_nat (c.(width) - length)) else mret tt).

(** the characters of [s] that [strnlen (s, precision)] counts *)
Definition limit (precision : Z) (s : list Z) : list Z := take (Z.to_nat (Z.min (u32 precision) (Z.of_nat (length s)))) s.

(** the conversion of one argument; [other]: the conversions of the last two cases *)
Definition convert (other : string → M S unit) (spec : Z) (c : printf_conversion) (args : list arg) : M S (list arg) :=
  if (spec =? chr "d") || (spec =? chr "i") then
    '(value, args) ← lift_out (va_signed c.(ctype) args);
    format_integer (u64 (if value <? 0 then - value else value)) true (value <? 0) base_d c;; mret args
  else if (spec =? chr "o") || (spec =? chr "u") || (spec =? chr "x") || (spec =? chr "X") then
    '(value, args) ← lift_out (va_unsigned c.(ctype) args);
    let b := if spec =? chr "o" then base_o else if spec =? chr "u" then base_d
             else if spec =? chr "x" then base_x else base_X in
    format_integer value false false b c;; mret args
  else if spec =? chr "c" then
    '(ch, args) ← lift_out (va_32 args); format_string [u8 ch] c;; mret args
  else if spec =? chr "s" then
    '(s, args) ← lift_out (va_str args);
    format_string (limit c.(precision) (default (chars "(null)") s)) c;; mret args
  else if spec =? chr "p" then
    '(p, args) ← lift_out (va_32 args);
    format_integer (u32 p) false false base_x (mk_conv POUND c.(width) c.(precision) c.(ctype));; mret args
  else if (spec =? chr "f") || (spec =? chr "e") || (spec =? chr "E") || (spec =? chr "g") || (spec =? chr "G")
          || (spec =? chr "n") then
    other "<<no %%%c in kernel>>";; mret args
  else other "<<no %%%c conversion>>";; mret args.

(** [n]: the turns of the loop, those of the calls of [__printf] included *)
Fixpoint __vprintf (n : nat) (format : list Z) (args : list arg) : M S unit :=
  match n with
  | O => fail NoFuel
  | Datatypes.S n' =>
      ch ← lift_out (peek format);
      if ch =? 0 then mret tt
      else if negb (ch =? chr "%") then output ch;; __vprintf n' (tail format) args
      else
        let format := tail format in
        ch ← lift_out (peek format);
        if ch =? chr "%" then output (chr "%");; __vprintf n' (tail format) args
        else
          '(c, format, args) ← lift_out (parse_conversion format args);
          spec ← lift_out (peek format);
          args ← convert (λ s, __vprintf n' (lit s) [A32 spec]) spec c args;
          __vprintf n' (tail format) args
  end.

(** enough turns for a format of that length *)
Definition turns (format : list Z) : nat := 32 + length format.

Definition vprintf (format : list Z) (args : list arg) : M S unit := __vprintf (turns format) format args.

Definition __printf (format : list Z) (args : list arg) : M S unit := vprintf format args.
End output.

(** * Output into a buffer *)

Record vsnprintf_aux := mk_aux { ap : Z; alength : Z; max_length : Z }.

Definition vsnprintf_helper (ch : Z) : M (vsnprintf_aux * mem) unit := λ '(aux, m),
  let aux' := mk_aux aux.(ap) (s32 (aux.(alength) + 1)) aux.(max_length) in
  if aux.(alength) <? aux.(max_length) then
    match store aux.(ap) ch m with
    | Ok (_, m') => Ok (tt, (mk_aux (aux.(ap) + 1) aux'.(alength) aux'.(max_length), m'))
    | Err e => Err e
    end
  else Ok (tt, (aux', m)).

Definition vsnprintf (buffer buf_size : Z) (format : list Z) (args : list arg) : B Z := λ m,
  let aux := mk_aux buffer 0 (s32 (if buf_size >? 0 then buf_size - 1 else 0)) in
  match vprintf vsnprintf_helper format args (aux, m) with
  | Ok (_, (aux, m)) => ((if buf_size >? 0 then store aux.(ap) 0 else mret tt);; mret aux.(alength)) m
  | Err e => Err e
  end.

Definition snprintf (buffer buf_size : Z) (format : list Z) (args : list arg) : B Z :=
  vsnprintf buffer buf_size format args.

(** * Dumps and sizes on the console *)

Section console.
Context {S : Type}.
Variable putc : Z → M S unit.

Definition printf (format : string) (args : list arg) : M S unit := vprintf putc (lit format) args.

Fixpoint repeat_printf (n : nat) (format : string) : M S unit :=
  match n with O => mret tt | Datatypes.S n' => printf format [];; repeat_printf n' format end.

(** the bytes of a line in hexadecimal, the first of them in column [i] *)
Fixpoint dump_hex (i : Z) (line : list Z) : M S unit :=
  match line with
  | [] => mret tt
  | b :: r => printf "%02hhx%c" [A32 b; A32 (if i =? 16 / 2 - 1 then chr "-" else chr " ")];; dump_hex (i + 1) r
  end.

Fixpoint dump_ascii (line : list Z) : M S unit :=
  match line with
  | [] => mret tt
  | b :: r => printf "%c" [A32 (if isprint b then b else chr ".")];; dump_ascii r
  end.

Definition dump_line (ofs start n : Z) (line : list Z) (ascii : bool) : M S unit :=
  let rest := Z.to_nat (16 - (start + n)) in
  printf "%08jx  " [A64 (ROUND_DOWN ofs 16)];;
  repeat_printf (Z.to_nat start) "   ";;
  dump_hex start line;;
  (if ascii then
     repeat_printf rest "   ";; printf "|" [];; repeat_printf (Z.to_nat start) " ";;
     dump_ascii line;; repeat_printf rest " ";; printf "|" []
   else mret tt);;
  printf (String (ascii_of_nat 10) EmptyString) [].

(** [buf]: the bytes still to dump, [size] of them *)
Fixpoint hex_dump_loop (turns : nat) (ofs : Z) (buf : list Z) (ascii : bool) : M S unit :=
  match buf with
  | [] => mret tt
  | _ => match turns with
         | O => fail NoFuel
         | Datatypes.S t =>
             let size := Z.of_nat (length buf) in
             let start := ofs mod 16 in
             let n := if 16 - start >? size then size else 16 - start in
             dump_line ofs start n (take (Z.to_nat n) buf) ascii;;
             hex_dump_loop t (u32 (ofs + n)) (drop (Z.to_nat n) buf) ascii
         end
  end.

Definition hex_dump (ofs : Z) (buf : list Z) (ascii : bool) : M S unit := hex_dump_loop (length buf) ofs buf ascii.

(** the division by 1024 while the size is large and a larger unit is left *)
Fixpoint human_size (size : Z) (unit : string) (units : list string) : Z * string :=
  match units with
  | u :: r => if 1024 <=? size then human_size (size / 1024) u r else (size, unit)
  | [] => (size, unit)
  end.

Definition print_human_readable_size (size : Z) : M S unit :=
  if size =? 1 then printf "1 byte" []
  else let '(n, u) := human_size size "bytes" ["kB"; "MB"; "GB"; "TB"]%string in
       printf "%llu %s" [A64 n; AStr (Some (chars u))].
End console.

(** * The text of a call *)

(** an [output] that collects what it gets *)
Definition collect (c : Z) : M (list Z) unit := λ l, Ok (tt, l ++ [c]).

(** what a call prints *)
Definition text (format : list Z) (args : list arg) : outcome (list Z) :=
  match vprintf collect format args [] with Ok (_, l) => Ok l | Err e => Err e end.

(** [x] prints the same characters with every [output] function *)
Definition uniform {A} (x : ∀ S, (Z → M S unit) → M S A) : Prop := ∀ l a l1,
  x (list Z) collect l = Ok (a, l1) →
  ∃ l', l1 = l ++ l' ∧ ∀ S (output : Z → M S unit) s, x S output s = (output_all output l';; mret a) s.

Lemma output_all_app {S} (output : Z → M S unit) l1 l2 s :
  output_all output (l1 ++ l2) s = (output_all output l1;; output_all output l2) s.
Proof.
  revert s. induction l1 as [|c r IH]; intros s; [done|]. simpl. unfold mbind, M_bind in *.
  destruct (output c s) as [[[] s']|]; [|done]. apply IH.
Qed.

Lemma uniform_ret {A} (a : A) : uniform (λ S _, mret a).
Proof. intros l a' l1 [= <- <-]. exists []. by rewrite app_nil_r. Qed.

Lemma uniform_lift {A} (o : outcome A) : uniform (λ S _, lift_out o).
Proof. intros l a l1. destruct o; [|done]. intros [= -> <-]. exists []. by rewrite app_nil_r. Qed.

Lemma uniform_fail {A} e : uniform (λ S _, fail (A:=A) e).
Proof. by intros l a l1. Qed.

Lemma uniform_output c : uniform (λ S output, output c).
Proof.
  intros l [] l1 [= <-]. exists [c]. split; [done|]. intros S output s. simpl. unfold mbind, M_bind.
  by destruct (output c s) as [[[] ?]|].
Qed.

Lemma uniform_bind {A C} (x : ∀ S, (Z → M S unit) → M S A) (f : A → ∀ S, (Z → M S unit) → M S C) :
  uniform x → (∀ a, uniform (f a)) → uniform (λ S o, x S o ≫= λ a, f a S o).
Proof.
  intros Hx Hf l c l1. unfold mbind at 1, M_bind at 1. destruct (x (list Z) collect l) as [[a l2]|] eqn:E; [|done].
  intros E'. destruct (Hx l a l2 E) as (k & -> & Hk). destruct (Hf a _ c l1 E') as (k' & -> & Hk').
  exists (k ++ k'). split; [by rewrite app_assoc|]. intros S output s. unfold mbind, M_bind at 1. rewrite Hk.
  unfold mbind, M_bind. rewrite output_all_app. unfold mbind, M_bind.
  destruct (output_all output k s) as [[[] s']|]; [|done]. simpl. by rewrite Hk'.
Qed.

Lemma uniform_if {A} (b : bool) (x y : ∀ S, (Z → M S unit) → M S A) :
  uniform x → uniform y → uniform (λ S o, if b then x S o else y S o).
Proof. by destruct b. Qed.

Create HintDb uniform.
#[export] Hint Resolve uniform_ret uniform_lift uniform_fail uniform_output : uniform.

Lemma uniform_dup c n : uniform (λ S o, output_dup o c n).
Proof. induction n; [apply uniform_ret|]. apply (uniform_bind (λ S o, o c) (λ _ S o, output_dup o c n)); auto with uniform. Qed.

Lemma uniform_all l : uniform (λ S o, output_all o l).
Proof. induction l as [|c r IH]; [apply uniform_ret|]. apply (uniform_bind (λ S o, o c) (λ _ S o, output_all o r)); auto with uniform. Qed.
#[export] Hint Resolve uniform_dup uniform_all : uniform.

(** peels binds and conditions off *)
Ltac uniform_tac :=
  repeat first
    [ solve [auto with uniform]
    | match goal with
      | |- uniform (λ S o, @mbind _ _ ?A ?C (@?f S o) (@?x S o)) =>
          first [ apply (uniform_bind x (λ a S o, f S o a)); [|intros ?]; cbv beta ]
      | |- uniform (λ S o, if ?b then _ else _) => destruct b
      | |- uniform (λ S o, match ?p with (_, _) => _ end) => destruct p
      end ].

Lemma uniform_integer v sg neg b c : uniform (λ S o, format_integer o v sg neg b c).
Proof. unfold format_integer. uniform_tac. Qed.

Lemma uniform_string l c : uniform (λ S o, format_string o l c).
Proof. unfold format_string. uniform_tac. Qed.
#[export] Hint Resolve uniform_integer uniform_string : uniform.

Lemma uniform_convert (other : ∀ S, (Z → M S unit) → string → M S unit) spec c args :
  (∀ s, uniform (λ S o, other S o s)) → uniform (λ S o, convert o (other S o) spec c args).
Proof. intros Ho. unfold convert. uniform_tac; apply Ho. Qed.

Lemma uniform_vprintf n format args : uniform (λ S o, __vprintf o n format args).
Proof.
  revert format args. induction n as [|n IH]; intros format args; [apply uniform_fail|]. cbn [__vprintf]. uniform_tac.
  match goal with |- uniform (λ S o, convert o _ ?spec _ _) =>
    apply (uniform_convert (λ S o s, __vprintf o n (lit s) [A32 spec])); intros; apply IH end.
Qed.

Lemma vprintf_text format args l S (output : Z → M S unit) s : text format args = Ok l →
  vprintf output format args s = output_all output l s.
Proof.
  unfold text, vprintf. destruct (__vprintf collect _ format args []) as [[[] l1]|] eqn:E; [|done]. intros [= ->].
  destruct (uniform_vprintf (turns format) format args [] tt l E) as (l' & E' & ->). simpl in E'. subst l'.
  unfold mbind, M_bind. by destruct (output_all output l s) as [[[] ?]|].
Qed.

(** ** Into a buffer *)

Lemma helper_all l p n mx m (k := Z.to_nat (mx - n)) : n + Z.of_nat (length l) < 2 ^ 31 → 0 ≤ n → writable m p (mx - n) →
  output_all vsnprintf_helper l (mk_aux p n mx, m) =
    Ok (tt, (mk_aux (p + Z.of_nat (length (take k l))) (n + Z.of_nat (length l)) mx, write m p (u8 <$> take k l))).
Proof.
  unfold k. clear k. revert p n m. induction l as [|c r IH]; intros p n m Hl Hn Hw; simpl in *.
  { rewrite take_nil. simpl. by rewrite !Z.add_0_r. }
  unfold vsnprintf_helper at 1, mbind, M_bind. simpl. rewrite s32_small by lia. destruct (Z.ltb_spec n mx) as [Hlt|Hge].
  - unfold store. destruct (Hw p ltac:(lia)) as [v Hv]. rewrite Hv, IH; [|lia|lia|].
    + replace (Z.to_nat (mx - n)) with (S (Z.to_nat (mx - (n + 1)))) by lia. simpl.
      do 3 f_equal. f_equal; lia.
    + intros a Ha. destruct (decide (a = p)) as [->|]; [rewrite lookup_insert_eq; eauto|].
      rewrite lookup_insert_ne by done. apply Hw. lia.
  - rewrite IH; [|lia|lia|intros a Ha; lia]. replace (Z.to_nat (mx - n)) with 0%nat by lia.
    replace (Z.to_nat (mx - (n + 1))) with 0%nat by lia. simpl. do 3 f_equal. f_equal; lia.
Qed.

Lemma vsnprintf_eq buffer size format args l m : text format args = Ok l → Z.of_nat (length l) < 2 ^ 31 →
  0 < size < 2 ^ 31 → writable m buffer size →
  vsnprintf buffer size format args m =
    Ok (Z.of_nat (length l), write m buffer ((u8 <$> take (Z.to_nat (size - 1)) l) ++ [0])).
Proof.
  intros Ht Hl Hs Hw. unfold vsnprintf. rewrite Z.gtb_ltb. destruct (Z.ltb_spec 0 size); [|lia].
  rewrite s32_small by lia. rewrite (vprintf_text _ _ _ _ _ _ Ht).
  rewrite helper_all; [|lia|lia|intros a Ha; apply Hw; lia]. rewrite Z.sub_0_r, Z.add_0_l. simpl ap. simpl alength.
  set (t := take _ l). assert (Ht' : (Z.of_nat (length t) ≤ size - 1)) by (unfold t; rewrite length_take; lia).
  erewrite bind_ok; [|apply store_eq; [|lia]].
  - unfold mret, M_ret. f_equal. f_equal. rewrite write_app, length_fmap. done.
  - apply write_is_Some, Hw. lia.
Qed.

(** ** Digits *)

Definition base_ok (b : integer_base) : Prop :=
  8 ≤ b.(ibase) ≤ 16 ∧ Z.of_nat (length b.(digits)) = b.(ibase).

Lemma bases_ok : base_ok base_d ∧ base_ok base_o ∧ base_ok base_x ∧ base_ok base_X.
Proof. repeat split; vm_compute; congruence. Qed.

(** the value of digits in base [b], the most significant first *)
Definition base_value (b : Z) (ds : list Z) : Z := foldl (λ v d, v * b + d) 0 ds.

Lemma base_value_snoc b ds d : base_value b (ds ++ [d]) = base_value b ds * b + d.
Proof. unfold base_value. by rewrite foldl_app. Qed.

Lemma push_ok c buf : (length buf < 64)%nat → push c buf = Ok (c :: buf).
Proof. intros H. unfold push. by destruct (Z.ltb_spec (Z.of_nat (length buf)) 64); [|lia]. Qed.

(** [m] digits are enough below [8 ^ m]; with the commas they take at most [2 * m]
    characters *)
Lemma digit_loop_spec b g m n value cnt buf : base_ok b → (m ≤ n)%nat → 0 ≤ value < 8 ^ Z.of_nat m →
  (length buf + 2 * m ≤ 64)%nat →
  ∃ buf', digit_loop n b g value cnt buf = Ok buf' ∧ (length buf' ≤ length buf + 2 * m)%nat ∧
    (g = false → ∃ ds, buf' = ((λ d, b.(digits) !!! Z.to_nat d) <$> ds) ++ buf ∧
       (∀ d, d ∈ ds → 0 ≤ d < b.(ibase)) ∧ base_value b.(ibase) ds = value ∧ (length ds ≤ m)%nat ∧ (0 < value → ds ≠ [])).
Proof.
  intros [Hb Hd]. revert n value cnt buf. induction m as [|m IH]; intros n value cnt buf Hn Hv Hl.
  { assert (value = 0) as -> by (simpl in Hv; lia). exists buf. split; [by destruct n|]. split; [lia|].
    intros _. exists []. split_and!; [done|by intros ? ?%elem_of_nil|done|simpl; lia|lia]. }
  destruct n as [|n]; [lia|]. cbn [digit_loop]. rewrite Z.gtb_ltb. destruct (Z.ltb_spec 0 value) as [Hp|Hz].
  2: { exists buf. split; [done|]. split; [lia|]. intros _. exists [].
       split_and!; [done|by intros ? ?%elem_of_nil|unfold base_value; simpl; lia|simpl; lia|lia]. }
  assert (Hmod := Z.mod_pos_bound value (ibase b) ltac:(lia)).
  destruct (lookup_lt_is_Some_2 (digits b) (Z.to_nat (value mod ibase b))) as [c Hc]; [lia|].
  assert (Hdiv : 0 ≤ value / ibase b < 8 ^ Z.of_nat m).
  { split; [apply Z.div_pos; lia|]. apply Z.div_lt_upper_bound; [lia|].
    replace (Z.of_nat (S m)) with (Z.succ (Z.of_nat m)) in Hv by lia. rewrite Z.pow_succ_r in Hv by lia.
    assert (8 * 8 ^ Z.of_nat m ≤ ibase b * 8 ^ Z.of_nat m) by (apply Z.mul_le_mono_nonneg_r; [apply Z.pow_nonneg|]; lia).
    lia. }
  assert (Hstep : ∃ buf1, (if g && (cnt >? 0) && (cnt mod group b =? 0) then push (chr ",") buf else Ok buf) = Ok buf1 ∧
    (length buf1 ≤ S (length buf))%nat ∧ (g = false → buf1 = buf)).
  { destruct (g && (cnt >? 0) && (cnt mod group b =? 0)) eqn:Eg.
    - rewrite push_ok by lia. eexists. split; [done|]. split; [done|]. by intros ->.
    - eexists. split; [done|]. split; [lia|done]. }
  destruct Hstep as (buf1 & -> & Hl1 & Hg1). cbn [mbind outcome_bind]. rewrite Hc. cbn [mbind outcome_bind ofault].
  rewrite push_ok by lia. cbn [mbind outcome_bind].
  destruct (IH n (value / ibase b) (cnt + 1) (c :: buf1)) as (buf' & -> & Hl' & Hg'); [lia|done|simpl; lia|].
  exists buf'. split; [done|]. split; [simpl in Hl'; lia|]. intros Hg. destruct (Hg' Hg) as (ds & -> & Hds & Hval & Hlen & _).
  exists (ds ++ [value mod ibase b]). rewrite (Hg1 Hg). split_and!.
  - rewrite fmap_app, <- app_assoc. simpl. f_equal. f_equal. symmetry. by apply list_lookup_total_correct.
  - intros d [Hd'| ->%list_elem_of_singleton]%elem_of_app; [by apply Hds|done].
  - rewrite base_value_snoc, Hval. pose proof (Z.div_mod value (ibase b)). lia.
  - rewrite length_app. simpl. lia.
  - by destruct ds.
Qed.

Lemma zero_loop_spec n p buf : (63 ≤ length buf + n)%nat → (length buf ≤ 63)%nat →
  ∃ k, zero_loop n p buf = Ok (replicate k (chr "0") ++ buf) ∧ (length buf + k ≤ 63)%nat ∧
    (p ≤ Z.of_nat (length buf) → k = 0%nat) ∧ (p = 1 → buf = [] → k = 1%nat).
Proof.
  revert buf. induction n as [|n IH]; intros buf Hn Hl.
  { exists 0%nat. cbn [zero_loop]. destruct (Z.ltb_spec (Z.of_nat (length buf)) 63); [lia|]. rewrite andb_false_r.
    split_and!; [done|lia|done|]. intros _ ->. simpl in *. lia. }
  cbn [zero_loop]. destruct (Z.ltb_spec (Z.of_nat (length buf)) p) as [Hp|Hp]; simpl andb.
  2: { exists 0%nat. split_and!; [done|lia|done|]. intros -> ->. simpl in *. lia. }
  destruct (Z.ltb_spec (Z.of_nat (length buf)) 63) as [H63|H63].
  - rewrite push_ok by lia. cbn [mbind outcome_bind]. destruct (IH (chr "0" :: buf)) as (k & -> & H1 & H2 & H3); [simpl; lia..|].
    simpl in H1. exists (S k). split_and!.
    + change (chr "0" :: buf) with ([chr "0"] ++ buf). rewrite app_assoc. f_equal. f_equal.
      rewrite <- replicate_cons_app. done.
    + lia.
    + lia.
    + intros -> ->. rewrite H2; [done|]. simpl. lia.
  - exists 0%nat. split_and!; [done|lia|lia|]. intros _ ->. simpl in *. lia.
Qed.

(** [format_integer] stays within its buffer of 64 characters *)
Lemma integer_digits_fit value b c : base_ok b → 0 ≤ value < 2 ^ 64 →
  ∃ buf, integer_digits value b c = Ok buf ∧ (length buf ≤ 64)%nat.
Proof.
  intros Hb Hv. unfold integer_digits.
  destruct (digit_loop_spec b (has (flags c) GROUP) 22 64 value 0 [] Hb) as (buf & -> & Hl & _); [lia|lia|simpl; lia|].
  cbn [mbind outcome_bind]. destruct (zero_loop_spec 64 (if precision c <? 0 then 1 else precision c) buf)
    as (k & -> & Hk & _); [lia|simpl in Hl; lia|]. cbn [mbind outcome_bind].
  set (buf1 := replicate k (chr "0") ++ buf). assert (Hl1 : (length buf1 ≤ 63)%nat)
    by (unfold buf1; rewrite length_app, length_replicate; lia).
  destruct (_ && _).
  - rewrite push_ok by lia. eexists. split; [done|]. simpl. lia.
  - exists buf1. split; [done|lia].
Qed.

(** the conversions without flags, width and precision *)
Definition plain (ty : arg_type) : printf_conversion := mk_conv 0 0 (-1) ty.

Lemma integer_digits_plain value b ty : base_ok b → 0 ≤ value < 2 ^ 64 → b.(digits) !! 0%nat = Some (chr "0") →
  ∃ ds, integer_digits value b (plain ty) = Ok ((λ d, b.(digits) !!! Z.to_nat d) <$> ds) ∧ ds ≠ [] ∧
    (∀ d, d ∈ ds → 0 ≤ d < b.(ibase)) ∧ base_value b.(ibase) ds = value ∧ (length ds ≤ 44)%nat.
Proof.
  intros Hb Hv H0. unfold integer_digits.
  destruct (digit_loop_spec b (has (flags (plain ty)) GROUP) 22 64 value 0 [] Hb) as (buf & -> & Hl & Hg); [lia|lia|simpl; lia|].
  destruct (Hg eq_refl) as (ds & -> & Hds & Hval & Hne). rewrite app_nil_r in *. cbn [mbind outcome_bind].
  change (if precision (plain ty) <? 0 then 1 else precision (plain ty)) with 1. rewrite length_fmap in Hl. simpl in Hl.
  destruct (zero_loop_spec 64 1 ((λ d, digits b !!! Z.to_nat d) <$> ds)) as (k & -> & Hk & Hk0 & Hk1);
    [rewrite length_fmap; lia..|]. cbn [mbind outcome_bind]. change (has (flags (plain ty)) POUND) with false. cbn [andb].
  destruct ds as [|d r].
  - rewrite Hk1 by done. exists [0]. simpl. split_and!; [|done| |done|lia].
    + f_equal. f_equal. symmetry. by apply list_lookup_total_correct.
    + intros d ->%list_elem_of_singleton. destruct Hb. lia.
  - rewrite Hk0 by (simpl; lia). exists (d :: r). done.
Qed.

(** ** Decimal numbers *)

Lemma vprintf_conversion {S} (o : Z → M S unit) n ch fmt args c spec fmt' args' s : ch ≠ 37 →
  parse_conversion (ch :: fmt) args = Ok (c, spec :: fmt', args') →
  __vprintf o (Datatypes.S n) (37 :: ch :: fmt) args s =
    (args ← convert o (λ s, __vprintf o n (lit s) [A32 spec]) spec c args'; __vprintf o n fmt' args) s.
Proof.
  intros Hch Hp. cbn [__vprintf]. erewrite bind_ok by done. cbv beta. change (37 =? 0) with false.
  change (negb (37 =? chr "%")) with false. cbv iota zeta. cbn [tail]. rewrite (bind_ok (lift_out (peek _)) _ s ch s) by done.
  change (chr "%") with 37. destruct (Z.eqb_spec ch 37); [done|]. cbn [tail].
  rewrite (bind_ok _ _ _ _ _ (lift_out_eq _ _ s Hp)). cbv beta iota. by erewrite bind_ok by done.
Qed.

Lemma vprintf_end {S} (o : Z → M S unit) n args s : __vprintf o (Datatypes.S n) [0] args s = Ok (tt, s).
Proof. done. Qed.

Lemma collect_all l s : output_all collect l s = Ok (tt, s ++ l).
Proof.
  revert s. induction l as [|c r IH]; intros s; simpl; [by rewrite app_nil_r|].
  erewrite bind_ok by done. by rewrite IH, <- app_assoc.
Qed.

Lemma format_plain value neg b ty buf s : integer_digits value b (plain ty) = Ok buf →
  format_integer collect value true neg b (plain ty) s = Ok (tt, s ++ (if neg then [45] else []) ++ buf).
Proof.
  intros E. unfold format_integer. rewrite (bind_ok _ _ _ _ _ (lift_out_eq _ _ s E)). cbv beta zeta.
  set (pad := Z.to_nat _). assert (pad = 0%nat) as ->.
  { unfold pad. simpl width. destruct neg; simpl sign_of; destruct (Z.ltb_spec (0 - Z.of_nat (length buf) - 0 - 0) 0);
      simpl; destruct (_ <? 0) eqn:El; lia. }
  destruct neg; simpl.
  - erewrite bind_ok by done. erewrite bind_ok by done. erewrite bind_ok by done. erewrite bind_ok by done.
    erewrite bind_ok by apply collect_all. by rewrite <- app_assoc.
  - do 4 (erewrite bind_ok by done). by erewrite bind_ok by apply collect_all.
Qed.

Lemma digit_char d : 0 ≤ d < 10 → base_d.(digits) !!! Z.to_nat d = d + 48.
Proof.
  intros Hd. assert (Hd' : (Z.to_nat d < 10)%nat) by lia. rewrite <- (Z2Nat.id d) at 2 by lia. revert Hd'.
  generalize (Z.to_nat d). intros k Hk. do 10 (destruct k as [|k]; [reflexivity|]). lia.
Qed.

Lemma digits_value_base ds : (∀ d, d ∈ ds → 0 ≤ d < 10) →
  digits_value ((λ d, base_d.(digits) !!! Z.to_nat d) <$> ds) = base_value 10 ds.
Proof.
  intros Hds. unfold digits_value, base_value. generalize 0. revert Hds. induction ds as [|d r IH]; intros Hds v; [done|].
  cbn [fmap list_fmap foldl]. rewrite digit_char by (apply Hds; left). rewrite IH by (intros; apply Hds; by right).
  f_equal. lia.
Qed.

(** the conversion %d at the end of a format *)
Lemma vprintf_d v k s (n := s32 v) :
  ∃ ds, __vprintf collect (Datatypes.S (Datatypes.S k)) [37; 100; 0] [A32 v] s = Ok (tt, s ++ (if n <? 0 then [45] else []) ++ ds) ∧
    (∀ c, c ∈ ds → isdigit c = true) ∧ ds ≠ [] ∧ digits_value ds = Z.abs n ∧ (length ds ≤ 44)%nat.
Proof.
  pose proof (s32_range v) as Hr. fold n in Hr.
  rewrite (vprintf_conversion _ _ 100 [0] [A32 v] (plain INT) 100 [0] [A32 v]) by done.
  unfold convert. change ((100 =? chr "d") || _) with true. cbv iota.
  assert (Hu : u64 (if n <? 0 then - n else n) = Z.abs n).
  { destruct (Z.ltb_spec n 0); rewrite u64_small by lia; lia. }
  destruct (integer_digits_plain (Z.abs n) base_d INT) as (ds & E & Hne & Hds & Hval & Hlen);
    [apply bases_ok|lia|done|].
  exists ((λ d, base_d.(digits) !!! Z.to_nat d) <$> ds). split_and!.
  - rewrite (bind_ok _ _ s [] (s ++ (if n <? 0 then [45] else []) ++ ((λ d, base_d.(digits) !!! Z.to_nat d) <$> ds))); [done|].
    rewrite (bind_ok (lift_out _) _ s (n, []) s) by done. cbv iota.
    by rewrite Hu, (bind_ok _ _ _ _ _ (format_plain _ (n <? 0) _ _ _ s E)).
  - intros c (d & -> & Hd)%list_elem_of_fmap. specialize (Hds d Hd). simpl in Hds. rewrite digit_char by done.
    unfold isdigit. destruct (Z.leb_spec 48 (d + 48)), (Z.leb_spec (d + 48) 57); lia || done.
  - by destruct ds.
  - by rewrite digits_value_base.
  - by rewrite length_fmap.
Qed.

Lemma text_d v (n := s32 v) :
  ∃ ds, text (lit "%d") [A32 v] = Ok ((if n <? 0 then [45] else []) ++ ds) ∧ (∀ c, c ∈ ds → isdigit c = true) ∧
    ds ≠ [] ∧ digits_value ds = Z.abs n ∧ (length ds ≤ 44)%nat.
Proof.
  destruct (vprintf_d v 33 []) as (ds & E & H). exists ds. split; [|done]. unfold text, vprintf.
  change (turns (lit "%d")) with (Datatypes.S (Datatypes.S 33)). change (lit "%d") with [37; 100; 0]. by rewrite E.
Qed.

(** a string and a number after it *)
Lemma text_sd l v (n := s32 v) : Z.of_nat (length l) < 2 ^ 32 →
  ∃ ds, text (lit "%s%d") [AStr (Some l); A32 v] = Ok (l ++ (if n <? 0 then [45] else []) ++ ds) ∧ (∀ c, c ∈ ds → isdigit c = true) ∧
    ds ≠ [] ∧ digits_value ds = Z.abs n.
Proof.
  intros Hl. destruct (vprintf_d v 34 l) as (ds & E & Hd & Hne & Hv & _). exists ds. split; [|done]. unfold text, vprintf.
  change (turns (lit "%s%d")) with (Datatypes.S (Datatypes.S (Datatypes.S 34))). change (lit "%s%d") with [37; 115; 37; 100; 0].
  rewrite (vprintf_conversion _ _ 115 [37; 100; 0] _ (plain INT) 115 [37; 100; 0] [AStr (Some l); A32 v]) by done.
  assert (Hlim : limit (-1) l = l) by (unfold limit; change (u32 (-1)) with (2 ^ 32 - 1); rewrite take_ge by lia; done).
  rewrite (bind_ok _ _ [] [A32 v] l); [by rewrite E|]. unfold convert. change ((115 =? chr "d") || _) with false.
  change ((115 =? chr "o") || _ || _ || _) with false. change (115 =? chr "c") with false. change (115 =? chr "s") with true. cbv iota.
  rewrite (bind_ok (lift_out _) _ [] (Some l, [A32 v]) []) by done. cbv iota beta. change (default (chars "(null)") (Some l)) with l.
  change (precision (plain INT)) with (-1). rewrite Hlim. unfold format_string. change (width (plain INT)) with 0.
  destruct (Z.ltb_spec (Z.of_nat (length l)) 0); [lia|]. cbn [andb]. erewrite bind_ok; [reflexivity|].
  rewrite (bind_ok _ _ [] tt []) by done. rewrite (bind_ok _ _ _ _ _ (collect_all _ _)). done.
Qed.

(** * Statements *)

(** C29. [vsnprintf] writes the text of the call, cut to the size of the buffer less
    one, and a terminating null into the buffer, touches no byte outside of it, and
    returns the length of the whole text. *)
Theorem vsnprintf_bounded buffer size format args l m : text format args = Ok l → Z.of_nat (length l) < 2 ^ 31 →
  0 < size < 2 ^ 31 → writable m buffer size →
  vsnprintf buffer size format args m =
    Ok (Z.of_nat (length l), write m buffer ((u8 <$> take (Z.to_nat (size - 1)) l) ++ [0])).
Proof. apply vsnprintf_eq. Qed.

(** sixteen bytes at 100 *)
Definition ex_buf : mem := write ∅ 100 (replicate 16 0xaa).

Lemma ex_buf_writable n : 0 ≤ n ≤ 16 → writable ex_buf 100 n.
Proof.
  intros Hn a Ha. unfold ex_buf. rewrite lookup_write, length_replicate, decide_True by lia.
  apply lookup_lt_is_Some. rewrite length_replicate. lia.
Qed.

Lemma vsnprintf_bounded_witness :
  vsnprintf 100 8 (lit "%s, %#x") [AStr (Some (chars "pintos")); A32 255] ex_buf =
    Ok (12, write ex_buf 100 (chars "pintos," ++ [0])).
Proof.
  apply (vsnprintf_bounded 100 8 (lit "%s, %#x") [AStr (Some (chars "pintos")); A32 255] (chars "pintos, 0xff") ex_buf).
  - vm_compute. reflexivity.
  - vm_compute. reflexivity.
  - split; reflexivity.
  - apply ex_buf_writable. lia.
Defined.

(** [format_integer] never writes outside its 64-byte buffer and its loops end,
    for every 64-bit value, every base and every combination of flags, width and
    precision. *)
Theorem format_integer_fits value b c : b ∈ [base_d; base_o; base_x; base_X] → 0 ≤ value < 2 ^ 64 →
  ∃ buf, integer_digits value b c = Ok buf ∧ (length buf ≤ 64)%nat.
Proof.
  intros Hb. apply integer_digits_fit. pose proof bases_ok as (? & ? & ? & ?).
  repeat (apply elem_of_cons in Hb as [->|Hb]; [done|]). by apply elem_of_nil in Hb.
Qed.

Lemma format_integer_fits_witness :
  ∃ buf, integer_digits (2 ^ 64 - 1) base_o (mk_conv (Z.lor GROUP POUND) 100 200 INT) = Ok buf ∧ (length buf ≤ 64)%nat.
Proof. apply (format_integer_fits (2 ^ 64 - 1) base_o _); [right; left|split; reflexivity || lia]. Defined.

(** an [int] printed with the conversion d into a buffer with room for it and
    read back with [atoi] is the same number. *)
Theorem print_int_roundtrip buffer size v m : - 2 ^ 31 ≤ v < 2 ^ 31 → 46 ≤ size < 2 ^ 31 → 0 < buffer →
  writable m buffer size →
  ∃ n m', snprintf buffer size (lit "%d") [A32 v] m = Ok (n, m') ∧ atoi buffer m' = Ok (v, m').
Proof.
  intros Hv Hs Hb Hw. destruct (text_d v) as (ds & Ht & Hds & Hne & Hval & Hlen). rewrite s32_small in Ht, Hval by lia.
  set (sg := if v <? 0 then [45] else []) in *.
  assert (Hl : (length (sg ++ ds) ≤ 45)%nat) by (rewrite length_app; unfold sg; destruct (v <? 0); simpl; lia).
  eexists _, _. split; [apply (vsnprintf_eq buffer size _ _ (sg ++ ds)); [done|lia|lia|done]|].
  rewrite take_ge by lia.
  assert (Hch : ∀ c, c ∈ sg ++ ds → 0 < c < 256).
  { intros c [Hc|Hc]%elem_of_app.
    - unfold sg in Hc. destruct (v <? 0); [apply list_elem_of_singleton in Hc as ->; lia|by apply elem_of_nil in Hc].
    - apply Hds in Hc. unfold isdigit in Hc. apply andb_true_iff in Hc as [H1%Z.leb_le H2%Z.leb_le]. lia. }
  assert (Hid : u8 <$> (sg ++ ds) = sg ++ ds).
  { rewrite <- (list_fmap_id (sg ++ ds)) at 2. apply list_fmap_ext. intros i c Hc. apply u8_small.
    apply list_elem_of_lookup_2, Hch in Hc.
    unfold id; lia. }
  rewrite Hid. assert (Ev : (if v <? 0 then - digits_value ds else digits_value ds) = v)
    by (rewrite Hval; destruct (Z.ltb_spec v 0); lia).
  set (m' := write _ _ _). transitivity (Ok (if v <? 0 then - digits_value ds else digits_value ds, m')); [|by rewrite Ev].
  apply (atoi_eq _ _ [] (v <? 0) ds []); rewrite ?app_nil_r.
  - by intros c ?%elem_of_nil.
  - done.
  - done.
  - intros _. destruct ds as [|c r]; [done|]. specialize (Hds c ltac:(left)). unfold isdigit in Hds.
    apply andb_true_iff in Hds as [H1%Z.leb_le H2%Z.leb_le]. split_and!; [|lia|lia]. unfold isspace.
    repeat (match goal with |- context [c =? ?k] => destruct (Z.eqb_spec c k); [lia|] end). done.
  - rewrite Hval. destruct (Z.ltb_spec v 0); lia.
  - done.
  - apply (cstr_write m buffer (sg ++ ds) Hch).
Qed.

Lemma print_int_roundtrip_witness : ∃ n m', snprintf 100 46 (lit "%d") [A32 (-2016)] (write ∅ 100 (replicate 46 0)) = Ok (n, m') ∧
  atoi 100 m' = Ok (-2016, m').
Proof.
  apply (print_int_roundtrip 100 46 (-2016) (write ∅ 100 (replicate 46 0))); [lia..|].
  intros a Ha. rewrite lookup_write, length_replicate, decide_True by lia.
  apply lookup_lt_is_Some. rewrite length_replicate. lia.
Defined.
