(* ===== verification/Inode.v ===== *)
(** filesys/inode.c, filesys/file.c, filesys/free-map.c and the sector access of
    devices/block.c.

    A disk is the list of its sectors, each 512 bytes.  Inodes and open files are
    objects of a store, named by their addresses (0 is the null pointer); buffers are
    passed as the bytes they hold.  Whether an allocation of memory succeeds is not
    up to these files: [allocs] holds the outcomes of the next allocations, and those
    after them succeed. *)

From S2P Require Import Prelude Vaddr Bitmap.

Definition BLOCK_SECTOR_SIZE : Z := 512.
Definition INODE_MAGIC : Z := 0x494e4f44.
Definition FREE_MAP_SECTOR : Z := 0.
Definition ROOT_DIR_SECTOR : Z := 1.

(** [start] and [length] are those of the copy of the disk inode *)
Record inode := mk_inode {
  sector : Z; open_cnt : Z; removed : bool; deny_write_cnt : Z; start : Z; ilength : Z }.

Record file := mk_file { finode : Z; pos : Z; deny_write : bool }.

Record fstate := mk_fstate {
  disk : list (list Z);
  inodes : gmap Z inode;
  open_inodes : list Z;
  files : gmap Z file;
  free_map : bitmap;
  free_map_file : Z;
  next_ptr : Z;
  allocs : list bool }.

Abbreviation F := (M fstate).

Definition set_disk (d : list (list Z)) (s : fstate) : fstate :=
  mk_fstate d s.(inodes) s.(open_inodes) s.(files) s.(free_map) s.(free_map_file) s.(next_ptr) s.(allocs).
Definition set_inodes (i : gmap Z inode) (o : list Z) (s : fstate) : fstate :=
  mk_fstate s.(disk) i o s.(files) s.(free_map) s.(free_map_file) s.(next_ptr) s.(allocs).
Definition set_files (f : gmap Z file) (s : fstate) : fstate :=
  mk_fstate s.(disk) s.(inodes) s.(open_inodes) f s.(free_map) s.(free_map_file) s.(next_ptr) s.(allocs).
Definition set_free_map (b : bitmap) (s : fstate) : fstate :=
  mk_fstate s.(disk) s.(inodes) s.(open_inodes) s.(files) b s.(free_map_file) s.(next_ptr) s.(allocs).
Definition set_free_map_file (f : Z) (s : fstate) : fstate :=
  mk_fstate s.(disk) s.(inodes) s.(open_inodes) s.(files) s.(free_map) f s.(next_ptr) s.(allocs).
Definition set_heap (n : Z) (a : list bool) (s : fstate) : fstate :=
  mk_fstate s.(disk) s.(inodes) s.(open_inodes) s.(files) s.(free_map) s.(free_map_file) n a.

(** a block from [malloc] or [calloc]: its address, or 0 *)
Definition alloc : F Z :=
  s ← get;
  match s.(allocs) with
  | false :: r => put (set_heap s.(next_ptr) r s);; mret 0
  | a => put (set_heap (s.(next_ptr) + 1) (tail a) s);; mret s.(next_ptr)
  end.

Definition get_inode (p : Z) : F inode := s ← get; lift_out (ofault (s.(inodes) !! p)).
Definition put_inode (p : Z) (i : inode) : F unit := modify (λ s, set_inodes (<[p := i]> s.(inodes)) s.(open_inodes) s).
Definition get_file (p : Z) : F file := s ← get; lift_out (ofault (s.(files) !! p)).
Definition put_file (p : Z) (f : file) : F unit := modify (λ s, set_files (<[p := f]> s.(files)) s).

(** * Sectors *)

Definition check_sector (sector : Z) : F unit :=
  s ← get; assert (sector <? Z.of_nat (length s.(disk))).

Definition block_read (sector : Z) : F (list Z) :=
  check_sector sector;; s ← get; lift_out (ofault (s.(disk) !! Z.to_nat sector)).

Definition block_write (sector : Z) (buffer : list Z) : F unit :=
  check_sector sector;; modify (λ s, set_disk (<[Z.to_nat sector := buffer]> s.(disk)) s).

(** * Inodes *)

Definition bytes_to_sectors (size : Z) : Z := (size + BLOCK_SECTOR_SIZE - 1) ÷ BLOCK_SECTOR_SIZE.

Definition byte_to_sector (i : inode) (pos : Z) : Z :=
  if pos <? i.(ilength) then u32 (i.(start) + pos ÷ BLOCK_SECTOR_SIZE) else 2 ^ 32 - 1.

(** a disk inode: its words are the start, the length, the magic number, and 125
    unused ones *)
Definition encode_inode (start length : Z) : list Z :=
  bits_bytes ([start; u32 length; INODE_MAGIC] ++ replicate 125 0).
Definition decode_inode (l : list Z) : outcome (Z * Z) :=
  match bytes_bits l with s :: n :: _ => Ok (s, s32 n) | _ => Err Fault end.

(** [memcpy] of [l] into the bytes of [b] from [ofs] on *)
Definition splice (ofs : Z) (l b : list Z) : list Z :=
  take (Z.to_nat ofs) b ++ l ++ drop (Z.to_nat ofs + length l) b.

(** what the loops of [inode_read_at] and [inode_write_at] compute in a turn: the
    sector, the offset in it, the rest of the sector and the size of the chunk *)
Definition chunk (i : inode) (size offset : Z) : Z * Z * Z * Z :=
  let sector_ofs := Z.rem offset BLOCK_SECTOR_SIZE in
  let inode_left := i.(ilength) - offset in
  let sector_left := BLOCK_SECTOR_SIZE - sector_ofs in
  let min_left := if inode_left <? sector_left then inode_left else sector_left in
  (byte_to_sector i offset, sector_ofs, sector_left, if size <? min_left then size else min_left).

(** the bounce buffer, if the call has it already or gets it *)
Definition get_bounce (bounce : Z) : F Z := if bounce =? 0 then alloc else mret bounce.

(** [n]: the turns left; [acc]: the bytes read so far *)
Fixpoint read_loop (n : nat) (i : inode) (size offset bounce : Z) (acc : list Z) : F (list Z) :=
  if negb (0 <? size) then mret acc else
  match n with
  | O => fail NoFuel
  | S n' =>
      let '(sector_idx, sector_ofs, _, chunk_size) := chunk i size offset in
      if chunk_size <=? 0 then mret acc
      else if (sector_ofs =? 0) && (chunk_size =? BLOCK_SECTOR_SIZE) then
        d ← block_read sector_idx;
        read_loop n' i (size - chunk_size) (offset + chunk_size) bounce (acc ++ d)
      else
        bounce ← get_bounce bounce;
        if bounce =? 0 then mret acc else
        d ← block_read sector_idx;
        read_loop n' i (size - chunk_size) (offset + chunk_size) bounce
          (acc ++ take (Z.to_nat chunk_size) (drop (Z.to_nat sector_ofs) d))
  end.

(** every turn but the first and the last two goes through a whole sector *)
Definition turns (size : Z) : nat := Z.to_nat (size / BLOCK_SECTOR_SIZE) + 3.

(** the bytes read; the return value is their number *)
Definition inode_read_at (p : Z) (size offset : Z) : F (list Z) :=
  i ← get_inode p; read_loop (turns size) i size offset 0 [].

Fixpoint write_loop (n : nat) (i : inode) (buffer : list Z) (size offset bounce written : Z) : F Z :=
  if negb (0 <? size) then mret written else
  match n with
  | O => fail NoFuel
  | S n' =>
      let '(sector_idx, sector_ofs, sector_left, chunk_size) := chunk i size offset in
      let data := take (Z.to_nat chunk_size) buffer in
      let rest := drop (Z.to_nat chunk_size) buffer in
      if chunk_size <=? 0 then mret written
      else if (sector_ofs =? 0) && (chunk_size =? BLOCK_SECTOR_SIZE) then
        block_write sector_idx data;;
        write_loop n' i rest (size - chunk_size) (offset + chunk_size) bounce (written + chunk_size)
      else
        bounce ← get_bounce bounce;
        if bounce =? 0 then mret written else
        b ← (if (0 <? sector_ofs) || (chunk_size <? sector_left) then block_read sector_idx
             else mret (replicate 512 0));
        block_write sector_idx (splice sector_ofs data b);;
        write_loop n' i rest (size - chunk_size) (offset + chunk_size) bounce (written + chunk_size)
  end.

(** [buffer]: the [size] bytes to write; returns the number written *)
Definition inode_write_at (p : Z) (buffer : list Z) (size offset : Z) : F Z :=
  i ← get_inode p;
  if negb (i.(deny_write_cnt) =? 0) then mret 0
  else write_loop (turns size) i buffer size offset 0 0.

Definition inode_length (p : Z) : F Z := i ← get_inode p; mret i.(ilength).

Definition inode_get_inumber (p : Z) : F Z := i ← get_inode p; mret i.(sector).

Definition inode_reopen (p : Z) : F Z :=
  if p =? 0 then mret p else
  i ← get_inode p;
  put_inode p (mk_inode i.(sector) (i.(open_cnt) + 1) i.(removed) i.(deny_write_cnt) i.(start) i.(ilength));; mret p.

(** the loop over the open inodes *)
Fixpoint find_open (sec : Z) (l : list Z) : F Z :=
  match l with
  | [] => mret 0
  | p :: r => i ← get_inode p; if i.(sector) =? sec then mret p else find_open sec r
  end.

Definition inode_open (sec : Z) : F Z :=
  s ← get;
  p ← find_open sec s.(open_inodes);
  if negb (p =? 0) then inode_reopen p else
  p ← alloc;
  if p =? 0 then mret 0 else
  modify (λ s, set_inodes s.(inodes) (p :: s.(open_inodes)) s);;
  d ← block_read sec;
  '(st, len) ← lift_out (decode_inode d);
  put_inode p (mk_inode sec 1 false 0 st len);; mret p.

Definition inode_remove (p : Z) : F unit :=
  i ← get_inode p;
  put_inode p (mk_inode i.(sector) i.(open_cnt) true i.(deny_write_cnt) i.(start) i.(ilength)).

Definition inode_deny_write (p : Z) : F unit :=
  i ← get_inode p;
  let c := i.(deny_write_cnt) + 1 in
  put_inode p (mk_inode i.(sector) i.(open_cnt) i.(removed) c i.(start) i.(ilength));;
  assert (c <=? i.(open_cnt)).

Definition inode_allow_write (p : Z) : F unit :=
  i ← get_inode p;
  assert (0 <? i.(deny_write_cnt));; assert (i.(deny_write_cnt) <=? i.(open_cnt));;
  put_inode p (mk_inode i.(sector) i.(open_cnt) i.(removed) (i.(deny_write_cnt) - 1) i.(start) i.(ilength)).

(** * The free map *)

(** [bitmap_write (free_map, free_map_file)] *)
Definition write_free_map : F bool :=
  s ← get;
  f ← get_file s.(free_map_file);
  let size := bitmap_file_size s.(free_map) in
  n ← inode_write_at f.(finode) (bits_bytes s.(free_map).(bits)) size 0;
  mret (n =? size).

(** [None] if there is no room *)
Definition free_map_allocate (cnt : Z) : F (option Z) :=
  s ← get;
  '(sec, b) ← lift_out (bitmap_scan_and_flip s.(free_map) 0 cnt false);
  modify (set_free_map b);;
  if sec =? BITMAP_ERROR then mret None
  else if s.(free_map_file) =? 0 then mret (Some sec)
  else
    ok ← write_free_map;
    if (ok : bool) then mret (Some sec)
    else
      b' ← lift_out (bitmap_set_multiple b sec cnt false);
      modify (set_free_map b');; mret None.

Definition free_map_release (sec cnt : Z) : F unit :=
  s ← get;
  a ← lift_out (bitmap_all s.(free_map) sec cnt);
  assert a;;
  b ← lift_out (bitmap_set_multiple s.(free_map) sec cnt false);
  modify (set_free_map b);;
  write_free_map;; mret tt.

(** ** Creating and closing inodes *)

Fixpoint zero_sectors (start : Z) (n : nat) : F unit :=
  match n with
  | O => mret tt
  | S n' => block_write start (replicate 512 0);; zero_sectors (start + 1) n'
  end.

Definition inode_create (sec length : Z) : F bool :=
  assert (0 <=? length);;
  d ← alloc;
  if d =? 0 then mret false else
  let sectors := bytes_to_sectors length in
  st ← free_map_allocate sectors;
  match st with
  | None => mret false
  | Some st =>
      block_write sec (encode_inode st length);;
      zero_sectors st (Z.to_nat sectors);; mret true
  end.

Definition inode_close (p : Z) : F unit :=
  if p =? 0 then mret tt else
  i ← get_inode p;
  let c := i.(open_cnt) - 1 in
  put_inode p (mk_inode i.(sector) c i.(removed) i.(deny_write_cnt) i.(start) i.(ilength));;
  if c =? 0 then
    modify (λ s, set_inodes s.(inodes) (filter (λ q, q ≠ p) s.(open_inodes)) s);;
    (if i.(removed) then
       free_map_release i.(sector) 1;; free_map_release i.(start) (bytes_to_sectors i.(ilength))
     else mret tt);;
    modify (λ s, set_inodes (delete p s.(inodes)) s.(open_inodes) s)
  else mret tt.

(** * Open files *)

Definition file_open (ino : Z) : F Z :=
  f ← alloc;
  if negb (ino =? 0) && negb (f =? 0) then put_file f (mk_file ino 0 false);; mret f
  else inode_close ino;; mret 0.

Definition file_reopen (f : Z) : F Z := x ← get_file f; p ← inode_reopen x.(finode); file_open p.

Definition file_allow_write (f : Z) : F unit :=
  x ← get_file f;
  if x.(deny_write) then put_file f (mk_file x.(finode) x.(pos) false);; inode_allow_write x.(finode) else mret tt.

Definition file_deny_write (f : Z) : F unit :=
  x ← get_file f;
  if x.(deny_write) then mret tt
  else put_file f (mk_file x.(finode) x.(pos) true);; inode_deny_write x.(finode).

Definition file_close (f : Z) : F unit :=
  if f =? 0 then mret tt else
  file_allow_write f;;
  x ← get_file f;
  inode_close x.(finode);;
  modify (λ s, set_files (delete f s.(files)) s).

Definition file_get_inode (f : Z) : F Z := x ← get_file f; mret x.(finode).

Definition file_read (f size : Z) : F (list Z) :=
  x ← get_file f;
  l ← inode_read_at x.(finode) size x.(pos);
  put_file f (mk_file x.(finode) (x.(pos) + Z.of_nat (length l)) x.(deny_write));; mret l.

Definition file_read_at (f size file_ofs : Z) : F (list Z) := x ← get_file f; inode_read_at x.(finode) size file_ofs.

Definition file_write (f : Z) (buffer : list Z) (size : Z) : F Z :=
  x ← get_file f;
  n ← inode_write_at x.(finode) buffer size x.(pos);
  put_file f (mk_file x.(finode) (x.(pos) + n) x.(deny_write));; mret n.

Definition file_write_at (f : Z) (buffer : list Z) (size file_ofs : Z) : F Z :=
  x ← get_file f; inode_write_at x.(finode) buffer size file_ofs.

Definition file_length (f : Z) : F Z := x ← get_file f; inode_length x.(finode).

Definition file_seek (f new_pos : Z) : F unit :=
  x ← get_file f; assert (0 <=? new_pos);; put_file f (mk_file x.(finode) new_pos x.(deny_write)).

Definition file_tell (f : Z) : F Z := x ← get_file f; mret x.(pos).

(** * The free map's file *)

(** [bitmap_create] of a bit per sector; [init] is what its words hold before *)
Definition free_map_init (init : nat → Z) : F unit :=
  s ← get;
  let n := Z.of_nat (length s.(disk)) in
  b ← lift_out (bitmap_create n true true (init <$> seq 0 (Z.to_nat (elem_cnt n))));
  match b with
  | None => fail AssertFail
  | Some b =>
      b ← lift_out (bitmap_mark b FREE_MAP_SECTOR);
      b ← lift_out (bitmap_mark b ROOT_DIR_SECTOR);
      modify (set_free_map b)
  end.

Definition free_map_open : F unit :=
  p ← inode_open FREE_MAP_SECTOR;
  f ← file_open p;
  modify (set_free_map_file f);;
  assert (negb (f =? 0));;
  s ← get;
  got ← file_read_at f (bitmap_file_size s.(free_map)) 0;
  '(ok, b) ← lift_out (bitmap_read s.(free_map) got);
  modify (set_free_map b);; assert ok.

Definition free_map_close : F unit := s ← get; file_close s.(free_map_file).

Definition free_map_create : F unit :=
  s ← get;
  ok ← inode_create FREE_MAP_SECTOR (bitmap_file_size s.(free_map));
  assert ok;;
  p ← inode_open FREE_MAP_SECTOR;
  f ← file_open p;
  modify (set_free_map_file f);;
  assert (negb (f =? 0));;
  ok ← write_free_map;
  assert ok.

(** * A disk as one array of bytes *)

Definition sectors_ok (d : list (list Z)) : Prop := Forall (λ l, length l = 512%nat) d.

Definition flat (d : list (list Z)) : list Z := mjoin d.

(** [l] over [b] from [ofs] on *)
Definition over (ofs : nat) (l b : list Z) : list Z := take ofs b ++ l ++ drop (ofs + length l) b.

Lemma flat_cons l d : flat (l :: d) = l ++ flat d.
Proof. done. Qed.

Lemma flat_app d1 d2 : flat (d1 ++ d2) = flat d1 ++ flat d2.
Proof. apply join_app. Qed.

Lemma length_flat d : sectors_ok d → length (flat d) = (512 * length d)%nat.
Proof. induction 1 as [|l d Hl _ IH]; [done|]. rewrite flat_cons, length_app, IH, Hl. cbn [length]. lia. Qed.

Lemma flat_split d k l : sectors_ok d → d !! k = Some l →
  flat d = flat (take k d) ++ l ++ flat (drop (S k) d) ∧ length (flat (take k d)) = (512 * k)%nat ∧ length l = 512%nat.
Proof.
  intros Hd Hk. split_and!; [| |by eapply (Forall_lookup_1 _ _ _ _ Hd)].
  - rewrite <- (take_drop_middle d k l Hk) at 1. by rewrite flat_app, flat_cons.
  - rewrite length_flat by by apply Forall_take.
    rewrite length_take. apply lookup_lt_Some in Hk. f_equal. lia.
Qed.

Lemma flat_sector d k l ofs c : sectors_ok d → d !! k = Some l → (ofs + c ≤ 512)%nat →
  take c (drop ofs l) = take c (drop (512 * k + ofs) (flat d)).
Proof.
  intros Hd Hk Hc. destruct (flat_split d k l Hd Hk) as (-> & Hl & Hl').
  rewrite <- Hl, drop_app_add. rewrite drop_app_le by lia. rewrite take_app_le; [done|]. rewrite length_drop. lia.
Qed.

Lemma flat_insert d k l ofs data : sectors_ok d → d !! k = Some l → (ofs + length data ≤ 512)%nat →
  flat (<[k := over ofs data l]> d) = over (512 * k + ofs) data (flat d) ∧ sectors_ok (<[k := over ofs data l]> d).
Proof.
  intros Hd Hk Hc. destruct (flat_split d k l Hd Hk) as (E & Hl & Hl').
  assert (Ho : length (over ofs data l) = 512%nat).
  { unfold over. rewrite !length_app, length_take, length_drop. lia. }
  split; [|by apply Forall_insert].
  assert (Hlt : (k < length d)%nat) by by eapply lookup_lt_Some.
  rewrite insert_take_drop by done. rewrite flat_app, flat_cons.
  rewrite E. unfold over. rewrite <- Hl, take_app_add, <- Nat.add_assoc, drop_app_add.
  rewrite take_app_le by lia. rewrite drop_app_le by lia. by rewrite <- !app_assoc.
Qed.

(** ** Reading and writing an inode's bytes *)

(** the inode's sectors are on the disk *)
Record fits (d : list (list Z)) (i : inode) : Prop := {
  fit_sectors : sectors_ok d;
  fit_size : Z.of_nat (length d) < 2 ^ 32;
  fit_start : 0 ≤ i.(start);
  fit_len : 0 ≤ i.(ilength);
  fit_end : 512 * i.(start) + i.(ilength) ≤ 512 * Z.of_nat (length d)
}.

(** the bytes of an inode *)
Definition content (d : list (list Z)) (i : inode) : list Z :=
  take (Z.to_nat i.(ilength)) (drop (Z.to_nat (512 * i.(start))) (flat d)).

(** how many of [size] bytes from [offset] on an inode has *)
Definition avail (i : inode) (size offset : Z) : Z := Z.max 0 (Z.min size (i.(ilength) - offset)).

(** where byte [offset] of an inode is on the disk *)
Definition addr (i : inode) (offset : Z) : nat := Z.to_nat (512 * i.(start) + offset).

Lemma chunk_spec d i size offset : fits d i → 0 ≤ offset → 0 < avail i size offset →
  ∃ k l c, chunk i size offset = (Z.of_nat k, offset mod 512, 512 - offset mod 512, c) ∧
    d !! k = Some l ∧ 0 < c ≤ avail i size offset ∧ offset mod 512 + c ≤ 512 ∧
    (c = avail i size offset ∨ offset mod 512 + c = 512) ∧
    addr i offset = (512 * k + Z.to_nat (offset mod 512))%nat.
Proof.
  intros [Hs Hd Hst Hl He] Ho Ha. unfold avail in *. pose proof (Z.mod_pos_bound offset 512 ltac:(lia)) as Hm.
  pose proof (Z.div_mod offset 512 ltac:(lia)) as Hdm. pose proof (Z.div_pos offset 512 Ho ltac:(lia)) as Hq.
  unfold chunk, byte_to_sector, BLOCK_SECTOR_SIZE. rewrite Z.rem_mod_nonneg, Z.quot_div_nonneg by lia.
  destruct (Z.ltb_spec offset (ilength i)); [|lia].
  assert (Hk : start i + offset / 512 < Z.of_nat (length d)) by lia. rewrite u32_small by lia.
  destruct (lookup_lt_is_Some_2 d (Z.to_nat (start i + offset / 512))) as [l El]; [lia|].
  exists (Z.to_nat (start i + offset / 512)), l.
  set (ml := if ilength i - offset <? 512 - offset mod 512 then ilength i - offset else 512 - offset mod 512).
  assert (Hml : ml = Z.min (ilength i - offset) (512 - offset mod 512))
    by (unfold ml; destruct (Z.ltb_spec (ilength i - offset) (512 - offset mod 512)); lia).
  exists (if size <? ml then size else ml). rewrite Z2Nat.id by lia.
  assert (Hc : (if size <? ml then size else ml) = Z.min size ml) by (destruct (Z.ltb_spec size ml); lia).
  rewrite Hc. split_and!; [done|done|lia|lia|lia|lia|]. unfold addr. lia.
Qed.

Lemma chunk_none i size offset : avail i size offset = 0 → 0 < size → 0 ≤ offset →
  ∃ a b c e, chunk i size offset = (a, b, c, e) ∧ e ≤ 0.
Proof.
  intros Ha Hs Ho. unfold chunk, avail in *. eexists _, _, _, _. split; [done|].
  pose proof (Z.rem_bound_pos offset BLOCK_SECTOR_SIZE Ho ltac:(done)).
  destruct (Z.ltb_spec (ilength i - offset) (BLOCK_SECTOR_SIZE - Z.rem offset BLOCK_SECTOR_SIZE));
    destruct (Z.ltb_spec size (ilength i - offset)); try lia;
    destruct (Z.ltb_spec size (BLOCK_SECTOR_SIZE - Z.rem offset BLOCK_SECTOR_SIZE)); lia.
Qed.

Lemma block_read_eq s k l : s.(disk) !! k = Some l → block_read (Z.of_nat k) s = Ok (l, s).
Proof.
  intros E. unfold block_read, check_sector. erewrite bind_ok.
  2: { erewrite bind_ok by done. assert (k < length s.(disk))%nat by by eapply lookup_lt_Some.
       by destruct (Z.ltb_spec (Z.of_nat k) (Z.of_nat (length s.(disk)))); [|lia]. }
  erewrite bind_ok by done. by rewrite Nat2Z.id, E.
Qed.

Lemma block_write_eq s k l b : s.(disk) !! k = Some l →
  block_write (Z.of_nat k) b s = Ok (tt, set_disk (<[k := b]> s.(disk)) s).
Proof.
  intros E. unfold block_write, check_sector. erewrite bind_ok.
  2: { erewrite bind_ok by done. assert (k < length s.(disk))%nat by by eapply lookup_lt_Some.
       by destruct (Z.ltb_spec (Z.of_nat k) (Z.of_nat (length s.(disk)))); [|lia]. }
  by rewrite Nat2Z.id.
Qed.

(** the state after a call that may have allocated *)
Definition heaped (s s' : fstate) : Prop := ∃ n, 0 < n ∧ s' = set_heap n [] s.

Lemma get_bounce_eq s b : s.(allocs) = [] → 0 < s.(next_ptr) → 0 ≤ b →
  ∃ b' s', get_bounce b s = Ok (b', s') ∧ 0 < b' ∧ heaped s s'.
Proof.
  intros Ha Hn Hb. unfold get_bounce. destruct (Z.eqb_spec b 0) as [->|].
  - unfold alloc. erewrite bind_ok by done. rewrite Ha. eexists _, _. split; [done|]. split; [done|].
    exists (next_ptr s + 1). split; [lia|done].
  - exists b, s. split; [done|]. split; [lia|]. exists (next_ptr s). split; [done|]. destruct s; simpl in *. by subst.
Qed.

Lemma heaped_refl s : s.(allocs) = [] → 0 < s.(next_ptr) → heaped s s.
Proof. intros Ha Hn. exists (next_ptr s). split; [done|]. destruct s; simpl in *. by subst. Qed.

Lemma heaped_trans s1 s2 s3 : heaped s1 s2 → heaped s2 s3 → heaped s1 s3.
Proof. intros (n & _ & ->) (n' & ? & ->). by exists n'. Qed.

Lemma read_loop_spec n i size offset bounce acc s : fits s.(disk) i → s.(allocs) = [] → 0 < s.(next_ptr) → 0 ≤ bounce →
  0 ≤ offset → (0 < avail i size offset → offset mod 512 + avail i size offset ≤ 512 * (Z.of_nat n - 1)) → (0 < n)%nat →
  ∃ s', read_loop n i size offset bounce acc s =
      Ok (acc ++ take (Z.to_nat (avail i size offset)) (drop (addr i offset) (flat s.(disk))), s') ∧ heaped s s'.
Proof.
  revert size offset bounce acc s. induction n as [|n IH]; intros size offset bounce acc s Hf Ha Hn Hb Ho Hfuel Hn0; [lia|].
  cbn [read_loop]. destruct (Z.ltb_spec 0 size) as [Hsz|]; cbn [negb]; cbv iota.
  2: { exists s. split; [|by apply heaped_refl]. unfold avail. replace (Z.to_nat _) with 0%nat by lia.
       by rewrite take_0, app_nil_r. }
  destruct (decide (avail i size offset = 0)) as [Hz|Hz].
  { destruct (chunk_none i size offset Hz Hsz Ho) as (x & y & z & e & -> & He). destruct (Z.leb_spec e 0); [|lia].
    exists s. split; [|by apply heaped_refl]. rewrite Hz. by rewrite take_0, app_nil_r. }
  assert (Hpos : 0 < avail i size offset) by (unfold avail in *; lia).
  destruct (chunk_spec s.(disk) i size offset Hf Ho Hpos) as (k & l & c & -> & El & Hc & Hle & Hcase & Haddr). cbv iota zeta.
  destruct (Z.leb_spec c 0); [lia|].
  assert (Hmod := Z.mod_pos_bound offset 512 ltac:(lia)).
  assert (Hget : take (Z.to_nat c) (drop (Z.to_nat (offset mod 512)) l) = take (Z.to_nat c) (drop (addr i offset) (flat s.(disk)))).
  { rewrite Haddr. apply flat_sector; [apply Hf|done|lia]. }
  assert (Hav : avail i (size - c) (offset + c) = avail i size offset - c) by (unfold avail in *; lia).
  assert (Hadd : addr i (offset + c) = (addr i offset + Z.to_nat c)%nat).
  { unfold addr. pose proof (fit_start _ _ Hf). lia. }
  assert (Hfuel' : 0 < avail i (size - c) (offset + c) →
    (offset + c) mod 512 + avail i (size - c) (offset + c) ≤ 512 * (Z.of_nat n - 1)).
  { rewrite Hav. intros Hp. specialize (Hfuel Hpos). destruct Hcase as [?|Hc512]; [lia|].
    replace ((offset + c) mod 512) with 0; [lia|]. rewrite <- Zplus_mod_idemp_l, Hc512. done. }
  specialize (Hfuel Hpos).
  assert (Hstep : ∀ bounce' s1, heaped s s1 → 0 ≤ bounce' →
    ∃ s', read_loop n i (size - c) (offset + c) bounce'
            (acc ++ take (Z.to_nat c) (drop (Z.to_nat (offset mod 512)) l)) s1 =
      Ok (acc ++ take (Z.to_nat (avail i size offset)) (drop (addr i offset) (flat s.(disk))), s') ∧ heaped s s').
  { intros bounce' s1 (np & Hnp & ->) Hb'.
    destruct (IH (size - c) (offset + c) bounce' (acc ++ take (Z.to_nat c) (drop (Z.to_nat (offset mod 512)) l))
                (set_heap np [] s)) as (s' & E & Hh); [done|done|done|done|lia|by apply Hfuel'|lia|].
    exists s'. split; [|by apply (heaped_trans s (set_heap np [] s)); [exists np|]]. rewrite E. simpl disk.
    rewrite <- app_assoc, Hav, Hadd, Hget. f_equal. f_equal. f_equal.
    replace (Z.to_nat (avail i size offset)) with (Z.to_nat c + Z.to_nat (avail i size offset - c))%nat by lia.
    by rewrite <- drop_drop, take_take_drop. }
  destruct ((offset mod 512 =? 0) && (c =? BLOCK_SECTOR_SIZE)) eqn:Efull.
  - apply andb_true_iff in Efull as [Hm0%Z.eqb_eq ->%Z.eqb_eq].
    rewrite (bind_ok _ _ _ _ _ (block_read_eq s k l El)).
    destruct (Hstep bounce s (heaped_refl s Ha Hn) Hb) as (s' & E & Hh). exists s'. split; [|done].
    rewrite <- E. rewrite Hm0, drop_0, take_ge; [done|]. unfold BLOCK_SECTOR_SIZE.
    destruct (flat_split _ _ _ (fit_sectors _ _ Hf) El) as (_ & _ & ->). lia.
  - destruct (get_bounce_eq s bounce Ha Hn Hb) as (b' & s1 & Eb & Hb' & Hh1). rewrite (bind_ok _ _ _ _ _ Eb).
    destruct (Z.eqb_spec b' 0); [lia|]. destruct Hh1 as (np & Hnp & ->).
    rewrite (bind_ok _ _ _ _ _ (block_read_eq (set_heap np [] s) k l El)). apply Hstep; [by exists np|lia].
Qed.

Lemma length_content d i : fits d i → length (content d i) = Z.to_nat i.(ilength).
Proof.
  intros [Hs Hd Hst Hl He]. unfold content. rewrite length_take, length_drop, length_flat by done. lia.
Qed.

Lemma content_lookup d i k : fits d i → content d i !! k =
  if decide (Z.of_nat k < i.(ilength)) then flat d !! (Z.to_nat (512 * i.(start)) + k)%nat else None.
Proof.
  intros Hf. unfold content. destruct (decide _).
  - rewrite lookup_take_lt by lia. by rewrite lookup_drop.
  - apply lookup_take_ge. lia.
Qed.

Lemma content_range d i size offset : fits d i → 0 ≤ offset →
  take (Z.to_nat (avail i size offset)) (drop (addr i offset) (flat d)) =
  take (Z.to_nat size) (drop (Z.to_nat offset) (content d i)).
Proof.
  intros Hf Ho. apply list_eq. intros k. rewrite !lookup_take, !lookup_drop, content_lookup by done.
  unfold avail, addr. pose proof (fit_start _ _ Hf).
  destruct (decide (k < Z.to_nat (Z.max 0 (Z.min size (ilength i - offset))))%nat) as [H1|H1].
  - rewrite !decide_True by lia. f_equal. lia.
  - destruct (decide (k < Z.to_nat size)%nat); [|done]. rewrite decide_False by lia. done.
Qed.

Lemma turns_enough i size offset : 0 ≤ size → 0 ≤ offset →
  offset mod 512 + avail i size offset ≤ 512 * (Z.of_nat (turns size) - 1) ∧ (0 < turns size)%nat.
Proof.
  intros Hs Ho. unfold turns, avail, BLOCK_SECTOR_SIZE. pose proof (Z.mod_pos_bound offset 512 ltac:(lia)).
  pose proof (Z.div_mod size 512 ltac:(lia)). pose proof (Z.mod_pos_bound size 512 ltac:(lia)).
  pose proof (Z.div_pos size 512 Hs ltac:(lia)). lia.
Qed.

Lemma get_inode_eq s p i : s.(inodes) !! p = Some i → get_inode p s = Ok (i, s).
Proof. intros E. unfold get_inode. erewrite bind_ok by done. by rewrite E. Qed.

Lemma inode_read_at_eq s p i size offset : s.(inodes) !! p = Some i → fits s.(disk) i → s.(allocs) = [] → 0 < s.(next_ptr) →
  0 ≤ size → 0 ≤ offset →
  ∃ s', inode_read_at p size offset s = Ok (take (Z.to_nat size) (drop (Z.to_nat offset) (content s.(disk) i)), s') ∧
    heaped s s'.
Proof.
  intros Ei Hf Ha Hn Hs Ho. unfold inode_read_at. rewrite (bind_ok _ _ _ _ _ (get_inode_eq _ _ _ Ei)).
  destruct (turns_enough i size offset Hs Ho).
  destruct (read_loop_spec (turns size) i size offset 0 [] s Hf Ha Hn) as (s' & -> & Hh); [done|done|done|done|].
  exists s'. split; [|done]. by rewrite app_nil_l, content_range.
Qed.

(** ** Writing *)

Lemma over_nil a b : over a [] b = b.
Proof. unfold over. simpl. rewrite Nat.add_0_r. apply take_drop. Qed.

Lemma over_over a l1 l2 b : (a ≤ length b)%nat → over (a + length l1) l2 (over a l1 b) = over a (l1 ++ l2) b.
Proof.
  intros Ha. unfold over. assert (E : length (take a b) = a) by (rewrite length_take; lia).
  rewrite <- E at 1. rewrite take_app_add. rewrite take_app_length.
  rewrite <- E at 2. rewrite <- Nat.add_assoc, drop_app_add, drop_app_add, drop_drop, length_app, <- !app_assoc.
  do 4 f_equal. lia.
Qed.

Lemma fits_same d d' i : fits d i → sectors_ok d' → length d' = length d → fits d' i.
Proof. intros [] Hs Hl. split; by rewrite ?Hl. Qed.

Lemma heaped_disk s s' d : heaped s s' → heaped (set_disk d s) (set_disk d s').
Proof. intros (n & Hn & ->). by exists n. Qed.

(** one turn's write *)
Lemma write_chunk s i offset k l c data : fits s.(disk) i → s.(disk) !! k = Some l →
  offset mod 512 + c ≤ 512 → 0 < c → 0 ≤ offset → length data = Z.to_nat c →
  addr i offset = (512 * k + Z.to_nat (offset mod 512))%nat →
  let d' := <[k := splice (offset mod 512) data l]> s.(disk) in
  flat d' = over (addr i offset) data (flat s.(disk)) ∧ fits d' i ∧ length d' = length s.(disk).
Proof.
  intros Hf El Hle Hc Ho Hlen Haddr d'. pose proof (Z.mod_pos_bound offset 512 ltac:(lia)).
  destruct (flat_insert s.(disk) k l (Z.to_nat (offset mod 512)) data) as [Hfl Hok]; [apply Hf|done|lia|].
  rewrite Haddr. unfold d'. split; [done|]. rewrite length_insert. split; [|done].
  eapply fits_same; [done|done|by rewrite length_insert].
Qed.

Lemma write_loop_spec n i buffer size offset bounce written s : fits s.(disk) i → s.(allocs) = [] → 0 < s.(next_ptr) →
  0 ≤ bounce → 0 ≤ offset → avail i size offset ≤ Z.of_nat (length buffer) →
  (0 < avail i size offset → offset mod 512 + avail i size offset ≤ 512 * (Z.of_nat n - 1)) → (0 < n)%nat →
  ∃ s' d', write_loop n i buffer size offset bounce written s = Ok (written + avail i size offset, s') ∧
    heaped (set_disk d' s) s' ∧ sectors_ok d' ∧ length d' = length s.(disk) ∧
    flat d' = over (addr i offset) (take (Z.to_nat (avail i size offset)) buffer) (flat s.(disk)).
Proof.
  revert buffer size offset bounce written s.
  induction n as [|n IH]; intros buffer size offset bounce written s Hf Ha Hn Hb Ho Hbuf Hfuel Hn0; [lia|].
  assert (Hdone : avail i size offset = 0 → ∃ s' d', Ok (written, s) = Ok (written + avail i size offset, s') ∧
    heaped (set_disk d' s) s' ∧ sectors_ok d' ∧ length d' = length s.(disk) ∧
    flat d' = over (addr i offset) (take (Z.to_nat (avail i size offset)) buffer) (flat s.(disk))).
  { intros Hz. exists s, s.(disk). rewrite Hz, take_0, over_nil, Z.add_0_r. split_and!; [done| |apply Hf|done|done].
    replace (set_disk s.(disk) s) with s by (by destruct s). by apply heaped_refl. }
  cbn [write_loop]. destruct (Z.ltb_spec 0 size) as [Hsz|]; cbn [negb]; cbv iota; [|apply Hdone; unfold avail; lia].
  destruct (decide (avail i size offset = 0)) as [Hz|Hz].
  { destruct (chunk_none i size offset Hz Hsz Ho) as (x & y & z & e & -> & He). cbv iota zeta.
    destruct (Z.leb_spec e 0); [|lia]. by apply Hdone. }
  clear Hdone. assert (Hpos : 0 < avail i size offset) by (unfold avail in *; lia). specialize (Hfuel Hpos).
  destruct (chunk_spec s.(disk) i size offset Hf Ho Hpos) as (k & l & c & -> & El & Hc & Hle & Hcase & Haddr). cbv iota zeta.
  destruct (Z.leb_spec c 0); [lia|]. assert (Hmod := Z.mod_pos_bound offset 512 ltac:(lia)).
  set (data := take (Z.to_nat c) buffer). assert (Hdl : length data = Z.to_nat c) by (unfold data; rewrite length_take; lia).
  destruct (write_chunk s i offset k l c data Hf El Hle ltac:(lia) Ho Hdl Haddr) as (Hfl & Hf' & Hlen').
  set (d1 := <[k := splice (offset mod 512) data l]> s.(disk)) in *.
  assert (Hav : avail i (size - c) (offset + c) = avail i size offset - c) by (unfold avail in *; lia).
  assert (Hstep : ∀ bounce' s1, heaped s s1 → 0 ≤ bounce' →
    ∃ s' d', write_loop n i (drop (Z.to_nat c) buffer) (size - c) (offset + c) bounce' (written + c) (set_disk d1 s1) =
      Ok (written + avail i size offset, s') ∧
    heaped (set_disk d' s) s' ∧ sectors_ok d' ∧ length d' = length s.(disk) ∧
    flat d' = over (addr i offset) (take (Z.to_nat (avail i size offset)) buffer) (flat s.(disk))).
  { intros bounce' s1 (np & Hnp & ->) Hb'.
    destruct (IH (drop (Z.to_nat c) buffer) (size - c) (offset + c) bounce' (written + c) (set_disk d1 (set_heap np [] s)))
      as (s' & d' & E & (np' & Hnp' & ->) & Hok & Hl & Hfl'); [done|done|done|done|lia|..|lia|].
    - rewrite length_drop. lia.
    - rewrite Hav. intros Hp. destruct Hcase as [?|Hc512]; [lia|].
      replace ((offset + c) mod 512) with 0; [lia|]. by rewrite <- Zplus_mod_idemp_l, Hc512.
    - eexists _, d'. split_and!; [rewrite E, Hav; do 2 f_equal; lia|by exists np'|done|by rewrite Hl|].
      rewrite Hfl'. simpl disk. rewrite Hfl, Hav.
      replace (addr i (offset + c)) with (addr i offset + length data)%nat
        by (unfold addr; pose proof (fit_start _ _ Hf); lia).
      rewrite over_over.
      + f_equal. unfold data. replace (Z.to_nat (avail i size offset)) with (Z.to_nat c + Z.to_nat (avail i size offset - c))%nat by lia.
        by rewrite take_take_drop.
      + rewrite length_flat by apply Hf. unfold addr, avail in *. destruct Hf. lia. }
  destruct ((offset mod 512 =? 0) && (c =? BLOCK_SECTOR_SIZE)) eqn:Efull.
  - apply andb_true_iff in Efull as [Hm0%Z.eqb_eq Hc5%Z.eqb_eq]. unfold BLOCK_SECTOR_SIZE in Hc5.
    rewrite (bind_ok _ _ _ _ _ (block_write_eq s k l _ El)).
    replace (<[k := data]> s.(disk)) with d1; [by apply Hstep; [apply heaped_refl|]|]. unfold d1, splice. rewrite Hm0.
    destruct (flat_split _ _ _ (fit_sectors _ _ Hf) El) as (_ & _ & Hl5). rewrite drop_ge by lia. by rewrite app_nil_r.
  - destruct (get_bounce_eq s bounce Ha Hn Hb) as (b' & s1 & Eb & Hb' & (np & Hnp & ->)). rewrite (bind_ok _ _ _ _ _ Eb).
    destruct (Z.eqb_spec b' 0); [lia|].
    assert (Hread : (0 <? offset mod 512) || (c <? 512 - offset mod 512) = true).
    { apply andb_false_iff in Efull. unfold BLOCK_SECTOR_SIZE in Efull. rewrite !Z.eqb_neq in Efull.
      destruct (Z.ltb_spec 0 (offset mod 512)); [done|]. by destruct (Z.ltb_spec c (512 - offset mod 512)); [|lia]. }
    rewrite Hread. rewrite (bind_ok _ _ _ _ _ (block_read_eq (set_heap np [] s) k l El)).
    rewrite (bind_ok _ _ _ _ _ (block_write_eq (set_heap np [] s) k l _ El)).
    apply Hstep; [by exists np|lia].
Qed.

Lemma over_lookup a l b k : (a + length l ≤ length b)%nat → over a l b !! k =
  if decide (a ≤ k < a + length l)%nat then l !! (k - a)%nat else b !! k.
Proof.
  intros Hl. unfold over. assert (Ht : length (take a b) = a) by (rewrite length_take; lia).
  destruct (decide (k < a)%nat).
  - rewrite decide_False by lia. rewrite lookup_app_l by lia. by rewrite lookup_take_lt.
  - rewrite lookup_app_r by lia. rewrite Ht. destruct (decide (k < a + length l)%nat).
    + rewrite decide_True by lia. by rewrite lookup_app_l by lia.
    + rewrite decide_False by lia. rewrite lookup_app_r by lia. rewrite lookup_drop. f_equal. lia.
Qed.

Lemma content_over d d' i offset data : fits d i → fits d' i → 0 ≤ offset → offset + Z.of_nat (length data) ≤ i.(ilength) →
  flat d' = over (addr i offset) data (flat d) → content d' i = over (Z.to_nat offset) data (content d i).
Proof.
  intros Hf Hf' Ho Hl E. apply list_eq. intros k. pose proof (length_content d i Hf) as Hlc.
  rewrite over_lookup by lia. rewrite !content_lookup by done.
  pose proof (length_flat d (fit_sectors _ _ Hf)). rewrite E. destruct Hf as [_ _ Hst _ He]. unfold addr in *.
  rewrite over_lookup by lia. destruct (decide (Z.of_nat k < ilength i)).
  - destruct (decide (Z.to_nat offset ≤ k < Z.to_nat offset + length data)%nat).
    + rewrite decide_True by lia. f_equal. lia.
    + by rewrite decide_False by lia.
  - by rewrite decide_False by lia.
Qed.

(** the bytes of two inodes are apart on the disk *)
Definition apart (i j : inode) : Prop :=
  512 * i.(start) + i.(ilength) ≤ 512 * j.(start) ∨ 512 * j.(start) + j.(ilength) ≤ 512 * i.(start).

Lemma content_apart d d' i j offset data : fits d i → fits d j → fits d' j → apart i j → 0 ≤ offset →
  offset + Z.of_nat (length data) ≤ i.(ilength) →
  flat d' = over (addr i offset) data (flat d) → content d' j = content d j.
Proof.
  intros Hf Hj Hj' Hap Ho Hl E. apply list_eq. intros k. rewrite !content_lookup by done. destruct (decide _); [|done].
  pose proof (length_flat d (fit_sectors _ _ Hf)). rewrite E. destruct Hf as [_ _ Hst _ He], Hj as [_ _ Hst' _ _].
  unfold addr, apart in *. rewrite over_lookup by lia. by rewrite decide_False by lia.
Qed.

(** what a write of an inode leaves *)
Record written (s s' : fstate) (i : inode) (offset : Z) (data : list Z) : Prop := {
  wr_rest : ∃ d n, 0 < n ∧ s' = set_heap n [] (set_disk d s);
  wr_len : length s'.(disk) = length s.(disk);
  wr_fits : fits s'.(disk) i;
  wr_content : content s'.(disk) i = over (Z.to_nat offset) data (content s.(disk) i);
  wr_apart : ∀ j, fits s.(disk) j → apart i j → content s'.(disk) j = content s.(disk) j
}.

Lemma inode_write_at_eq s p i buffer offset (size := Z.of_nat (length buffer)) (n := avail i size offset) :
  s.(inodes) !! p = Some i → fits s.(disk) i → s.(allocs) = [] → 0 < s.(next_ptr) → i.(deny_write_cnt) = 0 →
  0 ≤ offset →
  ∃ s', inode_write_at p buffer size offset s = Ok (n, s') ∧ written s s' i offset (take (Z.to_nat n) buffer).
Proof.
  intros Ei Hf Ha Hn Hd Ho. unfold inode_write_at. rewrite (bind_ok _ _ _ _ _ (get_inode_eq _ _ _ Ei)), Hd.
  change (negb (0 =? 0)) with false. cbv iota. destruct (turns_enough i size offset ltac:(lia) Ho).
  assert (Hn0 : 0 ≤ n ≤ size) by (unfold n, avail, size; lia).
  destruct (write_loop_spec (turns size) i buffer size offset 0 0 s Hf Ha Hn) as (s' & d' & -> & (np & Hnp & ->) & Hok & Hl & Hfl);
    [done|done|fold n; lia|done|done|].
  fold n in Hfl |- *. assert (Hf' : fits d' i) by by apply (fits_same s.(disk)).
  destruct (decide (n = 0)) as [Hz|Hz].
  - rewrite Hz in *. simpl take in *. rewrite take_0, over_nil in Hfl.
    exists (set_heap np [] (set_disk d' s)). split; [done|]. split; simpl.
    + by exists d', np.
    + done.
    + done.
    + rewrite take_0, over_nil. unfold content. by rewrite Hfl.
    + intros j _ _. unfold content. by rewrite Hfl.
  - assert (Hdl : offset + Z.of_nat (length (take (Z.to_nat n) buffer)) ≤ ilength i).
    { rewrite length_take. unfold n, avail, size in *. lia. }
    exists (set_heap np [] (set_disk d' s)). split; [done|]. split; simpl.
    + by exists d', np.
    + done.
    + done.
    + by apply content_over.
    + intros j Hj Hap. apply (content_apart s.(disk) d' i j offset (take (Z.to_nat n) buffer)); try done.
      by apply (fits_same s.(disk)).
Qed.

(** * Statements *)

(** C8. an open inode is an array of bytes of fixed length.  [inode_read_at] returns
    the bytes of the range, as far as the inode has them; [inode_write_at] stores the
    bytes that fit, returns their number, changes no other byte of the inode and no
    inode on other sectors.  Both succeed for every offset and size, unless memory
    for the bounce buffer is missing. *)
Theorem inode_refines_bytes s p i : s.(inodes) !! p = Some i → fits s.(disk) i → s.(allocs) = [] → 0 < s.(next_ptr) →
  (∀ size offset, 0 ≤ size → 0 ≤ offset →
     ∃ s', inode_read_at p size offset s = Ok (take (Z.to_nat size) (drop (Z.to_nat offset) (content s.(disk) i)), s') ∧
       heaped s s') ∧
  (∀ buffer offset, i.(deny_write_cnt) = 0 → 0 ≤ offset →
     let n := avail i (Z.of_nat (length buffer)) offset in
     ∃ s', inode_write_at p buffer (Z.of_nat (length buffer)) offset s = Ok (n, s') ∧
       written s s' i offset (take (Z.to_nat n) buffer)).
Proof.
  intros Ei Hf Ha Hn. split.
  - intros size offset Hs Ho. by apply inode_read_at_eq.
  - intros buffer offset Hd Ho. by apply inode_write_at_eq.
Qed.

(** a disk of eight sectors, an inode of 700 bytes from sector 3 *)
Definition ex_inode : inode := mk_inode 2 1 false 0 3 700.
Definition ex_fs : fstate := mk_fstate (replicate 8 (replicate 512 0)) {[ 10 := ex_inode ]} [10] ∅ (mk_bitmap 8 [15]) 0 100 [].

Lemma ex_fits : fits ex_fs.(disk) ex_inode.
Proof.
  split; try (simpl; lia). repeat constructor.
Qed.

Lemma inode_refines_bytes_witness :
  ∃ s', inode_write_at 10 (replicate 600 7) 600 500 ex_fs = Ok (200, s') ∧ written ex_fs s' ex_inode 500 (replicate 200 7).
Proof.
  destruct (inode_refines_bytes ex_fs 10 ex_inode) as [_ Hw]; [reflexivity|exact ex_fits|reflexivity|reflexivity|].
  exact (Hw (replicate 600 7) 500 eq_refl ltac:(lia)).
Defined.

(** bytes written to an inode are read back. *)
Theorem inode_roundtrip s p i buffer offset : s.(inodes) !! p = Some i → fits s.(disk) i → s.(allocs) = [] →
  0 < s.(next_ptr) → i.(deny_write_cnt) = 0 → 0 ≤ offset → offset + Z.of_nat (length buffer) ≤ i.(ilength) →
  ∃ s1 s2, inode_write_at p buffer (Z.of_nat (length buffer)) offset s = Ok (Z.of_nat (length buffer), s1) ∧
    inode_read_at p (Z.of_nat (length buffer)) offset s1 = Ok (buffer, s2).
Proof.
  intros Ei Hf Ha Hn Hd Ho Hl. destruct (inode_write_at_eq s p i buffer offset Ei Hf Ha Hn Hd Ho) as (s1 & E1 & W).
  assert (Hav : avail i (Z.of_nat (length buffer)) offset = Z.of_nat (length buffer)) by (unfold avail; lia).
  rewrite Hav in E1, W. destruct W as [(d & n & Hnp & ->) Hlen Hf1 Hc _].
  destruct (inode_read_at_eq (set_heap n [] (set_disk d s)) p i (Z.of_nat (length buffer)) offset) as (s2 & E2 & _);
    [done|done|done|done|lia|done|].
  exists (set_heap n [] (set_disk d s)), s2. split; [done|]. rewrite E2, Hc. f_equal. f_equal.
  pose proof (length_content _ _ Hf). rewrite !Nat2Z.id, (take_ge buffer) by lia. unfold over.
  rewrite drop_app_length' by (rewrite length_take; lia). by rewrite take_app_length.
Qed.

Lemma inode_roundtrip_witness :
  ∃ s1 s2, inode_write_at 10 (replicate 600 7) 600 100 ex_fs = Ok (600, s1) ∧ inode_read_at 10 600 100 s1 = Ok (replicate 600 7, s2).
Proof.
  apply (inode_roundtrip ex_fs 10 ex_inode (replicate 600 7) 100); [reflexivity|exact ex_fits|reflexivity|reflexivity|reflexivity|lia|].
  vm_compute. congruence.
Defined.
