(* ===== verification/OpenFiles.v ===== *)
(** filesys/file.c and filesys/inode.c: the reference counts.

    An inode is shared by the files that are open on it; [open_cnt] counts them and the
    directories and other users, [deny_write_cnt] those of the files that deny writes.
    The counts decide when the inode is freed and whether the assertions of
    [inode_deny_write] and [inode_allow_write] hold. *)

From S2P Require Import Prelude Bitmap Inode.

(** the files on the inode [ip], and those of them that deny writes *)
Definition opens (m : gmap Z file) (ip : Z) : Z := Z.of_nat (size (filter (λ kv, kv.2.(finode) = ip) m)).
Definition denies (m : gmap Z file) (ip : Z) : Z :=
  Z.of_nat (size (filter (λ kv, kv.2.(finode) = ip ∧ kv.2.(deny_write) = true) m)).

(** [base ip] references to [ip] are not files' *)
Record counted (base : Z → Z) (s : fstate) : Prop := {
  ct_null : s.(files) !! 0 = None;
  ct_file f x : s.(files) !! f = Some x → x.(finode) ≠ 0 ∧ is_Some (s.(inodes) !! x.(finode));
  ct_open ip i : s.(inodes) !! ip = Some i → i.(open_cnt) = base ip + opens s.(files) ip;
  ct_deny ip i : s.(inodes) !! ip = Some i → i.(deny_write_cnt) = denies s.(files) ip;
  ct_base ip : 0 ≤ base ip
}.

(** ** Counting *)

Section count.
Context (P : Z * file → Prop) `{!∀ kv, Decision (P kv)}.
Abbreviation count m := (Z.of_nat (size (filter P m))).

Lemma count_insert (m : gmap Z file) f x : m !! f = None →
  count (<[f := x]> m) = count m + if decide (P (f, x)) then 1 else 0.
Proof.
  intros Hf. destruct (decide (P (f, x))).
  - rewrite map_filter_insert_True by done. rewrite map_size_insert_None; [lia|]. apply map_lookup_filter_None. by left.
  - rewrite map_filter_insert_False, delete_id by done. lia.
Qed.

Lemma count_delete (m : gmap Z file) f x : m !! f = Some x →
  count m = count (delete f m) + if decide (P (f, x)) then 1 else 0.
Proof. intros Hf. rewrite <- (insert_delete_id m f x) at 1 by done. apply count_insert, lookup_delete_eq. Qed.

Lemma count_update (m : gmap Z file) f x y : m !! f = Some x →
  count (<[f := y]> m) = count m - (if decide (P (f, x)) then 1 else 0) + (if decide (P (f, y)) then 1 else 0).
Proof.
  intros Hf. rewrite (count_delete m f x Hf), <- insert_delete_eq. rewrite count_insert by apply lookup_delete_eq. lia.
Qed.
End count.

Lemma denies_opens m ip : 0 ≤ denies m ip ≤ opens m ip.
Proof.
  unfold denies, opens. split; [lia|]. apply inj_le, map_subseteq_size, map_filter_strong_subseteq_ext. naive_solver.
Qed.

Lemma opens_pos m f x : m !! f = Some x → 0 < opens m x.(finode).
Proof.
  intros Hf. unfold opens. rewrite (count_delete _ m f x Hf). rewrite decide_True by done. lia.
Qed.

Lemma denies_pos m f x : m !! f = Some x → x.(deny_write) = true → 0 < denies m x.(finode).
Proof.
  intros Hf Hd. unfold denies. rewrite (count_delete _ m f x Hf). rewrite decide_True by done. lia.
Qed.

(** ** The operations *)

Definition with_counts (o d : Z) (i : inode) : inode := mk_inode i.(sector) o i.(removed) d i.(start) i.(ilength).

(** the change an operation on the file [f] of the inode [ip] makes *)
Record touched (f ip : Z) (s s' : fstate) : Prop := {
  tc_files g : g ≠ f → s'.(files) !! g = s.(files) !! g;
  tc_inodes jp : jp ≠ ip → s'.(inodes) !! jp = s.(inodes) !! jp;
  tc_same i i' : s.(inodes) !! ip = Some i → s'.(inodes) !! ip = Some i' → i' = with_counts i'.(open_cnt) i'.(deny_write_cnt) i;
  tc_disk : s'.(disk) = s.(disk) ∧ s'.(free_map) = s.(free_map) ∧ s'.(free_map_file) = s.(free_map_file)
}.

Lemma touched_trans f ip s1 s2 s3 : is_Some (s2.(inodes) !! ip) → touched f ip s1 s2 → touched f ip s2 s3 → touched f ip s1 s3.
Proof.
  intros [i2 H2] [A1 B1 C1 (D1 & E1 & F1)] [A2 B2 C2 (D2 & E2 & F2)]. split.
  - intros g Hg. by rewrite A2, A1.
  - intros jp Hj. by rewrite B2, B1.
  - intros i i' Hi Hi'. rewrite (C2 _ _ H2 Hi') at 1. rewrite (C1 _ _ Hi H2). by destruct i.
  - rewrite D2, E2, F2. done.
Qed.

Section operations.
Context (base : Z → Z).

Lemma get_file_ok s f x : s.(files) !! f = Some x → get_file f s = Ok (x, s).
Proof. intros H. unfold get_file. erewrite bind_ok by done. by rewrite H. Qed.

Lemma get_inode_ok s p i : s.(inodes) !! p = Some i → get_inode p s = Ok (i, s).
Proof. intros H. unfold get_inode. erewrite bind_ok by done. by rewrite H. Qed.

(** the deny flag of a file and its inode's count change together *)
Lemma counted_deny s f x i (b : bool) : counted base s → s.(files) !! f = Some x → s.(inodes) !! x.(finode) = Some i →
  let d := i.(deny_write_cnt) - Z.b2z x.(deny_write) + Z.b2z b in
  counted base (set_inodes (<[x.(finode) := with_counts i.(open_cnt) d i]> s.(inodes)) s.(open_inodes)
    (set_files (<[f := mk_file x.(finode) x.(pos) b]> s.(files)) s)).
Proof.
  intros [C1 C2 C3 C4 C5] Hx Hi d.
  assert (Ho : ∀ ip, opens (<[f := mk_file (finode x) (pos x) b]> (files s)) ip = opens (files s) ip).
  { intros ip. unfold opens. rewrite (count_update _ _ f x) by done. simpl. destruct (decide _); lia. }
  assert (Hd : ∀ ip, denies (<[f := mk_file (finode x) (pos x) b]> (files s)) ip =
    denies (files s) ip + if decide (finode x = ip) then Z.b2z b - Z.b2z (deny_write x) else 0).
  { intros ip. unfold denies. rewrite (count_update _ _ f x) by done. simpl.
    clear -x. destruct (deny_write x), b; repeat case_decide; simpl; try lia; exfalso; intuition congruence. }
  split; simpl.
  - rewrite lookup_insert_ne; [done|]. intros ->. by rewrite C1 in Hx.
  - intros g y Hg. destruct (decide (f = g)) as [<-|]; [rewrite lookup_insert_eq in Hg; injection Hg as <-|rewrite lookup_insert_ne in Hg by done];
      [destruct (C2 _ _ Hx)|destruct (C2 _ _ Hg)]; (split; [done|]; apply lookup_insert_is_Some'; by right).
  - intros ip j Hj. rewrite Ho. destruct (decide (finode x = ip)) as [<-|].
    + rewrite lookup_insert_eq in Hj. injection Hj as <-. exact (C3 _ _ Hi).
    + rewrite lookup_insert_ne in Hj by done. exact (C3 _ _ Hj).
  - intros ip j Hj. rewrite Hd. destruct (decide (finode x = ip)) as [<-|].
    + rewrite lookup_insert_eq in Hj. injection Hj as <-. pose proof (C4 _ _ Hi). simpl. lia.
    + rewrite lookup_insert_ne in Hj by done. rewrite (C4 _ _ Hj). lia.
  - exact C5.
Qed.

Lemma allow_write_ok s f x : counted base s → s.(files) !! f = Some x →
  ∃ s', file_allow_write f s = Ok (tt, s') ∧ counted base s' ∧ touched f x.(finode) s s' ∧
    s'.(files) !! f = Some (mk_file x.(finode) x.(pos) false) ∧ is_Some (s'.(inodes) !! x.(finode)).
Proof.
  intros C Hx. destruct (ct_file _ _ C _ _ Hx) as (_ & i & Hi). unfold file_allow_write.
  rewrite (bind_ok _ _ _ _ _ (get_file_ok _ _ _ Hx)). destruct (deny_write x) eqn:Hd.
  2: { exists s. rewrite Hx. split_and!; try done; [|destruct x; simpl in *; by subst]. split; try done.
       intros j j' Hj Hj'. rewrite Hj in Hj'. injection Hj' as <-. by destruct j. }
  pose proof (counted_deny s f x i false C Hx Hi) as C'. rewrite Hd in C'. cbn [Z.b2z] in C'. rewrite Z.add_0_r in C'.
  pose proof (denies_pos _ _ _ Hx Hd). pose proof (denies_opens (files s) (finode x)).
  pose proof (ct_open _ _ C _ _ Hi). pose proof (ct_deny _ _ C _ _ Hi). pose proof (ct_base _ _ C (finode x)).
  eexists. split; [|split; [exact C'|]].
  - unfold put_file. erewrite bind_ok by reflexivity. unfold inode_allow_write.
    rewrite (bind_ok _ _ _ _ _ (get_inode_ok (set_files _ s) _ i Hi)).
    rewrite !assert_bind by (first [apply Z.ltb_lt|apply Z.leb_le]; lia). reflexivity.
  - simpl. rewrite !lookup_insert_eq. split; [split; simpl|by eauto].
    + intros g Hg. by rewrite lookup_insert_ne.
    + intros jp Hj. by rewrite lookup_insert_ne.
    + intros j j' Hj Hj'. rewrite lookup_insert_eq in Hj'. rewrite Hi in Hj. injection Hj as <-. injection Hj' as <-. done.
    + done.
Qed.

Lemma deny_write_ok s f x : counted base s → s.(files) !! f = Some x →
  ∃ s', file_deny_write f s = Ok (tt, s') ∧ counted base s' ∧ touched f x.(finode) s s' ∧
    s'.(files) !! f = Some (mk_file x.(finode) x.(pos) true).
Proof.
  intros C Hx. destruct (ct_file _ _ C _ _ Hx) as (_ & i & Hi). unfold file_deny_write.
  rewrite (bind_ok _ _ _ _ _ (get_file_ok _ _ _ Hx)). destruct (deny_write x) eqn:Hd.
  { exists s. split_and!; try done; [|destruct x; simpl in *; by subst]. split; try done.
    intros j j' Hj Hj'. rewrite Hj in Hj'. injection Hj' as <-. by destruct j. }
  pose proof (counted_deny s f x i true C Hx Hi) as C'. rewrite Hd in C'. cbn [Z.b2z] in C'. rewrite Z.sub_0_r in C'.
  eexists. split; [|split; [exact C'|]].
  - unfold put_file. erewrite bind_ok by reflexivity. unfold inode_deny_write.
    rewrite (bind_ok _ _ _ _ _ (get_inode_ok (set_files _ s) _ i Hi)). unfold put_inode. erewrite bind_ok by reflexivity.
    pose proof (ct_open _ _ C' (finode x) _ (lookup_insert_eq _ _ _)) as H1. pose proof (ct_deny _ _ C' (finode x) _ (lookup_insert_eq _ _ _)) as H2.
    pose proof (ct_base _ _ C (finode x)). simpl in H1, H2. pose proof (denies_opens (<[f := mk_file (finode x) (pos x) true]> (files s)) (finode x)).
    unfold assert. destruct (Z.leb_spec (deny_write_cnt i + 1) (open_cnt i)); [reflexivity|lia].
  - simpl. rewrite !lookup_insert_eq. split; [split; simpl|done].
    + intros g Hg. by rewrite lookup_insert_ne.
    + intros jp Hj. by rewrite lookup_insert_ne.
    + intros j j' Hj Hj'. rewrite lookup_insert_eq in Hj'. rewrite Hi in Hj. injection Hj as <-. injection Hj' as <-. done.
    + done.
Qed.

(** a file that allows writes goes, and its inode with the last reference *)
Lemma counted_close s f x i : counted base s → s.(files) !! f = Some x → x.(deny_write) = false → s.(inodes) !! x.(finode) = Some i →
  let c := i.(open_cnt) - 1 in
  counted base (set_files (delete f s.(files)) (if c =? 0
    then set_inodes (delete x.(finode) s.(inodes)) (filter (λ q, q ≠ x.(finode)) s.(open_inodes)) s
    else set_inodes (<[x.(finode) := with_counts c i.(deny_write_cnt) i]> s.(inodes)) s.(open_inodes) s)).
Proof.
  intros [C1 C2 C3 C4 C5] Hx Hd Hi c.
  assert (Ho : ∀ ip, opens (files s) ip = opens (delete f (files s)) ip + if decide (finode x = ip) then 1 else 0).
  { intros ip. unfold opens. by rewrite (count_delete _ _ f x) by done. }
  assert (Hn : ∀ ip, denies (files s) ip = denies (delete f (files s)) ip).
  { intros ip. unfold denies. rewrite (count_delete _ _ f x) by done. rewrite decide_False; [lia|]. simpl. rewrite Hd. by intros []. }
  pose proof (C3 _ _ Hi) as H3. rewrite Ho, decide_True in H3 by done.
  assert (Hfile : ∀ g y, delete f (files s) !! g = Some y → finode y ≠ 0 ∧ is_Some (inodes s !! finode y) ∧ (c = 0 → finode y ≠ finode x)).
  { intros g y Hg. pose proof Hg as [_ Hg']%lookup_delete_Some. destruct (C2 _ _ Hg') as [? ?]. split_and!; try done.
    intros Hc E. pose proof (opens_pos _ _ _ Hg) as Hpos. rewrite E in Hpos. specialize (C5 (finode x)). lia. }
  destruct (Z.eqb_spec c 0) as [Hc|Hc]; split; simpl; try exact C5; try (apply lookup_delete_None; by right).
  - intros g y Hg. destruct (Hfile _ _ Hg) as (? & ? & Hne). split; [done|]. rewrite lookup_delete_ne; [done|]. intros E. by apply Hne.
  - intros ip j [Hne Hj]%lookup_delete_Some. rewrite (C3 _ _ Hj), Ho, decide_False by done. lia.
  - intros ip j [Hne Hj]%lookup_delete_Some. by rewrite (C4 _ _ Hj), Hn.
  - intros g y Hg. destruct (Hfile _ _ Hg) as (? & ? & _). split; [done|]. apply lookup_insert_is_Some'. by right.
  - intros ip j Hj. destruct (decide (finode x = ip)) as [<-|Hne].
    + rewrite lookup_insert_eq in Hj. injection Hj as <-. simpl. lia.
    + rewrite lookup_insert_ne in Hj by done. rewrite (C3 _ _ Hj), Ho, decide_False by done. lia.
  - intros ip j Hj. rewrite <- Hn. destruct (decide (finode x = ip)) as [<-|Hne].
    + rewrite lookup_insert_eq in Hj. injection Hj as <-. exact (C4 _ _ Hi).
    + rewrite lookup_insert_ne in Hj by done. exact (C4 _ _ Hj).
Qed.

Lemma inode_close_eq s ip i : ip ≠ 0 → s.(inodes) !! ip = Some i → i.(removed) = false →
  let c := i.(open_cnt) - 1 in
  inode_close ip s = Ok (tt, if c =? 0 then set_inodes (delete ip s.(inodes)) (filter (λ q, q ≠ ip) s.(open_inodes)) s
    else set_inodes (<[ip := with_counts c i.(deny_write_cnt) i]> s.(inodes)) s.(open_inodes) s).
Proof.
  intros H0 Hi Hr c. unfold inode_close. rewrite (proj2 (Z.eqb_neq _ _) H0), (bind_ok _ _ _ _ _ (get_inode_ok _ _ _ Hi)).
  unfold put_inode. erewrite bind_ok by reflexivity. fold c. destruct (c =? 0); [|reflexivity].
  erewrite bind_ok by reflexivity. rewrite Hr. erewrite bind_ok by reflexivity.
  unfold modify. simpl. unfold set_inodes. simpl. by rewrite delete_insert_eq.
Qed.

Lemma close_ok s f x i : counted base s → s.(files) !! f = Some x → s.(inodes) !! x.(finode) = Some i → i.(removed) = false →
  ∃ s', file_close f s = Ok (tt, s') ∧ counted base s' ∧ touched f x.(finode) s s' ∧ s'.(files) !! f = None ∧
    (s'.(inodes) !! x.(finode) = None ↔ base x.(finode) + opens s'.(files) x.(finode) = 0).
Proof.
  intros C Hx Hi Hr. destruct (allow_write_ok s f x C Hx) as (s1 & E1 & C1 & T1 & Hx1 & [i1 Hi1]).
  assert (Hf : f ≠ 0) by (intros ->; by rewrite (ct_null _ _ C) in Hx). destruct (ct_file _ _ C _ _ Hx) as [Hx0 _].
  pose proof (tc_same _ _ _ _ T1 _ _ Hi Hi1) as Ei.
  assert (Hr1 : removed i1 = false) by by rewrite Ei.
  pose proof (counted_close s1 f _ i1 C1 Hx1 eq_refl Hi1) as C2. cbv zeta in C2. cbn [finode] in C2.
  unfold file_close. rewrite (proj2 (Z.eqb_neq _ _) Hf). rewrite (bind_ok _ _ _ _ _ E1), (bind_ok _ _ _ _ _ (get_file_ok _ _ _ Hx1)).
  cbn [finode]. rewrite (bind_ok _ _ _ _ _ (inode_close_eq s1 _ _ Hx0 Hi1 Hr1)).
  eexists. split; [|split; [exact C2|]].
  - unfold modify. by destruct (open_cnt i1 - 1 =? 0).
  - split; [|split].
    + apply (touched_trans _ _ _ s1); [by exists i1|done|]. split; simpl.
      * intros g Hg. by rewrite lookup_delete_ne.
      * intros jp Hj. destruct (_ =? 0); simpl; by rewrite ?lookup_delete_ne, ?lookup_insert_ne by done.
      * intros j j' Hj Hj'. rewrite Hi1 in Hj. injection Hj as <-.
        destruct (_ =? 0); simpl in Hj'; [by rewrite lookup_delete_eq in Hj'|]. rewrite lookup_insert_eq in Hj'. by injection Hj' as <-.
      * by destruct (_ =? 0).
    + simpl. by rewrite lookup_delete_eq.
    + pose proof (ct_open _ _ C1 _ _ Hi1) as Hc. unfold opens in Hc. rewrite (count_delete _ _ f _ Hx1), decide_True in Hc by done.
      unfold opens. destruct (Z.eqb_spec (open_cnt i1 - 1) 0); simpl; [rewrite lookup_delete_eq|rewrite lookup_insert_eq];
        (split; [done || lia|done || lia]).
Qed.
End operations.


(** two files on one inode, one of which denies writes *)
Definition ex_shared : fstate := mk_fstate [] {[ 10 := mk_inode 2 2 false 1 3 700 ]} [10]
  {[ 20 := mk_file 10 0 false; 21 := mk_file 10 5 true ]} (mk_bitmap 8 [15]) 0 100 [].

Lemma ex_counted : counted (λ _, 0) ex_shared.
Proof.
  split; [reflexivity| | | |done].
  - intros f x H. unfold ex_shared in H. cbn [files] in H. apply lookup_insert_Some in H as [[_ <-]|[_ [_ <-]%lookup_singleton_Some]]; (split; [done|]; by eexists).
  - intros ip i H. unfold ex_shared in H. cbn [inodes] in H. apply lookup_singleton_Some in H as [<- <-]. reflexivity.
  - intros ip i H. unfold ex_shared in H. cbn [inodes] in H. apply lookup_singleton_Some in H as [<- <-]. reflexivity.
Qed.

