(* ===== verification/Ustar.v ===== *)
(** lib/ustar.c: headers of tar archives.

    A header is the list of its 512 bytes, a file name the list of its characters
    without the terminating null.  [strlcpy] and [snprintf] into a field enter by the
    bytes they write (CString.v, Stdio.v). *)

From Stdlib Require Import Ascii String.
From S2P Require Import Prelude Vaddr CString Stdio Inode.

Inductive ustar_type := USTAR_REGULAR | USTAR_DIRECTORY | USTAR_EOF.

Definition type_char (t : ustar_type) : Z := match t with USTAR_REGULAR => 48 | USTAR_DIRECTORY => 53 | USTAR_EOF => -1 end.

(** the members of [struct ustar_header] the code uses besides [name], and where they start *)
Inductive member := Mmode | Muid | Mgid | Msize | Mmtime | Mchksum | Mtypeflag | Mmagic | Mversion | Muname | Mgname | Mprefix.

Definition offset (m : member) : nat :=
  match m with
  | Mmode => 100 | Muid => 108 | Mgid => 116 | Msize => 124 | Mmtime => 136 | Mchksum => 148 | Mtypeflag => 156 | Mmagic => 257 | Mversion => 263 | Muname => 265 | Mgname => 297 | Mprefix => 345
  end.

Abbreviation o_mode := (offset Mmode).
Abbreviation o_uid := (offset Muid).
Abbreviation o_gid := (offset Mgid).
Abbreviation o_size := (offset Msize).
Abbreviation o_mtime := (offset Mmtime).
Abbreviation o_chksum := (offset Mchksum).
Abbreviation o_typeflag := (offset Mtypeflag).
Abbreviation o_magic := (offset Mmagic).
Abbreviation o_version := (offset Mversion).
Abbreviation o_uname := (offset Muname).
Abbreviation o_gname := (offset Mgname).
Abbreviation o_prefix := (offset Mprefix).

(** [n] bytes of the header from [ofs] on *)
Definition field (ofs n : nat) (h : list Z) : list Z := take n (drop ofs h).

Definition calculate_chksum (h : list Z) : Z :=
  foldl (λ chksum i, u32 (chksum + if (o_chksum <=? i)%nat && (i <? o_chksum + 8)%nat then chr " " else h !!! i)) 0 (seq 0 512).

(** [*file_name == '/' || !memcmp (file_name, "./", 2) || !memcmp (file_name, "../", 3)] *)
Definition starts (p name : list Z) : bool := bool_decide (p `prefix_of` name).
Definition antisocial (name : list Z) : bool := starts [47] name || starts [46; 47] name || starts [46; 46; 47] name.

(** [strchr (file_name, '/') + 1] *)
Fixpoint after_slash (name : list Z) : outcome (list Z) :=
  match name with [] => Err Fault | c :: r => if c =? 47 then Ok r else after_slash r end.

Fixpoint strip_loop (n : nat) (name : list Z) : outcome (list Z) :=
  if antisocial name then
    match n with O => Err NoFuel | S n => r ← after_slash name; strip_loop n r end
  else Ok name.

Definition strip_antisocial_prefixes (name : list Z) : outcome (list Z) :=
  name ← strip_loop (length name) name;
  Ok (if bool_decide (name = [] ∨ name = [46; 46]) then [46] else name).

(** ** Writing *)

(** [strlcpy (h->member, src, size)] *)
Definition strlcpy_at (ofs size : nat) (src : list Z) (h : list Z) : list Z := over ofs (take (size - 1) src ++ [0]) h.

(** [snprintf (h->member, size, format, ...)] *)
Definition snprintf_at (ofs size : nat) (format : string) (args : list arg) (h : list Z) : outcome (list Z) :=
  l ← text (lit format) args; Ok (over ofs ((u8 <$> take (size - 1) l) ++ [0]) h).

(** [None] if the name is too long *)
Definition ustar_make_header (file_name : list Z) (type : ustar_type) (size : Z) : outcome (option (list Z)) :=
  oassert (match type with USTAR_EOF => false | _ => true end);;
  file_name ← strip_antisocial_prefixes file_name;
  if Z.of_nat (length file_name) >? 99 then Ok None else
  let h := replicate 512 0 in
  let h := strlcpy_at 0 100 file_name h in
  h ← snprintf_at o_mode 8 "%07o" [A32 (match type with USTAR_REGULAR => 420 | _ => 493 end)] h;
  let h := strlcpy_at o_uid 8 (chars "0000000") h in
  let h := strlcpy_at o_gid 8 (chars "0000000") h in
  h ← snprintf_at o_size 12 "%011o" [A32 size] h;
  h ← snprintf_at o_mtime 12 "%011o" [A32 1136102400] h;
  let h := over o_typeflag [u8 (type_char type)] h in
  let h := strlcpy_at o_magic 6 (chars "ustar") h in
  let h := over (o_version + 1) [chr "0"] h in
  let h := over o_version [chr "0"] h in
  let h := strlcpy_at o_gname 32 (chars "root") h in
  let h := strlcpy_at o_uname 32 (chars "root") h in
  h ← snprintf_at o_chksum 8 "%07o" [A32 (calculate_chksum h)] h;
  Ok (Some h).

(** ** Reading *)

Fixpoint octal_loop (s : list Z) (ofs value : Z) : option Z :=
  match s with
  | [] => None
  | c :: r =>
      if (chr "0" <=? c) && (c <=? chr "7") then
        if value >? UINT_MAX / 8 then None else octal_loop r (ofs + 1) (u32 (c - chr "0" + value * 8))
      else if (c =? chr " ") || (c =? 0) then if ofs >? 0 then Some value else None
      else None
  end.

(** [None] on failure *)
Definition parse_octal_field (s : list Z) : option Z := octal_loop s 0 0.

Fixpoint is_all_zeros (l : list Z) : bool :=
  match l with [] => true | c :: r => if negb (c =? 0) then false else is_all_zeros r end.

(** the string at the start of the header *)
Fixpoint until_null (l : list Z) : list Z :=
  match l with [] => [] | c :: r => if c =? 0 then [] else c :: until_null r end.

(** an error message, or the name, the type and the size *)
Definition ustar_parse_header (h : list Z) : outcome (string + option (list Z) * ustar_type * Z) :=
  if is_all_zeros h then Ok (inr (None, USTAR_EOF, 0)) else
  if negb (bool_decide (field o_magic 6 h = lit "ustar")) then Ok (inl "not a ustar archive"%string) else
  if negb (h !!! o_version =? chr "0") || negb (h !!! (o_version + 1)%nat =? chr "0") then Ok (inl "invalid ustar version"%string) else
  match parse_octal_field (field o_chksum 8 h) with
  | None => Ok (inl "corrupt chksum field"%string)
  | Some chksum =>
    if negb (chksum =? calculate_chksum h) then Ok (inl "checksum mismatch"%string) else
    if negb (h !!! 99%nat =? 0) || negb (h !!! o_prefix =? 0) then Ok (inl "file name too long"%string) else
    if h !!! o_typeflag =? type_char USTAR_REGULAR then
      match parse_octal_field (field o_size 12 h) with
      | None => Ok (inl "corrupt file size field"%string)
      | Some size =>
        if size >? INT_MAX then Ok (inl "file too large"%string) else
        name ← strip_antisocial_prefixes (until_null h); Ok (inr (Some name, USTAR_REGULAR, size))
      end
    else if h !!! o_typeflag =? type_char USTAR_DIRECTORY then
      name ← strip_antisocial_prefixes (until_null h); Ok (inr (Some name, USTAR_DIRECTORY, 0))
    else Ok (inl "unimplemented file type"%string)
  end.

(** * Names *)

Lemma after_slash_spec name : 47 ∈ name → ∃ k r, after_slash name = Ok r ∧ name = k ++ 47 :: r.
Proof.
  induction name as [|c name IH]; [by intros ?%elem_of_nil|]. intros H. cbn [after_slash]. destruct (Z.eqb_spec c 47) as [->|Hc].
  - by exists [], name.
  - apply elem_of_cons in H as [H|H]; [done|]. destruct (IH H) as (k & r & -> & ->). by exists (c :: k), r.
Qed.

Lemma antisocial_slash name : antisocial name = true → 47 ∈ name.
Proof.
  unfold antisocial, starts. intros [[H|H]%orb_prop|H]%orb_prop; apply bool_decide_eq_true in H as [r ->]; apply elem_of_app; left;
    by apply (bool_decide_unpack _).
Qed.

Lemma strip_loop_spec n name : (length name ≤ n)%nat → ∃ r, strip_loop n name = Ok r ∧ antisocial r = false ∧ r `suffix_of` name.
Proof.
  revert name. induction n as [|n IH]; intros name Hn; cbn [strip_loop]; destruct (antisocial name) eqn:Ea;
    try (exists name; split_and!; done).
  - apply antisocial_slash in Ea. destruct name; [by apply elem_of_nil in Ea|simpl in Hn; lia].
  - destruct (after_slash_spec name (antisocial_slash _ Ea)) as (k & r & -> & ->). cbn [mbind outcome_bind].
    rewrite length_app in Hn. simpl in Hn. destruct (IH r) as (r' & E & H1 & [k' H2]); [lia|]. exists r'. split_and!; [done|done|].
    exists (k ++ 47 :: k'). rewrite H2, <- app_assoc. done.
Qed.

Lemma strip_loop_id n name : antisocial name = false → strip_loop n name = Ok name.
Proof. intros H. destruct n; cbn [strip_loop]; by rewrite H. Qed.

(** a name that may be written to the current directory *)
Record tame (name : list Z) : Prop := {
  tame_start : antisocial name = false;
  tame_ne : name ≠ [] ∧ name ≠ [46; 46]
}.

Lemma strip_spec name : ∃ r, strip_antisocial_prefixes name = Ok r ∧ tame r ∧ (r = [46] ∨ r `suffix_of` name).
Proof.
  unfold strip_antisocial_prefixes. destruct (strip_loop_spec (length name) name) as (r & -> & Ha & Hs); [lia|]. cbn [mbind outcome_bind].
  eexists. split; [done|]. case_bool_decide as Hb.
  - split; [|by left]. by split.
  - split; [|by right]. split; [done|]. split; intros ->; apply Hb; auto.
Qed.

Lemma strip_id name : tame name → strip_antisocial_prefixes name = Ok name.
Proof.
  intros [Ha [H1 H2]]. unfold strip_antisocial_prefixes. rewrite strip_loop_id by done. cbn [mbind outcome_bind].
  by rewrite bool_decide_eq_false_2 by tauto.
Qed.

(** * Octal numbers *)

Lemma octal_char d : 0 ≤ d < 8 → base_o.(digits) !!! Z.to_nat d = d + 48.
Proof.
  intros Hd. assert (Hd' : (Z.to_nat d < 8)%nat) by lia. rewrite <- (Z2Nat.id d) at 2 by lia. revert Hd'.
  generalize (Z.to_nat d). intros k Hk. do 8 (destruct k as [|k]; [reflexivity|]). lia.
Qed.

(** digits in base 8, as characters *)
Definition octal (ds : list Z) : list Z := (λ d, d + 48) <$> ds.

Lemma integer_digits_octal v w ty : 0 ≤ v < 8 ^ Z.of_nat w → (1 ≤ w ≤ 31)%nat →
  ∃ ds, integer_digits v base_o (mk_conv ZERO (Z.of_nat w) (-1) ty) = Ok (octal ds) ∧ (∀ d, d ∈ ds → 0 ≤ d < 8) ∧
    base_value 8 ds = v ∧ (length ds ≤ w)%nat.
Proof.
  intros Hv Hw. unfold integer_digits.
  destruct (digit_loop_spec base_o (has ZERO GROUP) w 64 v 0 []) as (buf & E & Hl & Hg); [apply bases_ok|lia|done|simpl; lia|].
  destruct (Hg eq_refl) as (ds & -> & Hds & Hval & Hlen & _). rewrite app_nil_r in *. simpl in Hds, Hval.
  assert (Eo : (λ d, digits base_o !!! Z.to_nat d) <$> ds = octal ds).
  { apply list_fmap_ext. intros k d Hd. apply octal_char, Hds. by eapply list_elem_of_lookup_2. }
  cbn [flags]. rewrite E, Eo. cbn [mbind outcome_bind precision]. change (if -1 <? 0 then 1 else -1) with 1.
  assert (Hlo : length (octal ds) = length ds) by apply length_fmap.
  destruct (zero_loop_spec 64 1 (octal ds)) as (k & -> & Hk & Hk0 & Hk1); [lia..|]. cbn [mbind outcome_bind].
  change (has ZERO POUND) with false. cbn [andb]. destruct ds as [|d r].
  - rewrite Hk1 by done. exists [0]. split; [done|]. split; [intros d ->%list_elem_of_singleton; lia|]. split; [done|simpl; lia].
  - rewrite Hk0 by (simpl; lia). by exists (d :: r).
Qed.

Lemma base_value_zeros b k ds : base_value b (replicate k 0 ++ ds) = base_value b ds.
Proof. unfold base_value. induction k as [|k IH]; [done|]. cbn [replicate app foldl]. by rewrite Z.mul_0_l. Qed.

Lemma collect_dup c k s : output_dup collect c k s = Ok (tt, s ++ replicate k c).
Proof.
  revert s. induction k as [|k IH]; intros s; simpl; [by rewrite app_nil_r|]. erewrite bind_ok by done. by rewrite IH, <- app_assoc.
Qed.

(** the formats of the octal members: zeros on the left up to the width *)
Lemma text_octal fmt w v ty : 0 ≤ v < 8 ^ Z.of_nat w → 0 ≤ v < 2 ^ 32 → (1 ≤ w ≤ 31)%nat →
  parse_conversion (tail (lit fmt)) [A32 v] = Ok (mk_conv ZERO (Z.of_nat w) (-1) ty, [111; 0], [A32 v]) →
  (∃ ch r, lit fmt = 37 :: ch :: r ∧ ch ≠ 37) → va_unsigned ty [A32 v] = Ok (v, []) →
  ∃ ds, text (lit fmt) [A32 v] = Ok (octal ds) ∧ length ds = w ∧ (∀ d, d ∈ ds → 0 ≤ d < 8) ∧ base_value 8 ds = v.
Proof.
  intros Hv Hu Hw Hp (ch & r & Ef & Hch) Hva. rewrite Ef in Hp |- *. cbn [tail] in Hp.
  destruct (integer_digits_octal v w ty Hv Hw) as (ds & E & Hds & Hval & Hlen).
  set (k := (w - length ds)%nat). exists (replicate k 0 ++ ds). split_and!.
  - unfold text, vprintf. change (Stdio.turns (37 :: ch :: r)) with (S (S (32 + length r)))%nat.
    rewrite (vprintf_conversion _ _ ch r [A32 v] _ 111 [0] [A32 v] [] Hch Hp).
    unfold convert. change ((111 =? chr "d") || _) with false. change ((111 =? chr "o") || _ || _ || _) with true.
    change (111 =? chr "o") with true. cbv iota.
    rewrite (bind_ok _ _ [] [] (octal (replicate k 0 ++ ds))); [done|].
    cbn [ctype]. rewrite (bind_ok (lift_out _) _ [] (v, []) []) by (by apply lift_out_eq). cbv iota beta zeta.
    rewrite (bind_ok _ _ [] tt (octal (replicate k 0 ++ ds))); [done|].
    unfold format_integer. rewrite (bind_ok _ _ _ _ _ (lift_out_eq _ _ _ E)). cbv beta zeta. cbn [flags width].
    change (has ZERO POUND) with false. change (has ZERO (Z.lor MINUS ZERO)) with true. change (has ZERO ZERO) with true.
    change (has ZERO MINUS) with false. change (sign_of false false _) with 0. cbn [andb negb Z.eqb].
    do 3 (erewrite bind_ok by reflexivity). rewrite (bind_ok _ _ _ _ _ (collect_dup _ _ _)).
    rewrite (bind_ok _ _ _ _ _ (collect_all _ _)). unfold mret, M_ret. f_equal. f_equal.
    unfold octal. rewrite fmap_app, fmap_replicate, app_nil_l. f_equal. rewrite length_fmap. change (chr "0") with 48. f_equal.
    destruct (Z.ltb_spec (Z.of_nat w - Z.of_nat (length ds) - 0 - 0) 0); lia.
  - rewrite length_app, length_replicate. lia.
  - intros d [[-> _]%elem_of_replicate|Hd]%elem_of_app; [lia|by apply Hds].
  - by rewrite base_value_zeros.
Qed.

Lemma octal_loop_spec ds v ofs c r : (∀ d, d ∈ ds → 0 ≤ d < 8) → 0 ≤ v → foldl (λ v d, v * 8 + d) v ds < 2 ^ 32 →
  0 ≤ ofs → 0 < ofs + Z.of_nat (length ds) → c = 0 ∨ c = 32 →
  octal_loop (octal ds ++ c :: r) ofs v = Some (foldl (λ v d, v * 8 + d) v ds).
Proof.
  intros Hds Hv Hb Ho Hn Hc. revert v ofs Hds Hv Hb Ho Hn. induction ds as [|d ds IH]; intros v ofs Hds Hv Hb Ho Hn.
  - cbn [octal fmap list_fmap app octal_loop foldl]. rewrite (Z.gtb_ltb ofs). destruct (Z.ltb_spec 0 ofs); [|simpl in Hn; lia].
    destruct Hc as [-> | ->]; reflexivity.
  - assert (Hd := Hds d ltac:(left)). cbn [octal fmap list_fmap app octal_loop foldl] in *.
    change (chr "0") with 48. change (chr "7") with 55. destruct (Z.leb_spec 48 (d + 48)); [|lia]. destruct (Z.leb_spec (d + 48) 55); [|lia].
    cbn [andb]. assert (Hmono : ∀ w l, (∀ d, d ∈ l → 0 ≤ d < 8) → 0 ≤ w → w ≤ foldl (λ v d, v * 8 + d) w l).
    { intros w l. revert w. induction l as [|e l IHl]; intros w He Hw; [done|]. cbn [foldl].
      pose proof (He e ltac:(left)). specialize (IHl (w * 8 + e) ltac:(intros; apply He; by right) ltac:(lia)). lia. }
    specialize (Hmono (v * 8 + d) ds ltac:(intros; apply Hds; by right) ltac:(lia)).
    rewrite Z.gtb_ltb. change (UINT_MAX / 8) with 536870911. destruct (Z.ltb_spec 536870911 v); [lia|].
    rewrite u32_small by lia. replace (d + 48 - 48 + v * 8) with (v * 8 + d) by lia.
    apply IH; try lia. intros; apply Hds; by right.
Qed.

(** * Fields *)

Lemma length_over a l h : (a + length l ≤ length h)%nat → length (over a l h) = length h.
Proof. intros H. unfold over. rewrite !length_app, length_take, length_drop. lia. Qed.

Lemma field_lookup a n h k : field a n h !! k = if decide (k < n)%nat then h !! (a + k)%nat else None.
Proof.
  unfold field. case_decide; [rewrite lookup_take_lt, lookup_drop by done; done|]. apply lookup_take_ge. lia.
Qed.

Lemma field_over_same a l h : (a + length l ≤ length h)%nat → field a (length l) (over a l h) = l.
Proof.
  intros H. apply list_eq. intros k. rewrite field_lookup. case_decide.
  - rewrite over_lookup by done. rewrite decide_True by lia. f_equal. lia.
  - symmetry. apply lookup_ge_None. lia.
Qed.

Lemma field_over_other a n b l h : (b + length l ≤ length h)%nat → (a + n ≤ b ∨ b + length l ≤ a)%nat →
  field a n (over b l h) = field a n h.
Proof.
  intros H Hd. apply list_eq. intros k. rewrite !field_lookup. case_decide; [|done].
  rewrite over_lookup by done. by rewrite decide_False by lia.
Qed.

Lemma field_byte a h c : field a 1 h = [c] → h !!! a = c.
Proof.
  intros E. assert (H : field a 1 h !! 0%nat = Some c) by by rewrite E. rewrite field_lookup, decide_True in H by lia.
  rewrite Nat.add_0_r in H. by apply list_lookup_total_correct.
Qed.

Lemma field_zeros a n m : (a + n ≤ m)%nat → field a n (replicate m 0) = replicate n 0.
Proof. intros H. unfold field. rewrite drop_replicate, take_replicate. f_equal. lia. Qed.

Lemma header_until_null l r : (∀ c, c ∈ l → c ≠ 0) → until_null (l ++ 0 :: r) = l.
Proof.
  induction l as [|c l IH]; intros Hl; [done|]. cbn [until_null app]. destruct (Z.eqb_spec c 0) as [->|]; [by destruct (Hl 0 ltac:(left))|].
  f_equal. apply IH. intros d Hd. apply Hl. by right.
Qed.

(** ** The checksum *)

Definition in_chksum (i : nat) : bool := (o_chksum <=? i)%nat && (i <? o_chksum + 8)%nat.

Lemma chksum_ext h h' : (∀ i, (i < 512)%nat → in_chksum i = false → h !!! i = h' !!! i) → calculate_chksum h = calculate_chksum h'.
Proof.
  intros H. unfold calculate_chksum. assert (Hl : ∀ i, i ∈ seq 0 512 → (i < 512)%nat) by (intros i Hi%elem_of_seq; lia).
  revert Hl. generalize 0. generalize (seq 0 512). intros l. induction l as [|i l IH]; intros c Hl; [done|]. cbn [foldl].
  fold (in_chksum i). destruct (in_chksum i) eqn:Ei; [|rewrite (H i) by (try done; apply Hl; left)]; apply IH; intros; apply Hl; by right.
Qed.

Lemma chksum_range h : (∀ i, 0 ≤ h !!! i < 256) → 0 ≤ calculate_chksum h < 8 ^ 7.
Proof.
  intros H. unfold calculate_chksum.
  assert (Hb : ∀ l c, 0 ≤ c → c + 256 * Z.of_nat (length l) < 2 ^ 32 → 0 ≤ foldl (λ chksum i, u32 (chksum + if in_chksum i then chr " " else h !!! i)) c l ≤ c + 256 * Z.of_nat (length l)).
  { induction l as [|i l IH]; intros c Hc Hs; cbn [foldl length] in *; [lia|].
    set (x := if in_chksum i then chr " " else h !!! i). assert (0 ≤ x < 256).
    { unfold x. destruct (in_chksum i); [change (chr " ") with 32; lia|apply H]. }
    rewrite u32_small by lia. specialize (IH (c + x) ltac:(lia) ltac:(lia)). lia. }
  specialize (Hb (seq 0 512) 0 ltac:(lia)). rewrite length_seq in Hb. specialize (Hb ltac:(lia)). unfold in_chksum in Hb. lia.
Qed.

(** * The round trip *)

Lemma snprintf_octal w fmt v : 0 ≤ v < 8 ^ Z.of_nat w → 0 ≤ v < 2 ^ 32 → (1 ≤ w ≤ 31)%nat →
  parse_conversion (tail (lit fmt)) [A32 v] = Ok (mk_conv ZERO (Z.of_nat w) (-1) INT, [111; 0], [A32 v]) →
  (∃ ch r, lit fmt = 37 :: ch :: r ∧ ch ≠ 37) →
  ∃ ds, (∀ ofs h, snprintf_at ofs (S w) fmt [A32 v] h = Ok (over ofs (octal ds ++ [0]) h)) ∧ length (octal ds ++ [0]) = S w ∧
    parse_octal_field (octal ds ++ [0]) = Some v ∧ (∀ c, c ∈ octal ds ++ [0] → 0 ≤ c < 256).
Proof.
  intros Hv Hu Hw Hp Hf. destruct (text_octal fmt w v INT Hv Hu Hw Hp Hf) as (ds & E & Hl & Hds & Hval).
  { unfold va_unsigned. simpl. by rewrite u32_small. }
  assert (Hc : ∀ c, c ∈ octal ds → 0 ≤ c < 256) by (intros c (d & -> & Hd)%list_elem_of_fmap; specialize (Hds d Hd); lia).
  assert (Ho : length (octal ds) = w) by (unfold octal; by rewrite length_fmap).
  exists ds. split_and!.
  - intros ofs h. unfold snprintf_at. rewrite E. cbn [mbind outcome_bind]. rewrite take_ge by lia. do 3 f_equal.
    rewrite <- (list_fmap_id (octal ds)) at 2. apply list_fmap_ext. intros i c Hi. apply u8_small.
    unfold id. specialize (Hc c (list_elem_of_lookup_2 _ _ _ Hi)). lia.
  - rewrite length_app. simpl. lia.
  - unfold parse_octal_field. unfold base_value in Hval. rewrite octal_loop_spec; [by rewrite Hval|done|lia|rewrite Hval; lia|lia|lia|by left].
  - intros c [?| ->%list_elem_of_singleton]%elem_of_app; [by apply Hc|lia].
Qed.

(** writes to a header of zeros, the last one first *)
Definition layers : list (nat * list Z) → list Z := foldr (λ '(a, l) h, over a l h) (replicate 512 0).

Definition layers_ok (ls : list (nat * list Z)) : Prop :=
  Forall (λ '(a, l), (a + length l ≤ 512)%nat ∧ ∀ c, c ∈ l → 0 ≤ c < 256) ls.

Lemma layers_cons a l ls : layers ((a, l) :: ls) = over a l (layers ls).
Proof. reflexivity. Qed.

Lemma layers_nil : layers [] = replicate 512 0.
Proof. reflexivity. Qed.

Lemma layers_length ls : layers_ok ls → length (layers ls) = 512%nat.
Proof. induction 1 as [|[a l] ls [Hl _] _ IH]; [reflexivity|]. rewrite layers_cons, length_over; lia. Qed.

Lemma layers_bytes ls i : layers_ok ls → 0 ≤ layers ls !!! i < 256.
Proof.
  intros Ho. rewrite list_lookup_total_alt. destruct (layers ls !! i) as [c|] eqn:Ec; [|simpl; lia]. cbn [default]. unfold id.
  revert i c Ec. induction Ho as [|[a l] ls [Hl Hc] Ho IH]; intros i c Ec.
  - apply lookup_replicate in Ec as [-> _]. lia.
  - rewrite layers_cons, over_lookup in Ec by (rewrite layers_length; done). destruct (decide _).
    + apply Hc. by eapply list_elem_of_lookup_2.
    + by apply (IH i).
Qed.

(** the last write to a field is what it holds *)
Lemma layers_field a l pre post : layers_ok (pre ++ (a, l) :: post) →
  Forall (λ '(b, l'), (a + length l ≤ b ∨ b + length l' ≤ a)%nat) pre → field a (length l) (layers (pre ++ (a, l) :: post)) = l.
Proof.
  intros Ho Hd. induction pre as [|[b l'] pre IH]; rewrite ?app_nil_l, <- ?app_comm_cons, layers_cons in *.
  - apply Forall_cons in Ho as [[Hl _] Ho]. apply field_over_same. by rewrite layers_length.
  - apply Forall_cons in Ho as [[Hl _] Ho]. apply Forall_cons in Hd as [Hb Hd]. rewrite field_over_other; [by apply IH| |done].
    by rewrite layers_length.
Qed.

Lemma layers_zero a n ls : layers_ok ls → Forall (λ '(b, l'), (a + n ≤ b ∨ b + length l' ≤ a)%nat) ls → (a + n ≤ 512)%nat →
  field a n (layers ls) = replicate n 0.
Proof.
  intros Ho Hd Ha. induction ls as [|[b l'] ls IH]; [by apply field_zeros|]. rewrite layers_cons.
  apply Forall_cons in Ho as [[Hl _] Ho]. apply Forall_cons in Hd as [Hb Hd]. rewrite field_over_other; [by apply IH| |done].
  by rewrite layers_length.
Qed.

(** the writes of [ustar_make_header] *)
Definition header_layers (name mode size mtime chksum : list Z) (type : Z) : list (nat * list Z) :=
  [(o_chksum, chksum); (o_uname, lit "root"); (o_gname, lit "root"); (o_version, [48]); ((o_version + 1)%nat, [48]); (o_magic, lit "ustar");
   (o_typeflag, [type]); (o_mtime, mtime); (o_size, size); (o_gid, lit "0000000"); (o_uid, lit "0000000"); (o_mode, mode); (0%nat, name ++ [0])].

Record pieces_ok (name mode size mtime : list Z) (type : Z) : Prop := {
  pk_name : (length name ≤ 99)%nat ∧ ∀ c, c ∈ name → 0 < c < 256;
  pk_mode : length mode = 8%nat ∧ ∀ c, c ∈ mode → 0 ≤ c < 256;
  pk_size : length size = 12%nat ∧ ∀ c, c ∈ size → 0 ≤ c < 256;
  pk_mtime : length mtime = 12%nat ∧ ∀ c, c ∈ mtime → 0 ≤ c < 256;
  pk_type : 0 ≤ type < 256
}.

Lemma bytes_lit (s : string) c : c ∈ lit s → 0 ≤ c < 256.
Proof.
  unfold lit, chars. intros [(x & -> & _)%list_elem_of_fmap| ->%list_elem_of_singleton]%elem_of_app; [|lia].
  pose proof (N_ascii_bounded x). lia.
Qed.

Section header.
Context (name mode size mtime chksum : list Z) (type : Z) (P : pieces_ok name mode size mtime type).
Context (Hck : length chksum = 8%nat) (Hckb : ∀ c, c ∈ chksum → 0 ≤ c < 256).
Abbreviation ls := (header_layers name mode size mtime chksum type).

Lemma header_layers_ok : layers_ok ls.
Proof using P Hck Hckb.
  destruct P as [[Hn Hn'] [Hm Hm'] [Hs Hs'] [Ht Ht'] Hty]. unfold layers_ok, header_layers. repeat apply Forall_cons_2; try apply Forall_nil_2;
    (split; [rewrite ?length_app, ?Hm, ?Hs, ?Ht, ?Hck; simpl; lia|]); try done; try apply bytes_lit;
    try (intros c ->%list_elem_of_singleton; lia).
  intros c [Hc| ->%list_elem_of_singleton]%elem_of_app; [specialize (Hn' c Hc)|]; lia.
Qed.

Ltac apart P := let Hn := fresh in let Hm := fresh in let Hs := fresh in let Ht := fresh in
  destruct P as [[Hn _] [Hm _] [Hs _] [Ht _] _];
  repeat apply Forall_cons_2; try apply Forall_nil_2; rewrite ?length_app, ?Hm, ?Hs, ?Ht, ?Hck;
  repeat match goal with |- context [length (lit ?s)] => let n := eval vm_compute in (length (lit s)) in change (length (lit s)) with n end;
  unfold offset in *;
  cbn [length]; lia.

Lemma header_chksum : field o_chksum 8 (layers ls) = chksum.
Proof using P Hck Hckb.
  rewrite <- Hck at 1. apply (layers_field o_chksum chksum [] (tail ls)); [exact header_layers_ok|apply Forall_nil_2].
Qed.

Lemma header_magic : field o_magic 6 (layers ls) = lit "ustar".
Proof using P Hck Hckb.
  apply (layers_field o_magic (lit "ustar") (take 5 ls) (drop 6 ls)); [exact header_layers_ok|apart P].
Qed.

Lemma header_version : layers ls !!! o_version = 48 ∧ layers ls !!! (o_version + 1)%nat = 48.
Proof using P Hck Hckb.
  split; apply field_byte; [apply (layers_field o_version [48] (take 3 ls) (drop 4 ls))|apply (layers_field (o_version + 1) [48] (take 4 ls) (drop 5 ls))];
    try exact header_layers_ok; apart P.
Qed.

Lemma header_type : layers ls !!! o_typeflag = type.
Proof using P Hck Hckb.
  apply field_byte, (layers_field o_typeflag [type] (take 6 ls) (drop 7 ls)); [exact header_layers_ok|apart P].
Qed.

Lemma header_size : field o_size 12 (layers ls) = size.
Proof using P Hck Hckb.
  rewrite <- (proj1 (pk_size _ _ _ _ _ P)) at 1. apply (layers_field o_size size (take 8 ls) (drop 9 ls)); [exact header_layers_ok|apart P].
Qed.

Lemma header_name : until_null (layers ls) = name ∧ layers ls !!! 99%nat = 0 ∧ layers ls !!! o_prefix = 0.
Proof using P Hck Hckb.
  pose proof header_layers_ok as Ho. pose proof (pk_name _ _ _ _ _ P) as [Hn Hn'].
  assert (Hl : length (name ++ [0]) = S (length name)) by (rewrite length_app; simpl; lia).
  assert (E : field 0 (length (name ++ [0])) (layers ls) = name ++ [0]).
  { apply (layers_field 0 (name ++ [0]) (take 12 ls) []); [exact Ho|]. rewrite Hl. clear Hl. apart P. }
  split; [|split].
  - unfold field in E. rewrite drop_0 in E. rewrite <- (take_drop (length (name ++ [0])) (layers ls)), E, <- app_assoc.
    apply header_until_null. intros c Hc. specialize (Hn' c Hc). lia.
  - destruct (decide (length name = 99%nat)) as [He|He].
    + apply list_lookup_total_correct. assert (H : field 0 (length (name ++ [0])) (layers ls) !! 99%nat = Some 0).
      { rewrite E, lookup_app_r by lia. by rewrite He. }
      rewrite field_lookup, decide_True in H by lia. exact H.
    + apply field_byte, (layers_zero 99 1 ls); [exact Ho| |lia]. clear E. apart P.
  - apply field_byte, (layers_zero o_prefix 1 ls); [exact Ho|apart P|cbn; lia].
Qed.
End header.

(** the checksum does not depend on its own field *)
Lemma chksum_over l h : length l = 8%nat → length h = 512%nat → calculate_chksum (over o_chksum l h) = calculate_chksum h.
Proof.
  intros Hl Hh. apply chksum_ext. intros i Hi Hc. rewrite !list_lookup_total_alt. f_equal.
  rewrite over_lookup by (rewrite Hl, Hh; unfold offset; lia). rewrite decide_False; [done|]. rewrite Hl.
  unfold in_chksum in Hc. destruct (Nat.leb_spec o_chksum i), (Nat.ltb_spec i (o_chksum + 8)); try done; lia.
Qed.

(** the header before the checksum is filled in *)
Definition before_chksum (name mode size mtime : list Z) (type : Z) : list Z :=
  over o_uname (lit "root") (over o_gname (lit "root") (over o_version [48] (over (o_version + 1) [48] (over o_magic (lit "ustar")
  (over o_typeflag [type] (over o_mtime mtime (over o_size size (over o_gid (lit "0000000") (over o_uid (lit "0000000")
  (over o_mode mode (over 0 (name ++ [0]) (replicate 512 0)))))))))))).

Lemma before_layers name mode size mtime type :
  before_chksum name mode size mtime type = layers (tail (header_layers name mode size mtime (replicate 8 0) type)).
Proof. unfold header_layers, before_chksum. cbn [tail]. rewrite !layers_cons, layers_nil. reflexivity. Qed.

Lemma layers_before name mode size mtime ck type :
  layers (header_layers name mode size mtime ck type) = over o_chksum ck (before_chksum name mode size mtime type).
Proof. unfold header_layers, before_chksum. rewrite !layers_cons, layers_nil. reflexivity. Qed.

Lemma strlcpy_lit ofs n s h : take (n - 1) (chars s) = chars s → strlcpy_at ofs n (chars s) h = over ofs (lit s) h.
Proof. intros E. unfold strlcpy_at, lit. by rewrite E. Qed.

Lemma all_zeros_lookup l i : (i < length l)%nat → is_all_zeros l = true → l !!! i = 0.
Proof.
  revert i. induction l as [|c l IH]; intros i Hi H; cbn [length] in Hi; [lia|]. cbn [is_all_zeros] in H.
  destruct (Z.eqb_spec c 0) as [->|]; [|discriminate]. destruct i as [|i]; [reflexivity|]. apply (IH i); [lia|exact H].
Qed.

#[local] Opaque over layers.

Lemma make_header_eq name type size : tame name → (length name ≤ 99)%nat → (∀ c, c ∈ name → 0 < c < 256) → type ≠ USTAR_EOF → 0 ≤ size < 2 ^ 31 →
  ∃ mode sz mtime ck, let ls := header_layers name mode sz mtime ck (type_char type) in
    ustar_make_header name type size = Ok (Some (layers ls)) ∧ pieces_ok name mode sz mtime (type_char type) ∧
    length ck = 8%nat ∧ (∀ c, c ∈ ck → 0 ≤ c < 256) ∧ parse_octal_field sz = Some size ∧ parse_octal_field ck = Some (calculate_chksum (layers ls)).
Proof.
  intros Ht Hn Hb Hty Hs.
  destruct (snprintf_octal 7 "%07o" (match type with USTAR_REGULAR => 420 | _ => 493 end))
    as (dm & Em & Lm & _ & Bm); [destruct type; simpl; lia|destruct type; lia|lia|by destruct type|by eexists _, _|].
  destruct (snprintf_octal 11 "%011o" size) as (ds & Es & Ls & Vs & Bs); [simpl; lia|lia|lia|reflexivity|by eexists _, _|].
  destruct (snprintf_octal 11 "%011o" 1136102400) as (dt & Et & Lt & _ & Bt); [simpl; lia|lia|lia|reflexivity|by eexists _, _|].
  assert (P : pieces_ok name (octal dm ++ [0]) (octal ds ++ [0]) (octal dt ++ [0]) (type_char type)).
  { split; try done. destruct type; simpl; try lia. done. }
  set (h := before_chksum name (octal dm ++ [0]) (octal ds ++ [0]) (octal dt ++ [0]) (type_char type)).
  pose proof (header_layers_ok _ _ _ _ (replicate 8 0) _ P eq_refl ltac:(intros c [-> _]%elem_of_replicate; lia)) as Ho.
  apply Forall_cons in Ho as [_ Ho].
  assert (Hr : 0 ≤ calculate_chksum h < 8 ^ 7) by (apply chksum_range; intros i; unfold h; rewrite before_layers; by apply layers_bytes).
  destruct (snprintf_octal 7 "%07o" (calculate_chksum h)) as (dc & Ec & Lc & Vc & Bc); [simpl; lia|lia|lia|reflexivity|by eexists _, _|].
  exists (octal dm ++ [0]), (octal ds ++ [0]), (octal dt ++ [0]), (octal dc ++ [0]). cbv zeta. split_and!; try done.
  - unfold ustar_make_header. rewrite (obind_ok _ _ tt) by by destruct type. rewrite (strip_id _ Ht), (obind_ok (Ok name) _ name) by done.
    rewrite Z.gtb_ltb. destruct (Z.ltb_spec 99 (Z.of_nat (length name))); [lia|]. cbv zeta.
    rewrite Em, (obind_ok (Ok _) _ _ eq_refl), Es, (obind_ok (Ok _) _ _ eq_refl), Et, (obind_ok (Ok _) _ _ eq_refl).
    assert (Eh : strlcpy_at 0 100 name (replicate 512 0) = over 0 (name ++ [0]) (replicate 512 0)).
    { unfold strlcpy_at. by rewrite take_ge by lia. }
    assert (Eu : u8 (type_char type) = type_char type) by by destruct type.
    rewrite Eh, Eu. rewrite !(strlcpy_lit _ _ "0000000"), (strlcpy_lit _ _ "ustar"), !(strlcpy_lit _ _ "root") by reflexivity.
    change (chr "0") with 48. fold (before_chksum name (octal dm ++ [0]) (octal ds ++ [0]) (octal dt ++ [0]) (type_char type)).
    fold h. rewrite Ec, (obind_ok (Ok _) _ _ eq_refl). by rewrite layers_before.
  - rewrite Vc. f_equal. symmetry. rewrite layers_before. apply chksum_over; [done|]. unfold h. rewrite before_layers. by apply layers_length.
Qed.

(** a name that needs no change *)
Lemma make_parse n type size : tame n → (length n ≤ 99)%nat → (∀ c, c ∈ n → 0 < c < 256) → type ≠ USTAR_EOF → 0 ≤ size < 2 ^ 31 →
  ∃ h, ustar_make_header n type size = Ok (Some h) ∧ length h = 512%nat ∧
    ustar_parse_header h = Ok (inr (Some n, type, match type with USTAR_REGULAR => size | _ => 0 end)).
Proof.
  intros Ht Hl Hb' Hty Hs.
  destruct (make_header_eq n type size Ht Hl Hb' Hty Hs) as (mode & sz & mt & ck & E & P & Lc & Bc & Vs & Vc). cbv zeta in E, Vc.
  eexists. split; [exact E|]. pose proof (header_layers_ok _ _ _ _ ck _ P Lc Bc) as Ho. split; [by apply layers_length|].
  destruct (header_version _ _ _ _ ck _ P Lc Bc) as [V1 V2]. destruct (header_name _ _ _ _ ck _ P Lc Bc) as (N1 & N2 & N3).
  unfold ustar_parse_header. rewrite (header_magic _ _ _ _ ck _ P Lc Bc), V1, V2, (header_chksum _ _ _ _ ck _ P Lc Bc), Vc, (Z.eqb_refl (calculate_chksum _)), N2, N3,
    (header_type _ _ _ _ ck _ P Lc Bc), (header_size _ _ _ _ ck _ P Lc Bc), Vs, N1, (strip_id _ Ht).
  rewrite bool_decide_eq_true_2 by done. change (48 =? chr "0") with true. cbn [negb orb Z.eqb].
  assert (Hz : is_all_zeros (layers (header_layers n mode sz mt ck (type_char type))) = false).
  { destruct (is_all_zeros _) eqn:Ez; [|reflexivity]. pose proof (all_zeros_lookup _ o_version ltac:(rewrite layers_length by exact Ho; unfold offset; lia) Ez) as Ha. rewrite V1 in Ha. discriminate Ha. }
  rewrite Hz. destruct type; [|reflexivity|by destruct Hty]. change (type_char USTAR_REGULAR =? type_char USTAR_REGULAR) with true. cbv iota. rewrite Z.gtb_ltb. by destruct (Z.ltb_spec INT_MAX size); [unfold INT_MAX in *; lia|].
Qed.


