(* ===== verification/Filesys.v ===== *)
(** filesys/directory.c and filesys/filesys.c: the root directory and the operations
    on named files.

    A name is the list of its characters.  A directory entry is its 20 bytes; the
    bytes of a name behind its terminating null keep what the entry held before. *)

From S2P Require Import Prelude Bitmap Inode.

Definition NAME_MAX : Z := 14.
Definition sizeof_entry : Z := 20.

Record dir := mk_dir { dinode : Z; dpos : Z }.

(** the 20 bytes of an entry *)
Definition entry := list Z.

Definition e_sector (e : entry) : Z := match bytes_bits e with s :: _ => s | [] => 0 end.
Definition e_in_use (e : entry) : bool := negb (e !!! 19%nat =? 0).

(** [e.name] as a string; a name that is not terminated is not one *)
Fixpoint until_null (l : list Z) : option (list Z) :=
  match l with
  | [] => None
  | c :: r => if c =? 0 then Some [] else (c ::.) <$> until_null r
  end.
Definition e_name (e : entry) : outcome (list Z) := ofault (until_null (take 15 (drop 4 e))).

(** [e] with the name, the sector and the flag set, as [strlcpy] leaves the name *)
Definition make_entry (e : entry) (name : list Z) (sec : Z) : entry :=
  elem_bytes sec ++ take 15 (name ++ [0] ++ drop (length name + 1) (take 15 (drop 4 e))) ++ [1].
Definition clear_entry (e : entry) : entry := take 19 e ++ [0].

(** ** directory.c *)

Definition dir_create (sec entry_cnt : Z) : F bool := inode_create sec (entry_cnt * sizeof_entry).

Definition dir_open (ino : Z) : F (option dir) :=
  d ← alloc;
  if negb (ino =? 0) && negb (d =? 0) then mret (Some (mk_dir ino 0))
  else inode_close ino;; mret None.

Definition dir_open_root : F (option dir) := p ← inode_open ROOT_DIR_SECTOR; dir_open p.

Definition dir_reopen (d : dir) : F (option dir) := p ← inode_reopen d.(dinode); dir_open p.

Definition dir_close (d : option dir) : F unit :=
  match d with None => mret tt | Some d => inode_close d.(dinode) end.

Definition dir_get_inode (d : dir) : Z := d.(dinode).

(** the turns a loop over the entries needs: one more than there are entries *)
Definition entry_turns (len : Z) : nat := Z.to_nat (len / sizeof_entry) + 2.

(** the first entry from [ofs] on that [found] is true of, and its offset; [e] is
    what the local variable holds *)
Fixpoint scan (n : nat) (ino : Z) (found : entry → outcome bool) (e : entry) (ofs : Z) : F (bool * entry * Z) :=
  match n with
  | O => fail NoFuel
  | S n' =>
      l ← inode_read_at ino sizeof_entry ofs;
      let e := l ++ drop (length l) e in
      if Z.of_nat (length l) =? sizeof_entry then
        b ← lift_out (found e);
        if (b : bool) then mret (true, e, ofs) else scan n' ino found e (ofs + sizeof_entry)
      else mret (false, e, ofs)
  end.

Definition name_is (name : list Z) (e : entry) : outcome bool :=
  if e_in_use e then n ← e_name e; Ok (bool_decide (name = n)) else Ok false.

Section operations.
(** what an uninitialised entry holds *)
Variable junk : entry.

(** the entry and its offset *)
Definition lookup (d : dir) (name : list Z) : F (option (entry * Z)) :=
  len ← inode_length d.(dinode);
  '(b, e, ofs) ← scan (entry_turns len) d.(dinode) (name_is name) junk 0;
  mret (if (b : bool) then Some (e, ofs) else None).

(** the inode, or 0 *)
Definition dir_lookup (d : dir) (name : list Z) : F Z :=
  r ← lookup d name;
  match r with Some (e, _) => inode_open (e_sector e) | None => mret 0 end.

Definition dir_add (d : dir) (name : list Z) (inode_sector : Z) : F bool :=
  if bool_decide (name = []) || (NAME_MAX <? Z.of_nat (length name)) then mret false else
  r ← lookup d name;
  match r with
  | Some _ => mret false
  | None =>
      len ← inode_length d.(dinode);
      '(_, e, ofs) ← scan (entry_turns len) d.(dinode) (λ e, Ok (negb (e_in_use e))) junk 0;
      n ← inode_write_at d.(dinode) (make_entry e name inode_sector) sizeof_entry ofs;
      mret (n =? sizeof_entry)
  end.

Definition dir_remove (d : dir) (name : list Z) : F bool :=
  r ← lookup d name;
  match r with
  | None => inode_close 0;; mret false
  | Some (e, ofs) =>
      p ← inode_open (e_sector e);
      if p =? 0 then inode_close p;; mret false else
      n ← inode_write_at d.(dinode) (clear_entry e) sizeof_entry ofs;
      if negb (n =? sizeof_entry) then inode_close p;; mret false
      else inode_remove p;; inode_close p;; mret true
  end.

(** the next name and the directory with its position moved on *)
Fixpoint readdir_loop (n : nat) (d : dir) : F (option (list Z) * dir) :=
  match n with
  | O => fail NoFuel
  | S n' =>
      l ← inode_read_at d.(dinode) sizeof_entry d.(dpos);
      if Z.of_nat (length l) =? sizeof_entry then
        let d := mk_dir d.(dinode) (d.(dpos) + sizeof_entry) in
        if e_in_use l then name ← lift_out (e_name l); mret (Some name, d) else readdir_loop n' d
      else mret (None, d)
  end.

Definition dir_readdir (d : dir) : F (option (list Z) * dir) :=
  len ← inode_length d.(dinode); readdir_loop (entry_turns len) d.

(** ** filesys.c *)

Definition do_format : F unit :=
  free_map_create;;
  ok ← dir_create ROOT_DIR_SECTOR 16;
  assert ok;;
  free_map_close.

(** [init]: what the memory of the free map holds before *)
Definition filesys_init (format : bool) (init : nat → Z) : F unit :=
  modify (λ s, set_inodes s.(inodes) [] s);;
  free_map_init init;;
  (if format then do_format else mret tt);;
  free_map_open.

Definition filesys_done : F unit := free_map_close.

(** the conjunction that decides about the success of [filesys_create]: the result,
    and [inode_sector] *)
Definition create_steps (d : option dir) (name : list Z) (initial_size : Z) : F (bool * Z) :=
  match d with
  | None => mret (false, 0)
  | Some d =>
      sec ← free_map_allocate 1;
      match sec with
      | None => mret (false, 0)
      | Some sec =>
          ok ← inode_create sec initial_size;
          if negb ok then mret (false, sec) else
          ok ← dir_add d name sec; mret (ok, sec)
      end
  end.

Definition filesys_create (name : list Z) (initial_size : Z) : F bool :=
  d ← dir_open_root;
  '(success, inode_sector) ← create_steps d name initial_size;
  (if negb success && negb (inode_sector =? 0) then free_map_release inode_sector 1 else mret tt);;
  dir_close d;; mret success.

Definition filesys_open (name : list Z) : F Z :=
  d ← dir_open_root;
  p ← match d with Some d => dir_lookup d name | None => mret 0 end;
  dir_close d;; file_open p.

Definition filesys_remove (name : list Z) : F bool :=
  d ← dir_open_root;
  ok ← match d with Some d => dir_remove d name | None => mret false end;
  dir_close d;; mret ok.
End operations.

(** * A directory as a map *)

(** entry [k] of a directory's bytes *)
Definition ent (c : list Z) (k : nat) : entry := take 20 (drop (20 * k) c).

(** the directory's inode holds [m] entries whose names are terminated *)
Record dir_ok (s : fstate) (p : Z) (i : inode) (m : nat) : Prop := {
  dk_inode : s.(inodes) !! p = Some i;
  dk_fits : fits s.(disk) i;
  dk_allocs : s.(allocs) = [];
  dk_ptr : 0 < s.(next_ptr);
  dk_len : i.(ilength) = 20 * Z.of_nat m;
  dk_names : ∀ k, (k < m)%nat → e_in_use (ent (content s.(disk) i) k) = true →
    ∃ n, e_name (ent (content s.(disk) i) k) = Ok n
}.

Lemma inode_length_eq s p i : s.(inodes) !! p = Some i → inode_length p s = Ok (i.(ilength), s).
Proof. intros E. unfold inode_length. by rewrite (bind_ok _ _ _ _ _ (get_inode_eq _ _ _ E)). Qed.

Lemma heaped_dir s s' p i m : heaped s s' → dir_ok s p i m → dir_ok s' p i m.
Proof. intros (n & Hn & ->) []. by split. Qed.

Lemma length_ent s p i m k : dir_ok s p i m → (k < m)%nat → length (ent (content s.(disk) i) k) = 20%nat.
Proof.
  intros D Hk. unfold ent. rewrite length_take, length_drop, (length_content _ _ (dk_fits _ _ _ _ D)), (dk_len _ _ _ _ D). lia.
Qed.

(** the read of an entry *)
Lemma read_entry s p i m k : dir_ok s p i m → (k ≤ m)%nat →
  ∃ s', inode_read_at p sizeof_entry (20 * Z.of_nat k) s =
      Ok (if decide (k < m)%nat then ent (content s.(disk) i) k else [], s') ∧ heaped s s'.
Proof.
  intros D Hk. destruct (inode_read_at_eq s p i 20 (20 * Z.of_nat k)) as (s' & E & Hh); [apply D..|lia|lia|].
  exists s'. split; [|done]. unfold sizeof_entry. rewrite E. f_equal. f_equal.
  replace (Z.to_nat (20 * Z.of_nat k)) with (20 * k)%nat by lia. change (Z.to_nat 20) with 20%nat.
  destruct (decide (k < m)%nat); [done|]. rewrite drop_ge; [done|].
  rewrite (length_content _ _ (dk_fits _ _ _ _ D)), (dk_len _ _ _ _ D). lia.
Qed.

(** the result of a search from entry [k] *)
Definition scan_result (c : list Z) (m : nat) (P : entry → bool) (k : nat) (r : bool * entry * Z) : Prop :=
  (∃ j, (k ≤ j < m)%nat ∧ P (ent c j) = true ∧ (∀ j', (k ≤ j' < j)%nat → P (ent c j') = false) ∧
     r = (true, ent c j, 20 * Z.of_nat j)) ∨
  ((∀ j, (k ≤ j < m)%nat → P (ent c j) = false) ∧ ∃ e, length e = 20%nat ∧ r = (false, e, 20 * Z.of_nat m)).

Lemma scan_spec s p i m found P n k e : dir_ok s p i m → (k ≤ m)%nat → (m < k + n)%nat → length e = 20%nat →
  (∀ j, (j < m)%nat → found (ent (content s.(disk) i) j) = Ok (P (ent (content s.(disk) i) j))) →
  ∃ r s', scan n p found e (20 * Z.of_nat k) s = Ok (r, s') ∧ scan_result (content s.(disk) i) m P k r ∧ heaped s s'.
Proof.
  revert k e s. induction n as [|n IH]; intros k e s D Hk Hn He Hfound; [lia|]. cbn [scan].
  destruct (read_entry s p i m k D Hk) as (s1 & E & Hh). rewrite (bind_ok _ _ _ _ _ E). cbv zeta.
  destruct (decide (k < m)%nat) as [Hlt|Hge].
  2: { exists (false, [] ++ drop 0 e, 20 * Z.of_nat k), s1. split; [done|]. split; [|done]. right.
       split; [intros; lia|]. exists (drop 0 e). split; [done|]. do 2 f_equal. lia. }
  pose proof (length_ent s p i m k D Hlt) as Hl. rewrite Hl. change (Z.of_nat 20 =? sizeof_entry) with true. cbv iota.
  rewrite drop_ge, app_nil_r by lia. erewrite bind_ok by (by apply lift_out_eq, Hfound).
  assert (Hd1 : s1.(disk) = s.(disk)) by (by destruct Hh as (? & _ & ->)).
  set (c := content s.(disk) i) in *. destruct (P (ent c k)) eqn:EP.
  - exists (true, ent c k, 20 * Z.of_nat k), s1. split; [done|]. split; [|done]. left. exists k.
    split_and!; [lia|lia|done|intros; lia|done].
  - destruct (IH (S k) (ent c k) s1) as (r & s' & E' & Hr & Hh'); [by apply (heaped_dir s)|lia|lia|done|by rewrite Hd1|].
    exists r, s'. unfold sizeof_entry. replace (20 * Z.of_nat k + 20) with (20 * Z.of_nat (S k)) by lia.
    split; [done|]. split; [|by apply (heaped_trans s s1)]. rewrite Hd1 in Hr. fold c in Hr.
    destruct Hr as [(j & Hj & HP & Hbefore & ->)|[Hnone (e' & He' & ->)]].
    + left. exists j. split_and!; [lia|lia|done| |done]. intros j' Hj'. destruct (decide (j' = k)) as [->|]; [done|].
      apply Hbefore. lia.
    + right. split; [|by exists e']. intros j Hj. destruct (decide (j = k)) as [->|]; [done|]. apply Hnone. lia.
Qed.

(** ** Entries *)

(** entry [e] is in use and has the name [n] *)
Definition named (n : list Z) (e : entry) : bool :=
  e_in_use e && match e_name e with Ok x => bool_decide (n = x) | Err _ => false end.

(** the entry of a name, and the sector it stands for *)
Definition dir_find (c : list Z) (m : nat) (n : list Z) : option (nat * entry) :=
  list_find (λ e, named n e = true) (ent c <$> seq 0 m).
Definition dir_map (c : list Z) (m : nat) (n : list Z) : option Z := (λ '(_, e), e_sector e) <$> dir_find c m n.

Lemma name_is_named s p i m n k : dir_ok s p i m → (k < m)%nat →
  name_is n (ent (content s.(disk) i) k) = Ok (named n (ent (content s.(disk) i) k)).
Proof.
  intros D Hk. unfold name_is, named. destruct (e_in_use _) eqn:E; [|done].
  destruct (dk_names _ _ _ _ D k Hk E) as [x ->]. done.
Qed.

Lemma ents_lookup c m j : (ent c <$> seq 0 m) !! j = if decide (j < m)%nat then Some (ent c j) else None.
Proof.
  rewrite list_lookup_fmap. destruct (decide (j < m)%nat).
  - by rewrite lookup_seq_lt.
  - by rewrite lookup_seq_ge by lia.
Qed.

Lemma dir_find_Some c m n j e : dir_find c m n = Some (j, e) ↔
  (j < m)%nat ∧ e = ent c j ∧ named n e = true ∧ ∀ j', (j' < j)%nat → named n (ent c j') = false.
Proof.
  unfold dir_find. rewrite list_find_Some, ents_lookup. split.
  - intros (Hj & He & Hb). destruct (decide (j < m)%nat); [|done]. injection Hj as <-. split_and!; [done..|].
    intros j' Hj'. apply not_true_iff_false. apply (Hb j' _); [|done]. rewrite ents_lookup. by rewrite decide_True by lia.
  - intros (Hj & -> & He & Hb). rewrite decide_True by done. split_and!; [done..|]. intros j' y. rewrite ents_lookup.
    intros Hy Hj'. rewrite decide_True in Hy by lia. injection Hy as <-. by rewrite (Hb j' Hj').
Qed.

Lemma dir_find_None c m n : dir_find c m n = None ↔ ∀ j, (j < m)%nat → named n (ent c j) = false.
Proof.
  unfold dir_find. rewrite list_find_None, Forall_forall. split.
  - intros H j Hj. apply not_true_iff_false, H. apply (list_elem_of_lookup_2 _ j). rewrite ents_lookup. by rewrite decide_True.
  - intros H e [j He]%list_elem_of_lookup. rewrite ents_lookup in He. destruct (decide (j < m)%nat); [|done].
    injection He as <-. by rewrite H.
Qed.

Lemma entry_turns_enough m : (m < 0 + entry_turns (20 * Z.of_nat m))%nat.
Proof.
  unfold entry_turns, sizeof_entry. rewrite (Z.mul_comm 20), Z.div_mul by done. rewrite Nat2Z.id. lia.
Qed.

Lemma lookup_spec junk s p i m pos n : dir_ok s p i m → length junk = 20%nat →
  ∃ s', lookup junk (mk_dir p pos) n s =
      Ok ((λ '(j, e), (e, 20 * Z.of_nat j)) <$> dir_find (content s.(disk) i) m n, s') ∧ heaped s s'.
Proof.
  intros D Hjunk. unfold lookup. simpl dinode. rewrite (bind_ok _ _ _ _ _ (inode_length_eq _ _ _ (dk_inode _ _ _ _ D))).
  rewrite (dk_len _ _ _ _ D). pose proof (entry_turns_enough m) as Ht. set (t := entry_turns _) in *. clearbody t.
  destruct (scan_spec s p i m (name_is n) (named n) t 0 junk D ltac:(lia) Ht Hjunk) as (r & s' & E & Hr & Hh).
  { intros j Hj. by apply (name_is_named s p i m). }
  exists s'. split; [|done]. rewrite (bind_ok _ _ _ _ _ E). destruct Hr as [(j & Hj & HP & Hb & ->)|[Hnone (e & _ & ->)]].
  - rewrite (proj2 (dir_find_Some _ m n j (ent (content s.(disk) i) j))); [done|]. split_and!; [lia|done|done|].
    intros j' Hj'. apply Hb. lia.
  - rewrite (proj2 (dir_find_None _ m n)); [done|]. intros j Hj. apply Hnone. lia.
Qed.

(** ** New entries *)

Lemma until_null_app n r : 0 ∉ n → until_null (n ++ 0 :: r) = Some n.
Proof.
  induction n as [|c n IH]; intros Hn; [done|]. apply not_elem_of_cons in Hn as [Hc Hn]. simpl.
  destruct (Z.eqb_spec c 0); [done|]. by rewrite IH.
Qed.

Section make_entry.
Context (e : entry) (name : list Z) (sec : Z).
Hypothesis He : length e = 20%nat.
Hypothesis Hlen : (0 < length name ≤ 14)%nat.
Hypothesis Hname : 0 ∉ name.
Hypothesis Hsec : 0 ≤ sec < 2 ^ 32.

Let field : list Z := name ++ [0] ++ drop (length name + 1) (take 15 (drop 4 e)).

Lemma length_field : length field = 15%nat.
Proof using He Hlen.
  unfold field. rewrite !length_app, length_drop, length_take, length_drop, He. cbn [length]. lia.
Qed.

Lemma make_entry_eq : make_entry e name sec = elem_bytes sec ++ field ++ [1].
Proof using He Hlen. unfold make_entry. fold field. by rewrite take_ge by (rewrite length_field; lia). Qed.

Lemma length_make_entry : length (make_entry e name sec) = 20%nat.
Proof using He Hlen. rewrite make_entry_eq, !length_app, length_field. done. Qed.

Lemma make_entry_in_use : e_in_use (make_entry e name sec) = true.
Proof using He Hlen.
  unfold e_in_use. rewrite make_entry_eq, app_assoc.
  assert (E : length (elem_bytes sec ++ field) = 19%nat) by (rewrite length_app, length_field; done).
  rewrite (list_lookup_total_correct _ _ 1); [done|]. rewrite lookup_app_r by lia. by rewrite E.
Qed.

Lemma make_entry_name : e_name (make_entry e name sec) = Ok name.
Proof using He Hlen Hname.
  unfold e_name. rewrite make_entry_eq. rewrite (drop_app_length' (elem_bytes sec)) by done.
  rewrite take_app_le by (rewrite length_field; lia). rewrite take_ge by (rewrite length_field; lia).
  unfold field. change ([0] ++ ?r) with (0 :: r). by rewrite until_null_app.
Qed.

Lemma make_entry_sector : e_sector (make_entry e name sec) = sec.
Proof using He Hlen Hsec. unfold e_sector. by rewrite make_entry_eq, elem_bytes_bits. Qed.
End make_entry.

Lemma ent_over c m j e k : length c = (20 * m)%nat → (j < m)%nat → (k < m)%nat → length e = 20%nat →
  ent (over (20 * j) e c) k = if decide (k = j) then e else ent c k.
Proof.
  intros Hc Hj Hk He. unfold ent. apply list_eq. intros x. rewrite lookup_take, lookup_drop, over_lookup by lia.
  destruct (decide (k = j)) as [->|Hne].
  - destruct (decide (x < 20)%nat) as [Hx|Hx].
    + rewrite decide_True by lia. f_equal. lia.
    + symmetry. apply lookup_ge_None. lia.
  - rewrite lookup_take, lookup_drop. destruct (decide (x < 20)%nat) as [Hx|Hx]; [|done].
    rewrite decide_False; [done|]. intros Hr. destruct (decide (k < j)%nat); lia.
Qed.

(** the directory with an entry put into a free slot, as a map *)
Lemma dir_map_add c m j e name sec n : length c = (20 * m)%nat → (j < m)%nat → length e = 20%nat →
  e_in_use (ent c j) = false → dir_find c m name = None →
  e_in_use e = true → e_name e = Ok name → e_sector e = sec →
  dir_map (over (20 * j) e c) m n = if decide (n = name) then Some sec else dir_map c m n.
Proof.
  intros Hc Hj He Hfree Hnone Hu Hname Hsec.
  assert (Hent : ∀ k, (k < m)%nat → ent (over (20 * j) e c) k = if decide (k = j) then e else ent c k)
    by (intros; by apply (ent_over c m)).
  assert (Hold : ∀ x, named x (ent c j) = false) by (intros x; unfold named; by rewrite Hfree).
  assert (Hnew : ∀ x, named x e = bool_decide (x = name)) by (intros x; unfold named; by rewrite Hu, Hname).
  rewrite dir_find_None in Hnone. unfold dir_map. destruct (decide (n = name)) as [->|Hne].
  - assert (dir_find (over (20 * j) e c) m name = Some (j, e)) as ->; [|simpl; by rewrite Hsec].
    apply dir_find_Some. rewrite Hent, decide_True by done. split_and!; [done|done|rewrite Hnew; by apply bool_decide_true|].
    intros j' Hj'. rewrite Hent, decide_False by lia. apply Hnone. lia.
  - f_equal. destruct (dir_find c m n) as [[k x]|] eqn:E.
    + apply dir_find_Some in E as (Hk & -> & Hn & Hb). apply dir_find_Some.
      assert (k ≠ j) by (intros ->; by rewrite Hold in Hn).
      rewrite Hent, decide_False by done. split_and!; [done..|]. intros j' Hj'. rewrite Hent by lia.
      destruct (decide (j' = j)) as [->|]; [rewrite Hnew; by apply bool_decide_false|by apply Hb].
    + rewrite dir_find_None in E. apply dir_find_None. intros k Hk. rewrite Hent by done.
      destruct (decide (k = j)) as [->|]; [rewrite Hnew; by apply bool_decide_false|by apply E].
Qed.

(** what adding [name] does to a directory *)
Record added (s s' : fstate) (i : inode) (m : nat) (name : list Z) (sec : Z) : Prop := {
  ad_map : ∀ n, dir_map (content s'.(disk) i) m n = if decide (n = name) then Some sec else dir_map (content s.(disk) i) m n;
  ad_apart : ∀ j, fits s.(disk) j → apart i j → content s'.(disk) j = content s.(disk) j
}.

(** the directory has a free slot *)
Definition has_slot (c : list Z) (m : nat) : Prop := ∃ j, (j < m)%nat ∧ e_in_use (ent c j) = false.

Lemma written_dir s s' p i m j e : dir_ok s p i m → (j < m)%nat → length e = 20%nat →
  (∃ n, e_name e = Ok n) → written s s' i (20 * Z.of_nat j) e → dir_ok s' p i m.
Proof.
  intros D Hj He Hn [(d & np & Hnp & ->) Hlen Hf Hc _]. pose proof D as [Hi Hfi Ha Hp Hl Hnm].
  split; try done. intros k Hk. rewrite Hc. replace (Z.to_nat (20 * Z.of_nat j)) with (20 * j)%nat by lia.
  rewrite (ent_over _ m) by (done || rewrite (length_content _ _ Hfi); lia). destruct (decide (k = j)); [done|]. by apply Hnm.
Qed.

(** the write of an entry, into a slot or behind the last one *)
Lemma write_entry s p i m k e : dir_ok s p i m → i.(deny_write_cnt) = 0 → length e = 20%nat → (∃ n, e_name e = Ok n) →
  (k ≤ m)%nat →
  ∃ s', inode_write_at p e sizeof_entry (20 * Z.of_nat k) s = Ok (if decide (k < m)%nat then 20 else 0, s') ∧
    dir_ok s' p i m ∧ (∀ j, fits s.(disk) j → apart i j → content s'.(disk) j = content s.(disk) j) ∧
    content s'.(disk) i = if decide (k < m)%nat then over (20 * k) e (content s.(disk) i) else content s.(disk) i.
Proof.
  intros D Hd He Hn Hk. destruct (inode_write_at_eq s p i e (20 * Z.of_nat k)) as (s' & E & W); [apply D..|done|lia|].
  set (n := avail i (Z.of_nat (length e)) (20 * Z.of_nat k)) in *.
  assert (Hav : n = if decide (k < m)%nat then 20 else 0).
  { unfold n, avail. rewrite (dk_len _ _ _ _ D), He. destruct (decide (k < m)%nat); lia. }
  rewrite He in E. change (Z.of_nat 20) with sizeof_entry in E. exists s'. rewrite E, Hav. split; [done|].
  rewrite Hav in W. clear Hav n E. destruct (decide (k < m)%nat) as [Hlt|Hge].
  - rewrite take_ge in W by (rewrite He; done). split; [by apply (written_dir s s' p i m k e)|].
    destruct W as [_ _ _ Hc Hap]. split; [done|]. rewrite Hc. f_equal. lia.
  - rewrite take_0 in W. destruct W as [(d & np & Hnp & ->) Hlen Hf Hc Hap]. rewrite over_nil in Hc.
    split; [|split; [done|done]]. destruct D. split; try done. intros x Hx. rewrite Hc. by apply dk_names0.
Qed.

Lemma dir_add_spec junk s p i m pos name sec : dir_ok s p i m → length junk = 20%nat → i.(deny_write_cnt) = 0 →
  name ≠ [] → (length name ≤ 14)%nat → 0 ∉ name → 0 ≤ sec < 2 ^ 32 →
  ∃ b s', dir_add junk (mk_dir p pos) name sec s = Ok (b, s') ∧ dir_ok s' p i m ∧
    (b = true ↔ dir_map (content s.(disk) i) m name = None ∧ has_slot (content s.(disk) i) m) ∧
    (b = true → added s s' i m name sec) ∧ (b = false → content s'.(disk) i = content s.(disk) i).
Proof.
  intros D Hjunk Hd Hne Hlen Hz Hsec. unfold dir_add. rewrite bool_decide_false by done. cbn [orb].
  destruct (Z.ltb_spec NAME_MAX (Z.of_nat (length name))); [unfold NAME_MAX in *; lia|].
  destruct (lookup_spec junk s p i m pos name D Hjunk) as (s1 & E1 & Hh1). rewrite (bind_ok _ _ _ _ _ E1).
  set (c := content s.(disk) i) in *. unfold dir_map. fold c. assert (D1 : dir_ok s1 p i m) by by apply (heaped_dir s).
  assert (Hd1 : s1.(disk) = s.(disk)) by (by destruct Hh1 as (? & _ & ->)).
  destruct (dir_find c m name) as [[j0 e0]|] eqn:Efind; simpl.
  { exists false, s1. split; [done|]. split; [done|]. split; [split; [done|by intros []]|]. split; [done|]. by rewrite Hd1. }
  rewrite (bind_ok _ _ _ _ _ (inode_length_eq _ _ _ (dk_inode _ _ _ _ D1))), (dk_len _ _ _ _ D1).
  pose proof (entry_turns_enough m) as Ht. set (t := entry_turns _) in *. clearbody t.
  destruct (scan_spec s1 p i m (λ e, Ok (negb (e_in_use e))) (λ e, negb (e_in_use e)) t 0 junk D1 ltac:(lia) Ht Hjunk)
    as (r & s2 & E2 & Hr & Hh2); [done|]. rewrite (bind_ok _ _ _ _ _ E2). rewrite Hd1 in Hr. fold c in Hr.
  assert (D2 : dir_ok s2 p i m) by by apply (heaped_dir s1).
  assert (Hd2 : s2.(disk) = s.(disk)) by (destruct Hh2 as (? & _ & ->); done).
  pose proof (length_content _ _ (dk_fits _ _ _ _ D)) as Hlc. rewrite (dk_len _ _ _ _ D) in Hlc. fold c in Hlc.
  assert (Hnm : (0 < length name ≤ 14)%nat) by (destruct name; [done|simpl in *; lia]).
  assert (Hw : ∀ e k, length e = 20%nat → (k ≤ m)%nat → ∃ s', inode_write_at p (make_entry e name sec) sizeof_entry (20 * Z.of_nat k) s2 =
      Ok (if decide (k < m)%nat then 20 else 0, s') ∧ dir_ok s' p i m ∧
      (∀ j, fits s.(disk) j → apart i j → content s'.(disk) j = content s.(disk) j) ∧
      content s'.(disk) i = if decide (k < m)%nat then over (20 * k) (make_entry e name sec) c else c).
  { intros e k He Hk. destruct (write_entry s2 p i m k (make_entry e name sec) D2 Hd) as (s' & E & D' & Hap & Hc).
    - by apply length_make_entry.
    - exists name. by apply make_entry_name.
    - done.
    - exists s'. rewrite Hd2 in Hap, Hc. done. }
  destruct Hr as [(j & Hj & HP & Hb & ->)|[Hnone (e & He & ->)]]; cbv iota beta.
  - assert (Hlj : length (ent c j) = 20%nat) by (apply (length_ent s p i m); [done|lia]).
    destruct (Hw (ent c j) j Hlj ltac:(lia)) as (s3 & E3 & D3 & Hap & Hc). rewrite decide_True in E3 by lia. rewrite decide_True in Hc by lia.
    rewrite (bind_ok _ _ _ _ _ E3). exists true, s3. split; [done|]. split; [done|].
    split; [split; [intros _; split; [done|]|done]|split; [|done]].
    { exists j. split; [lia|]. by apply negb_true_iff. }
    intros _. split; [|done]. fold c. intros n. rewrite Hc.
    apply (dir_map_add c m j); [lia|lia|by apply length_make_entry|by apply negb_true_iff|done|by apply make_entry_in_use|by apply make_entry_name|by apply make_entry_sector].
  - destruct (Hw e m He ltac:(lia)) as (s3 & E3 & D3 & Hap & Hc). rewrite decide_False in E3 by lia. rewrite decide_False in Hc by lia.
    rewrite (bind_ok _ _ _ _ _ E3). exists false, s3. split; [done|]. split; [done|]. split; [|split; [done|done]].
    split; [done|]. intros [_ (j & Hj & Hu)]. specialize (Hnone j ltac:(lia)). by rewrite Hu in Hnone.
Qed.

(** * Statements *)

(** C9. a directory is a map from names to sectors.  [dir_add] of a valid name
    succeeds exactly when the name is not in use and a slot is free; it then maps the
    name to the sector and leaves the other names and all files on other sectors
    alone, and otherwise it changes nothing.  The directory stays well formed, and no
    search runs on forever. *)
Theorem dir_add_refines junk s p i m pos name sec : dir_ok s p i m → length junk = 20%nat → i.(deny_write_cnt) = 0 →
  name ≠ [] → (length name ≤ 14)%nat → 0 ∉ name → 0 ≤ sec < 2 ^ 32 →
  ∃ b s', dir_add junk (mk_dir p pos) name sec s = Ok (b, s') ∧ dir_ok s' p i m ∧
    (b = true ↔ dir_map (content s.(disk) i) m name = None ∧ has_slot (content s.(disk) i) m) ∧
    (b = true → added s s' i m name sec) ∧ (b = false → content s'.(disk) i = content s.(disk) i).
Proof. apply dir_add_spec. Qed.

(** a directory of sixteen free entries *)
Definition ex_dir_inode : inode := mk_inode 1 1 false 0 3 320.
Definition ex_dir_fs : fstate := mk_fstate (replicate 8 (replicate 512 0)) {[ 10 := ex_dir_inode ]} [10] ∅ (mk_bitmap 8 [15]) 0 100 [].

Lemma ex_dir_ok : dir_ok ex_dir_fs 10 ex_dir_inode 16.
Proof.
  split; [done| |done|done|done|].
  - split; try (simpl; lia). repeat constructor.
  - assert (Hall : forallb (λ k, negb (e_in_use (ent (content ex_dir_fs.(disk) ex_dir_inode) k))) (seq 0 16) = true) by (vm_compute; reflexivity).
    intros k Hk Hu. rewrite forallb_forall in Hall. specialize (Hall k). rewrite in_seq in Hall. rewrite Hu in Hall.
    specialize (Hall ltac:(lia)). done.
Qed.

Lemma dir_add_refines_witness : ∃ b s', dir_add (replicate 20 0xaa) (mk_dir 10 0) [97; 98] 7 ex_dir_fs = Ok (b, s') ∧
  (b = true → dir_map (content s'.(disk) ex_dir_inode) 16 [97; 98] = Some 7).
Proof.
  destruct (dir_add_refines (replicate 20 0xaa) ex_dir_fs 10 ex_dir_inode 16 0 [97; 98] 7 ex_dir_ok) as (b & s' & E & _ & _ & Ha & _).
  - reflexivity.
  - reflexivity.
  - discriminate.
  - simpl. lia.
  - vm_compute. intros H. repeat (apply elem_of_cons in H as [?|H]; [discriminate|]). by apply elem_of_nil in H.
  - lia.
  - exists b, s'. split; [exact E|]. intros Hb. by rewrite (ad_map _ _ _ _ _ _ (Ha Hb)).
Defined.

(** the used sectors *)
Definition used_sectors : F Z := s ← get; lift_out (bitmap_count s.(free_map) 0 (Z.of_nat (length s.(disk))) true).

(** a disk of 64 sectors is formatted, and a file of 1024 bytes created twice *)
Definition create_twice (junk : entry) (name : list Z) : F (bool * bool * Z * Z) :=
  filesys_init true (λ _, 0);;
  b1 ← filesys_create junk name 1024;
  n1 ← used_sectors;
  b2 ← filesys_create junk name 1024;
  n2 ← used_sectors;
  mret (b1, b2, n1, n2).

(** when the name exists already, [filesys_create] fails but the two sectors it
    allocated for the data stay marked as used: only the sector of the inode is
    released. *)
Theorem filesys_create_leaks :
  match create_twice (replicate 20 0) [97; 98] (mk_fstate (replicate 64 (replicate 512 0)) ∅ [] ∅ (mk_bitmap 0 []) 0 1000 []) with
  | Ok (r, _) => r = (true, false, 7, 9)
  | Err _ => False
  end.
Proof. vm_compute. reflexivity. Qed.
