(* ===== verification/Pagedir.v ===== *)
(** userprog/pagedir.c: page directories and page tables.

    The memory is the byte memory of the page allocator; an entry is a 32-bit word
    of it.  The processor is [cr3] and the translations its TLB holds; writing [cr3]
    empties the TLB.  [init_page_dir] and [init_ram_pages], set when the kernel
    starts and constant from then on, are arguments.  [mapping m pd va] is what the
    tables of [pd] say of the page of [va]. *)

From S2P Require Import Prelude Vaddr Bitmap CString Words Palloc.

Record mmu := mk_mmu { ps : pstate; cr3 : Z; tlb : gmap Z Z }.

Abbreviation D := (M mmu).

(** a routine of the page allocator *)
Definition in_palloc {A} (x : P A) : D A := λ s,
  match x s.(ps) with Ok (a, p) => Ok (a, mk_mmu p s.(cr3) s.(tlb)) | Err e => Err e end.

Definition ld (p : Z) : D Z := in_palloc (in_mem (load32 p)).
Definition st (p v : Z) : D unit := in_palloc (in_mem (store32 p v)).

(** [movl %0, %%cr3] *)
Definition write_cr3 (v : Z) : D unit := modify (λ s, mk_mmu s.(ps) v ∅).

(** * The routines *)

Section pagedir.
Context (init_page_dir init_ram_pages : Z).

Definition pagedir_activate (pd : Z) : D unit :=
  p ← lift_out (vtop (if pd =? 0 then init_page_dir else pd)); write_cr3 p.

Definition active_pd : D Z := s ← get; lift_out (ptov s.(cr3)).

Definition invalidate_pagedir (pd : Z) : D unit :=
  a ← active_pd; if a =? pd then pagedir_activate pd else mret tt.

Definition pagedir_create : D Z :=
  pd ← in_palloc (palloc_get_page 0);
  if pd =? 0 then mret 0 else in_palloc (in_mem (memcpy pd init_page_dir PGSIZE));; mret pd.

(** the address of the entry for [vaddr], or 0 *)
Definition lookup_page (pd vaddr : Z) (create : bool) : D Z :=
  assert (negb (pd =? 0));;
  assert (negb create || is_user_vaddr vaddr);;
  let pde := pd + 4 * pd_no vaddr in
  e ← ld pde;
  there ← (if e =? 0 then
             if create then
               pt ← in_palloc (palloc_get_page PAL_ZERO);
               if pt =? 0 then mret false else e ← lift_out (pde_create pt); st pde e;; mret true
             else mret false
           else mret true);
  if (there : bool) then e ← ld pde; pt ← lift_out (pde_get_pt e); mret (pt + 4 * pt_no vaddr) else mret 0.

Definition pagedir_set_page (pd upage kpage : Z) (writable : bool) : D bool :=
  assert (pg_ofs upage =? 0);;
  assert (pg_ofs kpage =? 0);;
  assert (is_user_vaddr upage);;
  p ← lift_out (vtop kpage);
  assert (Z.shiftr p PTSHIFT <? init_ram_pages);;
  assert (negb (pd =? init_page_dir));;
  pte ← lookup_page pd upage true;
  if pte =? 0 then mret false else
  e ← ld pte;
  assert (Z.land e PTE_P =? 0);;
  e ← lift_out (pte_create_user kpage writable);
  st pte e;;
  mret true.

Definition pagedir_get_page (pd uaddr : Z) : D Z :=
  assert (is_user_vaddr uaddr);;
  pte ← lookup_page pd uaddr false;
  if pte =? 0 then mret 0 else
  e ← ld pte;
  if has e PTE_P then p ← lift_out (pte_get_page e); mret (u32 (p + pg_ofs uaddr)) else mret 0.

Definition pagedir_clear_page (pd upage : Z) : D unit :=
  assert (pg_ofs upage =? 0);;
  assert (is_user_vaddr upage);;
  pte ← lookup_page pd upage false;
  if pte =? 0 then mret tt else
  e ← ld pte;
  if has e PTE_P then st pte (Z.land e (u32 (Z.lnot PTE_P)));; invalidate_pagedir pd else mret tt.

(** [pagedir_is_dirty] and [pagedir_is_accessed] read one flag ... *)
Definition test_flag (pd vpage flag : Z) : D bool :=
  pte ← lookup_page pd vpage false;
  if pte =? 0 then mret false else e ← ld pte; mret (has e flag).

(** ... and [pagedir_set_dirty] and [pagedir_set_accessed] write it. *)
Definition put_flag (pd vpage flag : Z) (value : bool) : D unit :=
  pte ← lookup_page pd vpage false;
  if pte =? 0 then mret tt else
  e ← ld pte;
  if value then st pte (Z.lor e flag) else st pte (Z.land e (u32 (Z.lnot flag)));; invalidate_pagedir pd.

Definition pagedir_is_dirty (pd vpage : Z) : D bool := test_flag pd vpage PTE_D.
Definition pagedir_set_dirty (pd vpage : Z) (dirty : bool) : D unit := put_flag pd vpage PTE_D dirty.
Definition pagedir_is_accessed (pd vpage : Z) : D bool := test_flag pd vpage PTE_A.
Definition pagedir_set_accessed (pd vpage : Z) (accessed : bool) : D unit := put_flag pd vpage PTE_A accessed.

(** the loop over the [n] entries from [pte] on of a page table *)
Fixpoint free_pages (pte : Z) (n : nat) : D unit :=
  match n with
  | O => mret tt
  | S n =>
    e ← ld pte;
    (if has e PTE_P then p ← lift_out (pte_get_page e); in_palloc (palloc_free_page p) else mret tt);;
    free_pages (pte + 4) n
  end.

(** the loop over the [n] entries from [pde] on of a page directory *)
Fixpoint free_tables (pde : Z) (n : nat) : D unit :=
  match n with
  | O => mret tt
  | S n =>
    e ← ld pde;
    (if has e PTE_P then
       pt ← lift_out (pde_get_pt e); free_pages pt (Z.to_nat (PGSIZE / 4));; in_palloc (palloc_free_page pt)
     else mret tt);;
    free_tables (pde + 4) n
  end.

Definition pagedir_destroy (pd : Z) : D unit :=
  if pd =? 0 then mret tt else
  assert (negb (pd =? init_page_dir));;
  free_tables pd (Z.to_nat (pd_no PHYS_BASE));;
  in_palloc (palloc_free_page pd).

End pagedir.

(** * Entries *)

(** the page an entry points to, as a kernel address *)
Definition tab (e : Z) : Z := 4096 * (e / 4096) + PHYS_BASE.

Lemma has_bit e k : 0 ≤ k → has e (2 ^ k) = Z.testbit e k.
Proof.
  intros Hk. unfold has. destruct (Z.testbit e k) eqn:E.
  - destruct (Z.eqb_spec (Z.land e (2 ^ k)) 0) as [H|]; [|done].
    apply (f_equal (λ x, Z.testbit x k)) in H. rewrite Z.land_spec, E, Z.pow2_bits_true, Z.bits_0 in H by done. done.
  - replace (Z.land e (2 ^ k)) with 0; [done|]. symmetry. apply Z.bits_inj'. intros n Hn.
    rewrite Z.land_spec, Z.bits_0. destruct (decide (n = k)) as [->|Hne]; [by rewrite E|].
    rewrite Z.pow2_bits_false by done. apply andb_false_r.
Qed.

Lemma tab_shift e : tab e = 4096 * Z.shiftr e 12 + PHYS_BASE.
Proof. unfold tab. by rewrite Z.shiftr_div_pow2. Qed.

Lemma tab_lor e f : 0 ≤ f < 4096 → tab (Z.lor e f) = tab e.
Proof.
  intros Hf. rewrite !tab_shift, Z.shiftr_lor, (Z.shiftr_div_pow2 f) by lia.
  rewrite (Z.div_small f) by lia. by rewrite Z.lor_0_r.
Qed.

Lemma tab_land e k : 0 ≤ e < 2 ^ 32 → Z.shiftr k 12 = Z.ones 20 → tab (Z.land e k) = tab e.
Proof.
  intros He Hk. rewrite !tab_shift, Z.shiftr_land, Hk, Z.land_ones, Z.shiftr_div_pow2 by lia.
  rewrite Z.mod_small; [done|]. split; [apply Z.div_pos; lia|]. apply Z.div_lt_upper_bound; lia.
Qed.

Lemma tab_page p : p mod 4096 = 0 → tab (p - PHYS_BASE) = p.
Proof.
  intros Hp. unfold tab, PHYS_BASE. pose proof (Z.div_mod p 4096).
  assert (p - 0xc0000000 = (p / 4096 - 786432) * 4096) as -> by lia. rewrite Z.div_mul by done. lia.
Qed.

Lemma tab_mod e : tab e mod 4096 = 0.
Proof. unfold tab, PHYS_BASE. rewrite Z.mul_comm, Z.add_comm, Z.mod_add; done. Qed.

(** a page-aligned kernel address *)
Definition kpage_at (p : Z) : Prop := p mod 4096 = 0 ∧ PHYS_BASE ≤ p < 2 ^ 32.

Lemma ptov_tab e : 0 ≤ e < 2 ^ 32 → tab e < 2 ^ 32 → ptov (Z.land e PTE_ADDR) = Ok (tab e).
Proof.
  intros He Ht. unfold PTE_ADDR. rewrite land_hi by done. unfold tab in *. rewrite ptov_eq; [done|].
  pose proof (Z.div_pos e 4096). unfold PHYS_BASE in *. lia.
Qed.

Lemma pde_get_pt_eq e : 0 ≤ e < 2 ^ 32 → has e PTE_P = true → tab e < 2 ^ 32 → pde_get_pt e = Ok (tab e).
Proof. intros He Hp Ht. unfold pde_get_pt. rewrite Hp. by apply ptov_tab. Qed.

Lemma phys_small p : kpage_at p → 0 ≤ p - PHYS_BASE < 2 ^ 30.
Proof. unfold kpage_at, PHYS_BASE. lia. Qed.

Lemma lor_range a b : 0 ≤ a < 2 ^ 32 → 0 ≤ b < 2 ^ 32 → 0 ≤ Z.lor a b < 2 ^ 32.
Proof.
  intros Ha Hb. split; [apply Z.lor_nonneg; lia|].
  destruct (Z.eq_dec (Z.lor a b) 0) as [->|Hne]; [lia|]. apply Z.log2_lt_pow2.
  { pose proof (proj2 (Z.lor_nonneg a b) ltac:(lia)). lia. }
  rewrite Z.log2_lor by lia. apply Z.max_lub_lt.
  - destruct (Z.eq_dec a 0) as [->|]; [done|]. apply Z.log2_lt_pow2; lia.
  - destruct (Z.eq_dec b 0) as [->|]; [done|]. apply Z.log2_lt_pow2; lia.
Qed.

Lemma page_low_bits p k : p mod 4096 = 0 → 0 ≤ k < 12 → Z.testbit p k = false.
Proof.
  intros Hp Hk. rewrite <- (Z.mod_pow2_bits_low p 12 k) by lia. change (2 ^ 12) with 4096. rewrite Hp. apply Z.bits_0.
Qed.

(** the entry for page [p] with flags [f] *)
Definition mk_entry (p f : Z) : Z := Z.lor (p - PHYS_BASE) f.

Lemma phys_aligned p : p mod 4096 = 0 → (p - PHYS_BASE) mod 4096 = 0.
Proof. intros Hp. unfold PHYS_BASE. by rewrite Zminus_mod, Hp. Qed.

Lemma mk_entry_spec p f : kpage_at p → 0 ≤ f < 4096 →
  0 ≤ mk_entry p f < 2 ^ 32 ∧ tab (mk_entry p f) = p ∧ (∀ k, 0 ≤ k < 12 → has (mk_entry p f) (2 ^ k) = Z.testbit f k).
Proof.
  intros Hp Hf. pose proof (phys_small p Hp). destruct Hp as [Hm Hr]. unfold mk_entry. split_and!.
  - apply lor_range; lia.
  - apply lor_range; lia.
  - rewrite tab_lor by done. by apply tab_page.
  - intros k Hk. rewrite has_bit, Z.lor_spec, page_low_bits by (done || lia || by apply phys_aligned). done.
Qed.

Lemma mk_entry_nz p f : kpage_at p → 0 ≤ f < 4096 → Z.testbit f 0 = true → mk_entry p f ≠ 0.
Proof.
  intros Hp Hf Hb E. destruct (mk_entry_spec p f Hp Hf) as (_ & _ & H). specialize (H 0 ltac:(lia)).
  rewrite E, Hb in H. done.
Qed.

Lemma vtop_page p : kpage_at p → vtop p = Ok (p - PHYS_BASE).
Proof. intros [_ H]. by apply vtop_eq. Qed.

Lemma pde_create_eq p : kpage_at p → pde_create p = Ok (mk_entry p 7).
Proof.
  intros Hp. unfold pde_create. rewrite pg_ofs_eq, (proj1 Hp). cbn [oassert mbind outcome_bind].
  rewrite (obind_ok _ _ _ (vtop_page p Hp)). unfold mk_entry. by rewrite <- !Z.lor_assoc.
Qed.

Lemma pte_create_user_eq p w : kpage_at p →
  pte_create_user p w = Ok (mk_entry p (if w then 7 else 5)).
Proof.
  intros Hp. unfold pte_create_user, pte_create_kernel. rewrite pg_ofs_eq, (proj1 Hp).
  rewrite (obind_ok (oassert _) _ tt) by done. rewrite (obind_ok _ _ _ (vtop_page p Hp)). unfold mk_entry.
  rewrite (obind_ok _ _ _ eq_refl). rewrite <- !Z.lor_assoc. by destruct w.
Qed.

(** * Page directories in memory *)

Definition mm (s : mmu) : mem := s.(ps).(pmem).
Definition kpool (s : mmu) : pool := s.(ps).(kernel_pool).
Definition upool (s : mmu) : pool := s.(ps).(user_pool).

Definition set_mm (m : mem) (s : mmu) : mmu :=
  mk_mmu (mk_pstate (kpool s) (upool s) m) s.(cr3) s.(tlb).

Record mmu_wf (s : mmu) : Prop := {
  mw_palloc : palloc_wf s.(ps);
  mw_base : PHYS_BASE ≤ (kpool s).(base)
}.

(** entry [i] of the directory [pd] *)
Definition dir_entry (m : mem) (pd i : Z) : Z := word m (pd + 4 * i).

(** the pages of kernel memory that the tables of [pd] for user addresses are made of *)
Definition owns (m : mem) (pd x : Z) : Prop :=
  x = pd ∨ ∃ i, 0 ≤ i < 768 ∧ dir_entry m pd i ≠ 0 ∧ x = tab (dir_entry m pd i).

Record pd_ok (s : mmu) (pd : Z) : Prop := {
  po_pd : used (kpool s) pd;
  po_tab i : 0 ≤ i < 768 → dir_entry (mm s) pd i ≠ 0 →
    has (dir_entry (mm s) pd i) PTE_P = true ∧ used (kpool s) (tab (dir_entry (mm s) pd i)) ∧
    tab (dir_entry (mm s) pd i) ≠ pd;
  po_inj i j : 0 ≤ i < 768 → 0 ≤ j < 768 → dir_entry (mm s) pd i ≠ 0 → dir_entry (mm s) pd j ≠ 0 →
    tab (dir_entry (mm s) pd i) = tab (dir_entry (mm s) pd j) → i = j
}.

Definition pte_addr (m : mem) (pd va : Z) : Z := tab (dir_entry m pd (pd_no va)) + 4 * pt_no va.

(** the page-table entry for [va]; 0 where there is no page table *)
Definition entry (m : mem) (pd va : Z) : Z :=
  if dir_entry m pd (pd_no va) =? 0 then 0 else word m (pte_addr m pd va).

(** the page [va] is mapped to, and whether it is writable *)
Definition mapping (m : mem) (pd va : Z) : option (Z * bool) :=
  let e := entry m pd va in if has e PTE_P then Some (tab e, has e PTE_W) else None.

Definition user_addr (va : Z) : Prop := 0 ≤ va < PHYS_BASE.

Lemma pd_no_range va : user_addr va → 0 ≤ pd_no va < 768.
Proof.
  unfold user_addr, PHYS_BASE. intros H. rewrite pd_no_eq.
  split; [apply Z.div_pos; lia|]. apply Z.div_lt_upper_bound; lia.
Qed.

Lemma pt_no_range va : 0 ≤ pt_no va < 1024.
Proof. rewrite pt_no_eq. by apply Z.mod_pos_bound. Qed.

Lemma same_page va va' : pd_no va = pd_no va' → pt_no va = pt_no va' → pg_no va = pg_no va'.
Proof.
  rewrite !pd_no_eq, !pt_no_eq, !pg_no_eq. change (2 ^ 22) with (4096 * 1024). rewrite <- !Z.div_div by done.
  intros H1 H2. rewrite (Z.div_mod (va / 4096) 1024), (Z.div_mod (va' / 4096) 1024) by done. congruence.
Qed.

Lemma pg_no_same va va' : pg_no va = pg_no va' → pd_no va = pd_no va' ∧ pt_no va = pt_no va'.
Proof.
  rewrite !pd_no_eq, !pt_no_eq, !pg_no_eq. change (2 ^ 22) with (4096 * 1024). rewrite <- !Z.div_div by done.
  by intros ->.
Qed.

Lemma pages_apart x y a b : x mod 4096 = 0 → y mod 4096 = 0 → x ≠ y →
  x ≤ a < x + 4096 → y ≤ b < y + 4096 → a ≠ b.
Proof. intros. pose proof (Z.div_mod x 4096). pose proof (Z.div_mod y 4096). lia. Qed.

Lemma used_kpage s x : mmu_wf s → used (kpool s) x → kpage_at x.
Proof.
  intros [Hwf Hb] (Hr & Hm & _). split; [done|]. destruct Hwf as [[_ _ He] _ _ _].
  unfold kpool, PGSIZE in *. lia.
Qed.

Lemma used_writable s x a n : mmu_wf s → used (kpool s) x → x ≤ a → a + n ≤ x + 4096 → writable (mm s) a n.
Proof.
  intros Hwf (Hr & Hm & _) Ha Hn b Hb. pose proof (mw_palloc _ Hwf) as Hp. apply (awf_mem _ Hp false).
  pose proof (awf_kernel _ Hp) as [_ [_ Hbm] _]. simpl. unfold kpool, PGSIZE, pool_end, PGSIZE in *.
  pose proof (Z.div_mod x 4096). pose proof (Z.div_mod (base (kernel_pool (ps s))) 4096). lia.
Qed.

Lemma ld_eq s a : writable (mm s) a 4 → ld a s = Ok (word (mm s) a, s).
Proof.
  intros H. unfold ld, in_palloc, in_mem. fold (mm s). rewrite load32_eq by done. by destruct s as [[] ? ?].
Qed.

Lemma st_eq s a v : writable (mm s) a 4 → st a v s = Ok (tt, set_mm (wr (mm s) a v) s).
Proof. intros H. unfold st, in_palloc, in_mem. fold (mm s). by rewrite store32_eq. Qed.

Lemma mmu_wf_set s m : mmu_wf s → (∀ a, is_Some (mm s !! a) → is_Some (m !! a)) → mmu_wf (set_mm m s).
Proof. intros [Hp Hb] Hm. split; [by apply palloc_wf_mem|done]. Qed.

Lemma mmu_wf_wr s a v : mmu_wf s → mmu_wf (set_mm (wr (mm s) a v) s).
Proof. intros H. apply mmu_wf_set; [done|]. intros x. apply write_is_Some. Qed.

(** * Looking an entry up *)

Section tables.
Context (s : mmu) (pd : Z).
Hypothesis Hwf : mmu_wf s.
Hypothesis Hok : pd_ok s pd.

Lemma pde_writable i : 0 ≤ i < 1024 → writable (mm s) (pd + 4 * i) 4.
Proof using All. intros Hi. apply (used_writable s pd); [done|apply Hok|lia..]. Qed.

Lemma pd_positive : 0 < pd ∧ pd mod 4096 = 0.
Proof using All. destruct (used_kpage s pd Hwf (po_pd _ _ Hok)). unfold PHYS_BASE in *. lia. Qed.

Lemma pte_in va : user_addr va → dir_entry (mm s) pd (pd_no va) ≠ 0 →
  let x := tab (dir_entry (mm s) pd (pd_no va)) in
  used (kpool s) x ∧ x ≠ pd ∧ x mod 4096 = 0 ∧ x ≤ pte_addr (mm s) pd va ∧ pte_addr (mm s) pd va + 4 ≤ x + 4096.
Proof using All.
  intros Hva Hd. destruct (po_tab _ _ Hok _ (pd_no_range va Hva) Hd) as (_ & Hu & Hne).
  pose proof (pt_no_range va). unfold pte_addr. pose proof (tab_mod (dir_entry (mm s) pd (pd_no va))).
  cbv zeta. split_and!; (done || lia).
Qed.

Lemma pte_writable va : user_addr va → dir_entry (mm s) pd (pd_no va) ≠ 0 → writable (mm s) (pte_addr (mm s) pd va) 4.
Proof using All.
  intros Hva Hd. destruct (pte_in va Hva Hd) as (Hu & _ & _ & ? & ?). by eapply used_writable.
Qed.

Lemma pte_positive va : user_addr va → dir_entry (mm s) pd (pd_no va) ≠ 0 →
  0 < pte_addr (mm s) pd va ∧ pte_addr (mm s) pd va mod 4 = 0.
Proof using All.
  intros Hva Hd. destruct (pte_in va Hva Hd) as (Hu & _ & Hm & ? & ?).
  destruct (used_kpage _ _ Hwf Hu) as [_ Hr]. split; [unfold PHYS_BASE in *; lia|].
  unfold pte_addr. rewrite (Z.mul_comm 4), Z.mod_add by done.
  rewrite (Z.div_mod (tab _) 4096), Hm, Z.add_0_r by done. change 4096 with (1024 * 4).
  rewrite (Z.mul_comm (1024 * 4)), Z.mul_assoc. by apply Z.mod_mul.
Qed.

Lemma lookup_table va there : user_addr va → dir_entry (mm s) pd (pd_no va) ≠ 0 →
  (if (there : bool) then e ← ld (pd + 4 * pd_no va); pt ← lift_out (pde_get_pt e); mret (pt + 4 * pt_no va)
   else mret 0) s = Ok (if there then pte_addr (mm s) pd va else 0, s).
Proof using All.
  intros Hva Hd. pose proof (pd_no_range va Hva) as Hi. destruct there; [|done].
  rewrite (bind_ok _ _ _ _ _ (ld_eq s _ (pde_writable (pd_no va) ltac:(lia)))).
  destruct (po_tab _ _ Hok _ Hi Hd) as (Hp & Hu & _). destruct (used_kpage _ _ Hwf Hu) as [_ Hr].
  rewrite (bind_ok _ _ s (tab (dir_entry (mm s) pd (pd_no va))) s); [done|].
  apply lift_out_eq. apply pde_get_pt_eq; [apply word_range|done|lia].
Qed.

Lemma lookup_found va c : user_addr va → dir_entry (mm s) pd (pd_no va) ≠ 0 →
  lookup_page pd va c s = Ok (pte_addr (mm s) pd va, s).
Proof using All.
  intros Hva Hd. pose proof (pd_no_range va Hva) as Hi. destruct pd_positive. unfold lookup_page.
  rewrite assert_bind by (by apply nz_true).
  rewrite assert_bind by (unfold is_user_vaddr; rewrite (proj2 (Z.ltb_lt _ _) (proj2 Hva)); apply orb_true_r).
  rewrite (bind_ok _ _ _ _ _ (ld_eq s _ (pde_writable (pd_no va) ltac:(lia)))).
  fold (dir_entry (mm s) pd (pd_no va)). rewrite (proj2 (Z.eqb_neq _ _) Hd).
  rewrite (bind_ok (mret true) _ s true s) by done. by apply (lookup_table va true).
Qed.

Lemma lookup_missing va : user_addr va → dir_entry (mm s) pd (pd_no va) = 0 → lookup_page pd va false s = Ok (0, s).
Proof using All.
  intros Hva Hd. pose proof (pd_no_range va Hva) as Hi. destruct pd_positive. unfold lookup_page.
  rewrite assert_bind by (by apply nz_true). rewrite assert_bind by done.
  rewrite (bind_ok _ _ _ _ _ (ld_eq s _ (pde_writable (pd_no va) ltac:(lia)))).
  fold (dir_entry (mm s) pd (pd_no va)). by rewrite Hd.
Qed.

(** reading the entry a lookup has found; a missing table reads as an empty entry *)
Lemma lookup_then {A} va (x : A) (f : Z → Z → D A) : user_addr va →
  (pte ← lookup_page pd va false; if pte =? 0 then mret x else e ← ld pte; f pte e) s =
  (if dir_entry (mm s) pd (pd_no va) =? 0 then Ok (x, s)
   else f (pte_addr (mm s) pd va) (entry (mm s) pd va) s).
Proof using All.
  intros Hva. unfold entry. destruct (Z.eqb_spec (dir_entry (mm s) pd (pd_no va)) 0) as [E|E].
  - by rewrite (bind_ok _ _ _ _ _ (lookup_missing va Hva E)).
  - rewrite (bind_ok _ _ _ _ _ (lookup_found va false Hva E)).
    destruct (pte_positive va Hva E). destruct (Z.eqb_spec (pte_addr (mm s) pd va) 0); [lia|].
    by rewrite (bind_ok _ _ _ _ _ (ld_eq s _ (pte_writable va Hva E))).
Qed.
End tables.

(** * Changing an entry *)

(** from [s] to [s'], only the tables of [pd] have changed; they have grown only by
    pages of the kernel pool that were free *)
Record changes (s s' : mmu) (pd : Z) : Prop := {
  ch_wf : mmu_wf s';
  ch_ok : pd_ok s' pd;
  ch_upool : upool s' = upool s;
  ch_used x : used (kpool s') x ↔ used (kpool s) x ∨ owns (mm s') pd x;
  ch_fresh x : owns (mm s') pd x → owns (mm s) pd x ∨ ¬ used (kpool s) x;
  ch_keep x : owns (mm s) pd x → owns (mm s') pd x;
  ch_mem a : (∀ x, owns (mm s') pd x → ¬ (x ≤ a < x + 4096)) → mm s' !! a = mm s !! a
}.

Lemma owns_used s pd x : pd_ok s pd → owns (mm s) pd x → used (kpool s) x.
Proof. intros H [->|(i & Hi & Hd & ->)]; [apply H|]. by apply (po_tab _ _ H). Qed.

Lemma changes_refl s pd : mmu_wf s → pd_ok s pd → changes s s pd.
Proof. intros Hwf Hok. split; try done; try tauto. intros x. split; [tauto|]. intros [|]; [done|]. by eapply owns_used. Qed.

Lemma changes_trans s1 s2 s3 pd : changes s1 s2 pd → changes s2 s3 pd → changes s1 s3 pd.
Proof.
  intros [] []. split; try done.
  - congruence.
  - intros x. rewrite ch_used1, ch_used0. specialize (ch_keep1 x). tauto.
  - intros x H. destruct (ch_fresh1 x H) as [?|Hn]; [by apply ch_fresh0|]. right. rewrite ch_used0 in Hn. tauto.
  - intros x H. by apply ch_keep1, ch_keep0.
  - intros a Ha. rewrite ch_mem1 by done. apply ch_mem0. intros x Hx. by apply Ha, ch_keep1.
Qed.

(** the tables of a directory, and what they say, depend on its pages only *)
Lemma dir_entry_ext m m' pd : (∀ a, pd ≤ a < pd + 4096 → m' !! a = m !! a) →
  ∀ i, 0 ≤ i < 768 → dir_entry m' pd i = dir_entry m pd i.
Proof. intros H i Hi. apply word_ext. intros x Hx. apply H. lia. Qed.

Lemma mm_set m s : mm (set_mm m s) = m.
Proof. done. Qed.

Lemma used_align p x : used p x → x mod 4096 = 0.
Proof. by intros (_ & ? & _). Qed.

Section write_entry.
Context (s : mmu) (pd va v : Z).
Hypothesis Hwf : mmu_wf s.
Hypothesis Hok : pd_ok s pd.
Hypothesis Hva : user_addr va.
Hypothesis Hd : dir_entry (mm s) pd (pd_no va) ≠ 0.
Hypothesis Hv : 0 ≤ v < 2 ^ 32.

Let m' := wr (mm s) (pte_addr (mm s) pd va) v.

Lemma wr_dir i : 0 ≤ i < 768 → dir_entry m' pd i = dir_entry (mm s) pd i.
Proof using Hwf Hok Hva Hd.
  revert i. apply dir_entry_ext. intros a Ha. apply lookup_wr_out. intros Hx.
  destruct (pte_in s pd Hwf Hok va Hva Hd) as (_ & Hne & Hm & ? & ?).
  destruct (pd_positive s pd Hwf Hok) as [_ Hpm]. eapply (pages_apart _ _ a a Hm Hpm Hne); lia.
Qed.

Lemma wr_entry va' : user_addr va' → entry m' pd va' = if pg_no va' =? pg_no va then v else entry (mm s) pd va'.
Proof using All.
  intros Hva'. unfold entry. rewrite wr_dir by (by apply pd_no_range).
  assert (Hp : pte_addr m' pd va' = pte_addr (mm s) pd va') by (unfold pte_addr; by rewrite wr_dir by (by apply pd_no_range)).
  rewrite Hp. destruct (Z.eqb_spec (pg_no va') (pg_no va)) as [E|E].
  - destruct (pg_no_same va' va E) as [E1 E2]. unfold pte_addr. rewrite E1, E2.
    destruct (Z.eqb_spec (dir_entry (mm s) pd (pd_no va)) 0); [done|]. fold (pte_addr (mm s) pd va). by apply word_wr.
  - destruct (Z.eqb_spec (dir_entry (mm s) pd (pd_no va')) 0) as [|Hd']; [done|].
    apply word_wr_ne; [by apply pte_positive..|]. destruct (decide (pd_no va = pd_no va')) as [E1|E1].
    + unfold pte_addr. rewrite <- E1. intros E2. apply E. symmetry. apply same_page; [done|lia].
    + destruct (pte_in s pd Hwf Hok va Hva Hd) as (_ & _ & Hm & ? & ?).
      destruct (pte_in s pd Hwf Hok va' Hva' Hd') as (_ & _ & Hm' & ? & ?).
      eapply (pages_apart _ _ _ _ Hm Hm'); [|lia..]. intros E2. apply E1.
      by apply (po_inj _ _ Hok _ _ (pd_no_range va Hva) (pd_no_range va' Hva')).
Qed.

Lemma wr_owns x : owns m' pd x ↔ owns (mm s) pd x.
Proof using Hwf Hok Hva Hd.
  unfold owns. split; (intros [H|(i & Hi & H)]; [by left|right; exists i; split; [done|]]).
  - by rewrite wr_dir in H by done.
  - by rewrite wr_dir by done.
Qed.

Lemma wr_changes : changes s (set_mm m' s) pd.
Proof using All.
  assert (Hok' : pd_ok (set_mm m' s) pd).
  { split; [apply Hok|..]; rewrite mm_set.
    - intros i Hi. rewrite !wr_dir by done. by apply Hok.
    - intros i j Hi Hj. rewrite !wr_dir by done. by apply Hok. }
  split; rewrite ?mm_set; try done.
  - by apply mmu_wf_wr.
  - intros x. rewrite wr_owns. change (kpool (set_mm m' s)) with (kpool s). split; [tauto|]. intros [|]; [done|]. by eapply owns_used.
  - intros x. rewrite wr_owns. tauto.
  - intros x. by rewrite wr_owns.
  - intros a Ha. apply lookup_wr_out. intros Hx. destruct (pte_in s pd Hwf Hok va Hva Hd) as (_ & _ & _ & ? & ?).
    apply (Ha (tab (dir_entry (mm s) pd (pd_no va)))); [|lia]. apply wr_owns. right. exists (pd_no va).
    split; [by apply pd_no_range|done].
Qed.
End write_entry.

(** * A new page table *)

Lemma got_zero s a p : got PAL_ZERO 1 s a p → p.(pmem) = write s.(pmem) a (replicate (Z.to_nat 4096) 0).
Proof.
  intros G. rewrite (got_mem _ _ _ _ _ G). assert (E : has PAL_ZERO PAL_ZERO = true) by done. rewrite E.
  assert (E' : PGSIZE * 1 = 4096) by done. by rewrite E'.
Qed.

Lemma page_group a x : a mod 4096 = 0 → in_group a 1 x ↔ x = a.
Proof.
  intros Hm. unfold in_group, PGSIZE. split; [|intros ->; lia]. intros [Hr Hx].
  pose proof (Z.div_mod x 4096). pose proof (Z.div_mod a 4096). lia.
Qed.

Lemma got_kernel flags s a p : has flags PAL_USER = false → got flags 1 s a p →
  palloc_wf p ∧ ¬ used s.(kernel_pool) a ∧ a mod 4096 = 0 ∧ s.(kernel_pool).(base) ≤ a < pool_end s.(kernel_pool) ∧
  p.(user_pool) = s.(user_pool) ∧ p.(kernel_pool).(base) = s.(kernel_pool).(base) ∧
  (∀ x, used p.(kernel_pool) x ↔ used s.(kernel_pool) x ∨ x = a).
Proof.
  intros Hfl [Hw (Ha & Hm & Hlo & Hhi) Hf Hu [Hb _] Ho _]. rewrite Hfl in *.
  cbn [pool_of negb] in *. change PGSIZE with 4096 in Hm, Hhi.
  split_and!; [exact Hw|by apply Hf, page_group|exact Hm|exact Hlo|lia|exact Ho|exact Hb|].
  intros x. by rewrite Hu, page_group.
Qed.

Lemma word_zeros m a x : a ≤ x → x + 4 ≤ a + 4096 → word (write m a (replicate (Z.to_nat 4096) 0)) x = 0.
Proof.
  intros Hl Hh. assert (B : ∀ y, a ≤ y < a + 4096 → byte_at (write m a (replicate (Z.to_nat 4096) 0)) y = 0).
  { intros y Hy. unfold byte_at. rewrite lookup_write, length_replicate, decide_True by lia.
    rewrite lookup_replicate_2 by lia. done. }
  unfold word. by rewrite !B by lia.
Qed.

Section new_table.
Context (s : mmu) (pd va pt : Z) (p : pstate).
Hypothesis Hwf : mmu_wf s.
Hypothesis Hok : pd_ok s pd.
Hypothesis Hva : user_addr va.
Hypothesis Hd : dir_entry (mm s) pd (pd_no va) = 0.
Hypothesis G : got PAL_ZERO 1 s.(ps) pt p.

Let m1 := write (mm s) pt (replicate (Z.to_nat 4096) 0).
Let m2 := wr m1 (pd + 4 * pd_no va) (mk_entry pt 7).
Let s2 := set_mm m2 (mk_mmu p s.(cr3) s.(tlb)).

Lemma new_pt_facts : kpage_at pt ∧ ¬ used (kpool s) pt.
Proof using Hwf G.
  destruct (got_kernel PAL_ZERO _ _ _ eq_refl G) as (_ & Hn & Hm & Hr & _). split; [|done]. split; [done|].
  destruct Hwf as [[[_ _ He] _ _ _] Hb]. unfold kpool, PGSIZE in *. lia.
Qed.

(** the zeroed page lies apart from every page in use *)
Lemma zeros_out x a : used (kpool s) x → x ≤ a < x + 4096 → m1 !! a = mm s !! a.
Proof using Hwf G.
  intros Hu Ha. destruct new_pt_facts as [[Hm _] Hn]. apply lookup_write_out. rewrite length_replicate.
  assert (x ≠ pt) by (by intros ->). pose proof (used_align _ _ Hu).
  pose proof (Z.div_mod x 4096). pose proof (Z.div_mod pt 4096). lia.
Qed.

Lemma new_dir_out x a : used (kpool s) x → x ≠ pd → x ≤ a < x + 4096 → m2 !! a = mm s !! a.
Proof using Hwf Hok Hva G.
  intros Hu Hne Ha. unfold m2. pose proof (pd_no_range va Hva). rewrite lookup_wr_out; [by eapply zeros_out|].
  intros Hx. apply (pages_apart x pd a a); [by eapply used_align|apply (used_align _ _ (po_pd _ _ Hok))|done|lia..].
Qed.

Lemma new_dir i : 0 ≤ i < 768 → dir_entry m2 pd i = if i =? pd_no va then mk_entry pt 7 else dir_entry (mm s) pd i.
Proof using All.
  intros Hi. destruct new_pt_facts as [Hp Hn]. unfold dir_entry, m2. destruct (Z.eqb_spec i (pd_no va)) as [->|Hne].
  - apply word_wr. by apply mk_entry_spec.
  - assert (Ha : ∀ j, (pd + 4 * j) mod 4 = 0).
    { intros j. destruct (pd_positive s pd Hwf Hok) as [_ Hm]. rewrite (Z.mul_comm 4), Z.mod_add by done.
      rewrite (Z.div_mod pd 4096), Hm, Z.add_0_r by done. change 4096 with (1024 * 4).
      rewrite (Z.mul_comm (1024 * 4)), Z.mul_assoc. by apply Z.mod_mul. }
    rewrite word_wr_ne by (done || lia). apply word_ext. intros x Hx.
    apply (zeros_out pd); [apply Hok|lia].
Qed.

Lemma new_table_ok : pd_ok s2 pd.
Proof using All.
  destruct new_pt_facts as [Hp Hn]. destruct (mk_entry_spec pt 7 Hp ltac:(lia)) as (_ & Ht & Hf).
  destruct (got_kernel PAL_ZERO _ _ _ eq_refl G) as (_ & _ & _ & _ & _ & _ & Hu).
  assert (Hu2 : ∀ x, used (kpool s2) x ↔ used (kpool s) x ∨ x = pt) by exact Hu.
  assert (Hpt : ∀ i, 0 ≤ i < 768 → dir_entry (mm s) pd i ≠ 0 → tab (dir_entry (mm s) pd i) ≠ pt).
  { intros i Hi Hdi E. apply Hn. rewrite <- E. by apply (po_tab _ _ Hok). }
  split; change (mm s2) with m2.
  - apply Hu2. left. apply Hok.
  - intros i Hi. rewrite new_dir by done. rewrite Hu2. destruct (Z.eqb_spec i (pd_no va)).
    + intros _. rewrite Ht. split_and!; [by apply (Hf 0)|by right|]. intros E. apply Hn. rewrite E. apply Hok.
    + intros Hdi. destruct (po_tab _ _ Hok i Hi Hdi) as (? & ? & ?). split_and!; (done || by left).
  - intros i j Hi Hj. rewrite !new_dir by done.
    destruct (Z.eqb_spec i (pd_no va)), (Z.eqb_spec j (pd_no va)); rewrite ?Ht; try congruence.
    + intros _ Hdj E. by destruct (Hpt j Hj Hdj).
    + intros Hdi _ E. by destruct (Hpt i Hi Hdi).
    + by apply Hok.
Qed.

Lemma new_owns x : owns m2 pd x ↔ owns (mm s) pd x ∨ x = pt.
Proof using All.
  destruct new_pt_facts as [Hp Hn]. destruct (mk_entry_spec pt 7 Hp ltac:(lia)) as (_ & Ht & Hf).
  pose proof (mk_entry_nz pt 7 Hp ltac:(lia) eq_refl) as Hnz.
  pose proof (pd_no_range va Hva). unfold owns. split.
  - intros [->|(i & Hi & Hdi & ->)]; [by left; left|]. rewrite new_dir in * by done.
    destruct (Z.eqb_spec i (pd_no va)) as [->|]; [right; done|]. left. right. by exists i.
  - intros [[->|(i & Hi & Hdi & ->)]| ->]; [by left|right..].
    + exists i. rewrite new_dir by done. destruct (Z.eqb_spec i (pd_no va)) as [->|]; done.
    + exists (pd_no va). rewrite new_dir, Z.eqb_refl by done. done.
Qed.

Lemma new_table_changes : changes s s2 pd.
Proof using All.
  destruct new_pt_facts as [Hp Hn].
  destruct (got_kernel PAL_ZERO _ _ _ eq_refl G) as (Hw & _ & _ & _ & Hup & Hb & Hu).
  split; change (mm s2) with m2.
  - apply mmu_wf_set; [split; [exact Hw|]|].
    + change (PHYS_BASE ≤ base (kernel_pool p)). rewrite Hb. apply Hwf.
    + intros x Hx. apply write_is_Some. change (is_Some (pmem p !! x)) in Hx. by rewrite (got_zero _ _ _ G) in Hx.
  - exact new_table_ok.
  - exact Hup.
  - intros x. rewrite new_owns. change (used (kernel_pool p) x ↔ used (kpool s) x ∨ owns (mm s) pd x ∨ x = pt).
    rewrite Hu. fold (kpool s). pose proof (owns_used s pd x Hok). tauto.
  - intros x. rewrite new_owns. intros [?| ->]; [by left|by right].
  - intros x. rewrite new_owns. by left.
  - intros a Ha. unfold m2. rewrite lookup_wr_out.
    + apply lookup_write_out. rewrite length_replicate. specialize (Ha pt ltac:(apply new_owns; by right)). lia.
    + intros Hx. pose proof (pd_no_range va Hva). apply (Ha pd); [by left|lia].
Qed.

Lemma new_entry va' : user_addr va' → entry m2 pd va' = entry (mm s) pd va'.
Proof using All.
  intros Hva'. destruct new_pt_facts as [Hp Hn]. destruct (mk_entry_spec pt 7 Hp ltac:(lia)) as (_ & Ht & Hf).
  pose proof (pd_no_range va' Hva') as Hi. pose proof (pt_no_range va') as Hj. unfold entry, pte_addr. rewrite new_dir by done.
  destruct (Z.eqb_spec (pd_no va') (pd_no va)) as [E|E].
  - rewrite E, Hd, Ht, Z.eqb_refl. destruct (Z.eqb_spec (mk_entry pt 7) 0); [done|].
    rewrite (word_ext m1); [by apply word_zeros; lia|]. intros x Hx. apply lookup_wr_out. intros Hx'.
    pose proof (pd_no_range va Hva). apply (pages_apart pt pd x x); [apply Hp|apply (used_align _ _ (po_pd _ _ Hok))| |lia..].
    intros E2. apply Hn. rewrite E2. apply Hok.
  - destruct (Z.eqb_spec (dir_entry (mm s) pd (pd_no va')) 0) as [|Hd']; [done|]. apply word_ext. intros x Hx.
    destruct (po_tab _ _ Hok _ Hi Hd') as (_ & Hu & Hne). apply (new_dir_out _ _ Hu Hne). lia.
Qed.
End new_table.

(** [s'] has the tables of [s] and one for [va] *)
Record with_table (s s' : mmu) (pd va : Z) : Prop := {
  wt_changes : changes s s' pd;
  wt_dir : dir_entry (mm s') pd (pd_no va) ≠ 0;
  wt_entry va' : user_addr va' → entry (mm s') pd va' = entry (mm s) pd va';
  wt_cr3 : s'.(cr3) = s.(cr3);
  wt_tlb : s'.(tlb) = s.(tlb)
}.

Lemma in_palloc_eq {A} (x : P A) s a p : x s.(ps) = Ok (a, p) → in_palloc x s = Ok (a, mk_mmu p s.(cr3) s.(tlb)).
Proof. intros H. unfold in_palloc. by rewrite H. Qed.

Lemma lookup_create s pd va : mmu_wf s → pd_ok s pd → user_addr va →
  (no_group (kpool s) 1 ∧ lookup_page pd va true s = Ok (0, s)) ∨
  ∃ s', lookup_page pd va true s = Ok (pte_addr (mm s') pd va, s') ∧ with_table s s' pd va.
Proof.
  intros Hwf Hok Hva. pose proof (pd_no_range va Hva) as Hi.
  destruct (decide (dir_entry (mm s) pd (pd_no va) = 0)) as [Hd|Hd].
  2: { right. exists s. split; [by apply lookup_found|]. split; [by apply changes_refl|done..]. }
  pose proof (ld_eq s _ (pde_writable s pd Hwf Hok (pd_no va) ltac:(lia))) as Eld.
  fold (dir_entry (mm s) pd (pd_no va)) in Eld. rewrite Hd in Eld.
  assert (E0 : ∀ f, (assert (negb (pd =? 0));; assert (negb true || is_user_vaddr va);; f) s = f s :> outcome (Z * mmu)).
  { intros f. rewrite assert_bind by (by apply nz_true, (pd_positive s)). rewrite assert_bind; [done|].
    apply Z.ltb_lt, Hva. }
  destruct (palloc_get_cases s.(ps) PAL_ZERO 1 (mw_palloc _ Hwf) ltac:(lia)) as [(pt & p & E & G)|[Hn E]].
  2: { left. split; [exact Hn|]. unfold lookup_page. rewrite E0, (bind_ok _ _ _ _ _ Eld). rewrite Z.eqb_refl.
       change (has PAL_ZERO PAL_ASSERT) with false in E. cbv iota in E.
       rewrite (bind_ok _ _ s false s); [done|]. rewrite (bind_ok _ _ _ _ _ (in_palloc_eq _ _ _ _ E)).
       by destruct s as [[] ? ?]. }
  right. destruct (new_pt_facts s pt p Hwf G) as [Hp Hnu].
  destruct (mk_entry_spec pt 7 Hp ltac:(lia)) as (Hr & Ht & Hf).
  pose proof (new_table_changes s pd va pt p Hwf Hok Hva Hd G) as Hch.
  set (s1 := mk_mmu p s.(cr3) s.(tlb)) in *.
  assert (Hm1 : mm s1 = write (mm s) pt (replicate (Z.to_nat 4096) 0)) by apply (got_zero _ _ _ G).
  rewrite <- Hm1 in Hch. set (s2 := set_mm _ s1) in *. exists s2.
  assert (Hd2 : dir_entry (mm s2) pd (pd_no va) ≠ 0).
  { unfold s2. rewrite mm_set, Hm1, (new_dir s pd va pt p) by done. rewrite Z.eqb_refl.
    exact (mk_entry_nz pt 7 Hp ltac:(lia) eq_refl). }
  assert (Hw : writable (mm s1) (pd + 4 * pd_no va) 4).
  { rewrite Hm1. intros x Hx. apply write_is_Some. apply (pde_writable s pd Hwf Hok (pd_no va)); [lia|done]. }
  split; [|split; [done..| |done|done]].
  - unfold lookup_page. rewrite E0, (bind_ok _ _ _ _ _ Eld), Z.eqb_refl.
    rewrite (bind_ok _ _ s true s2).
    + by rewrite (lookup_table s2 pd (ch_wf _ _ _ Hch) (ch_ok _ _ _ Hch) va true).
    + rewrite (bind_ok _ _ _ _ _ (in_palloc_eq _ _ _ _ E)). fold s1.
      destruct (Z.eqb_spec pt 0) as [?|_]; [destruct Hp; unfold PHYS_BASE in *; lia|].
      rewrite (bind_ok _ _ s1 (mk_entry pt 7) s1) by (by apply lift_out_eq, pde_create_eq).
      by rewrite (bind_ok _ _ _ _ _ (st_eq s1 _ (mk_entry pt 7) Hw)).
  - intros va' Hva'. unfold s2. rewrite mm_set, Hm1. by apply (new_entry s pd va pt p).
Qed.

(** * The operations *)

(** from [s] to [s'] the entry for the page of [va] becomes [v] and no other entry changes *)
Record updates (s s' : mmu) (pd va v : Z) : Prop := {
  up_changes : changes s s' pd;
  up_entry va' : user_addr va' →
    entry (mm s') pd va' = if pg_no va' =? pg_no va then v else entry (mm s) pd va'
}.

(** the active page directory *)
Definition active (s : mmu) : Z := s.(cr3) + PHYS_BASE.

(** the state after the TLB has been emptied, if [pd] is active *)
Definition flush (pd : Z) (s : mmu) : mmu := if active s =? pd then mk_mmu s.(ps) s.(cr3) ∅ else s.

Lemma flush_updates pd' s s' pd va v : updates s s' pd va v → updates s (flush pd' s') pd va v.
Proof. intros H. unfold flush. destruct (_ =? _); [|done]. destruct H as [[] ?]. split; [split|]; try done. by destruct ch_wf0. by destruct ch_ok0. Qed.

Section operations.
Context (init_page_dir init_ram_pages : Z) (s : mmu) (pd va : Z).
Hypothesis Hwf : mmu_wf s.
Hypothesis Hok : pd_ok s pd.
Hypothesis Hva : user_addr va.
Abbreviation e := (entry (mm s) pd va).

Lemma user_true : is_user_vaddr va = true.
Proof using Hva. apply Z.ltb_lt, Hva. Qed.

Lemma entry_present : has e PTE_P = true → dir_entry (mm s) pd (pd_no va) ≠ 0.
Proof using. unfold entry. by destruct (Z.eqb_spec (dir_entry (mm s) pd (pd_no va)) 0). Qed.

Lemma entry_range : 0 ≤ e < 2 ^ 32.
Proof using. unfold entry. destruct (_ =? 0); [lia|apply word_range]. Qed.

(** writing the entry that a lookup has found *)
Lemma write_found v : dir_entry (mm s) pd (pd_no va) ≠ 0 → 0 ≤ v < 2 ^ 32 →
  ∃ s', st (pte_addr (mm s) pd va) v s = Ok (tt, s') ∧ updates s s' pd va v ∧ s'.(cr3) = s.(cr3) ∧ s'.(tlb) = s.(tlb).
Proof using Hwf Hok Hva.
  intros Hd Hv. eexists. split; [apply st_eq; by apply pte_writable|]. split; [split|done].
  - by apply wr_changes.
  - intros va' Hva'. by apply wr_entry.
Qed.

Lemma pagedir_set_page_spec kpage w : pg_ofs va = 0 → kpage_at kpage →
  (kpage - PHYS_BASE) / 4096 < init_ram_pages → pd ≠ init_page_dir → has e PTE_P = false →
  (no_group (kpool s) 1 ∧ pagedir_set_page init_page_dir init_ram_pages pd va kpage w s = Ok (false, s)) ∨
  ∃ s', pagedir_set_page init_page_dir init_ram_pages pd va kpage w s = Ok (true, s') ∧
    updates s s' pd va (mk_entry kpage (if w then 7 else 5)) ∧ s'.(cr3) = s.(cr3) ∧ s'.(tlb) = s.(tlb).
Proof using Hwf Hok Hva.
  intros Ho Hk Hram Hi He. unfold pagedir_set_page. rewrite Ho, pg_ofs_eq, (proj1 Hk).
  do 2 rewrite assert_bind by done. rewrite assert_bind by exact user_true.
  rewrite (bind_ok _ _ s _ s (lift_out_eq _ _ s (vtop_page kpage Hk))).
  rewrite assert_bind by (unfold PTSHIFT, PGBITS; rewrite Z.shiftr_div_pow2 by done; by apply Z.ltb_lt).
  rewrite assert_bind by (by destruct (Z.eqb_spec pd init_page_dir)).
  destruct (lookup_create s pd va Hwf Hok Hva) as [[Hn E]|(s1 & E & [Hch Hd He1 Hc1 Ht1])].
  { left. split; [done|]. by rewrite (bind_ok _ _ _ _ _ E). }
  right. rewrite (bind_ok _ _ _ _ _ E). pose proof (ch_wf _ _ _ Hch) as Hwf1. pose proof (ch_ok _ _ _ Hch) as Hok1.
  destruct (pte_positive s1 pd Hwf1 Hok1 va Hva Hd).
  destruct (Z.eqb_spec (pte_addr (mm s1) pd va) 0); [lia|].
  rewrite (bind_ok _ _ _ _ _ (ld_eq s1 _ (pte_writable s1 pd Hwf1 Hok1 va Hva Hd))).
  assert (Ee : word (mm s1) (pte_addr (mm s1) pd va) = e).
  { rewrite <- (He1 va Hva). unfold entry. by destruct (Z.eqb_spec (dir_entry (mm s1) pd (pd_no va)) 0). }
  rewrite Ee, assert_bind by (unfold has in He; by apply negb_false_iff).
  rewrite (bind_ok _ _ s1 _ s1 (lift_out_eq _ _ s1 (pte_create_user_eq kpage w Hk))).
  destruct (mk_entry_spec kpage (if w then 7 else 5) Hk ltac:(destruct w; lia)) as (Hr & _ & _).
  eexists. split; [by rewrite (bind_ok _ _ _ _ _ (st_eq s1 _ _ (pte_writable s1 pd Hwf1 Hok1 va Hva Hd)))|].
  split; [split|done].
  - eapply changes_trans; [done|]. by apply wr_changes.
  - intros va' Hva'. rewrite mm_set, (wr_entry s1 pd va) by done. by rewrite He1.
Qed.

Lemma pagedir_get_page_spec : (has e PTE_P = true → tab e < 2 ^ 32) →
  pagedir_get_page pd va s =
    Ok (match mapping (mm s) pd va with Some (f, _) => f + pg_ofs va | None => 0 end, s).
Proof using Hwf Hok Hva.
  intros Ht. unfold pagedir_get_page. rewrite assert_bind by exact user_true.
  rewrite (lookup_then s pd Hwf Hok va 0) by done. unfold mapping.
  destruct (Z.eqb_spec (dir_entry (mm s) pd (pd_no va)) 0) as [Ed|Ed].
  { replace e with 0; [done|]. unfold entry. by rewrite Ed. }
  destruct (has e PTE_P) eqn:Hp; [|done]. pose proof entry_range.
  rewrite (bind_ok _ _ s (tab e) s) by (apply lift_out_eq, ptov_tab; auto).
  rewrite u32_small; [done|]. rewrite pg_ofs_eq. pose proof (Z.mod_pos_bound va 4096). pose proof (tab_mod e).
  pose proof (Z.div_mod (tab e) 4096). unfold tab, PHYS_BASE in *. pose proof (Z.div_pos e 4096).
  specialize (Ht eq_refl). lia.
Qed.

Lemma test_flag_spec f : test_flag pd va f s = Ok (has e f, s).
Proof using Hwf Hok Hva.
  unfold test_flag. rewrite (lookup_then s pd Hwf Hok va false) by done.
  destruct (Z.eqb_spec (dir_entry (mm s) pd (pd_no va)) 0) as [Ed|Ed]; [|done]. unfold entry. by rewrite Ed.
Qed.
End operations.

Section flushing.
Context (init_page_dir : Z) (s : mmu) (pd va : Z).
Hypothesis Hwf : mmu_wf s.
Hypothesis Hok : pd_ok s pd.
Hypothesis Hva : user_addr va.
Hypothesis Hcr3 : 0 ≤ s.(cr3) < 2 ^ 30.
Abbreviation e := (entry (mm s) pd va).

Lemma invalidate_eq s' : s'.(cr3) = s.(cr3) → invalidate_pagedir init_page_dir pd s' = Ok (tt, flush pd s').
Proof using Hwf Hok Hcr3.
  intros E. unfold invalidate_pagedir, active_pd, flush, active.
  rewrite (bind_ok _ _ s' (s'.(cr3) + PHYS_BASE) s').
  2: { rewrite (bind_ok get _ s' s' s') by done. apply lift_out_eq, ptov_eq. by rewrite E. }
  destruct (Z.eqb_spec (s'.(cr3) + PHYS_BASE) pd) as [Ea|]; [|done].
  destruct (pd_positive s pd Hwf Hok). unfold pagedir_activate. destruct (Z.eqb_spec pd 0); [lia|].
  rewrite (bind_ok _ _ s' (s'.(cr3)) s'); [done|]. apply lift_out_eq. rewrite vtop_page.
  - f_equal. lia.
  - by apply (used_kpage s), Hok.
Qed.

(** writing the entry and flushing *)
Lemma write_flush v : dir_entry (mm s) pd (pd_no va) ≠ 0 → 0 ≤ v < 2 ^ 32 →
  ∃ s', (st (pte_addr (mm s) pd va) v;; invalidate_pagedir init_page_dir pd) s = Ok (tt, s') ∧
    updates s s' pd va v ∧ s'.(cr3) = s.(cr3) ∧ s'.(tlb) = if active s =? pd then ∅ else s.(tlb).
Proof using Hwf Hok Hva Hcr3.
  intros Hd Hv. destruct (write_found s pd va Hwf Hok Hva v Hd Hv) as (s1 & E & Hup & Hc & Ht).
  exists (flush pd s1). rewrite (bind_ok _ _ _ _ _ E), invalidate_eq by done.
  split; [done|]. split; [by apply flush_updates|]. unfold flush, active. rewrite Hc. by destruct (_ =? pd).
Qed.

Definition cleared (f : Z) : Z := Z.land e (u32 (Z.lnot f)).

Lemma land_range a b : 0 ≤ a < 2 ^ 32 → 0 ≤ b → 0 ≤ Z.land a b < 2 ^ 32.
Proof using.
  intros Ha Hb. split; [apply Z.land_nonneg; lia|]. destruct (Z.eq_dec (Z.land a b) 0) as [->|Hn]; [lia|].
  destruct (Z.eq_dec a 0) as [->|]; [done|].
  pose proof (proj2 (Z.land_nonneg a b) ltac:(lia)). apply Z.log2_lt_pow2; [lia|].
  eapply Z.le_lt_trans; [apply Z.log2_land; lia|]. apply Z.min_lt_iff. left. apply Z.log2_lt_pow2; lia.
Qed.

Lemma pagedir_clear_page_spec : pg_ofs va = 0 →
  if has e PTE_P then
    ∃ s', pagedir_clear_page init_page_dir pd va s = Ok (tt, s') ∧ updates s s' pd va (cleared PTE_P) ∧
      s'.(cr3) = s.(cr3) ∧ s'.(tlb) = if active s =? pd then ∅ else s.(tlb)
  else pagedir_clear_page init_page_dir pd va s = Ok (tt, s).
Proof using Hwf Hok Hva Hcr3.
  intros Ho. assert (E : pagedir_clear_page init_page_dir pd va s =
    if dir_entry (mm s) pd (pd_no va) =? 0 then Ok (tt, s)
    else (if has e PTE_P then st (pte_addr (mm s) pd va) (cleared PTE_P);; invalidate_pagedir init_page_dir pd else mret tt) s).
  { unfold pagedir_clear_page. rewrite Ho, assert_bind by done. rewrite assert_bind by (by apply user_true).
    by rewrite (lookup_then s pd Hwf Hok va tt) by done. }
  rewrite E. destruct (has e PTE_P) eqn:Hp.
  - pose proof (entry_present s pd va Hp) as Hd. destruct (Z.eqb_spec (dir_entry (mm s) pd (pd_no va)) 0); [done|].
    apply write_flush; [done|]. apply land_range; [apply entry_range|apply u32_range].
  - by destruct (_ =? 0).
Qed.

Lemma put_flag_spec f v : 0 ≤ f < 4096 → dir_entry (mm s) pd (pd_no va) ≠ 0 →
  ∃ s', put_flag init_page_dir pd va f v s = Ok (tt, s') ∧ updates s s' pd va (if v then Z.lor e f else cleared f) ∧
    s'.(cr3) = s.(cr3) ∧ s'.(tlb) = if negb v && (active s =? pd) then ∅ else s.(tlb).
Proof using Hwf Hok Hva Hcr3.
  intros Hf Hd. unfold put_flag. rewrite (lookup_then s pd Hwf Hok va tt) by done.
  destruct (Z.eqb_spec (dir_entry (mm s) pd (pd_no va)) 0); [done|]. pose proof (entry_range s pd va).
  destruct v.
  - destruct (write_found s pd va Hwf Hok Hva (Z.lor e f) Hd) as (s1 & E & Hup & Hc & Ht); [apply lor_range; lia|].
    by exists s1.
  - apply write_flush; [done|]. apply land_range; [done|apply u32_range].
Qed.

Lemma put_flag_missing f v : dir_entry (mm s) pd (pd_no va) = 0 → put_flag init_page_dir pd va f v s = Ok (tt, s).
Proof using Hwf Hok Hva. intros Hd. unfold put_flag. rewrite (lookup_then s pd Hwf Hok va tt) by done. by rewrite Hd. Qed.
End flushing.

(** how clearing and setting a flag changes what an entry says *)
Lemma cleared_spec s pd va k : 0 ≤ k < 12 →
  let e := entry (mm s) pd va in
  tab (cleared s pd va (2 ^ k)) = tab e ∧
  ∀ j, 0 ≤ j < 12 → has (cleared s pd va (2 ^ k)) (2 ^ j) = negb (j =? k) && has e (2 ^ j).
Proof.
  intros Hk e. pose proof (entry_range s pd va) as He. fold e in He. unfold cleared. fold e.
  assert (Hc : ∀ j, 0 ≤ j < 32 → Z.testbit (u32 (Z.lnot (2 ^ k))) j = negb (j =? k)).
  { intros j Hj. unfold u32. rewrite Z.mod_pow2_bits_low, Z.lnot_spec, Z.pow2_bits_eqb by lia. by rewrite Z.eqb_sym. }
  split.
  - apply tab_land; [done|]. apply Z.bits_inj'. intros n Hn. rewrite Z.shiftr_spec by done.
    destruct (decide (n < 20)).
    + rewrite Hc, Z.ones_spec_low by lia. by destruct (Z.eqb_spec (n + 12) k); [lia|].
    + rewrite Z.ones_spec_high by lia. unfold u32. by rewrite Z.mod_pow2_bits_high by lia.
  - intros j Hj. rewrite !has_bit, Z.land_spec, Hc by lia. apply andb_comm.
Qed.

Lemma lor_flag e k j : 0 ≤ k → 0 ≤ j → has (Z.lor e (2 ^ k)) (2 ^ j) = (j =? k) || has e (2 ^ j).
Proof. intros. rewrite !has_bit, Z.lor_spec, Z.pow2_bits_eqb by done. rewrite orb_comm. by rewrite (Z.eqb_sym k j). Qed.
