(* ===== verification/Paging.v ===== *)
(** threads/init.c: [paging_init], the page directory of the kernel.

    The memory and the processor are those of Pagedir.v.  The size of the memory and the
    bounds of the kernel's code are known from the loader and the linker. *)

From S2P Require Import Prelude Vaddr Bitmap CString Words Palloc Pagedir.

Section init.
(** [start] and [end_text] are the linker's [_start] and [_end_kernel_text] *)
Variables (init_ram_pages start end_text : Z).

Definition in_kernel_text (vaddr : Z) : bool := (start <=? vaddr) && (vaddr <? end_text).

(** the loop, from [page] on with [n] pages left; [pt]: the current page table *)
Fixpoint paging_loop (n : nat) (pd page pt : Z) : D unit :=
  match n with
  | O => mret tt
  | S n =>
      vaddr ← lift_out (ptov (u32 (page * PGSIZE)));
      let pde := pd + 4 * pd_no vaddr in
      e ← ld pde;
      pt ← (if e =? 0 then
              pt ← in_palloc (palloc_get_page (Z.lor PAL_ASSERT PAL_ZERO));
              e ← lift_out (pde_create pt); st pde e;; mret pt
            else mret pt);
      e ← lift_out (pte_create_kernel vaddr (negb (in_kernel_text vaddr)));
      st (pt + 4 * pt_no vaddr) e;;
      paging_loop n pd (page + 1) pt
  end.

(** returns [init_page_dir] *)
Definition paging_init : D Z :=
  pd ← in_palloc (palloc_get_page (Z.lor PAL_ASSERT PAL_ZERO));
  paging_loop (Z.to_nat init_ram_pages) pd 0 0;;
  p ← lift_out (vtop pd); write_cr3 p;; mret pd.
End init.

(** * Free pages *)

(** the pool has [n] free pages *)
Definition spare (p : pool) (n : nat) : Prop :=
  ∃ l, NoDup l ∧ length l = n ∧ ∀ x, x ∈ l → p.(base) ≤ x ∧ x + PGSIZE ≤ pool_end p ∧ x mod PGSIZE = 0 ∧ ¬ used p x.

Lemma spare_group p n : spare p (S n) → ¬ no_group p 1.
Proof.
  intros ([|x l] & _ & Hl & H) N; [done|]. destruct (H x ltac:(left)) as (Hb & He & Hm & Hu). destruct (N x Hm Hb ltac:(unfold PGSIZE in *; lia)) as (y & [Hy Hym] & Huy).
  assert (y = x) as -> by (unfold PGSIZE in *; pose proof (Z.div_mod x 4096); pose proof (Z.div_mod y 4096); lia). done.
Qed.

Lemma length_without (l : list Z) a : NoDup l → (length l ≤ S (length (filter (λ x, x ≠ a) l)))%nat.
Proof.
  induction 1 as [|x l Hx Hnd IH]; [simpl; lia|]. rewrite filter_cons. destruct (decide (x ≠ a)) as [|E]; [simpl; lia|].
  rewrite filter_all; [done|]. intros y Hy. apply dec_stable in E. by intros ->; subst.
Qed.

Lemma spare_got flags s a s' n : has flags PAL_USER = false → got flags 1 s a s' → spare s.(kernel_pool) (S n) → spare s'.(kernel_pool) n.
Proof.
  intros Hf G (l & Hnd & Hl & H). pose proof (got_used _ _ _ _ _ G) as Hu. pose proof (got_base _ _ _ _ _ G) as [Hb Hp].
  pose proof (got_addr _ _ _ _ _ G) as (_ & Ham & _). rewrite Hf in Hu, Hb, Hp. cbn [pool_of] in *.
  set (l' := filter (λ x, x ≠ a) l). assert (Hl' : (n ≤ length l')%nat).
  { pose proof (length_without l a Hnd). unfold l'. lia. }
  exists (take n l'). split; [|split; [rewrite length_take; lia|]].
  - apply (sublist_NoDup _ l'); [by apply NoDup_filter|apply sublist_take].
  - intros x Hx. assert (Hxl : x ∈ l') by (eapply subseteq_take; exact Hx). apply list_elem_of_filter in Hxl as [Hne Hxl].
    destruct (H x Hxl) as (H1 & H2 & H3 & H4). unfold pool_end in *. rewrite Hb, Hp. split_and!; try done. rewrite Hu. intros [?|[Hin Hm]]; [done|].
    apply Hne. unfold PGSIZE in *. pose proof (Z.div_mod x 4096). pose proof (Z.div_mod a 4096). lia.
Qed.

(** * A zeroed page of the kernel pool *)

Abbreviation FLAGS := (Z.lor PAL_ASSERT PAL_ZERO).

Definition with_ps (p : pstate) (s : mmu) : mmu := mk_mmu p s.(cr3) s.(tlb).

Section page.
Context (s : mmu) (a : Z) (p : pstate).
Hypothesis Hwf : mmu_wf s.
Hypothesis G : got FLAGS 1 s.(ps) a p.

Let s1 := with_ps p s.

Lemma page_align : a mod 4096 = 0.
Proof using G. exact (proj1 (proj2 (got_addr _ _ _ _ _ G))). Qed.

Lemma page_used x : used (kpool s1) x ↔ used (kpool s) x ∨ x = a.
Proof using G.
  pose proof (got_used _ _ _ _ _ G x) as Hu. change (pool_of (has FLAGS PAL_USER) p) with (kpool s1) in Hu.
  change (pool_of (has FLAGS PAL_USER) (ps s)) with (kpool s) in Hu. rewrite Hu. pose proof page_align as Ha. split; (intros [?|H]; [by left|right]).
  - destruct H as [Hr Hm]. unfold PGSIZE in *. pose proof (Z.div_mod x 4096). pose proof (Z.div_mod a 4096). lia.
  - subst x. split; [unfold PGSIZE; lia|exact Ha].
Qed.

Lemma page_fresh : ¬ used (kpool s) a.
Proof using G. apply (got_free _ _ _ _ _ G). split; [unfold PGSIZE; lia|exact page_align]. Qed.

Lemma page_mem : mm s1 = write (mm s) a (replicate (Z.to_nat 4096) 0).
Proof using G.
  change (mm s1) with (pmem p). rewrite (got_mem _ _ _ _ _ G). assert (E : has FLAGS PAL_ZERO = true) by done. rewrite E.
  assert (E' : PGSIZE * 1 = 4096) by done. by rewrite E'.
Qed.

Lemma page_wf : mmu_wf s1.
Proof using Hwf G.
  split; [exact (got_wf _ _ _ _ _ G)|]. pose proof (proj1 (got_base _ _ _ _ _ G)) as Hb.
  change (base (kpool s1) = base (kpool s)) in Hb. rewrite Hb. apply Hwf.
Qed.

Lemma page_word_old t j : used (kpool s) t → 0 ≤ j < 1024 → word (mm s1) (t + 4 * j) = word (mm s) (t + 4 * j).
Proof using G.
  intros Ht Hj. apply word_ext. intros x Hx. rewrite page_mem. apply lookup_write_out. rewrite length_replicate.
  pose proof page_align. pose proof (used_align _ _ Ht). assert (t ≠ a) by (intros ->; by apply page_fresh).
  pose proof (Z.div_mod t 4096). pose proof (Z.div_mod a 4096). lia.
Qed.

Lemma page_word_new j : 0 ≤ j < 1024 → word (mm s1) (a + 4 * j) = 0.
Proof using G.
  intros Hj. assert (Hz : ∀ x, a ≤ x < a + 4096 → byte_at (mm s1) x = 0).
  { intros x Hx. unfold byte_at. rewrite page_mem, lookup_write, length_replicate, decide_True by lia. by rewrite lookup_replicate_2 by lia. }
  unfold word. by rewrite !Hz by lia.
Qed.
End page.

(** * The tables *)

Section tables.
Variables (ram start end_text : Z).

Definition text_entry (page : Z) : Z :=
  mk_entry (PHYS_BASE + 4096 * page) (if in_kernel_text start end_text (PHYS_BASE + 4096 * page) then 1 else 3).

(** the directory [pd] with the tables [tabs] after [k] pages *)
Record filled (s : mmu) (pd : Z) (tabs : list Z) (k : Z) : Prop := {
  fl_wf : mmu_wf s;
  fl_pd : used (kpool s) pd;
  fl_tabs t : t ∈ tabs → used (kpool s) t;
  fl_nodup : NoDup (pd :: tabs);
  fl_len : 1024 * (Z.of_nat (length tabs) - 1) ≤ k ≤ 1024 * Z.of_nat (length tabs);
  fl_dir i : 0 ≤ i < 1024 → dir_entry (mm s) pd i = match tabs !! Z.to_nat (i - 768) with Some t => if i <? 768 then 0 else mk_entry t 7 | None => 0 end;
  fl_tab i t j : tabs !! i = Some t → 0 ≤ j < 1024 →
    word (mm s) (t + 4 * j) = if 1024 * Z.of_nat i + j <? k then text_entry (1024 * Z.of_nat i + j) else 0
}.

Hypothesis Hram : 0 < ram ≤ 2 ^ 18.

Lemma text_entry_range page : 0 ≤ page < 2 ^ 18 → 0 ≤ text_entry page < 2 ^ 32.
Proof using.
  intros Hp. apply mk_entry_spec; [|destruct (in_kernel_text _ _ _); lia]. split; [|unfold PHYS_BASE; lia].
  unfold PHYS_BASE. rewrite Z.add_comm, Z.mul_comm. change 0xc0000000 with (786432 * 4096). rewrite <- Z.mul_add_distr_r. apply Z.mod_mul. done.
Qed.

Lemma filled_addr s pd tabs k t j : filled s pd tabs k → t ∈ pd :: tabs → 0 ≤ j < 1024 → (t + 4 * j) mod 4 = 0 ∧ writable (mm s) (t + 4 * j) 4.
Proof using.
  intros F Ht Hj. assert (Hu : used (kpool s) t) by (apply elem_of_cons in Ht as [->|Ht]; [apply F|by apply (fl_tabs _ _ _ _ F)]).
  pose proof (used_align _ _ Hu). pose proof (Z.div_mod t 4096). split.
  - rewrite (Z.mul_comm 4), Z.mod_add by lia. replace t with (t / 4096 * 1024 * 4) by lia. by apply Z.mod_mul.
  - apply (used_writable s t); [apply F|done|lia..].
Qed.

(** words of two of the pages are the same word only if page and index are *)
Lemma filled_apart s pd tabs k t j t' j' : filled s pd tabs k → t ∈ pd :: tabs → t' ∈ pd :: tabs → 0 ≤ j < 1024 → 0 ≤ j' < 1024 →
  t + 4 * j = t' + 4 * j' → t = t' ∧ j = j'.
Proof using.
  intros F Ht Ht' Hj Hj' E. assert (Hu : ∀ x, x ∈ pd :: tabs → x mod 4096 = 0).
  { intros x [->|Hx]%elem_of_cons; eapply used_align; [apply F|by apply (fl_tabs _ _ _ _ F)]. }
  pose proof (Hu t Ht). pose proof (Hu t' Ht'). pose proof (Z.div_mod t 4096). pose proof (Z.div_mod t' 4096). lia.
Qed.

Lemma filled_wr s pd tabs k t : filled s pd tabs k → tabs !! Z.to_nat (k / 1024) = Some t → 0 ≤ k < 2 ^ 18 →
  filled (set_mm (wr (mm s) (t + 4 * (k mod 1024)) (text_entry k)) s) pd tabs (k + 1).
Proof using.
  intros F Ht Hk. pose proof (Z.mod_pos_bound k 1024 ltac:(lia)) as Hj. assert (Hin : t ∈ pd :: tabs) by (right; by eapply list_elem_of_lookup_2).
  pose proof (Z.div_mod k 1024 ltac:(lia)) as Ek. pose proof (Z.div_pos k 1024 ltac:(lia) ltac:(lia)).
  assert (Hw : ∀ t' j', t' ∈ pd :: tabs → 0 ≤ j' < 1024 → t' + 4 * j' ≠ t + 4 * (k mod 1024) →
    word (wr (mm s) (t + 4 * (k mod 1024)) (text_entry k)) (t' + 4 * j') = word (mm s) (t' + 4 * j')).
  { intros t' j' Hin' Hj' Hne. apply word_wr_ne; [by eapply filled_addr..|done]. }
  pose proof (fl_nodup _ _ _ _ F) as Hnd. apply NoDup_cons in Hnd as [Hpd Hnd]. pose proof (lookup_lt_Some _ _ _ Ht).
  split; rewrite ?mm_set; try apply F.
  - by apply mmu_wf_wr, F.
  - pose proof (fl_len _ _ _ _ F). lia.
  - intros i Hi. rewrite <- (fl_dir _ _ _ _ F i Hi). apply (Hw pd i); [left|done|]. intros E.
    destruct (filled_apart _ _ _ _ pd i t (k mod 1024) F ltac:(left) Hin Hi Hj E) as [-> _]. destruct Hpd. by eapply list_elem_of_lookup_2.
  - intros i t' j Hi Hj'. assert (Hin' : t' ∈ pd :: tabs) by (right; by eapply list_elem_of_lookup_2).
    destruct (decide (1024 * Z.of_nat i + j = k)) as [E|E].
    + assert (i = Z.to_nat (k / 1024)) as -> by lia. assert (t' = t) as -> by congruence. assert (k mod 1024 = j) as -> by lia.
      rewrite word_wr by (by apply text_entry_range). rewrite (proj2 (Z.ltb_lt _ _)) by lia. by rewrite E.
    + rewrite (Hw t' j Hin' Hj').
      * rewrite (fl_tab _ _ _ _ F i t' j Hi Hj'). destruct (Z.ltb_spec (1024 * Z.of_nat i + j) k), (Z.ltb_spec (1024 * Z.of_nat i + j) (k + 1)); try done; lia.
      * intros E'. destruct (filled_apart _ _ _ _ t' j t (k mod 1024) F Hin' Hin Hj' Hj E') as [-> ->]. apply E.
        rewrite (NoDup_lookup _ _ _ _ Hnd Hi Ht). lia.
Qed.

Lemma filled_table s pd tabs k a p : filled s pd tabs k → got FLAGS 1 s.(ps) a p → k = 1024 * Z.of_nat (length tabs) → 0 ≤ k < 2 ^ 18 →
  filled (set_mm (wr (mm (with_ps p s)) (pd + 4 * (768 + k / 1024)) (mk_entry a 7)) (with_ps p s)) pd (tabs ++ [a]) k.
Proof using.
  intros F G Hk Hr. pose proof (fl_wf _ _ _ _ F) as Hwf. pose proof (page_fresh s a p G) as Hf.
  assert (Ek : k / 1024 = Z.of_nat (length tabs)) by (rewrite Hk, Z.mul_comm; by apply Z.div_mul). rewrite Ek.
  assert (Hua : used (kpool (with_ps p s)) a) by (apply (page_used s a p G); by right).
  assert (Hup : used (kpool (with_ps p s)) pd) by (apply (page_used s a p G); left; apply F).
  assert (Hold : ∀ t, t ∈ tabs → used (kpool (with_ps p s)) t) by (intros t Ht; apply (page_used s a p G); left; by apply (fl_tabs _ _ _ _ F)).
  assert (Hpda : pd ≠ a) by (intros ->; apply Hf, F). pose proof (page_wf s a p Hwf G) as Hwf1.
  pose proof (used_kpage _ _ Hwf1 Hua) as Hka. pose proof (mk_entry_spec a 7 Hka ltac:(lia)) as [Hme _].
  assert (Hpm : pd mod 4096 = 0) by (eapply used_align; exact Hup).
  assert (Hw : ∀ t j, used (kpool (with_ps p s)) t → 0 ≤ j < 1024 → t ≠ pd →
    word (wr (mm (with_ps p s)) (pd + 4 * (768 + Z.of_nat (length tabs))) (mk_entry a 7)) (t + 4 * j) = word (mm (with_ps p s)) (t + 4 * j)).
  { intros t j Ht Hj Hne. apply word_ext. intros x Hx. apply lookup_wr_out. intros Hx'. pose proof (used_align _ _ Ht).
    eapply (pages_apart t pd x x); try done; lia. }
  split; rewrite ?mm_set.
  - by apply mmu_wf_wr.
  - done.
  - intros t [Ht|Ht%list_elem_of_singleton]%elem_of_app; [by apply Hold|by subst].
  - pose proof (fl_nodup _ _ _ _ F) as Hnd. rewrite app_comm_cons. apply NoDup_app. split; [done|]. split; [|apply NoDup_singleton].
    intros x Hx ->%list_elem_of_singleton. apply Hf. apply elem_of_cons in Hx as [->|Hx]; [apply F|by apply (fl_tabs _ _ _ _ F)].
  - rewrite length_app. cbn [length]. lia.
  - intros i Hi. unfold dir_entry. destruct (decide (i = 768 + Z.of_nat (length tabs))) as [->|Hne].
    + rewrite word_wr by done. replace (Z.to_nat (768 + Z.of_nat (length tabs) - 768)) with (length tabs) by lia.
      rewrite lookup_app_r, Nat.sub_diag by lia. cbn. by rewrite (proj2 (Z.ltb_ge _ _)) by lia.
    + assert (Ha : ∀ j, (pd + 4 * j) mod 4 = 0).
      { intros j. pose proof (Z.div_mod pd 4096). rewrite (Z.mul_comm 4), Z.mod_add by lia. replace pd with (pd / 4096 * 1024 * 4) by lia. by apply Z.mod_mul. }
      rewrite word_wr_ne by (apply Ha || lia). rewrite (page_word_old s a p G) by (apply F || done). fold (dir_entry (mm s) pd i).
      rewrite (fl_dir _ _ _ _ F i Hi). destruct (Z.ltb_spec i 768); [by destruct (tabs !! _), ((tabs ++ [a]) !! _)|].
      destruct (decide (i < 768 + Z.of_nat (length tabs))); [by rewrite lookup_app_l by lia|].
      rewrite (lookup_ge_None_2 tabs), (lookup_ge_None_2 (tabs ++ [a])) by (rewrite ?length_app; cbn [length]; lia). done.
  - intros i t j Hi Hj. apply lookup_app_Some in Hi as [Hi|[Hi Hx]].
    + assert (Hin : t ∈ tabs) by (by eapply list_elem_of_lookup_2). rewrite Hw; [|by apply Hold|done|].
      * rewrite (page_word_old s a p G) by (done || by apply (fl_tabs _ _ _ _ F)). by apply (fl_tab _ _ _ _ F).
      * intros ->. pose proof (fl_nodup _ _ _ _ F) as Hnd. apply NoDup_cons in Hnd as [Hnd _]. done.
    + apply list_lookup_singleton_Some in Hx as [Hi0 <-]. rewrite Hw by (done || congruence). rewrite (page_word_new s a p G) by done.
      rewrite (proj2 (Z.ltb_ge _ _)); [done|lia].
Qed.

Lemma kernel_page k : 0 ≤ k < 2 ^ 18 → kpage_at (PHYS_BASE + 4096 * k) ∧ ptov (u32 (k * PGSIZE)) = Ok (PHYS_BASE + 4096 * k) ∧
  pd_no (PHYS_BASE + 4096 * k) = 768 + k / 1024 ∧ pt_no (PHYS_BASE + 4096 * k) = k mod 1024.
Proof using.
  intros Hk. unfold PHYS_BASE, PGSIZE. split; [split; [|unfold PHYS_BASE; lia]|].
  - replace (0xc0000000 + 4096 * k) with ((786432 + k) * 4096) by lia. by apply Z.mod_mul.
  - rewrite u32_small, ptov_eq by lia. split; [unfold PHYS_BASE; f_equal; lia|]. rewrite pd_no_eq, pt_no_eq.
    replace (0xc0000000 + 4096 * k) with ((786432 + k) * 4096) by lia. change (2 ^ 22) with (4096 * 1024). rewrite <- Z.div_div, Z.div_mul by lia.
    replace (786432 + k) with (k + 768 * 1024) by lia. rewrite Z.div_add, Z.mod_add by lia. lia.
Qed.

Lemma pte_create_kernel_eq k : 0 ≤ k < 2 ^ 18 →
  pte_create_kernel (PHYS_BASE + 4096 * k) (negb (in_kernel_text start end_text (PHYS_BASE + 4096 * k))) = Ok (text_entry k).
Proof using.
  intros Hk. destruct (kernel_page k Hk) as (Hp & _). unfold pte_create_kernel. rewrite pg_ofs_eq, (proj1 Hp).
  rewrite (obind_ok (oassert _) _ tt) by done. rewrite (obind_ok _ _ _ (vtop_page _ Hp)). unfold text_entry, mk_entry. rewrite <- Z.lor_assoc.
  by destruct (in_kernel_text start end_text (PHYS_BASE + 4096 * k)).
Qed.

(** the table that page [k] goes to, made if it is the first of it *)
Definition tables_of (k : Z) : nat := Z.to_nat ((k + 1023) / 1024).

Lemma table_step s pd tabs k pt : filled s pd tabs k → 0 ≤ k < ram → (k = 1024 * Z.of_nat (length tabs) ∨ tabs !! Z.to_nat (k / 1024) = Some pt) →
  spare (kpool s) (tables_of ram - length tabs) →
  ∃ s' tabs' pt', (e ← ld (pd + 4 * (768 + k / 1024));
    if e =? 0 then pt ← in_palloc (palloc_get_page FLAGS); e ← lift_out (pde_create pt); st (pd + 4 * (768 + k / 1024)) e;; mret pt else mret pt) s = Ok (pt', s') ∧
    filled s' pd tabs' k ∧ tabs' !! Z.to_nat (k / 1024) = Some pt' ∧ spare (kpool s') (tables_of ram - length tabs') ∧ upool s' = upool s.
Proof using Hram.
  intros F Hk Hc Hs. pose proof (Z.div_pos k 1024 ltac:(lia) ltac:(lia)) as Hq. pose proof (Z.div_lt_upper_bound k 1024 256 ltac:(lia) ltac:(lia)) as Hq'.
  destruct (filled_addr _ _ _ _ pd (768 + k / 1024) F ltac:(left) ltac:(lia)) as [_ Hw].
  rewrite (bind_ok _ _ _ _ _ (ld_eq s _ Hw)). fold (dir_entry (mm s) pd (768 + k / 1024)). rewrite (fl_dir _ _ _ _ F) by lia.
  replace (768 + k / 1024 - 768) with (k / 1024) by lia. destruct Hc as [Hc|Hc].
  - assert (Ek : k / 1024 = Z.of_nat (length tabs)) by (rewrite Hc, Z.mul_comm; by apply Z.div_mul).
    rewrite lookup_ge_None_2 by lia. cbn [Z.eqb].
    assert (Hn : ∃ n, (tables_of ram - length tabs = S n)%nat).
    { exists (tables_of ram - length tabs - 1)%nat. assert (Z.of_nat (length tabs) + 1 ≤ (ram + 1023) / 1024) by (apply Z.div_le_lower_bound; lia).
      unfold tables_of. lia. }
    destruct Hn as [n Hn]. rewrite Hn in Hs.
    destruct (palloc_get_cases s.(ps) FLAGS 1 (mw_palloc _ (fl_wf _ _ _ _ F)) eq_refl) as [(a & p & E & G)|[N _]]; [|by destruct (spare_group _ _ Hs)].
    assert (E' : in_palloc (palloc_get_page FLAGS) s = Ok (a, with_ps p s)) by (unfold in_palloc, palloc_get_page; by rewrite E).
    assert (Hka : kpage_at a) by (apply (used_kpage (with_ps p s)); [apply (page_wf s a p (fl_wf _ _ _ _ F) G)|apply (page_used s a p G); by right]).
    rewrite (bind_ok _ _ _ _ _ E'), (bind_ok _ _ _ _ _ (lift_out_eq _ _ (with_ps p s) (pde_create_eq a Hka))).
    assert (Hw' : writable (mm (with_ps p s)) (pd + 4 * (768 + k / 1024)) 4) by (intros x Hx; rewrite (page_mem s a p G); by apply write_is_Some, Hw).
    rewrite (bind_ok _ _ _ _ _ (st_eq _ _ _ Hw')). eexists _, (tabs ++ [a]), a. split; [reflexivity|]. split; [apply (filled_table s pd tabs k a p F G Hc); lia|].
    split; [rewrite lookup_app_r by lia; by replace (Z.to_nat (k / 1024) - length tabs)%nat with 0%nat by lia|].
    split; [|exact (got_other _ _ _ _ _ G)]. rewrite length_app. cbn [length]. replace (tables_of ram - (length tabs + 1))%nat with n by lia.
    exact (spare_got FLAGS s.(ps) a p n eq_refl G Hs).
  - rewrite Hc. rewrite (proj2 (Z.ltb_ge _ _)) by lia. assert (Hu : used (kpool s) pt) by (apply (fl_tabs _ _ _ _ F); by eapply list_elem_of_lookup_2).
    rewrite (proj2 (Z.eqb_neq _ _) (mk_entry_nz pt 7 (used_kpage _ _ (fl_wf _ _ _ _ F) Hu) ltac:(lia) eq_refl)).
    exists s, tabs, pt. done.
Qed.

Lemma paging_loop_spec n s pd tabs k pt : filled s pd tabs k → 0 ≤ k → k + Z.of_nat n = ram →
  (k = 1024 * Z.of_nat (length tabs) ∨ tabs !! Z.to_nat (k / 1024) = Some pt) → spare (kpool s) (tables_of ram - length tabs) →
  ∃ s' tabs', paging_loop start end_text n pd k pt s = Ok (tt, s') ∧ filled s' pd tabs' ram ∧ upool s' = upool s.
Proof using Hram.
  revert s tabs k pt. induction n as [|n IH]; intros s tabs k pt F Hk Hn Hc Hs.
  { exists s, tabs. split; [done|]. split; [|done]. by replace ram with k by lia. }
  destruct (table_step s pd tabs k pt F ltac:(lia) Hc Hs) as (s1 & tabs1 & pt1 & E1 & F1 & Hpt & Hs1 & Hu1).
  destruct (kernel_page k ltac:(lia)) as (Hp & Ev & Ed & Et). cbn [paging_loop]. rewrite (bind_ok _ _ _ _ _ (lift_out_eq _ _ s Ev)). cbv zeta.
  rewrite Ed, <- bind_assoc, (bind_ok _ _ _ _ _ E1), Et.
  rewrite (bind_ok _ _ _ _ _ (lift_out_eq _ _ s1 (pte_create_kernel_eq k ltac:(lia)))).
  pose proof (Z.mod_pos_bound k 1024 ltac:(lia)) as Hj.
  destruct (filled_addr _ _ _ _ pt1 (k mod 1024) F1 ltac:(right; by eapply list_elem_of_lookup_2) Hj) as [_ Hw].
  rewrite (bind_ok _ _ _ _ _ (st_eq _ _ _ Hw)).
  pose proof (filled_wr s1 pd tabs1 k pt1 F1 Hpt ltac:(lia)) as F2. pose proof (lookup_lt_Some _ _ _ Hpt) as Hlt.
  pose proof (Z.div_mod k 1024 ltac:(lia)). pose proof (Z.div_pos k 1024 ltac:(lia) ltac:(lia)).
  destruct (IH _ tabs1 (k + 1) pt1 F2 ltac:(lia) ltac:(lia)) as (s' & tabs' & E' & F' & Hu'); [|exact Hs1|exists s', tabs'; split; [exact E'|]; split; [exact F'|]; rewrite Hu'; exact Hu1].
  destruct (decide (k mod 1024 = 1023)); [left; pose proof (fl_len _ _ _ _ F1); lia|right].
  replace ((k + 1) / 1024) with (k / 1024); [done|]. apply (Z.div_unique _ _ _ (k mod 1024 + 1)); lia.
Qed.

(** the entries for the kernel's addresses when all pages are in *)
Lemma filled_entry s pd tabs k : filled s pd tabs ram → 0 ≤ k < 2 ^ 18 → entry (mm s) pd (PHYS_BASE + 4096 * k) = if k <? ram then text_entry k else 0.
Proof using.
  clear Hram. intros F Hk. destruct (kernel_page k Hk) as (_ & _ & Ed & Et). unfold entry, pte_addr. rewrite Ed, Et.
  pose proof (Z.div_pos k 1024 ltac:(lia) ltac:(lia)). pose proof (Z.div_lt_upper_bound k 1024 256 ltac:(lia) ltac:(lia)).
  pose proof (Z.div_mod k 1024 ltac:(lia)). pose proof (Z.mod_pos_bound k 1024 ltac:(lia)). rewrite (fl_dir _ _ _ _ F) by lia.
  replace (768 + k / 1024 - 768) with (k / 1024) by lia. rewrite (proj2 (Z.ltb_ge (768 + _) _)) by lia.
  destruct (tabs !! Z.to_nat (k / 1024)) as [t|] eqn:Ht.
  - assert (Hp : kpage_at t) by (eapply used_kpage, (fl_tabs _ _ _ _ F); [apply F|by eapply list_elem_of_lookup_2]).
    rewrite (proj2 (Z.eqb_neq _ _) (mk_entry_nz t 7 Hp ltac:(lia) eq_refl)). destruct (mk_entry_spec t 7 Hp ltac:(lia)) as (_ & -> & _).
    rewrite (fl_tab _ _ _ _ F _ _ (k mod 1024) Ht ltac:(done)). replace (1024 * Z.of_nat (Z.to_nat (k / 1024)) + k mod 1024) with k by lia. done.
  - apply lookup_ge_None in Ht. pose proof (fl_len _ _ _ _ F). rewrite (proj2 (Z.ltb_ge _ _)) by lia. done.
Qed.

Lemma text_entry_spec k : 0 ≤ k < 2 ^ 18 → tab (text_entry k) = PHYS_BASE + 4096 * k ∧ has (text_entry k) PTE_P = true ∧
  has (text_entry k) PTE_W = negb (in_kernel_text start end_text (PHYS_BASE + 4096 * k)) ∧ has (text_entry k) PTE_U = false.
Proof using.
  intros Hk. destruct (kernel_page k Hk) as (Hp & _). unfold text_entry.
  destruct (mk_entry_spec (PHYS_BASE + 4096 * k) (if in_kernel_text start end_text (PHYS_BASE + 4096 * k) then 1 else 3) Hp) as (_ & Ht & Hf);
    [destruct (in_kernel_text start end_text _); lia|]. split; [exact Ht|].
  pose proof (Hf 0 ltac:(lia)) as H0. pose proof (Hf 1 ltac:(lia)) as H1. pose proof (Hf 2 ltac:(lia)) as H2. unfold PTE_P, PTE_W, PTE_U.
  change (2 ^ 0) with 1 in H0. change (2 ^ 1) with 2 in H1. change (2 ^ 2) with 4 in H2. rewrite H0, H1, H2.
  by destruct (in_kernel_text start end_text _).
Qed.

Lemma filled_user s pd tabs k va : filled s pd tabs k → user_addr va → mapping (mm s) pd va = None.
Proof using.
  intros F Hva. pose proof (pd_no_range va Hva). unfold mapping, entry. rewrite (fl_dir _ _ _ _ F) by lia.
  rewrite (proj2 (Z.ltb_lt _ _)) by lia. by destruct (tabs !! _).
Qed.
End tables.

(** C21. [paging_init] returns when the kernel pool has a page for the directory and one for
    each 1024 pages of memory.  The directory it makes is then active; it maps every page of
    memory at [PHYS_BASE] upwards, for the kernel only and read-only where the kernel's code
    is, and maps nothing else. *)
Theorem paging_init_maps s ram start end_text : mmu_wf s → 0 < ram ≤ 2 ^ 18 → spare (kpool s) (S (tables_of ram)) →
  ∃ pd s', paging_init ram start end_text s = Ok (pd, s') ∧ mmu_wf s' ∧ s'.(cr3) = pd - PHYS_BASE ∧ s'.(tlb) = ∅ ∧ upool s' = upool s ∧
    (∀ k, 0 ≤ k < 2 ^ 18 → mapping (mm s') pd (PHYS_BASE + 4096 * k) =
      if k <? ram then Some (PHYS_BASE + 4096 * k, negb (in_kernel_text start end_text (PHYS_BASE + 4096 * k))) else None) ∧
    (∀ k, 0 ≤ k < ram → has (entry (mm s') pd (PHYS_BASE + 4096 * k)) PTE_U = false) ∧
    ∀ va, user_addr va → mapping (mm s') pd va = None.
Proof.
  intros Hwf Hram Hs. destruct (palloc_get_cases s.(ps) FLAGS 1 (mw_palloc _ Hwf) eq_refl) as [(pd & p & E & G)|[N _]]; [|by destruct (spare_group _ _ Hs)].
  assert (E' : in_palloc (palloc_get_page FLAGS) s = Ok (pd, with_ps p s)) by (unfold in_palloc, palloc_get_page; by rewrite E).
  assert (F0 : filled start end_text (with_ps p s) pd [] 0).
  { split; try done; [apply (page_wf s pd p Hwf G)|apply (page_used s pd p G); by right|intros t Ht; by apply not_elem_of_nil in Ht|apply NoDup_singleton| ].
    intros i Hi. unfold dir_entry. rewrite (page_word_new s pd p G) by done. by destruct (Z.to_nat (i - 768)). }
  destruct (paging_loop_spec ram start end_text Hram (Z.to_nat ram) (with_ps p s) pd [] 0 0 F0) as (s1 & tabs & El & F & Hu);
    [lia|lia|by left|cbn [length]; rewrite Nat.sub_0_r; exact (spare_got FLAGS s.(ps) pd p _ eq_refl G Hs)|].
  pose proof (used_kpage _ _ (fl_wf _ _ _ _ _ _ F) (fl_pd _ _ _ _ _ _ F)) as Hpd.
  exists pd, (mk_mmu s1.(ps) (pd - PHYS_BASE) ∅). split; [|split; [|split; [done|split; [done|split]]]].
  - unfold paging_init. rewrite (bind_ok _ _ _ _ _ E'), (bind_ok _ _ _ _ _ El), (bind_ok _ _ _ _ _ (lift_out_eq _ _ s1 (vtop_page pd Hpd))). done.
  - destruct (fl_wf _ _ _ _ _ _ F). done.
  - change (upool s1 = upool s). rewrite Hu. exact (got_other _ _ _ _ _ G).
  - change (mm (mk_mmu (ps s1) (pd - PHYS_BASE) ∅)) with (mm s1). split; [|split].
    + intros k Hk. unfold mapping. rewrite (filled_entry ram start end_text s1 pd tabs k F Hk). destruct (k <? ram); [|done].
      destruct (text_entry_spec start end_text k Hk) as (Ht & Hp & Hw & _). by rewrite Hp, Ht, Hw.
    + intros k Hk. rewrite (filled_entry ram start end_text s1 pd tabs k F ltac:(lia)), (proj2 (Z.ltb_lt _ _)) by lia. apply text_entry_spec. lia.
    + intros va Hva. by eapply filled_user.
Qed.

(** a machine of 264 pages; the kernel's code is at 128 kB *)
Lemma ex_kernel_pool : base ex_state.(kernel_pool) = 0xc0101000 ∧ pool_pages ex_state.(kernel_pool) = 3.
Proof. split; vm_compute; reflexivity. Qed.

Lemma ex_spare : spare ex_state.(kernel_pool) 2.
Proof.
  destruct ex_kernel_pool as [Hb Hp]. exists [0xc0101000; 0xc0102000]. split; [apply (bool_decide_unpack _); reflexivity|]. split; [done|].
  intros x Hx. unfold pool_end, PGSIZE. rewrite Hb, Hp. pose proof (proj2 ex_palloc_wf false x) as Hu.
  set_unfold in Hx. destruct Hx as [->|[->|[]]]; (split; [lia|]); (split; [lia|]); (split; [done|exact Hu]).
Qed.

Lemma paging_init_witness : ∃ pd s', paging_init 264 0xc0020000 0xc0030000 (mk_mmu ex_state 0 ∅) = Ok (pd, s') ∧
  mapping (mm s') pd 0xc0020000 = Some (0xc0020000, false) ∧ mapping (mm s') pd 0xc0101000 = Some (0xc0101000, true).
Proof.
  assert (Hwf : mmu_wf (mk_mmu ex_state 0 ∅)).
  { split; [exact (proj1 ex_palloc_wf)|]. unfold kpool. cbn [ps]. rewrite (proj1 ex_kernel_pool). unfold PHYS_BASE. lia. }
  destruct (paging_init_maps (mk_mmu ex_state 0 ∅) 264 0xc0020000 0xc0030000 Hwf ltac:(lia) ex_spare) as (pd & s' & E & _ & _ & _ & _ & Hm & _).
  exists pd, s'. split; [exact E|]. split; [exact (Hm 0x20 ltac:(lia))|exact (Hm 0x101 ltac:(lia))].
Defined.
