(* ===== verification/AddrSpace.v ===== *)
(** Address spaces: the page directories of userprog/pagedir.c over time.

    Several directories live in the memory of the kernel beside each other; the
    processor walks the active one and caches what it finds.  [pd_step] is a machine
    of kernel calls and processor actions, [world_inv] its invariant.  The last
    part destroys a directory and accounts for the pages that are freed. *)

From S2P Require Import Prelude Vaddr Bitmap CString Words Palloc Pagedir.

(** * Several directories *)

Lemma mapping_update s s' pd va v va' : updates s s' pd va v → user_addr va' →
  mapping (mm s') pd va' =
    if pg_no va' =? pg_no va then (if has v PTE_P then Some (tab v, has v PTE_W) else None)
    else mapping (mm s) pd va'.
Proof. intros H Hva'. unfold mapping. rewrite (up_entry _ _ _ _ _ H va' Hva'). by destruct (_ =? _). Qed.

Lemma mapping_same_page m pd va va' : pg_no va = pg_no va' → mapping m pd va = mapping m pd va'.
Proof. intros H. apply pg_no_same in H as [H1 H2]. unfold mapping, entry, pte_addr. by rewrite H1, H2. Qed.

(** what the tables of [pd] say depends on the pages they are made of *)
Lemma entry_ext m m' pd va : user_addr va →
  (∀ x a, owns m pd x → x ≤ a < x + 4096 → m' !! a = m !! a) → entry m' pd va = entry m pd va.
Proof.
  intros Hva H. pose proof (pd_no_range va Hva). pose proof (pt_no_range va).
  assert (E : dir_entry m' pd (pd_no va) = dir_entry m pd (pd_no va)).
  { apply (dir_entry_ext m m' pd); [|done]. intros a Ha. apply (H pd); [by left|done]. }
  unfold entry, pte_addr. rewrite E. destruct (Z.eqb_spec (dir_entry m pd (pd_no va)) 0); [done|].
  apply word_ext. intros x Hx. apply (H (tab (dir_entry m pd (pd_no va)))); [|lia].
  right. by exists (pd_no va).
Qed.

Definition separate (m : mem) (pd pd' : Z) : Prop := ∀ x, owns m pd x → ¬ owns m pd' x.

(** [changes] without what is known of the pages [pd] had before: it may be new *)
Record touches (s s' : mmu) (pd : Z) : Prop := {
  to_wf : mmu_wf s';
  to_ok : pd_ok s' pd;
  to_used x : used (kpool s') x ↔ used (kpool s) x ∨ owns (mm s') pd x;
  to_mem a : (∀ x, owns (mm s') pd x → ¬ (x ≤ a < x + 4096)) → mm s' !! a = mm s !! a
}.

Lemma changes_touches s s' pd : changes s s' pd → touches s s' pd.
Proof. by intros []. Qed.

Section frame.
Context (s s' : mmu) (pd pd' : Z).
Hypothesis Hch : touches s s' pd.
Hypothesis Hok : pd_ok s pd'.
Hypothesis Hsep : ∀ x, owns (mm s') pd x → ¬ owns (mm s) pd' x.

Lemma frame_mem x a : owns (mm s) pd' x → x ≤ a < x + 4096 → mm s' !! a = mm s !! a.
Proof using All.
  intros Hx Ha. apply (to_mem _ _ _ Hch). intros y Hy Hay. pose proof (owns_used _ _ _ Hok Hx) as Hu.
  assert (Hxy : x ≠ y).
  { intros <-. by apply (Hsep x). }
  pose proof (owns_used _ _ _ (to_ok _ _ _ Hch) Hy) as Huy.
  eapply (pages_apart x y a a); [by eapply used_align..|done|done|done|done].
Qed.

Lemma frame_dir i : 0 ≤ i < 768 → dir_entry (mm s') pd' i = dir_entry (mm s) pd' i.
Proof using All. apply dir_entry_ext. intros a. apply frame_mem. by left. Qed.

Lemma frame_owns x : owns (mm s') pd' x ↔ owns (mm s) pd' x.
Proof using All.
  unfold owns. split; (intros [H|(i & Hi & H)]; [by left|right; exists i; split; [done|]]).
  - by rewrite frame_dir in H by done.
  - by rewrite frame_dir by done.
Qed.

Lemma frame_ok : pd_ok s' pd'.
Proof using All.
  assert (Hu : ∀ x, used (kpool s) x → used (kpool s') x) by (intros x Hx; apply (to_used _ _ _ Hch); by left).
  split.
  - apply Hu, Hok.
  - intros i Hi. rewrite frame_dir by done. intros Hd. destruct (po_tab _ _ Hok i Hi Hd) as (? & ? & ?). auto.
  - intros i j Hi Hj. rewrite !frame_dir by done. by apply Hok.
Qed.

Lemma frame_entry va : user_addr va → entry (mm s') pd' va = entry (mm s) pd' va.
Proof using All. intros Hva. apply entry_ext; [done|]. apply frame_mem. Qed.

Lemma frame_separate : separate (mm s') pd pd'.
Proof using All.
  intros x Hx. rewrite frame_owns. by apply Hsep.
Qed.
End frame.

Lemma changes_apart s s' pd pd' : changes s s' pd → pd_ok s pd' → separate (mm s) pd pd' →
  ∀ x, owns (mm s') pd x → ¬ owns (mm s) pd' x.
Proof.
  intros Hch Hok Hsep x Hx Hx'. destruct (ch_fresh _ _ _ Hch x Hx) as [?|Hn]; [by apply (Hsep x)|].
  by apply Hn, (owns_used s pd').
Qed.

(** * A new directory *)

Section create.
Context (init_page_dir : Z).

(** the directory of the kernel maps no user page *)
Definition init_ok (s : mmu) : Prop :=
  (∃ l, Z.of_nat (length l) = 4096 ∧ bytes (mm s) init_page_dir l) ∧
  ∀ i, 0 ≤ i < 768 → dir_entry (mm s) init_page_dir i = 0.

Lemma bytes_word m p q l i : bytes m p l → bytes m q l → 0 ≤ i → i + 4 ≤ Z.of_nat (length l) →
  word m (p + i) = word m (q + i).
Proof using.
  intros Hp Hq Hi Hl. assert (B : ∀ j, 0 ≤ j < Z.of_nat (length l) → byte_at m (p + j) = byte_at m (q + j)).
  { intros j Hj. destruct (lookup_lt_is_Some_2 l (Z.to_nat j) ltac:(lia)) as [v Ev]. unfold byte_at.
    apply bytes_lookup with (i := Z.to_nat j) (v := v) in Hp; [|done].
    apply bytes_lookup with (i := Z.to_nat j) (v := v) in Hq; [|done].
    rewrite Z2Nat.id in Hp, Hq by lia. by rewrite (proj1 Hp), (proj1 Hq). }
  unfold word. rewrite <- !Z.add_assoc. by rewrite !B by lia.
Qed.

Lemma pagedir_create_spec s : mmu_wf s → used (kpool s) init_page_dir → init_ok s →
  (no_group (kpool s) 1 ∧ pagedir_create init_page_dir s = Ok (0, s)) ∨
  ∃ pd s', pagedir_create init_page_dir s = Ok (pd, s') ∧ pd ≠ 0 ∧ ¬ used (kpool s) pd ∧ touches s s' pd ∧
    (∀ i, 0 ≤ i < 768 → dir_entry (mm s') pd i = 0) ∧ s'.(cr3) = s.(cr3) ∧ s'.(tlb) = s.(tlb).
Proof using.
  intros Hwf Hi [(l & Hl & Hb) Hz]. unfold pagedir_create, palloc_get_page.
  destruct (palloc_get_cases s.(ps) 0 1 (mw_palloc _ Hwf) ltac:(lia)) as [(pd & p & E & G)|[Hn E]].
  2: { left. split; [exact Hn|]. change (has 0 PAL_ASSERT) with false in E.
       rewrite (bind_ok _ _ _ _ _ (in_palloc_eq _ _ _ _ E)). by destruct s as [[] ? ?]. }
  right. destruct (got_kernel 0 _ _ _ eq_refl G) as (Hw & Hnu & Hm & Hr & Hup & Hbase & Hu).
  pose proof (got_mem _ _ _ _ _ G) as Hpm. change (has 0 PAL_ZERO) with false in Hpm. cbv iota in Hpm.
  destruct Hwf as [Hpw Hlow]. unfold kpool in *. assert (Hpd : 0 < pd) by (unfold PHYS_BASE in *; lia).
  assert (Hin : ∀ x a, used (kernel_pool (ps s)) x → x ≤ a < x + 4096 → ¬ (pd ≤ a < pd + 4096)).
  { intros x a Hx Ha Ha'. apply (pages_apart x pd a a); [by eapply used_align|done|by intros ->|done..]. }
  set (s1 := mk_mmu p s.(cr3) s.(tlb)). set (m2 := write (mm s) pd l). set (s2 := set_mm m2 s1).
  assert (Hmc : memcpy pd init_page_dir PGSIZE (pmem p) = Ok (pd, m2)).
  { unfold PGSIZE. rewrite <- Hl. unfold m2, mm. rewrite <- Hpm. apply memcpy_spec.
    - rewrite Hpm. exact Hb.
    - intros a Ha. apply (awf_mem _ Hw false). destruct (got_addr _ _ _ _ _ G) as (_ & _ & _ & Hhi).
      destruct (got_base _ _ _ _ _ G) as [_ Hpp]. change (has 0 PAL_USER) with false in *.
      cbn [pool_of] in *. unfold pool_end in *. rewrite Hbase, Hpp. unfold PGSIZE in *. lia.
    - done.
    - destruct (used_kpage s init_page_dir) as [_ ?]; [done..|]. unfold PHYS_BASE in *; lia.
    - pose proof (used_align _ _ Hi). pose proof (Z.div_mod pd 4096).
      pose proof (Z.div_mod init_page_dir 4096). assert (pd ≠ init_page_dir) by (by intros ->). lia. }
  assert (Hm2 : ∀ a, ¬ (pd ≤ a < pd + 4096) → m2 !! a = mm s !! a).
  { intros a Ha. apply lookup_write_out. lia. }
  assert (Hz2 : ∀ i, 0 ≤ i < 768 → dir_entry m2 pd i = 0).
  { intros i Hii. rewrite <- (Hz i Hii). unfold dir_entry. rewrite (bytes_word m2 pd init_page_dir l).
    - apply word_ext. intros x Hx. apply Hm2, (Hin init_page_dir); [done|lia].
    - apply bytes_write. intros v. by eapply bytes_range.
    - eapply bytes_ext; [|exact Hb]. intros a Ha. apply Hm2, (Hin init_page_dir); [done|lia].
    - lia.
    - lia. }
  assert (Ho : ∀ x, owns m2 pd x ↔ x = pd).
  { intros x. split; [|by left]. intros [?|(i & Hii & Hd & _)]; [done|]. by rewrite Hz2 in Hd. }
  exists pd, s2. split; [|split_and!; [lia|done| |done..]].
  - rewrite (bind_ok _ _ _ _ _ (in_palloc_eq _ _ _ _ E)). destruct (Z.eqb_spec pd 0); [lia|]. fold s1.
    rewrite (bind_ok _ _ s1 pd s2); [done|]. apply in_palloc_eq. by apply in_mem_eq.
  - split; change (mm s2) with m2.
    + apply mmu_wf_set; [split; [exact Hw|]|].
      * change (PHYS_BASE ≤ base (kernel_pool p)). by rewrite Hbase.
      * intros a Ha. apply write_is_Some. change (is_Some (pmem p !! a)) in Ha. by rewrite Hpm in Ha.
    + split; change (mm s2) with m2.
      * change (used (kernel_pool p) pd). apply Hu. by right.
      * intros i Hii Hd. by rewrite Hz2 in Hd.
      * intros i j Hii Hj Hd. by rewrite Hz2 in Hd.
    + intros x. rewrite Ho. exact (Hu x).
    + intros a Ha. apply Hm2, Ha, Ho, eq_refl.
Qed.
End create.

(** * The processor and the directories over time *)

Section world.
Context (init_page_dir init_ram_pages : Z).

(** userprog/process.c *)
Definition install_page (pd upage kpage : Z) (writable : bool) : D bool :=
  p ← pagedir_get_page pd upage;
  if p =? 0 then pagedir_set_page init_page_dir init_ram_pages pd upage kpage writable else mret false.

(** One step of a machine whose directories are [dirs]: a call of the kernel, or
    the processor caching a translation, dropping one, or recording an access in
    the tables. *)
Inductive pd_step : mmu * gset Z → mmu * gset Z → Prop :=
| step_create s s' L pd : pagedir_create init_page_dir s = Ok (pd, s') → pd ≠ 0 →
    pd_step (s, L) (s', {[pd]} ∪ L)
| step_install s s' L pd va kpage w ok : pd ∈ L → pd ≠ init_page_dir → user_addr va → pg_ofs va = 0 →
    kpage_at kpage → (kpage - PHYS_BASE) / 4096 < init_ram_pages →
    install_page pd va kpage w s = Ok (ok, s') → pd_step (s, L) (s', L)
| step_clear s s' L pd va : pd ∈ L → user_addr va → pg_ofs va = 0 →
    pagedir_clear_page init_page_dir pd va s = Ok (tt, s') → pd_step (s, L) (s', L)
| step_dirty s s' L pd va v : pd ∈ L → user_addr va →
    pagedir_set_dirty init_page_dir pd va v s = Ok (tt, s') → pd_step (s, L) (s', L)
| step_accessed s s' L pd va v : pd ∈ L → user_addr va →
    pagedir_set_accessed init_page_dir pd va v s = Ok (tt, s') → pd_step (s, L) (s', L)
| step_activate s s' L pd : pd ∈ L → pagedir_activate init_page_dir pd s = Ok (tt, s') → pd_step (s, L) (s', L)
| step_cache s L va : user_addr va → pg_ofs va = 0 → has (entry (mm s) (active s) va) PTE_P = true →
    pd_step (s, L) (mk_mmu s.(ps) s.(cr3) (<[va := entry (mm s) (active s) va]> s.(tlb)), L)
| step_drop s L va : pd_step (s, L) (mk_mmu s.(ps) s.(cr3) (delete va s.(tlb)), L)
| step_access s L va f : user_addr va → f = PTE_A ∨ f = PTE_D →
    has (entry (mm s) (active s) va) PTE_P = true →
    pd_step (s, L) (set_mm (wr (mm s) (pte_addr (mm s) (active s) va) (Z.lor (entry (mm s) (active s) va) f)) s, L).

Definition tlb_sound (s : mmu) : Prop := ∀ va e, user_addr va → s.(tlb) !! va = Some e →
  mapping (mm s) (active s) va = Some (tab e, has e PTE_W).

Record world_inv (s : mmu) (L : gset Z) : Prop := {
  wi_wf : mmu_wf s;
  wi_cr3 : 0 ≤ s.(cr3) < 2 ^ 30;
  wi_active : active s ∈ L;
  wi_init : init_page_dir ∈ L;
  wi_init_ok : init_ok init_page_dir s;
  wi_dirs pd : pd ∈ L → pd_ok s pd;
  wi_sep pd pd' : pd ∈ L → pd' ∈ L → pd ≠ pd' → separate (mm s) pd pd';
  wi_frames pd va : pd ∈ L → user_addr va → has (entry (mm s) pd va) PTE_P = true →
    tab (entry (mm s) pd va) < 2 ^ 32;
  wi_tlb : tlb_sound s
}.

Lemma separate_sym m pd pd' : separate m pd pd' → separate m pd' pd.
Proof using. intros H x Hx Hx'. by apply (H x). Qed.

(** a change to the tables of [pd], which may be a new directory *)
Lemma inv_touch s s' L pd : world_inv s L → pd ≠ init_page_dir → touches s s' pd →
  (∀ pd', pd' ∈ L → pd' ≠ pd → ∀ x, owns (mm s') pd x → ¬ owns (mm s) pd' x) →
  s'.(cr3) = s.(cr3) → s'.(tlb) ⊆ s.(tlb) →
  (∀ va, user_addr va → has (entry (mm s') pd va) PTE_P = true → tab (entry (mm s') pd va) < 2 ^ 32) →
  (active s = pd → tlb_sound s') → world_inv s' ({[pd]} ∪ L).
Proof using.
  intros [] Hni Hch Hap Hc Ht Hf Htlb.
  assert (Ea : active s' = active s) by (unfold active; by rewrite Hc).
  assert (Hold : ∀ pd', pd' ∈ {[pd]} ∪ L → pd' ≠ pd → pd' ∈ L) by set_solver.
  assert (Hent : ∀ pd' va, pd' ∈ {[pd]} ∪ L → pd' ≠ pd → user_addr va → entry (mm s') pd' va = entry (mm s) pd' va).
  { intros pd' va Hin Hne. apply (frame_entry s s' pd pd'); eauto. }
  split.
  - apply Hch.
  - by rewrite Hc.
  - rewrite Ea. set_solver.
  - set_solver.
  - destruct wi_init_ok0 as [(l & Hl & Hb) Hz]. split.
    + exists l. split; [done|]. eapply bytes_ext; [|done]. intros a Ha.
      apply (frame_mem s s' pd init_page_dir Hch) with (x := init_page_dir); eauto; [by left|lia].
    + intros i Hi. rewrite (frame_dir s s' pd init_page_dir Hch) by eauto. by apply Hz.
  - intros pd' Hin. destruct (decide (pd' = pd)) as [->|Hne]; [apply Hch|]. apply (frame_ok s s' pd pd'); eauto.
  - intros p1 p2 H1 H2 Hne. destruct (decide (p1 = pd)) as [->|H1']; [|destruct (decide (p2 = pd)) as [->|H2']].
    + apply (frame_separate s s' pd p2); eauto.
    + apply separate_sym, (frame_separate s s' pd p1); eauto.
    + intros x. rewrite (frame_owns s s' pd p1), (frame_owns s s' pd p2) by eauto. apply wi_sep0; eauto.
  - intros pd' va Hin Hva. destruct (decide (pd' = pd)) as [->|Hne]; [by apply Hf|].
    rewrite Hent by done. apply wi_frames0; eauto.
  - destruct (decide (active s = pd)) as [E|E]; [by apply Htlb|]. intros va e Hva He.
    rewrite Ea. unfold mapping. rewrite Hent by (done || set_solver). apply wi_tlb0; [done|].
    by eapply lookup_weaken.
Qed.

Lemma in_dirs pd (L : gset Z) : pd ∈ L → {[pd]} ∪ L = L.
Proof using. set_solver. Qed.

(** a change of one entry *)
Lemma inv_update s s' L pd va v : world_inv s L → pd ∈ L → pd ≠ init_page_dir → user_addr va →
  updates s s' pd va v → s'.(cr3) = s.(cr3) →
  (has v PTE_P = true → tab v < 2 ^ 32) →
  s'.(tlb) = s.(tlb) ∧ (mapping (mm s) pd va = None ∨
      has v PTE_P = true ∧ mapping (mm s) pd va = Some (tab v, has v PTE_W)) ∨
    s'.(tlb) = (if active s =? pd then ∅ else s.(tlb)) → world_inv s' L.
Proof using.
  intros Hw Hpd Hni Hva Hup Hc Hf Ht. rewrite <- (in_dirs pd L Hpd). pose proof (up_changes _ _ _ _ _ Hup) as Hch.
  assert (Ea : active s' = active s) by (unfold active; by rewrite Hc).
  apply (inv_touch s s' L pd); [done|done|by apply changes_touches| |done| | |].
  - intros pd' H1 H2. apply changes_apart; [done|by apply (wi_dirs _ _ Hw)|by apply (wi_sep _ _ Hw)].
  - destruct Ht as [[-> _]| ->]; [done|]. destruct (_ =? pd); [apply map_empty_subseteq|done].
  - intros va' Hva'. rewrite (up_entry _ _ _ _ _ Hup va' Hva'). destruct (pg_no va' =? pg_no va); [done|]. by apply (wi_frames _ _ Hw).
  - intros E va' e Hva' He. rewrite Ea, E. rewrite (mapping_update _ _ _ _ _ _ Hup Hva').
    destruct Ht as [[Et Ht]|Et]; rewrite Et in He; [|by rewrite E, Z.eqb_refl in He].
    pose proof (wi_tlb _ _ Hw va' e Hva' He) as Hm. rewrite E in Hm.
    destruct (Z.eqb_spec (pg_no va') (pg_no va)) as [Ep|]; [|done]. rewrite (mapping_same_page _ _ _ _ Ep) in Hm.
    destruct Ht as [Ht|[Hp Ht]]; [by rewrite Ht in Hm|]. rewrite Hp. by rewrite <- Ht.
Qed.
(** the directory of the kernel has no page tables for user addresses *)
Lemma init_missing s L va : world_inv s L → user_addr va →
  dir_entry (mm s) init_page_dir (pd_no va) = 0 ∧ entry (mm s) init_page_dir va = 0.
Proof using.
  intros Hw Hva. destruct (wi_init_ok _ _ Hw) as [_ Hz]. specialize (Hz (pd_no va) (pd_no_range va Hva)).
  split; [done|]. unfold entry. by rewrite Hz.
Qed.

Lemma inv_create s s' L pd : world_inv s L → pagedir_create init_page_dir s = Ok (pd, s') → pd ≠ 0 →
  world_inv s' ({[pd]} ∪ L).
Proof using.
  intros Hw E Hpd. pose proof (wi_dirs _ _ Hw _ (wi_init _ _ Hw)) as Hi.
  destruct (pagedir_create_spec init_page_dir s) as [[_ E']|(pd' & s1 & E' & _ & Hn & Hch & Hz & Hc & Ht)];
    [apply Hw|apply Hi|apply Hw|congruence|]. rewrite E' in E. injection E as -> ->.
  assert (Ho : ∀ x, owns (mm s') pd x → x = pd).
  { intros x [?|(i & Hii & Hd & _)]; [done|]. by rewrite Hz in Hd. }
  apply (inv_touch s s' L pd); [done| |done| |done| | |].
  - intros ->. by apply Hn, Hi.
  - intros pd' H1 H2 x Hx Hx'. apply Hn. rewrite <- (Ho x Hx). by apply (owns_used s pd'), Hx'; apply Hw.
  - by rewrite Ht.
  - intros va Hva. unfold entry. by rewrite (Hz _ (pd_no_range va Hva)).
  - intros Ea. destruct Hn. rewrite <- Ea. apply (wi_dirs _ _ Hw), Hw.
Qed.

Lemma tab_positive e : 0 ≤ e → 0 < tab e.
Proof using. intros He. unfold tab, PHYS_BASE. pose proof (Z.div_pos e 4096). lia. Qed.

(** [install_page] never fails an assertion *)
Lemma install_page_spec s L pd va kpage w : world_inv s L → pd ∈ L → pd ≠ init_page_dir → user_addr va →
  pg_ofs va = 0 → kpage_at kpage → (kpage - PHYS_BASE) / 4096 < init_ram_pages →
  match mapping (mm s) pd va with
  | Some _ => install_page pd va kpage w s = Ok (false, s)
  | None => (no_group (kpool s) 1 ∧ install_page pd va kpage w s = Ok (false, s)) ∨
    ∃ s', install_page pd va kpage w s = Ok (true, s') ∧ updates s s' pd va (mk_entry kpage (if w then 7 else 5)) ∧
      s'.(cr3) = s.(cr3) ∧ s'.(tlb) = s.(tlb)
  end.
Proof using.
  intros Hw Hpd Hni Hva Ho Hk Hr. unfold install_page.
  rewrite (bind_ok _ _ _ _ _ (pagedir_get_page_spec s pd va (wi_wf _ _ Hw) (wi_dirs _ _ Hw pd Hpd) Hva
    (wi_frames _ _ Hw pd va Hpd Hva))).
  unfold mapping. destruct (has (entry (mm s) pd va) PTE_P) eqn:Hp.
  - rewrite Ho. pose proof (tab_positive _ (proj1 (entry_range s pd va))). by destruct (Z.eqb_spec (tab (entry (mm s) pd va) + 0) 0); [lia|].
  - rewrite Z.eqb_refl. by apply pagedir_set_page_spec; try apply Hw.
Qed.

Lemma inv_install s s' L pd va kpage w ok : world_inv s L → pd ∈ L → pd ≠ init_page_dir → user_addr va →
  pg_ofs va = 0 → kpage_at kpage → (kpage - PHYS_BASE) / 4096 < init_ram_pages →
  install_page pd va kpage w s = Ok (ok, s') → world_inv s' L.
Proof using.
  intros Hw Hpd Hni Hva Ho Hk Hr E. pose proof (install_page_spec s L pd va kpage w Hw Hpd Hni Hva Ho Hk Hr) as Hs.
  destruct (mapping (mm s) pd va) eqn:Em; [rewrite Hs in E; by simplify_eq|].
  destruct Hs as [[_ E']|(s1 & E' & Hup & Hc & Ht)]; rewrite E' in E; simplify_eq; [done|].
  destruct (mk_entry_spec kpage (if w then 7 else 5) Hk ltac:(destruct w; lia)) as (_ & Htab & _).
  eapply (inv_update s s'); try done; [rewrite Htab; intros _; apply Hk|]. left. auto.
Qed.

Lemma inv_clear s s' L pd va : world_inv s L → pd ∈ L → user_addr va → pg_ofs va = 0 →
  pagedir_clear_page init_page_dir pd va s = Ok (tt, s') → world_inv s' L.
Proof using.
  intros Hw Hpd Hva Ho E. pose proof (pagedir_clear_page_spec init_page_dir s pd va (wi_wf _ _ Hw)
    (wi_dirs _ _ Hw pd Hpd) Hva (wi_cr3 _ _ Hw) Ho) as Hs.
  destruct (has (entry (mm s) pd va) PTE_P) eqn:Hp; [|rewrite Hs in E; by simplify_eq].
  destruct Hs as (s1 & E' & Hup & Hc & Ht). rewrite E' in E. simplify_eq.
  assert (pd ≠ init_page_dir) by (intros ->; by rewrite (proj2 (init_missing s L va Hw Hva)) in Hp).
  destruct (cleared_spec s pd va 0 ltac:(lia)) as [_ Hf]. specialize (Hf 0 ltac:(lia)).
  change (2 ^ 0) with PTE_P in Hf. eapply (inv_update s s'); try done; [|by right]. by rewrite Hf.
Qed.

Lemma inv_flag s s' L pd va k v : world_inv s L → pd ∈ L → user_addr va → 5 ≤ k ≤ 6 →
  put_flag init_page_dir pd va (2 ^ k) v s = Ok (tt, s') → world_inv s' L.
Proof using.
  intros Hw Hpd Hva Hk E. assert (Hf : 0 ≤ 2 ^ k < 4096).
  { split; [apply Z.pow_nonneg; lia|]. apply (Z.pow_lt_mono_r 2 k 12); lia. }
  pose proof (wi_wf _ _ Hw) as Hwf. pose proof (wi_dirs _ _ Hw pd Hpd) as Hok. pose proof (wi_cr3 _ _ Hw) as Hcr.
  destruct (decide (dir_entry (mm s) pd (pd_no va) = 0)) as [Hd|Hd].
  { rewrite put_flag_missing in E by done. by simplify_eq. }
  destruct (put_flag_spec init_page_dir s pd va Hwf Hok Hva Hcr (2 ^ k) v Hf Hd) as (s1 & E' & Hup & Hc & Ht).
  rewrite E' in E. simplify_eq. assert (pd ≠ init_page_dir) by (intros ->; by apply Hd, (init_missing s L)).
  destruct (cleared_spec s pd va k ltac:(lia)) as [Htab Hcl].
  pose proof (wi_frames _ _ Hw pd va Hpd Hva) as Hfr. set (e := entry (mm s) pd va) in *.
  assert (Hsame : ∀ j, 0 ≤ j < 2 → has (Z.lor e (2 ^ k)) (2 ^ j) = has e (2 ^ j)).
  { intros j Hj. rewrite lor_flag by lia. by destruct (Z.eqb_spec j k); [lia|]. }
  eapply (inv_update s s'); try done.
  - destruct v.
    + change PTE_P with (2 ^ 0). rewrite Hsame, tab_lor by lia. exact Hfr.
    + change PTE_P with (2 ^ 0). rewrite Hcl, Htab by lia. destruct (Z.eqb_spec 0 k); [lia|]. exact Hfr.
  - destruct v; simpl in Ht; [left|by right]. split; [done|]. unfold mapping. fold e.
    change PTE_P with (2 ^ 0). change PTE_W with (2 ^ 1). rewrite !Hsame, tab_lor by lia.
    destruct (has e (2 ^ 0)); auto.
Qed.

Lemma inv_activate s s' L pd : world_inv s L → pd ∈ L → pagedir_activate init_page_dir pd s = Ok (tt, s') →
  world_inv s' L.
Proof using.
  intros Hw Hpd E. pose proof (wi_dirs _ _ Hw pd Hpd) as Hok.
  pose proof (used_kpage s pd (wi_wf _ _ Hw) (po_pd _ _ Hok)) as Hk. pose proof (phys_small pd Hk).
  unfold pagedir_activate in E. destruct (Z.eqb_spec pd 0); [destruct Hk; unfold PHYS_BASE in *; lia|].
  rewrite (bind_ok _ _ s _ s (lift_out_eq _ _ s (vtop_page pd Hk))) in E. injection E as <-.
  destruct Hw. split; try done; try by destruct wi_wf0.
  - unfold active. simpl. by replace (pd - PHYS_BASE + PHYS_BASE) with pd by lia.
  - intros pd' Hin. by destruct (wi_dirs0 pd' Hin).
Qed.
End world.

(** * Destroying a directory *)

(** from [s] to [s'] exactly the pages in [F] have been freed *)
Record freed (s s' : mmu) (F : Z → Prop) : Prop := {
  fr_wf : mmu_wf s';
  fr_kernel x : used (kpool s') x ↔ used (kpool s) x ∧ ¬ F x;
  fr_user x : used (upool s') x ↔ used (upool s) x ∧ ¬ F x;
  fr_mem a : (∀ x, F x → ¬ (x ≤ a < x + 4096)) → mm s' !! a = mm s !! a;
  fr_cr3 : s'.(cr3) = s.(cr3);
  fr_tlb : s'.(tlb) = s.(tlb);
  fr_end : pool_end (upool s') = pool_end (upool s) ∧ (upool s').(base) = (upool s).(base)
}.

Lemma freed_none s : mmu_wf s → freed s s (λ _, False).
Proof. intros H. split; try done; naive_solver. Qed.

Lemma freed_ext s s' F G : (∀ x, F x ↔ G x) → freed s s' F → freed s s' G.
Proof.
  intros H []. split; try done.
  - intros x. by rewrite fr_kernel0, H.
  - intros x. by rewrite fr_user0, H.
  - intros a Ha. apply fr_mem0. intros x Hx. by apply Ha, H.
Qed.

Lemma freed_trans s1 s2 s3 F G : freed s1 s2 F → freed s2 s3 G → freed s1 s3 (λ x, F x ∨ G x).
Proof.
  intros [] []. split; [done|..].
  - intros x. rewrite fr_kernel1, fr_kernel0. tauto.
  - intros x. rewrite fr_user1, fr_user0. tauto.
  - intros a Ha. rewrite fr_mem1 by (intros x Hx; apply Ha; by right). apply fr_mem0. intros x Hx. apply Ha. by left.
  - congruence.
  - congruence.
  - destruct fr_end0, fr_end1. split; congruence.
Qed.

Lemma used_group u s x : palloc_wf s → used (pool_of u s) x → group_in s u x 1.
Proof.
  intros Hwf (Hr & Hm & _). pose proof (pool_wf_of u s Hwf) as [_ [_ Hb] _]. split; [done|lia|].
  unfold pool_end, PGSIZE in *. pose proof (Z.div_mod x 4096). pose proof (Z.div_mod (base (pool_of u s)) 4096). lia.
Qed.

Lemma pools_apart s x : mmu_wf s → used (kpool s) x → used (upool s) x → False.
Proof. intros [[_ _ Ho _] _] (Hk & _) (Hu & _). unfold kpool, upool in *. lia. Qed.

Lemma free_page_spec s u x : mmu_wf s → used (pool_of u s.(ps)) x →
  ∃ s', in_palloc (palloc_free_page x) s = Ok (tt, s') ∧ freed s s' (λ y, y = x).
Proof.
  intros Hwf Hu. pose proof (mw_palloc _ Hwf) as Hp. pose proof (used_align _ _ Hu) as Hal.
  destruct (palloc_free_spec s.(ps) u x 1 Hp ltac:(lia) (used_group u _ x Hp Hu)) as (p & E & Hw & Hus & Hb & Hpp & Ho & Hm).
  { intros y Hy. by apply page_group in Hy as ->. }
  eexists. split; [by apply in_palloc_eq|].
  assert (Hmem : ∀ a, ¬ (x ≤ a < x + 4096) → pmem p !! a = pmem (ps s) !! a).
  { intros a Ha. rewrite Hm. apply lookup_write_out. rewrite length_replicate. unfold PGSIZE. lia. }
  clear Hm E. split.
  - split; [exact Hw|]. change (PHYS_BASE ≤ base (kernel_pool p)).
    destruct u; cbn [pool_of negb] in *; [rewrite Ho|rewrite Hb]; apply Hwf.
  - intros y. change (used (kernel_pool p) y ↔ used (kpool s) y ∧ y ≠ x). destruct u; cbn [pool_of negb] in *.
    + rewrite Ho. split; [|tauto]. intros Hy. split; [done|]. intros ->. by apply (pools_apart s x).
    + rewrite Hus, page_group by done. done.
  - intros y. change (used (user_pool p) y ↔ used (upool s) y ∧ y ≠ x). destruct u; cbn [pool_of negb] in *.
    + rewrite Hus, page_group by done. done.
    + rewrite Ho. split; [|tauto]. intros Hy. split; [done|]. intros ->. by apply (pools_apart s x).
  - intros a Ha. exact (Hmem a (Ha x eq_refl)).
  - done.
  - done.
  - change (pool_end (user_pool p) = pool_end (upool s) ∧ (user_pool p).(base) = (upool s).(base)). unfold pool_end.
    destruct u; cbn [pool_of negb] in *; [unfold upool; split; congruence|by rewrite Ho].
Qed.

(** the words of a page that is not freed stay *)
Lemma freed_word s s' F x a : freed s s' F → x mod 4096 = 0 → ¬ F x → (∀ y, F y → y mod 4096 = 0) →
  x ≤ a → a + 4 ≤ x + 4096 → word (mm s') a = word (mm s) a.
Proof.
  intros Hf Hx HF Hal Ha Ha'. apply word_ext. intros b Hb. apply (fr_mem _ _ _ Hf). intros y Hy Hby.
  apply (pages_apart x y b b); [done|by apply Hal|by intros ->|lia..].
Qed.

(** the pages that the [n] entries from [a] on point to *)
Definition targets (m : mem) (a : Z) (n : nat) (y : Z) : Prop :=
  ∃ j, 0 ≤ j < Z.of_nat n ∧ has (word m (a + 4 * j)) PTE_P = true ∧ y = tab (word m (a + 4 * j)).

Definition distinct (m : mem) (a : Z) (n : nat) : Prop :=
  ∀ i j, 0 ≤ i < Z.of_nat n → 0 ≤ j < Z.of_nat n → has (word m (a + 4 * i)) PTE_P = true →
    has (word m (a + 4 * j)) PTE_P = true → tab (word m (a + 4 * i)) = tab (word m (a + 4 * j)) → i = j.

Lemma targets_S m a n y : targets m a (S n) y ↔
  has (word m a) PTE_P = true ∧ y = tab (word m a) ∨ targets m (a + 4) n y.
Proof.
  unfold targets. split.
  - intros (j & Hj & H). destruct (decide (j = 0)) as [->|].
    + left. by replace (a + 4 * 0) with a in H by lia.
    + right. exists (j - 1). replace (a + 4 + 4 * (j - 1)) with (a + 4 * j) by lia. split; [lia|done].
  - intros [H|(j & Hj & H)].
    + exists 0. replace (a + 4 * 0) with a by lia. split; [lia|done].
    + exists (j + 1). replace (a + 4 * (j + 1)) with (a + 4 + 4 * j) by lia. split; [lia|done].
Qed.

Lemma distinct_S m a n : distinct m a (S n) →
  distinct m (a + 4) n ∧ (has (word m a) PTE_P = true → ¬ targets m (a + 4) n (tab (word m a))).
Proof.
  intros H. split.
  - intros i j Hi Hj. specialize (H (i + 1) (j + 1)). replace (a + 4 * (i + 1)) with (a + 4 + 4 * i) in H by lia.
    replace (a + 4 * (j + 1)) with (a + 4 + 4 * j) in H by lia. intros H1 H2 H3. specialize (H ltac:(lia) ltac:(lia) H1 H2 H3). lia.
  - intros Hp (j & Hj & Hpj & E). specialize (H 0 (j + 1)). replace (a + 4 * 0) with a in H by lia.
    replace (a + 4 * (j + 1)) with (a + 4 + 4 * j) in H by lia. specialize (H ltac:(lia) ltac:(lia) Hp Hpj E). lia.
Qed.

Lemma targets_align m a n y : targets m a n y → y mod 4096 = 0.
Proof. intros (j & _ & _ & ->). apply tab_mod. Qed.

Lemma targets_ext m m' a n : (∀ j, 0 ≤ j < Z.of_nat n → word m' (a + 4 * j) = word m (a + 4 * j)) →
  (∀ y, targets m' a n y ↔ targets m a n y) ∧ (distinct m a n → distinct m' a n).
Proof.
  intros H. split.
  - intros y. split; intros (j & Hj & Hr); exists j; (split; [done|]); [by rewrite H in Hr|by rewrite H].
  - intros Hd i j Hi Hj. rewrite !H by done. by apply Hd.
Qed.

Lemma used_upage s y : mmu_wf s → used (upool s) y → PHYS_BASE ≤ y < 2 ^ 32.
Proof.
  intros [[Hk Hu Ho _] Hb] (Hy & _ & _). pose proof (pwf_end _ Hu). pose proof (wf_cnt _ (pwf_map _ Hk)).
  unfold kpool, upool, pool_end, pool_pages, PGSIZE in *. lia.
Qed.

Lemma free_pages_spec n : ∀ a s x, mmu_wf s → used (kpool s) x → x ≤ a → a + 4 * Z.of_nat n ≤ x + 4096 →
  distinct (mm s) a n → (∀ y, targets (mm s) a n y → used (upool s) y) →
  ∃ s', free_pages a n s = Ok (tt, s') ∧ freed s s' (targets (mm s) a n).
Proof.
  induction n as [|n IH]; intros a s x Hwf Hx Ha Hn Hd Hu.
  { exists s. split; [done|]. eapply freed_ext; [|by apply freed_none]. intros y. split; [done|]. intros (j & ? & _). lia. }
  assert (Hu1 : has (word (mm s) a) PTE_P = true → used (upool s) (tab (word (mm s) a))) by (intros; apply Hu, targets_S; auto).
  assert (Hx1 : ∀ y, used (upool s) y → x ≠ y) by (intros y Hy ->; by apply (pools_apart s y)).
  apply distinct_S in Hd as [Hd Hnd]. simpl free_pages.
  rewrite (bind_ok _ _ _ _ _ (ld_eq s a (used_writable s x a 4 Hwf Hx Ha ltac:(lia)))).
  set (e := word (mm s) a) in *. set (F := λ y, has e PTE_P = true ∧ y = tab e).
  assert (Hs1 : ∃ s1, (if has e PTE_P then p ← lift_out (pte_get_page e); in_palloc (palloc_free_page p) else mret tt) s =
                        Ok (tt, s1) ∧ freed s s1 F).
  { unfold F. destruct (has e PTE_P).
    - specialize (Hu1 eq_refl). pose proof (used_upage s _ Hwf Hu1).
      rewrite (bind_ok _ _ s (tab e) s) by (apply lift_out_eq, ptov_tab; [apply word_range|lia]).
      destruct (free_page_spec s true (tab e) Hwf Hu1) as (s1 & E1 & F1). exists s1. split; [done|].
      eapply freed_ext; [|done]. naive_solver.
    - exists s. split; [done|]. eapply freed_ext; [|by apply freed_none]. naive_solver. }
  destruct Hs1 as (s1 & E1 & F1). rewrite (bind_ok _ _ _ _ _ E1).
  assert (HFx : ¬ F x) by (intros [Hp E]; by apply (Hx1 _ (Hu1 Hp))).
  destruct (targets_ext (mm s) (mm s1) (a + 4) n) as [Ht Hd1].
  { intros j Hj. eapply (freed_word s s1 F x); [done|by eapply used_align|done|by intros y [_ ->]; apply tab_mod|lia..]. }
  destruct (IH (a + 4) s1 x) as (s2 & E2 & F2); [apply F1|by apply (fr_kernel _ _ _ F1)|lia|lia|auto| |].
  - intros y Hy. apply Ht in Hy. apply (fr_user _ _ _ F1). split; [apply Hu, targets_S; auto|].
    intros [Hp ->]. by apply Hnd.
  - exists s2. split; [done|]. eapply freed_ext; [|by eapply freed_trans]. intros y. rewrite targets_S. simpl.
    rewrite Ht. done.
Qed.

(** the numbers of entries of a table and of user entries of a directory *)
Definition table_len : nat := Z.to_nat 1024.
Definition dir_len : nat := Z.to_nat 768.

Lemma table_len_Z : Z.of_nat table_len = 1024.
Proof. apply Z2Nat.id. lia. Qed.

Lemma dir_len_Z : Z.of_nat dir_len = 768.
Proof. apply Z2Nat.id. lia. Qed.

Lemma table_len_eq : Z.to_nat (PGSIZE / 4) = table_len.
Proof. unfold table_len. by f_equal. Qed.

Lemma dir_len_eq : Z.to_nat (pd_no PHYS_BASE) = dir_len.
Proof. unfold dir_len. by f_equal. Qed.

#[global] Opaque table_len dir_len.

(** the page tables that the [n] entries from [a] on of a directory point to, and
    the pages those map *)
Definition tree (m : mem) (a : Z) (n : nat) (y : Z) : Prop :=
  targets m a n y ∨ ∃ t, targets m a n t ∧ targets m t table_len y.

Record tree_ok (s : mmu) (x a : Z) (n : nat) : Prop := {
  tr_page : used (kpool s) x;
  tr_low : x ≤ a;
  tr_high : a + 4 * Z.of_nat n ≤ x + 4096;
  tr_tables t : targets (mm s) a n t → used (kpool s) t ∧ t ≠ x;
  tr_distinct : distinct (mm s) a n;
  tr_frames t : targets (mm s) a n t → distinct (mm s) t table_len ∧ ∀ y, targets (mm s) t table_len y → used (upool s) y;
  tr_apart t t' y : targets (mm s) a n t → targets (mm s) a n t' → targets (mm s) t table_len y → targets (mm s) t' table_len y → t = t'
}.

(** what is left of a tree when the first table and its pages have been freed *)
Lemma tree_rest s s1 x a n F (e := word (mm s) a) : mmu_wf s → tree_ok s x a (S n) → freed s s1 F →
  (∀ y, F y ↔ has e PTE_P = true ∧ (y = tab e ∨ targets (mm s) (tab e) table_len y)) →
  tree_ok s1 x (a + 4) n ∧ ∀ y, tree (mm s1) (a + 4) n y ↔ tree (mm s) (a + 4) n y.
Proof.
  intros Hwf [] F1 HF. pose proof table_len_Z as Hlen. apply distinct_S in tr_distinct0 as [Hd Hnd]. fold e in Hnd.
  assert (Hfirst : has e PTE_P = true → targets (mm s) a (S n) (tab e)) by (intros; apply targets_S; auto).
  assert (Hmore : ∀ t, targets (mm s) (a + 4) n t → targets (mm s) a (S n) t) by (intros; apply targets_S; auto).
  assert (HFk : ∀ y, F y → used (kpool s) y → has e PTE_P = true ∧ y = tab e).
  { intros y Hy Hk. apply HF in Hy as [Hp [->|Hy]]; [done|]. exfalso. apply (pools_apart s y Hwf Hk).
    by apply (tr_frames0 (tab e)); [apply Hfirst|]. }
  assert (HFal : ∀ y, F y → y mod 4096 = 0).
  { intros y Hy. apply HF in Hy as [_ [->|Hy]]; [apply tab_mod|by eapply targets_align]. }
  assert (HFx : ¬ F x).
  { intros Hx. destruct (HFk x Hx tr_page0) as [Hp E]. by apply (tr_tables0 (tab e)); [apply Hfirst|]. }
  destruct (targets_ext (mm s) (mm s1) (a + 4) n) as [Ht Hd1].
  { intros j Hj. apply (freed_word s s1 F x); [done|by eapply used_align|done|done|lia..]. }
  assert (HFt : ∀ t, targets (mm s) (a + 4) n t → ¬ F t).
  { intros t Htt HFt. destruct (HFk t HFt) as [Hp ->]; [by apply tr_tables0, Hmore|]. by apply Hnd. }
  assert (Ht2 : ∀ t, targets (mm s) (a + 4) n t →
    (∀ y, targets (mm s1) t table_len y ↔ targets (mm s) t table_len y) ∧ (distinct (mm s) t table_len → distinct (mm s1) t table_len)).
  { intros t Htt. apply targets_ext. intros j Hj.
    apply (freed_word s s1 F t); [done|by eapply targets_align|by apply HFt|done|lia..]. }
  split; [split|].
  - by apply (fr_kernel _ _ _ F1).
  - lia.
  - lia.
  - intros t Htt%Ht. destruct (tr_tables0 t (Hmore t Htt)). split; [|done]. apply (fr_kernel _ _ _ F1). split; [done|by apply HFt].
  - auto.
  - intros t Htt%Ht. destruct (tr_frames0 t (Hmore t Htt)) as [Hdt Hut]. split; [by apply Ht2|]. intros y Hy.
    apply (Ht2 t Htt) in Hy. apply (fr_user _ _ _ F1). split; [by apply Hut|]. intros HFy.
    apply HF in HFy as [Hp [->|HFy]].
    + apply (pools_apart s (tab e) Hwf); [by apply tr_tables0, Hfirst|by apply Hut].
    + rewrite (tr_apart0 t (tab e) y) in Htt by auto. by apply Hnd.
  - intros t t' y Htt%Ht Htt'%Ht Hy Hy'. apply (Ht2 t Htt) in Hy. apply (Ht2 t' Htt') in Hy'. eauto.
  - intros y. unfold tree. rewrite Ht. split; (intros [H|(t & Htt & H)]; [by left|right; exists t]).
    + apply Ht in Htt. split; [done|]. by apply (Ht2 t Htt).
    + split; [by apply Ht|]. by apply (Ht2 t Htt).
Qed.

(** freeing one page table and the pages it maps *)
Lemma free_table_spec s x a n (e := word (mm s) a) : mmu_wf s → tree_ok s x a (S n) →
  ∃ s', (if has e PTE_P then
           pt ← lift_out (pde_get_pt e); free_pages pt (Z.to_nat (PGSIZE / 4));; in_palloc (palloc_free_page pt)
         else mret tt) s = Ok (tt, s') ∧
    freed s s' (λ y, has e PTE_P = true ∧ (y = tab e ∨ targets (mm s) (tab e) table_len y)).
Proof.
  intros Hwf []. destruct (has e PTE_P) eqn:Hp.
  2: { exists s. split; [done|]. eapply freed_ext; [|by apply freed_none]. naive_solver. }
  assert (Ht : targets (mm s) a (S n) (tab e)) by (apply targets_S; auto).
  destruct (tr_tables0 _ Ht) as [Hk _]. destruct (tr_frames0 _ Ht) as [Hd Hu]. pose proof (used_kpage s _ Hwf Hk) as [_ Hr].
  rewrite (bind_ok _ _ s (tab e) s) by (apply lift_out_eq, pde_get_pt_eq; [apply word_range|done|lia]).
  rewrite table_len_eq.
  destruct (free_pages_spec table_len (tab e) s (tab e) Hwf Hk) as (s1 & E1 & F1); [lia|rewrite table_len_Z; lia|done|done|].
  rewrite (bind_ok _ _ _ _ _ E1). destruct (free_page_spec s1 false (tab e) (fr_wf _ _ _ F1)) as (s2 & E2 & F2).
  { apply (fr_kernel _ _ _ F1). split; [done|]. intros H. by apply (pools_apart s (tab e)), Hu. }
  exists s2. split; [done|]. eapply freed_ext; [|by eapply freed_trans]. intros y. simpl. tauto.
Qed.

Lemma tree_S m a n y : tree m a (S n) y ↔
  has (word m a) PTE_P = true ∧ (y = tab (word m a) ∨ targets m (tab (word m a)) table_len y) ∨ tree m (a + 4) n y.
Proof.
  unfold tree. rewrite targets_S. split.
  - intros [[[Hp ->]|H]|(t & Ht & Hy)]; [by left; auto|by right; left|].
    apply targets_S in Ht as [[Hp ->]|Ht]; [by left; auto|]. right. right. by exists t.
  - intros [[Hp [->|Hy]]|[H|(t & Ht & Hy)]]; [by left; left|right|by left; right|right].
    + exists (tab (word m a)). rewrite targets_S. auto.
    + exists t. rewrite targets_S. auto.
Qed.

Lemma free_tables_spec n : ∀ a s x, mmu_wf s → tree_ok s x a n →
  ∃ s', free_tables a n s = Ok (tt, s') ∧ freed s s' (tree (mm s) a n).
Proof.
  induction n as [|n IH]; intros a s x Hwf Htr.
  { exists s. split; [done|]. eapply freed_ext; [|by apply freed_none]. intros y. split; [done|].
    intros [(j & ? & _)|(t & (j & ? & _) & _)]; lia. }
  destruct (free_table_spec s x a n Hwf Htr) as (s1 & E1 & F1). cbn [free_tables].
  pose proof (tr_page _ _ _ _ Htr) as Hx. pose proof (tr_low _ _ _ _ Htr) as Hl. pose proof (tr_high _ _ _ _ Htr) as Hh.
  rewrite (bind_ok _ _ _ _ _ (ld_eq s a (used_writable s x a 4 Hwf Hx Hl ltac:(lia)))).
  rewrite (bind_ok _ _ _ _ _ E1).
  destruct (tree_rest s s1 x a n _ Hwf Htr F1 ltac:(done)) as [Htr1 Ht].
  destruct (IH (a + 4) s1 x (fr_wf _ _ _ F1) Htr1) as (s2 & E2 & F2). exists s2. split; [done|].
  eapply freed_ext; [|by eapply freed_trans]. intros y. rewrite tree_S. simpl. rewrite Ht. done.
Qed.

(** [f] is mapped somewhere in the user addresses of [pd] *)
Definition maps_page (m : mem) (pd f : Z) : Prop := ∃ va w, user_addr va ∧ mapping m pd va = Some (f, w).

Lemma va_of i j : 0 ≤ i < 768 → 0 ≤ j < 1024 →
  user_addr (2 ^ 22 * i + 4096 * j) ∧ pd_no (2 ^ 22 * i + 4096 * j) = i ∧ pt_no (2 ^ 22 * i + 4096 * j) = j.
Proof.
  intros Hi Hj. unfold user_addr, PHYS_BASE. rewrite pd_no_eq, pt_no_eq. split; [lia|]. split.
  - rewrite Z.add_comm, Z.mul_comm, (Z.mul_comm _ i), Z.div_add, Z.div_small by lia. lia.
  - change (2 ^ 22) with (1024 * 4096). replace (1024 * 4096 * i + 4096 * j) with ((1024 * i + j) * 4096) by lia.
    rewrite Z.div_mul, Z.add_comm, Z.mul_comm, Z.mod_add, Z.mod_small; lia.
Qed.

Section destroy.
Context (s : mmu) (pd : Z).
Hypothesis Hwf : mmu_wf s.
Hypothesis Hok : pd_ok s pd.

Lemma present i : 0 ≤ i < 768 → has (dir_entry (mm s) pd i) PTE_P = true ↔ dir_entry (mm s) pd i ≠ 0.
Proof using Hok. intros Hi. split; [by intros H E; rewrite E in H|]. intros H. by apply (po_tab _ _ Hok). Qed.

Lemma targets_tables t : targets (mm s) pd dir_len t ↔
  ∃ i, 0 ≤ i < 768 ∧ dir_entry (mm s) pd i ≠ 0 ∧ t = tab (dir_entry (mm s) pd i).
Proof using Hok.
  pose proof dir_len_Z as Hlen. unfold targets. fold (dir_entry (mm s) pd). split; intros (i & Hi & Hp & ->); exists i.
  - split; [lia|]. split; [|done]. by apply present; [lia|].
  - split; [lia|]. split; [|done]. by apply present.
Qed.

(** page [j] of table [i] *)
Lemma mapping_at i j f w : 0 ≤ i < 768 → 0 ≤ j < 1024 → dir_entry (mm s) pd i ≠ 0 →
  mapping (mm s) pd (2 ^ 22 * i + 4096 * j) = Some (f, w) ↔
  let e := word (mm s) (tab (dir_entry (mm s) pd i) + 4 * j) in has e PTE_P = true ∧ f = tab e ∧ w = has e PTE_W.
Proof using.
  intros Hi Hj Hd. destruct (va_of i j Hi Hj) as (_ & E1 & E2). unfold mapping, entry, pte_addr. rewrite E1, E2.
  destruct (Z.eqb_spec (dir_entry (mm s) pd i) 0); [done|]. cbv zeta. destruct (has _ PTE_P); naive_solver.
Qed.

Lemma targets_frames i f : 0 ≤ i < 768 → dir_entry (mm s) pd i ≠ 0 → targets (mm s) (tab (dir_entry (mm s) pd i)) table_len f ↔
  ∃ j w, 0 ≤ j < 1024 ∧ mapping (mm s) pd (2 ^ 22 * i + 4096 * j) = Some (f, w).
Proof using.
  intros Hi Hd. pose proof table_len_Z as Hlen. unfold targets. split.
  - intros (j & Hj & Hp & ->). eexists j, _. split; [lia|]. apply mapping_at; [done|lia|done|done].
  - intros (j & w & Hj & Hm). exists j. split; [lia|]. apply mapping_at in Hm as (? & ? & _); [done|done|done|done].
Qed.

Lemma maps_page_frames f : maps_page (mm s) pd f ↔
  ∃ i, 0 ≤ i < 768 ∧ dir_entry (mm s) pd i ≠ 0 ∧ targets (mm s) (tab (dir_entry (mm s) pd i)) table_len f.
Proof using.
  split.
  - intros (va & w & Hva & Hm). assert (Hp : has (entry (mm s) pd va) PTE_P = true).
    { unfold mapping in Hm. by destruct (has (entry (mm s) pd va) PTE_P). }
    pose proof (entry_present s pd va Hp) as Hd. exists (pd_no va). split; [by apply pd_no_range|]. split; [done|].
    apply targets_frames; [by apply pd_no_range|done|]. pose proof (pt_no_range va). exists (pt_no va), w. split; [done|].
    rewrite <- Hm. apply mapping_same_page. destruct (va_of (pd_no va) (pt_no va)) as (_ & E1 & E2); [by apply pd_no_range|done|].
    by apply same_page.
  - intros (i & Hi & Hd & Ht). apply targets_frames in Ht as (j & w & Hj & Hm); [|done|done].
    exists (2 ^ 22 * i + 4096 * j), w. split; [by apply va_of|done].
Qed.
End destroy.

(** * Statements *)

Lemma inv_tlb init s L t : world_inv init s L → (∀ va e, user_addr va → t !! va = Some e →
  mapping (mm s) (active s) va = Some (tab e, has e PTE_W)) → world_inv init (mk_mmu s.(ps) s.(cr3) t) L.
Proof. intros [] Ht. split; try done; [by destruct wi_wf0|]. intros pd Hpd. by destruct (wi_dirs0 pd Hpd). Qed.

Lemma pd_step_inv init ram w w' : pd_step init ram w w' → world_inv init w.1 w.2 → world_inv init w'.1 w'.2.
Proof.
  intros [s s' L pd E Hpd|s s' L pd va kpage wr ok ? ? ? ? ? ? ?|s s' L pd va|s s' L pd va v|s s' L pd va v|s s' L pd
    |s L va Hva Ho Hp|s L va|s L va f Hva Hf Hp] Hw; simpl in *.
  - by eapply inv_create.
  - by eapply inv_install.
  - by eapply inv_clear.
  - by eapply (inv_flag _ _ _ _ _ _ 6).
  - by eapply (inv_flag _ _ _ _ _ _ 5).
  - by eapply inv_activate.
  - apply inv_tlb; [done|]. intros va' e Hva'. destruct (decide (va = va')) as [<-|Hne].
    + rewrite lookup_insert_eq. intros [= <-]. unfold mapping. by rewrite Hp.
    + rewrite lookup_insert_ne by done. by apply (wi_tlb _ _ _ Hw).
  - apply inv_tlb; [done|]. intros va' e Hva' [_ He]%lookup_delete_Some. by apply (wi_tlb _ _ _ Hw).
  - pose proof (wi_active _ _ _ Hw) as Ha. set (pd := active s) in *.
    apply (inv_flag init s _ L pd va (if decide (f = PTE_A) then 5 else 6) true); try done; [by case_decide|].
    pose proof (entry_present s pd va Hp) as Hd. pose proof (wi_dirs _ _ _ Hw pd Ha) as Hok.
    unfold put_flag. rewrite (lookup_then s pd (wi_wf _ _ _ Hw) Hok va tt) by done.
    destruct (Z.eqb_spec (dir_entry (mm s) pd (pd_no va)) 0); [done|].
    replace (2 ^ (if decide (f = PTE_A) then 5 else 6)) with f by (destruct Hf as [-> | ->]; done).
    apply st_eq. by apply (pte_writable s pd (wi_wf _ _ _ Hw) Hok).
Qed.

Lemma pd_steps_inv init ram w w' : rtc (pd_step init ram) w w' → world_inv init w.1 w.2 → world_inv init w'.1 w'.2.
Proof. induction 1; [done|]. intros Hw. apply IHrtc. by eapply pd_step_inv. Qed.

(** C7. started with the kernel's directory and kept by every sequence of calls of
    pagedir.c (creating and activating directories, installing and removing pages,
    setting and clearing the dirty and accessed bits) and of actions of the processor
    (caching and dropping translations, recording accesses): no translation the TLB
    holds differs from the active directory, and no two directories share a page
    table. *)
Theorem tlb_never_stale init ram s L s' L' : world_inv init s L → rtc (pd_step init ram) (s, L) (s', L') →
  (∀ va e, user_addr va → s'.(tlb) !! va = Some e →
     mapping (mm s') (active s') va = Some (tab e, has e PTE_W)) ∧
  (∀ pd pd', pd ∈ L' → pd' ∈ L' → pd ≠ pd' → separate (mm s') pd pd').
Proof. intros Hw Hr. destruct (pd_steps_inv _ _ _ _ Hr Hw). simpl in *. split; [exact wi_tlb0|exact wi_sep0]. Qed.

(** the state in which the first directory has been allocated *)
Lemma boot_inv p0 init p : palloc_wf p0 → PHYS_BASE ≤ p0.(kernel_pool).(base) →
  palloc_get_page PAL_ZERO p0 = Ok (init, p) → init ≠ 0 → world_inv init (mk_mmu p (init - PHYS_BASE) ∅) {[init]}.
Proof.
  intros Hwf Hb E Hi. destruct (palloc_get_cases p0 PAL_ZERO 1 Hwf ltac:(lia)) as [(a & p' & E' & G)|[_ E']].
  2: { unfold palloc_get_page in E. rewrite E' in E. change (has PAL_ZERO PAL_ASSERT) with false in E. cbv iota in E. congruence. }
  unfold palloc_get_page in E. rewrite E' in E. injection E as -> ->.
  destruct (got_kernel PAL_ZERO _ _ _ eq_refl G) as (Hw & Hn & Hm & Hr & _ & Hb' & Hu). pose proof (got_zero _ _ _ G) as Hz.
  set (s := mk_mmu p (init - PHYS_BASE) ∅). change (pmem p) with (mm s) in Hz.
  assert (Hwf' : mmu_wf s) by (split; [exact Hw|change (PHYS_BASE ≤ base (kernel_pool p)); lia]).
  assert (Hus : used (kpool s) init) by (apply Hu; by right).
  pose proof (phys_small init (used_kpage s init Hwf' Hus)) as Hph.
  assert (Hd : ∀ i, 0 ≤ i < 768 → dir_entry (mm s) init i = 0).
  { intros i Hii. unfold dir_entry. rewrite Hz. apply word_zeros; lia. }
  assert (He : ∀ va, user_addr va → entry (mm s) init va = 0).
  { intros va Hva. unfold entry. by rewrite (Hd _ (pd_no_range va Hva)). }
  assert (Hbz : ∃ l, Z.of_nat (length l) = 4096 ∧ bytes (mm s) init l).
  { exists (replicate (Z.to_nat 4096) 0). split; [rewrite length_replicate; lia|].
    rewrite Hz. apply bytes_write. intros v [-> _]%elem_of_replicate. lia. }
  clear E' G Hz. split.
  - done.
  - exact Hph.
  - apply elem_of_singleton. unfold active, s. simpl. lia.
  - by apply elem_of_singleton.
  - exact (conj Hbz Hd).
  - intros pd ->%elem_of_singleton. split; [done| |].
    + intros i Hii Hne. by rewrite Hd in Hne.
    + intros i j Hii Hj Hne. by rewrite Hd in Hne.
  - intros pd pd' ->%elem_of_singleton ->%elem_of_singleton. done.
  - intros pd va ->%elem_of_singleton Hva. by rewrite He.
  - intros va e _. unfold s. simpl. by rewrite lookup_empty.
Qed.

(** runs of a computation, taken apart *)
Definition returns {A} (o : outcome A) : bool := match o with Ok _ => true | Err _ => false end.

Lemma returns_inv {A} (o : outcome A) : returns o = true → ∃ a, o = Ok a.
Proof. destruct o as [a|]; [|done]. by exists a. Qed.

Lemma returns_bind {S A C} (x : M S A) (f : A → M S C) s : returns ((x ≫= f) s) = true →
  ∃ a s1, x s = Ok (a, s1) ∧ returns (f a s1) = true.
Proof. unfold mbind, M_bind. destruct (x s) as [[a s1]|]; [|done]. intros H. by exists a, s1. Qed.

Lemma returns_assert {S A} (b : bool) (x : M S A) s : returns ((assert b;; x) s) = true → b = true ∧ returns (x s) = true.
Proof. by destruct b. Qed.

(** a machine with eight pages above the first megabyte, whose kernel has allocated
    the first directory *)
Definition ex_boot : outcome (Z * pstate) := palloc_get_page PAL_ZERO ex_state.
Definition value_of {A} (d : A) (o : outcome A) : A := match o with Ok a => a | Err _ => d end.
Definition ex_init : Z := (value_of (0, ex_state) ex_boot).1.
Definition ex_mmu : mmu := mk_mmu (value_of (0, ex_state) ex_boot).2 (ex_init - PHYS_BASE) ∅.

Lemma ex_world : world_inv ex_init ex_mmu {[ex_init]}.
Proof.
  destruct (returns_addr (palloc_get_page PAL_ZERO ex_state)) as (a & p & E & Ha); [vm_compute; reflexivity|].
  unfold ex_mmu, ex_init, ex_boot. rewrite E.
  apply (boot_inv ex_state); [apply ex_palloc_wf|vm_compute; congruence|exact E|exact Ha].
Qed.

#[local] Opaque ex_init ex_mmu.

(** a process that has one page and has touched it *)
Definition ex_va : Z := 0x8048000.
Definition ex_frame : Z := PHYS_BASE + 0x107000.
Definition ex_run : D unit :=
  pd ← pagedir_create ex_init; assert (negb (pd =? 0));; pagedir_activate ex_init pd;;
  ok ← install_page ex_init 264 pd ex_va ex_frame true; assert ok;; assert (negb (pd =? ex_init));;
  s ← get; assert ((active s =? pd) && has (entry (mm s) pd ex_va) PTE_P).

Lemma ex_frame_ok : kpage_at ex_frame ∧ (ex_frame - PHYS_BASE) / 4096 < 264.
Proof. split; [split; [reflexivity|]|reflexivity]. unfold ex_frame, PHYS_BASE. lia. Qed.

Lemma ex_va_ok : user_addr ex_va ∧ pg_ofs ex_va = 0.
Proof. split; [|reflexivity]. unfold user_addr, ex_va, PHYS_BASE. lia. Qed.

Lemma in_dirs_new (pd : Z) (L : gset Z) : pd ∈ {[pd]} ∪ L.
Proof. set_solver. Qed.

Lemma ex_run_steps : ∃ s L pd, rtc (pd_step ex_init 264) (ex_mmu, {[ex_init]}) (s, L) ∧ pd ∈ L ∧
  active s = pd ∧ pd ≠ ex_init ∧ has (entry (mm s) pd ex_va) PTE_P = true.
Proof.
  assert (R : returns (ex_run ex_mmu) = true) by (vm_compute; reflexivity). unfold ex_run in R.
  apply returns_bind in R as (pd & s1 & E1 & R). apply returns_assert in R as [Hpd R].
  apply returns_bind in R as ([] & s2 & E2 & R). apply returns_bind in R as (ok & s3 & E3 & R).
  apply returns_assert in R as [-> R]. apply returns_assert in R as [Hni R].
  apply returns_bind in R as (s3' & s3'' & [= <- <-] & R). destruct (_ && _) eqn:Ha in R; [|done].
  apply andb_prop in Ha as [Ha Hp].
  apply Z.eqb_eq in Ha. apply negb_true_iff, Z.eqb_neq in Hpd, Hni.
  exists s3, ({[pd]} ∪ {[ex_init]}), pd. pose proof (in_dirs_new pd {[ex_init]}) as Hin.
  refine (conj _ (conj Hin (conj Ha (conj Hni Hp)))).
  refine (rtc_l _ _ _ _ (step_create _ _ _ _ _ _ E1 Hpd) _).
  refine (rtc_l _ _ _ _ (step_activate _ _ _ _ _ _ Hin E2) _). apply rtc_once.
  refine (step_install _ _ _ _ _ _ _ _ _ _ Hin Hni _ _ _ _ E3); [apply ex_va_ok..|apply ex_frame_ok|apply ex_frame_ok].
Qed.

Lemma tlb_never_stale_witness : ∃ s pd e, active s = pd ∧ s.(tlb) !! ex_va = Some e ∧
  mapping (mm s) pd ex_va = Some (tab e, has e PTE_W).
Proof.
  destruct ex_run_steps as (s & L & pd & Hr & Hpd & Ha & _ & Hp). rewrite <- Ha in Hp.
  eassert (Hr' : rtc (pd_step ex_init 264) (ex_mmu, {[ex_init]}) (_, L)).
  { eapply rtc_r; [exact Hr|]. exact (step_cache _ _ s L ex_va (proj1 ex_va_ok) (proj2 ex_va_ok) Hp). }
  destruct (tlb_never_stale ex_init 264 _ _ _ _ ex_world Hr') as [Ht _].
  set (e := entry (mm s) (active s) ex_va) in *.
  exists (mk_mmu s.(ps) s.(cr3) (<[ex_va := e]> s.(tlb))), pd, e. split; [exact Ha|].
  assert (He : (<[ex_va := e]> s.(tlb)) !! ex_va = Some e) by apply lookup_insert_eq. split; [exact He|].
  rewrite <- Ha. exact (Ht ex_va e (proj1 ex_va_ok) He).
Defined.



(** the pages of [pd] form a tree when no frame is mapped twice *)
Lemma pd_tree s pd : mmu_wf s → pd_ok s pd → (∀ f, maps_page (mm s) pd f → used (upool s) f) →
  (∀ va va' f w w', user_addr va → user_addr va' → mapping (mm s) pd va = Some (f, w) →
     mapping (mm s) pd va' = Some (f, w') → pg_no va = pg_no va') →
  tree_ok s pd pd dir_len.
Proof.
  intros Hwf Hok Hu Hd. pose proof dir_len_Z as Hlen.
  assert (Hfr : ∀ i f, 0 ≤ i < 768 → dir_entry (mm s) pd i ≠ 0 → targets (mm s) (tab (dir_entry (mm s) pd i)) table_len f →
    used (upool s) f) by (intros i f Hi Hdi Ht; apply Hu, maps_page_frames; eauto).
  split.
  - apply Hok.
  - lia.
  - lia.
  - intros t (i & Hi & Hdi & ->)%targets_tables; [|done]. destruct (po_tab _ _ Hok i Hi Hdi) as (_ & ? & ?). done.
  - intros i j Hi Hj Hpi Hpj E. rewrite Hlen in *. apply (po_inj _ _ Hok i j); try done; by apply (present s pd Hok).
  - intros t (i & Hi & Hdi & ->)%targets_tables; [|done]. split; [|intros y; by apply Hfr].
    pose proof table_len_Z as Hlen'. intros j k Hj Hk Hpj Hpk E. rewrite Hlen' in *.
    destruct (va_of i j Hi Hj) as (Hv1 & _ & E1). destruct (va_of i k Hi Hk) as (Hv2 & _ & E2).
    pose proof (proj2 (mapping_at s pd i j _ _ Hi Hj Hdi) (conj Hpj (conj eq_refl eq_refl))) as Hm1.
    pose proof (proj2 (mapping_at s pd i k _ _ Hi Hk Hdi) (conj Hpk (conj eq_refl eq_refl))) as Hm2. rewrite E in Hm1.
    destruct (pg_no_same _ _ (Hd _ _ _ _ _ Hv1 Hv2 Hm1 Hm2)) as [_ Ejk]. by rewrite E1, E2 in Ejk.
  - intros t t' y (i & Hi & Hdi & ->)%targets_tables (j & Hj & Hdj & ->)%targets_tables Hy Hy'; try done.
    apply targets_frames in Hy as (k & w & Hk & Hm); [|done..]. apply targets_frames in Hy' as (k' & w' & Hk' & Hm'); [|done..].
    destruct (va_of i k Hi Hk) as (Hv1 & E1 & _). destruct (va_of j k' Hj Hk') as (Hv2 & E2 & _).
    destruct (pg_no_same _ _ (Hd _ _ _ _ _ Hv1 Hv2 Hm Hm')) as [E _]. rewrite E1, E2 in E. by rewrite E.
Qed.

(** C27. destroying a directory whose frames are used pages of the user pool, each
    mapped once, succeeds and frees exactly the directory, its page tables and the
    frames it maps; no other page and no memory outside those pages changes. *)
Theorem pagedir_destroy_frees init s pd : mmu_wf s → pd_ok s pd → pd ≠ init →
  (∀ f, maps_page (mm s) pd f → used (upool s) f) →
  (∀ va va' f w w', user_addr va → user_addr va' → mapping (mm s) pd va = Some (f, w) →
     mapping (mm s) pd va' = Some (f, w') → pg_no va = pg_no va') →
  ∃ s', pagedir_destroy init pd s = Ok (tt, s') ∧ mmu_wf s' ∧
    (∀ x, used (kpool s') x ↔ used (kpool s) x ∧ ¬ owns (mm s) pd x) ∧
    (∀ x, used (upool s') x ↔ used (upool s) x ∧ ¬ maps_page (mm s) pd x) ∧
    (∀ a, (∀ x, owns (mm s) pd x ∨ maps_page (mm s) pd x → ¬ (x ≤ a < x + 4096)) → mm s' !! a = mm s !! a).
Proof.
  intros Hwf Hok Hi Hu Hd. pose proof (pd_tree s pd Hwf Hok Hu Hd) as Htr.
  destruct (free_tables_spec dir_len pd s pd Hwf Htr) as (s1 & E1 & F1).
  assert (HT : ∀ x, tree (mm s) pd dir_len x ∨ x = pd ↔ owns (mm s) pd x ∨ maps_page (mm s) pd x).
  { intros x. unfold tree, owns. rewrite maps_page_frames, targets_tables by done. setoid_rewrite targets_tables; [|done].
    split; [|naive_solver]. intros [[H|(t & (i & Hii & Hdi & ->) & H)]|H]; [by left; right|right; by exists i|by left; left]. }
  assert (Hnt : ¬ tree (mm s) pd dir_len pd).
  { intros [H|(t & Ht & H)]; [by apply (tr_tables _ _ _ _ Htr) in H as []|].
    apply (pools_apart s pd Hwf (po_pd _ _ Hok)). by apply (tr_frames _ _ _ _ Htr t Ht). }
  destruct (free_page_spec s1 false pd (fr_wf _ _ _ F1)) as (s2 & E2 & F2).
  { apply (fr_kernel _ _ _ F1). split; [apply Hok|done]. }
  pose proof (freed_ext _ _ _ _ HT (freed_trans _ _ _ _ _ F1 F2)) as F. clear F1 F2. destruct F as [Hw Hk Hus Hmem _ _].
  assert (Hsep : ∀ x, used (kpool s) x → ¬ maps_page (mm s) pd x) by (intros x Hx Hm; by apply (pools_apart s x), Hu).
  assert (Hsep' : ∀ x, used (upool s) x → ¬ owns (mm s) pd x) by (intros x Hx Hm; by apply (pools_apart s x); [|eapply owns_used|]).
  exists s2. split; [|split_and!; [done| | |done]].
  - unfold pagedir_destroy. destruct (pd_positive s pd Hwf Hok). destruct (Z.eqb_spec pd 0); [lia|].
    rewrite assert_bind by (by destruct (Z.eqb_spec pd init)). rewrite dir_len_eq. by rewrite (bind_ok _ _ _ _ _ E1).
  - intros x. rewrite Hk. naive_solver.
  - intros x. rewrite Hus. naive_solver.
Qed.

Lemma pagedir_destroy_frees_witness : ∃ pd s s', pagedir_create ex_init ex_mmu = Ok (pd, s) ∧
  used (kpool s) pd ∧ pagedir_destroy ex_init pd s = Ok (tt, s') ∧ ¬ used (kpool s') pd.
Proof.
  destruct (returns_addr (pagedir_create ex_init ex_mmu)) as (pd & s & E & Hpd); [vm_compute; reflexivity|].
  destruct ex_world as [Hwf _ _ Hin Hio Hok _ _ _]. pose proof (po_pd _ _ (Hok _ Hin)) as Hu.
  destruct (pagedir_create_spec ex_init ex_mmu Hwf Hu Hio) as [[_ E']|(pd' & s1 & E' & _ & Hn & Ht & Hz & _)];
    rewrite E in E'; [exfalso; apply Hpd; congruence|]. injection E' as <- <-.
  assert (Hm : ∀ va, user_addr va → mapping (mm s) pd va = None).
  { intros va Hva. unfold mapping, entry. rewrite (Hz _ (pd_no_range va Hva)). reflexivity. }
  assert (Hne : pd ≠ ex_init) by (intros ->; exact (Hn Hu)).
  assert (Hf : ∀ f, maps_page (mm s) pd f → used (upool s) f).
  { intros f (va & w & Hva & H). rewrite (Hm va Hva) in H. discriminate. }
  destruct (pagedir_destroy_frees ex_init s pd (to_wf _ _ _ Ht) (to_ok _ _ _ Ht) Hne Hf) as (s' & E2 & _ & Hk & _).
  { intros va va' f w w' Hva _ H. rewrite (Hm va Hva) in H. discriminate. }
  exists pd, s, s'. split; [exact E|]. split; [exact (po_pd _ _ (to_ok _ _ _ Ht))|]. split; [exact E2|].
  intros [_ H]%Hk. apply H. left. reflexivity.
Defined.
