(* ===== verification/Args.v ===== *)
(** userprog/process.c: the command line of a new process.

    [parse_filename] cuts the command line into words, [construct_ESP] lays them
    out on the user stack.  A C string is the list of its characters; the stack is
    bytes of the user's memory.  [allocs] says which of the coming calls of malloc
    succeed. *)

From S2P Require Import Prelude CString Words.

Definition MAX_ARGS : nat := 128.

(** * Parsing *)

(** [strtok_r (s, " ", &save_ptr)]: the token, and the string [save_ptr] is left at *)
Definition strtok (s : list Z) : option (list Z * list Z) :=
  let i := prefix_len (in_set [32]) s in
  let j := prefix_len (λ x, negb (in_set [32] x)) (drop i s) in
  if bool_decide (i = length s) then None else Some (take j (drop i s), tail (drop j (drop i s))).

(** [malloc] and the [strlcpy] into the block, which stops the kernel on a null pointer *)
Definition malloc_copy : M (list bool) unit := λ allocs,
  match allocs with
  | [] => Ok (tt, [])
  | ok :: allocs => if ok then Ok (tt, allocs) else Err AssertFail
  end.

(** the words found so far are [argu_list]; [file_name] is overwritten with the first *)
Fixpoint parse_loop (n : nat) (s file_name : list Z) (argu_list : list (list Z)) :
    M (list bool) (list (list Z) * list Z) :=
  match n with
  | O => fail NoFuel
  | S n =>
    match strtok s with
    | None => mret (argu_list, file_name)
    | Some (token, rest) =>
      let file_name := if (length argu_list =? 0)%nat then token else file_name in
      malloc_copy;;
      if (MAX_ARGS <=? length argu_list)%nat then fail Fault
      else parse_loop n rest file_name (argu_list ++ [token])
    end
  end.

(** the words and what [file_name] holds afterwards *)
Definition parse_filename (file_name : list Z) : M (list bool) (list (list Z) * list Z) :=
  malloc_copy;; parse_loop (S (length file_name)) file_name file_name [].

(** * The user stack *)

(** the first loop, from the last argument to the first: the new [*esp],
    [totallen_align] and [addr] *)
Fixpoint push_strings (argu_list : list (list Z)) (esp totallen_align : Z) (addr : list Z) : B (Z * Z * list Z) :=
  match argu_list with
  | [] => mret (esp, totallen_align, addr)
  | a :: r =>
    let size_argu := u32 (Z.of_nat (length a) + 1) in
    let esp := u32 (esp - size_argu) in
    put_bytes esp (a ++ [0]);;
    push_strings r esp (s32 (totallen_align + size_argu)) (esp :: addr)
  end.

Fixpoint push_padding (n : nat) (esp : Z) : B Z :=
  match n with
  | O => mret esp
  | S n => let esp := u32 (esp - 1) in store esp 0;; push_padding n esp
  end.

Definition push_word (esp v : Z) : B Z :=
  let esp := u32 (esp - 4) in store32 esp v;; mret esp.

Fixpoint push_words (l : list Z) (esp : Z) : B Z :=
  match l with [] => mret esp | v :: r => esp ← push_word esp v; push_words r esp end.

Definition construct_ESP (esp : Z) (argu_list : list (list Z)) : B Z :=
  let argu_num := Z.of_nat (length argu_list) in
  if (MAX_ARGS <? length argu_list)%nat then fail Fault else
  '(esp, totallen_align, addr) ← push_strings (reverse argu_list) esp 0 [];
  esp ← (if negb (Z.rem totallen_align 4 =? 0)
         then push_padding (Z.to_nat (4 - Z.rem totallen_align 4)) esp else mret esp);
  esp ← push_word esp 0;
  esp ← push_words (reverse addr) esp;
  esp ← push_word esp esp;
  esp ← push_word esp argu_num;
  push_word esp 0.

(** * Words of a command line *)

(** [line l ws]: [ws] are the words of [l], separated by spaces *)
Inductive line : list Z → list (list Z) → Prop :=
| line_nil sp : (∀ x, x ∈ sp → x = 32) → line sp []
| line_cons sp w rest ws : (∀ x, x ∈ sp → x = 32) → w ≠ [] → 32 ∉ w →
    match rest with [] => True | x :: _ => x = 32 end → line rest ws → line (sp ++ w ++ rest) (w :: ws).

Lemma in_space x : in_set [32] x = bool_decide (x = 32).
Proof. apply bool_decide_ext, list_elem_of_singleton. Qed.

Lemma prefix_len_app f l r : (∀ x, x ∈ l → f x = true) → prefix_len f (l ++ r) = (length l + prefix_len f r)%nat.
Proof.
  intros H. induction l as [|x l IH]; [done|]. simpl. rewrite H by left. f_equal. apply IH. intros y Hy. apply H. by right.
Qed.

Lemma prefix_len_stop f l : match l with [] => True | x :: _ => f x = false end → prefix_len f l = O.
Proof. destruct l as [|x l]; [done|]. simpl. by intros ->. Qed.

Lemma strtok_spaces sp : (∀ x, x ∈ sp → x = 32) → strtok sp = None.
Proof.
  intros H. assert (E : prefix_len (in_set [32]) sp = length sp); [|unfold strtok; by rewrite E, bool_decide_true].
  rewrite <- (app_nil_r sp) at 1. rewrite prefix_len_app.
  - apply Nat.add_0_r.
  - intros x Hx. rewrite in_space. by apply bool_decide_true, H.
Qed.

Lemma strtok_word sp w rest : (∀ x, x ∈ sp → x = 32) → w ≠ [] → 32 ∉ w →
  match rest with [] => True | x :: _ => x = 32 end → strtok (sp ++ w ++ rest) = Some (w, tail rest).
Proof.
  intros Hsp Hw Hn Hr. unfold strtok. rewrite (prefix_len_app _ sp).
  2: { intros x Hx. rewrite in_space. by apply bool_decide_true, Hsp. }
  rewrite (prefix_len_stop _ (w ++ rest)), Nat.add_0_r.
  2: { destruct w as [|x w]; [done|]. simpl. rewrite in_space. apply bool_decide_false. intros ->. apply Hn. left. }
  rewrite bool_decide_false by (rewrite !length_app; destruct w; simpl; [done|lia]). rewrite drop_app_length.
  rewrite (prefix_len_app _ w).
  2: { intros x Hx. rewrite in_space. apply negb_true_iff, bool_decide_false. by intros ->. }
  rewrite (prefix_len_stop _ rest), Nat.add_0_r, take_app_length, drop_app_length; [done|].
  destruct rest as [|x rest]; [done|]. subst x. by rewrite in_space.
Qed.

(** a space before a line belongs to no word *)
Lemma line_tail rest ws : line rest ws → match rest with [] => True | x :: _ => x = 32 end → line (tail rest) ws.
Proof.
  intros Hl. destruct Hl as [sp H|sp w rest ws H Hw Hn Hr Hl]; intros Hx.
  - apply line_nil. intros x Hx'. apply H. destruct sp; [done|by right].
  - destruct sp as [|y sp]; [destruct w; [done|]; simpl in Hx; subst; destruct Hn; left|].
    simpl. apply line_cons; try done. intros x Hx'. apply H. by right.
Qed.

(** the outcome of parsing a line of words [ws] *)
Definition parse_result (file_name : list Z) (ws : list (list Z)) : outcome (list (list Z) * list Z * list bool) :=
  if (MAX_ARGS <? length ws)%nat then Err Fault else Ok (ws, default file_name (head ws), []).

Lemma parse_loop_spec n s file_name done_ ws : line s ws → (length s < n)%nat → (length done_ ≤ MAX_ARGS)%nat →
  (done_ ≠ [] → file_name = default file_name (head done_)) →
  parse_loop n s file_name done_ [] = parse_result file_name (done_ ++ ws).
Proof.
  intros Hl. revert s ws Hl file_name done_. induction n as [|n IH]; intros s ws Hl file_name dn Hn Hd Hf; [lia|].
  unfold parse_result in *. destruct Hl as [sp H|sp w rest ws H Hw Hnw Hr Hl]; cbn [parse_loop].
  - rewrite strtok_spaces by done. rewrite app_nil_r. rewrite (proj2 (Nat.ltb_ge _ _)) by done. cbv [mret M_ret]. do 3 f_equal.
    destruct dn; [done|]. by apply Hf.
  - rewrite strtok_word by done. rewrite (bind_ok malloc_copy _ [] tt []) by done.
    destruct (Nat.leb_spec MAX_ARGS (length dn)) as [Hge|Hlt].
    + rewrite (proj2 (Nat.ltb_lt _ _)); [done|]. rewrite length_app. simpl. lia.
    + rewrite IH with (ws := ws).
      * rewrite <- app_assoc. simpl. destruct dn as [|d dn]; [done|]. simpl. simpl in Hf. by rewrite <- Hf.
      * by apply line_tail.
      * assert (length (tail rest) ≤ length rest)%nat by (destruct rest; simpl; lia).
        rewrite !length_app in Hn. destruct w; [done|]. simpl in Hn. lia.
      * rewrite length_app. simpl. lia.
      * intros _. destruct dn as [|d dn]; [done|]. simpl. by apply Hf.
Qed.

(** [strtok] is what [strtok_r] does in memory *)
Lemma strtok_in_memory m s d save l (p := if s =? 0 then save else s) :
  cstr m p l → cstr m d [32] → 0 < d → 0 < p →
  match strtok l with
  | None => strtok_r s d save m = Ok ((0, p + Z.of_nat (length l)), m)
  | Some (token, rest) => ∃ t save' m', strtok_r s d save m = Ok ((t, save'), m') ∧ cstr m' t token ∧ cstr m' save' rest
  end.
Proof.
  intros Hl Hd Hd0 Hp. destruct (strtok_r_spec m s d save l [32] Hl Hd Hd0 Hp) as (skip & tok & rest & E & Hs & Ht & Hr & H).
  assert (Hsp : ∀ x, x ∈ skip → x = 32) by (intros x Hx; by apply list_elem_of_singleton, Hs).
  assert (Hn : 32 ∉ tok) by (intros Hx; by apply (Ht 32 Hx), list_elem_of_singleton).
  assert (Hr' : match rest with [] => True | x :: _ => x = 32 end) by (destruct rest; [done|by apply list_elem_of_singleton]).
  destruct (bool_decide_reflect (tok = [])) as [->|Hne].
  - destruct H as [-> H]. assert (En : strtok l = None) by (rewrite E, !app_nil_r; by apply strtok_spaces).
    by rewrite En.
  - destruct H as (m' & save' & H & H1 & H2 & _). rewrite E, strtok_word by done.
    eexists _, save', m'. split; [exact H|done].
Qed.

(** * The stack as one block of bytes *)

Definition le32 (v : Z) : list Z := [u8 v; u8 (v / 2 ^ 8); u8 (v / 2 ^ 16); u8 (v / 2 ^ 24)].

(** the strings of the arguments, one after the other, and their addresses when the
    first one lies at [p] *)
Definition strings (argv : list (list Z)) : list Z := mjoin ((λ a, a ++ [0]) <$> argv).

Fixpoint addresses (p : Z) (argv : list (list Z)) : list Z :=
  match argv with [] => [] | a :: r => p :: addresses (p + Z.of_nat (length a) + 1) r end.

(** [m] with [l] below [esp], as long as there is room *)
Record pushed (m0 : mem) (top : Z) (l : list Z) (m : mem) (esp : Z) : Prop := {
  pu_esp : esp = top - Z.of_nat (length l);
  pu_mem : m = write m0 esp l
}.

Lemma pushed_writable m0 top l m esp lo : writable m0 lo (top - lo) → pushed m0 top l m esp → lo ≤ esp → writable m lo (top - lo).
Proof. intros Hw [_ ->] _ a Ha. by apply write_is_Some, Hw. Qed.

Lemma pushed_more m0 top l m esp k : pushed m0 top l m esp →
  pushed m0 top (k ++ l) (write m (esp - Z.of_nat (length k)) k) (esp - Z.of_nat (length k)).
Proof. intros [-> ->]. split; [rewrite length_app; lia|]. apply write_below. Qed.

Section push.
Context (m0 : mem) (top lo : Z).
Hypothesis Hroom : writable m0 lo (top - lo).
Hypothesis Hlo : 0 ≤ lo.
Hypothesis Htop : top < 2 ^ 32.

Lemma push_word_spec l m esp v : pushed m0 top l m esp → lo ≤ esp - 4 →
  ∃ m', push_word esp v m = Ok (esp - 4, m') ∧ pushed m0 top (le32 v ++ l) m' (esp - 4).
Proof using All.
  intros Hp He. exists (write m (esp - 4) (le32 v)). pose proof Hp as [Hesp _]. unfold push_word.
  rewrite (u32_small (esp - 4)) by lia. rewrite (bind_ok _ _ m tt (wr m (esp - 4) v)).
  - split; [done|]. apply (pushed_more m0 top l m esp (le32 v) Hp).
  - apply store32_eq. intros a Ha. apply (pushed_writable m0 top l m esp lo Hroom Hp ltac:(lia)). lia.
Qed.

Lemma push_words_spec ws : ∀ l m esp, pushed m0 top l m esp → lo ≤ esp - 4 * Z.of_nat (length ws) →
  ∃ m', push_words (reverse ws) esp m = Ok (esp - 4 * Z.of_nat (length ws), m') ∧
    pushed m0 top (mjoin (le32 <$> ws) ++ l) m' (esp - 4 * Z.of_nat (length ws)).
Proof using All.
  induction ws as [|v ws IH] using rev_ind; intros l m esp Hp He.
  { exists m. cbn [length]. replace (esp - 4 * Z.of_nat 0) with esp by lia. by split. }
  rewrite reverse_snoc, length_app in *. cbn [length] in *. cbn [push_words].
  destruct (push_word_spec l m esp v Hp ltac:(lia)) as (m1 & E1 & Hp1). rewrite (bind_ok _ _ _ _ _ E1).
  destruct (IH _ m1 (esp - 4) Hp1 ltac:(lia)) as (m2 & E2 & Hp2). exists m2.
  replace (esp - 4 * Z.of_nat (length ws + 1)) with (esp - 4 - 4 * Z.of_nat (length ws)) by lia. split; [done|].
  rewrite fmap_app, join_app. replace (mjoin (le32 <$> [v])) with (le32 v) by done. by rewrite <- app_assoc.
Qed.

Lemma push_padding_spec n : ∀ l m esp, pushed m0 top l m esp → lo ≤ esp - Z.of_nat n →
  ∃ m', push_padding n esp m = Ok (esp - Z.of_nat n, m') ∧ pushed m0 top (replicate n 0 ++ l) m' (esp - Z.of_nat n).
Proof using All.
  induction n as [|n IH]; intros l m esp Hp He.
  { exists m. replace (esp - Z.of_nat 0) with esp by lia. by split. }
  cbn [push_padding]. pose proof Hp as [Hesp _]. rewrite (u32_small (esp - 1)) by lia.
  rewrite (bind_ok _ _ m tt (write m (esp - 1) [0])).
  2: { apply (store_eq m (esp - 1) 0); [|lia]. apply (pushed_writable m0 top l m esp lo Hroom Hp ltac:(lia)). lia. }
  destruct (IH _ _ _ (pushed_more m0 top l m esp [0] Hp) ltac:(simpl; lia)) as (m' & E & Hp'). exists m'. simpl in E, Hp'.
  replace (esp - Z.of_nat (S n)) with (esp - 1 - Z.of_nat n) by lia. split; [done|].
  by replace (replicate (S n) 0 ++ l) with (replicate n 0 ++ 0 :: l) by (rewrite replicate_S_end, <- app_assoc; done).
Qed.

Lemma strings_snoc argv a : strings (argv ++ [a]) = strings argv ++ a ++ [0].
Proof using. unfold strings. rewrite fmap_app, join_app. simpl. by rewrite app_nil_r. Qed.

Lemma strings_cons a argv : strings (a :: argv) = (a ++ [0]) ++ strings argv.
Proof using. done. Qed.

Lemma addresses_snoc p argv a : addresses p (argv ++ [a]) = addresses p argv ++ [p + Z.of_nat (length (strings argv))].
Proof using.
  revert p. induction argv as [|b argv IH]; intros p; simpl; [by rewrite Z.add_0_r|]. f_equal. rewrite IH. do 2 f_equal.
  rewrite strings_cons, !length_app. cbn [length]. lia.
Qed.

Lemma push_strings_spec argv : ∀ l m esp total addr, pushed m0 top l m esp →
  (∀ a v, a ∈ argv → v ∈ a → 0 ≤ v < 256) → lo ≤ esp - Z.of_nat (length (strings argv)) →
  0 ≤ total → total + Z.of_nat (length (strings argv)) < 2 ^ 31 →
  let n := Z.of_nat (length (strings argv)) in
  ∃ m', push_strings (reverse argv) esp total addr m = Ok (esp - n, total + n, addresses (esp - n) argv ++ addr, m') ∧
    pushed m0 top (strings argv ++ l) m' (esp - n).
Proof using All.
  induction argv as [|a argv IH] using rev_ind; intros l m esp total addr Hp Hv He Ht Ht'; cbv zeta.
  { exists m. cbn [length strings mjoin list_join fmap list_fmap]. replace (esp - Z.of_nat 0) with esp by lia.
    replace (total + Z.of_nat 0) with total by lia. by split. }
  rewrite reverse_snoc. cbn [push_strings]. pose proof (strings_snoc argv a) as Es. rewrite Es in *.
  rewrite !length_app in *. cbn [length] in *. pose proof Hp as [Hesp _].
  rewrite (u32_small (Z.of_nat (length a) + 1)) by lia. rewrite u32_small by lia. rewrite s32_small by lia.
  set (esp1 := esp - (Z.of_nat (length a) + 1)) in *.
  assert (Hl : esp1 = esp - Z.of_nat (length (a ++ [0]))) by (rewrite length_app; simpl; lia).
  rewrite (bind_ok _ _ m tt (write m esp1 (a ++ [0]))).
  2: { apply put_bytes_spec.
       - intros x Hx. apply (pushed_writable m0 top l m esp lo Hroom Hp ltac:(lia)). lia.
       - intros v [Hx|Hx]%elem_of_app; [apply (Hv a); [set_solver|done]|]. apply list_elem_of_singleton in Hx. lia. }
  pose proof (pushed_more m0 top l m esp (a ++ [0]) Hp) as Hp1. rewrite <- Hl in Hp1.
  destruct (IH _ _ esp1 (total + (Z.of_nat (length a) + 1)) (esp1 :: addr) Hp1) as (m' & E & Hp'); [set_solver|lia..|].
  exists m'. set (n := Z.of_nat (length (strings argv))) in *.
  replace (esp - Z.of_nat (length (strings argv) + (length a + 1))) with (esp1 - n) by lia.
  replace (total + Z.of_nat (length (strings argv) + (length a + 1))) with (total + (Z.of_nat (length a) + 1) + n) by lia.
  rewrite E, addresses_snoc. split.
  - do 3 f_equal. rewrite <- app_assoc. simpl. do 2 f_equal. fold n. lia.
  - by rewrite <- app_assoc.
Qed.
End push.

(** * The layout *)

Definition args_len (argv : list (list Z)) : Z := Z.of_nat (length (strings argv)).

(** the bytes of padding *)
Definition pad_len (argv : list (list Z)) : Z := (- args_len argv) mod 4.

(** the bytes of stack that the arguments take *)
Definition stack_size (argv : list (list Z)) : Z :=
  args_len argv + pad_len argv + 4 * Z.of_nat (length argv) + 16.

(** from the stack pointer up: the return address, [argc], [argv], the pointers, the
    null pointer, the padding, the strings *)
Definition image (top : Z) (argv : list (list Z)) : list Z :=
  le32 0 ++ le32 (Z.of_nat (length argv)) ++ le32 (top - stack_size argv + 12) ++
  mjoin (le32 <$> addresses (top - args_len argv) argv) ++ le32 0 ++
  replicate (Z.to_nat (pad_len argv)) 0 ++ strings argv.

Lemma length_addresses p argv : length (addresses p argv) = length argv.
Proof. revert p. induction argv; intros p; simpl; auto. Qed.

Lemma pad_range argv : 0 ≤ pad_len argv < 4.
Proof. by apply Z.mod_pos_bound. Qed.

(** the number of bytes the padding loop pushes *)
Lemma pad_count n : 0 ≤ n → (if negb (Z.rem n 4 =? 0) then 4 - Z.rem n 4 else 0) = (- n) mod 4.
Proof.
  intros Hn. rewrite Z.rem_mod_nonneg by lia. destruct (Z.eqb_spec (n mod 4) 0) as [E|E]; simpl.
  - by rewrite Z.mod_opp_l_z.
  - by rewrite Z.mod_opp_l_nz.
Qed.

Lemma construct_ESP_eq m top lo argv : writable m lo (top - lo) → 0 ≤ lo → top < 2 ^ 32 →
  (length argv ≤ MAX_ARGS)%nat → (∀ a v, a ∈ argv → v ∈ a → 0 ≤ v < 256) →
  lo ≤ top - stack_size argv → stack_size argv < 2 ^ 31 →
  ∃ m', construct_ESP top argv m = Ok (top - stack_size argv, m') ∧ pushed m top (image top argv) m' (top - stack_size argv).
Proof.
  intros Hw Hlo Ht Hn Hv Hroom Hsz. pose proof (pad_range argv) as Hpad. unfold construct_ESP. unfold stack_size in *.
  set (L := args_len argv) in *. rewrite (proj2 (Nat.ltb_ge _ _)) by done.
  assert (Hp0 : pushed m top [] m top) by (split; [simpl; lia|done]).
  destruct (push_strings_spec m top lo Hw Hlo Ht argv [] m top 0 [] Hp0 Hv) as (m1 & E1 & Hp1); [unfold L, args_len in *; lia..|].
  rewrite (bind_ok _ _ _ _ _ E1). fold (args_len argv) in E1, Hp1 |- *. fold L in E1, Hp1 |- *. rewrite !app_nil_r in *.
  assert (HL : 0 ≤ L) by (unfold L, args_len; lia). rewrite Z.add_0_l.
  destruct (push_padding_spec m top lo Hw Hlo Ht (Z.to_nat (pad_len argv)) _ m1 (top - L) Hp1) as (m2 & E2 & Hp2); [lia|].
  rewrite Z2Nat.id in E2, Hp2 by lia.
  rewrite (bind_ok _ _ m1 (top - L - pad_len argv) m2).
  2: { unfold pad_len in E2 |- *. fold L in E2 |- *. rewrite <- (pad_count L HL) in E2 |- *.
       destruct (negb (Z.rem L 4 =? 0)); [exact E2|]. exact E2. }
  destruct (push_word_spec m top lo Hw Hlo Ht _ m2 _ 0 Hp2) as (m3 & E3 & Hp3); [lia|]. rewrite (bind_ok _ _ _ _ _ E3).
  pose proof (length_addresses (top - L) argv) as Hla.
  destruct (push_words_spec m top lo Hw Hlo Ht (addresses (top - L) argv) _ m3 _ Hp3) as (m4 & E4 & Hp4); [rewrite Hla; lia|].
  rewrite Hla in E4, Hp4. rewrite (bind_ok _ _ _ _ _ E4).
  set (esp := top - L - pad_len argv - 4 - 4 * Z.of_nat (length argv)) in *.
  destruct (push_word_spec m top lo Hw Hlo Ht _ m4 _ esp Hp4) as (m5 & E5 & Hp5); [lia|]. rewrite (bind_ok _ _ _ _ _ E5).
  destruct (push_word_spec m top lo Hw Hlo Ht _ m5 _ (Z.of_nat (length argv)) Hp5) as (m6 & E6 & Hp6); [lia|].
  rewrite (bind_ok _ _ _ _ _ E6).
  destruct (push_word_spec m top lo Hw Hlo Ht _ m6 _ 0 Hp6) as (m7 & E7 & Hp7); [lia|].
  exists m7. replace (top - (L + pad_len argv + 4 * Z.of_nat (length argv) + 16)) with (esp - 4 - 4 - 4) by lia.
  split; [done|]. unfold image, stack_size. fold L.
  replace (top - (L + pad_len argv + 4 * Z.of_nat (length argv) + 16) + 12) with esp by lia. exact Hp7.
Qed.

(** ** Reading the block back *)

Lemma le32_bytes v x : x ∈ le32 v → 0 ≤ x < 256.
Proof. unfold le32. rewrite !elem_of_cons, elem_of_nil. intros [->|[->|[->|[->|[]]]]]; apply u8_range. Qed.

Lemma word_of_write m p l1 v l2 : 0 ≤ v < 2 ^ 32 →
  word (write m p (l1 ++ le32 v ++ l2)) (p + Z.of_nat (length l1)) = v.
Proof.
  intros Hv. rewrite !write_app. rewrite (word_ext (wr (write m p l1) (p + Z.of_nat (length l1)) v)); [by apply word_wr|].
  intros x Hx. apply lookup_write_out. cbn [length le32]. lia.
Qed.

Lemma cstr_of_write m p l1 a l2 : (∀ v, v ∈ a → 0 < v < 256) →
  cstr (write m p (l1 ++ (a ++ [0]) ++ l2)) (p + Z.of_nat (length l1)) a.
Proof.
  intros Ha. apply cstr_bytes. split; [|intros H; apply Ha in H; lia]. rewrite !write_app.
  set (q := p + Z.of_nat (length l1)). eapply (bytes_ext (write (write m p l1) q (a ++ [0]))).
  - intros x Hx. rewrite <- write_app. apply lookup_write_out. lia.
  - apply bytes_write. intros v [Hv|Hv]%elem_of_app; [apply Ha in Hv; lia|]. apply list_elem_of_singleton in Hv. lia.
Qed.

Lemma addresses_lookup p argv i a : argv !! i = Some a →
  addresses p argv !! i = Some (p + Z.of_nat (length (strings (take i argv)))) ∧
  strings argv = strings (take i argv) ++ (a ++ [0]) ++ strings (drop (S i) argv).
Proof.
  revert p i. induction argv as [|b argv IH]; intros p [|i] H; simplify_eq/=.
  - by rewrite Z.add_0_r.
  - destruct (IH (p + Z.of_nat (length b) + 1) i H) as [E1 E2]. rewrite E1. rewrite !strings_cons, length_app. split.
    + f_equal. rewrite length_app. cbn [length]. lia.
    + rewrite E2 at 1. by rewrite <- !app_assoc.
Qed.

(** the words of a list, and the one at index [i] *)
Lemma words_split (l : list Z) i v : l !! i = Some v →
  mjoin (le32 <$> l) = mjoin (le32 <$> take i l) ++ le32 v ++ mjoin (le32 <$> drop (S i) l).
Proof.
  intros H. rewrite <- (take_drop_middle l i v H) at 1. by rewrite fmap_app, join_app.
Qed.

Lemma length_words (l : list Z) : length (mjoin (le32 <$> l)) = (4 * length l)%nat.
Proof. induction l as [|v l IH]; [done|]. change (mjoin (le32 <$> v :: l)) with (le32 v ++ mjoin (le32 <$> l)). rewrite length_app, IH. cbn [length le32]. lia. Qed.

(** the argument pointers *)
Lemma image_argv m top argv i a (esp := top - stack_size argv) : argv !! i = Some a →
  (∀ a v, a ∈ argv → v ∈ a → 0 < v < 256) → 0 ≤ esp → top < 2 ^ 32 →
  cstr (write m esp (image top argv)) (word (write m esp (image top argv)) (esp + 12 + 4 * Z.of_nat i)) a.
Proof.
  intros Hi Hv He Ht. destruct (addresses_lookup (top - args_len argv) argv i a Hi) as [Ea Es].
  set (p := top - args_len argv + Z.of_nat (length (strings (take i argv)))) in *.
  pose proof (pad_range argv) as Hpad. assert (Hia : (i < length argv)%nat) by (by apply lookup_lt_Some in Hi).
  assert (Hsz : args_len argv = Z.of_nat (length (strings (take i argv))) + Z.of_nat (length ((a ++ [0]) ++ strings (drop (S i) argv)))).
  { unfold args_len. rewrite Es at 1. rewrite !length_app. lia. }
  assert (Hp : 0 ≤ p < 2 ^ 32) by (unfold p, esp, stack_size in *; lia).
  assert (Ew : word (write m esp (image top argv)) (esp + 12 + 4 * Z.of_nat i) = p).
  { unfold image. rewrite (words_split _ _ _ Ea). set (pre := mjoin (le32 <$> take i _)).
    assert (Hpre : length pre = (4 * i)%nat) by (unfold pre; rewrite length_words, length_take, length_addresses; lia).
    replace (esp + 12 + 4 * Z.of_nat i) with
      (esp + Z.of_nat (length (le32 0 ++ le32 (Z.of_nat (length argv)) ++ le32 (esp + 12) ++ pre)))
      by (rewrite !length_app, Hpre; cbn [length le32]; lia).
    etrans; [|apply (word_of_write m esp (le32 0 ++ le32 (Z.of_nat (length argv)) ++ le32 (esp + 12) ++ pre) p
      (mjoin (le32 <$> drop (S i) (addresses (top - args_len argv) argv)) ++ le32 0 ++ replicate (Z.to_nat (pad_len argv)) 0 ++ strings argv) Hp)].
    by rewrite <- ?app_assoc. }
  rewrite Ew. unfold image. fold esp. rewrite Es.
  set (pre := le32 0 ++ le32 (Z.of_nat (length argv)) ++ le32 (esp + 12) ++
    mjoin (le32 <$> addresses (top - args_len argv) argv) ++ le32 0 ++ replicate (Z.to_nat (pad_len argv)) 0 ++ strings (take i argv)).
  replace p with (esp + Z.of_nat (length pre)).
  - pose proof (cstr_of_write m esp pre a (strings (drop (S i) argv)) (λ v, Hv a v (list_elem_of_lookup_2 _ _ _ Hi))) as H.
    unfold pre in H. rewrite <- ?app_assoc in H. by rewrite <- ?app_assoc.
  - unfold pre, p, esp, stack_size. rewrite !length_app, length_words, length_addresses, length_replicate. cbn [length le32]. lia.
Qed.

(** * Statements *)

(** [parse_filename] splits a command line into exactly its words, in order, and
    leaves the first of them in place of the line; with more than [MAX_ARGS] words
    it writes past the end of [argu_list]. *)
Theorem parse_filename_words l ws : line l ws →
  parse_filename l [] = if (MAX_ARGS <? length ws)%nat then Err Fault else Ok (ws, default l (head ws), []).
Proof.
  intros Hl. unfold parse_filename. rewrite (bind_ok malloc_copy _ [] tt []) by done.
  apply (parse_loop_spec _ l l []); [done|lia|simpl; lia|done].
Qed.

(** [  ls -a] *)
Lemma parse_filename_words_witness :
  parse_filename [32; 32; 108; 115; 32; 45; 97] [] = Ok ([[108; 115]; [45; 97]], [108; 115], []).
Proof.
  apply (parse_filename_words [32; 32; 108; 115; 32; 45; 97] [[108; 115]; [45; 97]]).
  apply (line_cons [32; 32] [108; 115] [32; 45; 97]); [set_solver|done|set_solver|done|].
  apply (line_cons [32] [45; 97] []); [set_solver|done|set_solver|done|]. apply line_nil. set_solver.
Defined.

(** C20. [construct_ESP] leaves the stack as the calling convention of a [main (argc,
    argv)] wants it: from the stack pointer up a return address, [argc], the address
    of [argv], and [argv], whose entries point to the argument strings and end with
    a null pointer.  The stack pointer is a multiple of four when it was one before,
    and no byte outside the part of the stack that was pushed has changed. *)
Theorem construct_ESP_layout m top lo argv (esp := top - stack_size argv) :
  writable m lo (top - lo) → 0 ≤ lo ≤ esp → top < 2 ^ 32 → top mod 4 = 0 → stack_size argv < 2 ^ 31 →
  (length argv ≤ MAX_ARGS)%nat → (∀ a v, a ∈ argv → v ∈ a → 0 < v < 256) →
  ∃ m', construct_ESP top argv m = Ok (esp, m') ∧ esp mod 4 = 0 ∧
    word m' esp = 0 ∧ word m' (esp + 4) = Z.of_nat (length argv) ∧ word m' (esp + 8) = esp + 12 ∧
    (∀ i a, argv !! i = Some a → cstr m' (word m' (esp + 12 + 4 * Z.of_nat i)) a) ∧
    word m' (esp + 12 + 4 * Z.of_nat (length argv)) = 0 ∧
    (∀ x, x < esp ∨ top ≤ x → m' !! x = m !! x).
Proof.
  intros Hw Hlo Ht Hal Hsz Hn Hv.
  destruct (construct_ESP_eq m top lo argv Hw) as (m' & E & [Hesp ->]);
    [lia|lia|done|intros a v Ha Hva; specialize (Hv a v Ha Hva); lia|fold esp; lia|lia|].
  exists (write m esp (image top argv)). fold esp in E, Hesp |- *. pose proof (pad_range argv) as Hpad.
  unfold MAX_ARGS in Hn. split_and!.
  - exact E.
  - unfold esp, stack_size, pad_len in *. pose proof (Z.div_mod (- args_len argv) 4). pose proof (Z.div_mod top 4).
    apply Z.mod_divide; [lia|]. exists (top / 4 + (- args_len argv) / 4 - Z.of_nat (length argv) - 4). lia.
  - pose proof (word_of_write m esp [] 0) as H. rewrite Z.add_0_r in H. by apply H.
  - apply (word_of_write m esp (le32 0) (Z.of_nat (length argv))). lia.
  - pose proof (word_of_write m esp (le32 0 ++ le32 (Z.of_nat (length argv))) (esp + 12)) as H.
    rewrite length_app in H. change (Z.of_nat (length (le32 0) + length (le32 (Z.of_nat (length argv))))) with 8 in H.
    unfold image. fold esp. etrans; [|apply H; unfold esp, stack_size, args_len in *; lia]. by rewrite <- !app_assoc.
  - intros i a Hi. apply image_argv; [done|done|fold esp; lia|done].
  - unfold image. fold esp. set (as_ := mjoin (le32 <$> addresses _ _)).
    assert (Hla : length as_ = (4 * length argv)%nat) by (unfold as_; by rewrite length_words, length_addresses).
    replace (esp + 12 + 4 * Z.of_nat (length argv)) with
      (esp + Z.of_nat (length (le32 0 ++ le32 (Z.of_nat (length argv)) ++ le32 (esp + 12) ++ as_)))
      by (rewrite !length_app, Hla; cbn [length le32]; lia).
    etrans; [|apply (word_of_write m esp (le32 0 ++ le32 (Z.of_nat (length argv)) ++ le32 (esp + 12) ++ as_) 0); lia].
    by rewrite <- !app_assoc.
  - intros x Hx. apply lookup_write_out. lia.
Qed.

(** the arguments [ls -a] on a stack of 64 bytes *)
Definition ex_stack : mem := write ∅ 0xbfffffb4 (replicate 64 0xaa).

Lemma construct_ESP_layout_witness : ∃ m', construct_ESP 0xbffffff4 [[108; 115]; [45; 97]] ex_stack = Ok (0xbfffffd4, m') ∧
  word m' 0xbfffffd8 = 2 ∧ cstr m' (word m' 0xbfffffe4) [45; 97].
Proof.
  destruct (construct_ESP_layout ex_stack 0xbffffff4 0xbfffffb4 [[108; 115]; [45; 97]])
    as (m' & E & _ & _ & Hc & _ & Ha & _).
  - intros a Ha. unfold ex_stack. rewrite lookup_write, decide_True by (rewrite length_replicate; lia).
    apply lookup_lt_is_Some. rewrite length_replicate. lia.
  - vm_compute. split; congruence.
  - reflexivity.
  - reflexivity.
  - reflexivity.
  - vm_compute. repeat constructor.
  - intros a v Ha Hx. set_unfold. destruct Ha as [->|[->|[]]]; set_unfold; lia.
  - exists m'. split; [exact E|]. split; [exact Hc|]. exact (Ha 1%nat [45; 97] eq_refl).
Defined.
