(* ===== verification/Elf.v ===== *)
(** userprog/process.c: loading an ELF executable, and the supplemental page table
    of vm/page.c that the segments go to.

    The executable is an open file of the file system; a program header and the ELF
    header are decoded from the bytes read.  The supplemental page table of the
    process is the map from page addresses to entries that the hash table of
    vm/page.c stands for; the file of an entry is the executable, so it is left
    out.  Loading is lazy: [load] only makes entries, and [image_byte] is a byte
    of what [load_file] puts into the page when it is first touched. *)

From S2P Require Import Prelude Vaddr Bitmap Inode.

(** * vm/page.h, vm/page.c *)

Inductive vm_type := VM_ANON | VM_BIN.

Record page_entry := mk_pge {
  type : vm_type; vaddr : Z; pwritable : bool; is_loaded : bool;
  offset : Z; read_bytes : Z; zero_bytes : Z; swap_slot : Z }.

Abbreviation spt := (gmap Z page_entry).

Definition get_pge (t : spt) (va : Z) : option page_entry := t !! pg_round_down va.

(** [hash_insert] keeps an entry that is already there *)
Definition insert_pge (t : spt) (pge : page_entry) : outcome (bool * spt) :=
  _ ← oassert (pg_ofs pge.(vaddr) =? 0);
  Ok (match t !! pge.(vaddr) with Some _ => (false, t) | None => (true, <[pge.(vaddr) := pge]> t) end).

(** * ELF headers *)

Definition at8 (l : list Z) (i : nat) : Z := u8 (l !!! i).
Definition half (l : list Z) (i : nat) : Z := at8 l i + 2 ^ 8 * at8 l (i + 1).
Definition word32 (l : list Z) (i : nat) : Z := half l i + 2 ^ 16 * half l (i + 2).

Record Elf32_Ehdr := mk_ehdr {
  e_ident : list Z; e_type : Z; e_machine : Z; e_version : Z; e_entry : Z; e_phoff : Z; e_shoff : Z; e_flags : Z;
  e_ehsize : Z; e_phentsize : Z; e_phnum : Z; e_shentsize : Z; e_shnum : Z; e_shstrndx : Z }.

Definition sizeof_Ehdr : Z := 52.

Definition decode_ehdr (l : list Z) : Elf32_Ehdr :=
  mk_ehdr (take 16 l) (half l 16) (half l 18) (word32 l 20) (word32 l 24) (word32 l 28) (word32 l 32) (word32 l 36)
    (half l 40) (half l 42) (half l 44) (half l 46) (half l 48) (half l 50).

Record Elf32_Phdr := mk_phdr {
  p_type : Z; p_offset : Z; p_vaddr : Z; p_paddr : Z; p_filesz : Z; p_memsz : Z; p_flags : Z; p_align : Z }.

Definition sizeof_Phdr : Z := 32.

Definition decode_phdr (l : list Z) : Elf32_Phdr :=
  mk_phdr (word32 l 0) (word32 l 4) (word32 l 8) (word32 l 12) (word32 l 16) (word32 l 20) (word32 l 24) (word32 l 28).

Definition PT_LOAD : Z := 1.
Definition PT_DYNAMIC : Z := 2.
Definition PT_INTERP : Z := 3.
Definition PT_SHLIB : Z := 5.
Definition PF_W : Z := 2.

(** * Loading *)

Definition validate_segment (phdr : Elf32_Phdr) (file_len : Z) : bool :=
  if negb (Z.land phdr.(p_offset) PGMASK =? Z.land phdr.(p_vaddr) PGMASK) then false else
  if phdr.(p_offset) >? u32 file_len then false else
  if phdr.(p_memsz) <? phdr.(p_filesz) then false else
  if phdr.(p_memsz) =? 0 then false else
  if negb (is_user_vaddr phdr.(p_vaddr)) then false else
  if negb (is_user_vaddr (u32 (phdr.(p_vaddr) + phdr.(p_memsz)))) then false else
  if u32 (phdr.(p_vaddr) + phdr.(p_memsz)) <? phdr.(p_vaddr) then false else
  if phdr.(p_vaddr) <? PGSIZE then false else true.

(** the loop of [load_segment], with a bound on its turns *)
Fixpoint segment_loop (n : nat) (t : spt) (ofs upage read_bytes zero_bytes : Z) (writable : bool) : F (bool * spt) :=
  match n with
  | O => fail NoFuel
  | S n =>
    if (0 <? read_bytes) || (0 <? zero_bytes) then
      let page_read_bytes := if read_bytes <? PGSIZE then read_bytes else PGSIZE in
      let page_zero_bytes := PGSIZE - page_read_bytes in
      p ← alloc;
      if p =? 0 then mret (false, t) else
      '(_, t) ← lift_out (insert_pge t (mk_pge VM_BIN upage writable false (u32 ofs) page_read_bytes page_zero_bytes 0));
      segment_loop n t (s32 (ofs + page_read_bytes)) (u32 (upage + PGSIZE)) (u32 (read_bytes - page_read_bytes))
        (u32 (zero_bytes - page_zero_bytes)) writable
    else mret (true, t)
  end.

Definition load_segment (t : spt) (file ofs upage read_bytes zero_bytes : Z) (writable : bool) : F (bool * spt) :=
  assert (u32 (read_bytes + zero_bytes) mod PGSIZE =? 0);;
  assert (pg_ofs upage =? 0);;
  assert (Z.rem ofs PGSIZE =? 0);;
  file_seek file ofs;;
  segment_loop (S (Z.to_nat (u32 (read_bytes + zero_bytes) / PGSIZE))) t ofs upage read_bytes zero_bytes writable.

(** the case [PT_LOAD] *)
Definition load_header (t : spt) (file : Z) (phdr : Elf32_Phdr) : F (bool * spt) :=
  len ← file_length file;
  if validate_segment phdr len then
    let writable := negb (Z.land phdr.(p_flags) PF_W =? 0) in
    let file_page := Z.land phdr.(p_offset) (u32 (Z.lnot PGMASK)) in
    let mem_page := Z.land phdr.(p_vaddr) (u32 (Z.lnot PGMASK)) in
    let page_offset := Z.land phdr.(p_vaddr) PGMASK in
    let '(read_bytes, zero_bytes) :=
      if 0 <? phdr.(p_filesz) then
        let read_bytes := u32 (page_offset + phdr.(p_filesz)) in
        (read_bytes, u32 (ROUND_UP (u32 (page_offset + phdr.(p_memsz))) PGSIZE - read_bytes))
      else (0, ROUND_UP (u32 (page_offset + phdr.(p_memsz))) PGSIZE) in
    load_segment t file (s32 file_page) mem_page read_bytes zero_bytes writable
  else mret (false, t).

(** the loop over the [n] program headers from [file_ofset] on *)
Fixpoint load_headers (n : nat) (t : spt) (file file_ofset : Z) : F (bool * spt) :=
  match n with
  | O => mret (true, t)
  | S n =>
    len ← file_length file;
    if (file_ofset <? 0) || (file_ofset >? len) then mret (false, t) else
    file_seek file file_ofset;;
    b ← file_read file sizeof_Phdr;
    if negb (Z.of_nat (length b) =? sizeof_Phdr) then mret (false, t) else
    let phdr := decode_phdr b in
    let file_ofset := s32 (file_ofset + sizeof_Phdr) in
    if phdr.(p_type) =? PT_LOAD then
      '(ok, t) ← load_header t file phdr;
      if (ok : bool) then load_headers n t file file_ofset else mret (false, t)
    else if (phdr.(p_type) =? PT_DYNAMIC) || (phdr.(p_type) =? PT_INTERP) || (phdr.(p_type) =? PT_SHLIB)
    then mret (false, t)
    else load_headers n t file file_ofset
  end.

(** the checks on the header of the executable *)
Definition header_ok (ehdr : Elf32_Ehdr) : bool :=
  bool_decide (take 7 ehdr.(e_ident) = [127; 69; 76; 70; 1; 1; 1]) && (ehdr.(e_type) =? 2) && (ehdr.(e_machine) =? 3) &&
  (ehdr.(e_version) =? 1) && (ehdr.(e_phentsize) =? sizeof_Phdr) && negb (ehdr.(e_phnum) >? 1024).

(** [load] from the header of the opened executable to its last program header: the
    start address when all went well, and the page table *)
Definition load_executable (t : spt) (file : Z) : F (option Z * spt) :=
  b ← file_read file sizeof_Ehdr;
  if negb (Z.of_nat (length b) =? sizeof_Ehdr) || negb (header_ok (decode_ehdr b)) then mret (None, t) else
  let ehdr := decode_ehdr b in
  '(ok, t) ← load_headers (Z.to_nat ehdr.(e_phnum)) t file (s32 ehdr.(e_phoff));
  mret (if (ok : bool) then Some ehdr.(e_entry) else None, t).

(** [load_file]: the bytes put into the page of [pge], from the contents of its file;
    [None] when the file is too short *)
Definition load_file (pge : page_entry) (contents : list Z) : option (list Z) :=
  let b := take (Z.to_nat pge.(read_bytes)) (drop (Z.to_nat pge.(offset)) contents) in
  if Z.of_nat (length b) =? pge.(read_bytes) then Some (b ++ replicate (Z.to_nat pge.(zero_bytes)) 0) else None.

(** * Segments *)

(** entry [i] of a segment of [r] bytes of the file from [ofs] on, at [upage] *)
Definition seg_entry (ofs upage r : Z) (w : bool) (i : Z) : page_entry :=
  let n := Z.max 0 (Z.min 4096 (r - 4096 * i)) in
  mk_pge VM_BIN (upage + 4096 * i) w false (u32 (ofs + Z.min (4096 * i) r)) n (4096 - n) 0.

(** [t] with the [k] entries of a segment, where there was none *)
Definition with_segment (t t' : spt) (ofs upage r : Z) (w : bool) (k : nat) : Prop :=
  ∀ a, t' !! a = match t !! a with
                 | Some e => Some e
                 | None => if bool_decide (a mod 4096 = 0 ∧ upage ≤ a < upage + 4096 * Z.of_nat k)
                           then Some (seg_entry ofs upage r w ((a - upage) / 4096)) else None
                 end.

Lemma u32_s32_add x y : u32 (s32 x + y) = u32 (x + y).
Proof.
  unfold u32, s32. replace ((x + 2 ^ 31) mod 2 ^ 32 - 2 ^ 31 + y) with ((x + 2 ^ 31) mod 2 ^ 32 + (y - 2 ^ 31)) by lia.
  rewrite Zplus_mod_idemp_l. f_equal. lia.
Qed.

Lemma u32_s32 x : u32 (s32 x) = u32 x.
Proof. by rewrite <- (Z.add_0_r (s32 x)), u32_s32_add, Z.add_0_r. Qed.

Lemma alloc_eq s : s.(allocs) = [] → alloc s = Ok (s.(next_ptr), set_heap (s.(next_ptr) + 1) [] s).
Proof. intros H. unfold alloc. erewrite bind_ok by done. by rewrite H. Qed.

Lemma insert_pge_eq t e : vaddr e mod 4096 = 0 →
  ∃ b t', insert_pge t e = Ok (b, t') ∧ ∀ a, t' !! a = match t !! a with Some x => Some x | None => if decide (a = vaddr e) then Some e else None end.
Proof.
  intros H. unfold insert_pge. rewrite pg_ofs_eq, H. cbn [oassert mbind outcome_bind Z.eqb].
  destruct (t !! vaddr e) as [x|] eqn:E; eexists _, _; (split; [done|]); intros a.
  - destruct (decide (a = vaddr e)) as [->|]; [by rewrite E|]. by destruct (t !! a).
  - destruct (decide (a = vaddr e)) as [->|Hne]; [by rewrite lookup_insert_eq, E|].
    rewrite lookup_insert_ne by done. by destruct (t !! a).
Qed.

(** the next page of a segment *)
Lemma seg_entry_next ofs upage r w i (p := Z.min r 4096) : 0 ≤ r → 0 ≤ i →
  seg_entry (s32 (ofs + p)) (upage + 4096) (r - p) w i = seg_entry ofs upage r w (i + 1).
Proof.
  intros Hr Hi. unfold seg_entry. rewrite u32_s32_add.
  replace (r - p - 4096 * i) with (if decide (r < 4096) then - 4096 * i else r - 4096 * (i + 1)) by (case_decide; lia).
  replace (ofs + p + Z.min (4096 * i) (r - p)) with (ofs + Z.min (4096 * (i + 1)) r) by lia.
  replace (Z.max 0 (Z.min 4096 (if decide (r < 4096) then - 4096 * i else r - 4096 * (i + 1)))) with
    (Z.max 0 (Z.min 4096 (r - 4096 * (i + 1)))) by (case_decide; lia). f_equal. lia.
Qed.

Lemma with_segment_cons t t1 t2 ofs upage r w k (p := Z.min r 4096) : 0 ≤ r → upage mod 4096 = 0 →
  (∀ a, t1 !! a = match t !! a with Some x => Some x | None => if decide (a = upage) then Some (seg_entry ofs upage r w 0) else None end) →
  with_segment t1 t2 (s32 (ofs + p)) (upage + 4096) (r - p) w k → with_segment t t2 ofs upage r w (S k).
Proof.
  intros Hr Hu H1 H2 a. rewrite H2, H1. destruct (t !! a) as [e|]; [done|]. destruct (decide (a = upage)) as [->|Hne].
  - rewrite bool_decide_true by lia. do 2 f_equal. rewrite Z.sub_diag. done.
  - destruct (bool_decide_reflect (a mod 4096 = 0 ∧ upage + 4096 ≤ a < upage + 4096 + 4096 * Z.of_nat k)) as [[Ha Hr']|Hn].
    + rewrite bool_decide_true by lia. f_equal. unfold p. rewrite seg_entry_next; [|done|apply Z.div_pos; lia]. f_equal.
      replace (a - (upage + 4096)) with (a - upage + (-1) * 4096) by lia. rewrite Z.div_add by done. lia.
    + rewrite bool_decide_false; [done|]. intros [Ha Hr']. apply Hn. split; [done|]. split; [|lia].
      pose proof (Z.div_mod a 4096). pose proof (Z.div_mod upage 4096). lia.
Qed.

Lemma segment_loop_spec k : ∀ n t ofs upage r z w s, (k < n)%nat → s.(allocs) = [] → 0 < s.(next_ptr) →
  0 ≤ upage → upage mod 4096 = 0 → upage + 4096 * Z.of_nat k ≤ PHYS_BASE → 0 ≤ r → 0 ≤ z → r + z = 4096 * Z.of_nat k →
  ∃ t' s', segment_loop n t ofs upage r z w s = Ok (true, t', s') ∧ heaped s s' ∧ with_segment t t' ofs upage r w k.
Proof.
  unfold PHYS_BASE. induction k as [|k IH]; intros [|n] t ofs upage r z w s Hn Ha Hp Hu Hum Hend Hr Hz Hk; try lia; cbn [segment_loop].
  - destruct (Z.ltb_spec 0 r); [lia|]. destruct (Z.ltb_spec 0 z); [lia|]. exists t, s. split; [done|].
    split; [by apply heaped_refl|]. intros a. destruct (t !! a); [done|]. by rewrite bool_decide_false by lia.
  - replace ((0 <? r) || (0 <? z)) with true by (destruct (Z.ltb_spec 0 r), (Z.ltb_spec 0 z); (done || lia)).
    replace (if r <? PGSIZE then r else PGSIZE) with (Z.min r 4096) by (unfold PGSIZE; destruct (Z.ltb_spec r 4096); lia).
    set (p := Z.min r 4096). rewrite (bind_ok _ _ _ _ _ (alloc_eq s Ha)). destruct (Z.eqb_spec (next_ptr s) 0); [lia|].
    set (s1 := set_heap _ _ s). set (e := mk_pge _ _ _ _ _ _ _ _).
    destruct (insert_pge_eq t e Hum) as (b & t1 & E1 & H1). rewrite (bind_ok _ _ s1 _ s1 (lift_out_eq _ _ s1 E1)).
    unfold PGSIZE. rewrite (u32_small (upage + 4096)), (u32_small (r - p)), (u32_small (z - (4096 - p))) by lia.
    destruct (IH n t1 (s32 (ofs + p)) (upage + 4096) (r - p) (z - (4096 - p)) w s1) as (t2 & s2 & E2 & Hh & H2); try (done || lia);
      [simpl; lia|rewrite Z.add_mod, Hum by done; done|].
    exists t2, s2. split; [done|]. split.
    + eapply heaped_trans; [|done]. exists (next_ptr s + 1). split; [lia|done].
    + apply (with_segment_cons t t1 t2); [done|done| |done]. intros a. rewrite H1. unfold e, vaddr.
      replace (seg_entry ofs upage r w 0) with e; [done|]. unfold e, seg_entry, PGSIZE.
      replace (Z.max 0 (Z.min 4096 (r - 4096 * 0))) with p by lia.
      replace (ofs + Z.min (4096 * 0) r) with ofs by lia. f_equal; lia.
Qed.

(** ** Valid segments *)

Record phdr_range (h : Elf32_Phdr) : Prop := {
  pr_offset : 0 ≤ h.(p_offset) < 2 ^ 32;
  pr_vaddr : 0 ≤ h.(p_vaddr) < 2 ^ 32;
  pr_filesz : 0 ≤ h.(p_filesz) < 2 ^ 32;
  pr_memsz : 0 ≤ h.(p_memsz) < 2 ^ 32
}.

Record valid (h : Elf32_Phdr) (len : Z) : Prop := {
  va_align : h.(p_offset) mod 4096 = h.(p_vaddr) mod 4096;
  va_offset : h.(p_offset) ≤ len;
  va_size : h.(p_filesz) ≤ h.(p_memsz);
  va_memsz : 0 < h.(p_memsz);
  va_low : 4096 ≤ h.(p_vaddr);
  va_high : h.(p_vaddr) + h.(p_memsz) < PHYS_BASE
}.

Lemma validate_spec h len : phdr_range h → 0 ≤ len < 2 ^ 31 → validate_segment h len = true ↔ valid h len.
Proof.
  intros [] Hl. unfold validate_segment, is_user_vaddr. fold (pg_ofs (p_offset h)) (pg_ofs (p_vaddr h)). rewrite !pg_ofs_eq.
  rewrite (u32_small len), Z.gtb_ltb by lia. assert (Hu : u32 (p_vaddr h + p_memsz h) =
    if decide (p_vaddr h + p_memsz h < 2 ^ 32) then p_vaddr h + p_memsz h else p_vaddr h + p_memsz h - 2 ^ 32).
  { case_decide; [apply u32_small; lia|]. unfold u32. symmetry. apply (Z.mod_unique _ _ 1); lia. }
  rewrite Hu. unfold PHYS_BASE, PGSIZE.
  split.
  - intros H. repeat match type of H with (if negb ?b then _ else _) = _ => destruct b eqn:?; simpl in H; [|done]
      | (if ?b then _ else _) = _ => destruct b eqn:?; [done|] end.
    split; unfold PHYS_BASE; repeat case_decide; lia.
  - intros []. unfold PHYS_BASE in *. rewrite decide_True in * by lia. rewrite va_align0, Z.eqb_refl. simpl negb. cbv iota.
    rewrite (proj2 (Z.ltb_ge _ _)), (proj2 (Z.ltb_ge _ _)), (proj2 (Z.eqb_neq _ _)), !(proj2 (Z.ltb_lt _ _)) by lia. simpl negb. cbv iota.
    rewrite !(proj2 (Z.ltb_ge _ _)) by lia. done.
Qed.

(** the pages of a segment, and the bytes it takes from the file counted from the
    start of the first page *)
Definition page_offset (h : Elf32_Phdr) : Z := h.(p_vaddr) mod 4096.
Definition seg_pages (h : Elf32_Phdr) : nat := Z.to_nat ((page_offset h + h.(p_memsz) + 4095) / 4096).
Definition seg_read (h : Elf32_Phdr) : Z := if 0 <? h.(p_filesz) then page_offset h + h.(p_filesz) else 0.
Definition file_page (h : Elf32_Phdr) : Z := 4096 * (h.(p_offset) / 4096).
Definition mem_page (h : Elf32_Phdr) : Z := 4096 * (h.(p_vaddr) / 4096).
Definition seg_writable (h : Elf32_Phdr) : bool := negb (Z.land h.(p_flags) PF_W =? 0).

Lemma seg_geometry h len : phdr_range h → valid h len →
  0 ≤ page_offset h < 4096 ∧ h.(p_vaddr) = mem_page h + page_offset h ∧ h.(p_offset) = file_page h + page_offset h ∧
  0 ≤ seg_read h ≤ 4096 * Z.of_nat (seg_pages h) ∧ page_offset h + h.(p_memsz) ≤ 4096 * Z.of_nat (seg_pages h) ∧
  4096 * Z.of_nat (seg_pages h) < page_offset h + h.(p_memsz) + 4096 ∧
  4096 ≤ mem_page h ∧ mem_page h mod 4096 = 0 ∧ mem_page h + 4096 * Z.of_nat (seg_pages h) ≤ PHYS_BASE.
Proof.
  intros [] []. unfold seg_read, seg_pages, mem_page, file_page, PHYS_BASE in *. fold (page_offset h) in va_align0.
  assert (Ho : 0 ≤ page_offset h < 4096) by (by apply Z.mod_pos_bound).
  pose proof (Z.div_mod (p_vaddr h) 4096 ltac:(lia)) as Hv. fold (page_offset h) in Hv.
  pose proof (Z.div_mod (p_offset h) 4096 ltac:(lia)) as Hf. rewrite va_align0 in Hf.
  pose proof (Z.div_mod (page_offset h + p_memsz h + 4095) 4096 ltac:(lia)) as Hp.
  pose proof (Z.mod_pos_bound (page_offset h + p_memsz h + 4095) 4096 ltac:(lia)).
  rewrite Z2Nat.id by (apply Z.div_pos; lia). rewrite (Z.mul_comm 4096 (p_vaddr h / 4096)), Z.mod_mul by done.
  destruct (Z.ltb_spec 0 (p_filesz h)); split_and!; lia.
Qed.

(** the numbers of bytes that [load] computes *)
Lemma round_up_eq x : 0 ≤ x < 2 ^ 32 - 4096 → ROUND_UP x PGSIZE = 4096 * ((x + 4095) / 4096).
Proof.
  intros Hx. unfold ROUND_UP, DIV_ROUND_UP, PGSIZE. rewrite (u32_small (x + 4096 - 1)) by lia.
  replace (x + 4096 - 1) with (x + 4095) by lia. pose proof (Z.div_mod (x + 4095) 4096 ltac:(lia)).
  pose proof (Z.mod_pos_bound (x + 4095) 4096 ltac:(lia)). rewrite u32_small; lia.
Qed.

Lemma seg_bytes h len : phdr_range h → valid h len →
  (if 0 <? h.(p_filesz) then
     let read_bytes := u32 (page_offset h + h.(p_filesz)) in
     (read_bytes, u32 (ROUND_UP (u32 (page_offset h + h.(p_memsz))) PGSIZE - read_bytes))
   else (0, ROUND_UP (u32 (page_offset h + h.(p_memsz))) PGSIZE)) =
  (seg_read h, 4096 * Z.of_nat (seg_pages h) - seg_read h).
Proof.
  intros Hr Hv. destruct (seg_geometry h len Hr Hv) as (Ho & Hva & _ & Hrd & Hge & Hlt & Hlow & _ & Hhi).
  destruct Hr, Hv. unfold PHYS_BASE in *. rewrite (u32_small (page_offset h + p_memsz h)) by lia. rewrite round_up_eq by lia.
  assert (E : 4096 * ((page_offset h + p_memsz h + 4095) / 4096) = 4096 * Z.of_nat (seg_pages h)).
  { unfold seg_pages. rewrite Z2Nat.id by (apply Z.div_pos; lia). done. }
  rewrite E. unfold seg_read in *. destruct (Z.ltb_spec 0 (p_filesz h)); cbv zeta.
  - rewrite (u32_small (page_offset h + p_filesz h)) by lia. rewrite u32_small by lia. done.
  - f_equal. lia.
Qed.

(** * The executable as an open file *)

(** [f] is open on the inode [i] at position [p], and memory is available *)
Record opened (s : fstate) (f : Z) (i : inode) (p : Z) : Prop := {
  op_file : ∃ x, s.(files) !! f = Some x ∧ s.(inodes) !! x.(finode) = Some i ∧ x.(pos) = p;
  op_pos : 0 ≤ p;
  op_fits : fits s.(disk) i;
  op_len : i.(ilength) < 2 ^ 31;
  op_allocs : s.(allocs) = [];
  op_next : 0 < s.(next_ptr)
}.

Lemma opened_heaped s s' f i p : heaped s s' → opened s f i p → opened s' f i p ∧ s'.(disk) = s.(disk).
Proof. intros (n & Hn & ->) []. by split; [split|]. Qed.

Lemma file_length_eq s f i p : opened s f i p → file_length f s = Ok (i.(ilength), s).
Proof.
  intros [(x & Hx & Hi & _) _ _ _ _ _]. unfold file_length. rewrite (bind_ok _ _ s x s).
  - unfold inode_length. by rewrite (bind_ok _ _ _ _ _ (get_inode_eq s _ i Hi)).
  - unfold get_file. erewrite bind_ok by done. by rewrite Hx.
Qed.

Lemma file_seek_spec s f i p q : opened s f i p → 0 ≤ q →
  ∃ s', file_seek f q s = Ok (tt, s') ∧ opened s' f i q ∧ s'.(disk) = s.(disk).
Proof.
  intros [(x & Hx & Hi & _) _ Hf Hl Ha Hn] Hq. unfold file_seek. eexists. split.
  { rewrite (bind_ok _ _ s x s) by (unfold get_file; erewrite bind_ok by done; by rewrite Hx).
    rewrite assert_bind by (by apply Z.leb_le). done. }
  split; [|done]. split; try done. simpl. eexists. by rewrite lookup_insert_eq.
Qed.

Lemma file_read_pos s f i p n : opened s f i p → 0 ≤ n →
  let b := take (Z.to_nat n) (drop (Z.to_nat p) (content s.(disk) i)) in
  ∃ s', file_read f n s = Ok (b, s') ∧ opened s' f i (p + Z.of_nat (length b)) ∧ s'.(disk) = s.(disk).
Proof.
  intros [(x & Hx & Hi & Hp) Hp0 Hf Hl Ha Hn] Hn0 b. unfold file_read.
  rewrite (bind_ok _ _ s x s) by (unfold get_file; erewrite bind_ok by done; by rewrite Hx).
  destruct (inode_read_at_eq s (finode x) i n (pos x) Hi Hf Ha Hn Hn0 ltac:(lia)) as (s1 & E & (k & Hk & ->)).
  rewrite (bind_ok _ _ _ _ _ E), Hp. fold b. eexists. split; [done|]. split; [|done].
  split; try (done || lia). simpl. eexists. by rewrite lookup_insert_eq.
Qed.

Lemma file_read_spec s f i p n : opened s f i p → 0 ≤ n →
  let b := take (Z.to_nat n) (drop (Z.to_nat p) (content s.(disk) i)) in
  ∃ s' p', file_read f n s = Ok (b, s') ∧ opened s' f i p' ∧ s'.(disk) = s.(disk).
Proof. intros Hop Hn b. destruct (file_read_pos s f i p n Hop Hn) as (s' & H). by exists s', (p + Z.of_nat (length b)). Qed.

Lemma word32_range l i : 0 ≤ word32 l i < 2 ^ 32.
Proof.
  unfold word32, half, at8. pose proof (u8_range (l !!! i)). pose proof (u8_range (l !!! (i + 1)%nat)).
  pose proof (u8_range (l !!! (i + 2)%nat)). pose proof (u8_range (l !!! (i + 2 + 1)%nat)). lia.
Qed.

Lemma decode_phdr_range l : phdr_range (decode_phdr l).
Proof. split; apply word32_range. Qed.

Lemma load_segment_spec t s f i p h len : opened s f i p → phdr_range h → valid h len → len < 2 ^ 31 →
  let k := seg_pages h in let w := seg_writable h in
  ∃ t' s' p', load_segment t f (file_page h) (mem_page h) (seg_read h) (4096 * Z.of_nat k - seg_read h) w s = Ok (true, t', s') ∧
    opened s' f i p' ∧ s'.(disk) = s.(disk) ∧ with_segment t t' (file_page h) (mem_page h) (seg_read h) w k.
Proof.
  intros Hop Hr Hv Hl k w. destruct (seg_geometry h len Hr Hv) as (Ho & Hva & Hof & Hrd & Hge & Hlt & Hlow & Hm & Hhi).
  fold k in Hrd, Hge, Hlt, Hhi. unfold load_segment. destruct Hr, Hv. unfold PHYS_BASE in Hhi.
  replace (seg_read h + (4096 * Z.of_nat k - seg_read h)) with (4096 * Z.of_nat k) by lia. rewrite u32_small by lia.
  unfold PGSIZE. rewrite assert_bind by (rewrite Z.mul_comm, Z.mod_mul; done).
  rewrite assert_bind by (rewrite pg_ofs_eq, Hm; done).
  assert (Hfp : 0 ≤ file_page h) by (unfold file_page; pose proof (Z.div_pos (p_offset h) 4096); lia).
  rewrite assert_bind by (unfold file_page; rewrite Z.mul_comm, Z.rem_mul; done).
  destruct (file_seek_spec s f i p (file_page h) Hop Hfp) as (s1 & E1 & Hop1 & Hd1). rewrite (bind_ok _ _ _ _ _ E1).
  rewrite (Z.mul_comm 4096 (Z.of_nat k)), Z.div_mul, Nat2Z.id by done. rewrite (Z.mul_comm (Z.of_nat k)).
  destruct (segment_loop_spec k (S k) t (file_page h) (mem_page h) (seg_read h) (4096 * Z.of_nat k - seg_read h) w s1)
    as (t' & s2 & E2 & Hh & Hw); [lia|apply Hop1|apply Hop1|lia|done|unfold PHYS_BASE; lia|lia|lia|lia|].
  exists t', s2, (file_page h). rewrite E2. destruct (opened_heaped s1 s2 f i _ Hh Hop1) as [Hop2 Hd2].
  split_and!; [done|done|congruence|done].
Qed.

Lemma load_header_spec t s f i p h : opened s f i p → phdr_range h →
  (validate_segment h i.(ilength) = false ∧ load_header t f h s = Ok (false, t, s)) ∨
  (valid h i.(ilength) ∧ ∃ t' s' p', load_header t f h s = Ok (true, t', s') ∧ opened s' f i p' ∧ s'.(disk) = s.(disk) ∧
    with_segment t t' (file_page h) (mem_page h) (seg_read h) (seg_writable h) (seg_pages h)).
Proof.
  intros Hop Hr. unfold load_header. rewrite (bind_ok _ _ _ _ _ (file_length_eq s f i p Hop)).
  pose proof (op_len _ _ _ _ Hop) as Hl. pose proof (fit_len _ _ (op_fits _ _ _ _ Hop)) as Hl0.
  destruct (validate_segment h (ilength i)) eqn:Ev; [|by left]. right. apply validate_spec in Ev; [|done|lia]. split; [done|].
  destruct (load_segment_spec t s f i p h (ilength i) Hop Hr Ev Hl) as (t' & s' & p' & E & H). exists t', s', p'. split; [|done].
  destruct (seg_geometry h _ Hr Ev) as (_ & _ & Hof & _).
  cbv zeta. fold (pg_ofs (p_vaddr h)) (pg_round_down (p_offset h)) (pg_round_down (p_vaddr h)).
  rewrite pg_ofs_eq. fold (page_offset h). rewrite !pg_round_down_eq by apply Hr. fold (file_page h) (mem_page h) (seg_writable h).
  pose proof (seg_bytes h (ilength i) Hr Ev) as Eb. cbv zeta in Eb. rewrite Eb. rewrite s32_small; [done|].
  destruct Ev, Hr. assert (0 ≤ page_offset h < 4096) by (by apply Z.mod_pos_bound).
  unfold file_page in *. pose proof (Z.div_pos (p_offset h) 4096). lia.
Qed.

(** * What is loaded *)

(** an entry for a page of user memory above the first, filled from the file and zeros *)
Record user_entry (a : Z) (e : page_entry) : Prop := {
  ue_align : a mod 4096 = 0;
  ue_low : 4096 ≤ a;
  ue_high : a + 4096 ≤ PHYS_BASE;
  ue_vaddr : e.(vaddr) = a;
  ue_bytes : 0 ≤ e.(read_bytes) ∧ 0 ≤ e.(zero_bytes) ∧ e.(read_bytes) + e.(zero_bytes) = 4096;
  ue_offset : 0 ≤ e.(offset) < 2 ^ 32
}.

Definition user_table (t : spt) : Prop := ∀ a e, t !! a = Some e → user_entry a e.

Lemma seg_index upage a : upage mod 4096 = 0 → a mod 4096 = 0 → upage + 4096 * ((a - upage) / 4096) = a.
Proof.
  intros Hu Ha. pose proof (Z.div_mod a 4096 ltac:(lia)). pose proof (Z.div_mod upage 4096 ltac:(lia)).
  replace (a - upage) with ((a / 4096 - upage / 4096) * 4096) by lia. rewrite Z.div_mul; lia.
Qed.

Lemma segment_user t t' h len : phdr_range h → valid h len → user_table t →
  with_segment t t' (file_page h) (mem_page h) (seg_read h) (seg_writable h) (seg_pages h) → user_table t' ∧ t ⊆ t'.
Proof.
  intros Hr Hv Ht Hw. destruct (seg_geometry h len Hr Hv) as (_ & _ & _ & _ & _ & _ & Hlow & Hm & Hhi). split.
  - intros a e Ha. rewrite Hw in Ha. destruct (t !! a) as [e'|] eqn:E; [simplify_eq; by apply Ht|].
    destruct (bool_decide_reflect (a mod 4096 = 0 ∧ mem_page h ≤ a < mem_page h + 4096 * Z.of_nat (seg_pages h))) as [[Hal Hin]|]; [|done].
    simplify_eq. unfold seg_entry. split; simpl.
    + done.
    + lia.
    + unfold PHYS_BASE in *. pose proof (Z.div_mod a 4096). pose proof (Z.div_mod (mem_page h) 4096). lia.
    + by apply seg_index.
    + lia.
    + apply u32_range.
  - apply map_subseteq_spec. intros a e Ha. by rewrite Hw, Ha.
Qed.

Lemma load_headers_spec n : ∀ t s f i p ofs, opened s f i p → user_table t → - 2 ^ 31 ≤ ofs < 2 ^ 31 →
  ∃ ok t' s' p', load_headers n t f ofs s = Ok (ok, t', s') ∧ opened s' f i p' ∧ s'.(disk) = s.(disk) ∧ user_table t' ∧ t ⊆ t'.
Proof.
  induction n as [|n IH]; intros t s f i p ofs Hop Ht Hofs; cbn [load_headers]; [by exists true, t, s, p|].
  rewrite (bind_ok _ _ _ _ _ (file_length_eq s f i p Hop)).
  destruct (Z.ltb_spec ofs 0) as [|Hge]; [by exists false, t, s, p|]. rewrite Z.gtb_ltb.
  destruct (Z.ltb_spec (ilength i) ofs) as [|Hle]; [by exists false, t, s, p|]. cbn [orb]. cbv iota.
  destruct (file_seek_spec s f i p ofs Hop Hge) as (s1 & E1 & Hop1 & Hd1). rewrite (bind_ok _ _ _ _ _ E1).
  destruct (file_read_spec s1 f i ofs sizeof_Phdr Hop1 ltac:(unfold sizeof_Phdr; lia)) as (s2 & p2 & E2 & Hop2 & Hd2).
  rewrite (bind_ok _ _ _ _ _ E2). set (b := take _ _). rewrite <- Hd1. rewrite <- Hd2.
  destruct (negb (Z.of_nat (length b) =? sizeof_Phdr)); [by exists false, t, s2, p2|]. cbv zeta.
  assert (Hofs' : - 2 ^ 31 ≤ s32 (ofs + sizeof_Phdr) < 2 ^ 31) by apply s32_range.
  destruct (p_type (decode_phdr b) =? PT_LOAD).
  - destruct (load_header_spec t s2 f i p2 (decode_phdr b) Hop2 (decode_phdr_range b))
      as [[_ E3]|(Hv & t3 & s3 & p3 & E3 & Hop3 & Hd3 & Hw)]; rewrite (bind_ok _ _ _ _ _ E3); [by exists false, t, s2, p2|].
    destruct (segment_user t t3 _ _ (decode_phdr_range b) Hv Ht Hw) as [Ht3 Hsub].
    destruct (IH t3 s3 f i p3 _ Hop3 Ht3 Hofs') as (ok & t4 & s4 & p4 & E4 & Hop4 & Hd4 & Ht4 & Hsub4).
    exists ok, t4, s4, p4. split_and!; [done|done|congruence|done|by etrans].
  - destruct (_ || _); [by exists false, t, s2, p2|]. apply (IH t s2 f i p2); done.
Qed.

(** C18. Loading an executable, whatever bytes the file has: the kernel fails no assertion
    and every loop ends; the page table keeps the entries it had and each new one is for
    a whole page of user memory, above the page of the null pointer and below the
    kernel, of which all 4096 bytes are given by the file or are zero; the start address
    is a 32-bit word and the disk is unchanged. *)
Theorem load_safe t s f i p : opened s f i p → user_table t →
  ∃ eip t' s', load_executable t f s = Ok (eip, t', s') ∧ user_table t' ∧ t ⊆ t' ∧ s'.(disk) = s.(disk) ∧
    match eip with Some v => 0 ≤ v < 2 ^ 32 | None => True end.
Proof.
  intros Hop Ht. unfold load_executable.
  destruct (file_read_spec s f i p sizeof_Ehdr Hop ltac:(unfold sizeof_Ehdr; lia)) as (s1 & p1 & E1 & Hop1 & Hd1).
  rewrite (bind_ok _ _ _ _ _ E1). set (b := take _ _). destruct (_ || _).
  { exists None, t, s1. by split_and!. }
  destruct (load_headers_spec (Z.to_nat (e_phnum (decode_ehdr b))) t s1 f i p1 (s32 (e_phoff (decode_ehdr b))) Hop1 Ht
    ltac:(apply s32_range)) as (ok & t2 & s2 & p2 & E2 & _ & Hd2 & Ht2 & Hsub).
  rewrite (bind_ok _ _ _ _ _ E2). eexists _, t2, s2. split; [done|]. split_and!; [done|done|congruence|].
  destruct ok; [apply word32_range|done].
Qed.

(** ** The image of a segment *)

(** The byte that the page of [va] gets for [va] when it is filled from [contents] *)
Definition image_byte (t : spt) (contents : list Z) (va : Z) : option Z :=
  match get_pge t va with
  | Some e => match load_file e contents with Some b => b !! Z.to_nat (pg_ofs va) | None => None end
  | None => None
  end.

(** filling page [i] of a segment *)
Lemma load_file_seg contents ofs upage r w i b : 0 ≤ ofs → 0 ≤ r → 0 ≤ i → 0 ≤ b < 4096 → ofs + r < 2 ^ 32 →
  ofs + r ≤ Z.of_nat (length contents) ∨ r = 0 →
  ∃ l, load_file (seg_entry ofs upage r w i) contents = Some l ∧
    l !! Z.to_nat b = if 4096 * i + b <? r then contents !! Z.to_nat (ofs + (4096 * i + b)) else Some 0.
Proof.
  intros Ho Hr Hi Hb Hov Hlen. unfold load_file, seg_entry. simpl. set (n := Z.max 0 (Z.min 4096 (r - 4096 * i))).
  rewrite u32_small by lia. set (q := ofs + Z.min (4096 * i) r).
  assert (Hl : Z.of_nat (length (take (Z.to_nat n) (drop (Z.to_nat q) contents))) = n).
  { rewrite length_take, length_drop. unfold n, q. destruct Hlen as [|Hz]; [lia|]. rewrite Hz in *. lia. }
  rewrite Hl, Z.eqb_refl. eexists. split; [done|]. destruct (Z.ltb_spec (4096 * i + b) r) as [Hlt|Hge].
  - rewrite lookup_app_l by lia. rewrite lookup_take_lt, lookup_drop by lia. f_equal. lia.
  - rewrite lookup_app_r by lia. apply lookup_replicate. split; [done|]. lia.
Qed.

(** C19. The pages a valid segment is loaded to hold its image: byte [j] of the segment in
    memory is byte [j] of the segment in the file for [j < p_filesz] and zero from
    there to [p_memsz], when the file has all of the segment and none of its pages
    were taken. *)
Theorem segment_image t s f i p h contents : opened s f i p → phdr_range h → valid h i.(ilength) →
  contents = content s.(disk) i → h.(p_offset) + h.(p_filesz) ≤ Z.of_nat (length contents) →
  (∀ a, mem_page h ≤ a < h.(p_vaddr) + h.(p_memsz) → t !! a = None) →
  ∃ t' s', load_header t f h s = Ok (true, t', s') ∧
    ∀ j, 0 ≤ j < h.(p_memsz) → image_byte t' contents (h.(p_vaddr) + j) =
      if j <? h.(p_filesz) then contents !! Z.to_nat (h.(p_offset) + j) else Some 0.
Proof.
  intros Hop Hr Hv Hc Hlen Hnone. pose proof (op_len _ _ _ _ Hop) as Hl.
  destruct (load_header_spec t s f i p h Hop Hr) as [[Ev _]|(_ & t' & s' & p' & E & _ & _ & Hw)].
  { pose proof (fit_len _ _ (op_fits _ _ _ _ Hop)). rewrite (proj2 (validate_spec h (ilength i) Hr ltac:(lia)) Hv) in Ev. done. }
  exists t', s'. split; [done|]. intros j Hj.
  destruct (seg_geometry h _ Hr Hv) as (Ho & Hva & Hof & Hrd & Hge & Hlt & Hlow & Hm & Hhi).
  pose proof Hr as [Hro Hrv Hrf Hrm]. destruct Hv as [_ _ Hsz _ _ Hvh]. unfold PHYS_BASE in *.
  set (x := page_offset h + j). assert (Ex : p_vaddr h + j = mem_page h + x) by lia.
  pose proof (Z.div_mod x 4096 ltac:(lia)) as Hx. pose proof (Z.mod_pos_bound x 4096 ltac:(lia)) as Hxb.
  assert (Hq : 0 ≤ x / 4096) by (apply Z.div_pos; lia).
  assert (Ep : pg_round_down (p_vaddr h + j) = mem_page h + 4096 * (x / 4096)).
  { rewrite pg_round_down_eq by lia. rewrite Ex. unfold mem_page. rewrite (Z.add_comm _ x), (Z.mul_comm 4096 (p_vaddr h / 4096)).
    rewrite Z.div_add by done. lia. }
  assert (Eo : pg_ofs (p_vaddr h + j) = x mod 4096).
  { rewrite pg_ofs_eq, Ex. unfold mem_page. rewrite (Z.add_comm _ x), (Z.mul_comm 4096 (p_vaddr h / 4096)). by apply Z.mod_add. }
  unfold image_byte, get_pge. rewrite Ep, Hw, Hnone by lia. rewrite bool_decide_true.
  2: { split; [by rewrite Z.add_mod, Hm, (Z.mul_comm 4096), Z.mod_mul|]. lia. }
  replace (mem_page h + 4096 * (x / 4096) - mem_page h) with (x / 4096 * 4096) by lia. rewrite Z.div_mul by done.
  assert (Hfp : 0 ≤ file_page h) by (unfold file_page; pose proof (Z.div_pos (p_offset h) 4096); lia).
  subst contents. pose proof (fit_len _ _ (op_fits _ _ _ _ Hop)) as Hl0.
  rewrite (length_content _ _ (op_fits _ _ _ _ Hop)) in Hlen. destruct (load_file_seg (content (disk s) i) (file_page h) (mem_page h) (seg_read h) (seg_writable h) (x / 4096) (x mod 4096))
    as (l & El & Eb); [lia|lia|lia|lia| | |].
  { unfold seg_read. destruct (0 <? p_filesz h); lia. }
  { rewrite (length_content _ _ (op_fits _ _ _ _ Hop)). unfold seg_read. destruct (Z.ltb_spec 0 (p_filesz h)); lia. }
  rewrite El, Eo, Eb. rewrite <- Hx. unfold seg_read.
  destruct (Z.ltb_spec 0 (p_filesz h)), (Z.ltb_spec j (p_filesz h)); try lia.
  - destruct (Z.ltb_spec x (page_offset h + p_filesz h)); [|lia]. do 2 f_equal. lia.
  - by destruct (Z.ltb_spec x (page_offset h + p_filesz h)); [lia|].
  - by destruct (Z.ltb_spec x 0); [lia|].
Qed.

(** a small executable: one segment of 84 bytes of file and 5000 of memory, at 0x8048000 *)
Definition ex_elf : list Z :=
  [127; 69; 76; 70; 1; 1; 1; 0; 0; 0; 0; 0; 0; 0; 0; 0; 2; 0; 3; 0; 1; 0; 0; 0; 0x10; 0x80; 4; 8; 52; 0; 0; 0] ++
  [0; 0; 0; 0; 0; 0; 0; 0; 52; 0; 32; 0; 1; 0; 0; 0; 0; 0; 0; 0] ++
  [1; 0; 0; 0; 0; 0; 0; 0; 0; 0x80; 4; 8; 0; 0; 0; 0; 84; 0; 0; 0; 0x88; 0x13; 0; 0; 6; 0; 0; 0; 0; 16; 0; 0].

Definition ex_elf_inode : inode := mk_inode 1 1 false 0 2 84.
Definition ex_elf_fs : fstate :=
  mk_fstate [replicate 512 0; replicate 512 0; ex_elf ++ replicate 428 0] {[ 10 := ex_elf_inode ]} [10]
    {[ 20 := mk_file 10 0 true ]} (mk_bitmap 0 []) 0 30 [].

Lemma ex_elf_opened : opened ex_elf_fs 20 ex_elf_inode 0.
Proof.
  split; simpl; try lia; try done; [by exists (mk_file 10 0 true)|].
  split; simpl; try lia; try done. repeat constructor.
Qed.

Lemma load_safe_witness : ∃ t' s', load_executable ∅ 20 ex_elf_fs = Ok (Some 0x8048010, t', s') ∧ user_table t' ∧
  is_Some (t' !! 0x8049000).
Proof.
  destruct (load_safe ∅ ex_elf_fs 20 ex_elf_inode 0 ex_elf_opened) as (eip & t' & s' & E & Hu & _).
  - intros a e H. rewrite lookup_empty in H. discriminate.
  - exists t', s'. assert (Ee : match load_executable ∅ 20 ex_elf_fs with
      | Ok (eip, t, _) => bool_decide (eip = Some 0x8048010) && bool_decide (is_Some (t !! 0x8049000)) | Err _ => false end = true)
      by (vm_compute; reflexivity).
    rewrite E in Ee. apply andb_prop in Ee as [H1 H2]. apply bool_decide_eq_true in H1, H2. subst eip. exact (conj E (conj Hu H2)).
Defined.

Lemma segment_image_witness : ∃ t' s', load_header ∅ 20 (decode_phdr (drop 52 ex_elf)) ex_elf_fs = Ok (true, t', s') ∧
  image_byte t' ex_elf (0x8048000 + 1) = Some 69 ∧ image_byte t' ex_elf (0x8048000 + 4999) = Some 0.
Proof.
  assert (Ec : ex_elf = content ex_elf_fs.(disk) ex_elf_inode) by (vm_compute; reflexivity).
  destruct (segment_image ∅ ex_elf_fs 20 ex_elf_inode 0 (decode_phdr (drop 52 ex_elf)) ex_elf ex_elf_opened) as (t' & s' & E & Hi).
  - apply decode_phdr_range.
  - apply validate_spec; [apply decode_phdr_range|simpl; lia|vm_compute; reflexivity].
  - exact Ec.
  - vm_compute. congruence.
  - intros a _. apply lookup_empty.
  - exists t', s'. split; [exact E|]. split; [exact (Hi 1 ltac:(vm_compute; split; congruence))|].
    exact (Hi 4999 ltac:(vm_compute; split; congruence)).
Defined.
