(* ===== verification/Fsutil.v ===== *)
(** filesys/fsutil.c: the actions of the kernel's command line on files.

    The state is the file system, the scratch device with its sectors, and the two
    positions on it that [fsutil_extract] and [fsutil_append] keep.  A [PANIC] is an
    [AssertFail].  What is printed is left out; [fsutil_ls] and [fsutil_cat] return what
    they print from the file system. *)

From Stdlib Require Import String.
From S2P Require Import Prelude Bitmap Stdio Inode Ustar Filesys Elf.

(** [scratch]: the sectors of the scratch device, if there is one; [x_sector] and
    [a_sector]: the variables [sector] of [fsutil_extract] and [fsutil_append] *)
Record fsu := mk_fsu { ufs : fstate; scratch : option (list (list Z)); x_sector : Z; a_sector : Z }.

Abbreviation U := (M fsu).

Definition in_filesys {A} (x : F A) : U A := λ s,
  match x s.(ufs) with Ok (a, f) => Ok (a, mk_fsu f s.(scratch) s.(x_sector) s.(a_sector)) | Err e => Err e end.

(** [block_get_role (BLOCK_SCRATCH)], which must be there *)
Definition open_scratch : U (list (list Z)) := s ← get; match s.(scratch) with Some d => mret d | None => fail AssertFail end.

(** [block_read] and [block_write] on the scratch device *)
Definition scratch_read (sec : Z) : U (list Z) :=
  d ← open_scratch; match d !! Z.to_nat sec with Some l => mret l | None => fail AssertFail end.
Definition scratch_write (sec : Z) (l : list Z) : U unit :=
  d ← open_scratch;
  assert (sec <? Z.of_nat (length d));;
  modify (λ s, mk_fsu s.(ufs) (Some (<[Z.to_nat sec := l]> d)) s.(x_sector) s.(a_sector)).

(** [sector++] *)
Definition next_x : U Z := s ← get; put (mk_fsu s.(ufs) s.(scratch) (u32 (s.(x_sector) + 1)) s.(a_sector));; mret s.(x_sector).
Definition next_a : U Z := s ← get; put (mk_fsu s.(ufs) s.(scratch) s.(x_sector) (u32 (s.(a_sector) + 1)));; mret s.(a_sector).

Definition chunk_size (size : Z) : Z := if size >? 512 then 512 else size.

(** the turns of a loop that goes through [size] bytes by sectors *)
Definition sector_turns (size : Z) : nat := Z.to_nat ((size + 511) / 512).

Section fsutil.
(** what the stack holds before a directory entry is read, as in Filesys.v *)
Context (junk : Filesys.entry).

Definition fsutil_rm (name : list Z) : U unit := ok ← in_filesys (filesys_remove junk name); assert ok.

(** ** Copying a file to the scratch device *)

(** the copy; [n]: the turns left *)
Fixpoint append_loop (n : nat) (src size : Z) : U unit :=
  if negb (0 <? size) then mret tt else
  match n with
  | O => fail NoFuel
  | S n =>
      let c := chunk_size size in
      d ← open_scratch; s ← get;
      assert (s.(a_sector) <? Z.of_nat (length d));;
      l ← in_filesys (file_read src c);
      assert (Z.of_nat (length l) =? c);;
      sec ← next_a; scratch_write sec (l ++ replicate (Z.to_nat (512 - c)) 0);;
      append_loop n src (size - c)
  end.

(** [past]: the byte behind the buffer *)
Definition fsutil_append (past : Z) (name : list Z) : U unit :=
  buffer ← in_filesys alloc;
  assert (negb (buffer =? 0));;
  src ← in_filesys (filesys_open junk name);
  assert (negb (src =? 0));;
  size ← in_filesys (file_length src);
  open_scratch;;
  h ← lift_out (ustar_make_header name USTAR_REGULAR size);
  match h with
  | None => fail AssertFail
  | Some h =>
      sec ← next_a; scratch_write sec h;;
      append_loop (sector_turns size) src size;;
      s ← get;
      scratch_write s.(a_sector) (replicate 512 0);;
      scratch_write s.(a_sector) (replicate 511 0 ++ [past]);;
      in_filesys (file_close src)
  end.

(** ** Copying the scratch device's archive to files *)

Fixpoint copy_loop (n : nat) (dst size : Z) : U unit :=
  if negb (0 <? size) then mret tt else
  match n with
  | O => fail NoFuel
  | S n =>
      let c := chunk_size size in
      sec ← next_x; data ← scratch_read sec;
      w ← in_filesys (file_write dst (take (Z.to_nat c) data) c);
      assert (w =? c);;
      copy_loop n dst (size - c)
  end.

(** one turn of the loop over the headers; [false]: the end of the archive *)
Definition extract_entry : U bool :=
  sec ← next_x; header ← scratch_read sec;
  r ← lift_out (ustar_parse_header header);
  match r with
  | inl error => fail AssertFail
  | inr (_, USTAR_EOF, _) => mret false
  | inr (_, USTAR_DIRECTORY, _) => mret true
  | inr (Some name, USTAR_REGULAR, size) =>
      ok ← in_filesys (filesys_create junk name size); assert ok;;
      dst ← in_filesys (filesys_open junk name); assert (negb (dst =? 0));;
      copy_loop (sector_turns size) dst size;;
      in_filesys (file_close dst);; mret true
  | inr (None, USTAR_REGULAR, _) => fail Fault
  end.

(** every turn goes on to another sector, and behind the last one the loop panics *)
Fixpoint extract_loop (n : nat) : U unit :=
  match n with O => fail NoFuel | S n => more ← extract_entry; if (more : bool) then extract_loop n else mret tt end.

Definition fsutil_extract : U unit :=
  header ← in_filesys alloc; data ← in_filesys alloc;
  assert (negb ((header =? 0) || (data =? 0)));;
  d ← open_scratch;
  extract_loop (S (length d));;
  scratch_write 0 (replicate 512 0);; scratch_write 1 (replicate 512 0).
End fsutil.

(** ** Listing and printing *)

Fixpoint ls_loop (n : nat) (d : dir) : F (list (list Z)) :=
  match n with
  | O => fail NoFuel
  | S n => '(r, d) ← dir_readdir d; match r with None => mret [] | Some name => l ← ls_loop n d; mret (name :: l) end
  end.

(** the names printed; the directory stays open *)
Definition fsutil_ls : F (list (list Z)) :=
  d ← dir_open_root;
  match d with
  | None => fail AssertFail
  | Some d => len ← inode_length d.(dinode); ls_loop (entry_turns len) d
  end.

(** the blocks that are printed, with their positions *)
Fixpoint cat_loop (n : nat) (f : Z) : F (list (Z * list Z)) :=
  match n with
  | O => fail NoFuel
  | S n =>
      pos ← file_tell f; l ← file_read f 4096;
      if Z.of_nat (length l) =? 0 then mret [] else r ← cat_loop n f; mret ((pos, l) :: r)
  end.

Definition fsutil_cat (junk : Filesys.entry) (name : list Z) : F (list (Z * list Z)) :=
  f ← filesys_open junk name;
  assert (negb (f =? 0));;
  len ← file_length f;
  l ← cat_loop (Z.to_nat (len / 4096) + 2) f; file_close f;; mret l.

(** * Sectors of a file *)

(** [bl] in place of the sectors of [d] from [a] on *)
Definition put_at (a : nat) (bl d : list (list Z)) : list (list Z) := take a d ++ bl ++ drop (a + length bl) d.

Lemma put_at_nil a d : put_at a [] d = d.
Proof. unfold put_at. cbn. by rewrite Nat.add_0_r, take_drop. Qed.

Lemma put_at_cons a b bl d : (a < length d)%nat → put_at (S a) bl (<[a := b]> d) = put_at a (b :: bl) d.
Proof.
  intros Ha. unfold put_at. rewrite (take_S_r _ _ b) by (by apply list_lookup_insert_eq). rewrite take_insert_ge, drop_insert_lt by lia.
  rewrite <- app_assoc. cbn [app length]. by rewrite Nat.add_succ_r.
Qed.

(** [n] sectors with the bytes of [c] *)
Fixpoint blocks (n : nat) (c : list Z) : list (list Z) :=
  match n with O => [] | S n => (take 512 c ++ replicate (512 - length c) 0) :: blocks n (drop 512 c) end.

Lemma length_blocks n c : length (blocks n c) = n.
Proof. revert c. induction n as [|n IH]; intros c; [done|]. cbn [blocks length]. by rewrite IH. Qed.

Lemma sector_turns_step size : 0 < size → ∃ n, sector_turns size = S n ∧ sector_turns (size - chunk_size size) = n.
Proof.
  intros Hs. unfold chunk_size, sector_turns. destruct (Z.gtb_spec size 512).
  - exists (Z.to_nat ((size - 512 + 511) / 512)). split; [|done]. replace (size + 511) with (size - 512 + 511 + 1 * 512) by lia.
    rewrite Z.div_add by lia. pose proof (Z.div_pos (size - 512 + 511) 512). lia.
  - exists 0%nat. rewrite Z.sub_diag. split; [|done]. replace ((size + 511) / 512) with 1; [done|].
    apply (Z.div_unique _ _ _ (size - 1)); lia.
Qed.

Lemma in_filesys_eq {A} (x : F A) s a f : x s.(ufs) = Ok (a, f) → in_filesys x s = Ok (a, mk_fsu f s.(scratch) s.(x_sector) s.(a_sector)).
Proof. intros H. unfold in_filesys. by rewrite H. Qed.

Lemma open_scratch_eq s d : s.(scratch) = Some d → open_scratch s = Ok (d, s).
Proof. intros H. unfold open_scratch. rewrite (bind_ok get _ s s s) by done. by rewrite H. Qed.

Lemma scratch_write_eq f d x a sec l : 0 ≤ sec < Z.of_nat (length d) →
  scratch_write sec l (mk_fsu f (Some d) x a) = Ok (tt, mk_fsu f (Some (<[Z.to_nat sec := l]> d)) x a).
Proof.
  intros H. unfold scratch_write. rewrite (bind_ok _ _ _ _ _ (open_scratch_eq (mk_fsu f (Some d) x a) d eq_refl)).
  rewrite assert_bind by (apply Z.ltb_lt; lia). done.
Qed.

Lemma chunk_range size : 0 < size → 0 < chunk_size size ≤ 512 ∧ chunk_size size ≤ size ∧ (chunk_size size = size ∨ chunk_size size = 512).
Proof. intros H. unfold chunk_size. destruct (Z.gtb_spec size 512); lia. Qed.

(** a sector of the archive *)
Lemma block_of (c : list Z) p size : 0 < size → 0 ≤ p → Z.of_nat (length c) = p + size →
  let b := take (Z.to_nat (chunk_size size)) (drop (Z.to_nat p) c) in
  Z.of_nat (length b) = chunk_size size ∧
  b ++ replicate (Z.to_nat (512 - chunk_size size)) 0 = take 512 (drop (Z.to_nat p) c) ++ replicate (512 - length (drop (Z.to_nat p) c)) 0 ∧
  drop (Z.to_nat (p + chunk_size size)) c = drop 512 (drop (Z.to_nat p) c).
Proof.
  intros Hs Hp Hc b. pose proof (chunk_range size Hs) as (H1 & H2 & H3). assert (Hd : length (drop (Z.to_nat p) c) = Z.to_nat size) by (rewrite length_drop; lia).
  split; [unfold b; rewrite length_take, Hd; lia|]. rewrite Hd. destruct H3 as [E|E].
  - assert (b = take 512 (drop (Z.to_nat p) c)) as -> by (unfold b; rewrite !take_ge by lia; done). split; [do 2 f_equal; lia|].
    rewrite drop_drop, !drop_ge by lia. done.
  - unfold b. rewrite E. split; [do 2 f_equal; lia|]. rewrite drop_drop. f_equal. lia.
Qed.

Lemma append_loop_spec n f d x a src i p size c : opened f src i p → c = content f.(disk) i → 0 ≤ size → i.(ilength) = p + size →
  (sector_turns size ≤ n)%nat → 0 ≤ a → a + Z.of_nat (sector_turns size) ≤ Z.of_nat (length d) → Z.of_nat (length d) < 2 ^ 32 →
  ∃ f', append_loop n src size (mk_fsu f (Some d) x a) =
    Ok (tt, mk_fsu f' (Some (put_at (Z.to_nat a) (blocks (sector_turns size) (drop (Z.to_nat p) c)) d)) x (a + Z.of_nat (sector_turns size))) ∧
    opened f' src i (p + size) ∧ f'.(disk) = f.(disk).
Proof.
  revert f d a p size. induction n as [|n IH]; intros f d a p size Hop -> Hs Hl Hn Ha Hr Hd.
  - assert (size = 0) as ->. { destruct (decide (0 < size)) as [H|]; [|lia]. destruct (sector_turns_step size H) as (k & Hk & _). lia. }
    exists f. cbn [append_loop Z.ltb Z.compare negb sector_turns blocks]. change (sector_turns 0) with 0%nat. cbn [blocks].
    rewrite put_at_nil, Z.add_0_r. split; [done|]. by rewrite Z.add_0_r.
  - destruct (decide (0 < size)) as [H|].
    2: { assert (size = 0) as -> by lia. exists f. change (sector_turns 0) with 0%nat. cbn [append_loop Z.ltb Z.compare negb blocks].
         rewrite put_at_nil, !Z.add_0_r. done. }
    destruct (sector_turns_step size H) as (k & Hk & Hk'). pose proof (chunk_range size H) as (Hc1 & Hc2 & _).
    pose proof (op_pos _ _ _ _ Hop) as Hp. pose proof (length_content _ _ (op_fits _ _ _ _ Hop)) as Hlc.
    destruct (block_of (content f.(disk) i) p size H Hp ltac:(lia)) as (Hb1 & Hb2 & Hb3).
    cbn [append_loop]. rewrite (proj2 (Z.ltb_lt _ _) H). cbn [negb]. cbv zeta.
    rewrite (bind_ok _ _ _ _ _ (open_scratch_eq (mk_fsu f (Some d) x a) d eq_refl)). erewrite bind_ok by reflexivity. cbn [a_sector].
    rewrite assert_bind by (apply Z.ltb_lt; lia).
    destruct (file_read_pos f src i p (chunk_size size) Hop ltac:(lia)) as (f1 & E1 & Hop1 & Hd1). rewrite Hb1 in Hop1.
    rewrite (bind_ok _ _ _ _ _ (in_filesys_eq _ (mk_fsu f (Some d) x a) _ _ E1)). rewrite assert_bind by (by apply Z.eqb_eq). cbn [scratch x_sector a_sector].
    erewrite bind_ok by reflexivity. cbn [ufs scratch x_sector a_sector]. rewrite u32_small by lia.
    rewrite (bind_ok _ _ _ _ _ (scratch_write_eq f1 d x (a + 1) a _ ltac:(lia))). rewrite Hb2.
    destruct (IH f1 (<[Z.to_nat a := take 512 (drop (Z.to_nat p) (content f.(disk) i)) ++ replicate (512 - length (drop (Z.to_nat p) (content f.(disk) i))) 0]> d)
      (a + 1) (p + chunk_size size) (size - chunk_size size)) as (f' & E' & Hop' & Hd'); rewrite ?length_insert, ?Hd1; try (done || lia).
    + exists f'. rewrite Hk' in E'. rewrite E', Hk. cbn [blocks]. rewrite <- Hb3.
      replace (Z.to_nat (a + 1)) with (S (Z.to_nat a)) by lia. rewrite put_at_cons by lia. split; [do 3 f_equal; lia|].
      replace (p + size) with (p + chunk_size size + (size - chunk_size size)) by lia. split; [done|congruence].
Qed.

Lemma put_at_snoc a bl e d : (a + length bl < length d)%nat → <[(a + length bl)%nat := e]> (put_at a bl d) = put_at a (bl ++ [e]) d.
Proof.
  intros Ha. unfold put_at. assert (Hl : length (take a d) = a) by (rewrite length_take; lia).
  rewrite <- Hl at 1. rewrite insert_app_r. f_equal. rewrite <- (Nat.add_0_r (length bl)) at 1. rewrite insert_app_r, <- app_assoc. f_equal.
  rewrite length_app. cbn [length]. rewrite Nat.add_assoc, <- (drop_drop d 1 (a + length bl)).
  destruct (drop (a + length bl) d) as [|y r] eqn:E; [|done]. apply (f_equal length) in E. rewrite length_drop in E. simpl in E. lia.
Qed.

Lemma length_put_at a bl d : (a + length bl ≤ length d)%nat → length (put_at a bl d) = length d.
Proof. intros H. unfold put_at. rewrite !length_app, length_take, length_drop. lia. Qed.

Definition end_mark (past : Z) : list Z := replicate 511 0 ++ [past].

(** the file system after an allocation *)
Definition allocated (f : fstate) : fstate := set_heap (f.(next_ptr) + 1) [] f.

Lemma fsutil_append_eq junk past name f0 f1 d x a src i h : f0.(allocs) = [] → 0 < f0.(next_ptr) →
  filesys_open junk name (allocated f0) = Ok (src, f1) → src ≠ 0 → opened f1 src i 0 → ustar_make_header name USTAR_REGULAR i.(ilength) = Ok (Some h) →
  0 ≤ a → a + 1 + Z.of_nat (sector_turns i.(ilength)) < Z.of_nat (length d) → Z.of_nat (length d) < 2 ^ 32 →
  ∃ f', opened f' src i i.(ilength) ∧ f'.(disk) = f1.(disk) ∧
    fsutil_append junk past name (mk_fsu f0 (Some d) x a) =
    in_filesys (file_close src) (mk_fsu f' (Some (put_at (Z.to_nat a) (h :: blocks (sector_turns i.(ilength)) (content f1.(disk) i) ++ [end_mark past]) d)) x
      (a + 1 + Z.of_nat (sector_turns i.(ilength)))).
Proof.
  intros Hal Hnp Eo Hsrc Hop Eh Ha Hr Hd. set (n := sector_turns i.(ilength)) in *. unfold fsutil_append.
  rewrite (bind_ok _ _ _ _ _ (in_filesys_eq _ (mk_fsu f0 (Some d) x a) _ _ (alloc_eq f0 Hal))). rewrite assert_bind by (apply negb_true_iff, Z.eqb_neq; lia).
  cbn [scratch x_sector a_sector]. fold (allocated f0). rewrite (bind_ok _ _ _ _ _ (in_filesys_eq _ (mk_fsu (allocated f0) (Some d) x a) _ _ Eo)).
  rewrite assert_bind by (by apply negb_true_iff, Z.eqb_neq). cbn [scratch x_sector a_sector].
  rewrite (bind_ok _ _ _ _ _ (in_filesys_eq _ (mk_fsu f1 (Some d) x a) _ _ (file_length_eq f1 src i 0 Hop))). cbn [scratch x_sector a_sector].
  rewrite (bind_ok _ _ _ _ _ (open_scratch_eq (mk_fsu f1 (Some d) x a) d eq_refl)), (bind_ok _ _ _ _ _ (lift_out_eq _ _ (mk_fsu f1 (Some d) x a) Eh)).
  erewrite bind_ok by reflexivity. cbn [ufs scratch x_sector a_sector]. rewrite u32_small by lia.
  rewrite (bind_ok _ _ _ _ _ (scratch_write_eq f1 d x (a + 1) a h ltac:(lia))).
  pose proof (fit_len _ _ (op_fits _ _ _ _ Hop)) as Hl0.
  destruct (append_loop_spec n f1 (<[Z.to_nat a := h]> d) x (a + 1) src i 0 i.(ilength) _ Hop eq_refl Hl0 eq_refl ltac:(unfold n; lia))
    as (f' & El & Hop' & Hd'); rewrite ?length_insert; fold n; [lia|lia|lia|].
  fold n in El. replace (Z.to_nat (a + 1)) with (S (Z.to_nat a)) in El by lia. rewrite put_at_cons, drop_0 in El by lia.
  set (bl := blocks n (content f1.(disk) i)) in *. pose proof (length_blocks n (content f1.(disk) i)) as Hbl. fold bl in Hbl.
  rewrite (bind_ok _ _ _ _ _ El). erewrite bind_ok by reflexivity. cbn [a_sector].
  assert (Hlp : length (put_at (Z.to_nat a) (h :: bl) d) = length d) by (apply length_put_at; cbn [length]; lia).
  rewrite (bind_ok _ _ _ _ _ (scratch_write_eq f' (put_at (Z.to_nat a) (h :: bl) d) x (a + 1 + Z.of_nat n) (a + 1 + Z.of_nat n) (replicate 512 0) ltac:(lia))).
  rewrite (bind_ok _ _ _ _ _ (scratch_write_eq f' (<[Z.to_nat (a + 1 + Z.of_nat n) := replicate 512 0]> (put_at (Z.to_nat a) (h :: bl) d)) x (a + 1 + Z.of_nat n) (a + 1 + Z.of_nat n) _ ltac:(rewrite length_insert; lia))).
  rewrite list_insert_insert_eq. replace (Z.to_nat (a + 1 + Z.of_nat n)) with (Z.to_nat a + length (h :: bl))%nat by (cbn [length]; lia).
  rewrite put_at_snoc by (cbn [length]; lia). exists f'. done.
Qed.

(** * Extracting *)

(** [f'] is [f] with the bytes [data] written into the inode [i] from [p] on; other inodes keep theirs *)
Definition stored (f f' : fstate) (i : inode) (p : Z) (data : list Z) : Prop :=
  content f'.(disk) i = over (Z.to_nat p) data (content f.(disk) i) ∧
  ∀ j, fits f.(disk) j → apart i j → fits f'.(disk) j ∧ content f'.(disk) j = content f.(disk) j.

Lemma file_write_pos f fp i p buf : opened f fp i p → i.(deny_write_cnt) = 0 → p + Z.of_nat (length buf) ≤ i.(ilength) →
  ∃ f', file_write fp buf (Z.of_nat (length buf)) f = Ok (Z.of_nat (length buf), f') ∧ opened f' fp i (p + Z.of_nat (length buf)) ∧ stored f f' i p buf.
Proof.
  intros [(x & Hx & Hi & Hp) Hp0 Hf Hl Ha Hn] Hd Hb. unfold file_write.
  rewrite (bind_ok _ _ f x f) by (unfold get_file; erewrite bind_ok by done; by rewrite Hx).
  destruct (inode_write_at_eq f (finode x) i buf (pos x) Hi Hf Ha Hn Hd ltac:(lia)) as (f1 & E & [(d & k & Hk & ->) Hwl Hwf Hwc Hwa]).
  assert (Hav : avail i (Z.of_nat (length buf)) (pos x) = Z.of_nat (length buf)) by (unfold avail; lia). rewrite Hav, Nat2Z.id, firstn_all in *.
  rewrite (bind_ok _ _ _ _ _ E), Hp in *. eexists. split; [done|]. split.
  - split; try (done || lia). simpl. eexists. by rewrite lookup_insert_eq.
  - split; [exact Hwc|]. intros j Hj Hap. split; [|by apply Hwa]. apply (fits_same _ _ _ Hj); [apply Hwf|exact Hwl].
Qed.

Lemma stored_trans f f1 f2 i p l1 l2 : stored f f1 i p l1 → stored f1 f2 i (p + Z.of_nat (length l1)) l2 → 0 ≤ p →
  (Z.to_nat p ≤ length (content f.(disk) i))%nat → stored f f2 i p (l1 ++ l2).
Proof.
  intros [E1 H1] [E2 H2] Hp Hl. split.
  - rewrite E2, E1, Z2Nat.inj_add, Nat2Z.id by lia. by apply over_over.
  - intros j Hj Ha. destruct (H1 j Hj Ha) as [Hf1 Hc1]. destruct (H2 j Hf1 Ha) as [Hf2 Hc2]. split; [done|congruence].
Qed.

Lemma stored_nil f i p : stored f f i p [].
Proof. split; [by rewrite over_nil|]. done. Qed.

(** the data of the next turn *)
Lemma chunk_of (c : list Z) : 0 < Z.of_nat (length c) →
  let k := chunk_size (Z.of_nat (length c)) in
  take (Z.to_nat k) (take 512 c ++ replicate (512 - length c) 0) = take (Z.to_nat k) c ∧
  Z.of_nat (length (take (Z.to_nat k) c)) = k ∧ drop (Z.to_nat k) c = drop 512 c ∧ Z.of_nat (length (drop (Z.to_nat k) c)) = Z.of_nat (length c) - k.
Proof.
  intros H k. pose proof (chunk_range _ H) as (H1 & H2 & H3). fold k in H1, H2, H3. split_and!.
  - rewrite take_app_le by (rewrite length_take; lia). rewrite take_take. f_equal. lia.
  - rewrite length_take. lia.
  - destruct H3 as [E|E]; [rewrite !drop_ge by lia; done|by rewrite E].
  - rewrite length_drop. lia.
Qed.

Lemma copy_loop_spec n f d x a dst i p c : opened f dst i p → i.(deny_write_cnt) = 0 → i.(ilength) = p + Z.of_nat (length c) →
  (sector_turns (Z.of_nat (length c)) ≤ n)%nat → 0 ≤ x → x + Z.of_nat (sector_turns (Z.of_nat (length c))) < 2 ^ 32 →
  (∀ k b, blocks (sector_turns (Z.of_nat (length c))) c !! k = Some b → d !! (Z.to_nat x + k)%nat = Some b) →
  ∃ f', copy_loop n dst (Z.of_nat (length c)) (mk_fsu f (Some d) x a) = Ok (tt, mk_fsu f' (Some d) (x + Z.of_nat (sector_turns (Z.of_nat (length c)))) a) ∧
    opened f' dst i i.(ilength) ∧ stored f f' i p c.
Proof.
  revert f x p c. induction n as [|n IH]; intros f x p c Hop Hdeny Hl Hn Hx Hx' Hb.
  - assert (length c = 0%nat) as Hc. { destruct (decide (0 < Z.of_nat (length c))) as [H|]; [|lia]. destruct (sector_turns_step _ H) as (k & Hk & _). lia. }
    destruct c; [|done]. exists f. cbn. rewrite Z.add_0_r. split; [done|]. split; [|apply stored_nil]. cbn in Hl. rewrite Z.add_0_r in Hl. by rewrite Hl.
  - destruct (decide (0 < Z.of_nat (length c))) as [H|].
    2: { destruct c; [|cbn [length] in *; lia]. exists f. cbn. rewrite Z.add_0_r. split; [done|]. split; [|apply stored_nil]. cbn in Hl. rewrite Z.add_0_r in Hl. by rewrite Hl. }
    destruct (sector_turns_step _ H) as (k & Hk & Hk'). destruct (chunk_of c H) as (Hc1 & Hc2 & Hc3 & Hc4).
    set (m := chunk_size (Z.of_nat (length c))) in *. pose proof (chunk_range _ H) as (Hm1 & Hm2 & _). fold m in Hm1, Hm2.
    rewrite Hk in *. cbn [blocks] in Hb. cbn [copy_loop]. rewrite (proj2 (Z.ltb_lt _ _) H). cbn [negb]. cbv zeta. fold m.
    erewrite bind_ok by reflexivity. cbn [ufs scratch x_sector a_sector]. rewrite u32_small by lia.
    unfold scratch_read at 1. rewrite bind_assoc. rewrite (bind_ok _ _ _ _ _ (open_scratch_eq (mk_fsu f (Some d) (x + 1) a) d eq_refl)).
    pose proof (Hb 0%nat _ eq_refl) as Hb0. rewrite Nat.add_0_r in Hb0. rewrite Hb0. erewrite bind_ok by reflexivity. rewrite Hc1.
    destruct (file_write_pos f dst i p (take (Z.to_nat m) c) Hop Hdeny) as (f1 & E1 & Hop1 & Hs1); [lia|]. rewrite Hc2 in *.
    rewrite (bind_ok _ _ _ _ _ (in_filesys_eq _ (mk_fsu f (Some d) (x + 1) a) _ _ E1)). rewrite assert_bind by (by apply Z.eqb_eq). cbn [scratch x_sector a_sector].
    rewrite <- Hc4 in *. destruct (IH f1 (x + 1) (p + m) (drop (Z.to_nat m) c) Hop1 Hdeny) as (f' & E' & Hop' & Hs'); rewrite ?Hk'; try lia.
    + intros j b Hj. rewrite Hc3 in Hj. replace (Z.to_nat (x + 1) + j)%nat with (Z.to_nat x + S j)%nat by lia. by apply Hb.
    + exists f'. rewrite E', Hk'. split; [do 3 f_equal; lia|]. split; [done|]. rewrite <- (take_drop (Z.to_nat m) c).
      apply (stored_trans f f1); [done|by rewrite Hc2|apply Hop|]. rewrite (length_content _ _ (op_fits _ _ _ _ Hop)). lia.
Qed.

Lemma extract_entry_eq junk g g1 g2 d x a h name c dst j : d !! Z.to_nat x = Some h → 0 ≤ x → x + 1 + Z.of_nat (sector_turns (Z.of_nat (length c))) < 2 ^ 32 →
  ustar_parse_header h = Ok (inr (Some name, USTAR_REGULAR, Z.of_nat (length c))) →
  filesys_create junk name (Z.of_nat (length c)) g = Ok (true, g1) → filesys_open junk name g1 = Ok (dst, g2) → dst ≠ 0 →
  opened g2 dst j 0 → j.(deny_write_cnt) = 0 → j.(ilength) = Z.of_nat (length c) →
  (∀ k b, blocks (sector_turns (Z.of_nat (length c))) c !! k = Some b → d !! (S (Z.to_nat x) + k)%nat = Some b) →
  ∃ g3, extract_entry junk (mk_fsu g (Some d) x a) =
      (in_filesys (file_close dst);; mret true) (mk_fsu g3 (Some d) (x + 1 + Z.of_nat (sector_turns (Z.of_nat (length c)))) a) ∧
    opened g3 dst j j.(ilength) ∧ stored g2 g3 j 0 c.
Proof.
  intros Hh Hx Hx' Ep Ec Eo Hdst Hop Hd Hl Hb. unfold extract_entry. erewrite bind_ok by reflexivity. cbn [ufs scratch x_sector a_sector]. rewrite u32_small by lia.
  unfold scratch_read at 1. rewrite bind_assoc, (bind_ok _ _ _ _ _ (open_scratch_eq (mk_fsu g (Some d) (x + 1) a) d eq_refl)), Hh.
  erewrite bind_ok by reflexivity. rewrite (bind_ok _ _ _ _ _ (lift_out_eq _ _ (mk_fsu g (Some d) (x + 1) a) Ep)).
  rewrite (bind_ok _ _ _ _ _ (in_filesys_eq _ (mk_fsu g (Some d) (x + 1) a) _ _ Ec)). rewrite assert_bind by done. cbn [scratch x_sector a_sector].
  rewrite (bind_ok _ _ _ _ _ (in_filesys_eq _ (mk_fsu g1 (Some d) (x + 1) a) _ _ Eo)). rewrite assert_bind by (by apply negb_true_iff, Z.eqb_neq).
  cbn [scratch x_sector a_sector].
  destruct (copy_loop_spec (sector_turns (Z.of_nat (length c))) g2 d (x + 1) a dst j 0 c Hop Hd Hl) as (g3 & El & Hop3 & Hs3); [done|lia|lia| |].
  - intros k b Hk. replace (Z.to_nat (x + 1)) with (S (Z.to_nat x)) by lia. by apply Hb.
  - exists g3. rewrite (bind_ok _ _ _ _ _ El). done.
Qed.

(** the mark that [fsutil_append] leaves behind the file *)
Lemma extract_end junk g d x a past : d !! Z.to_nat x = Some (end_mark past) → 0 ≤ x < 2 ^ 32 - 1 →
  extract_entry junk (mk_fsu g (Some d) x a) = if past =? 0 then Ok (false, mk_fsu g (Some d) (x + 1) a) else Err AssertFail.
Proof.
  intros Hd Hx. unfold extract_entry. erewrite bind_ok by reflexivity. cbn [ufs scratch x_sector a_sector]. rewrite u32_small by lia.
  unfold scratch_read at 1. rewrite bind_assoc, (bind_ok _ _ _ _ _ (open_scratch_eq (mk_fsu g (Some d) (x + 1) a) d eq_refl)), Hd. erewrite bind_ok by reflexivity.
  assert (Ez : is_all_zeros (end_mark past) = (past =? 0)) by (unfold end_mark; cbn; by destruct (past =? 0)).
  unfold ustar_parse_header. rewrite Ez. destruct (past =? 0); [reflexivity|].
  assert (Em : bool_decide (field o_magic 6 (end_mark past) = lit "ustar") = false) by reflexivity. rewrite Em. reflexivity.
Qed.

Lemma put_at_lookup a bl d k b : bl !! k = Some b → (a ≤ length d)%nat → put_at a bl d !! (a + k)%nat = Some b.
Proof.
  intros Hk Ha. unfold put_at. rewrite lookup_app_r by (rewrite length_take; lia). rewrite length_take, Nat.min_l by lia.
  replace (a + k - a)%nat with k by lia. rewrite lookup_app_l; [done|]. by eapply lookup_lt_Some.
Qed.

(** C22. [fsutil_append] and [fsutil_extract] are inverse to each other: the file that
    [fsutil_append] copies to the scratch device is what a turn of [fsutil_extract] there
    creates and fills with the same bytes, leaving other files alone.  [fsutil_append] writes
    a single sector to mark the end, the last byte of which is the one behind its buffer;
    only if that is 0 does [fsutil_extract] take it for the end, else it panics. *)
Theorem tar_roundtrip junk past name f0 f1 d x a src i : f0.(allocs) = [] → 0 < f0.(next_ptr) →
  filesys_open junk name (allocated f0) = Ok (src, f1) → src ≠ 0 → opened f1 src i 0 →
  tame name → (length name ≤ 99)%nat → (∀ c, c ∈ name → 0 < c < 256) →
  0 ≤ a → a + 1 + Z.of_nat (sector_turns i.(ilength)) < Z.of_nat (length d) → Z.of_nat (length d) < 2 ^ 32 - 1 →
  ∃ f' d', let a' := a + 1 + Z.of_nat (sector_turns i.(ilength)) in
    fsutil_append junk past name (mk_fsu f0 (Some d) x a) = in_filesys (file_close src) (mk_fsu f' (Some d') x a') ∧
    opened f' src i i.(ilength) ∧ f'.(disk) = f1.(disk) ∧ length d' = length d ∧
    (∀ g g1 g2 dst j b, filesys_create junk name i.(ilength) g = Ok (true, g1) → filesys_open junk name g1 = Ok (dst, g2) → dst ≠ 0 →
       opened g2 dst j 0 → j.(deny_write_cnt) = 0 → j.(ilength) = i.(ilength) →
       ∃ g3, extract_entry junk (mk_fsu g (Some d') a b) = (in_filesys (file_close dst);; mret true) (mk_fsu g3 (Some d') a' b) ∧
         content g3.(disk) j = content f1.(disk) i ∧
         ∀ k, fits g2.(disk) k → apart j k → content g3.(disk) k = content g2.(disk) k) ∧
    ∀ g b, extract_entry junk (mk_fsu g (Some d') a' b) = if past =? 0 then Ok (false, mk_fsu g (Some d') (a' + 1) b) else Err AssertFail.
Proof.
  intros Hal Hnp Eo Hsrc Hop Htame Hlen Hbytes Ha Hr Hd. pose proof (op_fits _ _ _ _ Hop) as Hfit.
  destruct (make_parse name USTAR_REGULAR i.(ilength) Htame Hlen Hbytes ltac:(done)) as (h & Eh & _ & Ep); [split; [apply Hfit|apply Hop]|].
  destruct (fsutil_append_eq junk past name f0 f1 d x a src i h Hal Hnp Eo Hsrc Hop Eh Ha Hr ltac:(lia)) as (f' & Hop' & Hd' & E).
  set (c := content f1.(disk) i) in *. assert (Hc : Z.of_nat (length c) = i.(ilength)) by (unfold c; rewrite length_content by done; pose proof (fit_len _ _ Hfit); lia).
  set (n := sector_turns i.(ilength)) in *. pose proof (length_blocks n c) as Hbl.
  assert (Hn : sector_turns (Z.of_nat (length c)) = n) by (by rewrite Hc). set (arch := h :: blocks n c ++ [end_mark past]) in *.
  assert (Harch : length arch = (n + 2)%nat) by (unfold arch; cbn [length]; rewrite length_app; cbn [length]; lia).
  exists f', (put_at (Z.to_nat a) arch d). cbv zeta. split; [exact E|]. split; [done|]. split; [done|]. split; [apply length_put_at; lia|]. split.
  - intros g g1 g2 dst j b Ec Eop Hdst Hopj Hdj Hlj. rewrite <- Hc in Ec, Ep, Hlj.
    destruct (extract_entry_eq junk g g1 g2 (put_at (Z.to_nat a) arch d) a b h name c dst j) as (g3 & Ex & _ & Hst1 & Hst2); rewrite ?Hn; try (done || lia).
    + pose proof (put_at_lookup (Z.to_nat a) arch d 0 h eq_refl ltac:(lia)) as H0. by rewrite Nat.add_0_r in H0.
    + intros k bb Hk. replace (S (Z.to_nat a) + k)%nat with (Z.to_nat a + S k)%nat by lia. apply put_at_lookup; [|lia].
      cbn. by apply lookup_app_l_Some.
    + rewrite Hn in Ex. exists g3. split; [exact Ex|]. split; [|intros k Hk Hak; by apply Hst2]. rewrite Hst1. unfold over. change (Z.to_nat 0) with 0%nat.
      rewrite take_0, app_nil_l, drop_ge, app_nil_r; [done|]. rewrite length_content by apply Hopj. lia.
  - intros g b. apply extract_end; [|lia]. replace (Z.to_nat (a + 1 + Z.of_nat n)) with (Z.to_nat a + S n)%nat by lia. apply put_at_lookup; [|lia].
    change (arch !! S n) with ((blocks n c ++ [end_mark past]) !! n). rewrite lookup_app_r by lia. by rewrite Hbl, Nat.sub_diag.
Qed.

(** a file of 700 bytes, and a file system that is empty *)
Definition ex_junk : Filesys.entry := replicate 20 0.
Definition ex_name : list Z := [97; 98].
Definition ex_data : list Z := (λ i, Z.of_nat i mod 251) <$> seq 0 700.
Definition ex_empty : outcome (unit * fstate) :=
  filesys_init true (λ _, 0) (mk_fstate (replicate 10 (replicate 512 0)) ∅ [] ∅ (mk_bitmap 0 []) 0 100 []).
Definition ex_src : outcome (unit * fstate) :=
  ( filesys_init true (λ _, 0);; filesys_create ex_junk ex_name 700;; f ← filesys_open ex_junk ex_name; file_write f ex_data 700;; file_close f)
  (mk_fstate (replicate 10 (replicate 512 0)) ∅ [] ∅ (mk_bitmap 0 []) 0 100 []).
Definition ex_st (o : outcome (unit * fstate)) : fstate := match o with Ok (_, f) => f | Err _ => mk_fstate [] ∅ [] ∅ (mk_bitmap 0 []) 0 0 [] end.

Definition opened_at (f : fstate) (src : Z) : option inode := match f.(files) !! src with Some x => if x.(pos) =? 0 then f.(inodes) !! x.(finode) else None | None => None end.

Definition openable (f : fstate) (src len : Z) : bool :=
  match opened_at f src with
  | Some i => (i.(ilength) =? len) && (i.(deny_write_cnt) =? 0) && (0 <=? i.(start)) && (512 * i.(start) + i.(ilength) <=? 512 * Z.of_nat (length f.(disk))) &&
      forallb (λ l, (length l =? 512)%nat) f.(disk) && (Z.of_nat (length f.(disk)) <? 2 ^ 32) && bool_decide (f.(allocs) = []) && (0 <? f.(next_ptr))
  | None => false
  end.

Lemma openable_opened f src len : openable f src len = true → 0 ≤ len < 2 ^ 31 →
  ∃ i, opened f src i 0 ∧ i.(ilength) = len ∧ i.(deny_write_cnt) = 0.
Proof.
  unfold openable, opened_at. destruct (files f !! src) as [x|] eqn:Hx; [|done]. destruct (Z.eqb_spec (pos x) 0) as [Hp|]; [|done].
  destruct (inodes f !! finode x) as [i|] eqn:Hi; [|done]. rewrite !andb_true_iff, !Z.eqb_eq, !Z.leb_le, !Z.ltb_lt, bool_decide_eq_true.
  intros (((((((Hl & Hd) & Hs) & He) & Hf) & Hn) & Ha) & Hp0) Hlen. exists i. split; [|done]. split; try (done || lia); [by exists x|].
  split; try lia. apply Forall_forall. intros l Hin. rewrite forallb_forall in Hf. apply Nat.eqb_eq, Hf. by apply list_elem_of_In.
Qed.

Lemma ex_src_open : ∃ src f1 i, filesys_open ex_junk ex_name (allocated (ex_st ex_src)) = Ok (src, f1) ∧ src ≠ 0 ∧ opened f1 src i 0 ∧ i.(ilength) = 700.
Proof.
  assert (H : match filesys_open ex_junk ex_name (allocated (ex_st ex_src)) with Ok (src, f1) => negb (src =? 0) && openable f1 src 700 | Err _ => false end = true)
    by (vm_compute; reflexivity).
  destruct (filesys_open ex_junk ex_name (allocated (ex_st ex_src))) as [[src f1]|]; [|done]. apply andb_true_iff in H as [H1 H2].
  destruct (openable_opened f1 src 700 H2 ltac:(lia)) as (i & Hop & Hl & _). exists src, f1, i. split; [done|]. split; [by apply Z.eqb_neq, negb_true_iff|done].
Qed.

Lemma ex_dst_open : ∃ g1 g2 dst j, filesys_create ex_junk ex_name 700 (ex_st ex_empty) = Ok (true, g1) ∧ filesys_open ex_junk ex_name g1 = Ok (dst, g2) ∧
  dst ≠ 0 ∧ opened g2 dst j 0 ∧ j.(deny_write_cnt) = 0 ∧ j.(ilength) = 700.
Proof.
  assert (H : match filesys_create ex_junk ex_name 700 (ex_st ex_empty) with
    | Ok (true, g1) => match filesys_open ex_junk ex_name g1 with Ok (dst, g2) => negb (dst =? 0) && openable g2 dst 700 | Err _ => false end
    | _ => false end = true) by (vm_compute; reflexivity).
  destruct (filesys_create ex_junk ex_name 700 (ex_st ex_empty)) as [[[] g1]|]; [|done|done]. destruct (filesys_open ex_junk ex_name g1) as [[dst g2]|] eqn:E; [|done].
  apply andb_true_iff in H as [H1 H2]. destruct (openable_opened g2 dst 700 H2 ltac:(lia)) as (j & Hop & Hl & Hd).
  exists g1, g2, dst, j. split; [done|]. split; [done|]. split; [by apply Z.eqb_neq, negb_true_iff|done].
Qed.

Lemma ex_src_heap : (ex_st ex_src).(allocs) = [] ∧ 0 < (ex_st ex_src).(next_ptr).
Proof. split; vm_compute; reflexivity. Qed.

Lemma ex_tame : tame ex_name.
Proof. split; [reflexivity|]. by split. Qed.

Lemma tar_roundtrip_witness : ∃ src f' d' dst g3,
  fsutil_append ex_junk 0 ex_name (mk_fsu (ex_st ex_src) (Some (replicate 6 (replicate 512 0))) 0 0) = in_filesys (file_close src) (mk_fsu f' (Some d') 0 3) ∧
  extract_entry ex_junk (mk_fsu (ex_st ex_empty) (Some d') 0 0) = (in_filesys (file_close dst);; mret true) (mk_fsu g3 (Some d') 3 0) ∧
  extract_entry ex_junk (mk_fsu g3 (Some d') 3 0) = Ok (false, mk_fsu g3 (Some d') 4 0).
Proof.
  destruct ex_src_open as (src & f1 & i & Eo & Hsrc & Hop & Hl). destruct ex_dst_open as (g1 & g2 & dst & j & Ec & Eo' & Hdst & Hopj & Hd & Hlj).
  destruct (tar_roundtrip ex_junk 0 ex_name (ex_st ex_src) f1 (replicate 6 (replicate 512 0)) 0 0 src i (proj1 ex_src_heap) (proj2 ex_src_heap) Eo Hsrc Hop ex_tame) as (f' & d' & E & _ & _ & _ & Hx & He).
  - cbn. lia.
  - intros c Hc. unfold ex_name in Hc. set_unfold in Hc. lia.
  - lia.
  - rewrite Hl. vm_compute. reflexivity.
  - vm_compute. reflexivity.
  - rewrite Hl in *. destruct (Hx (ex_st ex_empty) g1 g2 dst j 0 Ec Eo' Hdst Hopj Hd Hlj) as (g3 & E3 & _).
    exists src, f', d', dst, g3. split; [exact E|]. split; [exact E3|exact (He g3 0)].
Defined.
