(* ===== verification/Swap.v ===== *)
(** vm/swap.c: the swap device.

    The device is the list of its sectors; a slot is eight of them.  The memory that
    pages are read to and written from is the byte memory of the kernel.  The lock
    makes each routine one step.  Slots are numbered from 1 for the callers: 0 means
    that a page has none. *)

From S2P Require Import Prelude Vaddr Bitmap CString Words.

Record swap := mk_swap { swap_bitmap : bitmap; swap_dev : list (list Z); smem : mem }.

Abbreviation W := (M swap).

Definition set_smem (m : mem) (s : swap) : swap := mk_swap s.(swap_bitmap) s.(swap_dev) m.

Definition in_smem {A} (x : B A) : W A := λ s,
  match x s.(smem) with Ok (a, m) => Ok (a, set_smem m s) | Err e => Err e end.

(** [block_read] and [block_write] of devices/block.c on the swap device *)
Definition swap_read (sector p : Z) : W unit :=
  s ← get;
  assert (sector <? Z.of_nat (length s.(swap_dev)));;
  b ← lift_out (ofault (s.(swap_dev) !! Z.to_nat sector));
  in_smem (put_bytes p b).

Definition swap_write (sector p : Z) : W unit :=
  s ← get;
  assert (sector <? Z.of_nat (length s.(swap_dev)));;
  b ← in_smem (get_bytes p 512);
  modify (λ s, mk_swap s.(swap_bitmap) (<[Z.to_nat sector := b]> s.(swap_dev)) s.(smem)).

(** the loops over the sectors [i .. i + n - 1] of a slot *)
Fixpoint read_sectors (base kaddr i : Z) (n : nat) : W unit :=
  match n with O => mret tt | S n => swap_read (u32 (base + i)) (kaddr + 512 * i);; read_sectors base kaddr (i + 1) n end.

Fixpoint write_sectors (base kaddr i : Z) (n : nat) : W unit :=
  match n with O => mret tt | S n => swap_write (u32 (base + i)) (kaddr + 512 * i);; write_sectors base kaddr (i + 1) n end.

(** [bitmap_create] succeeds; [init] is what its words hold before *)
Definition swap_init (size : Z) (init : list Z) (dev : list (list Z)) (m : mem) : outcome swap :=
  b ← bitmap_create size true true init;
  b ← ofault b;
  Ok (mk_swap b dev m).

Definition free_slot (i : Z) : W unit :=
  s ← get;
  b ← lift_out (bitmap_set_multiple s.(swap_bitmap) i 1 false);
  put (mk_swap b s.(swap_dev) s.(smem)).

Definition swap_in (used_index kaddr : Z) : W unit :=
  if used_index =? 0 then fail AssertFail else
  let used_index := used_index - 1 in
  assert (pg_ofs kaddr =? 0);;
  let sector := u32 (Z.shiftl used_index 3) in
  read_sectors sector kaddr 0 8;;
  free_slot (Z.shiftr sector 3).

Definition swap_clear (used_index : Z) : W unit :=
  if used_index =? 0 then mret tt else free_slot (used_index - 1).

Definition swap_out (kaddr : Z) : W Z :=
  assert (pg_ofs kaddr =? 0);;
  s ← get;
  '(swap_index, b) ← lift_out (bitmap_scan_and_flip s.(swap_bitmap) 0 1 false);
  put (mk_swap b s.(swap_dev) s.(smem));;
  assert (negb (swap_index =? BITMAP_ERROR));;
  let sector := u32 (Z.shiftl swap_index 3) in
  write_sectors sector kaddr 0 8;;
  mret (u32 (Z.shiftr sector 3 + 1)).

(** * Slots *)

(** the bytes of slot [k] of the device, counted from 0 *)
Definition slot (d : list (list Z)) (k : Z) : list Z := mjoin (take 8 (drop (Z.to_nat (8 * k)) d)).

Record swap_wf (s : swap) : Prop := {
  sw_map : bitmap_wf s.(swap_bitmap);
  sw_sectors : ∀ l, l ∈ s.(swap_dev) → length l = 512%nat ∧ ∀ v, v ∈ l → 0 ≤ v < 256;
  sw_size : 8 * s.(swap_bitmap).(bit_cnt) ≤ Z.of_nat (length s.(swap_dev)) < 2 ^ 32
}.

(** sector [i] of the page [l] *)
Definition sector_of (l : list Z) (i : nat) : list Z := take 512 (drop (512 * i) l).

Lemma sectors_join l i n : mjoin (sector_of l <$> seq i n) = take (512 * n) (drop (512 * i) l).
Proof.
  revert i. induction n as [|n IH]; intros i; [by rewrite Nat.mul_0_r|].
  change (seq i (S n)) with (i :: seq (S i) n). rewrite fmap_cons. change (mjoin (?x :: ?r)) with (x ++ mjoin r).
  rewrite IH. unfold sector_of. replace (512 * S n)%nat with (512 + 512 * n)%nat by lia.
  replace (512 * S i)%nat with (512 * i + 512)%nat by lia. rewrite <- drop_drop. by rewrite take_take_drop.
Qed.

Lemma sectors_page l : length l = Z.to_nat 4096 → mjoin (sector_of l <$> seq 0 8) = l.
Proof. intros H. rewrite sectors_join. rewrite drop_0. apply take_ge. lia. Qed.

Lemma in_smem_eq {A} (x : B A) s a m : x s.(smem) = Ok (a, m) → in_smem x s = Ok (a, set_smem m s).
Proof. intros H. unfold in_smem. by rewrite H. Qed.

Lemma swap_read_eq s k p l : s.(swap_dev) !! k = Some l → (∀ v, v ∈ l → 0 ≤ v < 256) → writable s.(smem) p (Z.of_nat (length l)) →
  swap_read (Z.of_nat k) p s = Ok (tt, set_smem (write s.(smem) p l) s).
Proof.
  intros E Hb Hw. unfold swap_read. rewrite (bind_ok get _ s s s) by done.
  rewrite assert_bind by (apply Z.ltb_lt; apply lookup_lt_Some in E; lia).
  rewrite (bind_ok _ _ s l s) by (rewrite Nat2Z.id, E; done). by apply in_smem_eq, put_bytes_spec.
Qed.

Lemma swap_write_eq s k p l : (k < length s.(swap_dev))%nat → bytes s.(smem) p l → length l = 512%nat →
  swap_write (Z.of_nat k) p s = Ok (tt, mk_swap s.(swap_bitmap) (<[k := l]> s.(swap_dev)) s.(smem)).
Proof.
  intros Hk Hb Hl. unfold swap_write. rewrite (bind_ok get _ s s s) by done.
  rewrite assert_bind by (apply Z.ltb_lt; lia). pose proof (get_bytes_spec _ _ _ Hb) as E. rewrite Hl in E.
  rewrite (bind_ok _ _ _ _ _ (in_smem_eq _ s _ _ E)). unfold modify. rewrite Nat2Z.id. done.
Qed.

Lemma read_sectors_spec n : ∀ s k kaddr i, (k + i + n ≤ length s.(swap_dev))%nat → Z.of_nat (length s.(swap_dev)) < 2 ^ 32 →
  (∀ l, l ∈ s.(swap_dev) → length l = 512%nat ∧ ∀ v, v ∈ l → 0 ≤ v < 256) →
  writable s.(smem) (kaddr + 512 * Z.of_nat i) (512 * Z.of_nat n) →
  read_sectors (Z.of_nat k) kaddr (Z.of_nat i) n s =
    Ok (tt, set_smem (write s.(smem) (kaddr + 512 * Z.of_nat i) (mjoin (take n (drop (k + i) s.(swap_dev))))) s).
Proof.
  induction n as [|n IH]; intros s k kaddr i Hk H32 Hs Hw; [by destruct s|]. cbn [read_sectors].
  rewrite <- Nat2Z.inj_add. rewrite (u32_small (Z.of_nat (k + i))) by lia.
  destruct (lookup_lt_is_Some_2 s.(swap_dev) (k + i)) as [l El]; [lia|].
  destruct (Hs l (list_elem_of_lookup_2 _ _ _ El)) as [Hl Hb].
  rewrite (bind_ok _ _ _ _ _ (swap_read_eq s (k + i) (kaddr + 512 * Z.of_nat i) l El Hb ltac:(rewrite Hl; intros a Ha; apply Hw; lia))).
  replace (Z.of_nat i + 1) with (Z.of_nat (S i)) by lia. rewrite IH; simpl swap_dev; [|lia|done|done|].
  - rewrite (drop_S _ _ _ El). cbn [take]. change (mjoin (?x :: ?r)) with (x ++ mjoin r).
    replace (k + S i)%nat with (S (k + i)) by lia. unfold set_smem. simpl. do 3 f_equal. rewrite write_app, Hl. f_equal. lia.
  - intros a Ha. simpl. apply write_is_Some, Hw. lia.
Qed.

Lemma write_sectors_spec n : ∀ s k kaddr i l, (k + i + n ≤ length s.(swap_dev))%nat → Z.of_nat (length s.(swap_dev)) < 2 ^ 32 →
  length l = Z.to_nat 4096 → (i + n ≤ 8)%nat → bytes s.(smem) kaddr l →
  ∃ d, write_sectors (Z.of_nat k) kaddr (Z.of_nat i) n s = Ok (tt, mk_swap s.(swap_bitmap) d s.(smem)) ∧
    length d = length s.(swap_dev) ∧
    ∀ j, d !! j = if decide (k + i ≤ j < k + i + n)%nat then Some (sector_of l (j - k)) else s.(swap_dev) !! j.
Proof.
  induction n as [|n IH]; intros s k kaddr i l Hk H32 Hl Hi Hb; cbn [write_sectors].
  { exists s.(swap_dev). split; [by destruct s|]. split; [done|]. intros j. by rewrite decide_False by lia. }
  rewrite <- Nat2Z.inj_add. rewrite (u32_small (Z.of_nat (k + i))) by lia.
  assert (Hls : length (sector_of l i) = 512%nat) by (unfold sector_of; rewrite length_take, length_drop; lia).
  assert (Hbs : bytes s.(smem) (kaddr + 512 * Z.of_nat i) (sector_of l i)).
  { apply bytes_lookup. intros x v Hx. apply lookup_take_Some in Hx as [Hx _]. rewrite lookup_drop in Hx.
    replace (kaddr + 512 * Z.of_nat i + Z.of_nat x) with (kaddr + Z.of_nat (512 * i + x)) by lia. by eapply bytes_lookup. }
  rewrite (bind_ok _ _ _ _ _ (swap_write_eq s (k + i) _ _ ltac:(lia) Hbs Hls)).
  replace (Z.of_nat i + 1) with (Z.of_nat (S i)) by lia.
  destruct (IH (mk_swap s.(swap_bitmap) (<[(k + i)%nat := sector_of l i]> s.(swap_dev)) s.(smem)) k kaddr (S i) l) as (d & E & Hd & Hj);
    simpl; try rewrite length_insert; try (done || lia).
  exists d. split; [done|]. split; [by rewrite Hd; simpl; rewrite length_insert|]. intros j. rewrite Hj. simpl.
  destruct (decide (k + S i ≤ j < k + S i + n)%nat).
  - by rewrite decide_True by lia.
  - destruct (decide (j = k + i)%nat) as [->|Hne].
    + rewrite decide_True by lia. rewrite list_lookup_insert_eq by lia. do 2 f_equal. lia.
    + rewrite decide_False by lia. by rewrite list_lookup_insert_ne by lia.
Qed.

Lemma slot_ext d d' k : (∀ i, (Z.to_nat (8 * k) ≤ i < Z.to_nat (8 * k) + 8)%nat → d' !! i = d !! i) → slot d' k = slot d k.
Proof.
  intros H. unfold slot. f_equal. apply list_eq. intros i. destruct (decide (i < 8)%nat).
  - rewrite !lookup_take_lt, !lookup_drop by lia. apply H. lia.
  - by rewrite !lookup_take_ge by lia.
Qed.

Lemma shift_slot k : 0 ≤ k → 8 * k < 2 ^ 32 → u32 (Z.shiftl k 3) = 8 * k ∧ Z.shiftr (8 * k) 3 = k.
Proof.
  intros Hk Hb. rewrite Z.shiftl_mul_pow2, Z.shiftr_div_pow2 by lia. change (2 ^ 3) with 8. rewrite u32_small by lia.
  split; [lia|]. rewrite Z.mul_comm. by apply Z.div_mul.
Qed.

Lemma free_slot_spec s k : swap_wf s → 0 ≤ k < s.(swap_bitmap).(bit_cnt) →
  ∃ b, free_slot k s = Ok (tt, mk_swap b s.(swap_dev) s.(smem)) ∧ swap_wf (mk_swap b s.(swap_dev) s.(smem)) ∧
    b.(bit_cnt) = s.(swap_bitmap).(bit_cnt) ∧ ∀ j, 0 ≤ j → bit b j = if j =? k then false else bit s.(swap_bitmap) j.
Proof.
  intros [Hm Hs Hz] Hk. destruct (bitmap_set_multiple_spec s.(swap_bitmap) k 1 false Hm) as (b & E & Hb & Hc & Hbit); [lia..|].
  exists b. unfold free_slot. rewrite (bind_ok get _ s s s) by done. rewrite (bind_ok _ _ s _ s (lift_out_eq _ _ s E)).
  split; [done|]. split; [split; simpl; try done; lia|]. split; [done|]. intros j Hj. rewrite Hbit by done.
  destruct (Z.leb_spec k j), (Z.ltb_spec j (k + 1)), (Z.eqb_spec j k); (done || lia).
Qed.

(** a page read back from its slot, which is free afterwards *)
Lemma swap_in_spec s k kaddr : swap_wf s → 0 ≤ k < s.(swap_bitmap).(bit_cnt) → kaddr mod 4096 = 0 → writable s.(smem) kaddr 4096 →
  ∃ b, swap_in (k + 1) kaddr s = Ok (tt, mk_swap b s.(swap_dev) (write s.(smem) kaddr (slot s.(swap_dev) k))) ∧
    swap_wf (mk_swap b s.(swap_dev) (write s.(smem) kaddr (slot s.(swap_dev) k))) ∧
    b.(bit_cnt) = s.(swap_bitmap).(bit_cnt) ∧ ∀ j, 0 ≤ j → bit b j = if j =? k then false else bit s.(swap_bitmap) j.
Proof.
  intros Hwf Hk Hal Hw. pose proof Hwf as [Hm Hs Hz]. unfold swap_in. destruct (Z.eqb_spec (k + 1) 0); [lia|].
  replace (k + 1 - 1) with k by lia. rewrite pg_ofs_eq, Hal. rewrite assert_bind by done.
  destruct (shift_slot k ltac:(lia) ltac:(lia)) as [-> Esr]. cbv zeta. rewrite Esr.
  pose proof (read_sectors_spec 8 s (Z.to_nat (8 * k)) kaddr 0 ltac:(lia) ltac:(lia) Hs) as E.
  change (512 * Z.of_nat 0) with 0 in E. change (512 * Z.of_nat 8) with 4096 in E. rewrite Z.add_0_r, Nat.add_0_r in E.
  rewrite Z2Nat.id in E by lia. specialize (E Hw). rewrite (bind_ok _ _ _ _ _ E).
  fold (slot s.(swap_dev) k). set (s1 := set_smem _ s).
  destruct (free_slot_spec s1 k) as (b & E2 & Hwf2 & Hc & Hb); [by split|done|]. exists b. done.
Qed.

(** [swap_out] up to the writing of the sectors *)
Lemma swap_out_eq s kaddr k b : kaddr mod 4096 = 0 → bitmap_scan_and_flip s.(swap_bitmap) 0 1 false = Ok (k, b) →
  swap_out kaddr s =
    (if k =? BITMAP_ERROR then Err AssertFail
     else (write_sectors (u32 (Z.shiftl k 3)) kaddr 0 8;; mret (u32 (Z.shiftr (u32 (Z.shiftl k 3)) 3 + 1)))
            (mk_swap b s.(swap_dev) s.(smem))).
Proof.
  intros Hal E. unfold swap_out. rewrite pg_ofs_eq, Hal, assert_bind by done. rewrite (bind_ok get _ s s s) by done.
  rewrite (bind_ok _ _ s _ s (lift_out_eq _ _ s E)). cbv beta iota. set (s1 := mk_swap b _ _).
  rewrite (bind_ok (put s1) _ s tt s1) by done. by destruct (k =? BITMAP_ERROR).
Qed.

Lemma swap_out_spec s kaddr l : swap_wf s → kaddr mod 4096 = 0 → bytes s.(smem) kaddr l → length l = Z.to_nat 4096 →
  (∃ j, 0 ≤ j < s.(swap_bitmap).(bit_cnt) ∧ bit s.(swap_bitmap) j = false) →
  ∃ k s', swap_out kaddr s = Ok (k + 1, s') ∧ 0 ≤ k < s.(swap_bitmap).(bit_cnt) ∧ bit s.(swap_bitmap) k = false ∧
    swap_wf s' ∧ s'.(smem) = s.(smem) ∧ s'.(swap_bitmap).(bit_cnt) = s.(swap_bitmap).(bit_cnt) ∧
    (∀ j, 0 ≤ j → bit s'.(swap_bitmap) j = if j =? k then true else bit s.(swap_bitmap) j) ∧
    slot s'.(swap_dev) k = l ∧ ∀ j, 0 ≤ j → j ≠ k → slot s'.(swap_dev) j = slot s.(swap_dev) j.
Proof.
  intros Hwf Hal Hb Hl (j0 & Hj0 & Hf0). pose proof Hwf as [Hm Hs Hz]. pose proof (wf_cnt _ Hm) as Hcnt.
  destruct (bitmap_scan_and_flip_spec s.(swap_bitmap) 0 1 false Hm) as (k & b & E & Hr & Hbw & Hc & Hbit); [lia..|].
  assert (Hk : 0 ≤ k < s.(swap_bitmap).(bit_cnt) ∧ bit s.(swap_bitmap) k = false ∧ k ≠ BITMAP_ERROR).
  { destruct Hr as [[_ Hn]|(H0 & H1 & Hrun & _)].
    - destruct (Hn j0); [lia..|]. intros j Hj. by replace j with j0 by lia.
    - split; [lia|]. split; [apply Hrun; lia|unfold BITMAP_ERROR in *; lia]. }
  destruct Hk as (Hk & Hfk & Hne). rewrite (proj2 (Z.eqb_neq _ _) Hne) in Hbit. simpl in Hbit.
  rewrite (swap_out_eq s kaddr k b Hal E), (proj2 (Z.eqb_neq _ _) Hne). set (s1 := mk_swap b _ _).
  destruct (shift_slot k ltac:(lia) ltac:(lia)) as [-> Esr]. rewrite Esr, u32_small by lia.
  destruct (write_sectors_spec 8 s1 (Z.to_nat (8 * k)) kaddr 0 l) as (d & Ed & Hld & Hd); simpl; try (done || lia).
  rewrite Z2Nat.id in Ed by lia. rewrite (bind_ok _ _ _ _ _ Ed). rewrite Nat.add_0_r in Hd. simpl in Hld.
  assert (Hbits : ∀ v, v ∈ l → 0 ≤ v < 256) by (intros v; by eapply bytes_range).
  exists k. eexists. split; [done|]. split; [done|]. split; [done|]. simpl. split_and!; try done.
  - split; simpl; [done| |lia]. intros x [j Hj]%list_elem_of_lookup. rewrite Hd in Hj. case_decide.
    + simplify_eq. unfold sector_of. split; [rewrite length_take, length_drop; lia|]. intros v Hv.
      apply list_elem_of_lookup in Hv as [x Hx]. apply lookup_take_Some in Hx as [Hx _]. rewrite lookup_drop in Hx.
      apply Hbits. by eapply list_elem_of_lookup_2.
    + simpl in Hj. apply Hs. by eapply list_elem_of_lookup_2.
  - intros j Hj. rewrite Hbit by done. destruct (Z.leb_spec k j), (Z.ltb_spec j (k + 1)), (Z.eqb_spec j k); (done || lia).
  - unfold slot. rewrite <- (sectors_page l Hl) at 1. f_equal. apply list_eq. intros i. rewrite list_lookup_fmap.
    destruct (decide (i < 8)%nat).
    + rewrite lookup_take_lt, lookup_drop, Hd, decide_True by lia. rewrite lookup_seq_lt by lia. simpl. do 2 f_equal. lia.
    + rewrite lookup_take_ge, lookup_seq_ge by lia. done.
  - intros j Hj Hjk. apply slot_ext. intros i Hi. rewrite Hd. by rewrite decide_False by lia.
Qed.

(** a full swap device stops the kernel *)
Lemma swap_out_full s kaddr : swap_wf s → kaddr mod 4096 = 0 →
  (∀ j, 0 ≤ j < s.(swap_bitmap).(bit_cnt) → bit s.(swap_bitmap) j = true) → swap_out kaddr s = Err AssertFail.
Proof.
  intros Hwf Hal Hfull. pose proof Hwf as [Hm Hs Hz]. pose proof (wf_cnt _ Hm) as Hcnt.
  destruct (bitmap_scan_and_flip_spec s.(swap_bitmap) 0 1 false Hm) as (k & b & E & Hr & _); [lia..|].
  rewrite (swap_out_eq s kaddr k b Hal E). destruct Hr as [[-> _]|(H0 & H1 & Hrun & _)]; [done|].
  specialize (Hrun k ltac:(lia)). by rewrite Hfull in Hrun by lia.
Qed.

(** * Statements *)

(** C28. A page that is swapped out goes to a slot that was free, and no other slot
    changes; it comes back unchanged, at any page of memory, from every later state
    in which its slot has not been written, and its slot is free again then.  With
    no free slot left the kernel stops. *)
Theorem swap_roundtrip s kaddr l : swap_wf s → kaddr mod 4096 = 0 → bytes s.(smem) kaddr l → length l = Z.to_nat 4096 →
  (∀ j, 0 ≤ j < s.(swap_bitmap).(bit_cnt) → bit s.(swap_bitmap) j = true) ∧ swap_out kaddr s = Err AssertFail ∨
  ∃ k s', swap_out kaddr s = Ok (k + 1, s') ∧ bit s.(swap_bitmap) k = false ∧ swap_wf s' ∧ s'.(smem) = s.(smem) ∧
    (∀ j, 0 ≤ j → j ≠ k → bit s'.(swap_bitmap) j = bit s.(swap_bitmap) j ∧ slot s'.(swap_dev) j = slot s.(swap_dev) j) ∧
    ∀ t kaddr', swap_wf t → t.(swap_bitmap).(bit_cnt) = s.(swap_bitmap).(bit_cnt) → slot t.(swap_dev) k = slot s'.(swap_dev) k →
      kaddr' mod 4096 = 0 → writable t.(smem) kaddr' 4096 →
      ∃ t', swap_in (k + 1) kaddr' t = Ok (tt, t') ∧ bytes t'.(smem) kaddr' l ∧ bit t'.(swap_bitmap) k = false.
Proof.
  intros Hwf Hal Hb Hl. set (cnt := bit_cnt (swap_bitmap s)).
  destruct (decide (Exists (λ j, bit (swap_bitmap s) j = false) (seqZ 0 cnt))) as [Hex|Hex].
  - right. apply Exists_exists in Hex as (j & Hj & Hf). apply elem_of_seqZ in Hj.
    destruct (swap_out_spec s kaddr l Hwf Hal Hb Hl) as (k & s' & E & Hk & Hfk & Hwf' & Hm & Hc & Hbit & Hs & Ho);
      [exists j; split; [lia|done]|].
    exists k, s'. split_and!; try done.
    + intros i Hi Hne. split; [|by apply Ho]. rewrite Hbit by done. by destruct (Z.eqb_spec i k).
    + intros t ka Ht Hct Hst Hka Hw. destruct (swap_in_spec t k ka Ht ltac:(lia) Hka Hw) as (b & E2 & _ & _ & Hb2).
      eexists. split; [done|]. simpl. split; [|rewrite Hb2 by lia; by rewrite Z.eqb_refl].
      rewrite Hst, Hs. apply bytes_write. intros v. by eapply bytes_range.
  - left. assert (Hfull : ∀ j, 0 ≤ j < cnt → bit (swap_bitmap s) j = true).
    { intros j Hj. apply not_false_iff_true. intros Hf. apply Hex, Exists_exists. exists j. split; [|done]. apply elem_of_seqZ. lia. }
    split; [done|]. by apply swap_out_full.
Qed.

(** a device of two slots and two pages of memory *)
Definition ex_swap : swap :=
  mk_swap (mk_bitmap 2 [0]) (replicate 16 (replicate 512 0)) (write ∅ 4096 (replicate (Z.to_nat 4096) 1 ++ replicate (Z.to_nat 4096) 2)).

Lemma ex_swap_wf : swap_wf ex_swap.
Proof.
  split; cbn [swap_bitmap swap_dev ex_swap].
  - split; simpl; [lia|vm_compute; reflexivity|]. intros e ->%list_elem_of_singleton. lia.
  - intros l [-> _]%elem_of_replicate. split; [apply length_replicate|]. intros v [-> _]%elem_of_replicate. lia.
  - rewrite length_replicate. simpl. lia.
Qed.

Lemma ex_swap_page : bytes ex_swap.(smem) 4096 (replicate (Z.to_nat 4096) 1).
Proof.
  assert (H : bytes ex_swap.(smem) 4096 (replicate (Z.to_nat 4096) 1 ++ replicate (Z.to_nat 4096) 2)).
  { apply bytes_write. intros v [[-> _]%elem_of_replicate|[-> _]%elem_of_replicate]%elem_of_app; lia. }
  apply bytes_app in H. exact (proj1 H).
Qed.

Lemma swap_roundtrip_witness : ∃ k s', swap_out 4096 ex_swap = Ok (k + 1, s') ∧
  ∃ t', swap_in (k + 1) 8192 s' = Ok (tt, t') ∧ bytes t'.(smem) 8192 (replicate (Z.to_nat 4096) 1).
Proof.
  destruct (swap_roundtrip ex_swap 4096 (replicate (Z.to_nat 4096) 1) ex_swap_wf eq_refl ex_swap_page)
    as [[H _]|(k & s' & E & _ & Hwf & Hm & _ & Hin)].
  - apply length_replicate.
  - specialize (H 0 ltac:(simpl; lia)). vm_compute in H. discriminate.
  - exists k, s'. split; [exact E|].
    assert (Hc : s'.(swap_bitmap).(bit_cnt) = 2).
    { assert (Ev : match swap_out 4096 ex_swap with Ok (_, t) => bit_cnt (swap_bitmap t) | Err _ => 0 end = 2) by (vm_compute; reflexivity).
      rewrite E in Ev. exact Ev. }
    destruct (Hin s' 8192 Hwf Hc eq_refl eq_refl) as (t' & E' & Hb & _).
    + rewrite Hm. intros a Ha. unfold ex_swap, smem. rewrite lookup_write, decide_True by (rewrite length_app, !length_replicate; lia).
      apply lookup_lt_is_Some. rewrite length_app, !length_replicate. lia.
    + exists t'. exact (conj E' Hb).
Defined.

(** [swap_init (8 * 1024)] of threads/init.c makes a slot for every one of 8192 pages,
    whatever the size of the device: on a device of the 8192 sectors (4 MB) the number
    suggests, with the first 1024 slots in use, swapping a page out stops the
    kernel, though the bitmap has 7168 free slots. *)
Theorem swap_slots_past_device b dev m kaddr l : bitmap_wf b → b.(bit_cnt) = 8 * 1024 → Z.of_nat (length dev) = 8 * 1024 →
  (∀ j, 0 ≤ j < 1024 → bit b j = true) → (∀ j, 1024 ≤ j < 8 * 1024 → bit b j = false) →
  kaddr mod 4096 = 0 → bytes m kaddr l → length l = Z.to_nat 4096 →
  swap_out kaddr (mk_swap b dev m) = Err AssertFail.
Proof.
  intros Hm Hc Hd Hu Hf Hal Hb Hl. set (s := mk_swap b dev m).
  destruct (bitmap_scan_and_flip_spec b 0 1 false Hm) as (k & b' & E & Hr & _); [lia..|].
  assert (Hk : k = 1024).
  { destruct Hr as [[_ Hn]|(H0 & H1 & Hrun & Hfst)].
    - destruct (Hn 1024); [lia..|]. intros j Hj. apply Hf. lia.
    - destruct (decide (k < 1024)); [specialize (Hrun k ltac:(lia)); rewrite Hu in Hrun by lia; done|].
      destruct (decide (k = 1024)); [done|]. destruct (Hfst 1024 ltac:(lia)). intros j Hj. apply Hf. lia. }
  subst k. rewrite (swap_out_eq s kaddr 1024 b' Hal E). set (s1 := mk_swap b' _ _). change (1024 =? BITMAP_ERROR) with false.
  cbv iota. apply bind_err. cbn [write_sectors]. apply bind_err. unfold swap_write. rewrite (bind_ok get _ s1 s1 s1) by done.
  apply bind_err. unfold s1, s. cbn [swap_dev]. by rewrite Hd.
Qed.

Definition ex_full_map : bitmap :=
  mk_bitmap (8 * 1024) (replicate (Z.to_nat 32) (2 ^ 32 - 1) ++ replicate (Z.to_nat 224) 0).

Lemma ex_full_bits v lo n : forallb (λ j, eqb (bit ex_full_map j) v) (seqZ lo n) = true →
  ∀ j, lo ≤ j < lo + n → bit ex_full_map j = v.
Proof.
  intros H j Hj. rewrite forallb_forall in H. apply eqb_prop, H. apply list_elem_of_In, elem_of_seqZ. lia.
Qed.

Lemma swap_slots_past_device_witness :
  swap_out 4096 (mk_swap ex_full_map (replicate (Z.to_nat 8192) []) ex_swap.(smem)) = Err AssertFail.
Proof.
  apply (swap_slots_past_device _ _ _ 4096 (replicate (Z.to_nat 4096) 1)).
  - split; simpl bit_cnt; [lia|vm_compute; reflexivity|].
    intros e [[-> _]%elem_of_replicate|[-> _]%elem_of_replicate]%elem_of_app; lia.
  - reflexivity.
  - rewrite length_replicate. lia.
  - apply (ex_full_bits true 0 1024). vm_compute. reflexivity.
  - apply (ex_full_bits false 1024 7168). vm_compute. reflexivity.
  - reflexivity.
  - exact ex_swap_page.
  - apply length_replicate.
Defined.
