(* ===== verification/Frame.v ===== *)
(** vm/frame.c: the list of pages in frames and the clock that chooses a victim.

    The list is the list of its elements, named by the addresses of their [struct
    page]; [LRU_clock] points to an element, to the end of the list or nowhere.  The
    clock only asks a page for its accessed bit and clears it: [AccessBits] is what
    it needs of the page tables.  The lock [list_LRU_lock] makes each routine one
    step. *)

From S2P Require Import Prelude.

(** The operations on the accessed bits of the pages, in a store of type [S] *)
Class AccessOps (S : Type) := {
  ab_test : Z → M S bool;
  ab_clear : Z → M S unit
}.

(** what they do when the pages [l] are in order in the store *)
Class AccessBits (S : Type) `{AccessOps S} := {
  ab_bit : S → Z → bool;
  ab_ok : S → list Z → Prop;
  ab_test_spec s l p : ab_ok s l → p ∈ l → ab_test p s = Ok (ab_bit s p, s);
  ab_clear_spec s l p : ab_ok s l → p ∈ l → ∃ s', ab_clear p s = Ok (tt, s') ∧ ab_ok s' l ∧
    ∀ q, q ∈ l → ab_bit s' q = if bool_decide (q = p) then false else ab_bit s q
}.

Inductive clock := CNull | CAt (p : Z) | CEnd.

Record lru := mk_lru { list_LRU : list Z; LRU_clock : clock }.

(** [list_next] of the element [p]; [None] if it is not there *)
Fixpoint next_of (p : Z) (l : list Z) : option clock :=
  match l with
  | [] => None
  | x :: r => if x =? p then Some (match r with [] => CEnd | y :: _ => CAt y end) else next_of p r
  end.

Section frame.
Context {S : Type} `{AccessOps S}.

Abbreviation L := (M (lru * S)).

Definition get_lru : L lru := gets fst.
Definition put_lru (l : lru) : L unit := modify (λ s, (l, s.2)).
Definition in_bits {A} (x : M S A) : L A := λ '(l, s),
  match x s with Ok (a, s') => Ok (a, (l, s')) | Err e => Err e end.

Definition list_LRU_init : lru := mk_lru [] CNull.

Definition add_page_to_list_LRU (p : Z) : L unit :=
  l ← get_lru; put_lru (mk_lru (l.(list_LRU) ++ [p]) l.(LRU_clock)).

Definition del_page_from_list_LRU (p : Z) : L unit :=
  l ← get_lru;
  n ← lift_out (ofault (next_of p l.(list_LRU)));
  put_lru (mk_lru (filter (λ q, q ≠ p) l.(list_LRU))
    (match l.(LRU_clock) with CAt q => if q =? p then n else CAt q | c => c end)).

(** the clock at the front of the list *)
Definition rewind : L (option Z) :=
  l ← get_lru;
  match l.(list_LRU) with
  | [] => mret None
  | x :: _ => put_lru (mk_lru l.(list_LRU) (CAt x));; mret (Some x)
  end.

Definition get_next_LRU_clock : L (option Z) :=
  l ← get_lru;
  match l.(LRU_clock) with
  | CNull | CEnd => rewind
  | CAt p =>
    n ← lift_out (ofault (next_of p l.(list_LRU)));
    put_lru (mk_lru l.(list_LRU) n);;
    match n with CAt x => mret (Some x) | _ => rewind end
  end.

(** the loop of [get_victim], whose page is [p], with a bound on its turns *)
Fixpoint victim_loop (n : nat) (p : Z) : L Z :=
  match n with
  | O => fail NoFuel
  | Datatypes.S n =>
    a ← in_bits (ab_test p);
    if (a : bool) then
      in_bits (ab_clear p);;
      e ← get_next_LRU_clock;
      match e with None => fail AssertFail | Some p => victim_loop n p end
    else mret p
  end.

Definition get_victim : L Z :=
  e ← get_next_LRU_clock;
  match e with
  | None => fail AssertFail
  | Some p => l ← get_lru; victim_loop (Datatypes.S (length l.(list_LRU))) p
  end.

(** * The clock as a queue *)

(** the pages in the order in which the clock comes to them *)
Inductive order : lru → list Z → Prop :=
| order_start l c : c = CNull ∨ c = CEnd → order (mk_lru l c) l
| order_at l1 p l2 : order (mk_lru (l1 ++ p :: l2) (CAt p)) (l2 ++ l1 ++ [p]).

Lemma next_of_split p l1 l2 : p ∉ l1 → next_of p (l1 ++ p :: l2) = Some (match l2 with [] => CEnd | y :: _ => CAt y end).
Proof using.
  intros Hp. induction l1 as [|x l1 IH]; simpl; [by rewrite Z.eqb_refl|].
  destruct (Z.eqb_spec x p) as [->|]; [destruct Hp; left|]. apply IH. intros ?. apply Hp. by right.
Qed.

Lemma order_perm l q : order l q → q ≡ₚ l.(list_LRU).
Proof using. intros []; simpl; [done|]. by rewrite (Permutation_app_comm l2), <- app_assoc. Qed.

(** the clock moves to the front of the queue, which goes to its back *)
Lemma next_clock_spec l q x rest s : NoDup l.(list_LRU) → order l q → q = x :: rest →
  ∃ l', get_next_LRU_clock (l, s) = Ok (Some x, (l', s)) ∧ l'.(list_LRU) = l.(list_LRU) ∧ l'.(LRU_clock) = CAt x ∧
    order l' (rest ++ [x]).
Proof using.
  intros Hnd Ho E. unfold get_next_LRU_clock. rewrite (bind_ok get_lru _ (l, s) l (l, s)) by done.
  destruct Ho as [ls c Hc|l1 p l2]; simpl in *.
  - subst ls. exists (mk_lru (x :: rest) (CAt x)). split; [by destruct Hc as [-> | ->]|]. split; [done|]. split; [done|].
    apply (order_at [] x rest).
  - apply NoDup_app in Hnd as (_ & Hnd & _). destruct l2 as [|y l2]; simpl in E.
    + rewrite (bind_ok _ _ _ CEnd (mk_lru (l1 ++ [p]) (CAt p), s)).
      2: { apply lift_out_eq. rewrite next_of_split; [done|]. intros Hp. by apply (Hnd p Hp), list_elem_of_singleton. }
      exists (mk_lru (l1 ++ [p]) (CAt x)). rewrite E. split; [done|]. split; [done|]. split; [done|].
      by apply (order_at [] x rest).
    + simplify_eq. rewrite (bind_ok _ _ _ (CAt x) (mk_lru (l1 ++ p :: x :: l2) (CAt p), s)).
      2: { apply lift_out_eq. rewrite next_of_split; [done|]. intros Hp. apply (Hnd p Hp). left. }
      exists (mk_lru (l1 ++ p :: x :: l2) (CAt x)). split; [done|]. split; [done|]. split; [done|].
      replace (l1 ++ p :: x :: l2) with ((l1 ++ [p]) ++ x :: l2) by (by rewrite <- app_assoc).
      replace ((l2 ++ l1 ++ [p]) ++ [x]) with (l2 ++ (l1 ++ [p]) ++ [x]) by (by rewrite !app_assoc). apply order_at.
Qed.

Lemma order_exists l v : v ∈ l → ∃ q, order (mk_lru l (CAt v)) q.
Proof using. intros (l1 & l2 & ->)%list_elem_of_split. eexists. apply order_at. Qed.

Lemma filter_others (p : Z) (l : list Z) : p ∉ l → filter (λ q, q ≠ p) l = l.
Proof using. intros Hp. apply filter_all. intros x Hx ->. done. Qed.

Lemma del_page_spec l s p : NoDup l.(list_LRU) → (∃ q, order l q) → p ∈ l.(list_LRU) →
  ∃ l', del_page_from_list_LRU p (l, s) = Ok (tt, (l', s)) ∧ l'.(list_LRU) = filter (λ q, q ≠ p) l.(list_LRU) ∧ ∃ q, order l' q.
Proof using.
  intros Hnd [q0 Ho] Hp. destruct l as [l c]. simpl in *. apply list_elem_of_split in Hp as (l1 & l2 & ->).
  apply NoDup_app in Hnd as (_ & Hd & [Hp2 _]%NoDup_cons).
  assert (Hp1 : p ∉ l1) by (intros H'; apply (Hd p H'); left).
  assert (Hf : filter (λ q, q ≠ p) (l1 ++ p :: l2) = l1 ++ l2).
  { rewrite filter_app, filter_cons_False by naive_solver. by rewrite !filter_others. }
  eexists (mk_lru _ _). split; [|split; [reflexivity|]].
  { unfold del_page_from_list_LRU. rewrite (bind_ok get_lru _ _ _ _ eq_refl). cbn [list_LRU LRU_clock fst].
    by rewrite (bind_ok _ _ _ _ _ (lift_out_eq _ _ _ (f_equal ofault (next_of_split p l1 l2 Hp1)))). }
  rewrite Hf. inversion Ho as [? ? [-> | ->]|? x ? E]; subst; [eexists; left; auto..|].
  destruct (Z.eqb_spec x p) as [->|Hne].
  - destruct l2 as [|y l2]; [eexists; left; auto|]. apply order_exists. set_solver.
  - apply order_exists. assert (Hx : x ∈ l1 ++ p :: l2) by (rewrite <- E; set_solver). set_solver.
Qed.

Section laws.
Context `{!AccessBits S}.

(** the outcome of the search: [v] is the first page of the queue whose bit is clear,
    or its first page when all bits are set; the bits of the pages before it, and no
    others, have been cleared *)
Definition second_chance (q : list Z) (s s' : S) (v : Z) : Prop :=
  ∃ skipped rest, q = skipped ++ rest ∧ (∀ p, p ∈ skipped → ab_bit s p = true) ∧
    (match rest with [] => head q = Some v | x :: _ => x = v ∧ ab_bit s v = false end) ∧
    ∀ p, p ∈ q → ab_bit s' p = if bool_decide (p ∈ skipped) then false else ab_bit s p.

Lemma victim_loop_spec q0 s0 : NoDup q0 → ∀ rest n skipped p l s, q0 = skipped ++ rest →
  ab_ok s q0 → (∀ x, x ∈ skipped → ab_bit s0 x = true) →
  (∀ x, x ∈ q0 → ab_bit s x = if bool_decide (x ∈ skipped) then false else ab_bit s0 x) →
  NoDup l.(list_LRU) → l.(LRU_clock) = CAt p → head (rest ++ skipped) = Some p →
  order l (tail (rest ++ skipped) ++ [p]) → (length rest < n)%nat →
  ∃ v l' s', victim_loop n p (l, s) = Ok (v, (l', s')) ∧ l'.(list_LRU) = l.(list_LRU) ∧ l'.(LRU_clock) = CAt v ∧
    ab_ok s' q0 ∧ second_chance q0 s0 s' v.
Proof.
  intros Hnd. induction rest as [|x rest IH]; intros n skipped p l s E Hok Hsk Hbits Hl Hc Hh Ho Hn;
    (destruct n as [|n]; [simpl in Hn; lia|]); simpl in Hh; cbn [victim_loop].
  - rewrite app_nil_r in E. subst skipped. assert (Hp : p ∈ q0) by (destruct q0; simplify_eq/=; left).
    rewrite (bind_ok _ _ _ false (l, s)).
    2: { unfold in_bits. rewrite (ab_test_spec s q0 p Hok Hp), Hbits by done. by rewrite bool_decide_true. }
    exists p, l, s. split_and!; try done. exists q0, []. rewrite app_nil_r. done.
  - simplify_eq/=. assert (Hx : p ∈ skipped ++ p :: rest) by set_solver.
    assert (Hns : p ∉ skipped) by (apply NoDup_app in Hnd as (_ & Hnd & _); intros Hp; apply (Hnd p Hp); left).
    rewrite (bind_ok _ _ _ (ab_bit s0 p) (l, s)).
    2: { unfold in_bits. rewrite (ab_test_spec s _ p Hok Hx), Hbits by done. by rewrite bool_decide_false. }
    destruct (ab_bit s0 p) eqn:Eb.
    2: { exists p, l, s. split_and!; try done. exists skipped, (p :: rest). done. }
    destruct (ab_clear_spec s _ p Hok Hx) as (s1 & E1 & Hok1 & Hb1).
    rewrite (bind_ok _ _ _ tt (l, s1)) by (unfold in_bits; by rewrite E1).
    destruct (rest ++ skipped ++ [p]) as [|y r'] eqn:Eq; [destruct rest; [destruct skipped|]; done|].
    destruct (next_clock_spec l (y :: r') y r' s1 Hl) as (l1 & E2 & Hl1 & Hc1 & Ho1); [by rewrite <- Eq, app_assoc|done|].
    rewrite (bind_ok _ _ _ _ _ E2).
    destruct (IH n (skipped ++ [p]) y l1 s1) as (v & l' & s' & E3 & Hl' & Hc' & Hok' & Hsc); try (done || lia).
    + by rewrite <- app_assoc.
    + intros z [Hz|Hz]%elem_of_app; [by apply Hsk|]. by apply list_elem_of_singleton in Hz as ->.
    + intros z Hz. rewrite Hb1 by done. destruct (bool_decide_reflect (z = p)) as [->|Hne].
      * rewrite bool_decide_true; [done|set_solver].
      * rewrite Hbits by done. destruct (bool_decide_reflect (z ∈ skipped)).
        -- rewrite bool_decide_true; [done|set_solver].
        -- rewrite bool_decide_false; [done|set_solver].
    + by rewrite Hl1.
    + by rewrite Eq.
    + by rewrite Eq.
    + exists v, l', s'. split; [done|]. split; [congruence|]. done.
Qed.

Lemma get_victim_spec l q s : NoDup l.(list_LRU) → order l q → q ≠ [] → ab_ok s q →
  ∃ v l' s', get_victim (l, s) = Ok (v, (l', s')) ∧ v ∈ l.(list_LRU) ∧ l'.(list_LRU) = l.(list_LRU) ∧ l'.(LRU_clock) = CAt v ∧
    ab_ok s' q ∧ second_chance q s s' v.
Proof.
  intros Hnd Ho Hne Hok. pose proof (order_perm l q Ho) as Hp. destruct q as [|x rest] eqn:Eq; [done|]. rewrite <- Eq in *.
  destruct (next_clock_spec l q x rest s Hnd Ho Eq) as (l1 & E1 & Hl1 & Hc1 & Ho1). unfold get_victim.
  rewrite (bind_ok _ _ _ _ _ E1). rewrite (bind_ok get_lru _ (l1, s) l1 (l1, s)) by done. rewrite Hl1.
  assert (Hnq : NoDup q) by (by rewrite Hp).
  destruct (victim_loop_spec q s Hnq q (Datatypes.S (length l.(list_LRU))) [] x l1 s) as (v & l' & s' & E & Hl' & Hc' & Hok' & Hsc);
    try done.
  - intros y Hy. by apply not_elem_of_nil in Hy.
  - by rewrite Hl1.
  - by rewrite app_nil_r, Eq.
  - by rewrite app_nil_r, Eq.
  - rewrite (Permutation_length Hp). lia.
  - exists v, l', s'. split; [done|]. split.
    + rewrite <- Hp. clear Hp. destruct Hsc as (sk & [|y r] & E2 & _ & Hv & _).
      * rewrite Eq in *. simplify_eq/=. left.
      * destruct Hv as [-> _]. rewrite E2. set_solver.
    + split; [congruence|]. done.
Qed.
End laws.
End frame.
