(* ===== verification/Vm.v ===== *)
(** Virtual memory: the rest of vm/page.c, and the page-fault side of
    userprog/process.c and userprog/exception.c.

    The state is the memory and its page directories ([mmu]), the swap device, the
    [struct page]s of the frames in use, the supplemental page entries and the
    processes whose tables they are in; [struct page]s and entries are named by
    address and shared.  The locks make each routine one step. *)

From S2P Require Import Prelude Vaddr Bitmap CString Words Palloc Pagedir AddrSpace Elf Swap Frame.

Record page := mk_page { kaddr : Z; pge : Z; pthread : Z }.

(** what a thread has of an address space; an executable does not change while it
    runs, so [exec_file] is its contents *)
Record proc := mk_proc { pagedir : Z; sup_page_tab : gmap Z Z; exec_file : list Z }.

Record core := mk_core {
  cmmu : mmu; cbitmap : bitmap; cdev : list (list Z);
  pages : gmap Z page; pges : gmap Z page_entry; procs : gmap Z proc;
  heap_next : Z; heap_allocs : list bool }.

Abbreviation C := (M core).
Abbreviation V := (M (lru * core)).

Definition set_mmu (x : mmu) (c : core) : core :=
  mk_core x c.(cbitmap) c.(cdev) c.(pages) c.(pges) c.(procs) c.(heap_next) c.(heap_allocs).
Definition set_swap (x : swap) (c : core) : core :=
  mk_core (set_mm x.(smem) c.(cmmu)) x.(swap_bitmap) x.(swap_dev) c.(pages) c.(pges) c.(procs) c.(heap_next) c.(heap_allocs).
Definition set_pages (x : gmap Z page) (c : core) : core :=
  mk_core c.(cmmu) c.(cbitmap) c.(cdev) x c.(pges) c.(procs) c.(heap_next) c.(heap_allocs).
Definition set_pges (x : gmap Z page_entry) (c : core) : core :=
  mk_core c.(cmmu) c.(cbitmap) c.(cdev) c.(pages) x c.(procs) c.(heap_next) c.(heap_allocs).
Definition set_procs (x : gmap Z proc) (c : core) : core :=
  mk_core c.(cmmu) c.(cbitmap) c.(cdev) c.(pages) c.(pges) x c.(heap_next) c.(heap_allocs).
Definition set_cheap (n : Z) (a : list bool) (c : core) : core :=
  mk_core c.(cmmu) c.(cbitmap) c.(cdev) c.(pages) c.(pges) c.(procs) n a.

(** the swap device as [Swap] has it *)
Definition swap_of (c : core) : swap := mk_swap c.(cbitmap) c.(cdev) (mm c.(cmmu)).

Definition in_mmu {A} (x : D A) : C A := λ c,
  match x c.(cmmu) with Ok (a, s) => Ok (a, set_mmu s c) | Err e => Err e end.
Definition in_swap {A} (x : W A) : C A := λ c,
  match x (swap_of c) with Ok (a, w) => Ok (a, set_swap w c) | Err e => Err e end.

(** [malloc] of a [struct page] or a page entry: a new address, or NULL when
    [heap_allocs] says so *)
Definition malloc : C Z :=
  c ← get;
  match c.(heap_allocs) with
  | false :: r => put (set_cheap c.(heap_next) r c);; mret 0
  | a => put (set_cheap (c.(heap_next) + 1) (tail a) c);; mret c.(heap_next)
  end.

Definition get_page (p : Z) : C page := c ← get; lift_out (ofault (c.(pages) !! p)).
Definition put_page (p : Z) (x : page) : C unit := modify (λ c, set_pages (<[p := x]> c.(pages)) c).
Definition entry_at (q : Z) : C page_entry := c ← get; lift_out (ofault (c.(pges) !! q)).
Definition put_entry (q : Z) (e : page_entry) : C unit := modify (λ c, set_pges (<[q := e]> c.(pges)) c).

(** a live thread: its magic number is intact *)
Definition thread_of (t : Z) : C proc :=
  assert (negb (t =? 0));;
  c ← get; lift_out (match c.(procs) !! t with Some th => Ok th | None => Err AssertFail end).

(** the thread and the entry of the page at [p], with the assertions on them *)
Definition deref (p : Z) : C (page * proc * page_entry) :=
  assert (negb (p =? 0));;
  pg ← get_page p;
  th ← thread_of pg.(pthread);
  assert (negb (pg.(pge) =? 0));;
  e ← entry_at pg.(pge);
  mret (pg, th, e).

Definition loaded (b : bool) (e : page_entry) : page_entry :=
  mk_pge e.(type) e.(vaddr) e.(pwritable) b e.(offset) e.(read_bytes) e.(zero_bytes) e.(swap_slot).
Definition swapped (k : Z) (e : page_entry) : page_entry :=
  mk_pge VM_ANON e.(vaddr) e.(pwritable) e.(is_loaded) e.(offset) e.(read_bytes) e.(zero_bytes) k.

Section vm.
Context (init_page_dir init_ram_pages : Z).

(** the accessed bit of the page at [p], as [get_victim] reads and clears it *)
Definition is_accessed (p : Z) : C bool :=
  '(_, th, e) ← deref p; in_mmu (pagedir_is_accessed th.(pagedir) e.(vaddr)).
Definition clear_accessed (p : Z) : C unit :=
  '(_, th, e) ← deref p; in_mmu (pagedir_set_accessed init_page_dir th.(pagedir) e.(vaddr) false).

(** * vm/page.c *)

Definition __free_page (p : Z) : V unit :=
  '(pg, th, e) ← in_bits (deref p);
  in_bits (in_mmu (pagedir_clear_page init_page_dir th.(pagedir) e.(vaddr)));;
  del_page_from_list_LRU p;;
  in_bits (in_mmu (in_palloc (palloc_free_page pg.(kaddr))));;
  in_bits (modify (λ c, set_pages (delete p c.(pages)) c)).

(** [switch (vict_page->pge->type)] *)
Definition save_victim (pg : page) (e : page_entry) (dirty : bool) : C unit :=
  match e.(type) with
  | VM_BIN => if dirty then k ← in_swap (swap_out pg.(kaddr)); put_entry pg.(pge) (swapped k e) else mret tt
  | VM_ANON => k ← in_swap (swap_out pg.(kaddr)); put_entry pg.(pge) (swapped k e)
  end.

(** the part of [replacement_mem] after the victim has been chosen: the page is written
    to the swap device, during which other threads run ... *)
Definition evict_write (p : Z) : V page :=
  '(pg, th, e) ← in_bits (deref p);
  dirty ← in_bits (in_mmu (pagedir_is_dirty th.(pagedir) e.(vaddr)));
  in_bits (save_victim pg e dirty);;
  mret pg.

(** ... and then unmapped *)
Definition evict_unmap (p : Z) (pg : page) : V unit :=
  e ← in_bits (entry_at pg.(pge));
  in_bits (put_entry pg.(pge) (loaded false e));;
  __free_page p.

Definition evict (p : Z) : V unit := pg ← evict_write p; evict_unmap p pg.

Fixpoint find_page (k : Z) (l : list Z) : C Z :=
  match l with
  | [] => mret 0
  | p :: r => pg ← get_page p; if pg.(kaddr) =? k then mret p else find_page k r
  end.

Definition find_page_from_list_LRU (k : Z) : V Z :=
  assert (pg_ofs k =? 0);;
  l ← get_lru;
  in_bits (find_page k l.(list_LRU)).

Definition free_page_kaddr (k : Z) : V unit :=
  p ← find_page_from_list_LRU k;
  if p =? 0 then mret tt else __free_page p.

Definition free_page_vaddr (cur va : Z) : V unit :=
  th ← in_bits (thread_of cur);
  k ← in_bits (in_mmu (pagedir_get_page th.(pagedir) va));
  free_page_kaddr k.

Definition get_pge (cur va : Z) : C Z :=
  th ← thread_of cur; mret (default 0 (th.(sup_page_tab) !! pg_round_down va)).

Definition insert_pge (cur q : Z) : C bool :=
  assert (negb (q =? 0));;
  e ← entry_at q;
  assert (pg_ofs e.(vaddr) =? 0);;
  th ← thread_of cur;
  match th.(sup_page_tab) !! e.(vaddr) with
  | Some _ => mret false
  | None =>
    modify (λ c, set_procs (<[cur := mk_proc th.(pagedir) (<[e.(vaddr) := q]> th.(sup_page_tab)) th.(exec_file)]> c.(procs)) c);;
    mret true
  end.

(** [contents] is what the file of [e] holds *)
Definition load_file (k : Z) (e : page_entry) (contents : list Z) : C bool :=
  assert (negb (k =? 0));;
  assert (match e.(type) with VM_BIN => true | VM_ANON => false end);;
  let b := take (Z.to_nat e.(read_bytes)) (drop (Z.to_nat e.(offset)) contents) in
  in_mmu (in_palloc (in_mem (put_bytes k b)));;
  if Z.of_nat (length b) =? e.(read_bytes) then
    in_mmu (in_palloc (in_mem (memset (k + e.(read_bytes)) 0 e.(zero_bytes))));; mret true
  else mret false.

Definition spt_destroy_func (cur q : Z) : V unit :=
  e ← in_bits (entry_at q);
  in_bits (in_swap (swap_clear e.(swap_slot)));;
  free_page_vaddr cur e.(vaddr);;
  in_bits (modify (λ c, set_pges (delete q c.(pges)) c)).

(** [hash_destroy] comes to the entries [l] of the table in the order of its buckets *)
Fixpoint spt_destroy (cur : Z) (l : list Z) : V unit :=
  match l with [] => mret tt | q :: r => spt_destroy_func cur q;; spt_destroy cur r end.
End vm.

#[export] Instance page_bits init_page_dir : AccessOps core :=
  {| ab_test := is_accessed; ab_clear := clear_accessed init_page_dir |}.

(** * Taking a frame *)

Section alloc.
Context (init_page_dir init_ram_pages : Z).

Definition replacement_mem : V unit := p ← get_victim (H := page_bits init_page_dir); evict init_page_dir p.

(** the loop of [alloc_page], with a bound on its turns *)
Fixpoint alloc_loop (n : nat) (flags : Z) : V Z :=
  match n with
  | O => fail NoFuel
  | S n =>
    k ← in_bits (in_mmu (in_palloc (palloc_get_page flags)));
    if k =? 0 then replacement_mem;; alloc_loop n flags else mret k
  end.

Definition alloc_page (cur flags : Z) : V Z :=
  p ← in_bits malloc;
  if p =? 0 then mret 0 else
  in_bits (thread_of cur);;
  k ← alloc_loop 2 flags;
  in_bits (put_page p (mk_page k 0 cur));;
  mret p.

(** * userprog/process.c *)

(** the switch of [handle_mm_fault]: the page is read in and mapped *)
Definition fill_page (th : proc) (e : page_entry) (k : Z) : C bool :=
  match e.(type) with
  | VM_BIN =>
    ok ← load_file k e th.(exec_file);
    if (ok : bool) then in_mmu (install_page init_page_dir init_ram_pages th.(pagedir) e.(vaddr) k e.(pwritable)) else mret false
  | VM_ANON =>
    in_swap (swap_in e.(swap_slot) k);;
    assert (pg_ofs k =? 0);;
    in_mmu (install_page init_page_dir init_ram_pages th.(pagedir) e.(vaddr) k e.(pwritable))
  end.

(** [add_page_to_list_LRU], with the assertions on the thread *)
Definition add_page (p : Z) : V unit :=
  pg ← in_bits (get_page p);
  in_bits (thread_of pg.(pthread));;
  add_page_to_list_LRU p.

Definition handle_mm_fault (cur q : Z) : V bool :=
  p ← alloc_page cur PAL_USER;
  assert (negb (p =? 0));;
  pg ← in_bits (get_page p);
  assert (pg_ofs pg.(kaddr) =? 0);;
  assert (negb (q =? 0));;
  in_bits (put_page p (mk_page pg.(kaddr) q pg.(pthread)));;
  e ← in_bits (entry_at q);
  th ← in_bits (thread_of cur);
  ok ← in_bits (fill_page th e pg.(kaddr));
  if (ok : bool) then
    in_bits (put_entry q (loaded true e));; add_page p;; mret true
  else free_page_kaddr init_page_dir p;; mret false.

(** what [setup_stack] and [stack_grow] share: a zeroed page at [upage].  [None] when
    no memory is left for the page itself, else whether it was mapped. *)
Definition new_page (cur upage q : Z) : V (option bool) :=
  p ← alloc_page cur (Z.lor PAL_USER PAL_ZERO);
  if p =? 0 then mret None else
  pg ← in_bits (get_page p);
  in_bits (put_page p (mk_page pg.(kaddr) q pg.(pthread)));;
  add_page p;;
  th ← in_bits (thread_of cur);
  ok ← in_bits (in_mmu (install_page init_page_dir init_ram_pages th.(pagedir) upage pg.(kaddr) true));
  if (ok : bool) then
    in_bits (put_entry q (mk_pge VM_ANON upage true true 0 0 0 0));;
    in_bits (insert_pge cur q);;
    mret (Some true)
  else free_page_kaddr init_page_dir p;; mret (Some false).

(** the result and the stack pointer, if it was set *)
Definition setup_stack (cur : Z) : V (bool * option Z) :=
  q ← in_bits malloc;
  if q =? 0 then mret (false, None) else
  r ← new_page cur (PHYS_BASE - PGSIZE) q;
  mret (match r with Some true => (true, Some (PHYS_BASE - 12)) | Some false => (false, None) | None => (true, None) end).

Definition stack_grow (cur addr : Z) : V unit :=
  q ← in_bits malloc;
  if q =? 0 then mret tt else
  new_page cur (pg_round_down addr) q;; mret tt.

(** * userprog/exception.c, userprog/syscall.c *)

Definition is_valid_stack (addr esp : Z) : bool :=
  is_user_vaddr (u32 addr) && (s32 (s32 esp - s32 addr) <=? 32) && (u32 (0xC0000000 - s32 addr) <=? 8 * 1024 * 1024).

Inductive fault := Resume | Exit (status : Z).

(** [fault_addr] is CR2, [esp] the stack pointer of the interrupt frame *)
Definition page_fault (cur fault_addr error_code esp : Z) : V fault :=
  let not_present := Z.land error_code 1 =? 0 in
  q ← in_bits (get_pge cur fault_addr);
  if q =? 0 then
    if is_valid_stack fault_addr esp then stack_grow cur fault_addr;; mret Resume else mret (Exit (-1))
  else if not_present then
    ok ← handle_mm_fault cur q; mret (if (ok : bool) then Resume else Exit (-1))
  else mret (Exit (-1)).
End alloc.
