(* ===== verification/VmSpec.v ===== *)
(** Virtual memory, proved: the pages of the processes keep their bytes while frames
    are taken from them and given back.

    The memory of a process is what its pages hold, wherever the bytes are: in a
    frame, in a slot of the swap device or in the executable ([data]).  [vm_inv]
    is the invariant of the tables, the frames and the slots. *)

From S2P Require Import Prelude Vaddr Bitmap CString Words Palloc Pagedir AddrSpace Elf Swap Frame Vm.

(** * The frames and the page tables *)

(** from [s] to [s'], the pages of the user pool other than [k] have not changed, and
    the page directories [L] are still in order *)
Record moves (init : Z) (L : gset Z) (s s' : mmu) (k : Z) : Prop := {
  mv_world : world_inv init s' L;
  mv_used x : x ≠ k → used (upool s') x ↔ used (upool s) x;
  mv_mem x a : used (upool s) x → x ≠ k → x ≤ a < x + 4096 → mm s' !! a = mm s !! a;
  mv_end : pool_end (upool s') = pool_end (upool s) ∧ (upool s').(base) = (upool s).(base)
}.

Lemma moves_refl init L s k : world_inv init s L → moves init L s s k.
Proof. by split. Qed.

Lemma moves_trans init L s1 s2 s3 k : moves init L s1 s2 k → moves init L s2 s3 k → moves init L s1 s3 k.
Proof.
  intros [] []. split; [done|..].
  - intros x Hx. by rewrite mv_used1, mv_used0.
  - intros x a Hu Hx Ha. rewrite (mv_mem1 x) by (done || by apply mv_used0). by apply (mv_mem0 x).
  - destruct mv_end0, mv_end1. split; congruence.
Qed.

(** what is known of the entries *)
Definition same_entries (L : gset Z) (s s' : mmu) : Prop :=
  ∀ pd va, pd ∈ L → user_addr va → entry (mm s') pd va = entry (mm s) pd va.

Lemma moves_update init L s s' pd va v k : world_inv init s L → world_inv init s' L → pd ∈ L → updates s s' pd va v →
  moves init L s s' k ∧ ∀ pd' va', pd' ∈ L → user_addr va' →
    entry (mm s') pd' va' = if bool_decide (pd' = pd ∧ pg_no va' = pg_no va) then v else entry (mm s) pd' va'.
Proof.
  intros Hw Hw' Hpd [Hch He]. split; [split|].
  - done.
  - intros x _. by rewrite (ch_upool _ _ _ Hch).
  - intros x a Hu _ Ha. apply (ch_mem _ _ _ Hch). intros y Hy Hya.
    apply (owns_used s' pd) in Hy; [|apply Hw', Hpd]. rewrite <- (ch_upool _ _ _ Hch) in Hu.
    apply (pages_apart x y a a); [by eapply used_align..|intros ->|done|done|done].
    by apply (pools_apart s' y (wi_wf _ _ _ Hw')).
  - by rewrite (ch_upool _ _ _ Hch).
  - intros pd' va' Hpd' Hva'. case_bool_decide as Hc.
    + destruct Hc as [-> Hc]. rewrite He by done. by rewrite Hc, Z.eqb_refl.
    + destruct (decide (pd' = pd)) as [->|Hne].
      * rewrite He by done. destruct (Z.eqb_spec (pg_no va') (pg_no va)); naive_solver.
      * apply (frame_entry s s' pd pd'); [by apply changes_touches|by apply Hw| |done].
        apply changes_apart; [done|by apply Hw|by apply (wi_sep _ _ _ Hw)].
Qed.

(** a change of page [k] of the user pool, or of its use *)
Lemma moves_user init L s s' k : world_inv init s L → mmu_wf s' → kpage_at k → ¬ used (kpool s) k →
  (∀ x, used (kpool s') x ↔ used (kpool s) x) → (∀ x, x ≠ k → used (upool s') x ↔ used (upool s) x) →
  (∀ a, ¬ (k ≤ a < k + 4096) → mm s' !! a = mm s !! a) → s'.(cr3) = s.(cr3) → s'.(tlb) = s.(tlb) →
  pool_end (upool s') = pool_end (upool s) ∧ (upool s').(base) = (upool s).(base) → moves init L s s' k ∧ same_entries L s s'.
Proof.
  intros Hw Hwf' [Hk _] Hnk Hkp Hup Hm Hc Ht He.
  assert (Hmem : ∀ x a, used (kpool s) x → x ≤ a < x + 4096 → mm s' !! a = mm s !! a).
  { intros x a Hu Ha. apply Hm. intros Ha'. apply (pages_apart x k a a); [by eapply used_align|done|by intros ->|done..]. }
  assert (Hown : ∀ pd x a, pd ∈ L → owns (mm s) pd x → x ≤ a < x + 4096 → mm s' !! a = mm s !! a).
  { intros pd x a Hpd Ho. apply Hmem. by apply (owns_used s pd); [apply Hw|]. }
  assert (Hdir : ∀ pd i, pd ∈ L → 0 ≤ i < 768 → dir_entry (mm s') pd i = dir_entry (mm s) pd i).
  { intros pd i Hpd. apply dir_entry_ext. intros a. apply (Hown pd pd); [done|by left]. }
  assert (Hent : same_entries L s s') by (intros pd va Hpd Hva; apply entry_ext; [done|]; intros x a; by apply Hown).
  assert (Hao : ∀ pd x, pd ∈ L → owns (mm s') pd x ↔ owns (mm s) pd x).
  { intros pd x Hpd. unfold owns. split; (intros [?|(i & Hi & H)]; [by left|right; exists i; split; [done|]]).
    - by rewrite Hdir in H. - by rewrite Hdir. }
  assert (Ea : active s' = active s) by (unfold active; by rewrite Hc).
  split; [|done]. split; [split|done|..].
  - done.
  - rewrite Hc. apply Hw.
  - rewrite Ea. apply Hw.
  - apply Hw.
  - destruct (wi_init_ok _ _ _ Hw) as [(l & Hl & Hb) Hz]. split.
    + exists l. split; [done|]. eapply bytes_ext; [|done]. intros a Ha. apply (Hown init init); [apply Hw|by left|lia].
    + intros i Hi. rewrite Hdir by (done || apply Hw). by apply Hz.
  - intros pd Hpd. pose proof (wi_dirs _ _ _ Hw pd Hpd) as [Hp1 Hp2 Hp3]. split.
    + by apply Hkp.
    + intros i Hi. rewrite Hdir by done. intros Hd. destruct (Hp2 i Hi Hd) as (? & ? & ?). by rewrite Hkp.
    + intros i j Hi Hj. rewrite !Hdir by done. by apply Hp3.
  - intros p1 p2 H1 H2 Hne x. rewrite !Hao by done. by apply (wi_sep _ _ _ Hw).
  - intros pd va Hpd Hva. rewrite Hent by done. by apply (wi_frames _ _ _ Hw).
  - intros va e Hva He'. rewrite Ht in He'. rewrite Ea. unfold mapping. rewrite Hent by (done || apply Hw). by apply (wi_tlb _ _ _ Hw).
  - intros x a Hu Hx Ha. apply Hm. intros Ha'. apply (pages_apart x k a a); [by eapply used_align|done..].
  - done.
Qed.

(** ** Operations that leave the kernel pool alone *)

Definition same_kpool {A} (x : D A) : Prop := ∀ s a s', x s = Ok (a, s') → kpool s' = kpool s.

Lemma same_ret {A} (a : A) : same_kpool (mret a).
Proof. by intros ? ? ? [=_ ->]. Qed.

Lemma same_bind {A B} (x : D A) (f : A → D B) : same_kpool x → (∀ a, same_kpool (f a)) → same_kpool (x ≫= f).
Proof.
  intros Hx Hf s b s'. unfold mbind, M_bind. destruct (x s) as [[a s1]|] eqn:E; [|done]. intros E'.
  rewrite (Hf _ _ _ _ E'). by eapply Hx.
Qed.

Lemma same_if {A} (b : bool) (x y : D A) : same_kpool x → same_kpool y → same_kpool (if b then x else y).
Proof. by destruct b. Qed.

Lemma same_assert b : same_kpool (assert b).
Proof. destruct b; [apply same_ret|done]. Qed.

Lemma same_lift {A} (o : outcome A) : same_kpool (lift_out o).
Proof. intros s a s'. unfold lift_out. destruct o; by intros [=_ ->]. Qed.

Lemma same_mem {A} (x : B A) : same_kpool (in_palloc (in_mem x)).
Proof. intros s a s'. unfold in_palloc, in_mem. destruct (x _) as [[? ?]|]; [|done]. by intros [=_ <-]. Qed.

Lemma same_get : same_kpool get.
Proof. by intros ? ? ? [=_ ->]. Qed.

Lemma same_cr3 v : same_kpool (write_cr3 v).
Proof. by intros ? ? ? [=_ <-]. Qed.

Create HintDb kpool.
#[local] Hint Resolve same_ret same_bind same_if same_assert same_lift same_mem same_get same_cr3 : kpool.

Lemma same_lookup pd va : same_kpool (lookup_page pd va false).
Proof. unfold lookup_page, ld. auto 20 with kpool. Qed.

Lemma same_invalidate init pd : same_kpool (invalidate_pagedir init pd).
Proof. unfold invalidate_pagedir, active_pd, pagedir_activate. auto 20 with kpool. Qed.
#[local] Hint Resolve same_lookup same_invalidate : kpool.

Lemma same_put_flag init pd va f v : same_kpool (put_flag init pd va f v).
Proof. unfold put_flag, ld, st. auto 20 with kpool. Qed.

Lemma same_clear init pd va : same_kpool (pagedir_clear_page init pd va).
Proof. unfold pagedir_clear_page, ld, st. auto 20 with kpool. Qed.

(** * Where the bytes of a page are *)

Definition frame (m : mem) (k : Z) : list Z := (λ i, default 0 (m !! (k + i))) <$> seqZ 0 4096.

Lemma length_frame m k : length (frame m k) = Z.to_nat 4096.
Proof. unfold frame. by rewrite length_fmap, length_seqZ. Qed.

Lemma frame_ext m m' k : (∀ a, k ≤ a < k + 4096 → m' !! a = m !! a) → frame m' k = frame m k.
Proof.
  intros H. apply list_fmap_ext. intros i x Hx. apply list_elem_of_lookup_2, elem_of_seqZ in Hx. by rewrite H by lia.
Qed.

Lemma frame_bytes m k l : bytes m k l → length l = Z.to_nat 4096 → frame m k = l.
Proof.
  intros Hb Hl. apply list_eq. intros i. unfold frame. rewrite list_lookup_fmap.
  destruct (decide (i < Z.to_nat 4096)%nat) as [Hi|Hi].
  - rewrite lookup_seqZ_lt by lia. destruct (lookup_lt_is_Some_2 l i ltac:(lia)) as [v Ev]. rewrite Ev.
    apply bytes_lookup with (i := i) (v := v) in Hb; [|done]. cbn [fmap option_fmap option_map].
    replace (k + (0 + Z.of_nat i)) with (k + Z.of_nat i) by lia. by rewrite (proj1 Hb).
  - rewrite lookup_seqZ_ge by lia. rewrite lookup_ge_None_2 by lia. done.
Qed.

Section data.
Context (c : core).

(** the bytes of the page of entry [e] *)
Definition data (th : proc) (e : page_entry) : list Z :=
  if e.(is_loaded) then
    match mapping (mm c.(cmmu)) th.(pagedir) e.(vaddr) with Some (k, _) => frame (mm c.(cmmu)) k | None => [] end
  else match e.(type) with
       | VM_ANON => slot c.(cdev) (e.(swap_slot) - 1)
       | VM_BIN => default [] (Elf.load_file e th.(exec_file))
       end.

Definition has_entry (t : Z) (th : proc) (va q : Z) : Prop :=
  c.(procs) !! t = Some th ∧ th.(sup_page_tab) !! va = Some q.

(** the memory of process [t]: the bytes of the page at [va] *)
Definition page_data (t va : Z) : option (list Z) :=
  th ← c.(procs) !! t; q ← th.(sup_page_tab) !! va; e ← c.(pges) !! q; Some (data th e).

Definition dirty (th : proc) (va : Z) : bool := has (entry (mm c.(cmmu)) th.(pagedir) va) PTE_D.

(** a page in a frame: one page of the list [l] holds it, and a page of the
    executable that has not been written is as in the file *)
Definition resident (l : list Z) (t : Z) (th : proc) (q : Z) (e : page_entry) : Prop :=
  ∃ p k, p ∈ l ∧ c.(pages) !! p = Some (mk_page k q t) ∧ mapping (mm c.(cmmu)) th.(pagedir) e.(vaddr) = Some (k, e.(pwritable)) ∧
    used (upool c.(cmmu)) k ∧ bytes (mm c.(cmmu)) k (frame (mm c.(cmmu)) k) ∧
    (e.(type) = VM_BIN → dirty th e.(vaddr) = false → Elf.load_file e th.(exec_file) = Some (frame (mm c.(cmmu)) k)).

(** a page that is in no frame: an anonymous one has a slot *)
Definition absent (th : proc) (e : page_entry) : Prop :=
  mapping (mm c.(cmmu)) th.(pagedir) e.(vaddr) = None ∧
  (e.(type) = VM_ANON → 0 ≤ e.(swap_slot) - 1 < c.(cbitmap).(bit_cnt) ∧ bit c.(cbitmap) (e.(swap_slot) - 1) = true).

Record entry_ok (l : list Z) (t : Z) (th : proc) (va q : Z) (e : page_entry) : Prop := {
  eo_nz : q ≠ 0;
  eo_vaddr : e.(vaddr) = va;
  eo_user : user_addr va ∧ va mod 4096 = 0;
  eo_bin : e.(type) = VM_BIN → ∃ b, Elf.load_file e th.(exec_file) = Some b ∧ length b = Z.to_nat 4096 ∧ ∀ v, v ∈ b → 0 ≤ v < 256;
  eo_state : if e.(is_loaded) then resident l t th q e else absent th e
}.
End data.

Record vm_inv (init ram : Z) (L : gset Z) (s : lru * core) (l := s.1.(list_LRU)) (c := s.2) : Prop := {
  vi_world : world_inv init c.(cmmu) L;
  vi_ram : pool_end (upool c.(cmmu)) ≤ PHYS_BASE + 4096 * ram;
  vi_swap : swap_wf (swap_of c);
  vi_list : NoDup l ∧ ∃ q, order s.1 q;
  vi_heap : 0 < c.(heap_next) ∧ (∀ p pg, c.(pages) !! p = Some pg → 0 < p < c.(heap_next)) ∧
            (∀ q e, c.(pges) !! q = Some e → 0 < q < c.(heap_next));
  vi_proc t th : c.(procs) !! t = Some th → t ≠ 0 ∧ th.(pagedir) ∈ L ∧ th.(pagedir) ≠ init;
  vi_proc_inj t t' th th' : c.(procs) !! t = Some th → c.(procs) !! t' = Some th' → th.(pagedir) = th'.(pagedir) → t = t';
  vi_entry t th va q : has_entry c t th va q → ∃ e, c.(pges) !! q = Some e ∧ entry_ok c l t th va q e;
  vi_entry_inj t th va t' th' va' q : has_entry c t th va q → has_entry c t' th' va' q → t = t' ∧ va = va';
  vi_page p : p ∈ l → ∃ t th va q e k, c.(pages) !! p = Some (mk_page k q t) ∧ has_entry c t th va q ∧
    c.(pges) !! q = Some e ∧ e.(is_loaded) = true;
  vi_page_inj p p' pg pg' : p ∈ l → p' ∈ l → c.(pages) !! p = Some pg → c.(pages) !! p' = Some pg' →
    pg.(pge) = pg'.(pge) ∨ pg.(kaddr) = pg'.(kaddr) → p = p';
  vi_slots t th va q e t' th' va' q' e' : has_entry c t th va q → has_entry c t' th' va' q' →
    c.(pges) !! q = Some e → c.(pges) !! q' = Some e' → e.(is_loaded) = false → e'.(is_loaded) = false →
    e.(type) = VM_ANON → e'.(type) = VM_ANON → e.(swap_slot) = e'.(swap_slot) → q = q';
  vi_maps t th va : c.(procs) !! t = Some th → user_addr va → va mod 4096 = 0 →
    mapping (mm c.(cmmu)) th.(pagedir) va ≠ None → is_Some (th.(sup_page_tab) !! va);
  vi_frames x : used (upool c.(cmmu)) x → ∃ p pg, p ∈ l ∧ c.(pages) !! p = Some pg ∧ pg.(kaddr) = x
}.

(** * Changing one page *)

(** from [s] to [s'] only the entry [q], the [struct page] [p], the frame [k] and the
    slot [n] have changed; entry [q] may be a new one *)
Record touch (init : Z) (L : gset Z) (s s' : lru * core) (q0 p0 k0 n0 : Z) (c := s.2) (c' := s'.2) : Prop := {
  tc_moves : moves init L c.(cmmu) c'.(cmmu) k0;
  tc_pges q : q ≠ q0 → c'.(pges) !! q = c.(pges) !! q;
  tc_pages p : p ≠ p0 → c'.(pages) !! p = c.(pages) !! p;
  tc_list p : p ≠ p0 → p ∈ s'.1.(list_LRU) ↔ p ∈ s.1.(list_LRU);
  tc_back t th' : c'.(procs) !! t = Some th' → ∃ th, c.(procs) !! t = Some th ∧ th'.(pagedir) = th.(pagedir) ∧
    th'.(exec_file) = th.(exec_file) ∧ ∀ va q, q ≠ q0 → th'.(sup_page_tab) !! va = Some q → th.(sup_page_tab) !! va = Some q;
  tc_forth t th : c.(procs) !! t = Some th → ∃ th', c'.(procs) !! t = Some th' ∧
    ∀ va q, th.(sup_page_tab) !! va = Some q → th'.(sup_page_tab) !! va = Some q;
  tc_entries t th' va : c'.(procs) !! t = Some th' → user_addr va → va mod 4096 = 0 → th'.(sup_page_tab) !! va ≠ Some q0 →
    mapping (mm c'.(cmmu)) th'.(pagedir) va = mapping (mm c.(cmmu)) th'.(pagedir) va ∧ dirty c' th' va = dirty c th' va;
  tc_cnt : c'.(cbitmap).(bit_cnt) = c.(cbitmap).(bit_cnt);
  tc_slots n : 0 ≤ n → n ≠ n0 → bit c'.(cbitmap) n = bit c.(cbitmap) n ∧ slot c'.(cdev) n = slot c.(cdev) n
}.

Section touch.
Context (init ram : Z) (L : gset Z) (s s' : lru * core) (q0 p0 k0 n0 : Z).
Abbreviation l := (s.1.(list_LRU)).
Abbreviation c := (s.2).
Abbreviation l' := (s'.1.(list_LRU)).
Abbreviation c' := (s'.2).
Hypothesis Hinv : vm_inv init ram L s.
Hypothesis Ht : touch init L s s' q0 p0 k0 n0.

(** in [s], [p0] is the page of [q0] and [k0] its frame, if they are in use at all *)
Hypothesis Hpage : ∀ p pg, p ∈ l → c.(pages) !! p = Some pg → p ≠ p0 → pg.(pge) ≠ q0 ∧ pg.(kaddr) ≠ k0.
Hypothesis Hslot : ∀ t th va q e, has_entry c t th va q → c.(pges) !! q = Some e → q ≠ q0 → e.(is_loaded) = false →
  e.(type) = VM_ANON → e.(swap_slot) - 1 ≠ n0.
Hypothesis Hp0 : p0 ∈ l → ∃ pg, c.(pages) !! p0 = Some pg ∧ pg.(pge) = q0 ∧ pg.(kaddr) = k0.

Lemma other_entry t th' va q : has_entry c' t th' va q → q ≠ q0 → ∃ th e, has_entry c t th va q ∧ c.(pges) !! q = Some e ∧
  c'.(pges) !! q = Some e ∧ th'.(pagedir) = th.(pagedir) ∧ th'.(exec_file) = th.(exec_file) ∧ entry_ok c l t th va q e.
Proof using Hinv Ht.
  intros [Ht' Hq'] Hq. destruct (tc_back _ _ _ _ _ _ _ _ Ht t th' Ht') as (th & E & Hd & Hx & Hs).
  assert (He : has_entry c t th va q) by (split; [done|by apply Hs]).
  destruct (vi_entry _ _ _ _ Hinv _ _ _ _ He) as (e & Ee & Hok). exists th, e. split_and!; try done.
  by rewrite (tc_pges _ _ _ _ _ _ _ _ Ht).
Qed.

Lemma other_ok t th' va q : has_entry c' t th' va q → q ≠ q0 →
  ∃ th e, has_entry c t th va q ∧ c.(pges) !! q = Some e ∧ c'.(pges) !! q = Some e ∧
    entry_ok c' l' t th' va q e ∧ data c' th' e = data c th e.
Proof using All.
  intros He' Hq. destruct (other_entry _ _ _ _ He' Hq) as (th & e & He & Ee & Ee' & Hd & Hx & [Hz Hva [Hu Hal] Hb Hst]).
  exists th, e. destruct He' as [Hth' Hq'].
  destruct (tc_entries _ _ _ _ _ _ _ _ Ht t th' va Hth' Hu Hal) as [Hm Hdi]; [congruence|].
  rewrite Hd in Hm. unfold dirty in Hdi. rewrite Hd in Hdi. subst va.
  assert (Hboth : (if is_loaded e then resident c' l' t th' q e else absent c' th' e) ∧ data c' th' e = data c th e).
  { unfold data. destruct (is_loaded e) eqn:El.
    - destruct Hst as (p & k & Hp & Epg & Emap & Hus & Hby & Hcl).
      assert (Hpp : p ≠ p0).
      { intros ->. destruct (Hp0 Hp) as (pg & Epg' & Hpg & _). rewrite Epg in Epg'. by simplify_eq. }
      destruct (Hpage _ _ Hp Epg Hpp) as [_ Hk]. simpl in Hk. pose proof (tc_moves _ _ _ _ _ _ _ _ Ht) as Hmv.
      assert (Hfr : frame (mm c'.(cmmu)) k = frame (mm c.(cmmu)) k).
      { apply frame_ext. intros a Ha. by apply (mv_mem _ _ _ _ _ Hmv k). }
      rewrite Hd, Hm, Emap. split; [|done]. exists p, k. split_and!.
      + by apply (tc_list _ _ _ _ _ _ _ _ Ht).
      + by rewrite (tc_pages _ _ _ _ _ _ _ _ Ht).
      + by rewrite Hd, Hm.
      + by apply (mv_used _ _ _ _ _ Hmv).
      + rewrite Hfr. eapply bytes_ext; [|exact Hby]. rewrite length_frame. intros a Ha. apply (mv_mem _ _ _ _ _ Hmv k); [done..|lia].
      + unfold dirty. by rewrite Hd, Hdi, Hx, Hfr.
    - destruct Hst as [Hmn Hsl]. unfold absent. rewrite Hd, Hm, Hx. destruct (type e) eqn:Ety; [|split; [split|]; done].
      destruct (Hsl eq_refl) as [Hrange Hbit]. pose proof (Hslot _ _ _ _ _ He Ee Hq El Ety) as Hn0.
      destruct (tc_slots _ _ _ _ _ _ _ _ Ht _ (proj1 Hrange) Hn0) as [Hb' Hs'].
      split; [|done]. split; [done|]. intros _. by rewrite Hb', (tc_cnt _ _ _ _ _ _ _ _ Ht). }
  destruct Hboth as [H1 H2]. split_and!; try done. split; try done. by rewrite Hx.
Qed.

(** entry [q0] and page [p0] are in order in [s'] *)
Hypothesis Hq0 : ∀ t th va, has_entry c' t th va q0 → ∃ e, c'.(pges) !! q0 = Some e ∧ entry_ok c' l' t th va q0 e ∧
  (e.(is_loaded) = false → e.(type) = VM_ANON → e.(swap_slot) - 1 = n0).
Hypothesis Hq0_inj : ∀ t th va t' th' va', has_entry c' t th va q0 → has_entry c' t' th' va' q0 → t = t' ∧ va = va'.
Hypothesis Hp0' : p0 ∈ l' → ∃ t th va e, c'.(pages) !! p0 = Some (mk_page k0 q0 t) ∧ has_entry c' t th va q0 ∧
    c'.(pges) !! q0 = Some e ∧ e.(is_loaded) = true.
Hypothesis Hlist : NoDup l' ∧ ∃ q, order s'.1 q.
Hypothesis Hswap : swap_wf (swap_of c').
Hypothesis Hheap : 0 < c'.(heap_next) ∧ (∀ p pg, c'.(pages) !! p = Some pg → 0 < p < c'.(heap_next)) ∧
  (∀ q e, c'.(pges) !! q = Some e → 0 < q < c'.(heap_next)).
Hypothesis Hused : used (upool c'.(cmmu)) k0 → p0 ∈ l'.

(** a page of [s'] other than [p0] *)
Lemma other_page p : p ∈ l' → p ≠ p0 → p ∈ l ∧ c'.(pages) !! p = c.(pages) !! p.
Proof using Ht. intros Hp Hne. split; [by apply (tc_list _ _ _ _ _ _ _ _ Ht)|by apply (tc_pages _ _ _ _ _ _ _ _ Ht)]. Qed.

Lemma forth_entry t th va q : has_entry c t th va q → ∃ th', has_entry c' t th' va q.
Proof using Ht. intros [H1 H2]. destruct (tc_forth _ _ _ _ _ _ _ _ Ht t th H1) as (th' & E & Hs). exists th'. split; auto. Qed.

Lemma touch_page p : p ∈ l' → ∃ t th va q e k, c'.(pages) !! p = Some (mk_page k q t) ∧ has_entry c' t th va q ∧
    c'.(pges) !! q = Some e ∧ e.(is_loaded) = true.
Proof using Hinv Ht Hpage Hp0'.
  intros Hp. destruct (decide (p = p0)) as [->|Hne].
  - destruct (Hp0' Hp) as (t & th & va & e & ?). by exists t, th, va, q0, e, k0.
  - destruct (other_page p Hp Hne) as [Hp1 Ep]. rewrite Ep.
    destruct (vi_page _ _ _ _ Hinv p Hp1) as (t & th & va & q & e & k & Epg & He & Ee & Hl).
    destruct (Hpage _ _ Hp1 Epg Hne) as [Hq _]. destruct (forth_entry _ _ _ _ He) as [th' He'].
    exists t, th', va, q, e, k. by rewrite (tc_pges _ _ _ _ _ _ _ _ Ht).
Qed.

Lemma touch_page_inj p p' pg pg' : p ∈ l' → p' ∈ l' → c'.(pages) !! p = Some pg → c'.(pages) !! p' = Some pg' →
    pg.(pge) = pg'.(pge) ∨ pg.(kaddr) = pg'.(kaddr) → p = p'.
Proof using Hinv Ht Hpage Hp0'.
  assert (Hx : ∀ p pg pg', p ∈ l' → p0 ∈ l' → p ≠ p0 → c'.(pages) !! p = Some pg → c'.(pages) !! p0 = Some pg' →
    pg.(pge) ≠ pg'.(pge) ∧ pg.(kaddr) ≠ pg'.(kaddr)).
  { intros q qg qg' Hp H0 Hne E E0. destruct (Hp0' H0) as (t & th & va & e & E0' & _). rewrite E0 in E0'. simplify_eq.
    destruct (other_page q Hp Hne) as [Hp1 Ep]. rewrite Ep in E. by apply (Hpage q). }
  intros Hp Hp' E E' Heq. destruct (decide (p = p0)) as [->|Hne], (decide (p' = p0)) as [->|Hne']; [done|..].
  - destruct (Hx p' pg' pg Hp' Hp Hne' E' E). destruct Heq; congruence.
  - destruct (Hx p pg pg' Hp Hp' Hne E E'). destruct Heq; congruence.
  - destruct (other_page p Hp Hne) as [Hp1 Ep], (other_page p' Hp' Hne') as [Hp1' Ep']. rewrite Ep in E. rewrite Ep' in E'.
    by apply (vi_page_inj _ _ _ _ Hinv p p' pg pg').
Qed.

Lemma touch_entry_inj t th va t' th' va' q : has_entry c' t th va q → has_entry c' t' th' va' q → t = t' ∧ va = va'.
Proof using Hinv Ht Hq0_inj.
  intros H H'. destruct (decide (q = q0)) as [->|Hne]; [by eapply Hq0_inj|].
  destruct (other_entry _ _ _ _ H Hne) as (? & ? & H1 & _), (other_entry _ _ _ _ H' Hne) as (? & ? & H1' & _).
  by eapply (vi_entry_inj _ _ _ _ Hinv).
Qed.

Lemma touch_slots t th va q e t' th' va' q' e' : has_entry c' t th va q → has_entry c' t' th' va' q' →
    c'.(pges) !! q = Some e → c'.(pges) !! q' = Some e' → e.(is_loaded) = false → e'.(is_loaded) = false →
    e.(type) = VM_ANON → e'.(type) = VM_ANON → e.(swap_slot) = e'.(swap_slot) → q = q'.
Proof using Hinv Ht Hslot Hq0.
  assert (Hx : ∀ t th va e t' th' va' q' e', has_entry c' t th va q0 → has_entry c' t' th' va' q' → q' ≠ q0 →
    c'.(pges) !! q0 = Some e → c'.(pges) !! q' = Some e' → e.(is_loaded) = false → e'.(is_loaded) = false →
    e.(type) = VM_ANON → e'.(type) = VM_ANON → e.(swap_slot) ≠ e'.(swap_slot)).
  { intros t1 th1 va1 e1 t2 th2 va2 q2 e2 H H' Hne E E' Hl Hl' Hty Hty'.
    destruct (Hq0 _ _ _ H) as (e0 & E0 & _ & Hn). rewrite E in E0. simplify_eq. specialize (Hn Hl Hty).
    destruct (other_entry _ _ _ _ H' Hne) as (? & e3 & H1 & E1 & E1' & _). rewrite E' in E1'. simplify_eq.
    specialize (Hslot _ _ _ _ _ H1 E1 Hne Hl' Hty'). congruence. }
  intros H H' E E' Hl Hl' Hty Hty' Hs. destruct (decide (q = q0)) as [->|Hne], (decide (q' = q0)) as [->|Hne']; [done|..].
  - by destruct (Hx _ _ _ _ _ _ _ _ _ H H' Hne' E E').
  - by destruct (Hx _ _ _ _ _ _ _ _ _ H' H Hne E' E).
  - destruct (other_entry _ _ _ _ H Hne) as (? & ? & H1 & E1 & E2 & _), (other_entry _ _ _ _ H' Hne') as (? & ? & H1' & E1' & E2' & _).
    simplify_eq. by eapply (vi_slots _ _ _ _ Hinv).
Qed.

Lemma touch_inv : vm_inv init ram L s'.
Proof using All.
  pose proof (tc_moves _ _ _ _ _ _ _ _ Ht) as Hmv. split.
  - apply Hmv.
  - rewrite (proj1 (mv_end _ _ _ _ _ Hmv)). apply Hinv.
  - done.
  - done.
  - done.
  - intros t th' H. destruct (tc_back _ _ _ _ _ _ _ _ Ht t th' H) as (th & E & -> & _). by apply (vi_proc _ _ _ _ Hinv).
  - intros t t' th th' H H' Heq. destruct (tc_back _ _ _ _ _ _ _ _ Ht t th H) as (? & ? & ? & _).
    destruct (tc_back _ _ _ _ _ _ _ _ Ht t' th' H') as (? & ? & ? & _). eapply (vi_proc_inj _ _ _ _ Hinv); [done..|congruence].
  - intros t th va q H. destruct (decide (q = q0)) as [->|Hne].
    + destruct (Hq0 _ _ _ H) as (e & ? & ? & _). by exists e.
    + destruct (other_ok _ _ _ _ H Hne) as (? & e & _ & _ & ? & ? & _). by exists e.
  - apply touch_entry_inj.
  - apply touch_page.
  - apply touch_page_inj.
  - apply touch_slots.
  - intros t th' va H Hu Hal Hm. destruct (decide (th'.(sup_page_tab) !! va = Some q0)) as [->|Hne]; [done|].
    destruct (tc_entries _ _ _ _ _ _ _ _ Ht t th' va H Hu Hal Hne) as [Em _]. rewrite Em in Hm.
    destruct (tc_back _ _ _ _ _ _ _ _ Ht t th' H) as (th & E & Hd & _). rewrite Hd in Hm.
    destruct (vi_maps _ _ _ _ Hinv t th va E Hu Hal Hm) as [q Hq].
    destruct (forth_entry t th va q (conj E Hq)) as (th2 & H2 & Hq2). rewrite H in H2. simplify_eq. by exists q.
  - intros x Hx. destruct (decide (x = k0)) as [->|Hne].
    + destruct (Hp0' (Hused Hx)) as (t & th & va & e & E & _). exists p0, (mk_page k0 q0 t). auto.
    + apply (mv_used _ _ _ _ _ Hmv) in Hx; [|done]. destruct (vi_frames _ _ _ _ Hinv x Hx) as (p & pg & Hp & E & Hk).
      exists p, pg. assert (p ≠ p0).
      { intros ->. destruct (Hp0 Hp) as (pg' & E' & _ & Hk'). congruence. }
      split; [by apply (tc_list _ _ _ _ _ _ _ _ Ht)|]. by rewrite (tc_pages _ _ _ _ _ _ _ _ Ht).
Qed.

Lemma touch_data t va : (∀ th, ¬ has_entry c' t th va q0) → page_data c' t va = page_data c t va.
Proof using Hinv Ht Hpage Hslot Hp0.
  intros Hn. unfold page_data. destruct (c.(procs) !! t) as [th|] eqn:E; cbn [mbind option_bind].
  2: { destruct (c'.(procs) !! t) as [th'|] eqn:E'; [|done]. destruct (tc_back _ _ _ _ _ _ _ _ Ht t th' E') as (? & ? & _). congruence. }
  destruct (tc_forth _ _ _ _ _ _ _ _ Ht t th E) as (th' & E' & Hs). rewrite E'. cbn [mbind option_bind].
  destruct (th'.(sup_page_tab) !! va) as [q|] eqn:Eq; cbn [mbind option_bind].
  2: { destruct (th.(sup_page_tab) !! va) as [q|] eqn:Eq'; [|done]. apply Hs in Eq'. congruence. }
  assert (Hq : q ≠ q0) by (intros ->; by apply (Hn th')).
  destruct (other_ok t th' va q (conj E' Eq) Hq) as (th2 & e & [E2 Eq2] & Ee & Ee' & _ & Hd).
  rewrite E in E2. simplify_eq. rewrite Eq2. cbn [mbind option_bind]. rewrite Ee, Ee'. cbn [mbind option_bind]. by rewrite Hd.
Qed.
End touch.

(** * The accessed bits *)

Section pages.
Context (init ram : Z) (L : gset Z).

(** what the invariant says of a page of the list *)
Record page_facts (c : core) (p t : Z) (th : proc) (q : Z) (e : page_entry) (k : Z) : Prop := {
  pf_page : c.(pages) !! p = Some (mk_page k q t);
  pf_entry : has_entry c t th e.(vaddr) q;
  pf_pge : c.(pges) !! q = Some e;
  pf_loaded : e.(is_loaded) = true;
  pf_nz : p ≠ 0 ∧ q ≠ 0 ∧ t ≠ 0;
  pf_dir : th.(pagedir) ∈ L ∧ th.(pagedir) ≠ init;
  pf_addr : user_addr e.(vaddr) ∧ e.(vaddr) mod 4096 = 0;
  pf_map : mapping (mm c.(cmmu)) th.(pagedir) e.(vaddr) = Some (k, e.(pwritable));
  pf_used : used (upool c.(cmmu)) k;
  pf_bytes : bytes (mm c.(cmmu)) k (frame (mm c.(cmmu)) k);
  pf_bin : e.(type) = VM_BIN → ∃ b, Elf.load_file e th.(exec_file) = Some b ∧ length b = Z.to_nat 4096 ∧ ∀ v, v ∈ b → 0 ≤ v < 256;
  pf_clean : e.(type) = VM_BIN → dirty c th e.(vaddr) = false → Elf.load_file e th.(exec_file) = Some (frame (mm c.(cmmu)) k)
}.

Lemma inv_page lr c p : vm_inv init ram L (lr, c) → p ∈ lr.(list_LRU) → ∃ t th q e k, page_facts c p t th q e k.
Proof using.
  intros Hinv Hp. destruct (vi_page _ _ _ _ Hinv p Hp) as (t & th & va & q & e & k & Epg & He & Ee & Hl). simpl in *.
  destruct (vi_entry _ _ _ _ Hinv _ _ _ _ He) as (e' & Ee' & [Hz <- Hu Hb Hst]). simpl in *. rewrite Ee in Ee'. simplify_eq.
  rewrite Hl in Hst. destruct Hst as (p' & k' & Hp' & Epg' & Hm & Hus & Hby & Hcl).
  assert (p' = p) as -> by (eapply (vi_page_inj _ _ _ _ Hinv); [done..|by left]). rewrite Epg in Epg'. simplify_eq.
  destruct (vi_proc _ _ _ _ Hinv t th (proj1 He)) as (Ht & Hd & Hi). exists t, th, q, e', k'. split; try done.
  split; [|done]. destruct (vi_heap _ _ _ _ Hinv) as (_ & Hpg & _). specialize (Hpg p _ Epg). lia.
Qed.

Lemma nz_neq x : x ≠ 0 → negb (x =? 0) = true.
Proof using. intros. by apply negb_true_iff, Z.eqb_neq. Qed.

Lemma thread_of_eq c t th : t ≠ 0 → c.(procs) !! t = Some th → thread_of t c = Ok (th, c).
Proof using. intros Ht E. unfold thread_of. rewrite assert_bind by (by apply nz_neq). unfold mbind, M_bind, get; simpl. by rewrite E. Qed.

Lemma get_page_eq c p pg : c.(pages) !! p = Some pg → get_page p c = Ok (pg, c).
Proof using. intros E. unfold get_page, mbind, M_bind, get; simpl. by rewrite E. Qed.

Lemma entry_at_eq c q e : c.(pges) !! q = Some e → entry_at q c = Ok (e, c).
Proof using. intros E. unfold entry_at, mbind, M_bind, get; simpl. by rewrite E. Qed.

Lemma in_mmu_eq {A} (x : D A) c a m : x c.(cmmu) = Ok (a, m) → in_mmu x c = Ok (a, set_mmu m c).
Proof using. intros E. unfold in_mmu. by rewrite E. Qed.

Lemma set_mmu_id c : set_mmu c.(cmmu) c = c.
Proof using. by destruct c. Qed.

Lemma in_bits_eq {S A} (x : M S A) (l : lru) c a c' : x c = Ok (a, c') → in_bits x (l, c) = Ok (a, (l, c')).
Proof using. intros E. unfold in_bits. by rewrite E. Qed.

Lemma deref_raw c p k q t th e : p ≠ 0 → q ≠ 0 → t ≠ 0 → c.(pages) !! p = Some (mk_page k q t) → c.(procs) !! t = Some th →
  c.(pges) !! q = Some e → deref p c = Ok (mk_page k q t, th, e, c).
Proof using.
  intros Hp Hq Ht Ep Et Ee. unfold deref. rewrite assert_bind by (by apply nz_neq).
  rewrite (bind_ok _ _ _ _ _ (get_page_eq _ _ _ Ep)), (bind_ok _ _ _ _ _ (thread_of_eq _ _ _ Ht Et)).
  rewrite assert_bind by (by apply nz_neq). by rewrite (bind_ok _ _ _ _ _ (entry_at_eq _ _ _ Ee)).
Qed.

Lemma deref_eq c p t th q e k : page_facts c p t th q e k → deref p c = Ok (mk_page k q t, th, e, c).
Proof using. intros [? [? _] ? _ (? & ? & ?) _ _ _ _ _ _ _]. by apply deref_raw. Qed.

(** only the accessed bits of the tables have changed *)
Record quiet (c c' : core) : Prop := {
  qt_moves : moves init L c.(cmmu) c'.(cmmu) 0;
  qt_core : c' = set_mmu c'.(cmmu) c;
  qt_kpool : kpool c'.(cmmu) = kpool c.(cmmu);
  qt_map pd va : pd ∈ L → user_addr va → mapping (mm c'.(cmmu)) pd va = mapping (mm c.(cmmu)) pd va ∧
    has (entry (mm c'.(cmmu)) pd va) PTE_D = has (entry (mm c.(cmmu)) pd va) PTE_D
}.

Lemma quiet_refl c : world_inv init c.(cmmu) L → quiet c c.
Proof using. intros H. split; [by apply moves_refl|by rewrite set_mmu_id|done|done]. Qed.

Lemma quiet_trans c1 c2 c3 : quiet c1 c2 → quiet c2 c3 → quiet c1 c3.
Proof using.
  intros [] []. split; [by eapply moves_trans|rewrite qt_core1, qt_core0; done|congruence|].
  intros pd va Hpd Hva. destruct (qt_map0 pd va Hpd Hva), (qt_map1 pd va Hpd Hva). split; congruence.
Qed.

Section quiet.
Context (lr lr' : lru) (c c' : core).
Hypothesis Hinv : vm_inv init ram L (lr, c).
Hypothesis Hq : quiet c c'.
Hypothesis Hl : lr'.(list_LRU) = lr.(list_LRU).

Lemma quiet_touch : touch init L (lr, c) (lr', c') 0 0 0 (-1).
Proof using All.
  pose proof (qt_core _ _ Hq) as Hc. split; cbn [fst snd].
  - apply Hq.
  - intros. by rewrite Hc.
  - intros. by rewrite Hc.
  - intros. by rewrite Hl.
  - intros t th. rewrite Hc. simpl. intros E. by exists th.
  - intros t th. rewrite Hc. simpl. intros E. by exists th.
  - intros t th va. rewrite Hc at 1. simpl. intros E Hu _ _. destruct (vi_proc _ _ _ _ Hinv t th E) as (_ & Hd & _).
    by apply (qt_map _ _ Hq).
  - by rewrite Hc.
  - intros. by rewrite Hc.
Qed.

Lemma quiet_zero p pg : p ∈ lr.(list_LRU) → c.(pages) !! p = Some pg → p ≠ 0 ∧ pg.(pge) ≠ 0 ∧ pg.(kaddr) ≠ 0.
Proof using Hinv.
  intros Hp E. destruct (inv_page lr c p Hinv Hp) as (t & th & q & e & k & Hf). pose proof (pf_page _ _ _ _ _ _ _ Hf) as E'.
  rewrite E in E'. simplify_eq. simpl. destruct (pf_nz _ _ _ _ _ _ _ Hf) as (? & ? & _). split_and!; try done.
  destruct (pf_used _ _ _ _ _ _ _ Hf) as (Hr & _). pose proof (awf_user _ (mw_palloc _ (wi_wf _ _ _ (vi_world _ _ _ _ Hinv)))) as [_ [? _] _].
  simpl in *. unfold upool in *. lia.
Qed.

Lemma no_slot t th va q e : has_entry c t th va q → c.(pges) !! q = Some e → q ≠ 0 → e.(is_loaded) = false →
  e.(type) = VM_ANON → e.(swap_slot) - 1 ≠ -1.
Proof using Hinv.
  intros He Ee _ Hl' Hty. destruct (vi_entry _ _ _ _ Hinv _ _ _ _ He) as (e' & Ee' & [_ _ _ _ Hst]). simpl in *.
  rewrite Ee in Ee'. simplify_eq. rewrite Hl' in Hst. destruct (proj2 Hst Hty). lia.
Qed.

Lemma no_page : 0 ∉ lr.(list_LRU).
Proof using Hinv. intros Hp. destruct (inv_page lr c 0 Hinv Hp) as (? & ? & ? & ? & ? & Hf). by destruct (pf_nz _ _ _ _ _ _ _ Hf). Qed.

Lemma no_entry t th va : ¬ has_entry c' t th va 0.
Proof using Hinv Hq.
  unfold has_entry. rewrite (qt_core _ _ Hq). simpl. intros He. destruct (vi_entry _ _ _ _ Hinv t th va 0 He) as (? & _ & [? _ _ _ _]). done.
Qed.

Lemma quiet_inv : (∃ q, order lr' q) → vm_inv init ram L (lr', c').
Proof using All.
  intros Ho. pose proof (qt_core _ _ Hq) as Hc.
  apply (touch_inv init ram L (lr, c) (lr', c') 0 0 0 (-1) Hinv quiet_touch); cbn [fst snd].
  - intros p pg Hp E _. by apply (quiet_zero p).
  - apply no_slot.
  - intros Hp. by destruct (no_page Hp).
  - intros t th va He. by destruct (no_entry t th va).
  - intros t th va t' th' va' He. by destruct (no_entry t th va).
  - rewrite Hl. intros Hp. by destruct (no_page Hp).
  - rewrite Hl. split; [apply Hinv|done].
  - rewrite Hc. destruct (vi_swap _ _ _ _ Hinv). by split.
  - rewrite Hc. apply Hinv.
  - intros (Hr & _). pose proof (awf_user _ (mw_palloc _ (wi_wf _ _ _ (mv_world _ _ _ _ _ (qt_moves _ _ Hq))))) as [_ [? _] _].
    unfold upool in *. lia.
Qed.

Lemma quiet_data t va : page_data c' t va = page_data c t va.
Proof using All.
  apply (touch_data init ram L (lr, c) (lr', c') 0 0 0 (-1) Hinv quiet_touch); cbn [fst snd].
  - intros p pg Hp E _. by apply (quiet_zero p).
  - apply no_slot.
  - intros Hp. by destruct (no_page Hp).
  - intros th. apply no_entry.
Qed.
End quiet.

(** clearing the accessed bit of a page *)
Lemma clear_quiet lr c p t th q e k : vm_inv init ram L (lr, c) → page_facts c p t th q e k →
  ∃ c', clear_accessed init p c = Ok (tt, c') ∧ quiet c c' ∧
    ∀ pd va, pd ∈ L → user_addr va → has (entry (mm c'.(cmmu)) pd va) PTE_A =
      if bool_decide (pd = th.(pagedir) ∧ pg_no va = pg_no e.(vaddr)) then false else has (entry (mm c.(cmmu)) pd va) PTE_A.
Proof using.
  intros Hinv Hf. pose proof (vi_world _ _ _ _ Hinv) as Hw. cbn [snd] in Hw. pose proof Hf as [].
  destruct pf_dir0 as [Hd Hi]. destruct pf_addr0 as [Hu Hal]. set (s := c.(cmmu)) in *. set (pd := th.(pagedir)) in *.
  assert (Hp : has (entry (mm s) pd (vaddr e)) PTE_P = true).
  { unfold mapping in pf_map0. by destruct (has (entry (mm s) pd (vaddr e)) PTE_P). }
  destruct (put_flag_spec init s pd (vaddr e) (wi_wf _ _ _ Hw) (wi_dirs _ _ _ Hw pd Hd) Hu (wi_cr3 _ _ _ Hw) PTE_A false ltac:(unfold PTE_A; lia)
    (entry_present s pd _ Hp)) as (s' & E & Hup & _ & _).
  pose proof (inv_flag init s s' L pd (vaddr e) 5 false Hw Hd Hu ltac:(lia) E) as Hw'.
  destruct (moves_update init L s s' pd (vaddr e) _ 0 Hw Hw' Hd Hup) as [Hmv Hent].
  destruct (cleared_spec s pd (vaddr e) 5 ltac:(lia)) as [Htab Hbits]. change (2 ^ 5) with PTE_A in Htab, Hbits.
  assert (Hsame : ∀ pd' va', pd' = pd ∧ pg_no va' = pg_no (vaddr e) → entry (mm s) pd' va' = entry (mm s) pd (vaddr e)).
  { intros pd' va' [-> Hpg]. apply pg_no_same in Hpg as [E1 E2]. unfold entry, pte_addr. by rewrite E1, E2. }
  exists (set_mmu s' c). split; [|split; [split|]]; cbn [cmmu set_mmu].
  - unfold clear_accessed. rewrite (bind_ok _ _ _ _ _ (deref_eq _ _ _ _ _ _ _ Hf)). cbv beta iota. by apply in_mmu_eq.
  - done.
  - done.
  - by eapply same_put_flag.
  - intros pd' va' Hpd' Hva'. fold s. unfold mapping. rewrite (Hent pd' va') by done. case_bool_decide as Hc; [|done].
    rewrite (Hsame pd' va' Hc). change PTE_P with (2 ^ 0). change PTE_W with (2 ^ 1). change PTE_D with (2 ^ 6).
    rewrite !Hbits, Htab by lia. done.
  - intros pd' va' Hpd' Hva'. fold s. rewrite (Hent pd' va') by done. case_bool_decide as Hc; [|done].
    change PTE_A with (2 ^ 5). by rewrite Hbits by lia.
Qed.

Definition acc_bit (c : core) (p : Z) : bool :=
  match c.(pages) !! p with
  | Some pg => match c.(procs) !! pg.(pthread), c.(pges) !! pg.(pge) with
               | Some th, Some e => has (entry (mm c.(cmmu)) th.(pagedir) e.(vaddr)) PTE_A
               | _, _ => false
               end
  | None => false
  end.

Lemma acc_bit_eq c p t th q e k : page_facts c p t th q e k → acc_bit c p = has (entry (mm c.(cmmu)) th.(pagedir) e.(vaddr)) PTE_A.
Proof using. intros []. unfold acc_bit. rewrite pf_page0. cbn [pthread pge]. by rewrite (proj1 pf_entry0), pf_pge0. Qed.

(** the pages [l] are those of a state that differs from [c0] only in accessed bits *)
Definition bits_ok (c0 c : core) (l : list Z) : Prop :=
  ∃ lr, lr.(list_LRU) ≡ₚ l ∧ vm_inv init ram L (lr, c) ∧ quiet c0 c.

Lemma bits_test c0 c l p : bits_ok c0 c l → p ∈ l → is_accessed p c = Ok (acc_bit c p, c).
Proof using.
  intros (lr & Hl & Hinv & _) Hp. rewrite <- Hl in Hp. destruct (inv_page lr c p Hinv Hp) as (t & th & q & e & k & Hf).
  unfold is_accessed. rewrite (bind_ok _ _ _ _ _ (deref_eq _ _ _ _ _ _ _ Hf)). cbv beta iota.
  pose proof (vi_world _ _ _ _ Hinv) as Hw. rewrite (acc_bit_eq _ _ _ _ _ _ _ Hf).
  erewrite in_mmu_eq; [by rewrite set_mmu_id|]. apply test_flag_spec; [apply Hw| |apply Hf].
  apply (wi_dirs _ _ _ Hw), Hf.
Qed.

Lemma page_addr_inj lr c p t th q e k p' t' th' q' e' k' : vm_inv init ram L (lr, c) → p ∈ lr.(list_LRU) → p' ∈ lr.(list_LRU) →
  page_facts c p t th q e k → page_facts c p' t' th' q' e' k' → th.(pagedir) = th'.(pagedir) → pg_no e.(vaddr) = pg_no e'.(vaddr) → p = p'.
Proof using.
  intros Hinv Hp Hp' [E He _ _ _ _ [Hu Hal] _ _ _ _ _] [E' He' _ _ _ _ [Hu' Hal'] _ _ _ _ _] Hd Hpg.
  assert (t = t') as -> by (eapply (vi_proc_inj _ _ _ _ Hinv); [apply He|apply He'|done]).
  assert (th = th') as -> by (destruct He as [H1 _], He' as [H2 _]; congruence).
  assert (Hv : vaddr e = vaddr e').
  { rewrite !pg_no_eq in Hpg. pose proof (Z.div_mod (vaddr e) 4096). pose proof (Z.div_mod (vaddr e') 4096). lia. }
  eapply (vi_page_inj _ _ _ _ Hinv p p'); [done..|]. left. simpl. destruct He as [_ H1], He' as [_ H2]. congruence.
Qed.

Lemma quiet_bit c c' p t th q e k : quiet c c' → page_facts c p t th q e k →
  acc_bit c' p = has (entry (mm c'.(cmmu)) th.(pagedir) e.(vaddr)) PTE_A.
Proof using.
  intros Hq []. unfold acc_bit. rewrite (qt_core _ _ Hq). simpl. rewrite pf_page0. cbn [pthread pge].
  by rewrite (proj1 pf_entry0), pf_pge0.
Qed.

Lemma bits_clear c0 c l p : bits_ok c0 c l → p ∈ l → ∃ c', clear_accessed init p c = Ok (tt, c') ∧ bits_ok c0 c' l ∧
    ∀ q, q ∈ l → acc_bit c' q = if bool_decide (q = p) then false else acc_bit c q.
Proof using.
  intros (lr & Hl & Hinv & Hq) Hp. rewrite <- Hl in Hp. destruct (inv_page lr c p Hinv Hp) as (t & th & q & e & k & Hf).
  destruct (clear_quiet lr c p t th q e k Hinv Hf) as (c' & E & Hq' & Hbits). exists c'. split; [done|]. split.
  { exists lr. split; [done|]. split; [|by eapply quiet_trans]. by eapply quiet_inv, Hinv. }
  intros p' Hp'. rewrite <- Hl in Hp'. destruct (inv_page lr c p' Hinv Hp') as (t' & th' & q' & e' & k' & Hf').
  rewrite (quiet_bit _ _ _ _ _ _ _ _ Hq' Hf'), Hbits by apply Hf'. rewrite (acc_bit_eq _ _ _ _ _ _ _ Hf'). destruct (bool_decide_reflect (p' = p)) as [->|Hne].
  - rewrite bool_decide_true; [done|]. destruct Hf, Hf'. simplify_eq. destruct pf_entry0, pf_entry1. simplify_eq. done.
  - rewrite bool_decide_false; [done|]. intros [H1 H2]. by apply Hne, (page_addr_inj lr c p' t' th' q' e' k' p t th q e k).
Qed.

#[local] Instance page_bits_laws c0 : @AccessBits core (page_bits init) :=
  @Build_AccessBits core (page_bits init) acc_bit (bits_ok c0) (bits_test c0) (bits_clear c0).

Lemma victim_spec lr c : vm_inv init ram L (lr, c) → lr.(list_LRU) ≠ [] → ∃ q v lr' c', order lr q ∧
  get_victim (H := page_bits init) (lr, c) = Ok (v, (lr', c')) ∧ v ∈ lr.(list_LRU) ∧ lr'.(list_LRU) = lr.(list_LRU) ∧
  vm_inv init ram L (lr', c') ∧ quiet c c' ∧ second_chance (H := page_bits init) (AccessBits0 := page_bits_laws c) q c c' v.
Proof using.
  intros Hinv Hne. destruct (vi_list _ _ _ _ Hinv) as [Hnd [q Ho]]. cbn [fst] in *. pose proof (order_perm _ _ Ho) as Hp.
  destruct (@get_victim_spec core (page_bits init) (page_bits_laws c) lr q c Hnd Ho) as (v & lr' & c' & E & Hv & Hl & Hc & (lr1 & Hp1 & Hinv1 & Hq) & Hsc).
  - intros ->. by apply Permutation_nil_l in Hp.
  - exists lr. split; [done|]. split; [done|]. apply quiet_refl, Hinv.
  - exists q, v, lr', c'. split_and!; try done. apply (quiet_inv lr lr' c c' Hinv Hq Hl).
    destruct lr' as [l' cl]. simpl in *. subst. by apply order_exists.
Qed.

(** * Eviction *)

Lemma set_mm_id m : set_mm (mm m) m = m.
Proof using. by destruct m as [[] ? ?]. Qed.

(** the page in frame [k] of entry [e] has been saved as entry [e'], in slot [n] if it
    needs one *)
Record saved (c c' : core) (q k : Z) (e e' : page_entry) (d : bool) (n : Z) : Prop := {
  sv_core : c' = mk_core c.(cmmu) c'.(cbitmap) c'.(cdev) c.(pages) (<[q := e']> c.(pges)) c.(procs) c.(heap_next) c.(heap_allocs);
  sv_swap : swap_wf (swap_of c');
  sv_cnt : c'.(cbitmap).(bit_cnt) = c.(cbitmap).(bit_cnt);
  sv_other j : 0 ≤ j → j ≠ n → bit c'.(cbitmap) j = bit c.(cbitmap) j ∧ slot c'.(cdev) j = slot c.(cdev) j;
  sv_fresh : 0 ≤ n → bit c.(cbitmap) n = false;
  sv_entry : e'.(vaddr) = e.(vaddr) ∧ e'.(pwritable) = e.(pwritable);
  sv_type : match e'.(type) with
            | VM_ANON => e'.(swap_slot) - 1 = n ∧ 0 ≤ n < c'.(cbitmap).(bit_cnt) ∧ bit c'.(cbitmap) n = true ∧
                         slot c'.(cdev) n = frame (mm c.(cmmu)) k
            | VM_BIN => e' = e ∧ d = false ∧ n = -1
            end
}.

Definition needs_slot (e : page_entry) (d : bool) : bool := match e.(type) with VM_ANON => true | VM_BIN => d end.

Definition free_slots (c : core) : Prop := ∃ j, 0 ≤ j < c.(cbitmap).(bit_cnt) ∧ bit c.(cbitmap) j = false.

Lemma swap_save c q k t e : swap_wf (swap_of c) → k mod 4096 = 0 → bytes (mm c.(cmmu)) k (frame (mm c.(cmmu)) k) → free_slots c →
  ∃ n c', (x ← in_swap (swap_out k); put_entry q (swapped x e)) c = Ok (tt, c') ∧ saved c c' q k e (swapped (n + 1) e) t n.
Proof using.
  intros Hwf Hk Hb Hfree.
  destruct (swap_out_spec (swap_of c) k (frame (mm c.(cmmu)) k) Hwf Hk Hb (length_frame _ _) Hfree)
    as (n & w & E & Hn & Hfr & Hwf' & Hm & Hcnt & Hbit & Hsl & Hoth). cbn [swap_of smem swap_bitmap swap_dev] in *.
  exists n. eexists. split.
  { rewrite (bind_ok _ _ _ (n + 1) (set_swap w c)) by (unfold in_swap; by rewrite E). reflexivity. }
  unfold set_swap, set_pges. rewrite Hm, set_mm_id. split; cbn [cmmu cbitmap cdev pages pges procs heap_next heap_allocs].
  - done.
  - destruct Hwf'. by split.
  - done.
  - intros j Hj Hne. rewrite Hbit by done. destruct (Z.eqb_spec j n); [done|]. split; [done|]. by apply Hoth.
  - done.
  - done.
  - cbn [swapped type swap_slot]. rewrite Hcnt, Hbit, Z.eqb_refl by lia. split_and!; try done; lia.
Qed.

Lemma save_spec c q k t e d : swap_wf (swap_of c) → k mod 4096 = 0 → bytes (mm c.(cmmu)) k (frame (mm c.(cmmu)) k) →
  c.(pges) !! q = Some e → (needs_slot e d = true → free_slots c) →
  ∃ e' n c', save_victim (mk_page k q t) e d c = Ok (tt, c') ∧ saved c c' q k e e' d n.
Proof using.
  intros Hwf Hk Hb Ee Hn. unfold save_victim, needs_slot in *. cbn [kaddr pge].
  assert (Hs : free_slots c → ∃ e' n c', (x ← in_swap (swap_out k); put_entry q (swapped x e)) c = Ok (tt, c') ∧ saved c c' q k e e' d n).
  { intros Hf. destruct (swap_save c q k d e Hwf Hk Hb Hf) as (n & c' & ?). eauto. }
  destruct (type e) eqn:Et; [auto|]. destruct d; [auto|]. exists e, (-1), c. split; [done|]. split; try done.
  - rewrite insert_id by done. by destruct c.
  - by rewrite Et.
Qed.

Lemma save_full c q k t e d : swap_wf (swap_of c) → k mod 4096 = 0 → needs_slot e d = true → ¬ free_slots c →
  save_victim (mk_page k q t) e d c = Err AssertFail.
Proof using.
  intros Hwf Hk Hn Hf. assert (E : swap_out k (swap_of c) = Err AssertFail).
  { apply swap_out_full; [done..|]. intros j Hj. apply not_false_iff_true. intros Hj'. apply Hf. by exists j. }
  assert (E' : (x ← in_swap (swap_out k); put_entry q (swapped x e)) c = Err AssertFail).
  { apply bind_err. unfold in_swap. by rewrite E. }
  unfold save_victim, needs_slot in *. cbn [kaddr pge]. destruct (type e); [done|]. by rewrite Hn.
Qed.

Lemma free_user_kpool s s' k : mmu_wf s → used (upool s) k → in_palloc (palloc_free_page k) s = Ok (tt, s') → kpool s' = kpool s.
Proof using.
  intros Hwf Hk E. pose proof (mw_palloc _ Hwf) as Hp.
  destruct (palloc_free_spec s.(ps) true k 1 Hp ltac:(lia) (used_group true _ k Hp Hk)) as (p & E' & _ & _ & _ & _ & Ho & _).
  { intros y Hy. apply page_group in Hy as ->; [done|by eapply used_align]. }
  unfold palloc_free_page in E. rewrite (in_palloc_eq _ _ _ _ E') in E. injection E as <-. exact Ho.
Qed.

(** unmapping a page and freeing its frame *)
Lemma free_frame s pd va k w : world_inv init s L → pd ∈ L → pd ≠ init → user_addr va → va mod 4096 = 0 →
  mapping (mm s) pd va = Some (k, w) → used (upool s) k →
  ∃ s1 s2, pagedir_clear_page init pd va s = Ok (tt, s1) ∧ in_palloc (palloc_free_page k) s1 = Ok (tt, s2) ∧
    moves init L s s2 k ∧ ¬ used (upool s2) k ∧ kpool s2 = kpool s ∧ mapping (mm s2) pd va = None ∧
    ∀ pd' va', pd' ∈ L → user_addr va' → ¬ (pd' = pd ∧ pg_no va' = pg_no va) → entry (mm s2) pd' va' = entry (mm s) pd' va'.
Proof using.
  intros Hw Hd Hi Hu Hal Hm Hk. assert (Ho : pg_ofs va = 0) by (by rewrite pg_ofs_eq).
  assert (Hp : has (entry (mm s) pd va) PTE_P = true) by (unfold mapping in Hm; by destruct (has (entry (mm s) pd va) PTE_P)).
  pose proof (pagedir_clear_page_spec init s pd va (wi_wf _ _ _ Hw) (wi_dirs _ _ _ Hw pd Hd) Hu (wi_cr3 _ _ _ Hw) Ho) as Hs.
  rewrite Hp in Hs. destruct Hs as (s1 & E1 & Hup & Hc1 & Ht1).
  pose proof (inv_clear init s s1 L pd va Hw Hd Hu Ho E1) as Hw1.
  destruct (moves_update init L s s1 pd va _ k Hw Hw1 Hd Hup) as [Hmv1 Hent1].
  assert (Hk1 : used (upool s1) k) by (by rewrite (ch_upool _ _ _ (up_changes _ _ _ _ _ Hup))).
  destruct (free_page_spec s1 true k (wi_wf _ _ _ Hw1) Hk1) as (s2 & E2 & F).
  assert (Hka : kpage_at k).
  { pose proof (wi_wf _ _ _ Hw1) as [[[_ _ _] [_ _ ?] ? _] ?]. destruct Hk1 as (? & ? & _). split; [done|].
    pose proof (awf_kernel _ (mw_palloc _ (wi_wf _ _ _ Hw1))) as [[? _ _] _ _]. unfold upool, kpool, pool_end, pool_pages, PGSIZE in *. lia. }
  destruct (moves_user init L s1 s2 k Hw1 (fr_wf _ _ _ F) Hka) as [Hmv2 Hent2].
  - intros H. by apply (pools_apart s1 k (wi_wf _ _ _ Hw1)).
  - intros x. rewrite (fr_kernel _ _ _ F). split; [tauto|]. intros H. split; [done|]. intros ->. by apply (pools_apart s1 k (wi_wf _ _ _ Hw1)).
  - intros x Hx. rewrite (fr_user _ _ _ F). tauto.
  - intros a Ha. apply (fr_mem _ _ _ F). by intros x ->.
  - apply F.
  - apply F.
  - apply F.
  - exists s1, s2. split_and!; [done|done|by eapply moves_trans| | | |].
    + rewrite (fr_user _ _ _ F). tauto.
    + rewrite <- (same_clear _ _ _ _ _ _ E1). exact (free_user_kpool s1 s2 k (wi_wf _ _ _ Hw1) Hk1 E2).
    + unfold mapping. rewrite Hent2, Hent1, bool_decide_true by done.
      destruct (cleared_spec s pd va 0 ltac:(lia)) as [_ Hb]. change (2 ^ 0) with PTE_P in Hb. specialize (Hb 0 ltac:(lia)).
      change (2 ^ 0) with PTE_P in Hb. by rewrite Hb.
    + intros pd' va' H1 H2 H3. rewrite Hent2, Hent1 by done. by rewrite bool_decide_false.
Qed.

(** [evict] on a page in order *)
Lemma evict_exec lr c p t th q e k : vm_inv init ram L (lr, c) → p ∈ lr.(list_LRU) → page_facts c p t th q e k →
  (needs_slot e (dirty c th e.(vaddr)) = true → free_slots c) →
  ∃ e' n c1 lr' s2, evict init p (lr, c) = Ok (tt, (lr', mk_core s2 c1.(cbitmap) c1.(cdev) (delete p c.(pages))
      (<[q := loaded false e']> c.(pges)) c.(procs) c.(heap_next) c.(heap_allocs))) ∧
    saved c c1 q k e e' (dirty c th e.(vaddr)) n ∧
    lr'.(list_LRU) = filter (λ x, x ≠ p) lr.(list_LRU) ∧ (∃ o, order lr' o) ∧
    moves init L c.(cmmu) s2 k ∧ ¬ used (upool s2) k ∧ kpool s2 = kpool c.(cmmu) ∧
    mapping (mm s2) th.(pagedir) e.(vaddr) = None ∧
    ∀ pd va, pd ∈ L → user_addr va → ¬ (pd = th.(pagedir) ∧ pg_no va = pg_no e.(vaddr)) →
      entry (mm s2) pd va = entry (mm c.(cmmu)) pd va.
Proof using.
  intros Hinv Hp Hf Hneed. pose proof (vi_world _ _ _ _ Hinv) as Hw. cbn [snd] in Hw. pose proof Hf as [].
  destruct pf_dir0 as [Hd Hi], pf_addr0 as [Hu Hal], pf_nz0 as (Hp0 & Hq0 & Ht0), pf_entry0 as [Et _].
  destruct (save_spec c q k t e (dirty c th (vaddr e)) (vi_swap _ _ _ _ Hinv) (used_align _ _ pf_used0) pf_bytes0 pf_pge0 Hneed) as (e' & n & c1 & E1 & Hsv).
  pose proof (sv_core _ _ _ _ _ _ _ _ Hsv) as Hc1. pose proof (sv_entry _ _ _ _ _ _ _ _ Hsv) as [Hva _].
  destruct (free_frame c.(cmmu) th.(pagedir) (vaddr e) k _ Hw Hd Hi Hu Hal pf_map0 pf_used0)
    as (s1 & s2 & E2 & E3 & Hmv & Hnu & Hkp & Hmn & Hent).
  destruct (vi_list _ _ _ _ Hinv) as [Hnd Ho].
  set (c2 := set_pges (<[q := loaded false e']> c1.(pges)) c1).
  destruct (del_page_spec lr (set_mmu s1 c2) p Hnd Ho Hp) as (lr' & E4 & Hl' & Ho').
  exists e', n, c1, lr', s2. split_and!; try done. unfold evict. rewrite (bind_ok _ _ _ (mk_page k q t) (lr, c1)).
  2: { unfold evict_write. rewrite (bind_ok _ _ _ _ _ (in_bits_eq _ lr _ _ _ (deref_eq _ _ _ _ _ _ _ Hf))). cbv beta iota.
    rewrite (bind_ok _ _ _ (dirty c th (vaddr e)) (lr, c)).
    - by rewrite (bind_ok _ _ _ _ _ (in_bits_eq _ lr _ _ _ E1)).
    - apply in_bits_eq. erewrite in_mmu_eq; [by rewrite set_mmu_id|]. apply test_flag_spec; [apply Hw|by apply (wi_dirs _ _ _ Hw)|done]. }
  unfold evict_unmap. cbn [pge].
  assert (Ee1 : c1.(pges) !! q = Some e') by (rewrite Hc1; apply lookup_insert_eq).
  rewrite (bind_ok _ _ _ _ _ (in_bits_eq _ lr _ _ _ (entry_at_eq _ _ _ Ee1))).
  rewrite (bind_ok _ _ _ tt (lr, c2)) by done. unfold __free_page.
  rewrite (bind_ok _ _ _ _ _ (in_bits_eq _ lr _ _ _ (deref_raw c2 p k q t th (loaded false e') Hp0 Hq0 Ht0
    ltac:(unfold c2; rewrite Hc1; exact pf_page0) ltac:(unfold c2; rewrite Hc1; exact Et) (lookup_insert_eq _ _ _)))). cbv beta iota.
  rewrite (bind_ok _ _ _ tt (lr, set_mmu s1 c2)).
  2: { apply in_bits_eq, in_mmu_eq. cbn [vaddr loaded]. rewrite Hva. unfold c2. rewrite Hc1. exact E2. }
  rewrite (bind_ok _ _ _ _ _ E4). cbn [kaddr].
  rewrite (bind_ok _ _ _ tt (lr', set_mmu s2 (set_mmu s1 c2))) by (apply in_bits_eq, in_mmu_eq; exact E3).
  unfold c2. rewrite Hc1. simpl. unfold set_pages, set_mmu, set_pges. simpl. by rewrite insert_insert_eq.
Qed.

Lemma mapping_entry (m m' : mem) pd va : entry m' pd va = entry m pd va →
  mapping m' pd va = mapping m pd va ∧ has (entry m' pd va) PTE_D = has (entry m pd va) PTE_D.
Proof using. intros E. unfold mapping. by rewrite E. Qed.

(** the entries of the tables other than [q] are those of other pages *)
Lemma not_same_page s t th va q t' th' va' : vm_inv init ram L s → has_entry s.2 t th va q → va mod 4096 = 0 →
  s.2.(procs) !! t' = Some th' → va' mod 4096 = 0 → th'.(sup_page_tab) !! va' ≠ Some q →
  ¬ (th'.(pagedir) = th.(pagedir) ∧ pg_no va' = pg_no va).
Proof using.
  intros Hinv [Et Eq] Hal Et' Hal' Hne [Hd Hpg]. assert (t' = t) as -> by (by eapply (vi_proc_inj _ _ _ _ Hinv)).
  rewrite Et in Et'. simplify_eq. rewrite !pg_no_eq in Hpg. pose proof (Z.div_mod va 4096). pose proof (Z.div_mod va' 4096).
  assert (va = va') by lia. congruence.
Qed.

Lemma evict_touch lr c p t th q e k e' n c1 lr' s2 (c' := mk_core s2 c1.(cbitmap) c1.(cdev) (delete p c.(pages))
      (<[q := loaded false e']> c.(pges)) c.(procs) c.(heap_next) c.(heap_allocs)) :
  vm_inv init ram L (lr, c) → page_facts c p t th q e k → saved c c1 q k e e' (dirty c th e.(vaddr)) n →
  lr'.(list_LRU) = filter (λ x, x ≠ p) lr.(list_LRU) → moves init L c.(cmmu) s2 k →
  (∀ pd va, pd ∈ L → user_addr va → ¬ (pd = th.(pagedir) ∧ pg_no va = pg_no e.(vaddr)) →
      entry (mm s2) pd va = entry (mm c.(cmmu)) pd va) →
  touch init L (lr, c) (lr', c') q p k n.
Proof using.
  intros Hinv Hf Hsv Hl Hmv Hent. split; cbn [fst snd c' cmmu cbitmap cdev pages pges procs].
  - done.
  - intros x Hx. by rewrite lookup_insert_ne.
  - intros x Hx. by rewrite lookup_delete_ne.
  - intros x Hx. rewrite Hl, list_elem_of_filter. tauto.
  - eauto 10.
  - eauto.
  - intros t' th' va Et' Hu Hal Hne. apply mapping_entry, Hent.
    + apply (vi_proc _ _ _ _ Hinv t' th' Et').
    + done.
    + apply (not_same_page (lr, c) t th (vaddr e) q t' th' va Hinv); [apply Hf..|done|done|done].
  - apply Hsv.
  - intros j Hj Hne. by apply (sv_other _ _ _ _ _ _ _ _ Hsv).
Qed.

(** a page that the invariant has a frame for is the only one with its entry and frame *)
Lemma others_apart lr c p t th q e k p' pg : vm_inv init ram L (lr, c) → p ∈ lr.(list_LRU) → page_facts c p t th q e k →
  p' ∈ lr.(list_LRU) → c.(pages) !! p' = Some pg → p' ≠ p → pg.(pge) ≠ q ∧ pg.(kaddr) ≠ k.
Proof using.
  intros Hinv Hp Hf Hp' E Hne. pose proof (pf_page _ _ _ _ _ _ _ Hf) as E'.
  split; intros Heq; apply Hne, (vi_page_inj _ _ _ _ Hinv p' p pg (mk_page k q t)); auto.
Qed.

(** the entry of an evicted page *)
Lemma evict_entry c c1 l t th q e k e' n s2 c' :
  saved c c1 q k e e' (dirty c th e.(vaddr)) n → q ≠ 0 → user_addr e.(vaddr) ∧ e.(vaddr) mod 4096 = 0 →
  (e.(type) = VM_BIN → ∃ b, Elf.load_file e th.(exec_file) = Some b ∧ length b = Z.to_nat 4096 ∧ ∀ v, v ∈ b → 0 ≤ v < 256) →
  c'.(cmmu) = s2 → c'.(cbitmap) = c1.(cbitmap) → mapping (mm s2) th.(pagedir) e.(vaddr) = None →
  entry_ok c' l t th e.(vaddr) q (loaded false e').
Proof using.
  intros Hsv Hq Hu Hb Hm Hbm Hnone. pose proof (sv_type _ _ _ _ _ _ _ _ Hsv) as Hty.
  destruct (sv_entry _ _ _ _ _ _ _ _ Hsv) as [Hva _]. split; try done.
  - cbn [type loaded]. intros Et. rewrite Et in Hty. destruct Hty as (-> & _). by apply Hb.
  - cbn [is_loaded loaded]. unfold absent. cbn [vaddr loaded type swap_slot]. rewrite Hm, Hva. split; [done|].
    intros Et. rewrite Et in Hty. destruct Hty as (Hs & Hn & Hbit & _). rewrite Hbm, Hs. done.
Qed.

Lemma evict_data c c1 th e k e' q n c' : saved c c1 q k e e' (dirty c th e.(vaddr)) n → e.(is_loaded) = true →
  mapping (mm c.(cmmu)) th.(pagedir) e.(vaddr) = Some (k, e.(pwritable)) → c'.(cdev) = c1.(cdev) →
  (e.(type) = VM_BIN → dirty c th e.(vaddr) = false → Elf.load_file e th.(exec_file) = Some (frame (mm c.(cmmu)) k)) →
  data c' th (loaded false e') = data c th e.
Proof using.
  intros Hsv Hl Hm Hdev Hcl. pose proof (sv_type _ _ _ _ _ _ _ _ Hsv) as Hty. unfold data. rewrite Hl, Hm.
  cbn [is_loaded loaded type swap_slot]. destruct (type e') eqn:Et.
  - destruct Hty as (Hs & _ & _ & Hsl). by rewrite Hs, Hdev.
  - destruct Hty as (-> & Hd & _). change (Elf.load_file (loaded false e)) with (Elf.load_file e). by rewrite Hcl.
Qed.

Lemma evict_spec lr c p t th q e k : vm_inv init ram L (lr, c) → p ∈ lr.(list_LRU) → page_facts c p t th q e k →
  (needs_slot e (dirty c th e.(vaddr)) = true → free_slots c) →
  ∃ s', evict init p (lr, c) = Ok (tt, s') ∧ vm_inv init ram L s' ∧ (∀ t va, page_data s'.2 t va = page_data c t va) ∧
    ¬ used (upool s'.2.(cmmu)) k ∧
    (pool_end (upool s'.2.(cmmu)) = pool_end (upool c.(cmmu)) ∧ (upool s'.2.(cmmu)).(base) = (upool c.(cmmu)).(base)) ∧
    s'.2.(heap_next) = c.(heap_next) ∧ s'.2.(heap_allocs) = c.(heap_allocs) ∧ s'.2.(procs) = c.(procs) ∧
    kpool s'.2.(cmmu) = kpool c.(cmmu) ∧
    (∀ q e, c.(pges) !! q = Some e → e.(is_loaded) = false → s'.2.(pges) !! q = Some e) ∧
    (∀ x, c.(pages) !! x = None → s'.2.(pages) !! x = None) ∧ (∀ x, c.(pges) !! x = None → s'.2.(pges) !! x = None).
Proof using.
  intros Hinv Hp Hf Hneed.
  destruct (evict_exec lr c p t th q e k Hinv Hp Hf Hneed) as (e' & n & c1 & lr' & s2 & E & Hsv & Hl & Ho & Hmv & Hnu & Hkp & Hnone & Hent).
  eexists. split; [exact E|]. cbn [fst snd cmmu heap_next heap_allocs procs].
  pose proof (evict_touch lr c p t th q e k e' n c1 lr' s2 Hinv Hf Hsv Hl Hmv Hent) as Htc.
  set (c' := mk_core s2 _ _ _ _ _ _ _) in *.
  assert (Hothers : ∀ p' pg, p' ∈ lr.(list_LRU) → c.(pages) !! p' = Some pg → p' ≠ p → pg.(pge) ≠ q ∧ pg.(kaddr) ≠ k)
    by (intros p' pg; by apply (others_apart lr c p t th q e k)).
  assert (Hslot : ∀ t th va q' e, has_entry c t th va q' → c.(pges) !! q' = Some e → q' ≠ q → e.(is_loaded) = false →
    e.(type) = VM_ANON → e.(swap_slot) - 1 ≠ n).
  { intros t1 th1 va1 q1 e1 He1 Ee1 _ Hl1 Hty1 Hn. destruct (vi_entry _ _ _ _ Hinv _ _ _ _ He1) as (e2 & Ee2 & [_ _ _ _ Hst]).
    simpl in *. rewrite Ee1 in Ee2. simplify_eq. rewrite Hl1 in Hst. destruct (proj2 Hst Hty1) as [Hr Hb].
    by rewrite (sv_fresh _ _ _ _ _ _ _ _ Hsv) in Hb by lia. }
  assert (Hme : ∀ t1 th1 va1, has_entry c' t1 th1 va1 q → t1 = t ∧ th1 = th ∧ va1 = vaddr e).
  { intros t1 th1 va1 He1. pose proof (pf_entry _ _ _ _ _ _ _ Hf) as He. destruct (vi_entry_inj _ _ _ _ Hinv _ _ _ _ _ _ _ He1 He) as [-> ->].
    split; [done|]. split; [|done]. destruct He1 as [H1 _], He as [H2 _]. simpl in H1. congruence. }
  assert (Hp0 : p ∈ lr.(list_LRU) → ∃ pg, c.(pages) !! p = Some pg ∧ pg.(pge) = q ∧ pg.(kaddr) = k).
  { intros _. exists (mk_page k q t). split; [apply Hf|done]. }
  assert (Hgone : p ∉ lr'.(list_LRU)) by (rewrite Hl, list_elem_of_filter; naive_solver).
  split; [|split; [|split_and!; [done|apply (mv_end _ _ _ _ _ Hmv)|apply (mv_end _ _ _ _ _ Hmv)|done|done|done|done| | |]]].
  - apply (touch_inv init ram L (lr, c) (lr', c') q p k n Hinv Htc Hothers Hslot Hp0); cbn [fst snd].
    + intros t1 th1 va1 He1. destruct (Hme _ _ _ He1) as (-> & -> & ->). exists (loaded false e'). split; [apply lookup_insert_eq|]. split.
      * apply (evict_entry c c1 lr'.(list_LRU) t th q e k e' n s2 c' Hsv);
          [apply (pf_nz _ _ _ _ _ _ _ Hf)|exact (pf_addr _ _ _ _ _ _ _ Hf)|exact (pf_bin _ _ _ _ _ _ _ Hf)|reflexivity|reflexivity|exact Hnone].
      * intros _ Et. pose proof (sv_type _ _ _ _ _ _ _ _ Hsv) as Hty. cbn [type loaded] in Et. rewrite Et in Hty. apply Hty.
    + intros t1 th1 va1 t2 th2 va2 H1 H2. destruct (Hme _ _ _ H1) as (-> & _ & ->), (Hme _ _ _ H2) as (-> & _ & ->). done.
    + done.
    + split; [|done]. rewrite Hl. apply NoDup_filter, Hinv.
    + destruct (sv_swap _ _ _ _ _ _ _ _ Hsv). by split.
    + destruct (vi_heap _ _ _ _ Hinv) as (H1 & H2 & H3). cbn [snd] in *. split_and!; [done| |].
      * intros x pg Hx. cbn [pages c'] in Hx. apply lookup_delete_Some in Hx as [_ Hx]. by apply (H2 x pg).
      * intros x ex Hx. cbn [pges c'] in Hx. destruct (decide (x = q)) as [->|Hne]; [by apply (H3 q e), (pf_pge _ _ _ _ _ _ _ Hf)|].
        rewrite lookup_insert_ne in Hx by done. by apply (H3 x ex).
    + done.
  - intros t1 va1. destruct (decide (t1 = t ∧ va1 = vaddr e)) as [[-> ->]|Hn].
    + destruct (pf_entry _ _ _ _ _ _ _ Hf) as [Et Eq]. unfold page_data.
      cbn [procs c' pges]. rewrite Et. cbn [mbind option_bind]. rewrite Eq. cbn [mbind option_bind].
      rewrite lookup_insert_eq, (pf_pge _ _ _ _ _ _ _ Hf). cbn [mbind option_bind]. f_equal.
      apply (evict_data c c1 th e k e' q n c' Hsv); [exact (pf_loaded _ _ _ _ _ _ _ Hf)|exact (pf_map _ _ _ _ _ _ _ Hf)|reflexivity|exact (pf_clean _ _ _ _ _ _ _ Hf)].
    + apply (touch_data init ram L (lr, c) (lr', c') q p k n Hinv Htc Hothers Hslot Hp0). intros th1 He1. apply Hn. by destruct (Hme _ _ _ He1) as (-> & _ & ->).
  - intros q1 e1 E1 Hl1. cbn [pges c']. rewrite lookup_insert_ne; [done|]. intros <-.
    pose proof (pf_pge _ _ _ _ _ _ _ Hf). pose proof (pf_loaded _ _ _ _ _ _ _ Hf). congruence.
  - intros x Hx. cbn [pages c']. apply lookup_delete_None. by right.
  - intros x Hx. cbn [pges c']. rewrite lookup_insert_ne; [done|]. intros <-. pose proof (pf_pge _ _ _ _ _ _ _ Hf). congruence.
Qed.

(** the pages of the processes have kept their bytes, and nothing else of the
    processes and the heap has changed *)
Record keeps (c c' : core) : Prop := {
  kp_data t va : page_data c' t va = page_data c t va;
  kp_pool : pool_end (upool c'.(cmmu)) = pool_end (upool c.(cmmu)) ∧ (upool c'.(cmmu)).(base) = (upool c.(cmmu)).(base);
  kp_heap : c'.(heap_next) = c.(heap_next) ∧ c'.(heap_allocs) = c.(heap_allocs);
  kp_procs : c'.(procs) = c.(procs);
  kp_kpool : kpool c'.(cmmu) = kpool c.(cmmu);
  kp_absent q e : c.(pges) !! q = Some e → e.(is_loaded) = false → c'.(pges) !! q = Some e;
  kp_pages x : c.(pages) !! x = None → c'.(pages) !! x = None;
  kp_pges x : c.(pges) !! x = None → c'.(pges) !! x = None
}.

Lemma vm_keeps_refl c : keeps c c.
Proof using. done. Qed.

Lemma vm_keeps_trans c1 c2 c3 : keeps c1 c2 → keeps c2 c3 → keeps c1 c3.
Proof using.
  intros [Hd [] [] Hp Hk Ha] [Hd' [] [] Hp' Hk' Ha']. split; [intros t va; by rewrite Hd', Hd|split; congruence|split; congruence|congruence|congruence|auto..].
Qed.

Lemma replacement_mem_spec lr c : vm_inv init ram L (lr, c) → lr.(list_LRU) ≠ [] → free_slots c →
  ∃ s' k, replacement_mem init (lr, c) = Ok (tt, s') ∧ vm_inv init ram L s' ∧ keeps c s'.2 ∧
    used (upool c.(cmmu)) k ∧ ¬ used (upool s'.2.(cmmu)) k.
Proof using.
  intros Hinv Hne Hfree. destruct (victim_spec lr c Hinv Hne) as (o & v & lr1 & c1 & _ & E & Hv & Hl & Hinv1 & Hq & _).
  rewrite <- Hl in Hv. destruct (inv_page lr1 c1 v Hinv1 Hv) as (t & th & q & e & k & Hf).
  assert (Hc1 : c1.(cbitmap) = c.(cbitmap) ∧ c1.(heap_next) = c.(heap_next) ∧ c1.(heap_allocs) = c.(heap_allocs) ∧ c1.(procs) = c.(procs))
    by (by rewrite (qt_core _ _ Hq)).
  destruct Hc1 as (Hb & Hh1 & Hh2 & Hpr). pose proof (qt_moves _ _ Hq) as Hmv.
  destruct (evict_spec lr1 c1 v t th q e k Hinv1 Hv Hf) as (s' & E' & Hinv' & Hd & Hnu & [Hend Hba] & Hn1 & Hn2 & Hp' & Hkp & Habs & Hpgs & Hpgs').
  { intros _. unfold free_slots. by rewrite Hb. }
  exists s', k. split; [|split; [done|split; [split|split]]].
  - unfold replacement_mem. by rewrite (bind_ok _ _ _ _ _ E).
  - intros t1 va1. rewrite Hd. apply (quiet_data lr lr1 c c1 Hinv Hq Hl).
  - destruct (mv_end _ _ _ _ _ Hmv). split; congruence.
  - split; congruence.
  - congruence.
  - rewrite Hkp. apply (qt_kpool _ _ Hq).
  - intros q1 e1 E1 Hl1. apply Habs; [|done]. by rewrite (qt_core _ _ Hq).
  - intros x Hx. apply Hpgs. by rewrite (qt_core _ _ Hq).
  - intros x Hx. apply Hpgs'. by rewrite (qt_core _ _ Hq).
  - apply (mv_used _ _ _ _ _ Hmv); [|exact (pf_used _ _ _ _ _ _ _ Hf)]. intros ->.
    by destruct (quiet_zero lr1 c1 Hinv1 v _ Hv (pf_page _ _ _ _ _ _ _ Hf)) as (_ & _ & ?).
  - done.
Qed.

Definition user_flags (flags : Z) : Prop := flags = PAL_USER ∨ flags = Z.lor PAL_USER PAL_ZERO.

(** the state after a frame [k] has been taken from the user pool of [c] *)
Definition with_frame (c : core) (ps' : pstate) : core := set_mmu (mk_mmu ps' c.(cmmu).(cr3) c.(cmmu).(tlb)) c.

Lemma alloc_loop_spec flags lr c : vm_inv init ram L (lr, c) → user_flags flags → free_slots c →
  (upool c.(cmmu)).(base) < pool_end (upool c.(cmmu)) →
  ∃ k lr1 c1 ps', alloc_loop init 2 flags (lr, c) = Ok (k, (lr1, with_frame c1 ps')) ∧ vm_inv init ram L (lr1, c1) ∧ keeps c c1 ∧
    got flags 1 c1.(cmmu).(ps) k ps'.
Proof using.
  intros Hinv Hfl Hfree Hpool.
  assert (Hu : has flags PAL_USER = true ∧ has flags PAL_ASSERT = false) by (by destruct Hfl as [-> | ->]).
  assert (Hget : ∀ lr c, vm_inv init ram L (lr, c) →
    (∃ k ps', in_mmu (in_palloc (palloc_get_page flags)) c = Ok (k, with_frame c ps') ∧ got flags 1 c.(cmmu).(ps) k ps') ∨
    no_group (upool c.(cmmu)) 1 ∧ in_mmu (in_palloc (palloc_get_page flags)) c = Ok (0, c)).
  { intros lr0 c0 Hi. destruct (palloc_get_cases c0.(cmmu).(ps) flags 1 (mw_palloc _ (wi_wf _ _ _ (vi_world _ _ _ _ Hi))) ltac:(lia))
      as [(k & ps' & E & G)|[Hn E]].
    - left. exists k, ps'. split; [|done]. by apply in_mmu_eq, in_palloc_eq.
    - right. rewrite (proj1 Hu), (proj2 Hu) in *. split; [done|]. erewrite in_mmu_eq; [|apply in_palloc_eq, E].
      by destruct c0 as [[] ? ? ? ? ? ? ?]. }
  change (alloc_loop init 2 flags) with (k ← in_bits (in_mmu (in_palloc (palloc_get_page flags)));
    if k =? 0 then replacement_mem init;; alloc_loop init 1 flags else mret k).
  destruct (Hget lr c Hinv) as [(k & ps' & E & G)|[Hn E]].
  { exists k, lr, c, ps'. rewrite (bind_ok _ _ _ _ _ (in_bits_eq _ lr _ _ _ E)). destruct (got_addr _ _ _ _ _ G) as (Hk & _).
    destruct (Z.eqb_spec k 0); [lia|]. split_and!; try done. }
  rewrite (bind_ok _ _ _ _ _ (in_bits_eq _ lr _ _ _ E)). cbn [Z.eqb]. cbv iota.
  assert (Hne : lr.(list_LRU) ≠ []).
  { destruct (awf_user _ (mw_palloc _ (wi_wf _ _ _ (vi_world _ _ _ _ Hinv)))) as [Hcnt [Hb0 Hbm] _]. cbn [snd] in *.
    destruct (Hn (upool c.(cmmu)).(base)) as (x & _ & Hx); [done|done|unfold pool_end, pool_pages, PGSIZE in *; lia|].
    destruct (vi_frames _ _ _ _ Hinv x Hx) as (p & _ & Hp & _). intros El. cbn [fst] in Hp. rewrite El in Hp. by apply not_elem_of_nil in Hp. }
  destruct (replacement_mem_spec lr c Hinv Hne Hfree) as ([lr1 c1] & k0 & E1 & Hinv1 & Hk & Hk0 & Hnk0). cbn [fst snd] in *.
  rewrite (bind_ok _ _ _ _ _ E1). destruct (Hget lr1 c1 Hinv1) as [(k & ps' & E2 & G)|[Hn2 E2]].
  - exists k, lr1, c1, ps'. cbn [alloc_loop]. rewrite (bind_ok _ _ _ _ _ (in_bits_eq _ lr1 _ _ _ E2)). destruct (got_addr _ _ _ _ _ G) as (Hk1 & _).
    destruct (Z.eqb_spec k 0); [lia|]. done.
  - exfalso. destruct (kp_pool _ _ Hk) as [Hend Hbase]. destruct Hk0 as (Hr & Hm & _).
    destruct (Hn2 k0) as (x & Hx & Hux); [done|lia| |].
    + pose proof (awf_user _ (mw_palloc _ (wi_wf _ _ _ (vi_world _ _ _ _ Hinv)))) as [_ [_ Hbm] _]. cbn [snd] in Hbm.
      rewrite Hend. unfold upool, pool_end, PGSIZE in *. pose proof (Z.div_mod k0 4096). pose proof (Z.div_mod (base (user_pool (ps (cmmu c)))) 4096). lia.
    + apply page_group in Hx as ->; [by apply Hnk0|done].
Qed.
End pages.
