(* ===== verification/VmFault.v ===== *)
(** Virtual memory, proved: page faults, stores, and the memory that a process sees.

    [handle_mm_fault] brings a page back with the bytes it had, taking a frame from
    another page if it must; [stack_grow] adds a page of zeros.  With the stores of
    the processes they refine a memory that knows nothing of frames ([vm_step]). *)

From S2P Require Import Prelude Vaddr Bitmap CString Words Palloc Pagedir AddrSpace Elf Swap Frame Vm VmSpec.

Section fill.
Context (init ram : Z) (L : gset Z).

Definition page_bytes (d : list Z) : Prop := length d = Z.to_nat 4096 ∧ ∀ v, v ∈ d → 0 ≤ v < 256.

(** a state with frame [k] taken from the user pool and filled with [d] *)
Record filled (s s' : mmu) (k : Z) (d : list Z) : Prop := {
  fl_moves : moves init L s s' k;
  fl_used : used (upool s') k;
  fl_bytes : bytes (mm s') k d;
  fl_kpool : kpool s' = kpool s
}.

Lemma got_frame flags s k ps' : mmu_wf s → has flags PAL_USER = true → got flags 1 s.(ps) k ps' →
  palloc_wf ps' ∧ kpage_at k ∧ ¬ used (kpool s) k ∧ ¬ used (upool s) k ∧ used ps'.(user_pool) k ∧ ps'.(kernel_pool) = kpool s ∧
  (∀ x, x ≠ k → used ps'.(user_pool) x ↔ used (upool s) x) ∧ writable ps'.(pmem) k 4096 ∧
  pool_end ps'.(user_pool) = pool_end (upool s) ∧ ps'.(user_pool).(base) = (upool s).(base).
Proof using.
  intros Hwf Hu G. pose proof G as [Hw (Ha & Hm & Hlo & Hhi) Hfree Hused [Hb Hp] Hoth _]. rewrite Hu in *. cbn [pool_of negb] in *.
  pose proof (mw_palloc _ Hwf) as [Hkp [_ _ Hend] Hord _]. pose proof (mw_base _ Hwf) as Hbase.
  assert (Hk : kpage_at k).
  { split; [done|]. unfold kpool, pool_end, pool_pages, PGSIZE in *. pose proof (wf_cnt _ (pwf_map _ Hkp)). lia. }
  assert (Hg : in_group k 1 k) by (by apply page_group).
  split_and!; try done.
  - intros (Hr & _). unfold kpool in *. unfold PGSIZE in *. lia.
  - by apply Hfree.
  - apply Hused. by right.
  - intros x Hx. rewrite Hused. split; [|by left]. intros [?|Hg']; [done|]. by apply page_group in Hg'.
  - intros a Ha'. apply (awf_mem _ Hw true). cbn [pool_of]. unfold pool_end. rewrite Hb, Hp. unfold pool_end, PGSIZE in *. lia.
  - unfold pool_end, upool. by rewrite Hb, Hp.
Qed.

Lemma fill_state flags s k ps' d : world_inv init s L → has flags PAL_USER = true → got flags 1 s.(ps) k ps' →
  (∀ a, ¬ (k ≤ a < k + 4096) → ps'.(pmem) !! a = mm s !! a) → page_bytes d →
  let s' := mk_mmu (mk_pstate ps'.(kernel_pool) ps'.(user_pool) (write ps'.(pmem) k d)) s.(cr3) s.(tlb) in
  filled s s' k d ∧ same_entries L s s'.
Proof using.
  intros Hw Hu G Hmem [Hl Hr] s'. destruct (got_frame flags s k ps' (wi_wf _ _ _ Hw) Hu G)
    as (Hwp & Hk & Hnk & Hnu & Huk & Hkp & Hux & Hwr & Hend).
  destruct (moves_user init L s s' k Hw) as [Hmv He]; try done.
  - split; [|change (PHYS_BASE ≤ (ps'.(kernel_pool)).(base)); rewrite Hkp; apply (wi_wf _ _ _ Hw)].
    apply palloc_wf_mem; [done|]. intros a. apply write_is_Some.
  - intros x. change (used ps'.(kernel_pool) x ↔ used (kpool s) x). by rewrite Hkp.
  - intros a Ha. change (write ps'.(pmem) k d !! a = mm s !! a). rewrite lookup_write_out by lia. by apply Hmem.
  - split; [|done]. split; [done|done| |exact Hkp]. by apply bytes_write.
Qed.

(** mapping a filled frame *)
Lemma map_frame s pd va k w : world_inv init s L → pd ∈ L → pd ≠ init → user_addr va → va mod 4096 = 0 →
  used (upool s) k → pool_end (upool s) ≤ PHYS_BASE + 4096 * ram → mapping (mm s) pd va = None → ¬ no_group (kpool s) 1 →
  ∃ s', install_page init ram pd va k w s = Ok (true, s') ∧ (∀ k0, moves init L s s' k0) ∧
    mapping (mm s') pd va = Some (k, w) ∧ has (entry (mm s') pd va) PTE_D = false ∧
    ∀ pd' va', pd' ∈ L → user_addr va' → ¬ (pd' = pd ∧ pg_no va' = pg_no va) → entry (mm s') pd' va' = entry (mm s) pd' va'.
Proof using.
  intros Hw Hd Hi Hu Hal Hk Hram Hm Hng. assert (Ho : pg_ofs va = 0) by (by rewrite pg_ofs_eq).
  assert (Hka : kpage_at k ∧ (k - PHYS_BASE) / 4096 < ram).
  { pose proof (mw_palloc _ (wi_wf _ _ _ Hw)) as [Hkp [_ _ ?] ? _]. pose proof (mw_base _ (wi_wf _ _ _ Hw)). destruct Hk as (Hr & Hkm & _).
    pose proof (wf_cnt _ (pwf_map _ Hkp)). unfold upool, kpool, pool_end, pool_pages, PGSIZE in *. split; [split; [done|lia]|].
    apply Z.div_lt_upper_bound; lia. }
  destruct Hka as [Hka Hkr]. pose proof (install_page_spec init ram s L pd va k w Hw Hd Hi Hu Ho Hka Hkr) as Hs. rewrite Hm in Hs.
  destruct Hs as [[? _]|(s' & E & Hup & _ & _)]; [done|].
  pose proof (inv_install init ram s s' L pd va k w true Hw Hd Hi Hu Ho Hka Hkr E) as Hw'.
  assert (Hmv := λ k0, moves_update init L s s' pd va _ k0 Hw Hw' Hd Hup).
  destruct (mk_entry_spec k (if w then 7 else 5) Hka ltac:(destruct w; lia)) as (_ & Htab & Hbits).
  assert (Hent : entry (mm s') pd va = mk_entry k (if w then 7 else 5)).
  { rewrite (proj2 (Hmv 0)) by done. by rewrite bool_decide_true. }
  exists s'. split_and!; [done|apply Hmv| | |].
  - unfold mapping. rewrite Hent, Htab. change PTE_P with (2 ^ 0). change PTE_W with (2 ^ 1). rewrite !Hbits by lia. by destruct w.
  - rewrite Hent. change PTE_D with (2 ^ 6). rewrite Hbits by lia. by destruct w.
  - intros pd' va' H1 H2 H3. rewrite (proj2 (Hmv 0)) by done. by rewrite bool_decide_false.
Qed.

(** a frame filled with [d] is mapped for the page [va] *)
Record brought_in (s s' : mmu) (pd va k : Z) (w : bool) (d : list Z) : Prop := {
  bi_moves : moves init L s s' k;
  bi_used : used (upool s') k;
  bi_bytes : bytes (mm s') k d;
  bi_map : mapping (mm s') pd va = Some (k, w);
  bi_clean : has (entry (mm s') pd va) PTE_D = false;
  bi_entries pd' va' : pd' ∈ L → user_addr va' → ¬ (pd' = pd ∧ pg_no va' = pg_no va) → entry (mm s') pd' va' = entry (mm s) pd' va'
}.

Lemma bring_in s s1 pd va k w d : filled s s1 k d → same_entries L s s1 → page_bytes d →
  pd ∈ L → pd ≠ init → user_addr va → va mod 4096 = 0 → pool_end (upool s) ≤ PHYS_BASE + 4096 * ram →
  mapping (mm s) pd va = None → ¬ no_group (kpool s) 1 →
  ∃ s2, install_page init ram pd va k w s1 = Ok (true, s2) ∧ brought_in s s2 pd va k w d.
Proof using.
  intros [Hmv Huk Hb Hkp] He [Hl _] Hd Hi Hu Hal Hram Hm Hng. pose proof (mv_world _ _ _ _ _ Hmv) as Hw1.
  destruct (map_frame s1 pd va k w Hw1 Hd Hi Hu Hal Huk) as (s2 & E & Hmv2 & Hm2 & Hc2 & He2).
  - rewrite (proj1 (mv_end _ _ _ _ _ Hmv)). done.
  - unfold mapping in *. by rewrite He.
  - by rewrite Hkp.
  - exists s2. split; [done|]. assert (k ≠ 0) by (destruct Huk as (? & _); pose proof (awf_user _ (mw_palloc _ (wi_wf _ _ _ Hw1))) as [_ [? _] _]; unfold upool in *; lia).
    split; [by eapply moves_trans, Hmv2| | |done|done|].
    + by apply (mv_used _ _ _ _ _ (Hmv2 0)).
    + eapply bytes_ext; [|exact Hb]. intros a Ha. apply (mv_mem _ _ _ _ _ (Hmv2 0) k); [done..|lia].
    + intros pd' va' H1 H2 H3. by rewrite He2, He.
Qed.

(** a slot of the device is a page *)
Lemma join_sectors (l : list (list Z)) : (∀ x, x ∈ l → length x = 512%nat ∧ ∀ v, v ∈ x → 0 ≤ v < 256) →
  length (mjoin l) = (512 * length l)%nat ∧ ∀ v, v ∈ mjoin l → 0 ≤ v < 256.
Proof using.
  induction l as [|x l IH]; intros H; [split; [done|]; intros v Hv; by apply not_elem_of_nil in Hv|].
  destruct IH as [IH1 IH2]; [intros y Hy; apply H; by right|]. destruct (H x) as [Hx1 Hx2]; [left|].
  change (mjoin (x :: l)) with (x ++ mjoin l). split; [rewrite length_app; cbn [length]; lia|].
  intros v [Hv|Hv]%elem_of_app; auto.
Qed.

Lemma slot_page s n : swap_wf s → 0 ≤ n < s.(swap_bitmap).(bit_cnt) → page_bytes (slot s.(swap_dev) n).
Proof using.
  intros [_ Hs Hz] Hn. unfold page_bytes, slot.
  destruct (join_sectors (take 8 (drop (Z.to_nat (8 * n)) s.(swap_dev)))) as [Hl Hv].
  { intros x Hx. apply Hs. apply list_elem_of_lookup in Hx as [i Hx]. apply lookup_take_Some in Hx as [Hx _].
    rewrite lookup_drop in Hx. by eapply list_elem_of_lookup_2. }
  split; [|done]. rewrite Hl, length_take, length_drop. lia.
Qed.

(** [load_file] on a page of the executable *)
Lemma load_file_spec c k e contents d : e.(type) = VM_BIN → Elf.load_file e contents = Some d → page_bytes d →
  0 < k → writable (mm c.(cmmu)) k 4096 →
  load_file k e contents c = Ok (true, set_mmu (set_mm (write (mm c.(cmmu)) k d) c.(cmmu)) c).
Proof using.
  intros Ht El [Hl Hv] Hk Hw. unfold load_file. rewrite Ht. rewrite assert_bind by (apply nz_neq; lia). rewrite assert_bind by done.
  unfold Elf.load_file in El. set (b := take _ (drop _ contents)) in *. set (s := c.(cmmu)) in *.
  destruct (Z.eqb_spec (Z.of_nat (length b)) (read_bytes e)) as [Er|]; [|done]. injection El as <-.
  rewrite length_app, length_replicate in Hl.
  set (s1 := set_mm (write (mm s) k b) s).
  rewrite (bind_ok _ _ _ tt (set_mmu s1 c)).
  2: { apply in_mmu_eq, in_palloc_eq, in_mem_eq, put_bytes_spec; [intros a Ha; apply Hw; lia|]. intros v Hb. apply Hv, elem_of_app. by left. }
  set (z := Z.to_nat (zero_bytes e)) in *.
  assert (Em : memset (k + read_bytes e) 0 (zero_bytes e) (mm s1) = Ok (k + read_bytes e, write (mm s) k (b ++ replicate z 0))).
  { assert (Hz : Z.to_nat (Z.of_nat z) = Z.to_nat (zero_bytes e)) by (unfold z; lia).
    pose proof (memset_spec (mm s1) (k + read_bytes e) 0 z) as E. unfold memset in *. rewrite Hz in E.
    unfold nonnull in *. rewrite write_app, <- Er. rewrite <- Er in E.
    destruct (Z.eqb_spec (k + Z.of_nat (length b)) 0); [lia|]. cbn [negb orb] in *. rewrite ?orb_true_r in *. apply E; [|lia].
    intros a Ha. apply write_is_Some, Hw. lia. }
  rewrite (bind_ok _ _ _ (k + read_bytes e) (set_mmu (set_mm (write (mm s) k (b ++ replicate z 0)) s) c)); [done|].
  erewrite in_mmu_eq; [|apply in_palloc_eq, in_mem_eq, Em]. done.
Qed.

(** the slots after a page has been read in: slot [n] may have been freed *)
Record slots_after (c : core) (e : page_entry) (b : bitmap) (m : mem) (n : Z) : Prop := {
  sa_wf : swap_wf (mk_swap b c.(cdev) m);
  sa_cnt : b.(bit_cnt) = c.(cbitmap).(bit_cnt);
  sa_other j : 0 ≤ j → j ≠ n → bit b j = bit c.(cbitmap) j;
  sa_slot : n = match e.(type) with VM_ANON => e.(swap_slot) - 1 | VM_BIN => -1 end
}.

Lemma absent_page lr c t th va q e : vm_inv init ram L (lr, c) → has_entry c t th va q → c.(pges) !! q = Some e → e.(is_loaded) = false →
  page_bytes (data c th e) ∧ mapping (mm c.(cmmu)) th.(pagedir) va = None ∧ e.(vaddr) = va.
Proof using.
  intros Hinv He Ee Hl. destruct (vi_entry _ _ _ _ Hinv _ _ _ _ He) as (e' & Ee' & [_ Hva _ Hb Hst]). cbn [fst snd] in *.
  rewrite Ee in Ee'. simplify_eq. rewrite Hl in Hst. destruct Hst as [Hm Hs]. split; [|done]. unfold data. rewrite Hl.
  destruct (type e') eqn:Ety.
  - destruct (Hs eq_refl) as [Hr _]. apply (slot_page (swap_of c)); [apply Hinv|done].
  - destruct (Hb eq_refl) as (b & -> & Hlen & Hv). done.
Qed.

Lemma fill_page_spec lr c t th va q e k ps' P (c3 := set_pages P (with_frame c ps')) : vm_inv init ram L (lr, c) → has_entry c t th va q → c.(pges) !! q = Some e →
  e.(is_loaded) = false → got PAL_USER 1 c.(cmmu).(ps) k ps' → ¬ no_group (kpool c.(cmmu)) 1 →
  ∃ s3 b n, fill_page init ram th e k c3 = Ok (true, mk_core s3 b c.(cdev) P c.(pges) c.(procs) c.(heap_next) c.(heap_allocs)) ∧
    brought_in c.(cmmu) s3 th.(pagedir) va k e.(pwritable) (data c th e) ∧ slots_after c e b (mm s3) n.
Proof using.
  intros Hinv He Ee Hl G Hng. pose proof (vi_world _ _ _ _ Hinv) as Hw. cbn [snd] in Hw.
  destruct (absent_page lr c t th va q e Hinv He Ee Hl) as (Hd & Hm & Hva).
  destruct (vi_entry _ _ _ _ Hinv _ _ _ _ He) as (e' & Ee' & [_ _ [Hu Hal] Hb Hst]). cbn [fst snd] in *. rewrite Ee in Ee'. simplify_eq.
  rewrite Hl in Hst. destruct (vi_proc _ _ _ _ Hinv t th (proj1 He)) as (_ & Hpd & Hpi).
  destruct (got_frame PAL_USER c.(cmmu) k ps' (wi_wf _ _ _ Hw) eq_refl G) as (_ & Hka & _ & _ & _ & _ & _ & Hwr & _).
  assert (Hpm : pmem ps' = mm c.(cmmu)) by exact (got_mem _ _ _ _ _ G).
  destruct (fill_state PAL_USER c.(cmmu) k ps' (data c th e') Hw eq_refl G) as [Hfl Hse]; [by rewrite Hpm|done|].
  set (s2 := mk_mmu _ _ _) in *.
  destruct (bring_in c.(cmmu) s2 th.(pagedir) (vaddr e') k e'.(pwritable) _ Hfl Hse Hd Hpd Hpi Hu Hal (vi_ram _ _ _ _ Hinv) Hm Hng) as (s3 & E3 & Hbi).
  exists s3. unfold fill_page. destruct (vi_swap _ _ _ _ Hinv) as [W1 W2 W3].
  assert (Es2 : s2 = set_mm (write ps'.(pmem) k (data c th e')) (mk_mmu ps' c.(cmmu).(cr3) c.(cmmu).(tlb))) by done.
  clearbody s2. clear Hfl Hse. unfold data in *. rewrite Hl in *.
  destruct (type e') eqn:Ety.
  - destruct (proj2 Hst Ety) as [Hr Hbit].
    destruct (swap_in_spec (swap_of c3) (e'.(swap_slot) - 1) k) as (b & E & Hwf & Hcnt & Hbits); [by split|done|apply Hka| |].
    { exact Hwr. }
    exists b, (e'.(swap_slot) - 1). split; [|split; [done|]].
    + replace (e'.(swap_slot) - 1 + 1) with e'.(swap_slot) in E by lia.
      rewrite (bind_ok _ _ _ tt (set_swap (mk_swap b c.(cdev) (mm s2)) c3)).
      2: { unfold in_swap. rewrite E, Es2. reflexivity. }
      rewrite assert_bind by (rewrite pg_ofs_eq, (proj1 Hka); done).
      erewrite in_mmu_eq; [|rewrite Es2 in E3 |- *; exact E3]. done.
    + split; [destruct Hwf; by split|done| |by rewrite Ety]. intros j Hj Hne. rewrite Hbits by done. by destruct (Z.eqb_spec j (swap_slot e' - 1)).
  - destruct (Hb eq_refl) as (d & Ed & Hlen & Hv). rewrite Ed in *. cbn [default] in *.
    exists c.(cbitmap), (-1). split; [|split; [done|]].
    + rewrite (bind_ok _ _ _ true (set_mmu s2 c3)).
      2: { rewrite (load_file_spec c3 k e' (exec_file th) d Ety Ed Hd); [by rewrite Es2| |exact Hwr]. destruct Hka as [_ ?]. unfold PHYS_BASE in *. lia. }
      cbv iota. erewrite in_mmu_eq; [|exact E3]. done.
    + split; [by split|done|done|by rewrite Ety].
Qed.

(** * A page comes in *)

Lemma order_push l c p : (∃ q, order (mk_lru l c) q) → ∃ q, order (mk_lru (l ++ [p]) c) q.
Proof using.
  intros [q Ho]. inversion Ho as [? ? [-> | ->]|l1 x l2]; subst; [eexists; left; auto..|]. apply order_exists. set_solver.
Qed.

Section arrive.
Context (lr : lru) (c : core) (t : Z) (th : proc) (va q p k n : Z) (e1 : page_entry) (s3 : mmu) (b : bitmap) (d : list Z).
Definition table_with : proc := mk_proc th.(pagedir) (<[va := q]> th.(sup_page_tab)) th.(exec_file).
Abbreviation th' := table_with.
Definition arrived : lru * core := (mk_lru (lr.(list_LRU) ++ [p]) lr.(LRU_clock),
  mk_core s3 b c.(cdev) (<[p := mk_page k q t]> c.(pages)) (<[q := e1]> c.(pges)) (<[t := th']> c.(procs)) c.(heap_next) c.(heap_allocs)).

Hypothesis Hinv : vm_inv init ram L (lr, c).
Hypothesis Ht : c.(procs) !! t = Some th.
Hypothesis Hva : user_addr va ∧ va mod 4096 = 0.
Hypothesis Hsup : th.(sup_page_tab) !! va = Some q ∨ th.(sup_page_tab) !! va = None.
Hypothesis Hq : 0 < q < c.(heap_next).
Hypothesis Hp : 0 < p < c.(heap_next).
Hypothesis Hpnew : c.(pages) !! p = None.
Hypothesis Hqp : ∀ p' pg, p' ∈ lr.(list_LRU) → c.(pages) !! p' = Some pg → pg.(pge) ≠ q.
Hypothesis Hqe : ∀ t1 th1 va1, has_entry c t1 th1 va1 q → t1 = t ∧ va1 = va.
Hypothesis Hk : ¬ used (upool c.(cmmu)) k.
Hypothesis Hbi : brought_in c.(cmmu) s3 th.(pagedir) va k e1.(pwritable) d.
Hypothesis Hd : page_bytes d.
Hypothesis He1 : e1.(vaddr) = va ∧ e1.(is_loaded) = true.
Hypothesis Hbin : e1.(type) = VM_BIN → Elf.load_file e1 th.(exec_file) = Some d.
Hypothesis Hsw : swap_wf (mk_swap b c.(cdev) (mm s3)) ∧ b.(bit_cnt) = c.(cbitmap).(bit_cnt) ∧
  ∀ j, 0 ≤ j → j ≠ n → bit b j = bit c.(cbitmap) j.
Hypothesis Hslot : ∀ t th va q' e, has_entry c t th va q' → c.(pges) !! q' = Some e → q' ≠ q → e.(is_loaded) = false →
  e.(type) = VM_ANON → e.(swap_slot) - 1 ≠ n.

Lemma arrive_fresh : p ∉ lr.(list_LRU).
Proof using Hinv Hpnew. intros H. destruct (vi_page _ _ _ _ Hinv p H) as (? & ? & ? & ? & ? & ? & E & _). simpl in E. congruence. Qed.

Lemma arrive_touch : touch init L (lr, c) arrived q p k n.
Proof using All.
  split; cbn [fst snd arrived cmmu cbitmap cdev pages pges procs list_LRU].
  - apply Hbi.
  - intros x Hx. by rewrite lookup_insert_ne.
  - intros x Hx. by rewrite lookup_insert_ne.
  - intros x Hx. set_solver.
  - intros t1 th1 E. destruct (decide (t1 = t)) as [->|Hne].
    + rewrite lookup_insert_eq in E. injection E as <-. exists th. split_and!; try done. intros va1 q1 Hq1 Hs. cbn [sup_page_tab table_with] in Hs.
      destruct (decide (va1 = va)) as [->|]; [rewrite lookup_insert_eq in Hs; congruence|by rewrite lookup_insert_ne in Hs].
    + rewrite lookup_insert_ne in E by done. by exists th1.
  - intros t1 th1 E. destruct (decide (t1 = t)) as [->|Hne].
    + exists th'. rewrite lookup_insert_eq. split; [done|]. intros va1 q1 Hs. cbn [sup_page_tab table_with]. rewrite Ht in E. simplify_eq.
      destruct (decide (va1 = va)) as [->|]; [rewrite lookup_insert_eq; destruct Hsup; congruence|by rewrite lookup_insert_ne].
    + exists th1. by rewrite lookup_insert_ne.
  - intros t1 th1 va1 E Hu1 Hal1 Hs1. apply mapping_entry, (bi_entries _ _ _ _ _ _ _ Hbi).
    + destruct (decide (t1 = t)) as [->|Hne]; [rewrite lookup_insert_eq in E; injection E as <-; apply (vi_proc _ _ _ _ Hinv t th Ht)|].
      rewrite lookup_insert_ne in E by done. apply (vi_proc _ _ _ _ Hinv t1 th1 E).
    + done.
    + intros [Hpd Hpg]. destruct (decide (t1 = t)) as [->|Hne].
      * rewrite lookup_insert_eq in E. injection E as <-. rewrite !pg_no_eq in Hpg. destruct Hva as [_ Hal].
        pose proof (Z.div_mod va 4096). pose proof (Z.div_mod va1 4096). assert (va1 = va) as -> by lia. apply Hs1, lookup_insert_eq.
      * rewrite lookup_insert_ne in E by done. by apply Hne, (vi_proc_inj _ _ _ _ Hinv t1 t th1 th).
  - apply Hsw.
  - intros j Hj Hne. split; [|done]. by apply Hsw.
Qed.

Lemma arrive_entry t1 th1 va1 : has_entry arrived.2 t1 th1 va1 q → t1 = t ∧ th1 = th' ∧ va1 = va.
Proof using Ht Hqe.
  intros [E Eq]. cbn [snd arrived procs] in E. destruct (decide (t1 = t)) as [->|Hne].
  - rewrite lookup_insert_eq in E. injection E as <-. split; [done|]. split; [done|]. cbn [sup_page_tab table_with] in Eq.
    destruct (decide (va1 = va)) as [|]; [done|]. rewrite lookup_insert_ne in Eq by done. by apply (Hqe t th va1).
  - rewrite lookup_insert_ne in E by done. destruct (Hqe t1 th1 va1 (conj E Eq)). done.
Qed.

Lemma arrive_frame : frame (mm s3) k = d.
Proof using Hbi Hd. apply frame_bytes; [apply Hbi|apply Hd]. Qed.

Lemma arrive_ok : entry_ok arrived.2 arrived.1.(list_LRU) t th' va q e1.
Proof using Hq He1 Hva Hbin Hd Hbi.
  destruct He1 as [Ev El]. split; try done.
  - lia.
  - intros Et. exists d. split; [by apply Hbin|]. apply Hd.
  - rewrite El. exists p, k. pose proof Hbi as []. unfold arrived. cbn [fst snd cmmu pages list_LRU]. rewrite arrive_frame, Ev.
    split_and!; try done.
    + apply elem_of_app. right. by apply list_elem_of_singleton.
    + apply lookup_insert_eq.
    + intros Et _. by apply Hbin.
Qed.

Lemma arrive_apart p' pg : p' ∈ lr.(list_LRU) → c.(pages) !! p' = Some pg → p' ≠ p → pg.(pge) ≠ q ∧ pg.(kaddr) ≠ k.
Proof using Hinv Hqp Hk.
  intros Hp' E _. split; [by apply (Hqp p')|]. intros Hkk. apply Hk. rewrite <- Hkk.
  destruct (inv_page init ram L lr c p' Hinv Hp') as (t1 & th1 & q1 & e2 & k1 & Hf). pose proof (pf_page _ _ _ _ _ _ _ _ _ Hf) as E'.
  rewrite E in E'. injection E' as ->. apply (pf_used _ _ _ _ _ _ _ _ _ Hf).
Qed.

Lemma arrive_inv : vm_inv init ram L arrived.
Proof using All.
  apply (touch_inv init ram L (lr, c) arrived q p k n Hinv arrive_touch).
  - exact arrive_apart.
  - exact Hslot.
  - intros H. by destruct (arrive_fresh H).
  - intros t1 th1 va1 H. destruct (arrive_entry _ _ _ H) as (-> & -> & ->). exists e1. split; [apply lookup_insert_eq|].
    split; [apply arrive_ok|]. rewrite (proj2 He1). done.
  - intros t1 th1 va1 t2 th2 va2 H1 H2. destruct (arrive_entry _ _ _ H1) as (-> & _ & ->), (arrive_entry _ _ _ H2) as (-> & _ & ->). done.
  - intros _. exists t, th', va, e1. split_and!; [apply lookup_insert_eq| |apply lookup_insert_eq|apply He1].
    split; [apply lookup_insert_eq|]. apply lookup_insert_eq.
  - destruct (vi_list _ _ _ _ Hinv) as [Hnd Ho]. split; [|by apply order_push; destruct lr]. cbn [fst arrived list_LRU] in *.
    apply NoDup_app. split; [done|]. split; [|apply NoDup_singleton]. intros x Hx ->%list_elem_of_singleton. by apply arrive_fresh.
  - destruct Hsw as [[] _]. by split.
  - destruct (vi_heap _ _ _ _ Hinv) as (H1 & H2 & H3). cbn [snd arrived pages pges heap_next] in *. split_and!; [done| |].
    + intros x pg Hx. destruct (decide (x = p)) as [->|]; [done|]. rewrite lookup_insert_ne in Hx by done. by apply (H2 x pg).
    + intros x e Hx. destruct (decide (x = q)) as [->|]; [done|]. rewrite lookup_insert_ne in Hx by done. by apply (H3 x e).
  - intros _. cbn [fst arrived list_LRU]. set_solver.
Qed.

Lemma arrive_data t1 va1 : page_data arrived.2 t1 va1 = if decide (t1 = t ∧ va1 = va) then Some d else page_data c t1 va1.
Proof using All.
  destruct (decide _) as [[-> ->]|Hn].
  - unfold page_data. cbn [snd arrived procs pges]. rewrite lookup_insert_eq. cbn [mbind option_bind sup_page_tab table_with].
    rewrite lookup_insert_eq. cbn [mbind option_bind]. rewrite lookup_insert_eq. cbn [mbind option_bind]. f_equal.
    unfold data. destruct He1 as [Ev El]. rewrite El, Ev. cbn [cmmu pagedir table_with]. rewrite (bi_map _ _ _ _ _ _ _ Hbi). apply arrive_frame.
  - apply (touch_data init ram L (lr, c) arrived q p k n Hinv arrive_touch).
    + exact arrive_apart.
    + exact Hslot.
    + intros H. by destruct (arrive_fresh H).
    + intros th1 H. destruct (arrive_entry _ _ _ H) as (-> & _ & ->). by apply Hn.
Qed.

Lemma arrive_spec : vm_inv init ram L arrived ∧
  ∀ t1 va1, page_data arrived.2 t1 va1 = if decide (t1 = t ∧ va1 = va) then Some d else page_data c t1 va1.
Proof using All. split; [apply arrive_inv|apply arrive_data]. Qed.
End arrive.

(** * [alloc_page] *)

(** the next [malloc] of the heap succeeds *)
Definition malloc_ok (a : list bool) : Prop := match a with false :: _ => False | _ => True end.

Definition after_malloc (c : core) : core := set_cheap (c.(heap_next) + 1) (tail c.(heap_allocs)) c.

Lemma malloc_eq c : malloc_ok c.(heap_allocs) → malloc c = Ok (c.(heap_next), after_malloc c).
Proof using. intros H. unfold malloc, after_malloc. rewrite (bind_ok get _ c c c) by done. by destruct (heap_allocs c) as [|[] ?]. Qed.

Lemma malloc_inv lr c : vm_inv init ram L (lr, c) → vm_inv init ram L (lr, after_malloc c).
Proof using.
  intros [A1 A2 A3 A4 (H1 & H2 & H3) A6 A7 A8 A9 A10 A11 A12 A13 A14]. split; try assumption.
  - cbn [snd after_malloc set_cheap heap_next pages pges] in *. split_and!; [lia| |]; intros x y Hx; [specialize (H2 x y Hx)|specialize (H3 x y Hx)]; lia.
  - intros t th va q He. destruct (A8 t th va q He) as (e & Ee & []). exists e. by split; [|split].
Qed.

(** what there must be for a page to be brought in: memory for its bookkeeping, a slot
    for the page it may push out, a user page at all, a page for a page table *)
Record room (mallocs : nat) (c : core) : Prop := {
  rm_malloc : ∀ i, (i < mallocs)%nat → c.(heap_allocs) !! i ≠ Some false;
  rm_slot : free_slots c;
  rm_user : (upool c.(cmmu)).(base) < pool_end (upool c.(cmmu));
  rm_kernel : ¬ no_group (kpool c.(cmmu)) 1
}.

Lemma room_malloc n c : room (S n) c → malloc_ok c.(heap_allocs) ∧ room n (after_malloc c).
Proof using.
  intros [H1 H2 H3 H4]. split.
  - pose proof (H1 0%nat ltac:(lia)). by destruct (heap_allocs c) as [|[] ?].
  - split; [|done..]. intros i Hi. specialize (H1 (S i) ltac:(lia)). cbn [after_malloc set_cheap heap_allocs].
    by destruct (heap_allocs c).
Qed.

Lemma alloc_page_spec lr c cur th flags : vm_inv init ram L (lr, c) → c.(procs) !! cur = Some th → user_flags flags → room 1 c →
  ∃ k lr1 c1 ps' (p := c.(heap_next)),
    alloc_page init cur flags (lr, c) = Ok (p, (lr1, set_pages (<[p := mk_page k 0 cur]> c1.(pages)) (with_frame c1 ps'))) ∧
    vm_inv init ram L (lr1, c1) ∧ keeps (after_malloc c) c1 ∧ got flags 1 c1.(cmmu).(ps) k ps' ∧
    0 < p < c1.(heap_next) ∧ c1.(pages) !! p = None.
Proof using.
  intros Hinv Ec Hfl Hr. destruct (room_malloc 0 c Hr) as [Hm Hr0]. destruct (vi_proc _ _ _ _ Hinv cur th Ec) as (Hcur & _).
  destruct (alloc_loop_spec init ram L flags lr (after_malloc c) (malloc_inv lr c Hinv) Hfl (rm_slot _ _ Hr0) (rm_user _ _ Hr0))
    as (k & lr1 & c1 & ps' & E & Hinv1 & Hk & G).
  exists k, lr1, c1, ps'. destruct (vi_heap _ _ _ _ Hinv) as (Hn & Hpg & _). cbn [snd] in *. split; [|split_and!; try done].
  - unfold alloc_page. rewrite (bind_ok _ _ _ _ _ (in_bits_eq _ lr _ _ _ (malloc_eq c Hm))).
    destruct (Z.eqb_spec (heap_next c) 0); [lia|].
    rewrite (bind_ok _ _ _ th (lr, after_malloc c)) by (by apply in_bits_eq, thread_of_eq).
    by rewrite (bind_ok _ _ _ _ _ E).
  - rewrite (proj1 (kp_heap _ _ Hk)). cbn [after_malloc set_cheap heap_next]. lia.
  - apply (kp_pages _ _ Hk). cbn [after_malloc set_cheap pages].
    destruct (pages c !! heap_next c) as [pg|] eqn:E'; [|done]. specialize (Hpg _ _ E'). lia.
Qed.

(** * [handle_mm_fault] *)

Lemma absent_page_new lr c t th va q e p pg : vm_inv init ram L (lr, c) → has_entry c t th va q → c.(pges) !! q = Some e → e.(is_loaded) = false →
  p ∈ lr.(list_LRU) → c.(pages) !! p = Some pg → pg.(pge) ≠ q.
Proof using.
  intros Hinv He Ee Hl Hp Ep Hq. destruct (inv_page init ram L lr c p Hinv Hp) as (t1 & th1 & q1 & e1 & k1 & Hf).
  pose proof (pf_page _ _ _ _ _ _ _ _ _ Hf). pose proof (pf_pge _ _ _ _ _ _ _ _ _ Hf). pose proof (pf_loaded _ _ _ _ _ _ _ _ _ Hf).
  simplify_eq. cbn [pge] in *. congruence.
Qed.

Lemma handle_mm_fault_spec lr c cur th va q e : vm_inv init ram L (lr, c) → has_entry c cur th va q → c.(pges) !! q = Some e →
  e.(is_loaded) = false → room 1 c →
  ∃ s', handle_mm_fault init ram cur q (lr, c) = Ok (true, s') ∧ vm_inv init ram L s' ∧
    (∀ t va, page_data s'.2 t va = page_data c t va) ∧ s'.2.(procs) = c.(procs) ∧
    s'.2.(pges) !! q = Some (loaded true e).
Proof using.
  intros Hinv He Ee Hl Hr. destruct (alloc_page_spec lr c cur th PAL_USER Hinv (proj1 He) (or_introl eq_refl) Hr)
    as (k & lr1 & c1 & ps' & E & Hinv1 & Hk & G & Hp & Hpn). set (p := heap_next c) in *.
  pose proof (kp_procs _ _ Hk) as Hpr. assert (He1 : has_entry c1 cur th va q) by (unfold has_entry; by rewrite Hpr).
  assert (Ee1 : c1.(pges) !! q = Some e) by (by apply (kp_absent _ _ Hk)).
  assert (Hng : ¬ no_group (kpool c1.(cmmu)) 1) by (rewrite (kp_kpool _ _ Hk); apply Hr).
  set (P := <[p := mk_page k q cur]> (<[p := mk_page k 0 cur]> c1.(pages))).
  destruct (fill_page_spec lr1 c1 cur th va q e k ps' P Hinv1 He1 Ee1 Hl G Hng) as (s3 & b & n & E3 & Hbi & [Ws Wc Wo Wn]).
  destruct (got_frame PAL_USER c1.(cmmu) k ps' (wi_wf _ _ _ (vi_world _ _ _ _ Hinv1)) eq_refl G) as (_ & Hka & _ & Hnu & _).
  destruct (absent_page lr1 c1 cur th va q e Hinv1 He1 Ee1 Hl) as (Hd & _ & Hva).
  destruct (vi_proc _ _ _ _ Hinv cur th (proj1 He)) as (Hcur & _).
  destruct (vi_heap _ _ _ _ Hinv1) as (_ & _ & Hq). specialize (Hq q e Ee1).
  pose proof (vi_entry _ _ _ _ Hinv1 _ _ _ _ He1) as (e' & Ee' & [_ _ Hua Hb _]). cbn [fst snd] in *. rewrite Ee1 in Ee'. injection Ee' as <-.
  destruct (arrive_spec lr1 c1 cur th va q p k n (loaded true e) s3 b (data c1 th e)) as [Harr Hdata]; try done.
  - apply He1.
  - left. apply He1.
  - intros p' pg. by apply (absent_page_new lr1 c1 cur th va q e).
  - intros t1 th1 va1 H1. by eapply (vi_entry_inj _ _ _ _ Hinv1).
  - intros Et. change (Elf.load_file (loaded true e)) with (Elf.load_file e). cbn [type loaded] in Et.
    destruct (Hb Et) as (b0 & Eb & _). unfold data. by rewrite Hl, Et, Eb.
  - intros t1 th1 va1 q1 e1 H1 E1 Hne Hl1 Hty1. rewrite Wn. intros Hs. destruct (type e) eqn:Et.
    + apply Hne. eapply (vi_slots _ _ _ _ Hinv1); [exact H1|exact He1|exact E1|exact Ee1|done|done|done|done|lia].
    + destruct (vi_entry _ _ _ _ Hinv1 _ _ _ _ H1) as (? & _ & [Hnz _ _ _ _]). by apply (no_slot init ram L lr1 c1 Hinv1 t1 th1 va1 q1 e1).
  - eexists. split; [|split; [exact Harr|split; [|split]]].
    + assert (Hth : table_with th va q = th).
      { unfold table_with. rewrite insert_id by apply He1. by destruct th. }
      unfold arrived. rewrite Hth, (insert_id (procs c1)) by apply He1. unfold handle_mm_fault.
      rewrite (bind_ok _ _ _ _ _ E). rewrite assert_bind by (apply nz_neq; lia).
      set (c2 := set_pages _ (with_frame c1 ps')).
      rewrite (bind_ok _ _ _ _ _ (in_bits_eq _ lr1 c2 _ _ (get_page_eq _ _ _ (lookup_insert_eq _ _ _)))). cbn [kaddr pthread].
      rewrite assert_bind by (by rewrite pg_ofs_eq, (proj1 Hka)). rewrite assert_bind by (apply nz_neq; lia).
      set (c3 := set_pages P (with_frame c1 ps')) in *.
      rewrite (bind_ok _ _ _ tt (lr1, c3)) by done.
      rewrite (bind_ok _ _ _ _ _ (in_bits_eq _ lr1 c3 _ _ (entry_at_eq c3 q e Ee1))).
      rewrite (bind_ok _ _ _ _ _ (in_bits_eq _ lr1 c3 _ _ (thread_of_eq c3 cur th Hcur (proj1 He1)))).
      rewrite (bind_ok _ _ _ _ _ (in_bits_eq _ lr1 _ _ _ E3)). cbv iota.
      set (c4 := mk_core s3 b c1.(cdev) P (<[q := loaded true e]> (pges c1)) c1.(procs) c1.(heap_next) c1.(heap_allocs)).
      rewrite (bind_ok _ _ _ tt (lr1, c4)) by done.
      rewrite (bind_ok _ _ _ tt (mk_lru (lr1.(list_LRU) ++ [p]) lr1.(LRU_clock), c4)).
      { unfold c4, P. by rewrite insert_insert_eq. }
      unfold add_page. rewrite (bind_ok _ _ _ _ _ (in_bits_eq _ lr1 c4 _ _ (get_page_eq _ _ _ (lookup_insert_eq _ _ _)))). cbn [pthread].
      by rewrite (bind_ok _ _ _ _ _ (in_bits_eq _ lr1 c4 _ _ (thread_of_eq c4 cur th Hcur (proj1 He1)))).
    + intros t1 va1. rewrite Hdata. change (page_data c t1 va1) with (page_data (after_malloc c) t1 va1). rewrite <- (kp_data _ _ Hk). destruct (decide _) as [[-> ->]|]; [|done].
      unfold page_data. rewrite (proj1 He1). cbn [mbind option_bind]. rewrite (proj2 He1). cbn [mbind option_bind]. by rewrite Ee1.
    + unfold arrived. cbn [snd procs]. change (procs c) with (procs (after_malloc c)). rewrite <- Hpr. apply insert_id. rewrite (proj1 He1). f_equal. unfold table_with.
      rewrite insert_id by apply He1. by destruct th.
    + apply lookup_insert_eq.
Qed.

(** * [stack_grow] *)

Lemma write_same m p l : bytes m p l → write m p l = m.
Proof using.
  intros H. apply map_eq. intros a. rewrite lookup_write. destruct (decide _) as [Ha|]; [|done].
  destruct (lookup_lt_is_Some_2 l (Z.to_nat (a - p)) ltac:(lia)) as [v Ev]. rewrite Ev. symmetry.
  replace a with (p + Z.of_nat (Z.to_nat (a - p))) by lia. rewrite bytes_lookup in H. by apply H.
Qed.

Definition zero_page : list Z := replicate (Z.to_nat 4096) 0.

Lemma zero_page_bytes : page_bytes zero_page.
Proof using. split; [apply length_replicate|]. intros v [-> _]%elem_of_replicate. lia. Qed.

Lemma got_zero_page s k ps' : got (Z.lor PAL_USER PAL_ZERO) 1 s k ps' → ps'.(pmem) = write s.(pmem) k zero_page.
Proof using.
  intros G. rewrite (got_mem _ _ _ _ _ G). assert (E : has (Z.lor PAL_USER PAL_ZERO) PAL_ZERO = true) by done. rewrite E.
  assert (E' : PGSIZE * 1 = 4096) by done. by rewrite E'.
Qed.

#[local] Opaque zero_page.

Lemma fresh_entry_page lr c q p pg : vm_inv init ram L (lr, c) → c.(pges) !! q = None → p ∈ lr.(list_LRU) → c.(pages) !! p = Some pg →
  pg.(pge) ≠ q.
Proof using.
  intros Hinv Eq Hp Ep Hq. destruct (inv_page init ram L lr c p Hinv Hp) as (t1 & th1 & q1 & e1 & k1 & Hf).
  pose proof (pf_page _ _ _ _ _ _ _ _ _ Hf). pose proof (pf_pge _ _ _ _ _ _ _ _ _ Hf). simplify_eq. cbn [pge] in *. congruence.
Qed.

Lemma new_page_spec lr c cur th va q : vm_inv init ram L (lr, c) → c.(procs) !! cur = Some th → th.(sup_page_tab) !! va = None →
  user_addr va ∧ va mod 4096 = 0 → 0 < q < c.(heap_next) → c.(pges) !! q = None → room 1 c →
  ∃ s', new_page init ram cur va q (lr, c) = Ok (Some true, s') ∧ vm_inv init ram L s' ∧
    (∀ t1 va1, page_data s'.2 t1 va1 = if decide (t1 = cur ∧ va1 = va) then Some zero_page else page_data c t1 va1) ∧
    s'.2.(procs) = <[cur := table_with th va q]> c.(procs) ∧
    ∃ e, s'.2.(pges) !! q = Some e ∧ e.(is_loaded) = true.
Proof using.
  intros Hinv Ec Hs Hva Hq Eq Hr. set (flags := Z.lor PAL_USER PAL_ZERO).
  destruct (alloc_page_spec lr c cur th flags Hinv Ec (or_intror eq_refl) Hr) as (k & lr1 & c1 & ps' & E & Hinv1 & Hk & G & Hp & Hpn).
  set (p := heap_next c) in *. pose proof (kp_procs _ _ Hk) as Hpr. assert (Ec1 : c1.(procs) !! cur = Some th) by (by rewrite Hpr).
  assert (Eq1 : c1.(pges) !! q = None) by (by apply (kp_pges _ _ Hk)).
  assert (Hnone : ∀ t1 th1 va1, ¬ has_entry c1 t1 th1 va1 q).
  { intros t1 th1 va1 H. destruct (vi_entry _ _ _ _ Hinv1 _ _ _ _ H) as (e & Ee & _). simpl in Ee. congruence. }
  destruct (vi_proc _ _ _ _ Hinv1 cur th Ec1) as (Hcur & Hpd & Hpi). pose proof (vi_world _ _ _ _ Hinv1) as Hw. cbn [snd] in *.
  assert (Hm : mapping (mm c1.(cmmu)) th.(pagedir) va = None).
  { destruct (mapping _ _ _) eqn:Em; [|done]. destruct (vi_maps _ _ _ _ Hinv1 cur th va Ec1 (proj1 Hva) (proj2 Hva)) as [x Hx]; [|congruence].
    cbn [snd]. congruence. }
  destruct (got_frame flags c1.(cmmu) k ps' (wi_wf _ _ _ Hw) eq_refl G) as (_ & Hka & _ & Hnu & _).
  assert (Hpm : pmem ps' = write (mm c1.(cmmu)) k zero_page) by exact (got_zero_page _ _ _ G).
  destruct (fill_state flags c1.(cmmu) k ps' zero_page Hw eq_refl G) as [Hfl Hse]; [|apply zero_page_bytes|].
  { intros a Ha. rewrite Hpm. apply lookup_write_out. rewrite (proj1 zero_page_bytes). lia. }
  rewrite (write_same (pmem ps')) in Hfl, Hse by (rewrite Hpm; apply bytes_write, zero_page_bytes). clear Hpm.
  destruct (bring_in c1.(cmmu) _ th.(pagedir) va k true _ Hfl Hse zero_page_bytes Hpd Hpi (proj1 Hva) (proj2 Hva)
    (vi_ram _ _ _ _ Hinv1) Hm) as (s3 & E3 & Hbi); [rewrite (kp_kpool _ _ Hk); apply Hr|].
  set (e1 := mk_pge VM_ANON va true true 0 0 0 0).
  destruct (arrive_spec lr1 c1 cur th va q p k (-1) e1 s3 c1.(cbitmap) zero_page) as [Harr Hdata];
    [exact Hinv1|exact Ec1|exact Hva|right|..].
  - rewrite <- Hs. reflexivity.
  - rewrite (proj1 (kp_heap _ _ Hk)). cbn [after_malloc set_cheap heap_next]. lia.
  - exact Hp.
  - exact Hpn.
  - intros p' pg. exact (fresh_entry_page lr1 c1 q p' pg Hinv1 Eq1).
  - intros t1 th1 va1 H1. by destruct (Hnone t1 th1 va1).
  - exact Hnu.
  - exact Hbi.
  - apply zero_page_bytes.
  - split; reflexivity.
  - intros [=].
  - destruct (vi_swap _ _ _ _ Hinv1). split; [by split|done].
  - intros t1 th1 va1 q1 e2 H1 E1 Hne. destruct (vi_entry _ _ _ _ Hinv1 _ _ _ _ H1) as (? & _ & [Hnz _ _ _ _]).
    by apply (no_slot init ram L lr1 c1 Hinv1 t1 th1 va1 q1 e2).
  - eexists. split; [|split; [exact Harr|split; [|split]]].
    + assert (Eps : mk_pstate (kernel_pool ps') (user_pool ps') (pmem ps') = ps') by (by destruct ps'). rewrite Eps in E3.
      unfold new_page. rewrite (bind_ok _ _ _ _ _ E). destruct (Z.eqb_spec p 0); [lia|].
      set (c2 := set_pages _ (with_frame c1 ps')).
      rewrite (bind_ok _ _ _ _ _ (in_bits_eq _ lr1 c2 _ _ (get_page_eq _ _ _ (lookup_insert_eq _ _ _)))). cbn [kaddr pthread].
      set (c3 := set_pages (<[p := mk_page k q cur]> (<[p := mk_page k 0 cur]> c1.(pages))) (with_frame c1 ps')).
      rewrite (bind_ok _ _ _ tt (lr1, c3)) by reflexivity.
      set (lr2 := mk_lru (lr1.(list_LRU) ++ [p]) lr1.(LRU_clock)).
      rewrite (bind_ok _ _ _ tt (lr2, c3)).
      2: { unfold add_page. rewrite (bind_ok _ _ _ _ _ (in_bits_eq _ lr1 c3 _ _ (get_page_eq _ _ _ (lookup_insert_eq _ _ _)))). cbn [pthread].
           by rewrite (bind_ok _ _ _ _ _ (in_bits_eq _ lr1 c3 _ _ (thread_of_eq c3 cur th Hcur Ec1))). }
      rewrite (bind_ok _ _ _ _ _ (in_bits_eq _ lr2 c3 _ _ (thread_of_eq c3 cur th Hcur Ec1))).
      rewrite (bind_ok _ _ _ _ _ (in_bits_eq _ lr2 c3 _ _ (in_mmu_eq _ c3 true s3 E3))). cbv iota.
      set (c4 := set_pges (<[q := e1]> c1.(pges)) (set_mmu s3 c3)).
      rewrite (bind_ok _ _ _ tt (lr2, c4)) by reflexivity.
      rewrite (bind_ok _ _ _ true (lr2, set_procs (<[cur := table_with th va q]> c1.(procs)) c4)).
      { unfold c4, c3, arrived, set_pges, set_mmu, set_pages, set_procs. cbn. by rewrite insert_insert_eq. }
      apply in_bits_eq. unfold insert_pge. rewrite assert_bind by (apply nz_neq; lia).
      rewrite (bind_ok _ _ _ _ _ (entry_at_eq c4 q e1 (lookup_insert_eq _ _ _))). cbn [vaddr e1].
      rewrite assert_bind by (by rewrite pg_ofs_eq, (proj2 Hva)).
      rewrite (bind_ok _ _ _ _ _ (thread_of_eq c4 cur th Hcur Ec1)). by rewrite Hs.
    + intros t1 va1. rewrite Hdata. destruct (decide _); [done|]. apply (kp_data _ _ Hk).
    + unfold arrived. cbn [snd procs]. by rewrite Hpr.
    + exists e1. split; [apply lookup_insert_eq|done].
Qed.

Lemma page_rounded va : user_addr va → user_addr (pg_round_down va) ∧ pg_round_down va mod 4096 = 0 ∧ pg_no (pg_round_down va) = pg_no va ∧
  va = pg_round_down va + pg_ofs va ∧ 0 ≤ pg_ofs va < 4096.
Proof using.
  unfold user_addr, PHYS_BASE. intros Hva. rewrite pg_round_down_eq, !pg_no_eq, pg_ofs_eq by lia.
  pose proof (Z.div_mod va 4096). pose proof (Z.mod_pos_bound va 4096). pose proof (Z.div_pos va 4096).
  rewrite (Z.mul_comm 4096), Z.mod_mul, Z.div_mul by done. lia.
Qed.

Lemma stack_grow_spec lr c cur th addr : vm_inv init ram L (lr, c) → c.(procs) !! cur = Some th → user_addr addr →
  th.(sup_page_tab) !! pg_round_down addr = None → room 2 c →
  ∃ s', stack_grow init ram cur addr (lr, c) = Ok (tt, s') ∧ vm_inv init ram L s' ∧
    (∀ t1 va1, page_data s'.2 t1 va1 = if decide (t1 = cur ∧ va1 = pg_round_down addr) then Some zero_page else page_data c t1 va1).
Proof using.
  intros Hinv Ec Hu Hs Hr. destruct (page_rounded addr Hu) as (Hu' & Hal & _). destruct (room_malloc 1 c Hr) as [Hm Hr1].
  destruct (vi_heap _ _ _ _ Hinv) as (Hn & _ & Hpg). cbn [snd] in *.
  destruct (new_page_spec lr (after_malloc c) cur th (pg_round_down addr) (heap_next c) (malloc_inv lr c Hinv) Ec Hs (conj Hu' Hal))
    as (s' & E & Hinv' & Hd & _); [|destruct (pges c !! heap_next c) as [e|] eqn:Ee; [specialize (Hpg _ _ Ee); lia|exact Ee]|done|].
  { cbn [after_malloc set_cheap heap_next]. lia. }
  exists s'. split; [|split; [exact Hinv'|exact Hd]]. unfold stack_grow.
  rewrite (bind_ok _ _ _ _ _ (in_bits_eq _ lr _ _ _ (malloc_eq c Hm))). destruct (Z.eqb_spec (heap_next c) 0); [lia|].
  by rewrite (bind_ok _ _ _ _ _ E).
Qed.

(** * Reads and writes of a process *)

(** the processor sets flag [f] of the entry for [va] in the active directory *)
Definition record_access (f va : Z) (s : mmu) : mmu :=
  set_mm (wr (mm s) (pte_addr (mm s) (active s) va) (Z.lor (entry (mm s) (active s) va) f)) s.

Lemma access_spec s va k f : world_inv init s L → user_addr va → k = 5 ∨ k = 6 → f = 2 ^ k →
  has (entry (mm s) (active s) va) PTE_P = true → let s' := record_access f va s in
  world_inv init s' L ∧ (∀ k0, moves init L s s' k0) ∧ s'.(cr3) = s.(cr3) ∧ upool s' = upool s ∧
  (∀ pd va', pd ∈ L → user_addr va' → mapping (mm s') pd va' = mapping (mm s) pd va') ∧
  (∀ pd va' j, pd ∈ L → user_addr va' → 0 ≤ j < 12 → has (entry (mm s') pd va') (2 ^ j) =
     (bool_decide (pd = active s ∧ pg_no va' = pg_no va) && (j =? k)) || has (entry (mm s) pd va') (2 ^ j)).
Proof using.
  intros Hw Hva Hk Hf Hp s'. pose proof (wi_active _ _ _ Hw) as Ha.
  destruct (write_found s (active s) va (wi_wf _ _ _ Hw) (wi_dirs _ _ _ Hw _ Ha) Hva (Z.lor (entry (mm s) (active s) va) f)
    (entry_present s (active s) va Hp)) as (s1 & E & Hup & _).
  { apply lor_range; [apply entry_range|]. rewrite Hf. destruct Hk as [-> | ->]; lia. }
  rewrite st_eq in E by (apply pte_writable; [apply Hw|by apply (wi_dirs _ _ _ Hw)|done|by apply entry_present]).
  injection E as <-. change (set_mm _ s) with s' in Hup.
  assert (Hw' : world_inv init s' L).
  { apply (pd_step_inv init 0 (s, L) (s', L)); [|done]. apply step_access; [done|rewrite Hf; destruct Hk as [-> | ->]; auto|done]. }
  assert (Hmv := λ k0, moves_update init L s s' (active s) va _ k0 Hw Hw' Ha Hup).
  assert (Hent := proj2 (Hmv 0)). assert (Hsame : ∀ pd va', pd = active s ∧ pg_no va' = pg_no va → entry (mm s) pd va' = entry (mm s) (active s) va).
  { intros pd va' [-> Hpg]. apply pg_no_same in Hpg as [E1 E2]. unfold entry, pte_addr. by rewrite E1, E2. }
  assert (Hbits : ∀ pd va' j, pd ∈ L → user_addr va' → 0 ≤ j < 12 → has (entry (mm s') pd va') (2 ^ j) =
     (bool_decide (pd = active s ∧ pg_no va' = pg_no va) && (j =? k)) || has (entry (mm s) pd va') (2 ^ j)).
  { intros pd va' j Hpd Hva' Hj. rewrite Hent by done. case_bool_decide as Hc; [|done]. rewrite (Hsame pd va' Hc), Hf, lor_flag by lia. done. }
  split_and!; [done|apply Hmv|done|done| |done]. intros pd va' Hpd Hva'. unfold mapping. change PTE_P with (2 ^ 0). change PTE_W with (2 ^ 1).
  rewrite !Hbits by (done || lia). rewrite Hent by done. case_bool_decide as Hc; [|done].
  rewrite (Hsame pd va' Hc), tab_lor by (rewrite Hf; destruct Hk as [-> | ->]; lia).
  destruct (Z.eqb_spec 0 k); [lia|]. destruct (Z.eqb_spec 1 k); [lia|]. done.
Qed.

(** the frame of a page in memory has changed, and its dirty bit *)
Lemma refresh_spec lr c p t th q e k s' : vm_inv init ram L (lr, c) → p ∈ lr.(list_LRU) → page_facts init L c p t th q e k →
  moves init L c.(cmmu) s' k → used (upool s') k → bytes (mm s') k (frame (mm s') k) →
  (∀ pd va, pd ∈ L → user_addr va → mapping (mm s') pd va = mapping (mm c.(cmmu)) pd va) →
  (∀ pd va, pd ∈ L → user_addr va → ¬ (pd = th.(pagedir) ∧ pg_no va = pg_no e.(vaddr)) →
     has (entry (mm s') pd va) PTE_D = has (entry (mm c.(cmmu)) pd va) PTE_D) →
  (e.(type) = VM_BIN → has (entry (mm s') th.(pagedir) e.(vaddr)) PTE_D = false →
     Elf.load_file e th.(exec_file) = Some (frame (mm s') k)) →
  vm_inv init ram L (lr, set_mmu s' c) ∧ ∀ t1 va1, page_data (set_mmu s' c) t1 va1 =
    if decide (t1 = t ∧ va1 = e.(vaddr)) then Some (frame (mm s') k) else page_data c t1 va1.
Proof using.
  intros Hinv Hp Hf Hmv Huk Hby Hmap Hdirty Hclean. pose proof Hf as [].
  assert (Htc : touch init L (lr, c) (lr, set_mmu s' c) q p k (-1)).
  { split; cbn [fst snd set_mmu cmmu cbitmap cdev pages pges procs]; try done.
    - intros t1 th1 E1. by exists th1.
    - intros t1 th1 E1. by exists th1.
    - intros t1 th1 va1 E1 Hu1 Hal1 Hs1. destruct (vi_proc _ _ _ _ Hinv t1 th1 E1) as (_ & Hd1 & _).
      split; [by apply Hmap|]. apply Hdirty; [done..|]. by apply (not_same_page init ram L (lr, c) t th (vaddr e) q t1 th1 va1 Hinv pf_entry (proj2 pf_addr)). }
  assert (Hme : ∀ t1 th1 va1, has_entry c t1 th1 va1 q → t1 = t ∧ th1 = th ∧ va1 = vaddr e).
  { intros t1 th1 va1 He1. destruct (vi_entry_inj _ _ _ _ Hinv _ _ _ _ _ _ _ He1 pf_entry) as [-> ->]. split; [done|]. split; [|done].
    destruct He1 as [H1 _], pf_entry as [H2 _]. congruence. }
  assert (Hothers : ∀ p' pg, p' ∈ lr.(list_LRU) → c.(pages) !! p' = Some pg → p' ≠ p → pg.(pge) ≠ q ∧ pg.(kaddr) ≠ k)
    by (intros p' pg; by apply (others_apart init ram L lr c p t th q e k)).
  assert (Hslot : ∀ t th va q' e, has_entry c t th va q' → c.(pges) !! q' = Some e → q' ≠ q → e.(is_loaded) = false →
    e.(type) = VM_ANON → e.(swap_slot) - 1 ≠ -1).
  { intros t1 th1 va1 q1 e1 H1 E1 _. destruct (vi_entry _ _ _ _ Hinv _ _ _ _ H1) as (? & _ & [Hnz _ _ _ _]).
    by apply (no_slot init ram L lr c Hinv t1 th1 va1 q1 e1). }
  assert (Hp0 : p ∈ lr.(list_LRU) → ∃ pg, c.(pages) !! p = Some pg ∧ pg.(pge) = q ∧ pg.(kaddr) = k) by (intros _; by exists (mk_page k q t)).
  split.
  - apply (touch_inv init ram L (lr, c) (lr, set_mmu s' c) q p k (-1) Hinv Htc Hothers Hslot Hp0); cbn [fst snd].
    + intros t1 th1 va1 He1. destruct (Hme t1 th1 va1 He1) as (-> & -> & ->). exists e. split; [exact pf_pge|]. split; [|by rewrite pf_loaded].
      split; [apply pf_nz|reflexivity|exact pf_addr|exact pf_bin|]. rewrite pf_loaded. exists p, k.
      split; [exact Hp|]. split; [exact pf_page|]. cbn [set_mmu cmmu]. split; [|split; [exact Huk|split; [exact Hby|exact Hclean]]].
      rewrite Hmap; [exact pf_map|apply pf_dir|apply pf_addr].
    + intros t1 th1 va1 t2 th2 va2 H1 H2. destruct (Hme _ _ _ H1) as (-> & _ & ->), (Hme _ _ _ H2) as (-> & _ & ->). done.
    + intros _. exists t, th, (vaddr e), e. done.
    + apply Hinv.
    + destruct (vi_swap _ _ _ _ Hinv). by split.
    + exact (vi_heap _ _ _ _ Hinv).
    + done.
  - intros t1 va1. destruct (decide _) as [[-> ->]|Hn].
    + destruct pf_entry as [Et Eq]. unfold page_data. cbn [procs set_mmu pges]. rewrite Et. cbn [mbind option_bind]. rewrite Eq. cbn [mbind option_bind].
      rewrite pf_pge. cbn [mbind option_bind]. f_equal. unfold data. rewrite pf_loaded. cbn [cmmu set_mmu].
      rewrite Hmap, pf_map; [done|apply pf_dir|apply pf_addr].
    + apply (touch_data init ram L (lr, c) (lr, set_mmu s' c) q p k (-1) Hinv Htc Hothers Hslot Hp0). intros th1 He1.
      apply Hn. by destruct (Hme _ _ _ He1) as (-> & _ & ->).
Qed.

(** the page of a mapped address is one of the list *)
Lemma mapped_page lr c t th a k w : vm_inv init ram L (lr, c) → c.(procs) !! t = Some th → user_addr a →
  mapping (mm c.(cmmu)) th.(pagedir) a = Some (k, w) →
  ∃ p q e, p ∈ lr.(list_LRU) ∧ page_facts init L c p t th q e k ∧ e.(vaddr) = pg_round_down a ∧ e.(pwritable) = w.
Proof using.
  intros Hinv Et Ha Hm. destruct (page_rounded a Ha) as (Hu & Hal & Hpg & _).
  rewrite <- (mapping_same_page _ _ _ _ Hpg) in Hm.
  destruct (vi_maps _ _ _ _ Hinv t th (pg_round_down a) Et Hu Hal) as [q Hq]; [cbn [snd]; congruence|].
  destruct (vi_entry _ _ _ _ Hinv t th _ q (conj Et Hq)) as (e & Ee & [_ Hva _ _ Hst]). cbn [fst snd] in *.
  destruct (is_loaded e) eqn:El; [|destruct Hst as [Hn _]; rewrite Hva in Hn; congruence].
  destruct Hst as (p & k' & Hp & Ep & Hm' & _). rewrite Hva in Hm'. rewrite Hm in Hm'. injection Hm' as <- Hw.
  destruct (inv_page init ram L lr c p Hinv Hp) as (t1 & th1 & q1 & e1 & k1 & Hf). exists p, q, e.
  pose proof (pf_page _ _ _ _ _ _ _ _ _ Hf) as Ep'. rewrite Ep in Ep'. injection Ep' as <- <- <-.
  pose proof (pf_pge _ _ _ _ _ _ _ _ _ Hf) as Ee'. rewrite Ee in Ee'. injection Ee' as <-.
  pose proof (proj1 (pf_entry _ _ _ _ _ _ _ _ _ Hf)) as Et'. rewrite Et in Et'. injection Et' as <-. done.
Qed.

(** a write of the running process: the accessed and dirty bits are set *)
Definition user_store (a v : Z) (s : mmu) : mmu :=
  let s2 := record_access PTE_D a (record_access PTE_A a s) in
  set_mm (<[tab (entry (mm s) (active s) a) + pg_ofs a := v]> (mm s2)) s2.

(** a read *)
Definition user_load (a : Z) (s : mmu) : option Z * mmu :=
  (mm s !! (tab (entry (mm s) (active s) a) + pg_ofs a), record_access PTE_A a s).

Lemma mapped_present m pd va k w : mapping m pd va = Some (k, w) → has (entry m pd va) PTE_P = true ∧ tab (entry m pd va) = k.
Proof using. unfold mapping. destruct (has (entry m pd va) PTE_P); [|done]. intros E. by simplify_eq. Qed.

Lemma frame_insert m k i v : 0 ≤ i < 4096 → frame (<[k + i := v]> m) k = <[Z.to_nat i := v]> (frame m k).
Proof using.
  intros Hi. apply list_eq. intros j. unfold frame. rewrite list_lookup_fmap. destruct (decide (j < Z.to_nat 4096)%nat) as [Hj|Hj].
  - rewrite lookup_seqZ_lt by lia. cbn [fmap option_fmap option_map]. destruct (decide (j = Z.to_nat i)) as [->|Hne].
    + rewrite list_lookup_insert_eq by (rewrite length_fmap, length_seqZ; lia). replace (k + (0 + Z.of_nat (Z.to_nat i))) with (k + i) by lia. by rewrite lookup_insert_eq.
    + rewrite list_lookup_insert_ne by done. rewrite lookup_insert_ne by lia. rewrite list_lookup_fmap, lookup_seqZ_lt by lia. done.
  - rewrite lookup_seqZ_ge by lia. rewrite lookup_ge_None_2; [done|]. rewrite length_insert, length_fmap, length_seqZ. lia.
Qed.

Lemma bytes_insert m k l i v : bytes m k l → 0 ≤ i < Z.of_nat (length l) → 0 ≤ v < 256 → bytes (<[k + i := v]> m) k (<[Z.to_nat i := v]> l).
Proof using.
  rewrite !bytes_lookup. intros H Hi Hv j w Hj. destruct (decide (j = Z.to_nat i)) as [->|Hne].
  - rewrite list_lookup_insert_eq in Hj by lia. injection Hj as <-. rewrite Z2Nat.id by lia. by rewrite lookup_insert_eq.
  - rewrite list_lookup_insert_ne in Hj by done. rewrite lookup_insert_ne by lia. by apply H.
Qed.

Lemma load_quiet lr c t th a k w : vm_inv init ram L (lr, c) → c.(procs) !! t = Some th → user_addr a → th.(pagedir) = active c.(cmmu) →
  mapping (mm c.(cmmu)) th.(pagedir) a = Some (k, w) → quiet init L c (set_mmu (record_access PTE_A a c.(cmmu)) c).
Proof using.
  intros Hinv Et Ha Hact Hm. pose proof (vi_world _ _ _ _ Hinv) as Hw. cbn [snd] in Hw.
  destruct (mapped_present _ _ _ _ _ Hm) as [Hp _]. rewrite Hact in Hp.
  destruct (access_spec c.(cmmu) a 5 PTE_A Hw Ha (or_introl eq_refl) eq_refl Hp) as (_ & Hmv & _ & _ & Hmap & Hbits).
  split; cbn [cmmu set_mmu]; [apply Hmv|done|done|]. intros pd va Hpd Hva. split; [by apply Hmap|].
  change PTE_D with (2 ^ 6). rewrite Hbits by (done || lia). cbn [Z.eqb]. by rewrite andb_false_r.
Qed.

(** the memory after the accessed and dirty bits have been set *)
Lemma mark_spec s a k w : world_inv init s L → user_addr a → mapping (mm s) (active s) a = Some (k, w) → used (upool s) k → k ≠ 0 →
  let s2 := record_access PTE_D a (record_access PTE_A a s) in
  (∀ k0, moves init L s s2 k0) ∧ upool s2 = upool s ∧ frame (mm s2) k = frame (mm s) k ∧
  (bytes (mm s) k (frame (mm s) k) → bytes (mm s2) k (frame (mm s) k)) ∧
  (∀ pd va, pd ∈ L → user_addr va → mapping (mm s2) pd va = mapping (mm s) pd va) ∧
  (∀ pd va, pd ∈ L → user_addr va → has (entry (mm s2) pd va) PTE_D =
     bool_decide (pd = active s ∧ pg_no va = pg_no a) || has (entry (mm s) pd va) PTE_D).
Proof using.
  intros Hw Ha Hm Hk Hk0 s2. destruct (mapped_present _ _ _ _ _ Hm) as [Hp _].
  destruct (access_spec s a 5 PTE_A Hw Ha (or_introl eq_refl) eq_refl Hp) as (Hw1 & Hmv1 & Hc1 & Hu1 & Hmap1 & Hb1).
  set (s1 := record_access PTE_A a s) in *. assert (Ea : active s1 = active s) by (unfold active; by rewrite Hc1).
  pose proof (wi_active _ _ _ Hw) as Hal. assert (Hp1 : has (entry (mm s1) (active s1) a) PTE_P = true).
  { rewrite Ea. change PTE_P with (2 ^ 0) in *. by rewrite Hb1, Hp, orb_true_r by (done || lia). }
  destruct (access_spec s1 a 6 PTE_D Hw1 Ha (or_intror eq_refl) eq_refl Hp1) as (Hw2 & Hmv2 & Hc2 & Hu2 & Hmap2 & Hb2). fold s2 in Hw2, Hmv2, Hu2, Hmap2, Hb2.
  assert (Hmv : ∀ k0, moves init L s s2 k0) by (intros k0; by eapply moves_trans; [apply Hmv1|apply Hmv2]).
  assert (Hmem : ∀ x, k ≤ x < k + 4096 → mm s2 !! x = mm s !! x) by (intros x Hx; by apply (mv_mem _ _ _ _ _ (Hmv 0) k)).
  split_and!; [done|congruence| | | |].
  - by apply frame_ext.
  - apply bytes_ext. rewrite length_frame. intros x Hx. apply Hmem. lia.
  - intros pd va Hpd Hva. by rewrite Hmap2, Hmap1.
  - intros pd va Hpd Hva. change PTE_D with (2 ^ 6). rewrite Hb2, Hb1, Ea by (done || lia). cbn [Z.eqb]. rewrite andb_false_r.
    cbn. by rewrite andb_true_r.
Qed.

Lemma store_spec lr c t th a v k : vm_inv init ram L (lr, c) → c.(procs) !! t = Some th → user_addr a → 0 ≤ v < 256 →
  th.(pagedir) = active c.(cmmu) → mapping (mm c.(cmmu)) th.(pagedir) a = Some (k, true) →
  vm_inv init ram L (lr, set_mmu (user_store a v c.(cmmu)) c) ∧ ∃ d, page_data c t (pg_round_down a) = Some d ∧
  ∀ t1 va1, page_data (set_mmu (user_store a v c.(cmmu)) c) t1 va1 =
    if decide (t1 = t ∧ va1 = pg_round_down a) then Some (<[Z.to_nat (pg_ofs a) := v]> d) else page_data c t1 va1.
Proof using.
  intros Hinv Et Ha Hv Hact Hm. pose proof (vi_world _ _ _ _ Hinv) as Hw. cbn [snd] in Hw.
  destruct (mapped_page lr c t th a k true Hinv Et Ha Hm) as (p & q & e & Hp & Hf & Hva & _).
  destruct (page_rounded a Ha) as (Hu & Hal & Hpg & _ & Hof). pose proof Hf as [].
  destruct (quiet_zero init ram L lr c Hinv p _ Hp pf_page) as (_ & _ & Hk0). cbn [kaddr] in Hk0.
  rewrite Hact in Hm. destruct (mark_spec c.(cmmu) a k true Hw Ha Hm pf_used Hk0) as (Hmv2 & Hu2 & Hfr2 & Hby2 & Hmap2 & Hd2).
  set (s0 := c.(cmmu)) in *. set (s2 := record_access PTE_D a (record_access PTE_A a s0)) in *. pose proof (mv_world _ _ _ _ _ (Hmv2 0)) as Hw2.
  destruct (mapped_present _ _ _ _ _ Hm) as [_ Htab]. set (s3 := set_mm (<[k + pg_ofs a := v]> (mm s2)) s2).
  assert (Es3 : user_store a v s0 = s3) by (unfold user_store; by rewrite Htab). rewrite Es3. specialize (Hby2 pf_bytes).
  assert (Hk2 : used (upool s2) k) by (by rewrite Hu2).
  destruct (moves_user init L s2 s3 k Hw2) as [Hmv3 He3].
  { apply mmu_wf_set; [apply Hw2|]. intros x. rewrite lookup_insert_is_Some'. by right. }
  { split; [by eapply used_align|]. pose proof (mw_palloc _ (wi_wf _ _ _ Hw2)) as [Hkp [_ _ ?] ? _]. pose proof (mw_base _ (wi_wf _ _ _ Hw2)).
    destruct Hk2 as (? & _). pose proof (wf_cnt _ (pwf_map _ Hkp)). unfold upool, kpool, pool_end, pool_pages, PGSIZE in *. lia. }
  { intros H. exact (pools_apart s2 k (wi_wf _ _ _ Hw2) H Hk2). }
  { intros x. reflexivity. }
  { intros x _. reflexivity. }
  { intros x Hx. apply lookup_insert_ne. lia. }
  { reflexivity. }
  { reflexivity. }
  { split; reflexivity. }
  assert (Hfr3 : frame (mm s3) k = <[Z.to_nat (pg_ofs a) := v]> (frame (mm s0) k)).
  { change (mm s3) with (<[k + pg_ofs a := v]> (mm s2)). by rewrite frame_insert, Hfr2. }
  destruct (refresh_spec lr c p t th q e k s3 Hinv Hp Hf) as [Hinv' Hdata].
  - by eapply moves_trans.
  - exact Hk2.
  - rewrite Hfr3. apply bytes_insert; [done|rewrite length_frame; lia|done].
  - intros pd va Hpd Hva'. rewrite <- Hmap2 by done. by apply mapping_entry, He3.
  - intros pd va Hpd Hva' Hne. rewrite He3, Hd2 by done. rewrite bool_decide_false; [reflexivity|]. rewrite <- Hact, <- Hpg, <- Hva. exact Hne.
  - intros _. rewrite He3, Hd2 by (apply pf_dir || apply pf_addr). rewrite bool_decide_true; [discriminate|]. split; [exact Hact|]. rewrite Hva. exact Hpg.
  - split; [exact Hinv'|]. exists (frame (mm s0) k). split.
    + rewrite <- Hva. destruct pf_entry as [E1 E2]. unfold page_data. rewrite E1. cbn [mbind option_bind]. rewrite E2. cbn [mbind option_bind].
      rewrite pf_pge. cbn [mbind option_bind]. unfold data. rewrite pf_loaded. fold s0. rewrite pf_map. reflexivity.
    + intros t1 va1. rewrite Hdata, Hva, Hfr3. reflexivity.
Qed.
End fill.
