(* ===== verification/VmMemory.v ===== *)
(** Virtual memory: what the processes see, and what they do not.

    [vm_step] runs the memory of several processes: pages pushed out and brought back,
    stacks that grow, switches between processes, their reads and writes.  It
    refines a memory without frames, swap slots or page tables ([mem_step]). *)

From S2P Require Import Prelude Vaddr Bitmap CString Words Palloc Pagedir AddrSpace Elf Swap Frame Vm VmSpec VmFault.

(** * The memory of the processes *)

(** the pages of each process, by address *)
Definition memory : Type := Z → Z → option (list Z).

Inductive event :=
| Internal
| Load (t a v : Z)
| Store (t a v : Z)
| Grow (t a : Z).

Definition upd (M : memory) (t va : Z) (d : list Z) : memory :=
  λ t1 va1, if decide (t1 = t ∧ va1 = va) then Some d else M t1 va1.

Definition same (M M' : memory) : Prop := ∀ t va, M' t va = M t va.

Inductive mem_step (M M' : memory) : event → Prop :=
| ms_internal : same M M' → mem_step M M' Internal
| ms_load t a v d : M t (pg_round_down a) = Some d → d !! Z.to_nat (pg_ofs a) = Some v → same M M' → mem_step M M' (Load t a v)
| ms_store t a v d : M t (pg_round_down a) = Some d → same (upd M t (pg_round_down a) (<[Z.to_nat (pg_ofs a) := v]> d)) M' →
    mem_step M M' (Store t a v)
| ms_grow t a : M t (pg_round_down a) = None → same (upd M t (pg_round_down a) zero_page) M' → mem_step M M' (Grow t a).

Inductive mem_run : memory → list event → memory → Prop :=
| mr_nil M M' : same M M' → mem_run M [] M'
| mr_cons M M1 M' ev tr : mem_step M M1 ev → mem_run M1 tr M' → mem_run M (ev :: tr) M'.

Section machine.
Context (init ram : Z) (L : gset Z).

Definition valid_access (c : core) (t : Z) (th : proc) (a : Z) : Prop :=
  c.(procs) !! t = Some th ∧ user_addr a ∧ th.(pagedir) = active c.(cmmu).

(** One step: a page is pushed out; a fault on a page that is not in memory; a fault
    below the stack; a switch to another process; a read or a write of the running
    one.  [room] is that the kernel has the memory for it. *)
Inductive vm_step : lru * core → event → lru * core → Prop :=
| vs_evict lr c s' : lr.(list_LRU) ≠ [] → free_slots c → replacement_mem init (lr, c) = Ok (tt, s') → vm_step (lr, c) Internal s'
| vs_fault lr c s' t th a ec esp q e r : c.(procs) !! t = Some th → th.(sup_page_tab) !! pg_round_down a = Some q →
    c.(pges) !! q = Some e → e.(is_loaded) = false → Z.land ec 1 = 0 → room 1 c →
    page_fault init ram t a ec esp (lr, c) = Ok (r, s') → vm_step (lr, c) Internal s'
| vs_grow lr c s' t th a ec esp r : c.(procs) !! t = Some th → user_addr a → th.(sup_page_tab) !! pg_round_down a = None →
    is_valid_stack a esp = true → room 2 c →
    page_fault init ram t a ec esp (lr, c) = Ok (r, s') → vm_step (lr, c) (Grow t a) s'
| vs_switch lr c m t th : c.(procs) !! t = Some th → pagedir_activate init th.(pagedir) c.(cmmu) = Ok (tt, m) →
    vm_step (lr, c) Internal (lr, set_mmu m c)
| vs_load lr c t th a v k w : valid_access c t th a → mapping (mm c.(cmmu)) th.(pagedir) a = Some (k, w) →
    (user_load a c.(cmmu)).1 = Some v → vm_step (lr, c) (Load t a v) (lr, set_mmu (user_load a c.(cmmu)).2 c)
| vs_store lr c t th a v k : valid_access c t th a → mapping (mm c.(cmmu)) th.(pagedir) a = Some (k, true) → 0 ≤ v < 256 →
    vm_step (lr, c) (Store t a v) (lr, set_mmu (user_store a v c.(cmmu)) c).

Inductive vm_run : lru * core → list event → lru * core → Prop :=
| vr_nil s : vm_run s [] s
| vr_cons s s1 s' ev tr : vm_step s ev s1 → vm_run s1 tr s' → vm_run s (ev :: tr) s'.

Lemma get_pge_eq c t th a : t ≠ 0 → c.(procs) !! t = Some th → get_pge t a c = Ok (default 0 (th.(sup_page_tab) !! pg_round_down a), c).
Proof using. intros Ht Et. unfold get_pge. by rewrite (bind_ok _ _ _ _ _ (thread_of_eq c t th Ht Et)). Qed.

Lemma page_fault_load lr c t th a ec esp q e : vm_inv init ram L (lr, c) → c.(procs) !! t = Some th →
  th.(sup_page_tab) !! pg_round_down a = Some q → c.(pges) !! q = Some e → e.(is_loaded) = false → Z.land ec 1 = 0 → room 1 c →
  ∃ s', page_fault init ram t a ec esp (lr, c) = Ok (Resume, s') ∧ vm_inv init ram L s' ∧
    (∀ t va, page_data s'.2 t va = page_data c t va) ∧ s'.2.(procs) = c.(procs) ∧
    s'.2.(pges) !! q = Some (loaded true e).
Proof using.
  intros Hinv Et Eq Ee Hl Hec Hr. destruct (vi_proc _ _ _ _ Hinv t th Et) as (Ht & _).
  destruct (handle_mm_fault_spec init ram L lr c t th _ q e Hinv (conj Et Eq) Ee Hl Hr) as (s' & E & H).
  exists s'. split; [|exact H]. unfold page_fault. cbv zeta. rewrite Hec.
  rewrite (bind_ok _ _ _ _ _ (in_bits_eq _ lr _ _ _ (get_pge_eq c t th a Ht Et))). rewrite Eq. change (default 0 (Some q)) with q.
  destruct (vi_heap _ _ _ _ Hinv) as (_ & _ & Hq). specialize (Hq q e Ee). destruct (Z.eqb_spec q 0); [lia|]. change (0 =? 0) with true. cbv iota.
  by rewrite (bind_ok _ _ _ _ _ E).
Qed.

Lemma page_fault_grow lr c t th a ec esp : vm_inv init ram L (lr, c) → c.(procs) !! t = Some th → user_addr a →
  th.(sup_page_tab) !! pg_round_down a = None → is_valid_stack a esp = true → room 2 c →
  ∃ s', page_fault init ram t a ec esp (lr, c) = Ok (Resume, s') ∧ vm_inv init ram L s' ∧
    same (upd (page_data c) t (pg_round_down a) zero_page) (page_data s'.2).
Proof using.
  intros Hinv Et Ha Eq Hst Hr. destruct (vi_proc _ _ _ _ Hinv t th Et) as (Ht & _).
  destruct (stack_grow_spec init ram L lr c t th a Hinv Et Ha Eq Hr) as (s' & E & Hinv' & Hd).
  exists s'. split; [|split; [exact Hinv'|exact Hd]]. unfold page_fault. cbv zeta.
  rewrite (bind_ok _ _ _ _ _ (in_bits_eq _ lr _ _ _ (get_pge_eq c t th a Ht Et))). rewrite Eq. change (default 0 None =? 0) with true. cbv iota. rewrite Hst.
  by rewrite (bind_ok _ _ _ _ _ E).
Qed.

Lemma activate_quiet lr c m t th : vm_inv init ram L (lr, c) → c.(procs) !! t = Some th →
  pagedir_activate init th.(pagedir) c.(cmmu) = Ok (tt, m) → quiet init L c (set_mmu m c).
Proof using.
  intros Hinv Et E. destruct (vi_proc _ _ _ _ Hinv t th Et) as (_ & Hpd & _). pose proof (vi_world _ _ _ _ Hinv) as Hw. cbn [snd] in *.
  pose proof (inv_activate init _ m L _ Hw Hpd E) as Hw'. unfold pagedir_activate in E. destruct (vtop _) as [x|]; [|done]. cbn in E. injection E as <-.
  split; cbn [cmmu set_mmu]; [by split|done|done|done].
Qed.

(** each step of the machine is one of the memory *)
Lemma vm_step_sim s ev s' : vm_step s ev s' → vm_inv init ram L s → vm_inv init ram L s' ∧ mem_step (page_data s.2) (page_data s'.2) ev.
Proof using.
  destruct 1 as [lr c s' Hne Hfr E|lr c s' t th a ec esp q e r Et Eq Ee Hl Hec Hr E|lr c s' t th a ec esp r Et Ha Eq Hst Hr E
    |lr c m t th Et E|lr c t th a v k w [Et [Ha Hact]] Hm Hv|lr c t th a v k [Et [Ha Hact]] Hm Hv]; intros Hinv; cbn [snd].
  - destruct (replacement_mem_spec init ram L lr c Hinv Hne Hfr) as (s1 & k & E1 & Hinv1 & Hk & _). rewrite E in E1. injection E1 as <-.
    split; [exact Hinv1|]. constructor. intros t va. apply Hk.
  - destruct (page_fault_load lr c t th a ec esp q e Hinv Et Eq Ee Hl Hec Hr) as (s1 & E1 & Hinv1 & Hd & _). rewrite E in E1. injection E1 as _ <-.
    split; [exact Hinv1|]. constructor. exact Hd.
  - destruct (page_fault_grow lr c t th a ec esp Hinv Et Ha Eq Hst Hr) as (s1 & E1 & Hinv1 & Hd). rewrite E in E1. injection E1 as _ <-.
    split; [exact Hinv1|]. apply ms_grow; [|exact Hd]. unfold page_data. rewrite Et. cbn [mbind option_bind]. by rewrite Eq.
  - pose proof (activate_quiet lr c m t th Hinv Et E) as Hq. split; [exact (quiet_inv init ram L lr lr c _ Hinv Hq eq_refl (proj2 (vi_list _ _ _ _ Hinv)))|].
    constructor. intros t1 va1. exact (quiet_data init ram L lr lr c _ Hinv Hq eq_refl t1 va1).
  - pose proof (load_quiet init ram L lr c t th a k w Hinv Et Ha Hact Hm) as Hq. cbn [user_load fst snd] in *.
    split; [exact (quiet_inv init ram L lr lr c _ Hinv Hq eq_refl (proj2 (vi_list _ _ _ _ Hinv)))|].
    destruct (mapped_page init ram L lr c t th a k w Hinv Et Ha Hm) as (p & q & e & _ & Hf & Hva & _).
    apply (ms_load _ _ t a v (frame (mm (cmmu c)) k)).
    + rewrite <- Hva. destruct Hf. destruct pf_entry as [_ E2]. unfold page_data. rewrite Et. cbn [mbind option_bind]. rewrite E2. cbn [mbind option_bind].
      rewrite pf_pge. cbn [mbind option_bind]. unfold data. rewrite pf_loaded, pf_map. reflexivity.
    + destruct (mapped_present _ _ _ _ _ Hm) as [_ Htab]. rewrite <- Hact, Htab in Hv. destruct (page_rounded a Ha) as (_ & _ & _ & _ & Hof).
      unfold frame. rewrite list_lookup_fmap, lookup_seqZ_lt by lia. cbn [fmap option_fmap option_map].
      replace (k + (0 + Z.of_nat (Z.to_nat (pg_ofs a)))) with (k + pg_ofs a) by lia. by rewrite Hv.
    + intros t1 va1. exact (quiet_data init ram L lr lr c _ Hinv Hq eq_refl t1 va1).
  - destruct (store_spec init ram L lr c t th a v k Hinv Et Ha Hv Hact Hm) as [Hinv' (d & Hd & Hdata)]. split; [exact Hinv'|].
    by apply (ms_store _ _ t a v d).
Qed.

Lemma vm_run_sim s tr s' : vm_run s tr s' → vm_inv init ram L s → vm_inv init ram L s' ∧ mem_run (page_data s.2) tr (page_data s'.2).
Proof using.
  induction 1 as [s|s s1 s' ev tr Hs Hr IH]; intros Hinv; [split; [done|by constructor]|].
  destruct (vm_step_sim s ev s1 Hs Hinv) as [Hinv1 Hm]. destruct (IH Hinv1) as [Hinv' Hm']. split; [done|]. by econstructor.
Qed.
End machine.

(** * A machine that has just started *)

(** no page is in memory yet: the tables of the processes have only pages of their
    executables *)
Definition lazy_entry (c : core) (th : proc) (va q : Z) : Prop :=
  ∃ e d, c.(pges) !! q = Some e ∧ e.(vaddr) = va ∧ user_addr va ∧ va mod 4096 = 0 ∧ e.(type) = VM_BIN ∧ e.(is_loaded) = false ∧
    Elf.load_file e th.(exec_file) = Some d ∧ page_bytes d.

Lemma start_inv init ram (L : gset Z) m b dev (P : gmap Z proc) E n al (c := mk_core m b dev ∅ E P n al) :
  world_inv init m L → pool_end (upool m) ≤ PHYS_BASE + 4096 * ram → (∀ x, ¬ used (upool m) x) → swap_wf (mk_swap b dev (mm m)) →
  0 < n → (∀ q e, E !! q = Some e → 0 < q < n) →
  (∀ t th, P !! t = Some th → t ≠ 0 ∧ th.(pagedir) ∈ L ∧ th.(pagedir) ≠ init ∧ ∀ va, user_addr va → mapping (mm m) th.(pagedir) va = None) →
  (∀ t t' th th', P !! t = Some th → P !! t' = Some th' → th.(pagedir) = th'.(pagedir) → t = t') →
  (∀ t th va q, has_entry c t th va q → lazy_entry c th va q) →
  (∀ t th va t' th' va' q, has_entry c t th va q → has_entry c t' th' va' q → t = t' ∧ va = va') →
  vm_inv init ram L (list_LRU_init, c).
Proof.
  intros Hw Hram Hnu Hsw Hn HE HP Hinj Hent Heinj.
  split; cbn [fst snd list_LRU_init list_LRU cmmu procs pages pges heap_next c].
  - done.
  - done.
  - done.
  - split; [apply NoDup_nil_2|]. exists []. left. auto.
  - split; [done|]. split; [|done]. intros ? ? H. by rewrite lookup_empty in H.
  - intros t th Et. destruct (HP t th Et) as (? & ? & ? & _). done.
  - exact Hinj.
  - intros t th va q H. destruct (Hent t th va q H) as (e & d & Ee & Hva & Hu & Hal & Ht & Hl & Ed & Hd). exists e. split; [exact Ee|].
    split; [|done|done|intros _; by exists d|].
    + specialize (HE q e Ee). lia.
    + rewrite Hl. split; [|congruence]. destruct (HP t th (proj1 H)) as (_ & _ & _ & Hm). apply Hm. by rewrite Hva.
  - exact Heinj.
  - intros p Hp. by apply not_elem_of_nil in Hp.
  - intros p p' pg pg' Hp. by apply not_elem_of_nil in Hp.
  - intros t th va q e t' th' va' q' e' H _ Ee _ _ _ Ht. destruct (Hent t th va q H) as (e0 & d & Ee0 & _ & _ & _ & Ht0 & _).
    cbn [pges c] in Ee0. congruence.
  - intros t th va Et Hu _ Hm. destruct (HP t th Et) as (_ & _ & _ & Hno). by rewrite Hno in Hm.
  - intros x Hx. by destruct (Hnu x).
Qed.

(** * The theorems *)

Section claims.
Context (init ram : Z) (L : gset Z).

(** C13. [get_victim] gives every page a second chance: from the clock on, it takes the
    first page whose accessed bit is clear, clearing the bits of the pages it passes
    and no other bit; when all are set it comes round to the first one.  It always
    returns. *)
Theorem clock_second_chance lr c : vm_inv init ram L (lr, c) → lr.(list_LRU) ≠ [] →
  ∃ q v lr' c', order lr q ∧ q ≡ₚ lr.(list_LRU) ∧ get_victim (H := page_bits init) (lr, c) = Ok (v, (lr', c')) ∧
    vm_inv init ram L (lr', c') ∧ same (page_data c) (page_data c') ∧
    ∃ passed rest, q = passed ++ rest ∧ (∀ p, p ∈ passed → acc_bit c p = true) ∧
      (match rest with [] => head q = Some v | x :: _ => x = v ∧ acc_bit c v = false end) ∧
      ∀ p, p ∈ q → acc_bit c' p = if bool_decide (p ∈ passed) then false else acc_bit c p.
Proof.
  intros Hinv Hne. destruct (victim_spec init ram L lr c Hinv Hne) as (q & v & lr' & c' & Ho & E & _ & Hl & Hinv' & Hq & Hsc).
  exists q, v, lr', c'. split; [exact Ho|]. split; [by apply order_perm|]. split; [exact E|]. split; [exact Hinv'|]. split; [|exact Hsc].
  intros t va. exact (quiet_data init ram L lr lr' c c' Hinv Hq Hl t va).
Qed.

(** C5. when the kernel has a slot, a frame and memory for its bookkeeping, a fault on a
    page of the process that is not in memory is handled: the process resumes, the page is
    in memory, and no byte of any process has changed, whichever page had to make
    room. *)
Theorem page_fault_brings_back lr c t th a ec esp q e : vm_inv init ram L (lr, c) → c.(procs) !! t = Some th → user_addr a →
  th.(sup_page_tab) !! pg_round_down a = Some q → c.(pges) !! q = Some e → e.(is_loaded) = false → Z.land ec 1 = 0 → room 1 c →
  ∃ s', page_fault init ram t a ec esp (lr, c) = Ok (Resume, s') ∧ vm_inv init ram L s' ∧
    (∀ t va, page_data s'.2 t va = page_data c t va) ∧ s'.2.(pges) !! q = Some (loaded true e) ∧
    ∃ k, mapping (mm s'.2.(cmmu)) th.(pagedir) a = Some (k, e.(pwritable)).
Proof.
  intros Hinv Et Ha Eq Ee Hl Hec Hr. destruct (page_fault_load init ram L lr c t th a ec esp q e Hinv Et Eq Ee Hl Hec Hr) as (s' & E & Hinv' & Hd & Hp & Eq').
  exists s'. split; [exact E|]. split; [exact Hinv'|]. split; [exact Hd|]. split; [exact Eq'|].
  destruct (vi_entry _ _ _ _ Hinv' t th (pg_round_down a) q) as (e' & Ee' & [_ Hva [Hu _] _ Hst]); [split; [by rewrite Hp|done]|].
  rewrite Eq' in Ee'. injection Ee' as <-. destruct Hst as (p & k & _ & _ & Hm & _). exists k. cbn [vaddr loaded pwritable] in *.
  rewrite <- Hm, Hva. apply mapping_same_page. symmetry. by apply page_rounded.
Qed.

(** C1. every run of the machine is a run of a memory that has no frames, slots or page
    tables: pushing pages out, bringing them back and switching processes changes
    no byte of any process, a read gives what was written last, a write changes one
    byte of one process, and a new page of a stack is zero.  The steps of the machine
    have a free slot and memory to work with, an eviction is one step, and no process
    exits (VmRaces.v shows what happens otherwise). *)
Theorem vm_refines_memory s tr s' : vm_inv init ram L s → vm_run init ram s tr s' →
  vm_inv init ram L s' ∧ mem_run (page_data s.2) tr (page_data s'.2).
Proof. intros Hinv Hr. exact (vm_run_sim init ram L s tr s' Hr Hinv). Qed.
End claims.

(** * An example *)

(** the machine of the page directories with one process, whose executable has one
    page, and a swap device *)
Definition ex_created : Z * mmu := value_of (0, ex_mmu) (pagedir_create ex_init ex_mmu).
Definition ex_pd : Z := ex_created.1.
Definition ex_dirs : gset Z := {[ex_pd]} ∪ {[ex_init]}.
Definition ex_entry : page_entry := mk_pge VM_BIN 0x8048000 true false 0 4 4092 0.
Definition ex_proc : proc := mk_proc ex_pd {[0x8048000 := 1]} [127; 69; 76; 70].
Definition ex_core : core :=
  mk_core ex_created.2 ex_swap.(swap_bitmap) ex_swap.(swap_dev) ∅ {[1 := ex_entry]} {[7 := ex_proc]} 2 [].

Lemma ex_created_eq : pagedir_create ex_init ex_mmu = Ok (ex_pd, ex_created.2) ∧ ex_pd ≠ 0.
Proof.
  unfold ex_pd, ex_created. destruct (returns_addr (pagedir_create ex_init ex_mmu)) as (pd & s & E & Hpd); [vm_compute; reflexivity|].
  rewrite E. split; [reflexivity|exact Hpd].
Qed.

Lemma ex_pools : (upool ex_created.2).(base) < pool_end (upool ex_created.2) ≤ PHYS_BASE + 4096 * 264 ∧
  (∀ x, ¬ used (upool ex_created.2) x) ∧ ¬ no_group (kpool ex_created.2) 1.
Proof.
  assert (H : forallb (λ j, negb (bit (used_map (upool ex_created.2)) j)) (seqZ 0 3) = true ∧
    (upool ex_created.2).(base) = 3222294528 ∧ pool_end (upool ex_created.2) = 3222306816 ∧
    bit (used_map (kpool ex_created.2)) 2 = false ∧ (kpool ex_created.2).(base) = 3222278144 ∧ pool_end (kpool ex_created.2) = 3222290432)
    by (vm_compute; repeat split).
  destruct H as (Hbits & Hb & He & Hk & Hkb & Hke). split; [rewrite Hb, He; unfold PHYS_BASE; lia|]. split.
  - intros x (Hr & _ & Hx). rewrite Hb, He in Hr. rewrite Hb in Hx. rewrite forallb_forall in Hbits.
    specialize (Hbits ((x - 3222294528) / PGSIZE)). rewrite Hx in Hbits. discriminate Hbits. apply list_elem_of_In, elem_of_seqZ.
    unfold PGSIZE. split; [apply Z.div_pos; lia|]. apply Z.div_lt_upper_bound; lia.
  - intros Hn. destruct (Hn (3222278144 + 8192)) as (x & Hx & Hu); [reflexivity|lia|unfold PGSIZE; lia|].
    apply page_group in Hx as ->; [|reflexivity]. destruct Hu as (_ & _ & Hu). rewrite Hkb in Hu. 
    change ((3222278144 + 8192 - 3222278144) / PGSIZE) with 2 in Hu. congruence.
Qed.

#[local] Opaque ex_created ex_pd ex_init ex_mmu ex_swap.

Lemma ok_inj {A B} (a a' : A) (b b' : B) : Ok (a, b) = Ok (a', b') → a = a' ∧ b = b'.
Proof. by intros [= -> ->]. Qed.

Lemma ex_created_world : world_inv ex_init ex_created.2 ex_dirs ∧ ex_pd ≠ ex_init ∧
  ∀ i, 0 ≤ i < 768 → dir_entry (mm ex_created.2) ex_pd i = 0.
Proof.
  destruct ex_created_eq as [E Hpd]. pose proof ex_world as Hw.
  destruct (pagedir_create_spec ex_init ex_mmu (wi_wf _ _ _ Hw) (po_pd _ _ (wi_dirs _ _ _ Hw ex_init (wi_init _ _ _ Hw))) (wi_init_ok _ _ _ Hw))
    as [[_ E']|(pd & s & E' & _ & Hn & _ & Hz & _)]; rewrite E in E'.
  { apply ok_inj in E' as [E' _]. destruct (Hpd E'). }
  apply ok_inj in E' as [<- <-]. split; [exact (inv_create ex_init ex_mmu ex_created.2 {[ex_init]} ex_pd Hw E Hpd)|]. split; [|exact Hz].
  intros H. apply Hn. rewrite H. exact (po_pd _ _ (wi_dirs _ _ _ Hw ex_init (wi_init _ _ _ Hw))).
Qed.

Lemma swap_wf_mem s m : swap_wf s → swap_wf (mk_swap s.(swap_bitmap) s.(swap_dev) m).
Proof. intros []. by split. Qed.

Lemma ex_entries t th va q : has_entry ex_core t th va q → t = 7 ∧ th = ex_proc ∧ va = 0x8048000 ∧ q = 1.
Proof.
  intros [Et Eq]. cbn [procs ex_core] in Et. apply lookup_singleton_Some in Et as [<- <-].
  cbn [sup_page_tab ex_proc] in Eq. by apply lookup_singleton_Some in Eq as [<- <-].
Qed.

Lemma ex_lazy t th va q : has_entry ex_core t th va q → lazy_entry ex_core th va q.
Proof.
  intros H. destruct (ex_entries _ _ _ _ H) as (-> & -> & -> & ->).
  exists ex_entry, ([127; 69; 76; 70] ++ replicate (Z.to_nat 4092) 0). split; [reflexivity|]. split; [reflexivity|].
  split; [unfold user_addr, PHYS_BASE; lia|]. do 3 (split; [reflexivity|]). split; [reflexivity|]. split.
  - rewrite length_app, length_replicate. cbn [length]. lia.
  - intros v [Hv|[-> _]%elem_of_replicate]%elem_of_app; [|lia]. repeat (apply elem_of_cons in Hv as [->|Hv]; [lia|]). by apply not_elem_of_nil in Hv.
Qed.

Lemma ex_vm_inv : vm_inv ex_init 264 ex_dirs (list_LRU_init, ex_core).
Proof.
  destruct ex_pools as (Hp & Hnu & _). destruct ex_created_world as (Hw & Hni & Hz).
  apply start_inv.
  - exact Hw.
  - exact (proj2 Hp).
  - exact Hnu.
  - exact (swap_wf_mem ex_swap _ ex_swap_wf).
  - reflexivity.
  - intros q e [<- _]%lookup_singleton_Some. split; reflexivity.
  - intros t th [<- <-]%lookup_singleton_Some. split; [discriminate|]. split; [apply in_dirs_new|]. split; [exact Hni|].
    intros va Hva. unfold mapping, entry. cbn [pagedir ex_proc]. rewrite (Hz _ (pd_no_range va Hva)). reflexivity.
  - intros t t' th th' [<- _]%lookup_singleton_Some [<- _]%lookup_singleton_Some _. reflexivity.
  - exact ex_lazy.
  - intros t th va t' th' va' q H H'. destruct (ex_entries _ _ _ _ H) as (-> & _ & -> & _), (ex_entries _ _ _ _ H') as (-> & _ & -> & _). split; reflexivity.
Qed.

Lemma ex_room n : room n ex_core.
Proof.
  destruct ex_pools as (Hp & _ & Hk). split.
  - intros i _. cbn [heap_allocs ex_core]. rewrite lookup_nil. discriminate.
  - exists 0. split; vm_compute; [split; congruence|reflexivity].
  - exact (proj1 Hp).
  - exact Hk.
Qed.

(** the fault on the page of the executable *)
Lemma ex_fault : ∃ s k, page_fault ex_init 264 7 0x8048004 4 0 (list_LRU_init, ex_core) = Ok (Resume, s) ∧ vm_inv ex_init 264 ex_dirs s ∧
  s.2.(procs) !! 7 = Some ex_proc ∧ s.1.(list_LRU) ≠ [] ∧ mapping (mm s.2.(cmmu)) ex_pd 0x8048000 = Some (k, true).
Proof.
  destruct (page_fault_load ex_init 264 ex_dirs list_LRU_init ex_core 7 ex_proc 0x8048004 4 0 1 ex_entry ex_vm_inv eq_refl eq_refl eq_refl eq_refl eq_refl (ex_room 1))
    as (s & E & Hinv & _ & Hp & Ee).
  assert (Et : s.2.(procs) !! 7 = Some ex_proc) by (rewrite Hp; reflexivity).
  destruct (vi_entry _ _ _ _ Hinv 7 ex_proc 0x8048000 1) as (e & Ee' & [_ _ _ _ Hst]); [split; [exact Et|reflexivity]|].
  rewrite Ee in Ee'. injection Ee' as <-. destruct Hst as (p & k & Hpl & _ & Hm & _). exists s, k.
  split; [exact E|]. split; [exact Hinv|]. split; [exact Et|]. split; [|exact Hm]. intros El. rewrite El in Hpl. by apply not_elem_of_nil in Hpl.
Qed.

Lemma clock_second_chance_witness : ∃ s q v s', vm_inv ex_init 264 ex_dirs s ∧ order s.1 q ∧ s.1.(list_LRU) ≠ [] ∧
  get_victim (H := page_bits ex_init) s = Ok (v, s').
Proof.
  destruct ex_fault as ([lr c] & k & _ & Hinv & _ & Hne & _).
  destruct (clock_second_chance ex_init 264 ex_dirs lr c Hinv Hne) as (q & v & lr' & c' & Ho & _ & E & _).
  exists (lr, c), q, v, (lr', c'). exact (conj Hinv (conj Ho (conj Hne E))).
Defined.

Lemma page_fault_brings_back_witness : ∃ s', page_fault ex_init 264 7 0x8048004 4 0 (list_LRU_init, ex_core) = Ok (Resume, s') ∧
  s'.2.(pges) !! 1 = Some (loaded true ex_entry).
Proof.
  assert (Ha : user_addr 0x8048004) by (unfold user_addr, PHYS_BASE; lia).
  destruct (page_fault_brings_back ex_init 264 ex_dirs list_LRU_init ex_core 7 ex_proc 0x8048004 4 0 1 ex_entry ex_vm_inv eq_refl Ha eq_refl eq_refl eq_refl eq_refl (ex_room 1))
    as (s & E & _ & _ & Ee & _).
  exists s. exact (conj E Ee).
Defined.

Lemma activate_ok init (L : gset Z) s pd : world_inv init s L → pd ∈ L →
  pagedir_activate init pd s = Ok (tt, mk_mmu s.(ps) (pd - PHYS_BASE) ∅).
Proof.
  intros Hw Hpd. pose proof (used_kpage s pd (wi_wf _ _ _ Hw) (po_pd _ _ (wi_dirs _ _ _ Hw pd Hpd))) as Hk. unfold pagedir_activate.
  destruct (Z.eqb_spec pd 0) as [->|]; [destruct Hk as [_ ?]; unfold PHYS_BASE in *; lia|]. by rewrite (bind_ok _ _ _ _ _ (lift_out_eq _ _ s (vtop_page pd Hk))).
Qed.

(** the page is brought in, the process runs and writes to it *)
Lemma ex_vm_run : ∃ s', vm_run ex_init 264 (list_LRU_init, ex_core) [Internal; Internal; Store 7 0x8048004 42] s'.
Proof.
  destruct ex_fault as ([lr c] & k & E & Hinv & Et & _ & Hm). cbn [fst snd] in *. pose proof (vi_world _ _ _ _ Hinv) as Hw. cbn [snd] in Hw.
  set (m := mk_mmu c.(cmmu).(ps) (ex_pd - PHYS_BASE) ∅).
  assert (Ea : pagedir_activate ex_init ex_pd c.(cmmu) = Ok (tt, m)) by exact (activate_ok ex_init ex_dirs c.(cmmu) ex_pd Hw (in_dirs_new _ _)).
  eexists. eapply vr_cons; [exact (vs_fault _ _ list_LRU_init ex_core (lr, c) 7 ex_proc 0x8048004 4 0 1 ex_entry Resume eq_refl eq_refl eq_refl eq_refl eq_refl (ex_room 1) E)|].
  eapply vr_cons; [exact (vs_switch _ _ lr c m 7 ex_proc Et Ea)|]. eapply vr_cons; [|apply vr_nil].
  apply (vs_store _ _ lr (set_mmu m c) 7 ex_proc 0x8048004 42 k).
  - split; [exact Et|]. split; [unfold user_addr, PHYS_BASE; lia|]. unfold active, m. cbn [cmmu set_mmu cr3 pagedir ex_proc]. lia.
  - rewrite <- Hm. apply mapping_same_page. reflexivity.
  - lia.
Qed.

Lemma vm_refines_memory_witness : ∃ s', vm_run ex_init 264 (list_LRU_init, ex_core) [Internal; Internal; Store 7 0x8048004 42] s' ∧
  mem_run (page_data ex_core) [Internal; Internal; Store 7 0x8048004 42] (page_data s'.2).
Proof.
  destruct ex_vm_run as (s' & Hr). exists s'. split; [exact Hr|].
  exact (proj2 (vm_refines_memory ex_init 264 ex_dirs (list_LRU_init, ex_core) _ s' ex_vm_inv Hr)).
Defined.
