(* ===== verification/VmRaces.v ===== *)
(** Virtual memory: two ways in which a page loses its bytes.

    The machine has eighteen pages above the first megabyte and two processes, with
    one page of their executables each.  Everything here is computed. *)

From S2P Require Import Prelude Vaddr Bitmap CString Words Palloc Pagedir AddrSpace Elf Swap Frame Vm VmFault.

Definition two_mem : mem := write ∅ (PHYS_BASE + 2 ^ 20) (replicate (Z.to_nat (PGSIZE * 18)) 0xaa).

(** the directory of the kernel and those of two processes *)
Definition two_boot : outcome (Z * Z * Z * mmu) :=
  s ← palloc_init 274 (2 ^ 32 - 1) (λ _, 0) (λ _, 7) two_mem;
  '(init, p) ← palloc_get_page PAL_ZERO s;
  '(pd1, m) ← pagedir_create init (mk_mmu p (init - PHYS_BASE) ∅);
  '(pd2, m) ← pagedir_create init m;
  Ok (init, pd1, pd2, m).

Definition two_swap : bitmap * list (list Z) := (mk_bitmap 2 [0], replicate 16 (replicate 512 0)).

Definition two_start (init pd1 pd2 : Z) (m : mmu) : lru * core :=
  (list_LRU_init, mk_core m two_swap.1 two_swap.2 ∅
    {[1 := mk_pge VM_BIN 0x8048000 true false 0 4 4092 0; 2 := mk_pge VM_BIN 0x8048000 true false 0 4 4092 0]}
    {[7 := mk_proc pd1 {[0x8048000 := 1]} [1; 2; 3; 4]; 8 := mk_proc pd2 {[0x8048000 := 2]} [5; 6; 7; 8]]} 3 []).

(** the processor runs process [t] and writes [v] to, or reads, address [a] *)
Definition run_store (init t a v : Z) : V unit :=
  th ← in_bits (thread_of t); in_bits (in_mmu (pagedir_activate init th.(pagedir)));; in_bits (in_mmu (modify (user_store a v))).
Definition run_load (init t a : Z) : V (option Z) :=
  th ← in_bits (thread_of t); in_bits (in_mmu (pagedir_activate init th.(pagedir)));;
  in_bits (in_mmu (λ m, Ok (user_load a m))).

Definition fault_in (init t a : Z) : V unit := r ← page_fault init 274 t a 4 0; match r with Resume => mret tt | _ => fail AssertFail end.

(** * A slot that is freed twice *)

(** process 7 writes to its page, which is pushed out and, after process 8 has written to
    its own, brought back; then the page of process 8 is pushed out *)
Definition before_exit (init : Z) : V unit :=
  fault_in init 7 0x8048000;; run_store init 7 0x8048000 77;; replacement_mem init;;
  fault_in init 8 0x8048000;; run_store init 8 0x8048000 88;;
  fault_in init 7 0x8048000;; run_load init 7 0x8048000;; replacement_mem init.

(** the stack of process 8 gets a page, which is pushed out in its turn; then process 8
    reads what it wrote before *)
Definition after_exit (init : Z) : V (option Z) :=
  page_fault init 274 8 0xbffffffc 6 0xbffffffc;; run_store init 8 0xbffff000 99;;
  replacement_mem init;; fault_in init 8 0x8048000;; run_load init 8 0x8048000.

Lemma obind_inv {A B} (o : outcome A) (f : A → outcome B) b : o ≫= f = Ok b → ∃ a, o = Ok a ∧ f a = Ok b.
Proof. destruct o; [eauto|done]. Qed.

Definition exit_scenario : outcome (option Z * option Z) :=
  '(init, pd1, pd2, m) ← two_boot;
  '(_, s) ← before_exit init (two_start init pd1 pd2 m);
  '(a, _) ← (spt_destroy_func init 7 1;; after_exit init) s;
  '(b, _) ← after_exit init s;
  Ok (a, b).

Lemma exit_scenario_eq : exit_scenario = Ok (Some 99, Some 88).
Proof. vm_compute. reflexivity. Qed.

#[local] Opaque two_boot before_exit after_exit two_start spt_destroy_func.


(** * A write during an eviction *)

(** the page at [p] is brought in for process 7 and written *)
Definition before_write (init : Z) : V unit := fault_in init 7 0x8048000;; run_store init 7 0x8048000 77.
Definition read_back (init : Z) : V (option Z) := fault_in init 7 0x8048000;; run_load init 7 0x8048000.

Definition write_scenario : outcome (option Z * option Z) :=
  '(init, pd1, pd2, m) ← two_boot;
  '(_, s) ← before_write init (two_start init pd1 pd2 m);
  '(a, _) ← (pg ← evict_write 3; run_store init 7 0x8048000 78;; evict_unmap init 3 pg;; read_back init) s;
  '(b, _) ← (run_store init 7 0x8048000 78;; evict init 3;; read_back init) s;
  Ok (a, b).

Lemma write_scenario_eq : write_scenario = Ok (Some 77, Some 78).
Proof. vm_compute. reflexivity. Qed.

#[local] Opaque before_write read_back evict_write evict_unmap run_store evict.


