(* ===== verification/Syscall.v ===== *)
(** userprog/syscall.c: the system calls, and the file part of [process_exit].

    The state is the file system, the descriptor table of the running process, the
    memory, the keyboard and the console.  The table is an array of 128 files inside
    [struct thread]; the member after it is [exec_file], so index 128 is that.
    Pages are behind [get_pge] and [stack_grow], starting and waiting for processes
    behind [process_execute] and [process_wait]: arguments of the handler here. *)

From S2P Require Import Prelude Vaddr Bitmap CString Words Inode OpenFiles Filesys Elf Vm.

Record sys := mk_sys { sfs : fstate; fd_num : Z; fd_tab : list Z; sexec : Z; umem : mem; keys : list Z; console : list Z }.

Abbreviation X := (M sys).

Definition set_sfs (x : fstate) (s : sys) : sys := mk_sys x s.(fd_num) s.(fd_tab) s.(sexec) s.(umem) s.(keys) s.(console).
Definition set_fds (n : Z) (t : list Z) (e : Z) (s : sys) : sys := mk_sys s.(sfs) n t e s.(umem) s.(keys) s.(console).
Definition set_umem (m : mem) (s : sys) : sys := mk_sys s.(sfs) s.(fd_num) s.(fd_tab) s.(sexec) m s.(keys) s.(console).
Definition set_io (k c : list Z) (s : sys) : sys := mk_sys s.(sfs) s.(fd_num) s.(fd_tab) s.(sexec) s.(umem) k c.

Definition in_fs {A} (x : F A) : X A := λ s,
  match x s.(sfs) with Ok (a, f) => Ok (a, set_sfs f s) | Err e => Err e end.
Definition in_umem {A} (x : B A) : X A := λ s,
  match x s.(umem) with Ok (a, m) => Ok (a, set_umem m s) | Err e => Err e end.

(** what a system call does: it puts a value in EAX or not, or the process exits, or
    the machine is turned off *)
Inductive result := Value (v : Z) | NoValue | Exited (status : Z) | Halted.

(** the string at [p] *)
Definition user_string (p : Z) : X (list Z) := in_umem (n ← strlen p; get_bytes p (Z.to_nat n)).

(** * Descriptors *)

(** [t->fd_tab[i]], read and written, with the member after the array *)
Definition load_fd (i : Z) : X Z :=
  s ← get;
  if i =? 128 then mret s.(sexec) else lift_out (ofault (if i <? 0 then None else s.(fd_tab) !! Z.to_nat i)).
Definition store_fd (i f : Z) : X unit :=
  s ← get;
  if i =? 128 then put (set_fds s.(fd_num) s.(fd_tab) f s)
  else if (0 <=? i) && (i <? 128) then put (set_fds s.(fd_num) (<[Z.to_nat i := f]> s.(fd_tab)) s.(sexec) s)
  else fail Fault.

Definition get_file (fd : Z) : X Z :=
  s ← get; if (1 <? fd) && (fd <? s.(fd_num)) then load_fd fd else mret 0.

Section calls.
(** what an uninitialised directory entry holds *)
Context (junk : entry).

Definition syscall_create (file init_size : Z) : X result :=
  if file =? 0 then mret (Exited (-1)) else
  name ← user_string file;
  ok ← in_fs (filesys_create junk name (s32 init_size));
  mret (Value (Z.b2z ok)).

Definition syscall_remove (file : Z) : X result :=
  if file =? 0 then mret (Exited (-1)) else
  name ← user_string file;
  ok ← in_fs (filesys_remove junk name);
  mret (Value (Z.b2z ok)).

Definition syscall_open (file : Z) : X result :=
  if file =? 0 then mret (Value (-1)) else
  name ← user_string file;
  fp ← in_fs (filesys_open junk name);
  if fp =? 0 then mret (Value (-1)) else
  s ← get;
  let fd_now := s.(fd_num) in
  put (set_fds (fd_now + 1) s.(fd_tab) s.(sexec) s);;
  store_fd fd_now fp;;
  mret (Value fd_now).

Definition syscall_filesize (fd : Z) : X result :=
  fp ← get_file fd;
  if fp =? 0 then mret (Value (-1)) else n ← in_fs (file_length fp); mret (Value n).

Definition syscall_seek (fd pos : Z) : X result :=
  fp ← get_file fd;
  if fp =? 0 then mret NoValue else in_fs (file_seek fp (s32 pos));; mret NoValue.

Definition syscall_tell (fd : Z) : X result :=
  fp ← get_file fd;
  if fp =? 0 then mret (Value (-1)) else n ← in_fs (file_tell fp); mret (Value n).

Definition syscall_close (fd : Z) : X result :=
  s ← get;
  if (1 <? fd) && (fd <? s.(fd_num)) then
    fp ← load_fd fd; in_fs (file_close fp);; store_fd fd 0;; mret NoValue
  else mret NoValue.

(** [n] keys from [input_getc]; it waits for them *)
Definition read_keys (n : nat) : X (list Z) :=
  s ← get;
  if (length s.(keys) <? n)%nat then fail NoFuel
  else put (set_io (drop n s.(keys)) s.(console) s);; mret (take n s.(keys)).

Definition STDIN : Z := 0.
Definition STDOUT : Z := 1.

Definition syscall_read (fd buffer size : Z) : X result :=
  if buffer >? PHYS_BASE then mret (Exited (-1)) else
  if fd =? STDIN then l ← read_keys (Z.to_nat size); in_umem (put_bytes buffer l);; mret (Value (s32 size)) else
  if fd =? STDOUT then mret (Value (-1)) else
  fp ← get_file fd;
  if fp =? 0 then mret (Value (-1)) else
  l ← in_fs (file_read fp (s32 size));
  in_umem (put_bytes buffer l);;
  mret (Value (Z.of_nat (length l))).

(** the buffer is taken to be in memory as a whole *)
Definition syscall_write (fd buffer size : Z) : X result :=
  if fd =? STDOUT then
    l ← in_umem (get_bytes buffer (Z.to_nat size));
    s ← get; put (set_io s.(keys) (s.(console) ++ l) s);; mret (Value (s32 size)) else
  if fd =? STDIN then mret (Value (-1)) else
  fp ← get_file fd;
  if fp =? 0 then mret (Value 0) else
  l ← in_umem (get_bytes buffer (Z.to_nat (s32 size)));
  n ← in_fs (file_write fp l (s32 size));
  mret (Value n).

(** the loop of [syscall_fibonacci], with [k] turns left *)
Fixpoint fib_loop (k : nat) (n0 n1 n2 : Z) : Z :=
  match k with O => n2 | S k => let n2 := s32 (n1 + n0) in fib_loop k n1 n2 n2 end.

Definition syscall_fibonacci (n : Z) : Z :=
  if n <? 0 then -1 else if n =? 0 then 0 else if n =? 1 then 1 else fib_loop (Z.to_nat (n - 1)) 0 1 0.

Definition syscall_sum_of_four_integers (a b c d : Z) : Z := s32 (s32 (s32 (a + b) + c) + d).

(** ** [process_exit] *)

(** the loop that closes the files *)
Fixpoint close_files (n : nat) : X unit :=
  s ← get;
  if s.(fd_num) >=? 2 then
    match n with
    | O => fail NoFuel
    | S n =>
      fp ← load_fd s.(fd_num); in_fs (file_close fp);;
      s ← get; put (set_fds (s.(fd_num) - 1) s.(fd_tab) s.(sexec) s);; close_files n
    end
  else mret tt.

Definition process_exit_files : X unit :=
  s ← get;
  put (set_fds (s.(fd_num) - 1) s.(fd_tab) s.(sexec) s);;
  close_files (Z.to_nat s.(fd_num));;
  s ← get; in_fs (file_close s.(sexec)).
End calls.

(** * The handler *)

(** lib/syscall-nr.h *)
Inductive syscall_nr := NHALT | NEXIT | NEXEC | NWAIT | NCREATE | NREMOVE | NOPEN | NFILESIZE | NREAD | NWRITE | NSEEK | NTELL | NCLOSE | NFIBO | NSUM4.

Definition nr (n : syscall_nr) : Z :=
  match n with
  | NHALT => 0 | NEXIT => 1 | NEXEC => 2 | NWAIT => 3 | NCREATE => 4 | NREMOVE => 5 | NOPEN => 6 | NFILESIZE => 7 | NREAD => 8 | NWRITE => 9 | NSEEK => 10 | NTELL => 11 | NCLOSE => 12 | NFIBO => 13 | NSUM4 => 14
  end.

Abbreviation SYS_HALT := (nr NHALT).
Abbreviation SYS_EXIT := (nr NEXIT).
Abbreviation SYS_EXEC := (nr NEXEC).
Abbreviation SYS_WAIT := (nr NWAIT).
Abbreviation SYS_CREATE := (nr NCREATE).
Abbreviation SYS_REMOVE := (nr NREMOVE).
Abbreviation SYS_OPEN := (nr NOPEN).
Abbreviation SYS_FILESIZE := (nr NFILESIZE).
Abbreviation SYS_READ := (nr NREAD).
Abbreviation SYS_WRITE := (nr NWRITE).
Abbreviation SYS_SEEK := (nr NSEEK).
Abbreviation SYS_TELL := (nr NTELL).
Abbreviation SYS_CLOSE := (nr NCLOSE).
Abbreviation SYS_FIBO := (nr NFIBO).
Abbreviation SYS_SUM4 := (nr NSUM4).

Section handler.
Context (junk : entry).
(** [get_pge] finds an entry for the address; [stack_grow]; [process_execute] with the
    wait for the load; [process_wait] *)
Context (pge_at : Z → X bool) (grow : Z → X unit) (exec wait : Z → X Z).
(** [is_valid_userptr] falls off its end when the page has an entry: what it then
    returns is not defined *)
Context (off_end : bool).

Definition is_valid_userptr (ptr esp : Z) : X bool :=
  if ptr =? 0 then mret false else
  if negb (is_user_vaddr ptr && (0x08048000 <=? ptr)) then mret false else
  b ← pge_at ptr;
  if (b : bool) then mret off_end else
  if is_valid_stack ptr esp then grow ptr;; mret true else mret false.

(** the word at [a], as an [int] *)
Definition word_at (a : Z) : X Z := w ← in_umem (load32 a); mret (s32 w).

Definition arg (esp i : Z) : X Z := word_at (esp + 4 * i).

(** the checks of the pointers to the arguments [i .. i + n - 1], joined by [||] *)
Fixpoint args_ok (esp i : Z) (n : nat) : X bool :=
  match n with
  | O => mret true
  | S n => b ← is_valid_userptr (esp + 4 * i) esp; if (b : bool) then args_ok esp (i + 1) n else mret false
  end.

(** [if (!is_valid_userptr (...) || ...) { syscall_exit (-1); return; }] *)
Definition checked (esp : Z) (n : nat) (k : X result) : X result :=
  b ← args_ok esp 1 n; if (b : bool) then k else mret (Exited (-1)).

Definition syscall_handler (esp : Z) : X result :=
  b ← is_valid_userptr esp esp;
  if negb b then mret (Exited (-1)) else
  num ← word_at esp;
  if num =? SYS_HALT then mret Halted else
  if num =? SYS_EXIT then checked esp 1 (a ← arg esp 1; mret (Exited a)) else
  if num =? SYS_EXEC then checked esp 1 (a ← arg esp 1; v ← exec (u32 a); mret (Value v)) else
  if num =? SYS_WAIT then checked esp 1 (a ← arg esp 1; v ← wait a; mret (Value v)) else
  if num =? SYS_READ then
    checked esp 3 (a ← arg esp 1; b ← arg esp 2; c ← arg esp 3; syscall_read a (u32 b) (u32 c)) else
  if num =? SYS_WRITE then
    checked esp 3 (a ← arg esp 1; b ← arg esp 2; c ← arg esp 3; syscall_write a (u32 b) (u32 c)) else
  if num =? SYS_FIBO then checked esp 1 (a ← arg esp 1; mret (Value (syscall_fibonacci a))) else
  if num =? SYS_SUM4 then
    checked esp 4 (a ← arg esp 1; b ← arg esp 2; c ← arg esp 3; d ← arg esp 4;
      mret (Value (syscall_sum_of_four_integers a b c d))) else
  if num =? SYS_CREATE then checked esp 2 (a ← arg esp 1; b ← arg esp 2; syscall_create junk (u32 a) (u32 b)) else
  if num =? SYS_REMOVE then checked esp 1 (a ← arg esp 1; syscall_remove junk (u32 a)) else
  if num =? SYS_OPEN then checked esp 1 (a ← arg esp 1; syscall_open junk (u32 a)) else
  if num =? SYS_CLOSE then checked esp 1 (a ← arg esp 1; syscall_close a) else
  if num =? SYS_FILESIZE then checked esp 1 (a ← arg esp 1; syscall_filesize a) else
  if num =? SYS_SEEK then checked esp 2 (a ← arg esp 1; b ← arg esp 2; syscall_seek a (u32 b)) else
  if num =? SYS_TELL then checked esp 1 (a ← arg esp 1; syscall_tell a) else
  mret NoValue.
End handler.

(** * Arithmetic *)

Fixpoint fib (n : nat) : Z :=
  match n with O => 0 | S O => 1 | S (S m as k) => fib k + fib m end.

Lemma fib_SS n : fib (S (S n)) = fib (S n) + fib n.
Proof. done. Qed.

Lemma s32_add a b : s32 (s32 a + s32 b) = s32 (a + b).
Proof.
  unfold s32. replace ((a + 2 ^ 31) mod 2 ^ 32 - 2 ^ 31 + ((b + 2 ^ 31) mod 2 ^ 32 - 2 ^ 31) + 2 ^ 31)
    with ((a + 2 ^ 31) mod 2 ^ 32 + ((b + 2 ^ 31) mod 2 ^ 32 - 2 ^ 31)) by lia.
  rewrite Zplus_mod_idemp_l. replace (a + 2 ^ 31 + ((b + 2 ^ 31) mod 2 ^ 32 - 2 ^ 31)) with ((b + 2 ^ 31) mod 2 ^ 32 + a) by lia.
  rewrite Zplus_mod_idemp_l. do 2 f_equal. lia.
Qed.

Lemma fib_loop_spec k j c : fib_loop (S k) (s32 (fib j)) (s32 (fib (S j))) c = s32 (fib (S (S j) + k)).
Proof.
  revert j c. induction k as [|k IH]; intros j c.
  - cbn [fib_loop]. rewrite s32_add, <- fib_SS. f_equal. f_equal. lia.
  - change (fib_loop (S (S k)) ?a ?b c) with (let n2 := s32 (b + a) in fib_loop (S k) b n2 n2). cbv zeta.
    rewrite s32_add, <- fib_SS, IH. f_equal. f_equal. lia.
Qed.

Lemma fib_pair n : Nat.iter n (λ '(a, b), (b, b + a)) (0, 1) = (fib n, fib (S n)).
Proof. induction n as [|n IH]; [done|]. rewrite Nat.iter_succ, IH. by rewrite fib_SS. Qed.

Lemma fib_mono n : 0 ≤ fib n ≤ fib (S n).
Proof. induction n as [|n IH]; [simpl; lia|]. rewrite fib_SS. lia. Qed.

Lemma fib_iter n : fib n = (Nat.iter n (λ '(a, b), (b, b + a)) (0, 1)).1.
Proof. by rewrite fib_pair. Qed.

Lemma fib_46 : fib 46 = 1836311903.
Proof. rewrite fib_iter. vm_compute. reflexivity. Qed.

#[local] Opaque fib.

Lemma fib_bound n : (n ≤ 46)%nat → 0 ≤ fib n < 2 ^ 31.
Proof.
  intros H. pose proof fib_46 as E. assert (Hm : ∀ k, fib n ≤ fib (k + n)).
  { induction k as [|k IH]; [done|]. change (S k + n)%nat with (S (k + n)). pose proof (fib_mono (k + n)). lia. }
  specialize (Hm (46 - n)%nat). replace (46 - n + n)%nat with 46%nat in Hm by lia. pose proof (fib_mono n). lia.
Qed.

#[local] Transparent fib.

(** [syscall_fibonacci] computes the Fibonacci numbers modulo 2^32, as a signed number:
    the number itself up to 46, -1 for a negative argument. *)
Theorem fibonacci_correct n : syscall_fibonacci n = (if n <? 0 then -1 else s32 (fib (Z.to_nat n))) ∧
  (0 ≤ n ≤ 46 → syscall_fibonacci n = fib (Z.to_nat n)).
Proof.
  assert (E : syscall_fibonacci n = if n <? 0 then -1 else s32 (fib (Z.to_nat n))).
  { unfold syscall_fibonacci. destruct (Z.ltb_spec n 0); [done|]. destruct (Z.eqb_spec n 0) as [->|]; [done|].
    destruct (Z.eqb_spec n 1) as [->|]; [done|].
    replace (Z.to_nat (n - 1)) with (S (Z.to_nat (n - 2))) by lia.
    pose proof (fib_loop_spec (Z.to_nat (n - 2)) 0 0) as E. change (s32 (fib 0)) with 0 in E. change (s32 (fib 1)) with 1 in E.
    rewrite E. f_equal. f_equal. lia. }
  split; [exact E|]. intros Hn. rewrite E. destruct (Z.ltb_spec n 0); [lia|]. apply s32_small.
  pose proof (fib_bound (Z.to_nat n) ltac:(lia)). lia.
Qed.

Lemma fibonacci_correct_witness : syscall_fibonacci 10 = 55.
Proof. exact (proj2 (fibonacci_correct 10) ltac:(lia)). Defined.

(** * Descriptors as cursors *)

(** The calls on open files that a program sees: a descriptor is a position in a file,
    a file its bytes, and the buffers are in the program's memory. *)
Record cursors := mk_cursors { cur : gmap Z (Z * Z); data : gmap Z (list Z); cmem : mem }.

Inductive call := CRead (fd buf n : Z) | CWrite (fd buf n : Z) | CSeek (fd p : Z) | CTell (fd : Z) | CSize (fd : Z).

Definition run_call (c : call) : X result :=
  match c with
  | CRead fd buf n => syscall_read fd buf n
  | CWrite fd buf n => syscall_write fd buf n
  | CSeek fd p => syscall_seek fd p
  | CTell fd => syscall_tell fd
  | CSize fd => syscall_filesize fd
  end.

Fixpoint run_calls (l : list call) : X (list result) :=
  match l with [] => mret [] | c :: l => r ← run_call c; rs ← run_calls l; mret (r :: rs) end.

(** the [n] bytes at [p], when they are all in memory *)
Definition bytes_of (m : mem) (p n : Z) : option (list Z) := mapM (λ k, m !! (p + k)) (seqZ 0 n).

Definition spec_call (c : call) (a : cursors) : option (result * cursors) :=
  match c with
  | CRead fd buf n =>
    '(ip, p) ← a.(cur) !! fd; l ← a.(data) !! ip;
    let b := take (Z.to_nat n) (drop (Z.to_nat p) l) in let k := Z.of_nat (length b) in
    guard (0 ≤ n < 2 ^ 31);; guard (buf ≤ PHYS_BASE);; _ ← bytes_of a.(cmem) buf k;
    Some (Value k, mk_cursors (<[fd := (ip, p + k)]> a.(cur)) a.(data) (write a.(cmem) buf b))
  | CWrite fd buf n =>
    '(ip, p) ← a.(cur) !! fd; l ← a.(data) !! ip; guard (0 ≤ n < 2 ^ 31);; b ← bytes_of a.(cmem) buf n;
    let b' := take (Z.to_nat (Z.of_nat (length l) - p)) b in let k := Z.of_nat (length b') in
    Some (Value k, mk_cursors (<[fd := (ip, p + k)]> a.(cur)) (<[ip := over (Z.to_nat p) b' l]> a.(data)) a.(cmem))
  | CSeek fd q =>
    '(ip, _) ← a.(cur) !! fd; guard (0 ≤ q < 2 ^ 31);; Some (NoValue, mk_cursors (<[fd := (ip, q)]> a.(cur)) a.(data) a.(cmem))
  | CTell fd => '(_, p) ← a.(cur) !! fd; Some (Value p, a)
  | CSize fd => '(ip, _) ← a.(cur) !! fd; l ← a.(data) !! ip; Some (Value (Z.of_nat (length l)), a)
  end.

Fixpoint spec_calls (l : list call) (a : cursors) : option (list result * cursors) :=
  match l with
  | [] => Some ([], a)
  | c :: l => '(r, a) ← spec_call c a; '(rs, a) ← spec_calls l a; Some (r :: rs, a)
  end.

(** the state of the system behind the cursors *)
Record implements (s : sys) (a : cursors) : Prop := {
  im_cur fd ip p : a.(cur) !! fd = Some (ip, p) → 2 ≤ fd < s.(fd_num) ∧ fd < 128 ∧ 0 ≤ p ∧ is_Some (a.(data) !! ip) ∧
    ∃ f x, s.(fd_tab) !! Z.to_nat fd = Some f ∧ f ≠ 0 ∧ s.(sfs).(files) !! f = Some x ∧ x.(finode) = ip ∧ x.(pos) = p;
  im_inj fd fd' f : is_Some (a.(cur) !! fd) → is_Some (a.(cur) !! fd') →
    s.(fd_tab) !! Z.to_nat fd = Some f → s.(fd_tab) !! Z.to_nat fd' = Some f → fd = fd';
  im_data ip l : a.(data) !! ip = Some l → (∀ v, v ∈ l → 0 ≤ v < 256) ∧
    ∃ i, s.(sfs).(inodes) !! ip = Some i ∧ fits s.(sfs).(disk) i ∧ i.(ilength) < 2 ^ 31 ∧ i.(deny_write_cnt) = 0 ∧
      content s.(sfs).(disk) i = l;
  im_apart ip jp i j : ip ≠ jp → is_Some (a.(data) !! ip) → is_Some (a.(data) !! jp) →
    s.(sfs).(inodes) !! ip = Some i → s.(sfs).(inodes) !! jp = Some j → apart i j;
  im_heap : s.(sfs).(allocs) = [] ∧ 0 < s.(sfs).(next_ptr);
  im_mem : s.(umem) = a.(cmem) ∧ map_Forall (λ _ v, 0 ≤ v < 256) a.(cmem)
}.

Lemma bytes_of_bytes m p n l : map_Forall (λ _ v, 0 ≤ v < 256) m → 0 ≤ n → bytes_of m p n = Some l →
  bytes m p l ∧ length l = Z.to_nat n.
Proof.
  intros Hm Hn E%mapM_Some. assert (El : length l = Z.to_nat n) by (rewrite <- (Forall2_length _ _ _ E), length_seqZ; done).
  split; [|done]. apply bytes_lookup. intros i v Hi. destruct (Forall2_lookup_r _ _ _ _ _ E Hi) as (k & Hk & Hv).
  apply lookup_seqZ in Hk as [-> _]. rewrite Z.add_0_l in Hv. split; [done|exact (Hm _ _ Hv)].
Qed.

Lemma bytes_writable m p l : bytes m p l → writable m p (Z.of_nat (length l)).
Proof.
  rewrite bytes_lookup. intros H a Ha. destruct (lookup_lt_is_Some_2 l (Z.to_nat (a - p)) ltac:(lia)) as [v Hv].
  destruct (H _ _ Hv) as [E _]. exists v. rewrite <- E. f_equal. lia.
Qed.

(** the file behind a descriptor *)
Lemma cursor_file s a fd ip p : implements s a → a.(cur) !! fd = Some (ip, p) →
  ∃ f x, get_file fd s = Ok (f, s) ∧ (f =? 0) = false ∧ s.(fd_tab) !! Z.to_nat fd = Some f ∧
    Inode.get_file f s.(sfs) = Ok (x, s.(sfs)) ∧ s.(sfs).(files) !! f = Some x ∧ x.(finode) = ip ∧ x.(pos) = p ∧ 0 ≤ p ∧
    fd ≠ 0 ∧ fd ≠ 1.
Proof.
  intros I Hc. destruct (im_cur _ _ I _ _ _ Hc) as (H1 & H2 & Hp & _ & f & x & Ht & Hf & Hx & Hi & Hq). exists f, x.
  split_and!; try done; try lia; [|unfold Inode.get_file; erewrite bind_ok by done; by rewrite Hx].
  unfold get_file. rewrite (bind_ok get _ s s s) by done. destruct (Z.ltb_spec 1 fd); [|lia].
  destruct (Z.ltb_spec fd (fd_num s)); [|lia]. cbn [andb]. unfold load_fd.
  rewrite (bind_ok get _ s s s) by done. destruct (Z.eqb_spec fd 128); [lia|]. destruct (Z.ltb_spec fd 0); [lia|]. by rewrite Ht.
Qed.

Lemma in_fs_eq {A} (x : F A) s a f : x s.(sfs) = Ok (a, f) → in_fs x s = Ok (a, set_sfs f s).
Proof. intros E. unfold in_fs. by rewrite E. Qed.

Lemma in_umem_eq {A} (x : B A) s a m : x s.(umem) = Ok (a, m) → in_umem x s = Ok (a, set_umem m s).
Proof. intros E. unfold in_umem. by rewrite E. Qed.

(** ** Steps on both sides *)

(** the position of a file changes *)
Lemma cursor_move s a fd ip p f x q : implements s a → a.(cur) !! fd = Some (ip, p) → s.(fd_tab) !! Z.to_nat fd = Some f →
  s.(sfs).(files) !! f = Some x → x.(finode) = ip → 0 ≤ q →
  implements (set_sfs (set_files (<[f := mk_file ip q x.(deny_write)]> s.(sfs).(files)) s.(sfs)) s)
    (mk_cursors (<[fd := (ip, q)]> a.(cur)) a.(data) a.(cmem)).
Proof.
  intros I Hc Ht Hx Hi Hq. assert (Hs : ∀ e, is_Some (<[fd := (ip, q)]> (cur a) !! e) → is_Some (cur a !! e)).
  { intros e. destruct (decide (fd = e)) as [<-|]; [by rewrite Hc; eauto|by rewrite lookup_insert_ne]. }
  split; simpl; [|intros e e' g H H'; exact (im_inj _ _ I e e' g (Hs _ H) (Hs _ H'))|exact (im_data _ _ I)|exact (im_apart _ _ I)|
    exact (im_heap _ _ I)|exact (im_mem _ _ I)].
  intros e jp r He. destruct (decide (fd = e)) as [<-|Hne].
  - rewrite lookup_insert_eq in He. injection He as <- <-.
    destruct (im_cur _ _ I _ _ _ Hc) as (H1 & H2 & _ & Hd & _). split_and!; try done; try lia.
    exists f. rewrite lookup_insert_eq. eexists. split_and!; try done.
    intros ->. destruct (im_cur _ _ I _ _ _ Hc) as (_ & _ & _ & _ & g & y & Hg & Hg0 & _). rewrite Ht in Hg. by injection Hg as <-.
  - rewrite lookup_insert_ne in He by done. destruct (im_cur _ _ I _ _ _ He) as (H1 & H2 & Hr & Hd & g & y & Hg & Hg0 & Hy & Hj & Hp).
    split_and!; try done; try lia. exists g, y. rewrite lookup_insert_ne; [done|]. intros ->.
    destruct Hne. apply (im_inj _ _ I fd e g); eauto.
Qed.

(** the bytes of a file change *)
Lemma cursor_data s a ip i l b p fs' : implements s a → a.(data) !! ip = Some l → s.(sfs).(inodes) !! ip = Some i →
  0 ≤ p → (∀ v, v ∈ b → 0 ≤ v < 256) → content s.(sfs).(disk) i = l →
  written s.(sfs) fs' i p b →
  implements (set_sfs fs' s) (mk_cursors a.(cur) (<[ip := over (Z.to_nat p) b l]> a.(data)) a.(cmem)).
Proof.
  intros I Hl Hi Hp Hb <- [(d & n & Hn & ->) Hlen Hfit Hcon Hap].
  assert (Hs : ∀ j l', is_Some (<[ip := l']> (data a) !! j) → is_Some (data a !! j)).
  { intros j l'. destruct (decide (ip = j)) as [<-|]; [by rewrite Hl; eauto|by rewrite lookup_insert_ne]. }
  split; simpl; [|exact (im_inj _ _ I)| |intros ? ? ? ? H H1 H2; exact (im_apart _ _ I _ _ _ _ H (Hs _ _ H1) (Hs _ _ H2))|done|exact (im_mem _ _ I)].
  - intros fd jp q Hc. destruct (im_cur _ _ I _ _ _ Hc) as (H1 & H2 & Hq & Hd & Hrest). split_and!; try done; try lia.
    destruct (decide (ip = jp)) as [<-|]; [rewrite lookup_insert_eq; eauto|by rewrite lookup_insert_ne].
  - intros jp l' Hj. destruct (decide (ip = jp)) as [<-|Hne].
    + rewrite lookup_insert_eq in Hj. injection Hj as <-. destruct (im_data _ _ I _ _ Hl) as (Hv & i' & Hi' & Hf & Hlt & Hd & Hc).
      rewrite Hi in Hi'. injection Hi' as <-. split; [|by exists i].
      intros v. unfold over. rewrite !elem_of_app. intros [Hin|[Hin|Hin]]; [apply Hv|by apply Hb|apply Hv].
      * by apply elem_of_take in Hin as (? & ?%list_elem_of_lookup_2 & _).
      * apply list_elem_of_lookup in Hin as [k Hk]. rewrite lookup_drop in Hk. by eapply list_elem_of_lookup_2.
    + rewrite lookup_insert_ne in Hj by done. destruct (im_data _ _ I _ _ Hj) as (Hv & j & Hj' & Hf & Hlt & Hd & Hc).
      split; [done|]. exists j. split_and!; try done.
      * destruct Hfit as [Hs1 Hs2 _ _ _]. by apply (fits_same (disk (sfs s))).
      * rewrite <- Hc. apply Hap; [done|]. apply (im_apart _ _ I ip jp); try done; eauto.
Qed.

(** the memory changes *)
Lemma cursor_mem s a p l : implements s a → (∀ v, v ∈ l → 0 ≤ v < 256) →
  implements (set_umem (write s.(umem) p l) s) (mk_cursors a.(cur) a.(data) (write a.(cmem) p l)).
Proof.
  intros [H1 H2 H3 H4 H5 [H6 H7]] Hl. split; simpl; try done. split; [by rewrite H6|]. intros k v. rewrite lookup_write.
  destruct (decide _); [|apply H7]. intros Hv. apply Hl. by eapply list_elem_of_lookup_2.
Qed.

(** the heap's counter changes *)
Lemma cursor_heap s a fs' : implements s a → heaped s.(sfs) fs' → implements (set_sfs fs' s) a.
Proof. intros [] (n & Hn & ->). by split. Qed.

(** ** The calls *)

Lemma seek_sim s a fd q r a' : implements s a → spec_call (CSeek fd q) a = Some (r, a') →
  ∃ s', syscall_seek fd q s = Ok (r, s') ∧ implements s' a'.
Proof.
  intros I E. cbn [spec_call] in E. apply bind_Some in E as ([ip p] & Hc & E).
  apply bind_Some in E as (Hq & _ & E). injection E as <- <-.
  destruct (cursor_file _ _ _ _ _ I Hc) as (f & x & Eg & Ef & Ht & Ex & Hx & Hi & Hp & Hp0 & _).
  unfold syscall_seek. rewrite (bind_ok _ _ _ _ _ Eg), Ef. rewrite s32_small by lia. eexists. split.
  - erewrite bind_ok; [reflexivity|]. apply in_fs_eq. unfold file_seek. rewrite (bind_ok _ _ _ _ _ Ex).
    rewrite assert_bind by (apply Z.leb_le; lia). reflexivity.
  - rewrite Hi. apply (cursor_move s a fd ip p); try done; lia.
Qed.

Lemma tell_sim s a fd r a' : implements s a → spec_call (CTell fd) a = Some (r, a') →
  ∃ s', syscall_tell fd s = Ok (r, s') ∧ implements s' a'.
Proof.
  intros I E. cbn [spec_call] in E. apply bind_Some in E as ([ip p] & Hc & E). injection E as <- <-.
  destruct (cursor_file _ _ _ _ _ I Hc) as (f & x & Eg & Ef & Ht & Ex & Hx & Hi & Hp & Hp0 & _).
  exists s. split; [|done]. unfold syscall_tell. rewrite (bind_ok _ _ _ _ _ Eg), Ef.
  erewrite bind_ok; [|apply in_fs_eq; unfold file_tell; rewrite (bind_ok _ _ _ _ _ Ex); reflexivity]. rewrite Hp. by destruct s.
Qed.

Lemma size_sim s a fd r a' : implements s a → spec_call (CSize fd) a = Some (r, a') →
  ∃ s', syscall_filesize fd s = Ok (r, s') ∧ implements s' a'.
Proof.
  intros I E. cbn [spec_call] in E. apply bind_Some in E as ([ip p] & Hc & E). apply bind_Some in E as (l & Hl & E).
  injection E as <- <-. destruct (cursor_file _ _ _ _ _ I Hc) as (f & x & Eg & Ef & Ht & Ex & Hx & Hi & Hp & Hp0 & _).
  destruct (im_data _ _ I _ _ Hl) as (_ & i & Hin & Hfit & Hlt & _ & Hcon).
  exists s. split; [|done]. unfold syscall_filesize. rewrite (bind_ok _ _ _ _ _ Eg), Ef.
  erewrite bind_ok; [|apply in_fs_eq; unfold file_length; rewrite (bind_ok _ _ _ _ _ Ex); unfold inode_length;
    rewrite Hi, (bind_ok _ _ _ _ _ (get_inode_eq _ _ _ Hin)); reflexivity].
  rewrite <- Hcon, length_content by done. pose proof (fit_len _ _ Hfit). rewrite Z2Nat.id by done. by destruct s.
Qed.

Lemma read_sim s a fd buf n r a' : implements s a → spec_call (CRead fd buf n) a = Some (r, a') →
  ∃ s', syscall_read fd buf n s = Ok (r, s') ∧ implements s' a'.
Proof.
  intros I E. cbn [spec_call] in E. apply bind_Some in E as ([ip p] & Hc & E). apply bind_Some in E as (l & Hl & E).
  set (b := take (Z.to_nat n) (drop (Z.to_nat p) l)) in E.
  apply bind_Some in E as (Hn & _ & E). apply bind_Some in E as (Hb & _ & E). apply bind_Some in E as (old & Ho & E).
  injection E as <- <-. destruct (cursor_file _ _ _ _ _ I Hc) as (f & x & Eg & Ef & Ht & Ex & Hx & Hi & Hp & Hp0 & H0 & H1).
  destruct (im_data _ _ I _ _ Hl) as (Hv & i & Hin & Hfit & Hlt & _ & Hcon). destruct (im_heap _ _ I) as [Ha Hnp].
  destruct (inode_read_at_eq (sfs s) ip i n p Hin Hfit Ha Hnp ltac:(lia) Hp0) as (fs & Er & Hh). rewrite Hcon in Er. fold b in Er.
  assert (Hbv : ∀ v, v ∈ b → 0 ≤ v < 256).
  { intros v Hvb. apply Hv. apply list_elem_of_lookup in Hvb as [k Hk]. apply lookup_take_Some in Hk as [Hk _].
    rewrite lookup_drop in Hk. by eapply list_elem_of_lookup_2. }
  destruct (im_mem _ _ I) as [Hm Hr]. destruct (bytes_of_bytes _ _ _ _ Hr (Nat2Z.is_nonneg _) Ho) as [Hbo Hlo].
  rewrite Nat2Z.id in Hlo. unfold syscall_read. rewrite Z.gtb_ltb. destruct (Z.ltb_spec PHYS_BASE buf); [lia|].
  destruct (Z.eqb_spec fd STDIN); [done|]. destruct (Z.eqb_spec fd STDOUT); [done|].
  rewrite (bind_ok _ _ _ _ _ Eg), Ef, s32_small by lia.
  pose proof (cursor_heap _ _ _ I Hh) as I1. destruct Hh as (k & Hk & ->).
  pose proof (cursor_move _ a fd ip p f x (p + Z.of_nat (length b)) I1 Hc Ht Hx Hi ltac:(lia)) as I2.
  pose proof (cursor_mem _ _ buf b I2 Hbv) as I3. eexists. split; [|exact I3].
  erewrite bind_ok; [|apply in_fs_eq; unfold file_read; rewrite (bind_ok _ _ _ _ _ Ex), Hi, Hp, (bind_ok _ _ _ _ _ Er); reflexivity].
  erewrite bind_ok; [reflexivity|]. apply in_umem_eq. cbn [umem set_sfs]. rewrite Hm.
  rewrite put_bytes_spec; [done| |done]. rewrite <- Hlo. by apply bytes_writable.
Qed.

Lemma write_sim s a fd buf n r a' : implements s a → spec_call (CWrite fd buf n) a = Some (r, a') →
  ∃ s', syscall_write fd buf n s = Ok (r, s') ∧ implements s' a'.
Proof.
  intros I E. cbn [spec_call] in E. apply bind_Some in E as ([ip p] & Hc & E). apply bind_Some in E as (l & Hl & E).
  apply bind_Some in E as (Hn & _ & E). apply bind_Some in E as (b & Hb & E).
  destruct (cursor_file _ _ _ _ _ I Hc) as (f & x & Eg & Ef & Ht & Ex & Hx & Hi & Hp & Hp0 & H0 & H1).
  destruct (im_data _ _ I _ _ Hl) as (Hv & i & Hin & Hfit & Hlt & Hd & Hcon). destruct (im_heap _ _ I) as [Ha Hnp].
  destruct (im_mem _ _ I) as [Hm Hr]. destruct (bytes_of_bytes _ _ _ _ Hr (proj1 Hn) Hb) as [Hbo Hlo].
  pose proof (length_content _ _ Hfit) as Hlc. rewrite Hcon in Hlc. pose proof (fit_len _ _ Hfit).
  destruct (inode_write_at_eq (sfs s) ip i b p Hin Hfit Ha Hnp Hd Hp0) as (fs & Ew & W).
  set (b' := take (Z.to_nat (Z.of_nat (length l) - p)) b) in E.
  assert (Eb : take (Z.to_nat (avail i (Z.of_nat (length b)) p)) b = b').
  { unfold b', avail. destruct (Z.le_gt_cases (Z.of_nat (length b)) (ilength i - p)); [rewrite !take_ge by lia; done|f_equal; lia]. }
  assert (En : avail i (Z.of_nat (length b)) p = Z.of_nat (length b')).
  { unfold b', avail. rewrite length_take. lia. }
  rewrite Eb in W. rewrite En in Ew. injection E as <- <-. replace (Z.of_nat (length b)) with n in Ew by lia.
  pose proof (cursor_data _ _ ip i l b' p fs I Hl Hin Hp0) as I1. specialize (I1 ltac:(intros v Hv'; eapply bytes_range; [exact Hbo|];
    apply list_elem_of_lookup in Hv' as [k Hk]; apply lookup_take_Some in Hk as [Hk _]; by eapply list_elem_of_lookup_2) Hcon W).
  destruct W as [(d & k & Hk & ->) _ _ _ _].
  pose proof (cursor_move _ _ fd ip p f x (p + Z.of_nat (length b')) I1 Hc Ht Hx Hi ltac:(lia)) as I2.
  eexists. split; [|exact I2]. unfold syscall_write.
  destruct (Z.eqb_spec fd STDOUT); [done|]. destruct (Z.eqb_spec fd STDIN); [done|].
  rewrite (bind_ok _ _ _ _ _ Eg), Ef, s32_small by lia. rewrite <- Hlo.
  assert (Eu : in_umem (get_bytes buf (length b)) s = Ok (b, s)).
  { rewrite (in_umem_eq _ _ b s.(umem)) by (apply get_bytes_spec; by rewrite Hm). by destruct s. }
  rewrite (bind_ok _ _ _ _ _ Eu).
  erewrite bind_ok; [|apply in_fs_eq; unfold file_write; rewrite (bind_ok _ _ _ _ _ Ex), Hi, Hp, (bind_ok _ _ _ _ _ Ew); reflexivity].
  reflexivity.
Qed.

Lemma call_sim c s a r a' : implements s a → spec_call c a = Some (r, a') → ∃ s', run_call c s = Ok (r, s') ∧ implements s' a'.
Proof. destruct c; [apply read_sim|apply write_sim|apply seek_sim|apply tell_sim|apply size_sim]. Qed.

(** C4. The calls on open files refine cursors over byte arrays: in a system that has the
    descriptors of [a], every sequence of reads, writes, seeks, tells and sizes that
    the cursors allow returns what they return and leaves a system with the new ones.
    So no call touches the bytes of a file other than the descriptor's, the position
    of another descriptor, or memory outside its buffer. *)
Theorem file_calls_refine s a l rs a' : implements s a → spec_calls l a = Some (rs, a') →
  ∃ s', run_calls l s = Ok (rs, s') ∧ implements s' a'.
Proof.
  revert s a rs. induction l as [|c l IH]; intros s a rs I E; cbn [spec_calls run_calls] in *.
  - injection E as <- <-. by exists s.
  - apply bind_Some in E as ([r a1] & Ec & E). apply bind_Some in E as ([rs1 a2] & El & E). injection E as <- ->.
    destruct (call_sim _ _ _ _ _ I Ec) as (s1 & E1 & I1). destruct (IH _ _ _ I1 El) as (s2 & E2 & I2).
    exists s2. split; [|done]. by rewrite (bind_ok _ _ _ _ _ E1), (bind_ok _ _ _ _ _ E2).
Qed.

(** a file of 700 bytes behind descriptor 2, three bytes and a buffer of three in memory *)
Definition ex_sys : sys := mk_sys
  (mk_fstate (replicate 8 (replicate 512 0)) {[ 10 := ex_inode ]} [10] {[ 20 := mk_file 10 0 false ]} (mk_bitmap 8 [15]) 0 100 [])
  3 (<[2%nat := 20]> (replicate 128 0)) 0 (write (write ∅ 1000 [1; 2; 3]) 2000 [0; 0; 0]) [] [].
Definition ex_cursors : cursors := mk_cursors {[ 2 := (10, 0) ]} {[ 10 := replicate 700 0 ]} ex_sys.(umem).

Lemma ex_implements : implements ex_sys ex_cursors.
Proof.
  split; unfold ex_cursors, ex_sys; cbn [cur data cmem sfs fd_num fd_tab umem files inodes disk allocs next_ptr].
  - intros fd ip p [<- [= <- <-]]%lookup_singleton_Some. split_and!; try lia; [by eexists|].
    exists 20, (mk_file 10 0 false). split_and!; reflexivity || lia.
  - intros fd fd' f [? [<- _]%lookup_singleton_Some] [? [<- _]%lookup_singleton_Some]. reflexivity.
  - intros ip l [<- <-]%lookup_singleton_Some. split; [intros v [-> _]%elem_of_replicate; lia|].
    exists ex_inode. split; [reflexivity|]. split; [exact ex_fits|]. split; [reflexivity|]. split; reflexivity.
  - intros ip jp i j Hne [? [<- _]%lookup_singleton_Some] [? [<- _]%lookup_singleton_Some]. by destruct Hne.
  - split; [reflexivity|lia].
  - split; [reflexivity|]. intros a v H. cbn [write] in H.
    repeat (apply lookup_insert_Some in H as [[_ <-]|[_ H]]; [lia|]). rewrite lookup_empty in H. discriminate H.
Qed.

Definition ex_calls : list call := [CWrite 2 1000 3; CSeek 2 1; CRead 2 2000 3; CTell 2; CSize 2].

Lemma file_calls_refine_witness : ∃ s', run_calls ex_calls ex_sys = Ok ([Value 3; NoValue; Value 3; Value 4; Value 700], s') ∧
  bytes s'.(umem) 2000 [2; 3; 0].
Proof.
  assert (E : ∃ a', spec_calls ex_calls ex_cursors = Some ([Value 3; NoValue; Value 3; Value 4; Value 700], a') ∧
    bytes a'.(cmem) 2000 [2; 3; 0]).
  { eexists. split; [vm_compute; reflexivity|]. vm_compute. split_and!; reflexivity || discriminate. }
  destruct E as (a' & E & Hb). destruct (file_calls_refine ex_sys ex_cursors ex_calls _ _ ex_implements E) as (s' & E' & I).
  exists s'. split; [exact E'|]. by rewrite (proj1 (im_mem _ _ I)).
Defined.

(** ** Arguments that are not checked *)

(** A seek to a position of [2 ^ 31] or more, a value a program may pass, fails the
    assertion of [file_seek]: the kernel stops. *)
Theorem seek_panics s a fd ip p q : implements s a → a.(cur) !! fd = Some (ip, p) → 2 ^ 31 ≤ q < 2 ^ 32 →
  syscall_seek fd q s = Err AssertFail.
Proof.
  intros I Hc Hq. destruct (cursor_file _ _ _ _ _ I Hc) as (f & x & Eg & Ef & _ & Ex & _).
  unfold syscall_seek. rewrite (bind_ok _ _ _ _ _ Eg), Ef. apply bind_err. unfold in_fs, file_seek. rewrite (bind_ok _ _ _ _ _ Ex).
  assert (s32 q < 0) by (unfold s32; rewrite (Z.mod_eq _ (2 ^ 32)) by lia; replace ((q + 2 ^ 31) / 2 ^ 32) with 1; [lia|];
    apply (Z.div_unique _ _ _ (q - 2 ^ 31)); lia).
  unfold assert. destruct (Z.leb_spec 0 (s32 q)); [lia|]. reflexivity.
Qed.

Lemma seek_panics_witness : syscall_seek 2 (2 ^ 31) ex_sys = Err AssertFail.
Proof. apply (seek_panics ex_sys ex_cursors 2 10 0); [exact ex_implements|reflexivity|lia]. Defined.

(** The buffers of [read] and [write] may be the kernel's: a read from the keyboard to
    [PHYS_BASE], the kernel's first byte, stores the key there, and a write to the
    console prints bytes from any address. *)
Theorem buffers_unchecked s k r l buf : s.(keys) = k :: r → 0 ≤ k < 256 → is_Some (s.(umem) !! PHYS_BASE) →
  PHYS_BASE ≤ buf → bytes s.(umem) buf l → (length l < Z.to_nat (2 ^ 31))%nat →
  (∃ s', syscall_read STDIN PHYS_BASE 1 s = Ok (Value 1, s') ∧ s'.(umem) !! PHYS_BASE = Some k) ∧
  (∃ s', syscall_write STDOUT buf (Z.of_nat (length l)) s = Ok (Value (Z.of_nat (length l)), s') ∧ s'.(console) = s.(console) ++ l).
Proof.
  intros Hk Hr Hp Hb Hl Hn. split.
  - unfold syscall_read. rewrite Z.gtb_ltb, Z.ltb_irrefl. cbn [Z.eqb STDIN]. unfold read_keys.
    erewrite bind_ok; [|rewrite (bind_ok get _ s s s) by done; rewrite Hk; reflexivity].
    eexists. split.
    + erewrite bind_ok; [reflexivity|]. apply in_umem_eq. cbn [umem set_io]. change (take (Z.to_nat 1) (k :: r)) with [k].
      apply put_bytes_spec; [|by intros v ->%list_elem_of_singleton]. intros a Ha. simpl in Ha. by replace a with PHYS_BASE by lia.
    + simpl. by rewrite lookup_insert_eq.
  - unfold syscall_write. change (STDOUT =? STDOUT) with true. cbv iota. rewrite Nat2Z.id.
    rewrite (bind_ok _ _ _ _ _ (in_umem_eq _ _ _ _ (get_bytes_spec _ _ _ Hl))).
    erewrite bind_ok by reflexivity. erewrite bind_ok by reflexivity. rewrite s32_small by lia. eexists. by split.
Qed.

Definition ex_kernel : sys := mk_sys ex_sys.(sfs) 2 (replicate 128 0) 0 (write ∅ PHYS_BASE [7; 8; 9]) [65] [].

Lemma buffers_unchecked_witness :
  (∃ s', syscall_read STDIN PHYS_BASE 1 ex_kernel = Ok (Value 1, s') ∧ s'.(umem) !! PHYS_BASE = Some 65) ∧
  (∃ s', syscall_write STDOUT PHYS_BASE 3 ex_kernel = Ok (Value 3, s') ∧ s'.(console) = [7; 8; 9]).
Proof.
  apply (buffers_unchecked ex_kernel 65 [] [7; 8; 9] PHYS_BASE); [reflexivity|lia|by eexists|done|apply bytes_write|simpl; lia].
  intros v. rewrite !elem_of_cons, elem_of_nil. lia.
Defined.

(** ** More descriptors than the table has *)

(** a program whose executable is open opens the file [name] [n] times and exits *)
Fixpoint open_many (junk : entry) (name : Z) (n : nat) : X result :=
  match n with O => mret NoValue | S n => r ← syscall_open junk name; if n is O then mret r else open_many junk name n end.

Definition open_and_exit (junk : entry) (n : nat) : X result :=
  in_fs (filesys_init true (λ _, 0));;
  in_fs (filesys_create junk [97; 98] 100);;
  e ← in_fs (filesys_open junk [97; 98]);
  s ← get; put (set_fds 2 (replicate 128 0) e s);;
  r ← open_many junk 1000 n;
  process_exit_files;; mret r.

Definition ex_fresh : sys := mk_sys (mk_fstate (replicate 16 (replicate 512 0)) ∅ [] ∅ (mk_bitmap 0 []) 0 5000 [])
  2 [] 0 (write ∅ 1000 [97; 98; 0]) [] [].

(** [syscall_open] does not look at the length of the table.  A program may open 126
    files, descriptors 2 to 127, and exit.  The file of the next one, descriptor 128, is
    stored over the member after the table, [exec_file]: the executable is never closed
    and [process_exit] closes that file a second time, after its memory was freed. *)
Theorem open_overruns_table :
  (∃ s, open_and_exit (replicate 20 0) 126 ex_fresh = Ok (Value 127, s) ∧ size s.(sfs).(files) = 1%nat) ∧
  open_and_exit (replicate 20 0) 127 ex_fresh = Err Fault.
Proof.
  split; [|vm_compute; reflexivity].
  assert (E : match open_and_exit (replicate 20 0) 126 ex_fresh with Ok (r, s) => r = Value 127 ∧ size s.(sfs).(files) = 1%nat | Err _ => False end).
  { vm_compute. done. }
  destruct (open_and_exit _ _ _) as [[r s]|]; [|done]. destruct E as [-> E]. by exists s.
Qed.

(** * Exiting *)

(** the files of the descriptors below [m] *)
Definition upto (tab : list Z) (m : Z) : list Z := take (Z.to_nat (m - 2)) (drop 2 tab).

(** every file of the process is open, no two of its descriptors share one, and no
    inode is removed *)
Record exit_ready (base : Z → Z) (s : sys) (m : Z) : Prop := {
  er_counts : counted base s.(sfs);
  er_num : 1 ≤ m ≤ 128;
  er_tab : length s.(fd_tab) = 128%nat;
  er_open g : g ∈ s.(sexec) :: upto s.(fd_tab) m → g ≠ 0 → is_Some (s.(sfs).(files) !! g);
  er_inj : NoDup (filter (λ g, g ≠ 0) (s.(sexec) :: upto s.(fd_tab) m));
  er_removed ip i : s.(sfs).(inodes) !! ip = Some i → i.(removed) = false
}.

Lemma upto_snoc tab m g : 2 ≤ m → tab !! Z.to_nat m = Some g → upto tab (m + 1) = upto tab m ++ [g].
Proof.
  intros Hm Hg. unfold upto. replace (Z.to_nat (m + 1 - 2)) with (S (Z.to_nat (m - 2))) by lia. apply take_S_r.
  rewrite lookup_drop. rewrite <- Hg. f_equal. lia.
Qed.

Lemma upto_small tab m : m ≤ 2 → upto tab m = [].
Proof. intros Hm. unfold upto. by replace (Z.to_nat (m - 2)) with 0%nat by lia. Qed.

(** closing one of the files, or none *)
Lemma close_step base (s : fstate) g : counted base s → (g ≠ 0 → is_Some (s.(files) !! g)) →
  (∀ ip i, s.(inodes) !! ip = Some i → i.(removed) = false) →
  ∃ s', file_close g s = Ok (tt, s') ∧ counted base s' ∧ (∀ h, s'.(files) !! h = if decide (h = g) then None else s.(files) !! h) ∧
    (∀ ip i, s'.(inodes) !! ip = Some i → i.(removed) = false).
Proof.
  intros C Hg Hr. destruct (decide (g = 0)) as [->|Hne].
  - exists s. split_and!; try done. intros h. case_decide; [subst h; apply (ct_null _ _ C)|done].
  - destruct (Hg Hne) as [x Hx]. destruct (ct_file _ _ C _ _ Hx) as [_ [i Hi]].
    destruct (close_ok base s g x i C Hx Hi (Hr _ _ Hi)) as (s' & E & C' & T & Hn & _). exists s'. split_and!; try done.
    + intros h. case_decide; [by subst|by apply (tc_files _ _ _ _ T)].
    + intros ip j Hj. destruct (decide (ip = finode x)) as [->|Hip].
      * rewrite (tc_same _ _ _ _ T _ _ Hi Hj). simpl. by apply (Hr _ _ Hi).
      * rewrite (tc_inodes _ _ _ _ T) in Hj by done. by apply (Hr _ _ Hj).
Qed.

(** the last descriptor's file is closed *)
Lemma close_last base s m g : 2 ≤ m → s.(fd_tab) !! Z.to_nat m = Some g → exit_ready base s (m + 1) →
  ∃ fs, file_close g s.(sfs) = Ok (tt, fs) ∧ (∀ h, fs.(files) !! h = if decide (h = g) then None else s.(sfs).(files) !! h) ∧
    ∀ n, exit_ready base (set_fds n s.(fd_tab) s.(sexec) (set_sfs fs s)) m.
Proof.
  intros Hm Hg [C Hn Ht Ho Hd Hr]. rewrite (upto_snoc _ _ _ Hm Hg) in Ho, Hd.
  destruct (close_step base (sfs s) g C) as (fs & E & C' & Hf & Hr'); [|done|].
  { apply Ho. apply elem_of_cons. right. apply elem_of_app. right. by apply list_elem_of_singleton. }
  exists fs. split; [done|]. split; [done|]. intros n. rewrite app_comm_cons, filter_app in Hd. apply NoDup_app in Hd as (Hd & Hdis & _).
  split; cbn [sfs fd_tab sexec set_fds set_sfs]; try done; [lia|].
  intros h Hh H0. rewrite Hf. case_decide as He.
  - exfalso. subst h. apply (Hdis g); [by apply list_elem_of_filter|]. apply list_elem_of_filter. split; [done|by apply list_elem_of_singleton].
  - apply Ho; [|done]. rewrite app_comm_cons. apply elem_of_app. by left.
Qed.

Lemma close_files_spec base n s : exit_ready base s (s.(fd_num) + 1) → (Z.to_nat s.(fd_num) ≤ n)%nat →
  ∃ s', close_files n s = Ok (tt, s') ∧ exit_ready base s' 2 ∧ s'.(sexec) = s.(sexec) ∧
    ∀ h, s'.(sfs).(files) !! h = if decide (h ∈ upto s.(fd_tab) (s.(fd_num) + 1)) then None else s.(sfs).(files) !! h.
Proof.
  revert s. induction n as [|n IH]; intros s R Hn; cbn [close_files]; rewrite (bind_ok get _ s s s) by done; rewrite Z.geb_leb;
    (destruct (Z.leb_spec 2 (fd_num s)) as [H2|H2]; [|exists s; pose proof R as [C ? ? Ho Hd ?]; rewrite upto_small in * by lia;
      split_and!; try done; split; rewrite ?upto_small by lia; try done; lia]); [lia|].
  destruct (er_num _ _ _ R) as [_ Hm]. pose proof (er_tab _ _ _ R) as Ht.
  destruct (lookup_lt_is_Some_2 (fd_tab s) (Z.to_nat (fd_num s)) ltac:(lia)) as [g Hg].
  assert (Hl : load_fd (fd_num s) s = Ok (g, s)).
  { unfold load_fd. rewrite (bind_ok get _ s s s) by done. destruct (Z.eqb_spec (fd_num s) 128); [lia|].
    destruct (Z.ltb_spec (fd_num s) 0); [lia|]. by rewrite Hg. }
  destruct (close_last base s (fd_num s) g H2 Hg R) as (fs & Ec & Hf & R').
  rewrite (bind_ok _ _ _ _ _ Hl), (bind_ok _ _ _ _ _ (in_fs_eq _ _ _ _ Ec)).
  erewrite bind_ok by reflexivity. erewrite bind_ok by reflexivity. cbn [fd_num fd_tab sexec set_sfs].
  destruct (IH (set_fds (fd_num s - 1) (fd_tab s) (sexec s) (set_sfs fs s))) as (s' & E & R2 & Hx & Hk);
    cbn [fd_num fd_tab sexec sfs set_sfs set_fds] in *; [rewrite Z.sub_add; apply R'|lia|].
  exists s'. split_and!; try done. intros h. rewrite Hk, Z.sub_add, Hf, (upto_snoc _ _ _ H2 Hg).
  repeat case_decide; try done; exfalso; rewrite elem_of_app, list_elem_of_singleton in *; tauto.
Qed.


(** one descriptor and the executable, on one inode *)
Definition ex_exiting : sys := mk_sys ex_shared 3 (<[2%nat := 20]> (replicate 128 0)) 21 ∅ [] [].

