(* ===== verification/Intq.v ===== *)
(** devices/intq.c: the queues between threads and interrupt handlers.

    A queue is used with interrupts off, so a thread's call runs without interruption
    until it blocks: in [lock_acquire], or in [wait].  A configuration is the queue,
    where the threads that are in a call stand, and what went in and out; a step is a
    call, what a thread that runs again does, or an interrupt handler's call. *)

From S2P Require Import Prelude.

Definition INTQ_BUFSIZE : Z := 64.

Record intq := mk_intq { qlock : option Z; not_full : option Z; not_empty : option Z; buf : list Z; qhead : Z; qtail : Z }.

Definition intq_init (q : intq) : intq := mk_intq None None None q.(buf) 0 0.

Definition next (pos : Z) : Z := (pos + 1) mod INTQ_BUFSIZE.
Definition intq_empty (q : intq) : bool := q.(qhead) =? q.(qtail).
Definition intq_full (q : intq) : bool := next q.(qhead) =? q.(qtail).

(** the member of the queue a thread waits at *)
Inductive waiter := NotFull | NotEmpty.

#[global] Instance waiter_eq_dec : EqDecision waiter.
Proof. solve_decision. Defined.

Inductive op := Get | Put (b : Z).

(** in [lock_acquire]; blocked in [wait]; unblocked there *)
Inductive tstate := Locking (o : op) | Sleeping (o : op) | Woken (o : op).

Record config := mk_config { queue : intq; threads : gmap Z tstate; sent : list Z; received : list Z }.

Abbreviation Q := (M config).

Definition set_queue (q : intq) (c : config) : config := mk_config q c.(threads) c.(sent) c.(received).
Definition set_thread (t : Z) (s : tstate) : Q unit := modify (λ c, mk_config c.(queue) (<[t := s]> c.(threads)) c.(sent) c.(received)).
Definition set_lock (l : option Z) (q : intq) : intq := mk_intq l q.(not_full) q.(not_empty) q.(buf) q.(qhead) q.(qtail).
Definition set_waiter (w : waiter) (t : option Z) (q : intq) : intq :=
  match w with
  | NotFull => mk_intq q.(qlock) t q.(not_empty) q.(buf) q.(qhead) q.(qtail)
  | NotEmpty => mk_intq q.(qlock) q.(not_full) t q.(buf) q.(qhead) q.(qtail)
  end.
Definition waiting (w : waiter) (q : intq) : option Z := match w with NotFull => q.(not_full) | NotEmpty => q.(not_empty) end.

(** the condition of a waiter *)
Definition ready (w : waiter) (q : intq) : bool := match w with NotFull => negb (intq_full q) | NotEmpty => negb (intq_empty q) end.

Definition waits_at (o : op) : waiter := match o with Get => NotEmpty | Put _ => NotFull end.

Definition wait (t : Z) (o : op) : Q unit :=
  c ← get;
  assert (negb (ready (waits_at o) c.(queue)));;
  put (set_queue (set_waiter (waits_at o) (Some t) c.(queue)) c);;
  set_thread t (Sleeping o).

(** [thread_unblock] asserts that the thread is blocked *)
Definition unblock (t : Z) : Q unit :=
  c ← get;
  match c.(threads) !! t with Some (Sleeping o) => set_thread t (Woken o) | _ => fail AssertFail end.

Definition signal (w : waiter) : Q unit :=
  c ← get;
  assert (ready w c.(queue));;
  match waiting w c.(queue) with
  | Some t => unblock t;; modify (λ c, set_queue (set_waiter w None c.(queue)) c)
  | None => mret tt
  end.

(** what follows the loop of [intq_getc] *)
Definition take_byte : Q unit :=
  c ← get;
  let q := c.(queue) in
  b ← lift_out (ofault (q.(buf) !! Z.to_nat q.(qtail)));
  put (mk_config (mk_intq q.(qlock) q.(not_full) q.(not_empty) q.(buf) q.(qhead) (next q.(qtail))) c.(threads) c.(sent) (c.(received) ++ [b]));;
  signal NotFull.

(** what follows the loop of [intq_putc] *)
Definition store_byte (b : Z) : Q unit :=
  c ← get;
  let q := c.(queue) in
  put (mk_config (mk_intq q.(qlock) q.(not_full) q.(not_empty) (<[Z.to_nat q.(qhead) := b]> q.(buf)) (next q.(qhead)) q.(qtail))
    c.(threads) (c.(sent) ++ [b]) c.(received));;
  signal NotEmpty.

Definition act (o : op) : Q unit := match o with Get => take_byte | Put b => store_byte b end.

Definition leave (t : Z) : Q unit := modify (λ c, mk_config c.(queue) (delete t c.(threads)) c.(sent) c.(received)).

(** the lock is free: [lock_acquire] returns *)
Definition locked_wait (t : Z) (o : op) : Q unit := modify (λ c, set_queue (set_lock (Some t) c.(queue)) c);; wait t o.

(** from the test of the loop on, until the call returns or the thread blocks *)
Definition attempt (t : Z) (o : op) : Q unit :=
  c ← get;
  if ready (waits_at o) c.(queue) then act o;; leave t
  else match c.(queue).(qlock) with Some _ => set_thread t (Locking o) | None => locked_wait t o end.

(** a thread that is in a call runs again *)
Definition resume (t : Z) : Q unit :=
  c ← get;
  match c.(threads) !! t with
  | Some (Locking o) => match c.(queue).(qlock) with Some _ => mret tt | None => locked_wait t o end
  | Some (Woken o) =>
      assert (bool_decide (c.(queue).(qlock) = Some t));;
      put (set_queue (set_lock None c.(queue)) c);; attempt t o
  | Some (Sleeping _) | None => mret tt
  end.

(** [intq_getc] and [intq_putc] in a thread *)
Definition call (t : Z) (o : op) : Q unit := c ← get; match c.(threads) !! t with None => attempt t o | Some _ => mret tt end.

(** the same in an interrupt handler: [ASSERT (!intr_context ())] *)
Definition intr_call (o : op) : Q unit := c ← get; assert (ready (waits_at o) c.(queue));; act o.

(** [input_putc] after the test of [input_full], as the handlers of the keyboard and
    the serial line use it *)
Definition offer (b : Z) : Q unit := c ← get; if intq_full c.(queue) then mret tt else intr_call (Put b).

(** the loop of the handlers that empties a queue *)
Definition drain : Q unit := c ← get; if intq_empty c.(queue) then mret tt else intr_call Get.

Inductive event := Call (t : Z) (o : op) | Resume (t : Z) | Offer (b : Z) | Drain.

Definition step (e : event) : Q unit :=
  match e with Call t o => call t o | Resume t => resume t | Offer b => offer b | Drain => drain end.

Fixpoint run (l : list event) : Q unit := match l with [] => mret tt | e :: l => step e;; run l end.

Definition start (b : list Z) : config := mk_config (intq_init (mk_intq None None None b 0 0)) ∅ [] [].

(** * The bytes of a queue *)

Definition contents (q : intq) : list Z :=
  (λ i, q.(buf) !!! Z.to_nat ((q.(qtail) + i) mod INTQ_BUFSIZE)) <$> seqZ 0 ((q.(qhead) - q.(qtail)) mod INTQ_BUFSIZE).

Record ring_ok (q : intq) : Prop := {
  rk_buf : length q.(buf) = 64%nat;
  rk_head : 0 ≤ q.(qhead) < 64;
  rk_tail : 0 ≤ q.(qtail) < 64
}.

Lemma next_range p : 0 ≤ next p < 64.
Proof. unfold next, INTQ_BUFSIZE. apply Z.mod_pos_bound. lia. Qed.

Lemma count_range q : 0 ≤ (qhead q - qtail q) mod 64 < 64.
Proof. apply Z.mod_pos_bound. lia. Qed.

(** the index after [p] is [p + 1], or 0 *)
Lemma next_cases p : 0 ≤ p < 64 → next p = if decide (p = 63) then 0 else p + 1.
Proof.
  intros Hp. unfold next, INTQ_BUFSIZE. case_decide; [by subst|]. apply Z.mod_small. lia.
Qed.

Lemma mod_cases a : -64 < a < 128 → a mod 64 = if decide (a < 0) then a + 64 else if decide (a < 64) then a else a - 64.
Proof.
  intros Ha. repeat case_decide.
  - symmetry. apply (Z.mod_unique_pos _ _ (-1)); lia.
  - apply Z.mod_small. lia.
  - symmetry. apply (Z.mod_unique_pos _ _ 1); lia.
Qed.

Lemma empty_count q : ring_ok q → intq_empty q = bool_decide ((qhead q - qtail q) mod 64 = 0).
Proof.
  intros [_ Hh Ht]. unfold intq_empty. rewrite mod_cases by lia.
  destruct (Z.eqb_spec (qhead q) (qtail q)); symmetry; [apply bool_decide_eq_true_2|apply bool_decide_eq_false_2]; repeat case_decide; lia.
Qed.

Lemma full_count q : ring_ok q → intq_full q = bool_decide ((qhead q - qtail q) mod 64 = 63).
Proof.
  intros [_ Hh Ht]. unfold intq_full. rewrite mod_cases, next_cases by lia.
  destruct (Z.eqb_spec (if decide (qhead q = 63) then 0 else qhead q + 1) (qtail q)) as [E|E]; symmetry;
    [apply bool_decide_eq_true_2|apply bool_decide_eq_false_2]; repeat case_decide; lia.
Qed.

(** ** What the two operations do to them *)

Lemma length_contents q : length (contents q) = Z.to_nat ((qhead q - qtail q) mod 64).
Proof. unfold contents. by rewrite length_fmap, length_seqZ. Qed.

Lemma contents_lookup q i : 0 ≤ i < (qhead q - qtail q) mod 64 →
  contents q !! Z.to_nat i = Some (buf q !!! Z.to_nat ((qtail q + i) mod 64)).
Proof.
  intros Hi. unfold contents. rewrite list_lookup_fmap, lookup_seqZ_lt by (change INTQ_BUFSIZE with 64; lia).
  cbn [fmap option_fmap option_map]. by rewrite Z.add_0_l, Z2Nat.id by lia.
Qed.

Lemma contents_take q : ring_ok q → intq_empty q = false →
  let q' := mk_intq q.(qlock) q.(not_full) q.(not_empty) q.(buf) q.(qhead) (next q.(qtail)) in
  ring_ok q' ∧ intq_full q' = false ∧ ∃ b, q.(buf) !! Z.to_nat q.(qtail) = Some b ∧ contents q = b :: contents q'.
Proof.
  intros R He q'. pose proof R as [Hb Hh Ht]. rewrite empty_count in He by done. apply bool_decide_eq_false in He.
  assert (R' : ring_ok q') by (split; simpl; [done|done|apply next_range]).
  pose proof (count_range q). pose proof (next_cases (qtail q) Ht) as En.
  assert (Ec : (qhead q' - qtail q') mod 64 = (qhead q - qtail q) mod 64 - 1).
  { simpl. rewrite En. rewrite mod_cases in He, H by lia. rewrite !mod_cases by (case_decide; lia). repeat case_decide; lia. }
  split; [done|]. split; [rewrite full_count by done; apply bool_decide_eq_false_2; lia|].
  destruct (lookup_lt_is_Some_2 (buf q) (Z.to_nat (qtail q)) ltac:(lia)) as [b Hb']. exists b. split; [done|].
  apply list_eq. intros [|k].
  - change 0%nat with (Z.to_nat 0). rewrite contents_lookup by lia. rewrite Z.add_0_r, Z.mod_small by lia.
    change ((b :: contents q') !! Z.to_nat 0) with (Some b). f_equal. by apply list_lookup_total_correct.
  - change ((b :: contents q') !! S k) with (contents q' !! k). replace (S k) with (Z.to_nat (Z.of_nat k + 1)) by lia.
    destruct (decide (Z.of_nat k + 1 < (qhead q - qtail q) mod 64)).
    + rewrite contents_lookup by lia. replace k with (Z.to_nat (Z.of_nat k)) at 2 by lia. rewrite contents_lookup by lia. f_equal.
      simpl. rewrite En. f_equal. f_equal. rewrite !mod_cases by (try case_decide; lia). repeat case_decide; lia.
    + rewrite !lookup_ge_None_2; [done|rewrite length_contents; lia|rewrite length_contents; lia].
Qed.

Lemma contents_put q b : ring_ok q → intq_full q = false →
  let q' := mk_intq q.(qlock) q.(not_full) q.(not_empty) (<[Z.to_nat q.(qhead) := b]> q.(buf)) (next q.(qhead)) q.(qtail) in
  ring_ok q' ∧ intq_empty q' = false ∧ contents q' = contents q ++ [b].
Proof.
  intros R He q'. pose proof R as [Hb Hh Ht]. rewrite full_count in He by done. apply bool_decide_eq_false in He.
  assert (R' : ring_ok q') by (split; simpl; [by rewrite length_insert|apply next_range|done]).
  pose proof (count_range q). pose proof (next_cases (qhead q) Hh) as En.
  assert (Ec : (qhead q' - qtail q') mod 64 = (qhead q - qtail q) mod 64 + 1).
  { simpl. rewrite En. rewrite mod_cases in He, H by lia. rewrite !mod_cases by (case_decide; lia). repeat case_decide; lia. }
  split; [done|]. split; [rewrite empty_count by done; apply bool_decide_eq_false_2; lia|].
  apply list_eq. intros k. destruct (decide (Z.of_nat k < (qhead q - qtail q) mod 64 + 1)).
  2: { rewrite !lookup_ge_None_2; [done|rewrite length_app, length_contents; simpl; lia|rewrite length_contents; lia]. }
  replace k with (Z.to_nat (Z.of_nat k)) by lia. rewrite contents_lookup by lia. simpl.
  destruct (decide (Z.of_nat k = (qhead q - qtail q) mod 64)) as [Hk|Hk].
  - rewrite lookup_app_r by (rewrite length_contents; lia). rewrite length_contents.
    replace (Z.to_nat (Z.of_nat k) - _)%nat with 0%nat by lia. rewrite Hk, Zplus_mod_idemp_r.
    replace (qtail q + (qhead q - qtail q)) with (qhead q) by lia. rewrite Z.mod_small by lia. by rewrite list_lookup_total_insert_eq by lia.
  - rewrite lookup_app_l by (rewrite length_contents; lia). rewrite contents_lookup by lia. f_equal.
    rewrite list_lookup_total_insert_ne; [done|]. intros E. apply Hk. revert E.
    pose proof (Z.mod_pos_bound (qtail q + Z.of_nat k) 64 ltac:(lia)). intros E. apply Z2Nat.inj in E; [|lia|lia].
    rewrite !mod_cases in * by lia. repeat case_decide; lia.
Qed.

(** * The invariant *)

Record inv (c : config) : Prop := {
  iv_ring : ring_ok c.(queue);
  iv_fifo : c.(sent) = c.(received) ++ contents c.(queue);
  iv_wait w t : waiting w c.(queue) = Some t → c.(queue).(qlock) = Some t ∧ ready w c.(queue) = false ∧
    ∃ o, c.(threads) !! t = Some (Sleeping o) ∧ waits_at o = w;
  iv_sleep t o : c.(threads) !! t = Some (Sleeping o) → waiting (waits_at o) c.(queue) = Some t;
  iv_woken t o : c.(threads) !! t = Some (Woken o) → c.(queue).(qlock) = Some t;
  iv_lock t : c.(queue).(qlock) = Some t → ∃ o, c.(threads) !! t = Some (Sleeping o) ∨ c.(threads) !! t = Some (Woken o)
}.

Definition other (w : waiter) : waiter := match w with NotFull => NotEmpty | NotEmpty => NotFull end.

Lemma waiting_set w w' t q : waiting w (set_waiter w' t q) = if decide (w = w') then t else waiting w q.
Proof. by destruct w, w'. Qed.

(** [signal], when its condition holds and what the invariant says of the waiter *)
Lemma signal_spec w c : ready w c.(queue) = true →
  (∀ t, waiting w c.(queue) = Some t → ∃ o, c.(threads) !! t = Some (Sleeping o)) →
  ∃ th, signal w c = Ok (tt, mk_config (set_waiter w None c.(queue)) th c.(sent) c.(received)) ∧
    th = match waiting w c.(queue) with
         | Some t => match c.(threads) !! t with Some (Sleeping o) => <[t := Woken o]> c.(threads) | _ => c.(threads) end
         | None => c.(threads) end.
Proof.
  intros Hr Hw. unfold signal. rewrite (bind_ok get _ c c c) by done. rewrite assert_bind by done.
  destruct (waiting w (queue c)) as [t|] eqn:Et.
  - destruct (Hw t eq_refl) as [o Ho]. eexists. split; [|reflexivity]. rewrite Ho. unfold unblock.
    erewrite bind_ok; [|rewrite (bind_ok get _ c c c) by done; rewrite Ho; reflexivity]. reflexivity.
  - exists c.(threads). split; [|done]. unfold mret, M_ret. do 2 f_equal. destruct c as [q th s r]. simpl in *.
    destruct w, q; simpl in *; by subst.
Qed.

(** the threads after the waiter at [w] is woken *)
Definition wake (w : waiter) (c : config) : gmap Z tstate :=
  match waiting w c.(queue) with
  | Some t => match c.(threads) !! t with Some (Sleeping o) => <[t := Woken o]> c.(threads) | _ => c.(threads) end
  | None => c.(threads)
  end.

(** a byte goes in or out, and nobody waits after that *)
Record acted (o : op) (c c' : config) : Prop := {
  ac_ring : ring_ok c'.(queue);
  ac_fifo : c'.(sent) = c'.(received) ++ contents c'.(queue);
  ac_lock : c'.(queue).(qlock) = c.(queue).(qlock);
  ac_waiters w : waiting w c'.(queue) = None;
  ac_threads : c'.(threads) = wake (other (waits_at o)) c;
  ac_io : match o with
          | Get => c'.(sent) = c.(sent) ∧ ∃ b, c'.(received) = c.(received) ++ [b]
          | Put b => c'.(sent) = c.(sent) ++ [b] ∧ c'.(received) = c.(received)
          end
}.

Lemma act_spec o c : ring_ok c.(queue) → c.(sent) = c.(received) ++ contents c.(queue) →
  (∀ w t, waiting w c.(queue) = Some t → ready w c.(queue) = false ∧ ∃ p, c.(threads) !! t = Some (Sleeping p)) →
  ready (waits_at o) c.(queue) = true → ∃ c', act o c = Ok (tt, c') ∧ acted o c c'.
Proof.
  intros R Hf Hw Hr. assert (Hn : waiting (waits_at o) (queue c) = None).
  { destruct (waiting _ _) eqn:E; [|done]. destruct (Hw _ _ E) as [E' _]. congruence. }
  destruct o as [|b]; simpl in Hr, Hn; apply negb_true_iff in Hr; cbn [act].
  - destruct (contents_take _ R Hr) as (R' & Hfull & b & Hb & Hc). unfold take_byte. rewrite (bind_ok get _ c c c) by done. cbv zeta.
    rewrite (bind_ok (lift_out _) _ c b c) by (apply lift_out_eq; by rewrite Hb). erewrite bind_ok by reflexivity.
    match goal with |- context [signal NotFull ?x] => destruct (signal_spec NotFull x) as (th & E & Eth) end;
      [by apply negb_true_iff|intros t Ht; apply (Hw NotFull t), Ht|].
    rewrite E. eexists. split; [done|]. split; simpl; [by destruct R'; split| |done|by intros []|exact Eth|by eauto].
    rewrite Hf, Hc. by rewrite <- app_assoc.
  - destruct (contents_put _ b R Hr) as (R' & He & Hc). unfold store_byte. rewrite (bind_ok get _ c c c) by done. cbv zeta.
    erewrite bind_ok by reflexivity.
    match goal with |- context [signal NotEmpty ?x] => destruct (signal_spec NotEmpty x) as (th & E & Eth) end;
      [by apply negb_true_iff|intros t Ht; apply (Hw NotEmpty t), Ht|].
    rewrite E. eexists. split; [done|]. split; simpl; [by destruct R'; split| |done|by intros []|exact Eth|done].
    rewrite Hf, <- app_assoc. f_equal. symmetry. exact Hc.
Qed.

(** the threads of the invariant, given that nobody waits *)
Lemma inv_quiet c : ring_ok c.(queue) → c.(sent) = c.(received) ++ contents c.(queue) → (∀ w, waiting w c.(queue) = None) →
  (∀ t o, c.(threads) !! t ≠ Some (Sleeping o)) → (∀ t o, c.(threads) !! t = Some (Woken o) → c.(queue).(qlock) = Some t) →
  (∀ t, c.(queue).(qlock) = Some t → ∃ o, c.(threads) !! t = Some (Woken o)) → inv c.
Proof.
  intros R Hf Hw Hs Hk Hl. split; try done.
  - intros w t E. by rewrite Hw in E.
  - intros t o E. by destruct (Hs t o).
  - intros t E. destruct (Hl t E) as [o Ho]. exists o. by right.
Qed.

(** after an operation the only sleeper is awake *)
Lemma acted_inv o c c' : inv c → ready (waits_at o) c.(queue) = true → acted o c c' → inv c'.
Proof.
  intros I Hr [R Hf Hl Hw Ht _].
  assert (Hn : waiting (waits_at o) (queue c) = None).
  { destruct (waiting _ _) eqn:E; [|done]. destruct (iv_wait _ I _ _ E) as (_ & E' & _). congruence. }
  assert (Hsl : ∀ t p, threads c !! t = Some (Sleeping p) → waiting (other (waits_at o)) (queue c) = Some t).
  { intros t p Hp. pose proof (iv_sleep _ I _ _ Hp) as E. destruct o, p; simpl in *; congruence. }
  assert (Hth : ∀ t s, threads c' !! t = Some s → threads c !! t = Some s ∧ (∀ p, s ≠ Sleeping p) ∨ ∃ p, s = Woken p ∧ threads c !! t = Some (Sleeping p)).
  { intros t s. rewrite Ht. unfold wake. destruct (waiting (other _) _) as [u|] eqn:Eu.
    - destruct (iv_wait _ I _ _ Eu) as (_ & _ & p & Hp & _). rewrite Hp. destruct (decide (u = t)) as [->|Hne].
      + rewrite lookup_insert_eq. intros [= <-]. right. by exists p.
      + rewrite lookup_insert_ne by done. intros Hs. left. split; [done|]. intros p' ->. apply Hsl in Hs. congruence.
    - intros Hs. left. split; [done|]. intros p ->. apply Hsl in Hs. congruence. }
  apply inv_quiet; try done.
  - intros t p Hp. destruct (Hth _ _ Hp) as [[_ H]|(p' & H & _)]; [by destruct (H p)|done].
  - intros t p Hp. rewrite Hl. destruct (Hth _ _ Hp) as [[H _]|(p' & _ & H)]; [exact (iv_woken _ I _ _ H)|].
    apply (iv_wait _ I (waits_at p')). by apply (iv_sleep _ I).
  - intros t E. rewrite Hl in E. rewrite Ht. unfold wake. destruct (iv_lock _ I _ E) as [p [Hp|Hp]].
    + rewrite (Hsl _ _ Hp), Hp. exists p. by rewrite lookup_insert_eq.
    + exists p. destruct (waiting (other _) _) as [u|] eqn:Eu; [|done]. destruct (iv_wait _ I _ _ Eu) as (El & _ & p' & Hp' & _).
      rewrite E in El. injection El as <-. congruence.
Qed.

(** a thread goes to sleep: the lock is free, the condition does not hold *)
Lemma sleep_spec t o c : ring_ok c.(queue) → c.(sent) = c.(received) ++ contents c.(queue) → (∀ w, waiting w c.(queue) = None) →
  (∀ u p, u ≠ t → c.(threads) !! u ≠ Some (Sleeping p) ∧ c.(threads) !! u ≠ Some (Woken p)) → ready (waits_at o) c.(queue) = false →
  ∃ c', locked_wait t o c = Ok (tt, c') ∧ inv c' ∧ c'.(threads) = <[t := Sleeping o]> c.(threads).
Proof.
  intros R Hf Hw Ht Hr. unfold locked_wait. erewrite bind_ok by reflexivity. unfold wait. erewrite bind_ok by reflexivity. cbv beta.
  rewrite assert_bind by (destruct o; simpl in *; unfold intq_empty, intq_full in *; simpl; by rewrite Hr).
  erewrite bind_ok by reflexivity. eexists. split; [reflexivity|]. split; [|reflexivity].
  assert (Hq : ∀ u p, <[t:=Sleeping o]> (threads c) !! u = Some (Sleeping p) → u = t ∧ p = o).
  { intros u p Hu. destruct (decide (u = t)) as [->|Hne]; [rewrite lookup_insert_eq in Hu; by injection Hu as <-|].
    rewrite lookup_insert_ne in Hu by done. by destruct (proj1 (Ht u p Hne)). }
  split; simpl.
  - destruct R, o; by split.
  - rewrite Hf. by destruct o.
  - intros w u. rewrite waiting_set. case_decide as Hd.
    + intros [= <-]. split; [by destruct o|]. split; [|exists o; by rewrite lookup_insert_eq]. subst w.
      destruct o; simpl in *; unfold intq_empty, intq_full in *; simpl; done.
    + intros E. assert (waiting w (queue c) = Some u) by (by destruct w). by rewrite Hw in H.
  - intros u p Hu. destruct (Hq u p Hu) as [-> ->]. rewrite waiting_set. by rewrite decide_True.
  - intros u p Hu. destruct (decide (u = t)) as [->|Hne]; [by rewrite lookup_insert_eq in Hu|].
    rewrite lookup_insert_ne in Hu by done. by destruct (proj2 (Ht u p Hne)).
  - intros u Hu. assert (u = t) as -> by (destruct o; simpl in Hu; congruence). exists o. left. by rewrite lookup_insert_eq.
Qed.

(** [inv] with the lock free: nobody sleeps *)
Lemma inv_free c : inv c → c.(queue).(qlock) = None →
  (∀ w, waiting w c.(queue) = None) ∧ ∀ u p, c.(threads) !! u ≠ Some (Sleeping p) ∧ c.(threads) !! u ≠ Some (Woken p).
Proof.
  intros I Hl. split.
  - intros w. destruct (waiting w _) eqn:E; [|done]. destruct (iv_wait _ I _ _ E) as [E' _]. congruence.
  - intros u p. split; intros E; [apply (iv_sleep _ I), (iv_wait _ I) in E as [E _]|apply (iv_woken _ I) in E]; congruence.
Qed.

(** a thread outside of the queue comes or goes *)
Lemma inv_locking t o c : inv c → (∀ p, c.(threads) !! t ≠ Some (Sleeping p) ∧ c.(threads) !! t ≠ Some (Woken p)) →
  inv (mk_config c.(queue) (<[t := Locking o]> c.(threads)) c.(sent) c.(received)) ∧
  inv (mk_config c.(queue) (delete t c.(threads)) c.(sent) c.(received)).
Proof.
  intros I Hn. assert (Hne : ∀ u p, threads c !! u = Some (Sleeping p) ∨ threads c !! u = Some (Woken p) → u ≠ t).
  { intros u p Hu ->. destruct (Hn p). tauto. }
  split; split; simpl; try apply I.
  all: try (intros w u E; destruct (iv_wait _ I _ _ E) as (H1 & H2 & p & H3 & H4); split; [done|]; split; [done|]; exists p;
    split; [|done]; rewrite ?lookup_insert_ne, ?lookup_delete_ne by (intros ->; by apply (Hne u p); auto); done).
  all: try (intros u p E; first [apply lookup_insert_Some in E as [[_ E]|[_ E]]; [discriminate E|]|apply lookup_delete_Some in E as [_ E]];
    first [by apply (iv_sleep _ I)|by apply (iv_woken _ I) in E]).
  all: intros u E; destruct (iv_lock _ I _ E) as [p Hp]; exists p; rewrite ?lookup_insert_ne, ?lookup_delete_ne by (intros ->; by apply (Hne u p)); done.
Qed.

(** ** Steps *)

(** a thread that waited for the lock gets it when its condition has come true *)
Definition racy (e : event) (c : config) : Prop := ∃ t o, e = Resume t ∧ c.(threads) !! t = Some (Locking o) ∧
  c.(queue).(qlock) = None ∧ ready (waits_at o) c.(queue) = true.

Lemma act_inv o c : inv c → ready (waits_at o) c.(queue) = true → ∃ c', act o c = Ok (tt, c') ∧ inv c' ∧ acted o c c'.
Proof.
  intros I Hr. destruct (act_spec o c (iv_ring _ I) (iv_fifo _ I)) as (c' & E & A); [|done|].
  - intros w t Hw. destruct (iv_wait _ I _ _ Hw) as (_ & H1 & p & H2 & _). eauto.
  - exists c'. split; [done|]. split; [by apply (acted_inv o c)|done].
Qed.

(** where the threads may stand after a step of [t] *)
Definition moved (t : Z) (c c' : config) : Prop := ∀ u s, c'.(threads) !! u = Some s →
  c.(threads) !! u = Some s ∨ (∃ p, s = Woken p ∧ is_Some (c.(threads) !! u)) ∨ (u = t ∧ ∃ p, s = Sleeping p) ∨
  (u = t ∧ c.(threads) !! t = None ∧ ∃ v, c.(queue).(qlock) = Some v).

Lemma acted_moved t o c c' : acted o c c' → moved t c c'.
Proof.
  intros A u s. rewrite (ac_threads _ _ _ A). unfold wake. destruct (waiting _ _) as [v|]; [|by left].
  destruct (threads c !! v) as [[p|p|p]|] eqn:Ev; try by left.
  intros [[<- <-]|[_ H]]%lookup_insert_Some; [right; left; by rewrite Ev; eauto|by left].
Qed.

Lemma sleep_moved t o c c' : c'.(threads) = <[t := Sleeping o]> c.(threads) → moved t c c'.
Proof. intros E u s. rewrite E. intros [[<- <-]|[_ H]]%lookup_insert_Some; [right; right; left; eauto|by left]. Qed.

Lemma call_spec t o c : inv c → ∃ c', call t o c = Ok (tt, c') ∧ inv c' ∧ moved t c c'.
Proof.
  intros I. unfold call. rewrite (bind_ok get _ c c c) by done. destruct (threads c !! t) eqn:Et; [exists c; split; [done|]; split; [done|by left]|].
  unfold attempt. rewrite (bind_ok get _ c c c) by done. destruct (ready _ _) eqn:Er.
  - destruct (act_inv o c I Er) as (c' & E & I' & A). rewrite (bind_ok _ _ _ _ _ E). eexists. split; [reflexivity|]. split.
    + apply (inv_locking t Get); [done|]. intros p. rewrite (ac_threads _ _ _ A). unfold wake.
      destruct (waiting (other _) _) as [u|] eqn:Eu; [|rewrite Et; done]. destruct (iv_wait _ I _ _ Eu) as (_ & _ & p' & Hp & _).
      rewrite Hp, lookup_insert_ne by congruence. by rewrite Et.
    + intros u s Hs. simpl in Hs. apply lookup_delete_Some in Hs as [_ Hs]. by apply (acted_moved t o c c').
  - destruct (qlock (queue c)) as [u|] eqn:El.
    + eexists. split; [reflexivity|]. split; [apply inv_locking; [done|]; by rewrite Et|].
      intros v s Hs. simpl in Hs. apply lookup_insert_Some in Hs as [[<- <-]|[_ Hs]]; [right; right; right; rewrite El; eauto|by left].
    + destruct (inv_free c I El) as [Hw Hn]. destruct (sleep_spec t o c) as (c' & E & I' & Ht);
        [apply I|apply I|done|intros u p _; apply Hn|done|]. exists c'. split; [done|]. split; [done|by apply (sleep_moved t o)].
Qed.

Lemma woken_spec t o c : inv c → c.(threads) !! t = Some (Woken o) → ∃ c', resume t c = Ok (tt, c') ∧ inv c' ∧ moved t c c'.
Proof.
  intros I Et. pose proof (iv_woken _ I _ _ Et) as El. unfold resume. rewrite (bind_ok get _ c c c) by done. rewrite Et.
  rewrite assert_bind by (by apply bool_decide_eq_true_2). erewrite bind_ok by reflexivity.
  assert (Hw : ∀ w, waiting w (queue c) = None).
  { intros w. destruct (waiting w _) as [u|] eqn:E; [|done]. destruct (iv_wait _ I _ _ E) as (E1 & _ & p & E2 & _).
    assert (u = t) as -> by congruence. congruence. }
  assert (Hn : ∀ u p, u ≠ t → threads c !! u ≠ Some (Sleeping p) ∧ threads c !! u ≠ Some (Woken p)).
  { intros u p Hne. split; intros E; [apply (iv_sleep _ I) in E; by rewrite Hw in E|apply (iv_woken _ I) in E; congruence]. }
  set (c1 := set_queue (set_lock None (queue c)) c). assert (R1 : ring_ok (queue c1)) by (destruct (iv_ring _ I); by split).
  assert (Hf1 : sent c1 = received c1 ++ contents (queue c1)) by apply (iv_fifo _ I).
  assert (Hw1 : ∀ w, waiting w (queue c1) = None) by (intros w; rewrite <- (Hw w); by destruct w).
  unfold attempt. rewrite (bind_ok get _ c1 c1 c1) by done. destruct (ready (waits_at o) (queue c1)) eqn:Er.
  - destruct (act_spec o c1 R1 Hf1) as (c' & E & [R' Hf' Hl' Hw' Ht' _]); [intros w u; by rewrite Hw1|done|].
    rewrite (bind_ok _ _ _ _ _ E). eexists. split; [reflexivity|]. unfold wake in Ht'. rewrite Hw1 in Ht'. split.
    2: { intros u s Hs. simpl in Hs. apply lookup_delete_Some in Hs as [_ Hs]. rewrite Ht' in Hs. by left. }
    apply inv_quiet; simpl; [exact R'|exact Hf'|exact Hw'| | |].
    + intros u p [Hne E']%lookup_delete_Some. rewrite Ht' in E'. by destruct (Hn u p ltac:(done)).
    + intros u p [Hne E']%lookup_delete_Some. rewrite Ht' in E'. by destruct (Hn u p ltac:(done)).
    + intros u E'. by rewrite Hl' in E'.
  - destruct (sleep_spec t o c1 R1 Hf1 Hw1 Hn Er) as (c' & E & I' & Ht). exists c'. split; [done|]. split; [done|].
    intros u s Hs. rewrite Ht in Hs. apply lookup_insert_Some in Hs as [[<- <-]|[_ Hs]]; [right; right; left; eauto|by left].
Qed.

(** the thread of an event *)
Definition actor (e : event) : option Z := match e with Call t _ | Resume t => Some t | _ => None end.

Lemma step_spec e c : inv c →
  (∃ c', step e c = Ok (tt, c') ∧ inv c' ∧ ∀ t, from_option (λ u, u = t) True (actor e) → moved t c c') ∨ (racy e c ∧ step e c = Err AssertFail).
Proof.
  intros I. assert (Hst : ∃ c', Ok (tt, c) = Ok (tt, c') ∧ inv c' ∧ ∀ t, from_option (λ u, u = t) True (actor e) → moved t c c')
    by (exists c; split; [done|]; split; [done|]; by left).
  destruct e as [t o|t|b|]; cbn [step actor from_option] in *.
  - left. destruct (call_spec t o c I) as (c' & ? & ? & ?). exists c'. split; [done|]. split; [done|]. by intros ? <-.
  - unfold resume. rewrite (bind_ok get _ c c c) by done. destruct (threads c !! t) as [[o|o|o]|] eqn:Et; [|by left|left|by left].
    + destruct (qlock (queue c)) as [u|] eqn:El; [by left|]. destruct (ready (waits_at o) (queue c)) eqn:Er.
      * right. split; [by exists t, o|]. unfold locked_wait. erewrite bind_ok by reflexivity. unfold wait. erewrite bind_ok by reflexivity.
        apply bind_err. destruct o; simpl in *; unfold intq_empty, intq_full in *; simpl; by rewrite Er.
      * left. destruct (inv_free c I El) as [Hw Hn]. destruct (sleep_spec t o c) as (c' & E & I' & Ht);
          [apply I|apply I|done|intros u p _; apply Hn|done|]. exists c'. split; [done|]. split; [done|]. intros ? <-. by apply (sleep_moved t o).
    + destruct (woken_spec t o c I Et) as (c' & E & ? & ?). unfold resume in E. rewrite (bind_ok get _ c c c) in E by done. rewrite Et in E.
      exists c'. split; [done|]. split; [done|]. by intros ? <-.
  - left. unfold offer. rewrite (bind_ok get _ c c c) by done. destruct (intq_full (queue c)) eqn:Ef; [done|].
    unfold intr_call. rewrite (bind_ok get _ c c c) by done. rewrite assert_bind by (simpl; by rewrite Ef).
    destruct (act_inv (Put b) c I ltac:(simpl; by rewrite Ef)) as (c' & E & I' & A). exists c'. split; [done|]. split; [done|].
    intros t _. by apply (acted_moved t (Put b)).
  - left. unfold drain. rewrite (bind_ok get _ c c c) by done. destruct (intq_empty (queue c)) eqn:Ef; [done|].
    unfold intr_call. rewrite (bind_ok get _ c c c) by done. rewrite assert_bind by (simpl; by rewrite Ef).
    destruct (act_inv Get c I ltac:(simpl; by rewrite Ef)) as (c' & E & I' & A). exists c'. split; [done|]. split; [done|].
    intros t _. by apply (acted_moved t Get).
Qed.

Lemma queue_start_inv b : length b = 64%nat → inv (start b).
Proof. intros Hb. apply inv_quiet; [split; simpl; done || lia|done|by intros []|done|done|done]. Qed.

(** * Theorems *)

Lemma run_inv l c : inv c →
  match run l c with
  | Ok (_, c') => inv c'
  | Err e => e = AssertFail ∧ ∃ l1 e' l2 c1, l = l1 ++ e' :: l2 ∧ run l1 c = Ok (tt, c1) ∧ racy e' c1
  end.
Proof.
  revert c. induction l as [|e l IH]; intros c I; [done|]. cbn [run]. destruct (step_spec e c I) as [(c' & E & I' & _)|[Hr E]].
  - rewrite (bind_ok _ _ _ _ _ E). specialize (IH c' I'). destruct (run l c') as [[[] c2]|x]; [done|].
    destruct IH as (-> & l1 & e' & l2 & c1 & -> & E1 & Hr). split; [done|]. exists (e :: l1), e', l2, c1.
    split; [done|]. split; [|done]. cbn [run]. by rewrite (bind_ok _ _ _ _ _ E).
  - rewrite (bind_err _ _ _ _ E). split; [done|]. by exists [], e, l, c.
Qed.

(** C15. Whatever threads and interrupt handlers do with a queue, in any order: the bytes
    come out in the order they went in, none is lost or made up, and at most 63 are in
    it.  No wakeup is lost: a thread sleeps only while its condition does not hold.  An
    assertion fails only when a thread that had to wait for the queue's lock gets it
    after its condition has come true. *)
Theorem intq_fifo b l : length b = 64%nat →
  match run l (start b) with
  | Ok (_, c) => c.(sent) = c.(received) ++ contents c.(queue) ∧ (length (contents c.(queue)) ≤ 63)%nat ∧
      ∀ t o, c.(threads) !! t = Some (Sleeping o) → ready (waits_at o) c.(queue) = false
  | Err e => e = AssertFail ∧ ∃ l1 e' l2 c, l = l1 ++ e' :: l2 ∧ run l1 (start b) = Ok (tt, c) ∧ racy e' c
  end.
Proof.
  intros Hb. pose proof (run_inv l (start b) (queue_start_inv b Hb)) as H. destruct (run l (start b)) as [[[] c]|e]; [|done].
  split; [apply H|]. split; [rewrite length_contents; pose proof (count_range (queue c)); lia|].
  intros t o Ht. by apply (iv_wait _ H _ t), (iv_sleep _ H).
Qed.

(** a reader sleeps, two bytes arrive, it takes the first *)
Lemma intq_fifo_witness :
  match run [Call 1 Get; Offer 65; Offer 66; Resume 1] (start (replicate 64 0)) with
  | Ok (_, c) => c.(sent) = [65; 66] ∧ c.(received) = [65] ∧ c.(sent) = c.(received) ++ contents c.(queue)
  | Err _ => False
  end.
Proof.
  pose proof (intq_fifo (replicate 64 0) [Call 1 Get; Offer 65; Offer 66; Resume 1] eq_refl) as H.
  vm_compute in H |- *. destruct H as (H & _). split; [reflexivity|]. split; reflexivity.
Defined.

(** only [t] is in a call, and it does not wait for the lock *)
Definition only (t : Z) (c : config) : Prop := ∀ u s, c.(threads) !! u = Some s → u = t ∧ ∀ o, s ≠ Locking o.

Lemma only_step t c c' : inv c → only t c → moved t c c' → only t c'.
Proof.
  intros I Ho Hm u s Hs. destruct (Hm u s Hs) as [H|[(p & -> & [s' H])|[(-> & p & ->)|(-> & Hn & v & Hv)]]].
  - by apply Ho.
  - split; [by apply (Ho u s')|done].
  - done.
  - destruct (iv_lock _ I _ Hv) as [p Hp]. assert (v = t) as -> by (destruct Hp as [Hp|Hp]; by destruct (Ho _ _ Hp)). rewrite Hn in Hp. by destruct Hp.
Qed.

(** With one thread at the queue, beside the interrupt handlers, no assertion fails. *)
Theorem intq_single_user t b l : length b = 64%nat → (∀ e u, e ∈ l → actor e = Some u → u = t) →
  ∃ c, run l (start b) = Ok (tt, c) ∧ only t c.
Proof.
  intros Hb. assert (Ho : only t (start b)) by done. pose proof (queue_start_inv b Hb) as I. revert I Ho. generalize (start b).
  induction l as [|e l IH]; intros c I Ho Hl; [by exists c|]. cbn [run].
  destruct (step_spec e c I) as [(c' & E & I' & Hm)|[(u & o & -> & Hu & _) _]].
  - rewrite (bind_ok _ _ _ _ _ E). apply IH; [done| |intros; eapply Hl; [by right|done]]. apply (only_step t c); [done|done|]. apply Hm.
    destruct (actor e) eqn:Ea; [|done]. simpl. by apply (Hl e); [left|].
  - exfalso. by apply (proj2 (Ho _ _ Hu) o).
Qed.

Lemma intq_single_user_witness : ∃ c, run [Call 1 Get; Offer 65; Resume 1; Call 1 Get] (start (replicate 64 0)) = Ok (tt, c) ∧ only 1 c.
Proof.
  apply (intq_single_user 1); [reflexivity|]. intros e u. rewrite !elem_of_cons, elem_of_nil.
  intros [-> |[-> |[-> |[-> |[]]]]] E; cbn in E; congruence.
Defined.

(** Two threads read from the console: both wait, one in [wait] and one for the lock.
    Two bytes arrive before the first runs again, as in one serial interrupt.  The first
    takes a byte; the second gets the lock while the other byte is still there, and the
    assertion of [wait] that the queue is empty fails: the kernel stops. *)
Theorem intq_two_readers_panic x y :
  run [Call 1 Get; Call 2 Get; Offer x; Offer y; Resume 1; Resume 2] (start (replicate 64 0)) = Err AssertFail.
Proof. vm_compute. reflexivity. Qed.
