(* ===== verification/Kbd.v ===== *)
(** devices/kbd.c: the keyboard.

    An interrupt brings one scancode, of one or two bytes.  The state is that of the
    shift keys and the count of keys; characters go to the input queue (Intq.v). *)

From Stdlib Require Import Ascii String.
From S2P Require Import Prelude CStdlib Stdio Intq.

Record kbd := mk_kbd { left_shift : bool; right_shift : bool; left_alt : bool; right_alt : bool; left_ctrl : bool; right_ctrl : bool;
  caps_lock : bool; key_cnt : Z }.

Record keymap := mk_keymap { first_scancode : Z; kchars : list Z }.

Definition invariant_keymap : list keymap :=
  [mk_keymap 0x01 [27]; mk_keymap 0x0e [8]; mk_keymap 0x0f (9 :: chars "QWERTYUIOP"); mk_keymap 0x1c [13]; mk_keymap 0x1e (chars "ASDFGHJKL");
   mk_keymap 0x2c (chars "ZXCVBNM"); mk_keymap 0x37 (chars "*"); mk_keymap 0x39 (chars " "); mk_keymap 0x53 [127]].

Definition unshifted_keymap : list keymap :=
  [mk_keymap 0x02 (chars "1234567890-="); mk_keymap 0x1a (chars "[]"); mk_keymap 0x27 (chars ";'`"); mk_keymap 0x2b (chars "\");
   mk_keymap 0x33 (chars ",./")].

Definition shifted_keymap : list keymap :=
  [mk_keymap 0x02 (chars "!@#$%^&*()_+"); mk_keymap 0x1a (chars "{}"); mk_keymap 0x27 [58; 34; 126]; mk_keymap 0x2b (chars "|");
   mk_keymap 0x33 (chars "<>?")].

Fixpoint map_key (k : list keymap) (scancode : Z) : option Z :=
  match k with
  | [] => None
  | m :: k =>
      if (m.(first_scancode) <=? scancode) && (scancode <? m.(first_scancode) + Z.of_nat (length m.(kchars)))
      then m.(kchars) !! Z.to_nat (scancode - m.(first_scancode)) else map_key k scancode
  end.

(** the shift keys, with how to set their variables *)
Definition shift_keys : list (Z * (bool → kbd → kbd)) :=
  [(0x2a, λ b k, mk_kbd b k.(right_shift) k.(left_alt) k.(right_alt) k.(left_ctrl) k.(right_ctrl) k.(caps_lock) k.(key_cnt));
   (0x36, λ b k, mk_kbd k.(left_shift) b k.(left_alt) k.(right_alt) k.(left_ctrl) k.(right_ctrl) k.(caps_lock) k.(key_cnt));
   (0x38, λ b k, mk_kbd k.(left_shift) k.(right_shift) b k.(right_alt) k.(left_ctrl) k.(right_ctrl) k.(caps_lock) k.(key_cnt));
   (0xe038, λ b k, mk_kbd k.(left_shift) k.(right_shift) k.(left_alt) b k.(left_ctrl) k.(right_ctrl) k.(caps_lock) k.(key_cnt));
   (0x1d, λ b k, mk_kbd k.(left_shift) k.(right_shift) k.(left_alt) k.(right_alt) b k.(right_ctrl) k.(caps_lock) k.(key_cnt));
   (0xe01d, λ b k, mk_kbd k.(left_shift) k.(right_shift) k.(left_alt) k.(right_alt) k.(left_ctrl) b k.(caps_lock) k.(key_cnt))].

(** the scan of the table *)
Fixpoint set_shift (l : list (Z * (bool → kbd → kbd))) (code : Z) (b : bool) (k : kbd) : kbd :=
  match l with [] => k | (s, f) :: l => if s =? code then f b k else set_shift l code b k end.

(** what a key does besides the shift state: nothing, a character, or a reboot *)
Inductive effect := Nothing | Char (c : Z) | Reboot.

Definition shift (k : kbd) : bool := k.(left_shift) || k.(right_shift).
Definition alt (k : kbd) : bool := k.(left_alt) || k.(right_alt).
Definition ctrl (k : kbd) : bool := k.(left_ctrl) || k.(right_ctrl).

(** Ctrl, Shift and Alt applied to a character *)
Definition modified (k : kbd) (c : Z) : Z :=
  let c := if ctrl k && (0x40 <=? c) && (c <? 0x60) then c - 0x40
           else if Bool.eqb (shift k) k.(caps_lock) then u8 (tolower c) else c in
  if alt k then u8 (c + 0x80) else c.

(** the character of a key *)
Definition key_char (k : kbd) (code : Z) : option Z :=
  match map_key invariant_keymap code with
  | Some c => Some c
  | None => if shift k then map_key shifted_keymap code else map_key unshifted_keymap code
  end.

(** the code as it is read, with the prefix *)
Definition interpret (k : kbd) (raw : Z) : kbd * effect :=
  let release := negb (Z.land raw 0x80 =? 0) in
  let code := Z.land raw (Z.lnot 0x80) in
  if code =? 0x3a then
    (if release then k
     else mk_kbd k.(left_shift) k.(right_shift) k.(left_alt) k.(right_alt) k.(left_ctrl) k.(right_ctrl) (negb k.(caps_lock)) k.(key_cnt), Nothing)
  else
    match key_char k code with
    | Some c =>
        if release then (k, Nothing)
        else if (c =? 127) && ctrl k && alt k then (k, Reboot)
        else (k, Char (modified k c))
    | None => (set_shift shift_keys code (negb release) k, Nothing)
    end.

(** [raw]: the byte read, or two after a prefix.  [false]: the machine reboots. *)
Definition keyboard_interrupt (b1 b2 : Z) : M (kbd * config) bool := λ '(k, c),
  let raw := if b1 =? 0xe0 then Z.lor (Z.shiftl b1 8) b2 else b1 in
  match interpret k raw with
  | (k, Nothing) => Ok (true, (k, c))
  | (k, Reboot) => Ok (false, (k, c))
  | (k, Char ch) =>
      if intq_full c.(queue) then Ok (true, (k, c))
      else
        match intr_call (Put ch) c with
        | Ok (_, c) => Ok (true, (mk_kbd k.(left_shift) k.(right_shift) k.(left_alt) k.(right_alt) k.(left_ctrl) k.(right_ctrl) k.(caps_lock) (s64 (k.(key_cnt) + 1)), c))
        | Err e => Err e
        end
  end.

(** * The keyboard of a PC *)

(** the keys that print: their scancodes, their characters without and with shift *)
Definition pc_layout : list (Z * Z * Z) :=
  zip (zip (seqZ 0x02 12) (chars "1234567890-=")) (chars "!@#$%^&*()_+") ++
  zip (zip (seqZ 0x10 12) (chars "qwertyuiop[]")) (chars "QWERTYUIOP{}") ++
  zip (zip (seqZ 0x1e 12) (chars "asdfghjkl;'`")) (chars "ASDFGHJKL" ++ [58; 34; 126]) ++
  zip (zip (seqZ 0x2b 11) (chars "\zxcvbnm,./")) (chars "|ZXCVBNM<>?") ++ [(0x39, 32, 32)].

Definition letter (c : Z) : bool := (97 <=? c) && (c <=? 122).

(** Every printing key of the keyboard gives its character: the shifted one when Shift is
    down, for letters when Shift and Caps Lock differ; a release gives none. *)
Theorem kbd_layout code plain shifted k : (code, plain, shifted) ∈ pc_layout → alt k = false → ctrl k = false →
  interpret k code = (k, Char (if (if letter plain then xorb (shift k) k.(caps_lock) else shift k) then shifted else plain)) ∧
  interpret k (code + 0x80) = (k, Nothing).
Proof.
  intros Hin Ha Hc. revert Hin. assert (H : Forall (λ '(code, plain, shifted),
    interpret k code = (k, Char (if (if letter plain then xorb (shift k) k.(caps_lock) else shift k) then shifted else plain)) ∧
    interpret k (code + 0x80) = (k, Nothing)) pc_layout).
  { unfold interpret, key_char, modified. rewrite Ha, Hc. generalize (shift k) (caps_lock k). intros sh cl.
    repeat (apply Forall_cons_2; [destruct sh, cl; split; reflexivity|]). apply Forall_nil_2. }
  intros Hin. rewrite Forall_forall in H. exact (H _ Hin).
Qed.

Definition ex_kbd : kbd := mk_kbd true false false false false false true 0.

(** Shift and Caps Lock: a small letter *)
Lemma kbd_layout_witness : interpret ex_kbd 0x1e = (ex_kbd, Char 97).
Proof. apply (kbd_layout 0x1e 97 65 ex_kbd); [|reflexivity|reflexivity]. apply (bool_decide_unpack _). vm_compute. exact I. Defined.

(** ** The shift keys *)

(** whether the key [code] is down after these scancodes *)
Definition held (code : Z) (down : bool) (l : list Z) : bool :=
  foldl (λ down raw, if Z.land raw (Z.lnot 0x80) =? code then Z.land raw 0x80 =? 0 else down) down l.

(** the state after these scancodes *)
Definition after (k : kbd) (l : list Z) : kbd := foldl (λ k raw, (interpret k raw).1) k l.

Lemma key_char_shift k code : code ∈ shift_keys.*1 → key_char k code = None ∧ (code =? 0x3a) = false.
Proof.
  intros H. unfold key_char. repeat (apply elem_of_cons in H as [->|H]; [by destruct (shift k)|]). by apply elem_of_nil in H.
Qed.

(** the variables of the shift keys, in the order of the table *)
Definition downs (k : kbd) : list bool := [k.(left_shift); k.(right_shift); k.(left_alt); k.(right_alt); k.(left_ctrl); k.(right_ctrl)].

Lemma interpret_downs k raw : let code := Z.land raw (Z.lnot 0x80) in
  downs (interpret k raw).1 = zip_with (λ s d, if code =? s then Z.land raw 0x80 =? 0 else d) shift_keys.*1 (downs k).
Proof.
  intros code. unfold interpret. fold code. assert (Hz : ∀ l, code ∉ shift_keys.*1 → length l = 6%nat →
    zip_with (λ s d, if code =? s then Z.land raw 0x80 =? 0 else d) shift_keys.*1 l = l).
  { intros l Hn Hl. apply list_eq. intros i. destruct l as [|a [|b [|c [|d [|e [|f [|g l]]]]]]]; try discriminate Hl.
    assert (Hne : ∀ s, s ∈ shift_keys.*1 → (code =? s) = false) by (intros s Hs; apply Z.eqb_neq; intros ->; done).
    cbn [shift_keys fmap list_fmap fst zip_with]. rewrite !Hne; [done|by apply (bool_decide_unpack _)..]. }
  destruct (decide (code ∈ shift_keys.*1)) as [Hin|Hn].
  - destruct (key_char_shift k code Hin) as [-> ->]. clear Hz. generalize dependent code. intros code Hin.
    repeat (apply elem_of_cons in Hin as [->|Hin]; [by destruct (Z.land raw 128 =? 0)|]). by apply elem_of_nil in Hin.
  - rewrite Hz by done. destruct (code =? 58); [by destruct (negb _)|]. destruct (key_char k code).
    + destruct (negb (_ =? 0)); [done|]. by destruct (_ && _ && _).
    + cbn [fst]. assert (Hs : ∀ l b, code ∉ l.*1 → set_shift l code b k = k).
      { induction l as [|[s f] l IH]; intros b Hl; [done|]. cbn [set_shift]. cbn in Hl. apply not_elem_of_cons in Hl as [H1 H2].
        rewrite (proj2 (Z.eqb_neq _ _)) by congruence. by apply IH. }
      by rewrite Hs.
Qed.

(** The six variables of the shift keys always say whether the key is down: pressed and
    not released since. *)
Theorem kbd_tracks_shift k l :
  downs (after k l) = zip_with (λ s d, held s d l) shift_keys.*1 (downs k).
Proof.
  revert k. induction l as [|raw l IH]; intros k.
  - cbn [after held foldl]. done.
  - cbn [after foldl]. fold (after (interpret k raw).1 l). rewrite IH, interpret_downs. cbn [downs shift_keys fmap list_fmap fst zip_with].
    unfold held. cbn [foldl]. done.
Qed.

(** ** Into the queue *)

(** An interrupt of the keyboard never fails: a character goes to the end of the input
    queue and is counted, or is dropped when the queue is full. *)
Theorem kbd_delivers b1 b2 k c : inv c →
  ∃ go k' c', keyboard_interrupt b1 b2 (k, c) = Ok (go, (k', c')) ∧ inv c' ∧
    (c' = c ∧ k'.(key_cnt) = k.(key_cnt) ∨
     ∃ ch, c'.(sent) = c.(sent) ++ [ch] ∧ c'.(received) = c.(received) ∧ k'.(key_cnt) = s64 (k.(key_cnt) + 1)).
Proof.
  intros Hi. unfold keyboard_interrupt. set (raw := if b1 =? 0xe0 then _ else b1).
  assert (Hk : key_cnt (interpret k raw).1 = key_cnt k).
  { unfold interpret. destruct (_ =? 58); [by destruct (negb _)|]. destruct (key_char _ _).
    - destruct (negb _); [done|]. by destruct (_ && _ && _).
    - cbn [fst]. unfold shift_keys. cbn [set_shift]. by repeat case_match. }
  destruct (interpret k raw) as [k1 [| ch |]]; cbn [fst] in Hk; [by exists true, k1, c; eauto| |by exists false, k1, c; eauto].
  destruct (intq_full (queue c)) eqn:Ef; [by exists true, k1, c; eauto|].
  unfold intr_call. rewrite (bind_ok get _ c c c) by done. rewrite assert_bind by (simpl; by rewrite Ef).
  destruct (act_inv (Put ch) c Hi ltac:(simpl; by rewrite Ef)) as (c' & E & I' & A). rewrite E. eexists true, _, c'. split; [reflexivity|].
  split; [done|]. right. exists ch. cbn [key_cnt]. rewrite Hk. destruct (ac_io _ _ _ A). done.
Qed.

Lemma kbd_delivers_witness : ∃ go k' c', keyboard_interrupt 0x1e 0 (ex_kbd, start (replicate 64 0)) = Ok (go, (k', c')) ∧ c'.(sent) = [97].
Proof.
  destruct (kbd_delivers 0x1e 0 ex_kbd (start (replicate 64 0)) (queue_start_inv (replicate 64 0) eq_refl)) as (go & k' & c' & E & _).
  exists go, k', c'. split; [exact E|]. vm_compute in E. by injection E as _ _ <-.
Defined.
