(* ===== verification/Vga.v ===== *)
(** devices/vga.c: the text display.

    The frame buffer is 25 rows of 80 cells, a cell a character and an attribute; an
    access outside is a [Fault].  The display's registers are those of the cursor,
    selected by an index, and are all the code uses. *)

From S2P Require Import Prelude Vaddr.

Definition COL_CNT : Z := 80.
Definition ROW_CNT : Z := 25.
Definition GRAY_ON_BLACK : Z := 7.

(** [regs]: the registers of the CRT controller; [beeps]: calls of [speaker_beep] *)
Record vga := mk_vga { cx : Z; cy : Z; fb : list (list (Z * Z)); inited : bool; index : Z; regs : gmap Z Z; beeps : Z }.

Abbreviation G := (M vga).

Definition set_cursor (x y : Z) (s : vga) : vga := mk_vga x y s.(fb) s.(inited) s.(index) s.(regs) s.(beeps).
Definition set_fb (f : list (list (Z * Z))) (s : vga) : vga := mk_vga s.(cx) s.(cy) f s.(inited) s.(index) s.(regs) s.(beeps).
Definition set_regs (i : Z) (r : gmap Z Z) (s : vga) : vga := mk_vga s.(cx) s.(cy) s.(fb) s.(inited) i r s.(beeps).

(** [outw (0x3d4, v)]: the low byte is the index, the high byte the data *)
Definition out_crt (v : Z) : G unit := modify (λ s, set_regs (u8 v) (<[u8 v := u8 (Z.shiftr v 8)]> s.(regs)) s).
(** [outb (0x3d4, i)] and [inb (0x3d5)] *)
Definition select_crt (i : Z) : G unit := modify (λ s, set_regs i s.(regs) s).
Definition in_crt : G Z := gets (λ s, default 0 (s.(regs) !! s.(index))).

Definition u16 (z : Z) : Z := z mod 2 ^ 16.

Definition move_cursor : G unit :=
  s ← get;
  let cp := u16 (s.(cx) + COL_CNT * s.(cy)) in
  out_crt (Z.lor 0x0e (Z.land cp 0xff00));;
  out_crt (Z.lor 0x0f (u16 (Z.shiftl cp 8))).

Definition find_cursor : G (Z * Z) :=
  select_crt 0x0e;; hi ← in_crt;
  select_crt 0x0f;; lo ← in_crt;
  let cp := Z.lor (u16 (Z.shiftl hi 8)) lo in
  mret (cp mod COL_CNT, cp / COL_CNT).

Definition init : G unit :=
  s ← get;
  if s.(inited) then mret tt
  else
    '(x, y) ← find_cursor;
    modify (λ s, mk_vga x y s.(fb) true s.(index) s.(regs) s.(beeps)).

(** [fb[y][x] = ...] *)
Definition put_cell (y x : Z) (c : Z * Z) : G unit :=
  s ← get;
  match s.(fb) !! Z.to_nat y with
  | Some row => if bool_decide (is_Some (row !! Z.to_nat x)) then put (set_fb (<[Z.to_nat y := <[Z.to_nat x := c]> row]> s.(fb)) s) else fail Fault
  | None => fail Fault
  end.

(** the loop over the columns, from [x] on with [n] turns left *)
Fixpoint clear_loop (n : nat) (y x : Z) : G unit :=
  match n with O => mret tt | S n => put_cell y x (32, GRAY_ON_BLACK);; clear_loop n y (x + 1) end.

Definition clear_row (y : Z) : G unit := clear_loop (Z.to_nat COL_CNT) y 0.

Fixpoint clear_rows (n : nat) (y : Z) : G unit :=
  match n with O => mret tt | S n => clear_row y;; clear_rows n (y + 1) end.

Definition cls : G unit :=
  clear_rows (Z.to_nat ROW_CNT) 0;; modify (set_cursor 0 0);; move_cursor.

(** [memmove (&fb[0], &fb[1], sizeof fb[0] * (ROW_CNT - 1))]: rows 1 to 24 go up *)
Definition scroll : G unit :=
  s ← get;
  if (Z.to_nat ROW_CNT <=? length s.(fb))%nat then put (set_fb (take 24 (drop 1 s.(fb)) ++ drop 24 s.(fb)) s) else fail Fault.

Definition newline : G unit :=
  modify (λ s, set_cursor 0 (s.(cy) + 1) s);;
  s ← get;
  if s.(cy) >=? ROW_CNT then modify (set_cursor 0 (ROW_CNT - 1));; scroll;; clear_row (ROW_CNT - 1) else mret tt.

Definition vga_putc (c : Z) : G unit :=
  init;;
  s ← get;
  (if c =? 10 then newline
   else if c =? 12 then cls
   else if c =? 8 then (if s.(cx) >? 0 then modify (set_cursor (s.(cx) - 1) s.(cy)) else mret tt)
   else if c =? 13 then modify (set_cursor 0 s.(cy))
   else if c =? 9 then
     let x := (s.(cx) + 1 + 7) / 8 * 8 in
     modify (set_cursor x s.(cy));; (if x >=? COL_CNT then newline else mret tt)
   else if c =? 7 then modify (λ s, mk_vga s.(cx) s.(cy) s.(fb) s.(inited) s.(index) s.(regs) (s.(beeps) + 1))
   else
     put_cell s.(cy) s.(cx) (u8 c, GRAY_ON_BLACK);;
     modify (set_cursor (s.(cx) + 1) s.(cy));; (if s.(cx) + 1 >=? COL_CNT then newline else mret tt));;
  move_cursor.

(** * The screen *)

Definition blank : Z * Z := (32, GRAY_ON_BLACK).

Record screen_ok (s : vga) : Prop := {
  sk_rows : length s.(fb) = 25%nat;
  sk_cols r : r ∈ s.(fb) → length r = 80%nat;
  sk_cx : 0 ≤ s.(cx) < 80;
  sk_cy : 0 ≤ s.(cy) < 25;
  sk_init : s.(inited) = true
}.

(** the terminal: the cells and the cursor *)
Record term := mk_term { tx : nat; ty : nat; cells : list (list (Z * Z)) }.

Definition view (s : vga) : term := mk_term (Z.to_nat s.(cx)) (Z.to_nat s.(cy)) s.(fb).

Definition term_newline (t : term) : term :=
  if (t.(ty) <? 24)%nat then mk_term 0 (S t.(ty)) t.(cells) else mk_term 0 24 (drop 1 t.(cells) ++ [replicate 80 blank]).

Definition term_advance (x : nat) (t : term) : term := if (x <? 80)%nat then mk_term x t.(ty) t.(cells) else term_newline t.

Definition term_putc (c : Z) (t : term) : term :=
  if c =? 10 then term_newline t
  else if c =? 12 then mk_term 0 0 (replicate 25 (replicate 80 blank))
  else if c =? 8 then mk_term (t.(tx) - 1) t.(ty) t.(cells)
  else if c =? 13 then mk_term 0 t.(ty) t.(cells)
  else if c =? 9 then term_advance ((t.(tx) / 8 + 1) * 8)%nat t
  else if c =? 7 then t
  else term_advance (S t.(tx)) (mk_term t.(tx) t.(ty) (alter (<[t.(tx) := (u8 c, GRAY_ON_BLACK)]>) t.(ty) t.(cells))).

(** ** The frame buffer *)

Lemma put_cell_eq s y x row c : 0 ≤ y → 0 ≤ x < 80 → s.(fb) !! Z.to_nat y = Some row → length row = 80%nat →
  put_cell y x c s = Ok (tt, set_fb (<[Z.to_nat y := <[Z.to_nat x := c]> row]> s.(fb)) s).
Proof.
  intros Hy Hx Hr Hl. unfold put_cell. rewrite (bind_ok get _ s s s) by done. rewrite Hr.
  rewrite bool_decide_eq_true_2; [done|]. apply lookup_lt_is_Some. lia.
Qed.

Lemma clear_loop_eq n y x s row : 0 ≤ y → 0 ≤ x → x + Z.of_nat n = 80 → s.(fb) !! Z.to_nat y = Some row → length row = 80%nat →
  clear_loop n y x s = Ok (tt, set_fb (<[Z.to_nat y := take (Z.to_nat x) row ++ replicate n blank]> s.(fb)) s).
Proof.
  revert x s row. induction n as [|n IH]; intros x s row Hy Hx Hn Hr Hl.
  - cbn [clear_loop replicate]. rewrite app_nil_r, take_ge by lia. unfold mret, M_ret. rewrite list_insert_id by done. by destruct s.
  - cbn [clear_loop]. rewrite (bind_ok _ _ _ _ _ (put_cell_eq s y x row (32, GRAY_ON_BLACK) Hy ltac:(lia) Hr Hl)).
    assert (Hlt : (Z.to_nat y < length (fb s))%nat) by by eapply lookup_lt_Some.
    rewrite (IH (x + 1) _ (<[Z.to_nat x:=(32, GRAY_ON_BLACK)]> row)); [|done|lia|lia|by apply list_lookup_insert_eq|by rewrite length_insert].
    cbn [fb set_fb]. unfold set_fb. cbn [fb cx cy inited index regs beeps]. do 3 f_equal. rewrite list_insert_insert_eq. f_equal.
    replace (Z.to_nat (x + 1)) with (S (Z.to_nat x)) by lia.
    rewrite (take_S_r _ _ blank) by (apply list_lookup_insert_eq; lia). rewrite take_insert_ge by lia. by rewrite <- app_assoc.
Qed.

Lemma clear_row_eq y s row : 0 ≤ y → s.(fb) !! Z.to_nat y = Some row → length row = 80%nat →
  clear_row y s = Ok (tt, set_fb (<[Z.to_nat y := replicate 80 blank]> s.(fb)) s).
Proof. intros Hy Hr Hl. unfold clear_row. change (Z.to_nat COL_CNT) with 80%nat. by rewrite (clear_loop_eq 80 y 0 s row). Qed.

Lemma clear_rows_eq n y s : 0 ≤ y → y + Z.of_nat n = Z.of_nat (length s.(fb)) → (∀ r, r ∈ s.(fb) → length r = 80%nat) →
  clear_rows n y s = Ok (tt, set_fb (take (Z.to_nat y) s.(fb) ++ replicate n (replicate 80 blank)) s).
Proof.
  revert y s. induction n as [|n IH]; intros y s Hy Hn Hr.
  - cbn [clear_rows]. change (replicate 0 (replicate 80 blank)) with (@nil (list (Z * Z))). rewrite app_nil_r, take_ge by lia.
    unfold mret, M_ret. by destruct s.
  - cbn [clear_rows]. destruct (lookup_lt_is_Some_2 (fb s) (Z.to_nat y) ltac:(lia)) as [row Hrow].
    rewrite (bind_ok _ _ _ _ _ (clear_row_eq y s row Hy Hrow (Hr _ (list_elem_of_lookup_2 _ _ _ Hrow)))).
    rewrite IH; [|lia|cbn [fb set_fb]; rewrite length_insert; lia|].
    + cbn [fb set_fb]. unfold set_fb. cbn [fb cx cy inited index regs beeps]. do 3 f_equal. replace (Z.to_nat (y + 1)) with (S (Z.to_nat y)) by lia.
      rewrite (take_S_r _ _ (replicate 80 blank)) by (apply list_lookup_insert_eq; lia). rewrite take_insert_ge by lia. by rewrite <- app_assoc.
    + intros r Hin. cbn [fb set_fb] in Hin. apply list_elem_of_lookup in Hin as [i Hi]. apply list_lookup_insert_Some in Hi as [(_ & <- & _)|[_ Hi]].
      * by rewrite length_replicate.
      * apply Hr. by eapply list_elem_of_lookup_2.
Qed.

(** ** The cursor *)

(** the registers hold the position of the cursor *)
Definition shown (s : vga) : Prop := ∃ hi lo, s.(regs) !! 0x0e = Some hi ∧ s.(regs) !! 0x0f = Some lo ∧
  0 ≤ hi < 256 ∧ 0 ≤ lo < 256 ∧ hi * 256 + lo = s.(cx) + 80 * s.(cy).

Lemma crt_hi cp : 0 ≤ cp < 2 ^ 16 → u8 (Z.lor 14 (Z.land cp 65280)) = 14 ∧ u8 (Z.shiftr (Z.lor 14 (Z.land cp 65280)) 8) = cp / 256.
Proof.
  intros Hc. change 65280 with (Z.ones 8 * 2 ^ 8). rewrite land_mask, lor_shift, Z.shiftr_div_pow2 by lia. change (2 ^ 8) with 256.
  unfold u8. change (2 ^ 8) with 256. Z.div_mod_to_equations. lia.
Qed.

Lemma crt_lo cp : 0 ≤ cp < 2 ^ 16 → u8 (Z.lor 15 (u16 (Z.shiftl cp 8))) = 15 ∧ u8 (Z.shiftr (Z.lor 15 (u16 (Z.shiftl cp 8))) 8) = cp mod 256.
Proof.
  intros Hc. assert (E : u16 (Z.shiftl cp 8) = cp mod 256 * 2 ^ 8).
  { unfold u16. rewrite Z.shiftl_mul_pow2 by lia. change (2 ^ 16) with (256 * 2 ^ 8). by rewrite Z.mul_mod_distr_r by lia. }
  rewrite E, lor_shift, Z.shiftr_div_pow2 by lia. unfold u8. change (2 ^ 8) with 256. Z.div_mod_to_equations. lia.
Qed.

Lemma move_cursor_eq s : screen_ok s → ∃ s', move_cursor s = Ok (tt, s') ∧ screen_ok s' ∧ view s' = view s ∧ shown s'.
Proof.
  intros [H1 H2 H3 H4 H5]. unfold move_cursor. rewrite (bind_ok get _ s s s) by done. cbv zeta.
  assert (Hcp : u16 (cx s + COL_CNT * cy s) = cx s + 80 * cy s) by (apply Z.mod_small; unfold COL_CNT; lia). rewrite Hcp.
  set (cp := cx s + 80 * cy s). assert (Hr : 0 ≤ cp < 2 ^ 16) by (unfold cp; lia).
  destruct (crt_hi cp Hr) as [Ea Eb]. destruct (crt_lo cp Hr) as [Ec Ed]. unfold out_crt. erewrite bind_ok by reflexivity. rewrite Ea, Eb, Ec, Ed.
  eexists. split; [reflexivity|]. split; [by split|]. split; [done|]. exists (cp / 256), (cp mod 256). simpl.
  rewrite lookup_insert_ne, !lookup_insert_eq by done. pose proof (Z.mod_pos_bound cp 256 ltac:(lia)).
  pose proof (Z.div_lt_upper_bound cp 256 256 ltac:(lia) ltac:(lia)). pose proof (Z.div_pos cp 256 ltac:(lia) ltac:(lia)).
  split_and!; try done; try lia. fold cp. rewrite (Z.div_mod cp 256) at 3 by lia. lia.
Qed.

(** ** Characters *)

Lemma screen_row s : screen_ok s → ∃ row, s.(fb) !! Z.to_nat s.(cy) = Some row ∧ length row = 80%nat.
Proof.
  intros [H1 H2 H3 H4 H5]. destruct (lookup_lt_is_Some_2 (fb s) (Z.to_nat (cy s)) ltac:(lia)) as [row Hrow].
  exists row. split; [done|]. apply H2. by eapply list_elem_of_lookup_2.
Qed.

Lemma scrolled_rows (f : list (list (Z * Z))) b : length f = 25%nat → <[24%nat := b]> (take 24 (drop 1 f) ++ drop 24 f) = drop 1 f ++ [b].
Proof.
  intros Hl. assert (Hd : length (drop 1 f) = 24%nat) by (rewrite length_drop; lia). rewrite take_ge by lia.
  replace 24%nat with (length (drop 1 f) + 0)%nat at 1 by lia. rewrite insert_app_r.
  assert (H24 : length (drop 24 f) = 1%nat) by (rewrite length_drop; lia). destruct (drop 24 f) as [|r [|]]; simpl in H24; try lia. done.
Qed.

(** the screen but for the column, which may be anything *)
Lemma newline_eq s x : screen_ok s → ∃ s', newline (set_cursor x s.(cy) s) = Ok (tt, s') ∧ screen_ok s' ∧ view s' = term_newline (view s).
Proof.
  intros Hok. pose proof Hok as [H1 H2 H3 H4 H5]. unfold newline. erewrite bind_ok by reflexivity. erewrite bind_ok by reflexivity.
  cbn [cy set_cursor]. unfold ROW_CNT, term_newline, view. cbn [ty tx cells].
  destruct (Z.geb_spec (cy s + 1) 25); try lia.
  - erewrite bind_ok by reflexivity. unfold scroll. erewrite bind_ok; [|erewrite bind_ok by reflexivity; cbn [fb set_cursor]; rewrite H1; reflexivity].
    assert (Hl : length (take 24 (drop 1 (fb s)) ++ drop 24 (fb s)) = 25%nat) by (rewrite length_app, length_take, !length_drop, H1; done).
    destruct (lookup_lt_is_Some_2 (take 24 (drop 1 (fb s)) ++ drop 24 (fb s)) 24 ltac:(lia)) as [row Hrow].
    rewrite (clear_row_eq (25 - 1) _ row); [|done|exact Hrow|].
    2: { apply H2. apply list_elem_of_lookup_2 in Hrow. apply elem_of_app in Hrow as [Hin|Hin].
         - eapply subseteq_drop, subseteq_take, Hin.
         - eapply subseteq_drop, Hin. }
    eexists. split; [reflexivity|]. cbn [fb set_cursor set_fb]. change (Z.to_nat (25 - 1)) with 24%nat. rewrite (scrolled_rows _ _ H1).
    replace (Z.to_nat (cy s)) with 24%nat by lia. split; [|done].
    split; cbn [fb cx cy inited set_fb set_cursor]; [rewrite length_app, length_drop, H1; done| |lia|lia|done]. intros r [Hin|Hin%list_elem_of_singleton]%elem_of_app.
    + apply H2. by eapply subseteq_drop.
    + subst. by rewrite length_replicate.
  - eexists. split; [reflexivity|]. split; [split; cbn; try done; lia|].
    rewrite (proj2 (Nat.ltb_lt _ _)) by lia. cbn. f_equal. lia.
Qed.

Lemma advance_eq s x : screen_ok s → 0 ≤ x → ∃ s',
  (if x >=? COL_CNT then newline else mret tt) (set_cursor x s.(cy) s) = Ok (tt, s') ∧ screen_ok s' ∧ view s' = term_advance (Z.to_nat x) (view s).
Proof.
  intros Hok Hx. unfold term_advance, COL_CNT. destruct (Z.geb_spec x 80).
  - destruct (newline_eq s x Hok) as (s' & E & Hs & Hv). exists s'. rewrite (proj2 (Nat.ltb_ge _ _)) by lia. done.
  - eexists. split; [reflexivity|]. destruct Hok as [H1 H2 H3 H4 H5]. rewrite (proj2 (Nat.ltb_lt _ _)) by lia. split; [split; cbn; try done; lia|done].
Qed.

Lemma init_done s : s.(inited) = true → init s = Ok (tt, s).
Proof. intros H. unfold init. rewrite (bind_ok get _ s s s) by done. by rewrite H. Qed.

Lemma put_screen_ok s row c : screen_ok s → s.(fb) !! Z.to_nat s.(cy) = Some row → length row = 80%nat →
  screen_ok (set_fb (<[Z.to_nat s.(cy) := <[Z.to_nat s.(cx) := c]> row]> s.(fb)) s).
Proof.
  intros [H1 H2 H3 H4 H5] Hr Hl. split; cbn; try done; [by rewrite length_insert|].
  intros r Hin. apply list_elem_of_lookup in Hin as [i Hi]. apply list_lookup_insert_Some in Hi as [(_ & <- & _)|[_ Hi]].
  - by rewrite length_insert.
  - apply H2. by eapply list_elem_of_lookup_2.
Qed.

Lemma putc_inited c s : screen_ok s → ∃ s', vga_putc c s = Ok (tt, s') ∧ screen_ok s' ∧ view s' = term_putc c (view s) ∧ shown s'.
Proof.
  intros Hok. pose proof Hok as [H1 H2 H3 H4 H5]. unfold vga_putc. rewrite (bind_ok _ _ _ _ _ (init_done s H5)). rewrite (bind_ok get _ s s s) by done.
  match goal with |- ∃ _, (?m ;; _) s = _ ∧ _ => assert (Hm : ∃ s1, m s = Ok (tt, s1) ∧ screen_ok s1 ∧ view s1 = term_putc c (view s)) end.
  2: { destruct Hm as (s1 & E & Hs1 & Hv). rewrite (bind_ok _ _ _ _ _ E). destruct (move_cursor_eq s1 Hs1) as (s' & E' & Hs' & Hv' & Hsh).
       exists s'. rewrite Hv'. done. }
  assert (Hself : s = set_cursor (cx s) (cy s) s) by by destruct s.
  unfold term_putc. destruct (c =? 10). { pose proof (newline_eq s (cx s) Hok) as Hn. by rewrite <- Hself in Hn. }
  destruct (c =? 12).
  { unfold cls. rewrite (bind_ok _ _ _ _ _ (clear_rows_eq (Z.to_nat ROW_CNT) 0 s ltac:(done) ltac:(rewrite H1; done) H2)).
    erewrite bind_ok by reflexivity. match goal with |- context [move_cursor ?t] => destruct (move_cursor_eq t) as (s' & E' & Hs' & Hv' & _) end.
    - split; cbn [fb cx cy inited set_fb set_cursor]; try done; try lia. intros r Hin. apply elem_of_replicate in Hin as [-> _]. by rewrite length_replicate.
    - exists s'. rewrite Hv'. done. }
  destruct (c =? 8).
  { destruct (Z.gtb_spec (cx s) 0).
    - eexists. split; [reflexivity|]. split; [split; cbn; try done; lia|]. unfold view. cbn. f_equal. lia.
    - exists s. split; [done|]. split; [done|]. unfold view. cbn. f_equal. lia. }
  destruct (c =? 13). { eexists. split; [reflexivity|]. split; [split; cbn; try done; lia|done]. }
  destruct (c =? 9).
  { cbv zeta. erewrite bind_ok by reflexivity. pose proof (Z.div_pos (cx s + 1 + 7) 8 ltac:(lia) ltac:(lia)).
    destruct (advance_eq s ((cx s + 1 + 7) / 8 * 8) Hok ltac:(lia)) as (s' & E & Hs & Hv). exists s'. split; [exact E|]. split; [done|].
    rewrite Hv. f_equal. cbn [view tx]. replace (cx s + 1 + 7) with (cx s + 1 * 8) by lia. rewrite Z.div_add by lia. pose proof (Z.div_pos (cx s) 8 ltac:(lia) ltac:(lia)).
    rewrite Z2Nat.inj_mul, Z2Nat.inj_add, Z2Nat.inj_div by lia. change (Z.to_nat 1) with 1%nat. change (Z.to_nat 8) with 8%nat. done. }
  destruct (c =? 7). { eexists. split; [reflexivity|]. split; [by split|done]. }
  destruct (screen_row s Hok) as (row & Hr & Hl). rewrite (bind_ok _ _ _ _ _ (put_cell_eq s _ _ row (u8 c, GRAY_ON_BLACK) (proj1 H4) H3 Hr Hl)).
  erewrite bind_ok by reflexivity. pose proof (put_screen_ok s row (u8 c, GRAY_ON_BLACK) Hok Hr Hl) as Hput.
  destruct (advance_eq _ (cx s + 1) Hput ltac:(lia)) as (s' & E & Hs & Hv). exists s'. split; [exact E|]. split; [done|]. rewrite Hv.
  unfold view. cbn. f_equal; [lia|]. f_equal. symmetry. apply list_eq. intros i. destruct (decide (i = Z.to_nat (cy s))) as [->|Hne].
  - rewrite list_lookup_alter_eq, list_lookup_insert_eq, Hr by (eapply lookup_lt_Some, Hr). done.
  - by rewrite list_lookup_alter_ne, list_lookup_insert_ne by done.
Qed.

(** [displays s t]: the display shows [t].  Before the first character the position of the
    cursor is only in the registers, as the firmware left it. *)
Definition displays (s : vga) (t : term) : Prop :=
  length s.(fb) = 25%nat ∧ (∀ r, r ∈ s.(fb) → length r = 80%nat) ∧ t.(cells) = s.(fb) ∧ (t.(tx) < 80)%nat ∧ (t.(ty) < 25)%nat ∧
  (if s.(inited) then s.(cx) = Z.of_nat t.(tx) ∧ s.(cy) = Z.of_nat t.(ty)
   else ∃ hi lo, s.(regs) !! 0x0e = Some hi ∧ s.(regs) !! 0x0f = Some lo ∧ 0 ≤ hi < 256 ∧ 0 ≤ lo < 256 ∧
     hi * 256 + lo = Z.of_nat (t.(tx) + 80 * t.(ty))).

Lemma displays_inited s t : s.(inited) = true → displays s t ↔ screen_ok s ∧ view s = t.
Proof.
  intros Hi. unfold displays. rewrite Hi. split.
  - intros (H1 & H2 & H3 & H4 & H5 & H6 & H7). split; [split; try done; lia|]. unfold view. destruct t as [x y c]. cbn in *. subst c. f_equal; lia.
  - intros [[H1 H2 H3 H4 H5] <-]. cbn. split_and!; try done; lia.
Qed.

Lemma find_cursor_eq s hi lo : s.(regs) !! 0x0e = Some hi → s.(regs) !! 0x0f = Some lo → 0 ≤ hi < 256 → 0 ≤ lo < 256 →
  find_cursor s = Ok (((hi * 256 + lo) mod 80, (hi * 256 + lo) / 80), set_regs 0x0f s.(regs) s).
Proof.
  intros Hh Hl Rh Rl. unfold find_cursor. erewrite bind_ok by reflexivity. erewrite bind_ok; [|unfold in_crt, gets; cbn; rewrite Hh; reflexivity].
  erewrite bind_ok by reflexivity. erewrite bind_ok; [|unfold in_crt, gets; cbn; rewrite Hl; reflexivity]. cbn [default].
  assert (E : Z.lor (u16 (Z.shiftl hi 8)) lo = hi * 256 + lo).
  { unfold u16. rewrite Z.shiftl_mul_pow2, Z.mod_small, Z.lor_comm, lor_shift by lia. lia. }
  cbv zeta. unfold id. rewrite E. done.
Qed.

Lemma init_displays s t : displays s t → ∃ s', init s = Ok (tt, s') ∧ screen_ok s' ∧ view s' = t.
Proof.
  intros Hd. destruct (inited s) eqn:Hi.
  - exists s. split; [by apply init_done|]. by apply displays_inited.
  - destruct Hd as (H1 & H2 & H3 & H4 & H5 & H6). rewrite Hi in H6. destruct H6 as (hi & lo & Hh & Hl & Rh & Rl & E).
    unfold init. rewrite (bind_ok get _ s s s) by done. rewrite Hi. rewrite (bind_ok _ _ _ _ _ (find_cursor_eq s hi lo Hh Hl Rh Rl)).
    eexists. split; [reflexivity|]. rewrite E.
    assert (Em : Z.of_nat (tx t + 80 * ty t) mod 80 = Z.of_nat (tx t))
      by (rewrite Nat2Z.inj_add, Nat2Z.inj_mul, Z.mul_comm, Z.mod_add, Z.mod_small; lia).
    assert (Ed : Z.of_nat (tx t + 80 * ty t) / 80 = Z.of_nat (ty t))
      by (rewrite Nat2Z.inj_add, Nat2Z.inj_mul, Z.mul_comm, Z.div_add, Z.div_small; lia).
    rewrite Em, Ed. split; [split; cbn; try done; lia|]. unfold view. destruct t as [x y c]. cbn in *. subst c. f_equal; lia.
Qed.

(** the characters of a string, one after the other *)
Fixpoint vga_write (cs : list Z) : G unit := match cs with [] => mret tt | c :: cs => vga_putc c;; vga_write cs end.

Lemma write_inited cs s : screen_ok s → shown s →
  ∃ s', vga_write cs s = Ok (tt, s') ∧ screen_ok s' ∧ view s' = foldl (λ t c, term_putc c t) (view s) cs ∧ shown s'.
Proof.
  revert s. induction cs as [|c cs IH]; intros s Hs Hsh; [by exists s|]. destruct (putc_inited c s Hs) as (s1 & E & Hs1 & Hv & Hsh1).
  destruct (IH s1 Hs1 Hsh1) as (s' & E' & Hs' & Hv' & Hsh'). exists s'. cbn [vga_write foldl]. rewrite (bind_ok _ _ _ _ _ E), <- Hv. done.
Qed.

(** C36. Characters put on the display do to its cells and cursor what a terminal of 25
    lines of 80 columns does: a graphic character is put at the cursor and advances it, a
    line that is full or a new line at the bottom scrolls, and the control characters
    move the cursor, from the position the firmware left it at.  No character writes
    outside the frame buffer, and afterwards the hardware cursor is where the code
    would read it back. *)
Theorem vga_refines_terminal c cs s t : displays s t →
  ∃ s', vga_write (c :: cs) s = Ok (tt, s') ∧ s'.(inited) = true ∧ displays s' (foldl (λ t c, term_putc c t) t (c :: cs)) ∧
  ∃ r, find_cursor s' = Ok ((s'.(cx), s'.(cy)), r).
Proof.
  intros Hd. destruct (init_displays s t Hd) as (s0 & E0 & Hs0 & <-). destruct (putc_inited c s0 Hs0) as (s1 & E1 & Hs1 & Hv1 & Hsh1).
  destruct (write_inited cs s1 Hs1 Hsh1) as (s' & E' & Hs' & Hv' & hi & lo & Hh & Hl & Rh & Rl & E).
  assert (Ep : vga_putc c s = Ok (tt, s1)).
  { unfold vga_putc in E1 |- *. rewrite (bind_ok _ _ _ _ _ (init_done s0 (sk_init _ Hs0))) in E1. by rewrite (bind_ok _ _ _ _ _ E0). }
  exists s'. cbn [vga_write foldl]. rewrite (bind_ok _ _ _ _ _ Ep), <- Hv1. split; [done|]. split; [apply Hs'|].
  split; [by apply displays_inited; [apply Hs'|]|]. rewrite (find_cursor_eq s' hi lo Hh Hl Rh Rl), E. destruct Hs' as [_ _ H3 H4 _].
  eexists. do 3 f_equal; [rewrite Z.mul_comm, Z.mod_add, Z.mod_small; lia|rewrite Z.mul_comm, Z.div_add, Z.div_small; lia].
Qed.

(** the cursor left on the last line by the firmware, and two characters *)
Lemma vga_refines_terminal_witness :
  let s := mk_vga 0 0 (replicate 25 (replicate 80 blank)) false 0 {[ 0x0e := 7; 0x0f := 207 ]} 0 in
  displays s (mk_term 79 24 s.(fb)) ∧
  ∃ s', vga_write [65; 66] s = Ok (tt, s') ∧ s'.(inited) = true ∧ s'.(cx) = 1 ∧ s'.(cy) = 24.
Proof.
  assert (Hd : displays (mk_vga 0 0 (replicate 25 (replicate 80 blank)) false 0 {[ 0x0e := 7; 0x0f := 207 ]} 0)
    (mk_term 79 24 (replicate 25 (replicate 80 blank)))).
  { split_and!; try done; try (cbn [tx ty]; lia); [|exists 7, 207; split_and!; done].
    intros r Hin. apply elem_of_replicate in Hin as [-> _]. by rewrite length_replicate. }
  split; [exact Hd|]. destruct (vga_refines_terminal 65 [66] _ _ Hd) as (s' & E & Hi & Hd' & _). exists s'. split; [exact E|]. split; [exact Hi|].
  destruct Hd' as (_ & _ & _ & _ & _ & H6). rewrite Hi in H6. destruct H6 as [Hx Hy].
  rewrite Hx, Hy. split; vm_compute; reflexivity.
Defined.
