(* ===== verification/Block.v ===== *)
(** devices/block.c and devices/partition.c: block devices, their roles, and the
    partitions of a disk; threads/init.c: [locate_block_devices].

    A block device is an entry of the list of all devices, named by its place there; a
    disk's driver is its sectors, a partition's driver passes an access on to the device
    it is on.  What is printed is left out, but for the names. *)

From Stdlib Require Import Ascii String.
From S2P Require Import Prelude CString Stdio.

Inductive block_type := BLOCK_KERNEL | BLOCK_FILESYS | BLOCK_SCRATCH | BLOCK_SWAP | BLOCK_RAW | BLOCK_FOREIGN.

#[global] Instance block_type_eq_dec : EqDecision block_type.
Proof. solve_decision. Defined.

Definition type_nr (t : block_type) : nat :=
  match t with BLOCK_KERNEL => 0 | BLOCK_FILESYS => 1 | BLOCK_SCRATCH => 2 | BLOCK_SWAP => 3 | BLOCK_RAW => 4 | BLOCK_FOREIGN => 5 end.

Definition BLOCK_ROLE_CNT : nat := 4.
Definition BLOCK_CNT : nat := 6.

(** [ops] with [aux]: the sectors of a disk, or a partition's device and start *)
Inductive block_ops := Disk (sectors : list (list Z)) | Partition (on : nat) (start : Z).

Record block := mk_block { bname : list Z; btype : block_type; bsize : Z; ops : block_ops; read_cnt : Z; write_cnt : Z }.

Record devices := mk_devices { all_blocks : list block; block_by_role : list (option nat) }.

Abbreviation D := (M devices).

Definition get_block (b : nat) : D block := s ← get; lift_out (ofault (s.(all_blocks) !! b)).
Definition put_block (b : nat) (x : block) : D unit := modify (λ s, mk_devices (<[b := x]> s.(all_blocks)) s.(block_by_role)).

Definition block_type_name (t : block_type) : string :=
  match t with
  | BLOCK_KERNEL => "kernel" | BLOCK_FILESYS => "filesys" | BLOCK_SCRATCH => "scratch"
  | BLOCK_SWAP => "swap" | BLOCK_RAW => "raw" | BLOCK_FOREIGN => "foreign"
  end.

Definition block_get_role (role : block_type) : D (option nat) :=
  assert (type_nr role <? BLOCK_ROLE_CNT)%nat;;
  s ← get; lift_out (ofault (s.(block_by_role) !! type_nr role)).

Definition block_set_role (role : block_type) (b : option nat) : D unit :=
  assert (type_nr role <? BLOCK_ROLE_CNT)%nat;;
  modify (λ s, mk_devices s.(all_blocks) (<[type_nr role := b]> s.(block_by_role))).

Definition block_first : D (option nat) := s ← get; mret (if (0 <? length s.(all_blocks))%nat then Some 0%nat else None).
Definition block_next (b : nat) : D (option nat) := s ← get; mret (if (S b <? length s.(all_blocks))%nat then Some (S b) else None).

(** the loop of [block_get_by_name], from the device [i] on *)
Fixpoint find_name (name : list Z) (l : list block) (i : nat) : option nat :=
  match l with
  | [] => None
  | b :: l => if bool_decide (name = b.(bname)) then Some i else find_name name l (S i)
  end.

Definition block_get_by_name (name : list Z) : D (option nat) := s ← get; mret (find_name name s.(all_blocks) 0).

(** [PANIC] if the sector is past the end *)
Definition check_block_sector (b : nat) (sector : Z) : D unit := x ← get_block b; assert (negb (sector >=? x.(bsize))).

(** [n]: how deep partitions are nested; a partition is on a device registered earlier *)
Fixpoint read_block (n : nat) (b : nat) (sector : Z) : D (list Z) :=
  match n with
  | O => fail NoFuel
  | S n =>
      check_block_sector b sector;;
      x ← get_block b;
      l ← match x.(ops) with
          | Disk sectors => lift_out (ofault (sectors !! Z.to_nat sector))
          | Partition on start => read_block n on (u32 (start + sector))
          end;
      x ← get_block b;
      put_block b (mk_block x.(bname) x.(btype) x.(bsize) x.(ops) (u64 (x.(read_cnt) + 1)) x.(write_cnt));; mret l
  end.

Fixpoint write_block (n : nat) (b : nat) (sector : Z) (buffer : list Z) : D unit :=
  match n with
  | O => fail NoFuel
  | S n =>
      check_block_sector b sector;;
      x ← get_block b;
      assert (negb (bool_decide (x.(btype) = BLOCK_FOREIGN)));;
      match x.(ops) with
      | Disk sectors => put_block b (mk_block x.(bname) x.(btype) x.(bsize) (Disk (<[Z.to_nat sector := buffer]> sectors)) x.(read_cnt) x.(write_cnt))
      | Partition on start => write_block n on (u32 (start + sector)) buffer
      end;;
      x ← get_block b;
      put_block b (mk_block x.(bname) x.(btype) x.(bsize) x.(ops) x.(read_cnt) (u64 (x.(write_cnt) + 1)))
  end.

(** the loop of [block_print_stats] over the roles: the devices whose counts it prints *)
Fixpoint stats_loop (i n : nat) : D (list nat) :=
  match n with
  | O => mret []
  | S n =>
      s ← get; r ← lift_out (ofault (s.(block_by_role) !! i));
      l ← stats_loop (S i) n; mret (option_list r ++ l)
  end.

Definition block_print_stats : D (list nat) := stats_loop 0 BLOCK_CNT.

(** [malloc] has memory; the device's number *)
Definition block_register (name : list Z) (type : block_type) (size : Z) (o : block_ops) : D nat :=
  s ← get;
  put (mk_devices (s.(all_blocks) ++ [mk_block (take 15 name) type size o 0 0]) s.(block_by_role));;
  mret (length s.(all_blocks)).

(** * Partitions *)

Definition part_type (t : Z) : block_type :=
  if t =? 0x20 then BLOCK_KERNEL else if t =? 0x21 then BLOCK_FILESYS else if t =? 0x22 then BLOCK_SCRATCH
  else if t =? 0x23 then BLOCK_SWAP else BLOCK_FOREIGN.

Definition found_partition (b : nat) (type start size part_nr : Z) : D unit :=
  x ← get_block b;
  if start >=? x.(bsize) then mret tt
  else if (u32 (start + size) <? start) || (u32 (start + size) >? x.(bsize)) then mret tt
  else
    name ← lift_out (text (lit "%s%d") [AStr (Some x.(bname)); A32 part_nr]);
    block_register (take 15 name) (part_type type) size (Partition b start);; mret tt.

(** a table entry: its type, offset and size *)
Record table_entry := mk_te { te_type : Z; te_offset : Z; te_size : Z }.

Definition word_le (l : list Z) (i : nat) : Z := l !!! i + 2 ^ 8 * l !!! (i + 1)%nat + 2 ^ 16 * l !!! (i + 2)%nat + 2 ^ 24 * l !!! (i + 3)%nat.

Definition pt_entry (pt : list Z) (i : nat) : table_entry :=
  let o := (446 + 16 * i)%nat in mk_te (pt !!! (o + 4)%nat) (word_le pt (o + 8)) (word_le pt (o + 12)).

Definition signature (pt : list Z) : Z := pt !!! 510%nat + 2 ^ 8 * pt !!! 511%nat.

Definition is_extended (t : Z) : bool := (t =? 0x05) || (t =? 0x0f) || (t =? 0x85) || (t =? 0xc5).

(** [block_read (block, 0, pt)]; partitions are on a disk *)
Definition read_sector0 (b : nat) : D (list Z) := read_block 1 b 0.

(** the loop over the entries; [table] reads another table *)
Fixpoint entries_loop (table : Z → Z → Z → D Z) (b : nat) (sector primary : Z) (l : list table_entry) (part_nr : Z) : D Z :=
  match l with
  | [] => mret part_nr
  | e :: l =>
      part_nr ← (if (e.(te_size) =? 0) || (e.(te_type) =? 0) then mret part_nr
        else if is_extended e.(te_type) then
          if sector =? 0 then table e.(te_offset) e.(te_offset) part_nr
          else table (u32 (e.(te_offset) + primary)) primary part_nr
        else
          let part_nr := part_nr + 1 in
          found_partition b e.(te_type) (u32 (e.(te_offset) + sector)) e.(te_size) part_nr;; mret part_nr);
      entries_loop table b sector primary l part_nr
  end.

(** [n] bounds the recursion *)
Fixpoint read_partition_table (n : nat) (b : nat) (sector primary part_nr : Z) : D Z :=
  match n with
  | O => fail NoFuel
  | S n =>
      x ← get_block b;
      if sector >=? x.(bsize) then mret part_nr else
      pt ← read_sector0 b;
      if negb (signature pt =? 0xaa55) then mret part_nr else
      entries_loop (read_partition_table n b) b sector primary (pt_entry pt <$> seq 0 4) part_nr
  end.

Definition partition_scan (n : nat) (b : nat) : D Z := read_partition_table n b 0 0 0.

(** * Roles *)

(** the devices from [i] on *)
Fixpoint find_type (role : block_type) (l : list block) (i : nat) : option nat :=
  match l with [] => None | b :: l => if bool_decide (b.(btype) = role) then Some i else find_type role l (S i) end.

Definition locate_block_device (role : block_type) (name : option (list Z)) : D unit :=
  b ← match name with
      | Some name => b ← block_get_by_name name; assert (bool_decide (is_Some b));; mret b
      | None => s ← get; mret (find_type role s.(all_blocks) 0)
      end;
  match b with Some b => block_set_role role (Some b) | None => mret tt end.

Definition locate_block_devices (filesys scratch swap : option (list Z)) : D unit :=
  locate_block_device BLOCK_FILESYS filesys;; locate_block_device BLOCK_SCRATCH scratch;; locate_block_device BLOCK_SWAP swap.

(** * Accesses *)

Definition block_ok (s : devices) (b : nat) (x : block) : Prop :=
  0 ≤ x.(bsize) < 2 ^ 32 ∧
  match x.(ops) with
  | Disk l => Z.of_nat (length l) = x.(bsize)
  | Partition on st => (on < b)%nat ∧ 0 ≤ st ∧ ∃ y, s.(all_blocks) !! on = Some y ∧ st + x.(bsize) ≤ y.(bsize)
  end.

(** partitions lie within the device they are on, which was there before *)
Definition dev_ok (s : devices) : Prop := ∀ b x, s.(all_blocks) !! b = Some x → block_ok s b x.

(** all of a device but its statistics *)
Definition static (x : block) : list Z * block_type * Z * block_ops := (x.(bname), x.(btype), x.(bsize), x.(ops)).

Definition counted_only (s s' : devices) : Prop :=
  static <$> s'.(all_blocks) = static <$> s.(all_blocks) ∧ s'.(block_by_role) = s.(block_by_role).

(** the sector of a disk behind the sector of a device *)
Fixpoint resolve (n : nat) (s : devices) (b : nat) (sector : Z) : option (list Z) :=
  match n with
  | O => None
  | S n =>
      x ← s.(all_blocks) !! b;
      match x.(ops) with Disk l => l !! Z.to_nat sector | Partition on st => resolve n s on (st + sector) end
  end.

Lemma static_lookup s s' b x : counted_only s s' → s.(all_blocks) !! b = Some x → ∃ x', s'.(all_blocks) !! b = Some x' ∧ static x' = static x.
Proof.
  intros [E _] Hx. assert (H : (static <$> all_blocks s') !! b = Some (static x)) by (rewrite E, list_lookup_fmap, Hx; done).
  rewrite list_lookup_fmap in H. apply fmap_Some in H as (x' & H & ->). by exists x'.
Qed.

Lemma get_block_eq s b x : s.(all_blocks) !! b = Some x → get_block b s = Ok (x, s).
Proof. intros H. unfold get_block. rewrite (bind_ok get _ s s s) by done. by rewrite H. Qed.

Lemma check_block_eq s b x sector : s.(all_blocks) !! b = Some x → sector < x.(bsize) → check_block_sector b sector s = Ok (tt, s).
Proof.
  intros H Hs. unfold check_block_sector. rewrite (bind_ok _ _ _ _ _ (get_block_eq _ _ _ H)).
  unfold assert. rewrite Z.geb_leb. by destruct (Z.leb_spec (bsize x) sector); [lia|].
Qed.

Lemma count_read s b x : s.(all_blocks) !! b = Some x →
  counted_only s (mk_devices (<[b := mk_block x.(bname) x.(btype) x.(bsize) x.(ops) (u64 (x.(read_cnt) + 1)) x.(write_cnt)]> s.(all_blocks)) s.(block_by_role)).
Proof.
  intros Hx. split; [|done]. simpl. rewrite list_fmap_insert. apply list_insert_id. by rewrite list_lookup_fmap, Hx.
Qed.

Lemma counted_only_trans s1 s2 s3 : counted_only s1 s2 → counted_only s2 s3 → counted_only s1 s3.
Proof. intros [E1 F1] [E2 F2]. split; congruence. Qed.

(** [n] levels are enough for the first [n] devices *)
Lemma read_block_spec n s b x sector : dev_ok s → (b < n)%nat → s.(all_blocks) !! b = Some x → 0 ≤ sector < x.(bsize) →
  ∃ l s', resolve n s b sector = Some l ∧ read_block n b sector s = Ok (l, s') ∧ counted_only s s'.
Proof.
  intros Hok. revert b x sector. induction n as [|n IH]; intros b x sector Hn Hx Hs; [lia|].
  cbn [read_block resolve]. rewrite Hx. cbn [mbind option_bind].
  rewrite (bind_ok _ _ _ _ _ (check_block_eq _ _ _ sector Hx ltac:(lia))), (bind_ok _ _ _ _ _ (get_block_eq _ _ _ Hx)).
  destruct (Hok b x Hx) as [Hsz Ho]. destruct (ops x) as [l|on st] eqn:Eo.
  - destruct (lookup_lt_is_Some_2 l (Z.to_nat sector) ltac:(lia)) as [d Hd]. exists d. eexists. split; [done|]. split.
    + rewrite Hd. erewrite bind_ok by reflexivity. rewrite (bind_ok _ _ _ _ _ (get_block_eq _ _ _ Hx)). reflexivity.
    + by apply count_read.
  - destruct Ho as (Hon & Hst & y & Hy & Hin). destruct (Hok on y Hy) as [Hsy _].
    destruct (IH on y (st + sector) ltac:(lia) Hy ltac:(lia)) as (d & s' & Er & E & Hc).
    exists d. rewrite u32_small by lia. rewrite (bind_ok _ _ _ _ _ E). destruct (static_lookup s s' b x Hc Hx) as (x' & Hx' & _).
    rewrite (bind_ok _ _ _ _ _ (get_block_eq _ _ _ Hx')). eexists. split; [done|]. split; [reflexivity|].
    apply (counted_only_trans s s'); [done|by apply count_read].
Qed.

(** Reads of a partition are reads of its part of the disk: in a list of devices where
    every partition lies within its device, a read of any sector of any device returns
    the disk's sector behind it, touches nothing but statistics, and never panics. *)
Theorem device_reads s b x sector : dev_ok s → s.(all_blocks) !! b = Some x → 0 ≤ sector < x.(bsize) →
  ∃ l s', resolve (S b) s b sector = Some l ∧ read_block (S b) b sector s = Ok (l, s') ∧ counted_only s s'.
Proof. intros Hok Hx Hs. apply (read_block_spec (S b) s b x); [done|lia|done|done]. Qed.

(** * Scanning *)

(** the name of partition [nr] of the device [name] *)
Definition part_name (name : list Z) (nr : Z) : list Z :=
  match text (lit "%s%d") [AStr (Some name); A32 nr] with Ok l => take 15 l | Err _ => [] end.

(** the devices that the entries [l] of the table in sector 0 of the disk [b] add, when
    [nr] partitions were found before *)
Fixpoint scan (b : nat) (name : list Z) (size : Z) (l : list table_entry) (nr : Z) : list block :=
  match l with
  | [] => []
  | e :: l =>
      if (e.(te_size) =? 0) || (e.(te_type) =? 0) then scan b name size l nr else
      (if (e.(te_offset) <? size) && (e.(te_offset) + e.(te_size) <=? size)
       then [mk_block (part_name name (nr + 1)) (part_type e.(te_type)) e.(te_size) (Partition b e.(te_offset)) 0 0] else [])
      ++ scan b name size l (nr + 1)
  end.

(** the partitions that are in the table *)
Definition used_entries (l : list table_entry) : Z :=
  Z.of_nat (length (filter (λ e, (e.(te_size) =? 0) || (e.(te_type) =? 0) = false) l)).

Definition te_ok (e : table_entry) : Prop := 0 ≤ te_offset e < 2 ^ 32 ∧ 0 ≤ te_size e < 2 ^ 32 ∧ is_extended (te_type e) = false.

Definition append (l : list block) (s : devices) : devices := mk_devices (s.(all_blocks) ++ l) s.(block_by_role).

Lemma lookup_append s l b x : s.(all_blocks) !! b = Some x → (append l s).(all_blocks) !! b = Some x.
Proof. intros H. simpl. rewrite lookup_app_l; [done|]. by eapply lookup_lt_Some. Qed.

Lemma found_spec s b x t st size nr : s.(all_blocks) !! b = Some x → (length x.(bname) < 16)%nat → 0 ≤ x.(bsize) < 2 ^ 32 →
  0 ≤ st < 2 ^ 32 → 0 ≤ size < 2 ^ 32 →
  found_partition b t st size nr s = Ok (tt, append (if (st <? x.(bsize)) && (st + size <=? x.(bsize))
    then [mk_block (part_name x.(bname) nr) (part_type t) size (Partition b st) 0 0] else []) s).
Proof.
  intros Hx Hn Hb Hst Hsz. assert (En : append [] s = s) by (unfold append; rewrite app_nil_r; by destruct s).
  unfold found_partition. rewrite (bind_ok _ _ _ _ _ (get_block_eq _ _ _ Hx)), Z.geb_leb.
  destruct (Z.leb_spec (bsize x) st), (Z.ltb_spec st (bsize x)); try lia; cbn [andb]; [by rewrite En|]. rewrite Z.gtb_ltb.
  destruct (Z.leb_spec (st + size) (bsize x)) as [Hle|Hgt].
  - rewrite u32_small by lia. destruct (Z.ltb_spec (st + size) st); [lia|]. destruct (Z.ltb_spec (bsize x) (st + size)); [lia|]. cbn [orb].
    destruct (text_sd (bname x) nr) as (ds & E & _); [lia|]. unfold part_name. rewrite E.
    rewrite (bind_ok (lift_out _) _ s _ s (lift_out_eq _ _ _ eq_refl)). unfold block_register.
    erewrite bind_ok; [|erewrite bind_ok by reflexivity; reflexivity]. unfold append. rewrite take_take.
    rewrite Nat.min_id. reflexivity.
  - assert (Hc : (u32 (st + size) <? st) || (bsize x <? u32 (st + size)) = true).
    { destruct (decide (st + size < 2 ^ 32)).
      - rewrite u32_small by lia. destruct (Z.ltb_spec (bsize x) (st + size)); [|lia]. by rewrite orb_true_r.
      - assert (u32 (st + size) = st + size - 2 ^ 32) as ->.
        { unfold u32. symmetry. apply (Z.mod_unique_pos _ _ 1); lia. }
        destruct (Z.ltb_spec (st + size - 2 ^ 32) st); [done|lia]. }
    rewrite Hc. by rewrite En.
Qed.

Lemma append_append l1 l2 s : append l2 (append l1 s) = append (l1 ++ l2) s.
Proof. unfold append. simpl. by rewrite app_assoc. Qed.

Lemma entries_loop_spec table b s x l nr : s.(all_blocks) !! b = Some x → (length x.(bname) < 16)%nat → 0 ≤ x.(bsize) < 2 ^ 32 →
  Forall te_ok l →
  entries_loop table b 0 0 l nr s = Ok (nr + used_entries l, append (scan b x.(bname) x.(bsize) l nr) s).
Proof.
  intros Hx Hn Hb Hl. revert s nr Hx. induction Hl as [|e l (Ho & Hs & He) Hl IH]; intros s nr Hx.
  { unfold append. cbn. rewrite Z.add_0_r, app_nil_r. by destruct s. }
  cbn [entries_loop scan]. unfold used_entries. rewrite filter_cons.
  destruct ((te_size e =? 0) || (te_type e =? 0)) eqn:Ez.
  - rewrite (bind_ok _ _ s nr s) by done. rewrite IH by done. rewrite decide_False by done. done.
  - rewrite He. cbv zeta. rewrite Z.add_0_r, u32_small by lia.
    erewrite bind_ok; [|erewrite bind_ok by (by apply found_spec); reflexivity].
    rewrite IH by (by apply lookup_append). rewrite append_append, decide_True by done. unfold used_entries. cbn [length]. do 2 f_equal. lia.
Qed.

Lemma scan_ok s b x l nr : s.(all_blocks) !! b = Some x → Forall te_ok l → 0 ≤ x.(bsize) < 2 ^ 32 →
  Forall (λ y, 0 ≤ y.(bsize) < 2 ^ 32 ∧ ∃ st, y.(ops) = Partition b st ∧ 0 ≤ st ∧ st + y.(bsize) ≤ x.(bsize)) (scan b x.(bname) x.(bsize) l nr).
Proof.
  intros Hx Hl Hb. revert nr. induction Hl as [|e l (Ho & Hs & _) Hl IH]; intros nr; cbn [scan]; [constructor|].
  destruct ((te_size e =? 0) || (te_type e =? 0)); [done|]. apply Forall_app. split; [|done].
  destruct (Z.ltb_spec (te_offset e) (bsize x)), (Z.leb_spec (te_offset e + te_size e) (bsize x)); cbn [andb]; try constructor; [|constructor].
  simpl. split; [lia|]. exists (te_offset e). split; [done|lia].
Qed.

Lemma append_ok s b x l : dev_ok s → s.(all_blocks) !! b = Some x →
  Forall (λ y, 0 ≤ y.(bsize) < 2 ^ 32 ∧ ∃ st, y.(ops) = Partition b st ∧ 0 ≤ st ∧ st + y.(bsize) ≤ x.(bsize)) l → dev_ok (append l s).
Proof.
  intros Hok Hx Hl c y Hy. simpl in Hy. apply lookup_app_Some in Hy as [Hy|[Hc Hy]].
  - destruct (Hok c y Hy) as [Hs Ho]. split; [done|]. destruct (ops y) as [d|on st]; [done|].
    destruct Ho as (H1 & H2 & z & Hz & H3). split; [done|]. split; [done|]. exists z. split; [by apply lookup_append|done].
  - rewrite Forall_lookup in Hl. destruct (Hl _ _ Hy) as (Hs & st & Eo & Hst & Hin). split; [done|]. rewrite Eo.
    split; [apply lookup_lt_Some in Hx; lia|]. split; [done|]. exists x. split; [by apply lookup_append|done].
Qed.

(** [s] after reads of the disk [b] *)
Lemma dev_ok_counted s s' : dev_ok s → counted_only s s' → dev_ok s'.
Proof.
  intros Hok Hc b x' Hx'. assert (Hl : (static <$> all_blocks s) !! b = Some (static x')).
  { rewrite <- (proj1 Hc), list_lookup_fmap, Hx'. done. }
  rewrite list_lookup_fmap in Hl. apply fmap_Some in Hl as (x & Hx & E). unfold static in E. injection E as _ _ Es Eo.
  destruct (Hok b x Hx) as [Hs Ho]. unfold block_ok. rewrite Es, Eo. split; [done|]. destruct (ops x) as [l|on st]; [done|].
  destruct Ho as (H1 & H2 & y & Hy & H3). split; [done|]. split; [done|].
  destruct (static_lookup s s' on y Hc Hy) as (y' & Hy' & Ey). exists y'. split; [done|]. unfold static in Ey. injection Ey as _ _ -> _. done.
Qed.

(** the disk [b] and the table in its first sector *)
Record disk_at (s : devices) (b : nat) (x : block) (pt : list Z) : Prop := {
  da_block : s.(all_blocks) !! b = Some x;
  da_name : (length x.(bname) < 16)%nat;
  da_table : ∃ r, x.(ops) = Disk (pt :: r);
  da_sign : signature pt = 0xaa55
}.

Lemma disk_read s b x pt : dev_ok s → disk_at s b x pt →
  ∃ s' x', read_sector0 b s = Ok (pt, s') ∧ counted_only s s' ∧ dev_ok s' ∧ static x' = static x ∧ disk_at s' b x' pt.
Proof.
  intros Hok [Hx Hn [r Er] Hs]. destruct (Hok b x Hx) as [Hsz Ho]. rewrite Er in Ho. cbn [length] in Ho.
  unfold read_sector0. cbn [read_block]. rewrite (bind_ok _ _ _ _ _ (check_block_eq _ _ _ 0 Hx ltac:(lia))), (bind_ok _ _ _ _ _ (get_block_eq _ _ _ Hx)).
  rewrite Er. erewrite bind_ok by reflexivity. rewrite (bind_ok _ _ _ _ _ (get_block_eq _ _ _ Hx)).
  pose proof (count_read s b x Hx) as Hc. eexists _, _. split; [reflexivity|]. split; [exact Hc|]. split; [by apply (dev_ok_counted s)|].
  split; [|split; simpl; [by apply list_lookup_insert_eq, (lookup_lt_Some _ _ _ Hx)|done|by exists r|done]]. reflexivity.
Qed.


(** ** Extended partitions *)

Lemma extended_step n s b x pt sector primary nr e l : dev_ok s → disk_at s b x pt → 0 ≤ sector < x.(bsize) →
  pt_entry pt <$> seq 0 4 = e :: l → (e.(te_size) =? 0) || (e.(te_type) =? 0) = false → is_extended e.(te_type) = true →
  (∀ s' x', dev_ok s' → disk_at s' b x' pt → x'.(bsize) = x.(bsize) →
     read_partition_table n b (if sector =? 0 then e.(te_offset) else u32 (e.(te_offset) + primary))
       (if sector =? 0 then e.(te_offset) else primary) nr s' = Err NoFuel) →
  read_partition_table (S n) b sector primary nr s = Err NoFuel.
Proof.
  intros Hok Hd Hs El Ez Ee Hrec. destruct (disk_read s b x pt Hok Hd) as (s1 & x1 & E & Hc & Hok1 & Es & Hd1).
  unfold static in Es. injection Es as _ _ Esz _. cbn [read_partition_table].
  rewrite (bind_ok _ _ _ _ _ (get_block_eq _ _ _ (da_block _ _ _ _ Hd))), Z.geb_leb. destruct (Z.leb_spec (bsize x) sector); [lia|].
  rewrite (bind_ok _ _ _ _ _ E), (da_sign _ _ _ _ Hd). change (43605 =? 43605) with true. cbn [negb]. rewrite El. cbn [entries_loop].
  apply bind_err. rewrite Ez, Ee. specialize (Hrec s1 x1 Hok1 Hd1 Esz). by destruct (sector =? 0).
Qed.

(** [read_partition_table] reads sector 0 whatever table it is called for.  On a disk
    whose first entry is an extended partition at [o] with [2 * o] within the disk it
    finds that entry again in every call, and calls itself without end: no bound on the
    depth of the recursion is enough. *)
Theorem extended_partition_diverges n s b x pt e l : dev_ok s → disk_at s b x pt → pt_entry pt <$> seq 0 4 = e :: l →
  e.(te_size) ≠ 0 → is_extended e.(te_type) = true → 0 < e.(te_offset) → 2 * e.(te_offset) < x.(bsize) →
  partition_scan n b s = Err NoFuel.
Proof.
  intros Hok Hd El Hsz Hext Ho Hin.
  assert (Hz : (te_size e =? 0) || (te_type e =? 0) = false).
  { destruct (Z.eqb_spec (te_size e) 0); [done|]. destruct (Z.eqb_spec (te_type e) 0) as [E|]; [by rewrite E in Hext|done]. }
  assert (Hx : 0 ≤ bsize x < 2 ^ 32) by apply (Hok b x (da_block _ _ _ _ Hd)).
  assert (Hloop : ∀ k s x' sector nr, dev_ok s → disk_at s b x' pt → bsize x' = bsize x → sector = te_offset e ∨ sector = 2 * te_offset e →
    read_partition_table k b sector (te_offset e) nr s = Err NoFuel).
  { induction k as [|k IH]; intros s0 x0 sector nr Hok0 Hd0 E0 Hs; [done|].
    apply (extended_step k s0 b x0 pt sector (te_offset e) nr e l); try done; [lia|]. intros s' x' Hok' Hd' E'.
    destruct (Z.eqb_spec sector 0); [lia|]. apply (IH s' x'); [done|done|congruence|]. right. rewrite u32_small by lia. lia. }
  destruct n as [|n]; [done|]. apply (extended_step n s b x pt 0 0 0 e l); try done; [lia|].
  intros s' x' Hok' Hd' E'. apply (Hloop n s' x'); [done|done|done|by left].
Qed.

(** [block_print_stats] runs over [BLOCK_CNT] roles, but the table of roles has only
    [BLOCK_ROLE_CNT]: it reads past its end. *)
Theorem stats_past_roles s : length s.(block_by_role) = BLOCK_ROLE_CNT → block_print_stats s = Err Fault.
Proof.
  intros H. unfold block_print_stats, BLOCK_CNT. destruct s as [bl [|r0 [|r1 [|r2 [|r3 [|r4 l]]]]]]; try discriminate H. reflexivity.
Qed.

(** ** Examples *)

(** the bytes of a table entry *)
Definition ex_entry (type offset size : Z) : list Z := [0; 0; 0; 0; type; 0; 0; 0; offset; 0; 0; 0; size; 0; 0; 0].

(** a disk of 16 sectors whose table has the entry and a swap partition *)
Definition ex_table (type : Z) : list Z :=
  replicate 446 0 ++ ex_entry type 2 4 ++ ex_entry 0x23 6 3 ++ replicate 32 0 ++ [0x55; 0xaa].
Definition ex_disk (type : Z) : block := mk_block [104; 100; 97] BLOCK_RAW 16 (Disk (ex_table type :: replicate 15 (replicate 512 0))) 0 0.
Definition ex_devices (type : Z) : devices := mk_devices [ex_disk type] [None; None; None; None].

Lemma ex_dev_ok type : dev_ok (ex_devices type).
Proof.
  intros [|b] x Hx; [|discriminate Hx]. injection Hx as <-. split; [cbn; lia|reflexivity].
Qed.

Lemma ex_disk_at type : disk_at (ex_devices type) 0 (ex_disk type) (ex_table type).
Proof. split; [reflexivity|simpl; lia|by eexists|reflexivity]. Qed.


Lemma extended_partition_witness : partition_scan 1000 0 (ex_devices 0x05) = Err NoFuel.
Proof.
  apply (extended_partition_diverges 1000 (ex_devices 5) 0 (ex_disk 5) (ex_table 5) (mk_te 5 2 4) [mk_te 0x23 6 3; mk_te 0 0 0; mk_te 0 0 0]);
    [apply ex_dev_ok|apply ex_disk_at|reflexivity|discriminate|reflexivity|reflexivity|reflexivity].
Defined.

Lemma stats_past_roles_witness : block_print_stats (ex_devices 0x21) = Err Fault.
Proof. apply stats_past_roles. reflexivity. Defined.

(** the swap partition of the example, mounted by hand *)
Definition ex_partition : devices :=
  mk_devices [ex_disk 0x21; mk_block [104] BLOCK_SWAP 3 (Partition 0 6) 0 0] [None; None; None; None].

Lemma device_reads_witness : ∃ l s', resolve 2 ex_partition 1 2 = Some l ∧ read_block 2 1 2 ex_partition = Ok (l, s') ∧ counted_only ex_partition s'.
Proof.
  apply (device_reads ex_partition 1 (mk_block [104] BLOCK_SWAP 3 (Partition 0 6) 0 0)); [|reflexivity|cbn; lia].
  intros [|[|b]] x Hx; [injection Hx as <-; split; [cbn; lia|reflexivity]| |discriminate Hx].
  injection Hx as <-. split; [cbn; lia|]. cbn [ops]. split; [lia|]. split; [lia|]. exists (ex_disk 33). split; [reflexivity|cbn; lia].
Defined.
