(* ===== verification/Rtc.v ===== *)
(** devices/rtc.c: the real-time clock.

    The bytes that the clock's registers give are read off a list, one per read.  An
    [int] computation that overflows wraps around. *)

From S2P Require Import Prelude.

(** the values that the reads of the register [CMOS_REG_IO] give, in order *)
Abbreviation R := (M (list Z)).

(** selects the register and reads it *)
Definition cmos_read (index : Z) : R Z :=
  l ← get; match l with [] => fail NoFuel | v :: l => put l;; mret (u8 v) end.

Definition bcd_to_bin (x : Z) : Z := Z.land x 0x0f + Z.shiftr x 4 * 10.

Definition days_per_month : list Z := [31; 28; 31; 30; 31; 30; 31; 31; 30; 31; 30; 31].

(** a date and time as the registers have it *)
Record rtc_time := mk_rtc { sec : Z; min : Z; hour : Z; mday : Z; mon : Z; year : Z }.

(** the loop that reads the registers until the second did not change; every turn
    takes seven of the values *)
Fixpoint read_loop (n : nat) : R rtc_time :=
  match n with
  | O => fail NoFuel
  | S n =>
      sec ← cmos_read 0; min ← cmos_read 2; hour ← cmos_read 4; mday ← cmos_read 7; mon ← cmos_read 8; year ← cmos_read 9;
      again ← cmos_read 0;
      if negb (bcd_to_bin sec =? bcd_to_bin again) then read_loop n
      else mret (mk_rtc (bcd_to_bin sec) (bcd_to_bin min) (bcd_to_bin hour) (bcd_to_bin mday) (bcd_to_bin mon) (bcd_to_bin year))
  end.

(** [for (i = 1; i <= mon; i++) time += days_per_month[i - 1] * 24 * 60 * 60;] with [k] turns left *)
Fixpoint month_loop (k : nat) (i time : Z) : outcome Z :=
  match k with
  | O => Ok time
  | S k => d ← ofault (days_per_month !! Z.to_nat (i - 1)); month_loop k (i + 1) (u32 (time + d * 24 * 60 * 60))
  end.

(** what follows the loop *)
Definition seconds (r : rtc_time) : outcome Z :=
  let year := (if r.(year) <? 70 then r.(year) + 100 else r.(year)) - 70 in
  let time := u32 (s32 ((year * 365 + Z.quot (year - 1) 4) * 24 * 60 * 60)) in
  time ← month_loop (Z.to_nat r.(mon)) 1 time;
  let time := if (r.(mon) >? 2) && (Z.rem year 4 =? 0) then u32 (time + 24 * 60 * 60) else time in
  Ok (u32 (time + (r.(mday) - 1) * 24 * 60 * 60 + r.(hour) * 60 * 60 + r.(min) * 60 + r.(sec))).

Definition rtc_get_time : R Z := l ← get; r ← read_loop (length l); lift_out (seconds r).

(** * The calendar *)

Definition is_leap (y : Z) : bool := (y mod 4 =? 0) && (negb (y mod 100 =? 0) || (y mod 400 =? 0)).

(** the days of the years from 1970 to the one before [1970 + y] *)
Definition days_of_years (y : nat) : Z := foldl (λ d i, d + if is_leap (1970 + Z.of_nat i) then 366 else 365) 0 (seq 0 y).

(** the days of the months before [m] *)
Definition days_of_months (y : Z) (m : nat) : Z :=
  foldl (λ d i, d + (days_per_month !!! i + if (i =? 1)%nat && is_leap y then 1 else 0)) 0 (seq 0 (m - 1)).

(** the seconds from the beginning of 1970 to a date and time of the year [1970 + y] *)
Definition epoch (y : nat) (m : nat) (d h mi s : Z) : Z :=
  86400 * (days_of_years y + days_of_months (1970 + Z.of_nat y) m + (d - 1)) + 3600 * h + 60 * mi + s.

(** the registers' year *)
Definition year_reg (y : nat) : Z := (70 + Z.of_nat y) mod 100.

(** how many days [seconds] is ahead *)
Definition ahead (y m : nat) : Z :=
  match seconds (mk_rtc 0 0 0 1 (Z.of_nat m) (year_reg y)) with Ok t => (t - epoch y m 1 0 0 0) / 86400 | Err _ => 0 end.

(** every month of the 67 years from 1970 on *)
Definition months : list (nat * nat) := y ← seq 0 67; m ← seq 1 12; [(y, m)].

Lemma ahead_bounds : forallb (λ '(y, m), (27 <=? ahead y m) && (ahead y m <=? 32) &&
  match seconds (mk_rtc 0 0 0 1 (Z.of_nat m) (year_reg y)) with
  | Ok t => (t =? epoch y m 1 0 0 0 + 86400 * ahead y m) && (0 <=? t) && (t <? 2 ^ 32 - 86400 * 32) | Err _ => false end) months = true.
Proof. vm_compute. reflexivity. Qed.

Lemma u32_add a b : u32 (u32 a + b) = u32 (a + b).
Proof. unfold u32. apply Zplus_mod_idemp_l. Qed.

Lemma seconds_shift r t : seconds (mk_rtc 0 0 0 1 r.(mon) r.(year)) = Ok t →
  seconds r = Ok (u32 (t + (86400 * (r.(mday) - 1) + 3600 * r.(hour) + 60 * r.(min) + r.(sec)))).
Proof.
  unfold seconds. cbn [sec min hour mday mon year]. destruct (month_loop _ _ _) as [x|e]; [|done]. cbn [mbind outcome_bind].
  set (w := if _ && _ then _ else x). intros [= <-]. rewrite u32_add. do 2 f_equal. lia.
Qed.

(** a number below 100 in a register *)
Definition bcd (x : Z) : Z := 16 * (x / 10) + x mod 10.

Lemma bcd_roundtrip x : 0 ≤ x < 100 → bcd_to_bin (u8 (bcd x)) = x.
Proof.
  intros Hx. assert (H : forallb (λ n, bcd_to_bin (u8 (bcd (Z.of_nat n))) =? Z.of_nat n) (seq 0 100) = true) by (vm_compute; reflexivity).
  pose proof (proj1 (forallb_forall _ _) H (Z.to_nat x) ltac:(apply list_elem_of_In, elem_of_seq; lia)) as E.
  cbv beta in E. rewrite Z2Nat.id in E by lia. by apply Z.eqb_eq.
Qed.

(** what the registers of a clock give that shows this time twice *)
Definition registers (r : rtc_time) : list Z := bcd <$> [r.(sec); r.(min); r.(hour); r.(mday); r.(mon); r.(year); r.(sec)].

Lemma rtc_get_time_eq r t l : 0 ≤ r.(sec) < 100 → 0 ≤ r.(min) < 100 → 0 ≤ r.(hour) < 100 → 0 ≤ r.(mday) < 100 → 0 ≤ r.(mon) < 100 →
  0 ≤ r.(year) < 100 → seconds r = Ok t → rtc_get_time (registers r ++ l) = Ok (t, l).
Proof.
  intros H1 H2 H3 H4 H5 H6 E. unfold rtc_get_time. erewrite bind_ok by reflexivity. rewrite length_app.
  change (length (registers r) + length l)%nat with (S (6 + length l)). erewrite bind_ok.
  2: { cbn [read_loop registers fmap list_fmap app]. do 7 (erewrite bind_ok by reflexivity). rewrite Z.eqb_refl. cbn [negb]. reflexivity. }
  rewrite !bcd_roundtrip by done. apply lift_out_eq. by destruct r.
Qed.

(** [rtc_get_time] is wrong by about a month for every time from 1970 to 2036: the loop
    over the months adds the days of the current month too, and the leap days are not
    counted where they are.  The clock is 27 to 32 days ahead. *)
Theorem rtc_ahead y m d h mi s l : (y < 67)%nat → (1 ≤ m ≤ 12)%nat → 1 ≤ d ≤ 31 → 0 ≤ h < 24 → 0 ≤ mi < 60 → 0 ≤ s < 60 →
  ∃ k, 27 ≤ k ≤ 32 ∧ rtc_get_time (registers (mk_rtc s mi h d (Z.of_nat m) (year_reg y)) ++ l) = Ok (epoch y m d h mi s + 86400 * k, l).
Proof.
  intros Hy Hm Hd Hh Hmi Hs. pose proof (proj1 (forallb_forall _ _) ahead_bounds (y, m)) as H. cbv beta iota in H.
  assert (Hin : In (y, m) months).
  { apply list_elem_of_In. apply list_elem_of_bind. exists y. split; [|apply elem_of_seq; lia]. apply list_elem_of_bind. exists m.
    split; [by apply list_elem_of_singleton|apply elem_of_seq; lia]. }
  specialize (H Hin). destruct (seconds (mk_rtc 0 0 0 1 (Z.of_nat m) (year_reg y))) as [t|e] eqn:Et; [|by rewrite andb_false_r in H].
  exists (ahead y m). apply andb_prop in H as [H1 H]. apply andb_prop in H1 as [H1 H2]. apply andb_prop in H as [H H5]. apply andb_prop in H as [H3 H4].
  split; [lia|]. assert (Hyr : 0 ≤ year_reg y < 100) by (apply Z.mod_pos_bound; lia).
  apply rtc_get_time_eq; cbn [sec min hour mday mon year]; try lia.
  rewrite (seconds_shift (mk_rtc s mi h d (Z.of_nat m) (year_reg y)) t Et). cbn [sec min hour mday].
  rewrite u32_small by lia. unfold epoch in *. f_equal. lia.
Qed.

Lemma rtc_ahead_witness : ∃ k, 27 ≤ k ≤ 32 ∧ rtc_get_time ([0; 0; 0; 0x01; 0x01; 0x70; 0] ++ []) = Ok (0 + 86400 * k, []).
Proof. apply (rtc_ahead 0 1 1 0 0 0 []); lia. Defined.
