(* ===== verification/Boot.v ===== *)
(** threads/init.c: the kernel's command line.

    The arguments are strings of characters, without the null behind them; what is printed
    is left out.  The options go to the variables of init.c, thread.c and shutdown.c that
    [options] holds; an action is a call of the routine for it. *)

From Stdlib Require Import Ascii String.
From S2P Require Import Prelude CString CStdlib Stdio.

Definition str := list Z.

Inductive shutdown_type := SHUTDOWN_NONE | SHUTDOWN_POWER_OFF | SHUTDOWN_REBOOT.

(** [seeds]: the arguments of the calls of [random_init], the last one first *)
Record options := mk_options { format_filesys : bool; filesys_bdev_name : option str; scratch_bdev_name : option str; swap_bdev_name : option str;
  user_page_limit : Z; thread_mlfqs : bool; how : shutdown_type; seeds : list Z }.

(** ** The words of the command line *)

Definition LOADER_ARGS_LEN : Z := 128.

(** the string at the start of [l] *)
Fixpoint string_at (l : list Z) : option str :=
  match l with [] => None | c :: r => if c =? 0 then Some [] else s ← string_at r; Some (c :: s) end.

(** [strnlen] *)
Fixpoint len_at (l : list Z) (n : nat) : nat :=
  match n, l with S n, c :: r => if c =? 0 then O else S (len_at r n) | _, _ => O end.

(** [area]: the memory from [LOADER_ARGS] on; [argv] has room for 64 words and a null pointer *)
Fixpoint words_loop (area : list Z) (n : nat) (i p : Z) : outcome (list str) :=
  match n with
  | O => if i <=? LOADER_ARGS_LEN / 2 then Ok [] else Err Fault
  | S n =>
      _ ← oassert (p <? LOADER_ARGS_LEN);
      _ ← (if i <=? LOADER_ARGS_LEN / 2 then Ok tt else Err Fault);
      let l := drop (Z.to_nat p) area in
      w ← ofault (string_at l);
      r ← words_loop area n (i + 1) (p + Z.of_nat (len_at l (Z.to_nat (LOADER_ARGS_LEN - p))) + 1);
      Ok (w :: r)
  end.

Definition read_command_line (argc : nat) (area : list Z) : outcome (list str) := words_loop area argc 0 0.

(** ** Options *)

(** the two calls of [strtok_r]: up to an equals sign, and the rest if there is one *)
Fixpoint before_eq (s : str) : str := match s with [] => [] | c :: r => if c =? chr "=" then [] else c :: before_eq r end.
Fixpoint behind_eq (s : str) : str := match s with [] => [] | c :: r => if c =? chr "=" then r else behind_eq r end.
Definition value_of (s : str) : option str := match behind_eq s with [] => None | v => Some v end.

(** [atoi (value)] *)
Definition atoi_of (v : option str) : outcome Z :=
  match v with
  | None => Err AssertFail
  | Some v => match atoi 1 (write ∅ 1 (v ++ [0])) with Ok (n, _) => Ok n | Err e => Err e end
  end.

Definition set_how (h : shutdown_type) (o : options) : options :=
  mk_options o.(format_filesys) o.(filesys_bdev_name) o.(scratch_bdev_name) o.(swap_bdev_name) o.(user_page_limit) o.(thread_mlfqs) h o.(seeds).
Definition set_seed (n : Z) (o : options) : options :=
  mk_options o.(format_filesys) o.(filesys_bdev_name) o.(scratch_bdev_name) o.(swap_bdev_name) o.(user_page_limit) o.(thread_mlfqs) o.(how) (n :: o.(seeds)).

(** one option; [None]: [usage], which powers the machine off *)
Definition parse_option (a : str) (o : options) : outcome (option options) :=
  let name := before_eq a in let value := value_of a in
  let named s := bool_decide (name = chars s) in
  if named "-h" then Ok None
  else if named "-q" then Ok (Some (set_how SHUTDOWN_POWER_OFF o))
  else if named "-r" then Ok (Some (set_how SHUTDOWN_REBOOT o))
  else if named "-f" then Ok (Some (mk_options true o.(filesys_bdev_name) o.(scratch_bdev_name) o.(swap_bdev_name) o.(user_page_limit) o.(thread_mlfqs) o.(how) o.(seeds)))
  else if named "-filesys" then Ok (Some (mk_options o.(format_filesys) value o.(scratch_bdev_name) o.(swap_bdev_name) o.(user_page_limit) o.(thread_mlfqs) o.(how) o.(seeds)))
  else if named "-scratch" then Ok (Some (mk_options o.(format_filesys) o.(filesys_bdev_name) value o.(swap_bdev_name) o.(user_page_limit) o.(thread_mlfqs) o.(how) o.(seeds)))
  else if named "-swap" then Ok (Some (mk_options o.(format_filesys) o.(filesys_bdev_name) o.(scratch_bdev_name) value o.(user_page_limit) o.(thread_mlfqs) o.(how) o.(seeds)))
  else if named "-rs" then n ← atoi_of value; Ok (Some (set_seed (u32 n) o))
  else if named "-mlfqs" then Ok (Some (mk_options o.(format_filesys) o.(filesys_bdev_name) o.(scratch_bdev_name) o.(swap_bdev_name) o.(user_page_limit) true o.(how) o.(seeds)))
  else if named "-ul" then n ← atoi_of value;
    Ok (Some (mk_options o.(format_filesys) o.(filesys_bdev_name) o.(scratch_bdev_name) o.(swap_bdev_name) (u32 n) o.(thread_mlfqs) o.(how) o.(seeds)))
  else Err AssertFail.

(** [time]: the result of [rtc_get_time] *)
Fixpoint parse_options (time : Z) (argv : list str) (o : options) : outcome (option (options * list str)) :=
  match argv with
  | (c :: s) :: r =>
      if c =? chr "-" then
        o ← parse_option (c :: s) o;
        match o with None => Ok None | Some o => parse_options time r o end
      else Ok (Some (set_seed (u32 time) o, argv))
  | _ => Ok (Some (set_seed (u32 time) o, argv))
  end.

(** ** Actions *)

Inductive action := Arun_task (task : str) | Afsutil_ls | Afsutil_cat (file : str) | Afsutil_rm (file : str) | Afsutil_extract | Afsutil_append (file : str).

(** what the table has for a name: the number of arguments, the name included, and the routine *)
Definition find_action (name : str) : option (nat * (list str → option action)) :=
  let one (f : str → action) (l : list str) := match l with x :: _ => Some (f x) | [] => None end in
  let named s := bool_decide (name = chars s) in
  if named "run" then Some (2%nat, one Arun_task)
  else if named "ls" then Some (1%nat, λ _, Some Afsutil_ls)
  else if named "cat" then Some (2%nat, one Afsutil_cat)
  else if named "rm" then Some (2%nat, one Afsutil_rm)
  else if named "extract" then Some (1%nat, λ _, Some Afsutil_extract)
  else if named "append" then Some (2%nat, one Afsutil_append)
  else None.

(** the actions that are run, and whether all are: [false] is a panic *)
Fixpoint run_actions (n : nat) (argv : list str) : list action * bool :=
  match argv, n with
  | [], _ => ([], true)
  | name :: r, S n =>
      match find_action name with
      | None => ([], false)
      | Some (argc, f) =>
          match f r with
          | None => ([], false)
          | Some a => let '(l, ok) := run_actions n (drop argc argv) in (a :: l, ok)
          end
      end
  | _, O => ([], false)
  end.

(** * The command line of a boot script *)

Inductive opt := OpPowerOff | OpReboot | OpFormat | OpFilesys (v : str) | OpScratch (v : str) | OpSwap (v : str) | OpSeed (ds : str) | OpMlfqs | OpLimit (ds : str).

Definition show_opt (p : opt) : str :=
  match p with
  | OpPowerOff => chars "-q" | OpReboot => chars "-r" | OpFormat => chars "-f"
  | OpFilesys v => chars "-filesys=" ++ v | OpScratch v => chars "-scratch=" ++ v | OpSwap v => chars "-swap=" ++ v
  | OpSeed ds => chars "-rs=" ++ ds | OpMlfqs => chars "-mlfqs" | OpLimit ds => chars "-ul=" ++ ds
  end.

(** a value is not empty and has no null; a number is decimal digits and fits in an [int] *)
Definition value_ok (v : str) : Prop := v ≠ [] ∧ ∀ c, c ∈ v → 0 < c < 256.
Definition number_ok (ds : str) : Prop := ds ≠ [] ∧ (∀ c, c ∈ ds → isdigit c = true) ∧ digits_value ds < 2 ^ 31.

Definition opt_ok (p : opt) : Prop :=
  match p with OpFilesys v | OpScratch v | OpSwap v => value_ok v | OpSeed ds | OpLimit ds => number_ok ds | _ => True end.

Definition set_opt (o : options) (p : opt) : options :=
  match p with
  | OpPowerOff => set_how SHUTDOWN_POWER_OFF o
  | OpReboot => set_how SHUTDOWN_REBOOT o
  | OpFormat => mk_options true o.(filesys_bdev_name) o.(scratch_bdev_name) o.(swap_bdev_name) o.(user_page_limit) o.(thread_mlfqs) o.(how) o.(seeds)
  | OpFilesys v => mk_options o.(format_filesys) (Some v) o.(scratch_bdev_name) o.(swap_bdev_name) o.(user_page_limit) o.(thread_mlfqs) o.(how) o.(seeds)
  | OpScratch v => mk_options o.(format_filesys) o.(filesys_bdev_name) (Some v) o.(swap_bdev_name) o.(user_page_limit) o.(thread_mlfqs) o.(how) o.(seeds)
  | OpSwap v => mk_options o.(format_filesys) o.(filesys_bdev_name) o.(scratch_bdev_name) (Some v) o.(user_page_limit) o.(thread_mlfqs) o.(how) o.(seeds)
  | OpSeed ds => set_seed (digits_value ds) o
  | OpMlfqs => mk_options o.(format_filesys) o.(filesys_bdev_name) o.(scratch_bdev_name) o.(swap_bdev_name) o.(user_page_limit) true o.(how) o.(seeds)
  | OpLimit ds => mk_options o.(format_filesys) o.(filesys_bdev_name) o.(scratch_bdev_name) o.(swap_bdev_name) (digits_value ds) o.(thread_mlfqs) o.(how) o.(seeds)
  end.

Definition show_action (a : action) : list str :=
  match a with
  | Arun_task t => [chars "run"; t] | Afsutil_ls => [chars "ls"] | Afsutil_cat f => [chars "cat"; f] | Afsutil_rm f => [chars "rm"; f]
  | Afsutil_extract => [chars "extract"] | Afsutil_append f => [chars "append"; f]
  end.

Definition show_line (os : list opt) (acts : list action) : list str := (show_opt <$> os) ++ (acts ≫= show_action).

Lemma find_shown a rest : ∃ name r k f, show_action a ++ rest = name :: r ∧ find_action name = Some (k, f) ∧ f r = Some a ∧ drop k (name :: r) = rest.
Proof. destruct a; eexists _, _, _, _; (split; [reflexivity|]); (split; [reflexivity|]); by split. Qed.

Lemma run_actions_shown n acts : (length acts ≤ n)%nat → run_actions n (acts ≫= show_action) = (acts, true).
Proof.
  revert n. induction acts as [|a acts IH]; intros n Hn; [by destruct n|]. destruct n as [|n]; [simpl in Hn; lia|].
  change ((a :: acts) ≫= show_action) with (show_action a ++ (acts ≫= show_action)).
  destruct (find_shown a (acts ≫= show_action)) as (name & r & k & f & -> & Ef & Ea & Ed). cbn [run_actions]. rewrite Ef, Ea, Ed, IH by (simpl in Hn; lia). done.
Qed.

Lemma atoi_digits ds : number_ok ds → atoi_of (Some ds) = Ok (digits_value ds).
Proof.
  intros (Hne & Hds & Hv). unfold atoi_of. assert (Hr : ∀ c, c ∈ ds → 48 ≤ c ≤ 57).
  { intros c Hc. specialize (Hds c Hc). unfold isdigit in Hds. apply andb_true_iff in Hds as [H1%Z.leb_le H2%Z.leb_le]. lia. }
  rewrite (atoi_eq (write ∅ 1 (ds ++ [0])) 1 [] false ds []); [done|..].
  - intros c Hc. by apply elem_of_nil in Hc.
  - done.
  - done.
  - intros _. rewrite app_nil_r. destruct ds as [|c r]; [done|]. pose proof (Hr c ltac:(left)). split; [|lia].
    unfold isspace. repeat (rewrite orb_false_iff; split); apply Z.eqb_neq; lia.
  - lia.
  - lia.
  - cbn [app]. rewrite app_nil_r. apply cstr_bytes. split; [|intros H0; specialize (Hr 0 H0); lia].
    apply bytes_lookup. intros i v Hi. rewrite lookup_write, decide_True by (apply lookup_lt_Some in Hi; lia).
    replace (Z.to_nat (1 + Z.of_nat i - 1)) with i by lia. split; [done|].
    apply lookup_app_Some in Hi as [Hi|[_ Hi]]; [apply list_elem_of_lookup_2, Hr in Hi; lia|]. apply list_lookup_singleton_Some in Hi as [_ <-]. lia.
Qed.

Lemma digits_value_range ds : number_ok ds → u32 (digits_value ds) = digits_value ds.
Proof.
  intros (_ & Hds & Hv). apply u32_small. pose proof (digits_value_bound 0 ds Hds ltac:(lia)) as H. fold (digits_value ds) in H. lia.
Qed.

Lemma parse_option_shown p o : opt_ok p → parse_option (show_opt p) o = Ok (Some (set_opt o p)).
Proof.
  intros Hp. destruct p as [| | |v|v|v|ds| |ds]; try reflexivity; cbn [opt_ok] in Hp.
  1-3: destruct Hp as [Hp _]; destruct v; [done|reflexivity].
  - transitivity (n ← atoi_of (Some ds); Ok (Some (set_seed (u32 n) o))); [destruct Hp as [Hp _]; destruct ds; [done|reflexivity]|].
    rewrite (obind_ok _ _ _ (atoi_digits ds Hp)). by rewrite digits_value_range.
  - transitivity (n ← atoi_of (Some ds); Ok (Some (mk_options o.(format_filesys) o.(filesys_bdev_name) o.(scratch_bdev_name) o.(swap_bdev_name) (u32 n) o.(thread_mlfqs) o.(how) o.(seeds))));
      [destruct Hp as [Hp _]; destruct ds; [done|reflexivity]|].
    rewrite (obind_ok _ _ _ (atoi_digits ds Hp)). by rewrite digits_value_range.
Qed.

Lemma shown_dash p : ∃ r, show_opt p = 45 :: r.
Proof. destruct p; eexists; reflexivity. Qed.

Lemma parse_options_shown time os acts o : Forall opt_ok os →
  parse_options time (show_line os acts) o = Ok (Some (set_seed (u32 time) (foldl set_opt o os), acts ≫= show_action)).
Proof.
  intros Hos. revert o. induction Hos as [|p os Hp Hos IH]; intros o.
  - unfold show_line. cbn [fmap list_fmap app foldl]. destruct acts as [|a acts]; [done|]. by destruct a.
  - change (show_line (p :: os) acts) with (show_opt p :: show_line os acts). destruct (shown_dash p) as [r Er].
    pose proof (parse_option_shown p o Hp) as E. rewrite Er in E |- *. cbn [parse_options]. change (45 =? chr "-") with true. cbv iota.
    rewrite (obind_ok _ _ _ E). by rewrite IH.
Qed.

(** ** The words *)

(** the words as the loader leaves them *)
Definition packed (ws : list str) : list Z := ws ≫= λ w, w ++ [0].

Lemma string_at_app w r : (∀ c, c ∈ w → 0 < c < 256) → string_at (w ++ 0 :: r) = Some w.
Proof.
  induction w as [|c w IH]; intros Hw; [done|]. cbn [app string_at]. rewrite (proj2 (Z.eqb_neq c 0)) by (pose proof (Hw c ltac:(left)); lia).
  rewrite IH; [done|]. intros x Hx. apply Hw. by right.
Qed.

Lemma len_at_app w r n : (∀ c, c ∈ w → 0 < c < 256) → (length w < n)%nat → len_at (w ++ 0 :: r) n = length w.
Proof.
  revert n. induction w as [|c w IH]; intros [|n] Hw Hn; simpl in Hn; try lia; [done|]. cbn [app len_at length].
  rewrite (proj2 (Z.eqb_neq c 0)) by (pose proof (Hw c ltac:(left)); lia). rewrite IH; [done| |lia]. intros x Hx. apply Hw. by right.
Qed.

Lemma words_loop_spec ws pre rest i : (∀ w c, w ∈ ws → c ∈ w → 0 < c < 256) → 0 ≤ i → i + Z.of_nat (length ws) ≤ 64 →
  Z.of_nat (length (pre ++ packed ws)) ≤ 128 → words_loop (pre ++ packed ws ++ rest) (length ws) i (Z.of_nat (length pre)) = Ok ws.
Proof.
  revert pre i. induction ws as [|w ws IH]; intros pre i Hw Hi Hn Hl.
  - cbn [length words_loop]. rewrite (proj2 (Z.leb_le _ _)); [done|]. change (LOADER_ARGS_LEN / 2) with 64. simpl in Hn. lia.
  - change (packed (w :: ws)) with ((w ++ [0]) ++ packed ws) in *. cbn [length words_loop] in *. rewrite !length_app in Hl. cbn [length] in Hl.
    unfold LOADER_ARGS_LEN. rewrite (proj2 (Z.ltb_lt _ _)) by lia. change (128 / 2) with 64. rewrite (proj2 (Z.leb_le i 64)) by lia. cbn [oassert mbind outcome_bind]. cbv zeta.
    rewrite Nat2Z.id, drop_app_length. rewrite <- !app_assoc. cbn [app].
    assert (Hb : ∀ c, c ∈ w → 0 < c < 256) by (intros c Hc; eapply Hw; [left|done]).
    rewrite string_at_app by done. cbn [ofault]. rewrite len_at_app by (done || lia).
    replace (pre ++ w ++ 0 :: packed ws ++ rest) with ((pre ++ w ++ [0]) ++ packed ws ++ rest) by (by rewrite <- !app_assoc).
    replace (Z.of_nat (length pre) + Z.of_nat (length w) + 1) with (Z.of_nat (length (pre ++ w ++ [0]))) by (rewrite !length_app; cbn [length]; lia).
    rewrite IH; [done| |lia|lia|rewrite !length_app; cbn [length]; lia]. intros w' c Hw' Hc. eapply Hw; [by right|done].
Qed.

(** C37. A command line of options and actions, as the loader leaves it in memory, sets exactly
    these options, in their order, and runs exactly these actions, in theirs.  The random
    numbers are started from the time last, after a seed that an option gave. *)
Theorem command_line os acts time o rest (line := show_line os acts) : Forall opt_ok os → (∀ w c, w ∈ line → c ∈ w → 0 < c < 256) →
  (length line ≤ 64)%nat → (length (packed line) ≤ 128)%nat →
  ∃ argv, read_command_line (length line) (packed line ++ rest) = Ok argv ∧
    parse_options time argv o = Ok (Some (set_seed (u32 time) (foldl set_opt o os), acts ≫= show_action)) ∧
    run_actions (length line) (acts ≫= show_action) = (acts, true).
Proof.
  intros Hos Hb Hn Hl. exists line. split; [exact (words_loop_spec line [] rest 0 Hb ltac:(lia) ltac:(lia) ltac:(rewrite app_nil_l; lia))|].
  split; [by apply parse_options_shown|]. apply run_actions_shown. unfold line, show_line. rewrite length_app.
  clear. assert (length acts ≤ length (acts ≫= show_action))%nat; [|lia].
  induction acts as [|a acts IH]; [done|]. change ((a :: acts) ≫= show_action) with (show_action a ++ (acts ≫= show_action)).
  rewrite length_app. destruct a; cbn [show_action length]; lia.
Qed.

Definition ex_options : options := mk_options false None None None (2 ^ 32 - 1) false SHUTDOWN_NONE [].

(** [-q -f -rs=42 extract run 'echo x'] *)
Lemma command_line_witness : ∃ argv, read_command_line 6 (packed [chars "-q"; chars "-f"; chars "-rs=42"; chars "extract"; chars "run"; chars "echo x"]) = Ok argv ∧
  parse_options 7 argv ex_options = Ok (Some (mk_options true None None None (2 ^ 32 - 1) false SHUTDOWN_POWER_OFF [7; 42], [chars "extract"; chars "run"; chars "echo x"])) ∧
  run_actions 6 [chars "extract"; chars "run"; chars "echo x"] = ([Afsutil_extract; Arun_task (chars "echo x")], true).
Proof.
  assert (Hb : forallb (forallb (λ c, (0 <? c) && (c <? 256))) (show_line [OpPowerOff; OpFormat; OpSeed (chars "42")] [Afsutil_extract; Arun_task (chars "echo x")]) = true) by reflexivity.
  destruct (command_line [OpPowerOff; OpFormat; OpSeed (chars "42")] [Afsutil_extract; Arun_task (chars "echo x")] 7 ex_options []) as (argv & E1 & E2 & E3).
  - repeat constructor. { done. } { intros c Hc. apply (proj1 (forallb_forall isdigit (chars "42")) eq_refl c). by apply list_elem_of_In. }
  - intros w c Hw Hc. rewrite forallb_forall in Hb. specialize (Hb w ltac:(by apply list_elem_of_In)). rewrite forallb_forall in Hb.
    specialize (Hb c ltac:(by apply list_elem_of_In)). apply andb_true_iff in Hb as [H1%Z.ltb_lt H2%Z.ltb_lt]. lia.
  - cbn. lia.
  - cbn. lia.
  - exists argv. rewrite app_nil_r in E1. split; [exact E1|]. split; [exact E2|exact E3].
Defined.
